(* ===== verification/_CoqProject ===== *)
-Q . S2P
Prelude.v
OvpnPacket.v
OvpnReplay.v
OvpnSession.v
OvpnReliable.v
OvpnStream.v
OvpnText.v
Text.v
OvpnQueue.v
OvpnFragment.v
OvpnCompression.v
OvpnCrypto.v
OvpnDataCodec.v
OvpnMss.v
OvpnKeepalive.v
OvpnRenegotiation.v
OvpnDataPlane.v
OvpnControlWrap.v
OvpnControlChannel.v
OvpnControlMux.v
OvpnCookie.v
OvpnReset.v
OvpnDelivery.v
OvpnKeyRing.v
OvpnSoftReset.v
OvpnIpPool.v
PppFrame.v
PppControl.v
PppNegotiation.v
PppLink.v
IpText.v
SrsWire.v
SrsIpSet.v
SocksAddr.v
OvpnControlMessage.v
OvpnKeyMethod.v
OvpnRoute.v
OvpnPushOptions.v
OvpnPull.v
OvpnTlsSession.v
SrsSet.v
SrsTrie.v
SrsDomain.v
SrsAdGuard.v
SrsRule.v
RouteRule.v
RouteMatch.v
RouteMeaning.v
RuleSetFile.v
RuleSetStore.v
Router.v
RouteWalk.v
FakeIp.v
FakeIpRestart.v
DnsRules.v
DnsLegacy.v
DnsExchange.v
