(* ===== verification/Prelude.v ===== *)
(** * Verification of zay's tunnels and router: prelude and overview

    zay is a network proxy.  Its library [crates/singbox] (sources named
    below are relative to [src/crates/singbox/src]) accepts connections,
    decides by rules where each one goes, and carries it there over one of
    many protocols.  This library models and verifies five parts of it: the
    OpenVPN protocol, the PPP link of the OpenConnect protocol, the router with
    its rule-sets, the choice of DNS servers by rules, and the fake-IP
    resolver.  Pure functions are Rocq
    functions; state behind a mutex is passed in and out; a fallible function
    returns a [result] and a fallible method with side effects is a
    [method], both defined in this file; machine integers are [Z] with their
    wrapping written out, byte strings and text are [list Z].

    ** Files and sources

    - [Prelude]: results, methods, records, machine integers, list lemmas and
      the hint databases of all the files.  [Text], [OvpnText], [IpText]: the
      text operations of Rust's standard library, with its address parser.
    - OpenVPN ([protocol/openvpn]).  Wire format: [OvpnPacket] (packet.rs),
      [OvpnStream] (stream.rs).  Control channel: [OvpnSession] (session.rs),
      [OvpnReliable] (reliable.rs), [OvpnControlWrap] (control_wrap.rs),
      [OvpnControlChannel] (control_channel.rs), [OvpnControlMux]
      (control_mux.rs), [OvpnReset] and [OvpnCookie] (reset.rs,
      session_id_hmac.rs), composed over a lossy network in [OvpnDelivery].
      Data channel: [OvpnReplay] (replay.rs), [OvpnCrypto] and [OvpnDataCodec]
      (data.rs and its four codecs), [OvpnCompression] (compression.rs),
      [OvpnFragment] (fragment.rs), [OvpnMss] (mss.rs), [OvpnQueue] (queue.rs),
      composed in [OvpnDataPlane] (data_plane.rs).  Key changes:
      [OvpnKeepalive], [OvpnRenegotiation], [OvpnKeyRing], [OvpnSoftReset]
      (keepalive.rs, renegotiation.rs, data_key_ring.rs, soft_reset.rs).
      Negotiation: [OvpnControlMessage] (control.rs, auth.rs), [OvpnKeyMethod]
      (key_method.rs, negotiation.rs), [OvpnRoute] (route.rs),
      [OvpnPushOptions] (pull_options.rs, push_options.rs), [OvpnPull]
      (client_pull.rs, server_control.rs), composed in [OvpnTlsSession]
      (tls_session.rs).
      Server: [OvpnIpPool] (ip_pool.rs).
    - PPP ([protocol/openconnect_ppp_*.rs]): [PppFrame], [PppControl],
      [PppNegotiation]; two ends joined in [PppLink].
    - Router ([route], [common/network.rs], [inbound/mod.rs]).  Destinations:
      [SocksAddr].  Rules and their matching: [RouteRule], [RouteMatch] (route/mod.rs),
      with their meaning in [RouteMeaning].  Binary rule-sets (route/srs.rs):
      [SrsWire] primitives, [SrsIpSet] address sets, [SrsSet] and [SrsTrie]
      succinct tries, [SrsDomain] and [SrsAdGuard] what the tries hold,
      [SrsRule] whole files; [RuleSetFile] compiles both forms of a rule-set,
      [RuleSetStore] reloads them while the program runs (with
      dns/persistent.rs).  The walk over the rules: [Router] and [RouteWalk].
    - Fake addresses: [FakeIp] (dns/fakeip.rs, dns/persistent.rs),
      [FakeIpRestart].
    - DNS rules (dns/rule.rs): [DnsRules] matchers and actions, [DnsLegacy] what
      is known of a rule before the answer, [DnsExchange] the exchange of a
      query; they use the rule-sets of the router.

    ** Interfaces and external code

    Code outside the repository is a class of operations, with a second class
    for the laws that the theorems use: [Crypto] and [DataCiphers] (HMAC, block
    and AEAD ciphers), [Compressors] (LZO, LZ4), [IpNetOps], [IpNetLaws] and
    [IpNetTextLaws] (the crate ipnet), [RegexOps], [Zlib], [IpNetworks],
    [DnsNames] (names of the crate hickory), [Base64].
    Every theorem that needs such laws has a witness with a concrete instance.
    The trait [OpenVpnDataCodec] is a class of that name; [DataCodecLaws] is
    what the data plane relies on and what each of the four codecs is shown to
    provide.  Clocks, random draws, the order of iteration of a hash map,
    failing database statements, sniffers, name lookups and HTTP answers are
    arguments.

    ** What the theorems show

    - Data channel: what one end of a tunnel sends the other end delivers
      ([tunnel_delivers], [tls_codecs_exchange], [reassemble_any_order]), nothing
      is accepted twice ([no_replay], by the refinement [accept_locked_refines]
      of the bitmap window, and [tls_codec_no_replay]), and a clamped segment
      has a correct checksum ([clamp_tcp_syn_mss_correct]).
    - Control channel: what is delivered is a prefix of what was sent, over any
      network ([delivered_prefix]); wrapped packets come back and are not
      replayed ([crypt_round_trip], [crypt_no_replay]); the handshake
      completes within its timeout or is given up ([handshake_completes]); channels, multiplexer, key ring, reset
      coordinator and address pool keep their invariants
      ([channel_reachable_ok], [mux_reachable_ok], [ring_reachable],
      [coordinator_reachable], [leases_exclusive]); a cookie lives as long
      as it should ([cookie_lifetime]).
    - Negotiation: a client and a server that exchange their messages end with
      the same cipher, peer id and keys ([negotiation_agrees]); a configuration
      of any size reaches the client, in records that fit ([push_delivered]);
      whatever the server pushes, the options that the client accepts are well
      formed ([pushed_options_ok]).
    - PPP: two ends that talk to each other become ready and then carry
      packets ([negotiation_completes], [link_carries_packets]); framing is
      transparent ([ppp_stream_transparent]); a ready link is configured
      ([ready_configuration]); a silent peer is given up
      ([silent_peer_gives_up]).
    - Rules: the bit masks of the evaluation mean groups of conditions
      ([default_rule_meaning]); a rule-set of one rule means its conditions
      written in place ([rule_set_inlined]); the recorded categories of a
      rule-set are right ([rule_set_categories]).
    - Binary rule-sets: a file means the JSON it was written from
      ([compiled_rule_set_agrees], resting on [compiled_domains_agree] and
      [ip_set_covers] for its parts), the JSON that is recovered means the same
      ([recovered_domains_agree]), lowering the version
      of a file changes nothing else ([downgrade_keeps_payload]) and reading
      ends on every input ([read_runtime_finishes]).
    - Updates: replacing a rule-set is all or nothing, in the background too
      ([update_or_nothing]), and
      a successful request leaves the rules of the server's content in force
      ([remote_rules_current]).
    - Walks: routing a packet ends ([packet_routing_terminates]), an interrupted
      walk decides like an uninterrupted one ([resumed_walk_agrees]), rejects
      turn into drops exactly above the limit ([reject_flood_window]), and
      destinations survive as text ([socks_addr_round_trip]).
    - DNS: what is said of a rule before the answer is right
      ([possibility_right]), and an exchange ends with an answer that satisfies
      the rule it was asked for, after rules that were passed over for a reason
      ([legacy_answer]).
    - Fake addresses are one to one with names and survive a restart
      ([fakeip_one_to_one], [fakeip_survives_restart]).

    ** Fuel and bounds

    A loop that is not structural has fuel, and running out of it is a value of
    its own or is shown not to happen.  Loops over bytes have one step per byte
    they consume: the frame decoders, option parsers and [read_items] run with
    the length of the input, and [read_runtime_finishes] shows that no reader
    reaches its fuel error, that of [IpSet.split_loop] included.  [p_hash_loop]
    has the number of bytes it is asked for, as every round adds a digest.
    [IpSet.split_loop] has twice the width of an address plus two, as the
    prefixes that make up a range grow first and shrink then; [await_loop] has
    one round per packet that arrives and one per shortest wait within the
    handshake timeout;
    [label_fuel] is the number of labels plus two,
    since every step of a lookup passes one; [route_packet], [resume] and the
    [rounds] of a DNS exchange have one round per rule and one more, as every round starts behind the rule
    that ended the one before; nested rules and wildcards have the limit of
    the code, 101 levels; the loops of the reliable layer and the fragment
    store have one step per stored packet; [fold_carries] has the bits of the
    sum.  The silent peer is given up after the retransmissions that the code
    counts.

    ** Not modelled

    Sockets, tasks and timers around the modelled parts: the connectors and
    sessions of OpenVPN and OpenConnect, the inbounds and outbounds, endpoints,
    DNS transports and the HTTP clients; they run the operations modelled
    here in some order, which the theorems on reachable states quantify
    over.  The TLS library of OpenVPN delivers records in order and exports
    keys; the time between the records of a negotiation is not modelled.
    Third-party protocols in other files of [protocol] (Tailscale,
    Cloudflared, QUIC-based protocols and others), TLS and certificates.  The
    deserialisation of options by serde, except for the rules of rule-sets,
    the conversion of AdGuard lists, and DNS rules on evaluated responses.  The text of error messages.  Mutexes
    are taken as given: an operation that holds a lock is one step.
    Application, clients and scripts outside [crates/singbox]. *)

From stdpp Require Import base numbers list gmap strings sorting.
From Stdlib Require Import ZArith Lia.

Local Open Scope Z_scope.

(** ** Fallible results

    Rust's [Result<A, E>], with the [?] operator as monadic bind. *)

Inductive result (E A : Type) : Type :=
| Ok (a : A)
| Err (e : E).

Arguments Ok {E A} a.
Arguments Err {E A} e.

Global Instance result_ret E : MRet (result E) := fun A a => Ok a.
Global Instance result_bind E : MBind (result E) := fun A B f r =>
  match r with
  | Ok a => f a
  | Err e => Err e
  end.
Global Instance result_fmap E : FMap (result E) := fun A B f r =>
  match r with
  | Ok a => Ok (f a)
  | Err e => Err e
  end.

Global Instance result_eq_dec {E A} `{EqDecision E, EqDecision A} :
  EqDecision (result E A).
Proof. solve_decision. Defined.

(** Reduce binds on explicit results, and nothing else. *)
Ltac rbind := cbn [mbind result_bind mret result_ret fmap result_fmap].
Tactic Notation "rbind" "in" hyp(H) :=
  cbn [mbind result_bind mret result_ret fmap result_fmap] in H.

(** Injectivity as lemmas: unlike the [injection] tactic they do not
    simplify the arguments. *)
Lemma Ok_inj {E A} (x y : A) : @Ok E A x = Ok y -> x = y.
Proof. congruence. Qed.

Lemma Err_inj {E A} (x y : E) : @Err E A x = Err y -> x = y.
Proof. congruence. Qed.

(** A successful bind has a successful first step. *)
Lemma bind_Ok {E A B} (r : result E A) (f : A -> result E B) (b : B) :
  r ≫= f = Ok b -> exists a, r = Ok a /\ f a = Ok b.
Proof. destruct r; [eauto|done]. Qed.

Lemma bind_Err {E A B} (r : result E A) (f : A -> result E B) (e : E) :
  r ≫= f = Err e -> r = Err e \/ exists a, r = Ok a /\ f a = Err e.
Proof. destruct r; [eauto|]. intros [= ->]. by left. Qed.

(** [map_err], and [ok_or] on options. *)
Definition map_err {E F A} (f : E -> F) (r : result E A) : result F A :=
  match r with
  | Ok a => Ok a
  | Err e => Err (f e)
  end.

Lemma map_err_Ok {E F A} (f : E -> F) (r : result E A) a : map_err f r = Ok a <-> r = Ok a.
Proof. destruct r; simpl; split; congruence. Qed.

Definition ok_or {E A} (e : E) (o : option A) : result E A :=
  match o with
  | Some a => Ok a
  | None => Err e
  end.

Definition is_ok {E A} (r : result E A) : bool :=
  match r with
  | Ok _ => true
  | Err _ => false
  end.

(** ** Machine integers

    A [w]-bit unsigned integer is a [Z] in [0 <= x < 2^w]; wrapping and
    saturating arithmetic is written out. *)

Definition U8_MAX : Z := 255.
Definition U16_MAX : Z := 65535.
Definition U32_MAX : Z := 4294967295.
Definition U64_MAX : Z := 18446744073709551615.
Definition U128_MAX : Z := 340282366920938463463374607431768211455.

Definition is_u8 (x : Z) : Prop := 0 <= x <= U8_MAX.
Definition is_u16 (x : Z) : Prop := 0 <= x <= U16_MAX.
Definition is_u32 (x : Z) : Prop := 0 <= x <= U32_MAX.
Definition is_u64 (x : Z) : Prop := 0 <= x <= U64_MAX.

Definition wrap8 (x : Z) : Z := x mod 2 ^ 8.
Definition wrap16 (x : Z) : Z := x mod 2 ^ 16.
Definition wrap32 (x : Z) : Z := x mod 2 ^ 32.
Definition wrap64 (x : Z) : Z := x mod 2 ^ 64.

Definition saturating_sub (x y : Z) : Z := Z.max 0 (x - y).
Definition saturating_add (max x y : Z) : Z := Z.min max (x + y).

Definition div_ceil (x y : Z) : Z := (x + y - 1) / y.

Ltac unfold_ints :=
  unfold is_u8, is_u16, is_u32, is_u64, wrap8, wrap16, wrap32, wrap64,
    saturating_sub, saturating_add, U8_MAX, U16_MAX, U32_MAX, U64_MAX in *.

(** Linear arithmetic with the integer widths unfolded. *)
Ltac ilia := unfold_ints; lia.

(** ** Bytes

    A byte string is a [list Z] all of whose elements are [is_u8]. *)

Definition bytes_ok (l : list Z) : Prop := Forall is_u8 l.

(** [uN::to_be_bytes] with [n] bytes, and [uN::from_be_bytes]. *)
Fixpoint to_be_bytes (n : nat) (x : Z) : list Z :=
  match n with
  | O => []
  | S n => to_be_bytes n (Z.shiftr x 8) ++ [Z.land x 255]
  end.

Definition from_be_bytes (l : list Z) : Z :=
  foldl (fun acc b => Z.lor (Z.shiftl acc 8) b) 0 l.

(** A test for concrete byte strings. *)
Definition bytes_okb (l : list Z) : bool :=
  forallb (fun b => (0 <=? b) && (b <=? U8_MAX)) l.

Lemma bytes_okb_true l : bytes_okb l = true -> bytes_ok l.
Proof.
  unfold bytes_okb, bytes_ok, is_u8. rewrite forallb_forall, Forall_forall.
  intros Hl b Hb%list_elem_of_In%Hl. apply andb_prop in Hb. lia.
Qed.

Create HintDb zay.

Lemma land_255 x : Z.land x 255 = x mod 256.
Proof. change 255 with (Z.ones 8). by rewrite Z.land_ones. Qed.

Lemma land_7 x : Z.land x 7 = x mod 8.
Proof. change 7 with (Z.ones 3). by rewrite Z.land_ones. Qed.

Lemma shiftr_3 x : Z.shiftr x 3 = x / 8.
Proof. by rewrite Z.shiftr_div_pow2. Qed.

Lemma shiftl_3 x : Z.shiftl x 3 = x * 8.
Proof. by rewrite Z.shiftl_mul_pow2. Qed.

Lemma shiftr_8 x : Z.shiftr x 8 = x / 256.
Proof. by rewrite Z.shiftr_div_pow2. Qed.

(** Bits at or above the width of a bounded number are zero. *)
Lemma testbit_above n b i :
  0 <= n -> 0 <= b < 2 ^ n -> n <= i -> Z.testbit b i = false.
Proof.
  intros Hn Hb Hi. rewrite <- (Z.mod_small b (2 ^ n)) by done.
  by apply Z.mod_pow2_bits_high.
Qed.

(** A disjunction whose low operand fits under the shift is an addition. *)
Lemma lor_shiftl_add a b n :
  0 <= n -> 0 <= b < 2 ^ n -> Z.lor (Z.shiftl a n) b = a * 2 ^ n + b.
Proof.
  intros Hn Hb. rewrite <- Z.shiftl_mul_pow2 by lia.
  rewrite Z.add_nocarry_lxor; apply Z.bits_inj'; intros i Hi;
    rewrite ?Z.lor_spec, ?Z.lxor_spec, ?Z.land_spec, Z.shiftl_spec by lia;
    (destruct (decide (i < n));
      [rewrite (Z.testbit_neg_r a (i - n)) by lia
      |rewrite (testbit_above n b i) by lia]);
    rewrite ?Z.bits_0; by destruct (Z.testbit _ _).
Qed.

Lemma length_to_be_bytes n x : length (to_be_bytes n x) = n.
Proof.
  revert x. induction n as [|n IH]; intros x; simpl; [done|].
  rewrite length_app, IH. simpl. lia.
Qed.

Lemma to_be_bytes_ok n x : bytes_ok (to_be_bytes n x).
Proof.
  revert x. induction n as [|n IH]; intros x; simpl; [constructor|].
  apply Forall_app. split; [apply IH|].
  repeat constructor; rewrite land_255; unfold U8_MAX;
    pose proof (Z.mod_pos_bound x 256); lia.
Qed.

Lemma from_be_bytes_app l b :
  is_u8 b -> from_be_bytes (l ++ [b]) = from_be_bytes l * 256 + b.
Proof.
  intros Hb. unfold from_be_bytes. rewrite foldl_app. simpl.
  apply lor_shiftl_add; ilia.
Qed.

Lemma from_to_be_bytes n x :
  0 <= x < 2 ^ (8 * Z.of_nat n) -> from_be_bytes (to_be_bytes n x) = x.
Proof.
  revert x. induction n as [|n IH]; intros x Hx.
  - simpl in *. change (from_be_bytes []) with 0. lia.
  - cbn [to_be_bytes]. rewrite land_255, shiftr_8.
    rewrite from_be_bytes_app
      by (unfold is_u8, U8_MAX; pose proof (Z.mod_pos_bound x 256); lia).
    rewrite Nat2Z.inj_succ, Z.mul_succ_r, Z.pow_add_r in Hx by lia.
    change (2 ^ 8) with 256 in Hx.
    rewrite IH.
    + pose proof (Z.div_mod x 256). lia.
    + split; [apply Z.div_pos; lia|]. apply Z.div_lt_upper_bound; lia.
Qed.

Lemma from_be_bytes_bound l :
  bytes_ok l -> 0 <= from_be_bytes l < 2 ^ (8 * Z.of_nat (length l)).
Proof.
  induction l as [|b l IH] using rev_ind; intros Hl;
    [change (0 <= 0 < 1); lia|].
  apply Forall_app in Hl as [Hl Hb]. rewrite Forall_singleton in Hb.
  rewrite from_be_bytes_app by exact Hb. specialize (IH Hl).
  rewrite length_app, Nat2Z.inj_add, Z.mul_add_distr_l, Z.pow_add_r by lia.
  simpl length. change (2 ^ (8 * Z.of_nat 1)) with 256. ilia.
Qed.

Lemma to_from_be_bytes l :
  bytes_ok l -> to_be_bytes (length l) (from_be_bytes l) = l.
Proof.
  induction l as [|b l IH] using rev_ind; intros Hl; [done|].
  apply Forall_app in Hl as [Hl Hb]. rewrite Forall_singleton in Hb.
  rewrite from_be_bytes_app by exact Hb.
  rewrite length_app, Nat.add_comm. cbn [length Nat.add to_be_bytes].
  rewrite land_255, shiftr_8.
  replace ((from_be_bytes l * 256 + b) / 256) with (from_be_bytes l)
    by (apply (Z.div_unique _ _ _ b); ilia).
  replace ((from_be_bytes l * 256 + b) mod 256) with b
    by (apply (Z.mod_unique _ _ (from_be_bytes l)); ilia).
  by rewrite IH.
Qed.

Lemma to_from_be_bytes_len n l :
  bytes_ok l -> length l = n -> to_be_bytes n (from_be_bytes l) = l.
Proof. intros Hl <-. by apply to_from_be_bytes. Qed.

(** A field of fixed width is read back from the front. *)
Lemma to_be_bytes_inj n x y :
  0 <= x < 2 ^ (8 * Z.of_nat n) -> 0 <= y < 2 ^ (8 * Z.of_nat n) ->
  to_be_bytes n x = to_be_bytes n y -> x = y.
Proof.
  intros Hx Hy E. rewrite <- (from_to_be_bytes n x), <- (from_to_be_bytes n y) by done.
  by rewrite E.
Qed.

Lemma be_field_inj n x y l1 l2 :
  0 <= x < 2 ^ (8 * Z.of_nat n) -> 0 <= y < 2 ^ (8 * Z.of_nat n) ->
  to_be_bytes n x ++ l1 = to_be_bytes n y ++ l2 -> x = y /\ l1 = l2.
Proof.
  intros Hx Hy [E ->]%app_inj_1; [|by rewrite !length_to_be_bytes].
  split; [|done]. by apply (to_be_bytes_inj n).
Qed.

Lemma from_be_bytes_u32 l :
  bytes_ok l -> length l = 4%nat -> is_u32 (from_be_bytes l).
Proof.
  intros Hl Hlen. pose proof (from_be_bytes_bound _ Hl) as Hb.
  rewrite Hlen in Hb. change (2 ^ (8 * Z.of_nat 4)) with 4294967296 in Hb. ilia.
Qed.

Global Arguments to_be_bytes : simpl never.
Global Arguments from_be_bytes : simpl never.

(** ** Sums over finite maps *)

Definition map_sum {A} (f : A -> Z) (m : gmap Z A) : Z :=
  map_fold (fun _ x acc => f x + acc) 0 m.

Section map_sum.
Context {A : Type} (f : A -> Z).
Implicit Types m : gmap Z A.

Lemma map_sum_empty : map_sum f ∅ = 0.
Proof. done. Qed.

Lemma map_sum_insert_new m k x :
  m !! k = None -> map_sum f (<[k := x]> m) = f x + map_sum f m.
Proof.
  intros Hk. unfold map_sum.
  by rewrite (map_fold_insert_L (fun _ x acc => f x + acc)) by (done || (intros; lia)).
Qed.

Lemma map_sum_singleton k x : map_sum f {[k := x]} = f x.
Proof.
  rewrite <- insert_empty, map_sum_insert_new by apply lookup_empty.
  apply Z.add_0_r.
Qed.

Lemma map_sum_delete m k x :
  m !! k = Some x -> map_sum f (delete k m) = map_sum f m - f x.
Proof.
  intros Hk. rewrite <- (insert_delete_id m k x) at 2 by done.
  rewrite map_sum_insert_new by apply lookup_delete_eq. lia.
Qed.

Lemma map_sum_insert m k x :
  map_sum f (<[k := x]> m) = f x + map_sum f m - from_option f 0 (m !! k).
Proof.
  destruct (m !! k) as [y|] eqn:Hk; simpl.
  - rewrite <- insert_delete_eq, map_sum_insert_new by apply lookup_delete_eq.
    rewrite (map_sum_delete _ _ y) by done. lia.
  - rewrite map_sum_insert_new by done. lia.
Qed.

Lemma map_sum_nonneg m :
  (forall k x, m !! k = Some x -> 0 <= f x) -> 0 <= map_sum f m.
Proof.
  induction m as [|k x m Hk IH] using map_ind; intros Hm; [done|].
  rewrite map_sum_insert_new by done.
  assert (0 <= f x) by (apply (Hm k); apply lookup_insert_eq).
  assert (0 <= map_sum f m); [|lia]. apply IH. intros k' y Hy.
  apply (Hm k'). rewrite lookup_insert_ne; [done|congruence].
Qed.

Lemma map_sum_lookup_le m k x :
  (forall k x, m !! k = Some x -> 0 <= f x) ->
  m !! k = Some x -> f x <= map_sum f m.
Proof.
  intros Hm Hk. assert (0 <= map_sum f (delete k m)).
  { apply map_sum_nonneg. intros k' y [_ Hy]%lookup_delete_Some. eauto. }
  rewrite (map_sum_delete _ _ x) in * by done. lia.
Qed.

Lemma map_sum_mono m m' :
  (forall k x, m' !! k = Some x -> 0 <= f x) ->
  m ⊆ m' -> map_sum f m <= map_sum f m'.
Proof.
  revert m'. induction m as [|k x m Hk IH] using map_ind; intros m' Hm Hsub.
  { rewrite map_sum_empty. by apply map_sum_nonneg. }
  assert (m' !! k = Some x) as Hk'
    by (eapply lookup_weaken; [apply lookup_insert_eq|exact Hsub]).
  rewrite map_sum_insert_new by done.
  assert (map_sum f m <= map_sum f (delete k m')) as Hle.
  { apply IH; [intros k' y [_ Hy]%lookup_delete_Some; eauto|].
    apply map_subseteq_spec. intros k' y Hy. rewrite lookup_delete_ne by congruence.
    eapply lookup_weaken; [|exact Hsub]. by rewrite lookup_insert_ne by congruence. }
  rewrite (map_sum_delete _ _ x) in Hle by done. lia.
Qed.

End map_sum.

Lemma map_sum_ext {A} (f g : A -> Z) (m : gmap Z A) :
  (forall k x, m !! k = Some x -> f x = g x) -> map_sum f m = map_sum g m.
Proof.
  induction m as [|k x m Hk IH] using map_ind; intros Hm; [done|].
  rewrite !map_sum_insert_new by done.
  rewrite (Hm k x) by apply lookup_insert_eq. f_equal. apply IH.
  intros k' y Hy. apply (Hm k'). rewrite lookup_insert_ne; [done|congruence].
Qed.

(** Iteration of a [BTreeMap]: by ascending key. *)
Definition key_le {A} (x y : Z * A) : Prop := x.1 <= y.1.

Global Instance key_le_dec {A} : RelDecision (@key_le A).
Proof. intros x y. unfold key_le. apply _. Defined.

Definition entries {A} (m : gmap Z A) : list (Z * A) :=
  merge_sort key_le (map_to_list m).

(** ** Record update

    [r <| f := v |>] is the record [r] with [v] in field [f], for a record type
    whose fields an instance of [Settable] lists. *)

Class Settable (R : Type) := eta_record : R -> R.
Class Setter {R T : Type} (proj : R -> T) := set_field : (T -> T) -> R -> R.
Global Arguments set_field {R T} proj {Setter} f r /.

Ltac derive_setter proj :=
  match goal with
  | |- @Setter ?R ?T _ =>
      let eta := constr:(_ : Settable R) in
      let eta := eval red in eta in
      exact (fun (f : T -> T) (r : R) =>
        ltac:(let t := eval cbv beta in (eta r) in
              lazymatch eval pattern (proj r) in t with
              | ?g _ => let u := eval cbv beta in (g (f (proj r))) in exact u
              end))
  end.

Global Hint Extern 1 (Setter ?proj) => derive_setter proj : typeclass_instances.

Declare Scope record_scope.
Delimit Scope record_scope with record.
Notation "r <| proj := v |>" := (set_field proj (fun _ => v) r)
  (at level 1, left associativity, format "r  <| proj  :=  v |>") : record_scope.
Notation "r <| proj ::= f |>" := (set_field proj f r)
  (at level 1, left associativity, format "r  <| proj  ::=  f |>") : record_scope.

(** ** State and errors

    A method that takes [&mut self] and returns a [Result]: what it has written
    stays written when it fails. *)

Definition method (S E A : Type) : Type := S -> result E A * S.

Global Instance method_ret S E : MRet (method S E) := fun A a s => (Ok a, s).
Global Instance method_bind S E : MBind (method S E) := fun A B f m s =>
  match m s with
  | (Ok a, s) => f a s
  | (Err e, s) => (Err e, s)
  end.

Definition throw {S E A} (e : E) : method S E A := fun s => (Err e, s).
Definition lift {S E A} (r : result E A) : method S E A := fun s => (r, s).
Definition gets {S E A} (f : S -> A) : method S E A := fun s => (Ok (f s), s).
Definition modify {S E} (f : S -> S) : method S E unit := fun s => (Ok tt, f s).

Definition when {S E} (b : bool) (m : method S E unit) : method S E unit :=
  if b then m else mret tt.

(** A loop whose body threads a local value and may return early with an error. *)
Fixpoint for_each {S E A B} (body : B -> A -> method S E B) (l : list A) (acc : B)
    : method S E B :=
  match l with
  | [] => mret acc
  | x :: l => acc ← body acc x; for_each body l acc
  end.

Lemma bind_method_Ok {S E A B} (m : method S E A) (f : A -> method S E B) s b s' :
  (m ≫= f) s = (Ok b, s') -> exists a s1, m s = (Ok a, s1) /\ f a s1 = (Ok b, s').
Proof. unfold mbind, method_bind. destruct (m s) as [[a|e] s1]; [eauto|done]. Qed.

Lemma mret_Ok {S E A} (a b : A) (s s' : S) :
  (mret a : method S E A) s = (Ok b, s') -> a = b /\ s = s'.
Proof. by intros [= <- <-]. Qed.

(** [respects R m s]: running [m] from [s], however it ends, leaves a state that
    [R] relates to [s]. *)
Definition respects {S E A} (R : relation S) (m : method S E A) (s : S) : Prop := R s (m s).2.

Section respects.
Context {S E : Type} (R : relation S) `{!PreOrder R}.

Lemma respects_ret {A} (a : A) s : respects R (mret a : method S E A) s.
Proof. unfold respects. reflexivity. Qed.

Lemma respects_throw {A} (e : E) s : respects R (throw e : method S E A) s.
Proof. unfold respects. reflexivity. Qed.

Lemma respects_lift {A} (r : result E A) s : respects R (lift r) s.
Proof. unfold respects. reflexivity. Qed.

Lemma respects_gets {A} (f : S -> A) s : respects R (gets f : method S E A) s.
Proof. unfold respects. reflexivity. Qed.

Lemma respects_modify (f : S -> S) s : R s (f s) -> respects R (modify f : method S E unit) s.
Proof. done. Qed.

Lemma respects_result {A} (m : method S E A) s r s' : respects R m s -> m s = (r, s') -> R s s'.
Proof. unfold respects. intros Hr Hm. by rewrite Hm in Hr. Qed.

Lemma respects_bind {A B} (m : method S E A) (f : A -> method S E B) s :
  respects R m s -> (forall a s', m s = (Ok a, s') -> respects R (f a) s') ->
  respects R (m ≫= f) s.
Proof.
  unfold respects, mbind, method_bind. destruct (m s) as [[a|e] s']; simpl; [|done].
  intros Hm Hf. etransitivity; [exact Hm|by apply Hf].
Qed.

(** Reading the state tells the continuation what it is. *)
Lemma respects_gets_bind {A B} (g : S -> A) (f : A -> method S E B) s :
  respects R (f (g s)) s -> respects R (gets g ≫= f) s.
Proof. done. Qed.

Lemma respects_lift_bind {A B} (r : result E A) (f : A -> method S E B) s :
  (forall a, r = Ok a -> respects R (f a) s) -> respects R (lift r ≫= f) s.
Proof.
  intros Hf. destruct r as [a|e]; [by apply (Hf a)|]. unfold respects. simpl. reflexivity.
Qed.

Lemma respects_for_each {A B} (body : B -> A -> method S E B) l acc s :
  (forall acc x s, x ∈ l -> respects R (body acc x) s) -> respects R (for_each body l acc) s.
Proof.
  revert acc s. induction l as [|x l IH]; intros acc s Hb; [apply respects_ret|].
  apply respects_bind; [by apply Hb; left|]. intros acc' s' _. apply IH. intros. apply Hb. by right.
Qed.

End respects.

(** A property of the local value of a loop. *)
Lemma for_each_inv {S E A B} (P : B -> Prop) (body : B -> A -> method S E B) l acc acc' s s' :
  (forall acc x s acc' s', x ∈ l -> P acc -> body acc x s = (Ok acc', s') -> P acc') ->
  P acc -> for_each body l acc s = (Ok acc', s') -> P acc'.
Proof.
  revert acc s. induction l as [|x l IH]; intros acc s Hb Hp; [by intros [= <- <-]|].
  cbn [for_each]. unfold mbind, method_bind.
  destruct (body acc x s) as [[acc1|e] s1] eqn:Hx; [|done].
  apply IH; [intros; eapply Hb; [by right|done..]|]. eapply Hb; [by left|done..].
Qed.

(** Walks through a method, leaving the writes and the calls. *)
Ltac respects :=
  repeat (cbn beta zeta;
    match goal with
    | |- respects _ (gets _ ≫= _) _ => apply respects_gets_bind
    | |- respects _ (lift _ ≫= _) _ =>
        apply respects_lift_bind; [typeclasses eauto|]; intros ? ?
    | |- respects _ (_ ≫= _) _ => apply respects_bind; [try typeclasses eauto| |intros ? ? _]
    | |- respects _ (mret _) _ => apply respects_ret; typeclasses eauto
    | |- respects _ (throw _) _ => apply respects_throw; typeclasses eauto
    | |- respects _ (lift _) _ => apply respects_lift; typeclasses eauto
    | |- respects _ (gets _) _ => apply respects_gets; typeclasses eauto
    | |- respects _ (when ?b _) _ => destruct b eqn:?; cbn [when]
    | |- respects _ (if ?b then _ else _) _ => destruct b eqn:?
    | |- respects _ (match ?x with _ => _ end) _ => destruct x eqn:?
    end).

(** ** Transition systems *)

(** A property that every step preserves holds in every reachable state. *)
Lemma rtc_invariant {A} (R : A -> A -> Prop) (P : A -> Prop) (x y : A) :
  (forall a b, P a -> R a b -> P b) -> P x -> rtc R x y -> P y.
Proof. intros Hstep Hx Hr. induction Hr; eauto. Qed.

(** ** Addresses *)

(** [std::net::IpAddr]: an IPv4 address is a [u32], an IPv6 address a [u128]. *)
Inductive IpAddr : Type :=
| IpV4 (address : Z)
| IpV6 (address : Z).

Global Instance IpAddr_eq_dec : EqDecision IpAddr.
Proof. solve_decision. Defined.

Global Instance IpAddr_countable : Countable IpAddr.
Proof.
  apply (inj_countable' (fun a => match a with IpV4 x => inl x | IpV6 x => inr x end)
    (fun s => match s with inl x => IpV4 x | inr x => IpV6 x end)).
  by intros [].
Defined.

Definition is_ipv4 (a : IpAddr) : bool :=
  match a with IpV4 _ => true | IpV6 _ => false end.

Definition is_ipv6 (a : IpAddr) : bool := negb (is_ipv4 a).

(** [std::net::SocketAddr]. *)
Inductive SocketAddr : Type :=
| SockV4 (ip port : Z)
| SockV6 (ip port flowinfo scope_id : Z).

Global Instance SocketAddr_eq_dec : EqDecision SocketAddr.
Proof. solve_decision. Defined.

(** ** Clocks

    [std::time::Duration] is a number of nanoseconds, bounded by the largest
    representable duration; [std::time::Instant] is a point on a monotonic
    clock, in nanoseconds from an arbitrary origin. *)

Definition NANOS_PER_SEC : Z := 1000000000.
Definition DURATION_MAX : Z := U64_MAX * NANOS_PER_SEC + 999999999.
Definition from_secs (s : Z) : Z := s * NANOS_PER_SEC.

(** [Duration::saturating_mul]. *)
Definition duration_saturating_mul (d k : Z) : Z := Z.min DURATION_MAX (d * k).

(** [Instant::duration_since] and [Instant::saturating_duration_since]: both
    return zero when the argument is later. *)
Definition duration_since (now earlier : Z) : Z := Z.max 0 (now - earlier).
