(* ===== verification/OvpnPacket.v ===== *)
(** * The OpenVPN wire packet ([protocol/openvpn/packet.rs]) *)

From stdpp Require Import base numbers list gmap strings.
From Stdlib Require Import ZArith Lia.
From S2P Require Import Prelude.

Local Open Scope Z_scope.

Definition SESSION_ID_LENGTH : nat := 8.

Inductive Opcode : Type :=
| ControlHardResetClientV1
| ControlHardResetServerV1
| ControlSoftResetV1
| ControlV1
| AcknowledgmentV1
| DataV1
| ControlHardResetClientV2
| ControlHardResetServerV2
| DataV2
| ControlHardResetClientV3
| ControlWkcV1
| Unknown (value : Z).

Global Instance Opcode_eq_dec : EqDecision Opcode.
Proof. solve_decision. Defined.

Module Opcode.

Definition from_wire (value : Z) : Opcode :=
  match value with
  | 1 => ControlHardResetClientV1
  | 2 => ControlHardResetServerV1
  | 3 => ControlSoftResetV1
  | 4 => ControlV1
  | 5 => AcknowledgmentV1
  | 6 => DataV1
  | 7 => ControlHardResetClientV2
  | 8 => ControlHardResetServerV2
  | 9 => DataV2
  | 10 => ControlHardResetClientV3
  | 11 => ControlWkcV1
  | value => Unknown value
  end.

Definition wire_value (op : Opcode) : Z :=
  match op with
  | ControlHardResetClientV1 => 1
  | ControlHardResetServerV1 => 2
  | ControlSoftResetV1 => 3
  | ControlV1 => 4
  | AcknowledgmentV1 => 5
  | DataV1 => 6
  | ControlHardResetClientV2 => 7
  | ControlHardResetServerV2 => 8
  | DataV2 => 9
  | ControlHardResetClientV3 => 10
  | ControlWkcV1 => 11
  | Unknown value => value
  end.

Definition is_control (op : Opcode) : bool :=
  match op with
  | ControlHardResetClientV1 | ControlHardResetServerV1
  | ControlSoftResetV1 | ControlV1 | ControlHardResetClientV2
  | ControlHardResetServerV2 | ControlHardResetClientV3
  | ControlWkcV1 => true
  | _ => false
  end.

Definition is_data (op : Opcode) : bool :=
  match op with DataV1 | DataV2 => true | _ => false end.

Lemma wire_value_from_wire v : wire_value (from_wire v) = v.
Proof.
  destruct v as [|p|p]; [done| |done].
  do 4 (destruct p as [p|p|]; [| |done]); done.
Qed.

(** The opcodes that have a wire representation: five bits, and [Unknown] only
    for the values no other constructor stands for. *)
Definition ok (op : Opcode) : Prop :=
  from_wire (wire_value op) = op /\ 0 <= wire_value op < 32.

Lemma from_wire_ok v : 0 <= v < 32 -> ok (from_wire v).
Proof. intros Hv. unfold ok. by rewrite wire_value_from_wire. Qed.

Lemma control_not_data op :
  is_control op || bool_decide (op = AcknowledgmentV1) = true ->
  is_data op = false.
Proof. by destruct op. Qed.

End Opcode.

Inductive PacketError : Type :=
| TooShort
| TooManyAcknowledgments.

Global Instance PacketError_eq_dec : EqDecision PacketError.
Proof. solve_decision. Defined.

Module Packet.

Record Packet : Type := mkPacket {
  opcode : Opcode;
  key_id : Z;
  peer_id : list Z;
  local_session_id : list Z;
  acknowledgment_ids : list Z;
  remote_session_id : list Z;
  id : Z;
  payload : list Z;
  link_source : option SocketAddr;
}.

Global Instance Packet_eq_dec : EqDecision Packet.
Proof. solve_decision. Defined.

(** [[0; SESSION_ID_LENGTH]]. *)
Definition zero_session_id : list Z := replicate SESSION_ID_LENGTH 0.

(** [Packet::new]. *)
Definition new (op : Opcode) (key : Z) (body : list Z) : Packet :=
  mkPacket op (Z.land key 7) [0; 0; 0] zero_session_id [] zero_session_id 0
    body None.

(** Field assignments. *)
Definition set_opcode (op : Opcode) (p : Packet) : Packet :=
  mkPacket op (key_id p) (peer_id p) (local_session_id p)
    (acknowledgment_ids p) (remote_session_id p) (id p) (payload p)
    (link_source p).
Definition set_peer_id (v : list Z) (p : Packet) : Packet :=
  mkPacket (opcode p) (key_id p) v (local_session_id p)
    (acknowledgment_ids p) (remote_session_id p) (id p) (payload p)
    (link_source p).
Definition set_local_session_id (v : list Z) (p : Packet) : Packet :=
  mkPacket (opcode p) (key_id p) (peer_id p) v
    (acknowledgment_ids p) (remote_session_id p) (id p) (payload p)
    (link_source p).
Definition set_acknowledgment_ids (v : list Z) (p : Packet) : Packet :=
  mkPacket (opcode p) (key_id p) (peer_id p) (local_session_id p)
    v (remote_session_id p) (id p) (payload p) (link_source p).
Definition set_remote_session_id (v : list Z) (p : Packet) : Packet :=
  mkPacket (opcode p) (key_id p) (peer_id p) (local_session_id p)
    (acknowledgment_ids p) v (id p) (payload p) (link_source p).
Definition set_id (v : Z) (p : Packet) : Packet :=
  mkPacket (opcode p) (key_id p) (peer_id p) (local_session_id p)
    (acknowledgment_ids p) (remote_session_id p) v (payload p)
    (link_source p).
Definition set_payload (v : list Z) (p : Packet) : Packet :=
  mkPacket (opcode p) (key_id p) (peer_id p) (local_session_id p)
    (acknowledgment_ids p) (remote_session_id p) (id p) v (link_source p).

(** [Packet::set_link_source]. *)
Definition set_link_source (v : option SocketAddr) (p : Packet) : Packet :=
  mkPacket (opcode p) (key_id p) (peer_id p) (local_session_id p)
    (acknowledgment_ids p) (remote_session_id p) (id p) (payload p) v.

(** [take]: split off a prefix of the input cursor; the new cursor is the
    second component. *)
Definition take (input : list Z) (length : nat) :
    result PacketError (list Z * list Z) :=
  if decide (List.length input < length)%nat then Err TooShort
  else Ok (firstn length input, skipn length input).

(** The acknowledgment loop of [Packet::parse]. *)
Fixpoint parse_acknowledgments (count : nat) (body : list Z) :
    result PacketError (list Z * list Z) :=
  match count with
  | O => Ok ([], body)
  | S count =>
      '(raw, body) ← take body 4;
      '(rest, body) ← parse_acknowledgments count body;
      Ok (from_be_bytes raw :: rest, body)
  end.

(** The session, acknowledgment and packet-id fields of control and
    acknowledgment packets. *)
Definition parse_control_fields (packet : Packet) (body : list Z) :
    result PacketError (Packet * list Z) :=
  '(sid, body) ← take body 8;
  '(count, body) ← take body 1;
  let acknowledgment_count := Z.to_nat (hd 0 count) in
  '(acks, body) ← parse_acknowledgments acknowledgment_count body;
  '(remote, body) ←
    (if decide (0 < acknowledgment_count)%nat then take body 8
     else Ok (zero_session_id, body));
  '(pid, body) ←
    (if decide (opcode packet <> AcknowledgmentV1) then
       '(raw, body) ← take body 4; Ok (from_be_bytes raw, body)
     else Ok (0, body));
  Ok (set_id pid
        (set_remote_session_id remote
          (set_acknowledgment_ids acks (set_local_session_id sid packet))),
      body).

(** [Packet::parse]. *)
Definition parse (input : list Z) : result PacketError Packet :=
  match input with
  | [] => Err TooShort
  | header :: body =>
      let op := Opcode.from_wire (Z.shiftr header 3) in
      let packet := new op (Z.land header 7) [] in
      '(packet, body) ←
        (if decide (op = DataV2) then
           '(peer, body) ← take body 3; Ok (set_peer_id peer packet, body)
         else Ok (packet, body));
      '(packet, body) ←
        (if Opcode.is_control op || bool_decide (op = AcknowledgmentV1)
         then parse_control_fields packet body
         else Ok (packet, body));
      Ok (set_payload body packet)
  end.

(** The control and acknowledgment fields written by [Packet::encode]. *)
Definition encode_control_fields (p : Packet) : result PacketError (list Z) :=
  let count := Z.of_nat (length (acknowledgment_ids p)) in
  if decide (U8_MAX < count) then Err TooManyAcknowledgments
  else
    Ok (local_session_id p ++ [count]
        ++ flat_map (to_be_bytes 4) (acknowledgment_ids p)
        ++ (if decide (0 < count) then remote_session_id p else [])
        ++ (if decide (opcode p <> AcknowledgmentV1)
            then to_be_bytes 4 (id p) else [])).

(** [Packet::encode]. *)
Definition encode (p : Packet) : result PacketError (list Z) :=
  let header :=
    [Z.lor (wrap8 (Z.shiftl (Opcode.wire_value (opcode p)) 3))
       (Z.land (key_id p) 7)]
  in
  fields ←
    (if decide (opcode p = DataV2) then Ok (peer_id p)
     else if Opcode.is_control (opcode p)
             || bool_decide (opcode p = AcknowledgmentV1)
     then encode_control_fields p
     else Ok []);
  Ok (header ++ fields ++ payload p).

(** ** Well-formed packets

    The packets [parse] can produce: fields a packet kind does not carry are
    zero, and every field is in range. *)

Definition carries_control_fields (op : Opcode) : bool :=
  Opcode.is_control op || bool_decide (op = AcknowledgmentV1).

Record ok (p : Packet) : Prop := mkOk {
  ok_opcode : Opcode.ok (opcode p);
  ok_key_id : 0 <= key_id p < 8;
  ok_peer_id : bytes_ok (peer_id p) /\ length (peer_id p) = 3%nat;
  ok_peer_id_v2 : opcode p <> DataV2 -> peer_id p = [0; 0; 0];
  ok_local : bytes_ok (local_session_id p)
             /\ length (local_session_id p) = SESSION_ID_LENGTH;
  ok_remote : bytes_ok (remote_session_id p)
              /\ length (remote_session_id p) = SESSION_ID_LENGTH;
  ok_remote_none :
    acknowledgment_ids p = [] -> remote_session_id p = zero_session_id;
  ok_acks : Forall is_u32 (acknowledgment_ids p)
            /\ (length (acknowledgment_ids p) <= 255)%nat;
  ok_id : is_u32 (id p);
  ok_id_none : opcode p = AcknowledgmentV1 -> id p = 0;
  ok_other : carries_control_fields (opcode p) = false ->
    local_session_id p = zero_session_id /\ acknowledgment_ids p = []
    /\ id p = 0;
  ok_payload : bytes_ok (payload p);
  ok_link_source : link_source p = None;
}.

Lemma zero_session_id_ok : bytes_ok zero_session_id.
Proof. apply Forall_replicate. ilia. Qed.

Lemma take_app l1 l2 n :
  length l1 = n -> take (l1 ++ l2) n = Ok (l1, l2).
Proof.
  intros <-. unfold take. rewrite decide_False by (rewrite length_app; lia).
  by rewrite take_app_length, drop_app_length.
Qed.

Lemma take_Ok l n a b :
  take l n = Ok (a, b) -> l = a ++ b /\ length a = n.
Proof.
  unfold take. case_decide; [done|]. intros [= <- <-].
  rewrite take_drop, length_take. split; [done|lia].
Qed.

Lemma take_bytes_ok l n a b :
  bytes_ok l -> take l n = Ok (a, b) -> bytes_ok a /\ bytes_ok b.
Proof.
  intros Hl [-> _]%take_Ok. by apply Forall_app in Hl.
Qed.

Lemma parse_acknowledgments_app ids rest :
  Forall is_u32 ids ->
  parse_acknowledgments (length ids) (flat_map (to_be_bytes 4) ids ++ rest)
  = Ok (ids, rest).
Proof.
  induction 1 as [|x ids Hx Hids IH]; [done|].
  cbn [length flat_map parse_acknowledgments].
  rewrite <- (assoc_L (++)).
  rewrite (take_app (to_be_bytes 4 x)) by apply length_to_be_bytes.
  rbind. rewrite IH. rbind. by rewrite from_to_be_bytes by (simpl; ilia).
Qed.

Lemma parse_acknowledgments_Ok n l ids rest :
  bytes_ok l ->
  parse_acknowledgments n l = Ok (ids, rest) ->
  l = flat_map (to_be_bytes 4) ids ++ rest /\ length ids = n /\ Forall is_u32 ids.
Proof.
  revert l ids. induction n as [|n IH]; intros l ids Hl;
    cbn [parse_acknowledgments].
  - intros [= <- <-]. done.
  - destruct (take l 4) as [[raw body]|] eqn:Ht; rbind; [|done].
    destruct (take_bytes_ok _ _ _ _ Hl Ht) as [Hraw Hbody].
    apply take_Ok in Ht as [-> Hlen].
    destruct (parse_acknowledgments n body) as [[ids' rest']|] eqn:Hp;
      rbind; [|done].
    intros [= <- <-]. apply IH in Hp as (-> & <- & Hids); [|done].
    cbn [flat_map]. rewrite to_from_be_bytes_len by done.
    rewrite <- (assoc_L (++)). split_and!; [done..|]. constructor; [|done].
    by apply from_be_bytes_u32.
Qed.

(** The header byte. *)
Lemma header_encode w k :
  0 <= w < 32 -> 0 <= k < 8 ->
  Z.lor (wrap8 (Z.shiftl w 3)) (Z.land k 7) = w * 8 + k.
Proof.
  intros Hop Hk. unfold wrap8. rewrite land_7, (Z.mod_small k) by lia.
  rewrite (Z.mod_small (Z.shiftl _ _)) by (rewrite shiftl_3; lia).
  by rewrite lor_shiftl_add.
Qed.

Lemma header_parse h :
  is_u8 h ->
  0 <= Z.shiftr h 3 < 32 /\ 0 <= Z.land h 7 < 8
  /\ Z.shiftr h 3 * 8 + Z.land h 7 = h.
Proof.
  intros Hh. rewrite shiftr_3, land_7.
  pose proof (Z.div_mod h 8). pose proof (Z.mod_pos_bound h 8).
  split_and!; try lia; [apply Z.div_pos; ilia|].
  apply Z.div_lt_upper_bound; ilia.
Qed.

Lemma land_7_idemp h : Z.land (Z.land h 7) 7 = Z.land h 7.
Proof. by rewrite <- Z.land_assoc, Z.land_diag. Qed.

Lemma parse_control_fields_encode p q fields body :
  ok p -> opcode q = opcode p ->
  encode_control_fields p = Ok fields ->
  parse_control_fields q (fields ++ body)
  = Ok (set_id (id p)
          (set_remote_session_id (remote_session_id p)
             (set_acknowledgment_ids (acknowledgment_ids p)
                (set_local_session_id (local_session_id p) q))), body).
Proof.
  intros Hok Hq. unfold encode_control_fields. case_decide as Hcount; [done|].
  intros <-%Ok_inj. destruct Hok. unfold parse_control_fields.
  rewrite <- !(assoc_L (++)).
  rewrite take_app by apply ok_local0. rbind.
  rewrite (take_app [_] _ 1) by done. rbind. cbn [hd]. rewrite Nat2Z.id.
  rewrite parse_acknowledgments_app by apply ok_acks0. rbind.
  rewrite Hq.
  destruct (decide (0 < length (acknowledgment_ids p))%nat) as [Hpos|Hz].
  - rewrite (decide_True _ _ (P := 0 < Z.of_nat _)) by lia.
    rewrite take_app by apply ok_remote0. rbind.
    case_decide as Ha.
    + rewrite take_app by apply length_to_be_bytes. rbind.
      by rewrite from_to_be_bytes by (simpl; ilia).
    + rewrite ok_id_none0 by (by destruct (opcode p)). done.
  - rewrite (decide_False _ _ (P := 0 < Z.of_nat _)) by lia. rbind. simpl app.
    assert (acknowledgment_ids p = []) as He
      by (apply length_zero_iff_nil; lia).
    rewrite ok_remote_none0 by done.
    case_decide as Ha.
    + rewrite take_app by apply length_to_be_bytes. rbind.
      by rewrite from_to_be_bytes by (simpl; ilia).
    + rewrite ok_id_none0 by (by destruct (opcode p)). done.
Qed.

Lemma encode_control_fields_ok p :
  ok p -> exists fields, encode_control_fields p = Ok fields.
Proof.
  intros Hok. unfold encode_control_fields. pose proof (ok_acks p Hok) as [_ Hl].
  rewrite decide_False by ilia. eauto.
Qed.

Lemma parse_complete (p : Packet) :
  ok p -> exists raw, encode p = Ok raw /\ parse raw = Ok p.
Proof.
  intros Hok. destruct (encode_control_fields_ok p Hok) as [fields Hf].
  pose proof (ok_opcode p Hok) as [Hop Hrange]. pose proof (ok_key_id p Hok) as Hk.
  unfold encode. rewrite header_encode by done.
  set (w := Opcode.wire_value (opcode p)) in *.
  assert (Z.shiftr (w * 8 + key_id p) 3 = w) as Hshift
    by (rewrite shiftr_3; symmetry; apply (Z.div_unique _ _ _ (key_id p)); lia).
  assert (Z.land (w * 8 + key_id p) 7 = key_id p) as Hland
    by (rewrite land_7; symmetry; apply (Z.mod_unique _ _ w); lia).
  assert (Z.land (key_id p) 7 = key_id p) as Hk7
    by (rewrite land_7; apply Z.mod_small; lia).
  destruct (decide (opcode p = DataV2)) as [Hd|Hd]; [|case_match eqn:Hc].
  - eexists. split; [reflexivity|]. cbn [parse app].
    rewrite Hshift, Hland, Hop, decide_True by done.
    rewrite take_app by apply (ok_peer_id p Hok). rbind.
    rewrite Hd. cbn. destruct (ok_other p Hok) as (Hl & Ha & Hi); [by rewrite Hd|].
    pose proof (ok_remote_none p Hok Ha). pose proof (ok_link_source p Hok).
    subst w. destruct p; simpl in *; subst. unfold new. simpl. by rewrite Hk7.
  - rewrite Hf. eexists. split; [reflexivity|]. cbn [parse app].
    rewrite Hshift, Hland, Hop, decide_False, Hc by done. rbind.
    rewrite (parse_control_fields_encode p) by done. rbind.
    pose proof (ok_peer_id_v2 p Hok Hd). pose proof (ok_link_source p Hok).
    subst w. destruct p; simpl in *; subst. unfold new. simpl. by rewrite Hk7.
  - eexists. split; [reflexivity|]. cbn [parse app].
    rewrite Hshift, Hland, Hop, decide_False, Hc by done. rbind.
    destruct (ok_other p Hok) as (Hl & Ha & Hi); [done|].
    pose proof (ok_remote_none p Hok Ha). pose proof (ok_link_source p Hok).
    pose proof (ok_peer_id_v2 p Hok Hd).
    subst w. destruct p; simpl in *; subst. unfold new. simpl. by rewrite Hk7.
Qed.

(** A well-formed packet always encodes, and parsing the encoding gives the
    packet back, whatever its opcode, acknowledgment list and payload. *)
Theorem parse_encode (p : Packet) :
  ok p -> exists raw, encode p = Ok raw /\ parse raw = Ok p.
Proof. apply parse_complete. Qed.

(** The first byte of an encoding names the opcode. *)
Lemma encode_head p raw :
  ok p -> encode p = Ok raw ->
  exists h tl, raw = h :: tl /\ Opcode.from_wire (Z.shiftr h 3) = opcode p.
Proof.
  intros Hok (fields & _ & <-%Ok_inj)%bind_Ok. eexists _, _. split; [done|].
  pose proof (ok_opcode p Hok) as [Hop Hw]. pose proof (ok_key_id p Hok) as Hk.
  rewrite header_encode, shiftr_3 by done.
  rewrite <- (Z.div_unique _ 8 (Opcode.wire_value (opcode p)) (key_id p)) by lia. done.
Qed.

(** The two optional fields, as read by [parse_control_fields]. *)
Lemma parse_remote_Ok n body remote rest :
  bytes_ok body ->
  (if decide (0 < n)%nat then take body 8 else Ok (zero_session_id, body))
  = Ok (remote, rest) ->
  body = (if decide (0 < Z.of_nat n) then remote else []) ++ rest
  /\ bytes_ok rest
  /\ (bytes_ok remote /\ length remote = SESSION_ID_LENGTH)
  /\ (n = 0%nat -> remote = zero_session_id).
Proof.
  intros Hb. case_decide as Hpos; intros H.
  - destruct (take_bytes_ok _ _ _ _ Hb H). apply take_Ok in H as [-> ?].
    rewrite decide_True by lia. split_and!; try done. lia.
  - apply Ok_inj in H as [= <- <-]. rewrite decide_False by lia.
    split_and!; try done. apply zero_session_id_ok.
Qed.

Lemma parse_id_Ok op body pid rest :
  bytes_ok body ->
  (if decide (op <> AcknowledgmentV1) then
     '(raw, body) ← take body 4; Ok (from_be_bytes raw, body)
   else Ok (0, body)) = Ok (pid, rest) ->
  body = (if decide (op <> AcknowledgmentV1) then to_be_bytes 4 pid else [])
         ++ rest
  /\ bytes_ok rest /\ is_u32 pid /\ (op = AcknowledgmentV1 -> pid = 0).
Proof.
  intros Hb. case_decide as Hop; intros H.
  - apply bind_Ok in H as ([raw b] & H & [= <- <-]%Ok_inj).
    destruct (take_bytes_ok _ _ _ _ Hb H). apply take_Ok in H as [-> Hl].
    rewrite to_from_be_bytes_len by done.
    split_and!; try done. by apply from_be_bytes_u32.
  - apply Ok_inj in H as [= <- <-]. by split_and!.
Qed.

(** What a successful [parse_control_fields] has read. *)
Lemma parse_control_fields_Ok q body p rest :
  bytes_ok body -> parse_control_fields q body = Ok (p, rest) ->
  exists sid acks remote pid fields,
    p = set_id pid (set_remote_session_id remote
          (set_acknowledgment_ids acks (set_local_session_id sid q)))
    /\ body = fields ++ rest /\ encode_control_fields p = Ok fields
    /\ bytes_ok rest
    /\ (bytes_ok sid /\ length sid = SESSION_ID_LENGTH)
    /\ (bytes_ok remote /\ length remote = SESSION_ID_LENGTH)
    /\ (acks = [] -> remote = zero_session_id)
    /\ (Forall is_u32 acks /\ (length acks <= 255)%nat)
    /\ is_u32 pid /\ (opcode q = AcknowledgmentV1 -> pid = 0).
Proof.
  intros Hb. unfold parse_control_fields.
  intros ([sid b1] & H1 & H)%bind_Ok.
  destruct (take_bytes_ok _ _ _ _ Hb H1) as [Hsid Hb1].
  apply bind_Ok in H as ([count b2] & H2 & H).
  destruct (take_bytes_ok _ _ _ _ Hb1 H2) as [Hcount Hb2].
  apply take_Ok in H1 as [-> Hsidl]. apply take_Ok in H2 as [-> Hcountl].
  destruct count as [|c [|]]; [done| |done]. cbn [hd] in H.
  apply Forall_inv in Hcount.
  apply bind_Ok in H as ([acks b3] & H3 & H).
  apply parse_acknowledgments_Ok in H3 as (-> & Hlen & Hacks); [|done].
  apply Forall_app in Hb2 as [_ Hb3].
  apply bind_Ok in H as ([remote b4] & H4 & H).
  apply parse_remote_Ok in H4 as (-> & Hb4 & Hremote & Hnone); [|done].
  apply bind_Ok in H as ([pid b5] & H5 & H).
  apply parse_id_Ok in H5 as (-> & Hb5 & Hpid & Hpz); [|done].
  apply Ok_inj in H as [= <- <-].
  eexists sid, acks, remote, pid, _.
  split; [done|]. split; [|split].
  2: { unfold encode_control_fields. simpl. rewrite decide_False by ilia.
       reflexivity. }
  - rewrite Hlen, !Z2Nat.id by ilia. simpl.
    by rewrite <- !(assoc_L (++)); simpl; rewrite <- !(assoc_L (++)).
  - split_and!; try done; try apply Hremote; [|ilia].
    intros ->. apply Hnone. by rewrite <- Hlen.
Qed.

Lemma header_roundtrip h :
  is_u8 h ->
  Z.lor (wrap8 (Z.shiftl (Opcode.wire_value (Opcode.from_wire (Z.shiftr h 3))) 3))
    (Z.land (Z.land (Z.land h 7) 7) 7) = h.
Proof.
  intros Hh. destruct (header_parse h Hh) as (Hs & Hl & Heq).
  rewrite (land_7_idemp (Z.land h 7)), Opcode.wire_value_from_wire.
  by rewrite header_encode.
Qed.

Lemma parse_sound (raw : list Z) (p : Packet) :
  bytes_ok raw -> parse raw = Ok p -> ok p /\ encode p = Ok raw.
Proof.
  intros Hraw. destruct raw as [|h body]; [done|].
  apply Forall_cons in Hraw as [Hh Hb]. cbn [parse].
  destruct (header_parse h Hh) as (Hs & Hl & _).
  pose proof (header_roundtrip h Hh) as Hhead.
  pose proof (Opcode.from_wire_ok _ Hs) as Hok.
  set (op := Opcode.from_wire (Z.shiftr h 3)) in *.
  assert (is_u32 0) as H0 by ilia. pose proof zero_session_id_ok as Hz.
  assert (bytes_ok [0; 0; 0]) as H000 by (repeat constructor; ilia).
  assert (0 <= Z.land (Z.land h 7) 7 < 8) as Hkey by by rewrite land_7_idemp.
  destruct (decide (op = DataV2)) as [Hd|Hd].
  - intros ([p1 b1] & Hp1 & H)%bind_Ok.
    apply bind_Ok in Hp1 as ([peer b2] & Ht & [= <- <-]%Ok_inj).
    destruct (take_bytes_ok _ _ _ _ Hb Ht). apply take_Ok in Ht as [-> Hl3].
    clearbody op. subst op. apply Ok_inj in H as <-. split.
    + constructor; simpl; try done. split; [constructor|simpl; lia].
    + unfold encode. cbn [set_payload set_peer_id new opcode key_id].
      by rewrite Hhead.
  - intros ([p1 b1] & [= <- <-]%Ok_inj & H)%bind_Ok. case_match eqn:Hc.
    + apply bind_Ok in H as ([p2 b2] & H2 & <-%Ok_inj).
      apply parse_control_fields_Ok in H2
        as (sid & acks & remote & pid & fields & -> & -> & He & ?); [|done].
      destruct_and?. split.
      * constructor; simpl; try done. unfold carries_control_fields.
        by rewrite Hc.
      * unfold encode. unfold encode_control_fields in He.
        simpl in He |- *. rewrite Hhead, decide_False, Hc by done.
        unfold encode_control_fields. simpl. rewrite He. done.
    + apply Ok_inj in H as <-. split.
      * constructor; simpl; try done. split; [constructor|simpl; lia].
      * unfold encode. simpl. rewrite Hhead, decide_False, Hc by done. done.
Qed.

(** Every byte string that parses is the encoding of the parsed packet,
    and the parsed packet is well formed; with the previous theorem, [parse] and [encode] are
    inverse bijections between well-formed packets and parseable inputs. *)
Theorem encode_parse (raw : list Z) (p : Packet) :
  bytes_ok raw -> parse raw = Ok p -> ok p /\ encode p = Ok raw.
Proof. apply parse_sound. Qed.

(** [encode] rejects a packet exactly when it carries more than 255
    acknowledgments. *)
Lemma encode_Err p e :
  encode p = Err e <->
  e = TooManyAcknowledgments /\ carries_control_fields (opcode p) = true
  /\ (255 < length (acknowledgment_ids p))%nat.
Proof.
  unfold encode, carries_control_fields, encode_control_fields.
  destruct (decide (opcode p = DataV2)) as [Hd|Hd].
  - rewrite Hd. simpl. split; [done|]. by intros (_ & ? & _).
  - destruct (Opcode.is_control (opcode p) || _) eqn:Hc; rbind.
    + destruct (decide (U8_MAX < _)); rbind.
      * split; [intros <-%Err_inj; split_and!; [done..|ilia]|].
        by intros (-> & _).
      * split; [done|ilia].
    + split; [done|]. by intros (_ & ? & _).
Qed.

(** A control packet with two acknowledgments. *)
Definition sample : Packet :=
  mkPacket ControlV1 1 [0; 0; 0] [1; 2; 3; 4; 5; 6; 7; 8] [7; 4294967295]
    [8; 7; 6; 5; 4; 3; 2; 1] 42 [222; 173] None.

Lemma sample_ok : ok sample.
Proof.
  constructor; simpl; try done; try (split; [|simpl; lia]);
    try (repeat constructor; done); by repeat constructor.
Qed.

Lemma parse_encode_witness :
  ok sample /\ exists raw, encode sample = Ok raw /\ parse raw = Ok sample.
Proof. split; [exact sample_ok|]. apply (parse_encode sample). exact sample_ok. Defined.

(** A data packet: header byte 73 is opcode 9 (DataV2) with key-id 1. *)
Lemma encode_parse_witness :
  let p := mkPacket DataV2 1 [0; 0; 5] zero_session_id [] zero_session_id 0
             [170; 187] None in
  parse [73; 0; 0; 5; 170; 187] = Ok p
  /\ ok p /\ encode p = Ok [73; 0; 0; 5; 170; 187].
Proof.
  split; [reflexivity|]. apply (encode_parse [73; 0; 0; 5; 170; 187]).
  - repeat constructor; done.
  - reflexivity.
Defined.

End Packet.
