(* ===== verification/OvpnReplay.v ===== *)
(** * Packet-id replay protection ([protocol/openvpn/replay.rs])

    [Module ReplayWindow] is the bitmap window as the code has it, with its
    in-place shifting loops.  [Module ReplaySpec] is what it promises: a record
    of the packet ids accepted in the current epoch.  The refinement lemma
    relates the two; freedom from replays is proved on the specification. *)

From stdpp Require Import base numbers list list_numbers gmap strings.
From Stdlib Require Import ZArith Lia.
From S2P Require Import Prelude.

Local Open Scope Z_scope.

Module ReplayWindow.

Definition DEFAULT_REPLAY_WINDOW_SIZE : Z := 64.
Definition DEFAULT_REPLAY_WINDOW_TIME : Z := from_secs 15.

Record ReplayInner : Type := mkInner {
  initialized : bool;
  highest_id : Z;
  highest_timestamp : Z;
  bitmap : list Z;
  arrival_times : list (option Z);
  minimum_id : Z;
}.

Record ReplayWindow : Type := mkWindow {
  window_size : Z;
  time_window : Z;
  inner : ReplayInner;
}.

(** [ReplayWindow::new]. *)
Definition new (window_size time_window : Z) : ReplayWindow :=
  mkWindow window_size time_window
    (mkInner false 0 0
       (replicate (Z.to_nat (div_ceil window_size 64)) 0)
       (replicate (Z.to_nat window_size) None) 0).

(** The word one iteration of the loop of [shift_bitmap] computes. *)
Definition shifted_word (word_shift : nat) (bit_shift : Z)
    (bitmap : list Z) (target : nat) : Z :=
  if decide (target < word_shift)%nat then 0
  else
    let source := (target - word_shift)%nat in
    let value := wrap64 (Z.shiftl (bitmap !!! source) bit_shift) in
    if decide (0 < bit_shift /\ (0 < source)%nat)
    then Z.lor value (Z.shiftr (bitmap !!! (source - 1)%nat) (64 - bit_shift))
    else value.

Definition shift_bitmap_step (word_shift : nat) (bit_shift : Z)
    (bitmap : list Z) (target : nat) : list Z :=
  <[target := shifted_word word_shift bit_shift bitmap target]> bitmap.

(** [shift_bitmap]: the targets are visited from the last word down. *)
Definition shift_bitmap (bitmap : list Z) (shift : Z) : list Z :=
  foldl (shift_bitmap_step (Z.to_nat (shift / 64)) (shift mod 64))
    bitmap (reverse (seq 0 (length bitmap))).

(** [shift_times]: [copy_within] followed by a fill of the vacated prefix. *)
Definition shift_times (times : list (option Z)) (shift : Z) :
    list (option Z) :=
  let shift := Z.to_nat shift in
  if decide (shift = 0%nat \/ times = []) then times
  else if decide (length times <= shift)%nat
  then replicate (length times) None
  else replicate shift None ++ take (length times - shift) times.

(** [ReplayWindow::initialize]. *)
Definition initialize (self : ReplayWindow) (inner : ReplayInner)
    (packet_id timestamp now : Z) : ReplayInner :=
  let bitmap := replicate (length (bitmap inner)) 0 in
  let times := replicate (length (arrival_times inner)) None in
  if decide (0 < window_size self) then
    mkInner true packet_id timestamp (<[0%nat := 1]> bitmap)
      (<[0%nat := Some now]> times) 0
  else mkInner true packet_id timestamp bitmap times 0.

Definition set_minimum_id (m : Z) (inner : ReplayInner) : ReplayInner :=
  mkInner (initialized inner) (highest_id inner) (highest_timestamp inner)
    (bitmap inner) (arrival_times inner) m.

(** The expiry test of [reap]. *)
Definition expired (time_window now : Z) (arrival : option Z) : Prop :=
  match arrival with
  | Some arrival => time_window < duration_since now arrival
  | None => False
  end.

Global Instance expired_dec tw now a : Decision (expired tw now a).
Proof. destruct a; simpl; apply _. Defined.

(** [ReplayWindow::reap]. *)
Definition reap (self : ReplayWindow) (inner : ReplayInner) (now : Z) :
    ReplayInner :=
  if decide (time_window self = 0) then inner
  else
    match list_find (expired (time_window self) now) (arrival_times inner) with
    | Some (offset, _) =>
        let minimum :=
          wrap32 (wrap32 (highest_id inner - Z.of_nat offset) + 1) in
        set_minimum_id (Z.max (minimum_id inner) minimum) inner
    | None => inner
    end.

(** [ReplayWindow::accept_locked]. *)
Definition accept_locked (self : ReplayWindow) (inner : ReplayInner)
    (packet_id now : Z) : bool * ReplayInner :=
  if negb (initialized inner)
  then (true, initialize self inner packet_id 0 now)
  else if decide (window_size self = 0) then
    if decide (packet_id <> wrap32 (highest_id inner + 1)) then (false, inner)
    else (true, mkInner (initialized inner) packet_id (highest_timestamp inner)
                  (bitmap inner) (arrival_times inner) (minimum_id inner))
  else
    let inner := reap self inner now in
    if decide (highest_id inner < packet_id) then
      let shift := packet_id - highest_id inner in
      let '(bits, times) :=
        if decide (window_size self <= shift) then
          (replicate (length (bitmap inner)) 0,
           replicate (length (arrival_times inner)) None)
        else (shift_bitmap (bitmap inner) shift,
              shift_times (arrival_times inner) shift) in
      (true,
       mkInner (initialized inner) packet_id (highest_timestamp inner)
         (<[0%nat := Z.lor (bits !!! 0%nat) 1]> bits)
         (<[0%nat := Some now]> times) (minimum_id inner))
    else if decide (packet_id < minimum_id inner) then (false, inner)
    else
      let offset := highest_id inner - packet_id in
      if decide (window_size self <= offset) then (false, inner)
      else
        let word := Z.to_nat (offset / 64) in
        let mask := Z.shiftl 1 (offset mod 64) in
        if decide (Z.land (bitmap inner !!! word) mask <> 0)
        then (false, inner)
        else
          (true,
           mkInner (initialized inner) (highest_id inner)
             (highest_timestamp inner)
             (<[word := Z.lor (bitmap inner !!! word) mask]> (bitmap inner))
             (<[Z.to_nat offset := Some now]> (arrival_times inner))
             (minimum_id inner)).

Definition set_inner (self : ReplayWindow) (i : ReplayInner) : ReplayWindow :=
  mkWindow (window_size self) (time_window self) i.

(** [ReplayWindow::accept_at] ([accept] passes the current instant). *)
Definition accept_at (self : ReplayWindow) (packet_id now : Z) :
    bool * ReplayWindow :=
  if decide (packet_id = 0) then (false, self)
  else
    let '(b, i) := accept_locked self (inner self) packet_id now in
    (b, set_inner self i).

(** [ReplayWindow::accept_long_form_at]. *)
Definition accept_long_form_at (self : ReplayWindow)
    (packet_id timestamp now : Z) : bool * ReplayWindow :=
  if decide (packet_id = 0) then (false, self)
  else
    let i := inner self in
    if negb (initialized i) then
      if decide (window_size self = 0 /\ 0 < timestamp /\ packet_id <> 1)
      then (false, self)
      else (true, set_inner self (initialize self i packet_id timestamp now))
    else if decide (timestamp < highest_timestamp i) then (false, self)
    else if decide (highest_timestamp i < timestamp) then
      if decide (window_size self = 0 /\ packet_id <> 1) then (false, self)
      else (true, set_inner self (initialize self i packet_id timestamp now))
    else
      let '(b, i) := accept_locked self i packet_id now in
      (b, set_inner self i).

(** ** The bitmap as a set of offsets *)

(** Bit [i] of the window: bit [i mod 64] of word [i / 64]. *)
Definition bit (bitmap : list Z) (i : Z) : bool :=
  Z.testbit (bitmap !!! Z.to_nat (i / 64)) (i mod 64).

Definition words_ok (bitmap : list Z) : Prop := Forall is_u64 bitmap.

Lemma words_ok_lookup bitmap n : words_ok bitmap -> is_u64 (bitmap !!! n).
Proof.
  intros Hw. rewrite list_lookup_total_alt.
  destruct (bitmap !! n) as [w|] eqn:Hn; simpl.
  - by eapply Forall_lookup_1 in Hw.
  - unfold inhabitant. simpl. ilia.
Qed.

Lemma testbit_u64_high w i : is_u64 w -> 64 <= i -> Z.testbit w i = false.
Proof. intros Hw Hi. apply (testbit_above 64); [lia| |lia]. simpl. ilia. Qed.

Lemma shift_bitmap_step_length ws bs bitmap n :
  length (shift_bitmap_step ws bs bitmap n) = length bitmap.
Proof. apply length_insert. Qed.

Lemma shift_loop_length ws bs bitmap l :
  length (foldl (shift_bitmap_step ws bs) bitmap l) = length bitmap.
Proof.
  revert bitmap. induction l as [|n l IH]; intros bitmap; simpl; [done|].
  by rewrite IH, shift_bitmap_step_length.
Qed.

Lemma shift_bitmap_length bitmap shift :
  length (shift_bitmap bitmap shift) = length bitmap.
Proof. apply shift_loop_length. Qed.

(** Visiting the words from the top down, each word is computed from words
    that have not been written yet. *)
Lemma shift_loop_lookup ws bs bitmap n i :
  (n <= length bitmap)%nat ->
  foldl (shift_bitmap_step ws bs) bitmap (reverse (seq 0 n)) !!! i
  = if decide (i < n)%nat then shifted_word ws bs bitmap i else bitmap !!! i.
Proof.
  revert bitmap. induction n as [|n IH]; intros bitmap Hn.
  - rewrite decide_False by lia. done.
  - rewrite seq_S, reverse_snoc. cbn [foldl Nat.add].
    rewrite IH by (rewrite shift_bitmap_step_length; lia).
    unfold shift_bitmap_step. destruct (decide (i < n)%nat).
    + rewrite decide_True by lia. unfold shifted_word.
      by rewrite !list_lookup_total_insert_ne by lia.
    + destruct (decide (i = n)) as [->|].
      * by rewrite list_lookup_total_insert_eq, decide_True by lia.
      * by rewrite list_lookup_total_insert_ne, decide_False by lia.
Qed.

Lemma testbit_shifted_word ws bs bitmap t r :
  words_ok bitmap -> 0 <= bs < 64 -> 0 <= r < 64 ->
  Z.testbit (shifted_word ws bs bitmap t) r =
  if decide (t < ws)%nat then false
  else if decide (bs <= r) then Z.testbit (bitmap !!! (t - ws)%nat) (r - bs)
  else if decide (t = ws) then false
  else Z.testbit (bitmap !!! (t - ws - 1)%nat) (r + 64 - bs).
Proof.
  intros Hw Hbs Hr. unfold shifted_word, wrap64.
  destruct (decide (t < ws)%nat); [apply Z.bits_0|].
  assert (Z.testbit (Z.shiftl (bitmap !!! (t - ws)%nat) bs mod 2 ^ 64) r
          = Z.testbit (bitmap !!! (t - ws)%nat) (r - bs)) as Hlow
    by (rewrite Z.mod_pow2_bits_low by lia; apply Z.shiftl_spec; lia).
  destruct (decide (0 < bs /\ _)) as [[]|Hno]; rewrite ?Z.lor_spec, ?Hlow.
  - rewrite Z.shiftr_spec by lia. replace (r + (64 - bs)) with (r + 64 - bs) by lia.
    destruct (decide (bs <= r)).
    + rewrite (testbit_u64_high _ (r + 64 - bs)); [apply orb_false_r| |lia].
      by apply words_ok_lookup.
    + rewrite Z.testbit_neg_r by lia. by rewrite decide_False by lia.
  - destruct (decide (bs <= r)); [done|]. rewrite Z.testbit_neg_r by lia.
    by rewrite decide_True by lia.
Qed.

Lemma bit_shift_bitmap_words (bitmap : list Z) (shift i : Z) :
  words_ok bitmap -> 0 <= shift -> 0 <= i < 64 * Z.of_nat (length bitmap) ->
  bit (shift_bitmap bitmap shift) i
  = if decide (i < shift) then false else bit bitmap (i - shift).
Proof.
  intros Hw Hs Hi. unfold bit, shift_bitmap.
  pose proof (Z.div_mod i 64). pose proof (Z.mod_pos_bound i 64).
  pose proof (Z.div_mod shift 64). pose proof (Z.mod_pos_bound shift 64).
  set (t := i / 64) in *. set (r := i mod 64) in *.
  set (ws := shift / 64) in *. set (bs := shift mod 64) in *.
  assert (0 <= t) by (apply Z.div_pos; lia).
  assert (0 <= ws) by (apply Z.div_pos; lia).
  rewrite shift_loop_lookup, decide_True by lia.
  rewrite testbit_shifted_word by (done || lia).
  destruct (decide (i < shift)) as [Hlt|Hge].
  - destruct (decide (Z.to_nat t < Z.to_nat ws)%nat); [done|].
    rewrite decide_False by lia. by rewrite decide_True by lia.
  - rewrite decide_False by lia. destruct (decide (bs <= r)).
    + replace ((i - shift) / 64) with (t - ws)
        by (apply (Z.div_unique _ _ _ (r - bs)); lia).
      replace ((i - shift) mod 64) with (r - bs)
        by (apply (Z.mod_unique _ _ (t - ws)); lia).
      do 2 f_equal. lia.
    + rewrite decide_False by lia.
      replace ((i - shift) / 64) with (t - ws - 1)
        by (apply (Z.div_unique _ _ _ (r + 64 - bs)); lia).
      replace ((i - shift) mod 64) with (r + 64 - bs)
        by (apply (Z.mod_unique _ _ (t - ws - 1)); lia).
      do 2 f_equal. lia.
Qed.

(** shifting the word array in place moves every bit of the window up by
    [shift] positions and clears the vacated ones; it is the left shift of one
    wide integer. *)
Theorem bit_shift_bitmap (bitmap : list Z) (shift i : Z) :
  words_ok bitmap -> 0 <= shift -> 0 <= i < 64 * Z.of_nat (length bitmap) ->
  bit (shift_bitmap bitmap shift) i
  = if decide (i < shift) then false else bit bitmap (i - shift).
Proof. apply bit_shift_bitmap_words. Qed.

Lemma bit_shift_bitmap_witness :
  bit (shift_bitmap [5; 1; 0] 65) 67 = true
  /\ bit (shift_bitmap [5; 1; 0] 65) 67 = bit [5; 1; 0] 2.
Proof.
  split; [vm_compute; reflexivity|].
  apply (bit_shift_bitmap [5; 1; 0] 65 67);
    [repeat constructor; vm_compute; discriminate|lia|simpl; lia].
Defined.

Lemma is_u64_lor a b : is_u64 a -> is_u64 b -> is_u64 (Z.lor a b).
Proof.
  intros Ha Hb. unfold is_u64, U64_MAX in *.
  assert (0 <= Z.lor a b) by (apply Z.lor_nonneg; lia).
  destruct (decide (Z.lor a b = 0)) as [->|]; [lia|].
  assert (Z.log2 (Z.lor a b) < 64) as Hlog.
  { rewrite Z.log2_lor by lia. apply Z.max_lub_lt.
    - destruct (decide (a = 0)) as [->|]; [done|]. apply Z.log2_lt_pow2; lia.
    - destruct (decide (b = 0)) as [->|]; [done|]. apply Z.log2_lt_pow2; lia. }
  apply Z.log2_lt_pow2 in Hlog; lia.
Qed.

Lemma shifted_word_u64 ws bs bitmap t :
  words_ok bitmap -> 0 <= bs < 64 -> is_u64 (shifted_word ws bs bitmap t).
Proof.
  intros Hw Hbs. unfold shifted_word.
  assert (forall x, is_u64 (wrap64 x)) as Hwrap
    by (intros x; pose proof (Z.mod_pos_bound x (2 ^ 64)); ilia).
  case_decide; [ilia|]. case_decide; [|apply Hwrap].
  apply is_u64_lor; [apply Hwrap|].
  pose proof (words_ok_lookup bitmap (t - ws - 1) Hw) as Hx.
  rewrite Z.shiftr_div_pow2 by lia.
  assert (0 < 2 ^ (64 - bs)) by (apply Z.pow_pos_nonneg; lia).
  split; [apply Z.div_pos; ilia|].
  transitivity (bitmap !!! (t - ws - 1)%nat); [|ilia].
  generalize dependent (2 ^ (64 - bs)). intros d Hd.
  apply Z.div_le_upper_bound; [lia|]. destruct Hx. nia.
Qed.

Lemma shift_bitmap_words_ok bitmap shift :
  words_ok bitmap -> words_ok (shift_bitmap bitmap shift).
Proof.
  intros Hw. apply Forall_lookup_2. intros i x Hx.
  assert (i < length bitmap)%nat as Hi
    by (rewrite <- (shift_bitmap_length bitmap shift); by eapply lookup_lt_Some).
  apply list_lookup_total_correct in Hx as <-. unfold shift_bitmap.
  rewrite shift_loop_lookup, decide_True by lia.
  apply shifted_word_u64; [done|]. apply Z.mod_pos_bound. lia.
Qed.

Lemma mask_u64 k : 0 <= k < 64 -> is_u64 (Z.shiftl 1 k).
Proof.
  intros Hk. rewrite Z.shiftl_1_l. pose proof (Z.pow_pos_nonneg 2 k).
  assert (2 ^ k <= 2 ^ 63) by (apply Z.pow_le_mono_r; lia). ilia.
Qed.

Lemma land_mask w k :
  0 <= k -> Z.land w (Z.shiftl 1 k) <> 0 <-> Z.testbit w k = true.
Proof.
  intros Hk. rewrite Z.shiftl_1_l. split.
  - intros H. destruct (Z.testbit w k) eqn:E; [done|]. destruct H.
    apply Z.bits_inj'. intros i Hi. rewrite Z.land_spec, Z.bits_0.
    destruct (decide (i = k)) as [->|]; [by rewrite E|].
    rewrite Z.pow2_bits_false by lia. apply andb_false_r.
  - intros H E. apply (f_equal (fun x => Z.testbit x k)) in E.
    by rewrite Z.land_spec, H, Z.pow2_bits_true, Z.bits_0 in E.
Qed.

(** Setting one bit of the window. *)
Definition set_bit (bitmap : list Z) (o : Z) : list Z :=
  <[Z.to_nat (o / 64) :=
      Z.lor (bitmap !!! Z.to_nat (o / 64)) (Z.shiftl 1 (o mod 64))]> bitmap.

Lemma set_bit_length bitmap o : length (set_bit bitmap o) = length bitmap.
Proof. apply length_insert. Qed.

Lemma set_bit_words_ok bitmap o : words_ok bitmap -> words_ok (set_bit bitmap o).
Proof.
  intros Hw. apply Forall_insert; [done|]. apply is_u64_lor.
  - by apply words_ok_lookup.
  - apply mask_u64, Z.mod_pos_bound. lia.
Qed.

Lemma bit_set_bit bitmap o i :
  0 <= o < 64 * Z.of_nat (length bitmap) -> 0 <= i ->
  bit (set_bit bitmap o) i = bool_decide (i = o) || bit bitmap i.
Proof.
  intros Ho Hi. unfold bit, set_bit.
  pose proof (Z.div_mod i 64). pose proof (Z.mod_pos_bound i 64).
  pose proof (Z.div_mod o 64). pose proof (Z.mod_pos_bound o 64).
  assert (0 <= i / 64) by (apply Z.div_pos; lia).
  assert (0 <= o / 64) by (apply Z.div_pos; lia).
  destruct (decide (i / 64 = o / 64)) as [He|Hne].
  - rewrite He, list_lookup_total_insert_eq by lia.
    rewrite Z.lor_spec, Z.shiftl_1_l.
    destruct (decide (i = o)) as [->|].
    + rewrite bool_decide_true, Z.pow2_bits_true by lia. apply orb_true_r.
    + rewrite bool_decide_false, Z.pow2_bits_false by lia. apply orb_false_r.
  - rewrite list_lookup_total_insert_ne by lia.
    by rewrite bool_decide_false by congruence.
Qed.

Lemma bit_zeros n i :
  0 <= i < 64 * Z.of_nat n -> bit (replicate n 0) i = false.
Proof.
  intros Hi. unfold bit.
  assert (0 <= i / 64 < Z.of_nat n)
    by (split; [apply Z.div_pos; lia|apply Z.div_lt_upper_bound; lia]).
  rewrite lookup_total_replicate_2 by lia. apply Z.bits_0.
Qed.

Lemma words_ok_zeros n : words_ok (replicate n 0).
Proof. apply Forall_replicate. ilia. Qed.

(** ** Arrival times *)

Lemma shift_times_length times shift :
  length (shift_times times shift) = length times.
Proof.
  unfold shift_times. case_decide; [done|]. case_decide.
  - apply length_replicate.
  - rewrite length_app, length_replicate, length_take. lia.
Qed.

Lemma shift_times_lookup times shift i :
  0 <= shift -> (i < length times)%nat ->
  shift_times times shift !! i
  = if decide (Z.of_nat i < shift) then Some None
    else times !! (i - Z.to_nat shift)%nat.
Proof.
  intros Hs Hi. unfold shift_times. case_decide as H0.
  - destruct H0 as [H0| ->]; [|simpl in Hi; lia].
    rewrite decide_False by lia. f_equal. lia.
  - case_decide as Hl.
    + rewrite decide_True by lia. by apply lookup_replicate_2.
    + destruct (decide (Z.of_nat i < shift)).
      * rewrite lookup_app_l by (rewrite length_replicate; lia).
        apply lookup_replicate_2. lia.
      * rewrite lookup_app_r by (rewrite length_replicate; lia).
        rewrite length_replicate. apply lookup_take_lt. lia.
Qed.

End ReplayWindow.

(** ** Specification: the set of accepted packet ids

    The state of an epoch is the map from every packet id accepted so far to
    the time it was accepted at, with the highest id and the lower bound that
    expiry has raised. *)

Module ReplaySpec.

Record state : Type := mkState {
  seen : gmap Z Z;
  highest : Z;
  minimum : Z;
}.

(** An id accepted longer than [tw] ago raises the lower bound above it; the
    most recent such id within the window decides. *)
Definition reap (ws tw : Z) (st : state) (now : Z) : Z :=
  if decide (tw = 0) then minimum st
  else
    match list_find
            (fun o => ReplayWindow.expired tw now (seen st !! (highest st - o)))
            (seqZ 0 ws) with
    | Some (_, o) =>
        Z.max (minimum st) (wrap32 (wrap32 (highest st - o) + 1))
    | None => minimum st
    end.

(** With no window an id must follow the highest one immediately.  With a
    window it must be new and either above the highest id, or not expired and
    at most [ws - 1] behind it. *)
Definition accept (ws tw : Z) (st : state) (id now : Z) : bool * state :=
  if decide (ws = 0) then
    if decide (id = highest st + 1)
    then (true, mkState (<[id := now]> (seen st)) id (minimum st))
    else (false, st)
  else
    let m := reap ws tw st now in
    if decide (highest st < id
               \/ (m <= id /\ highest st - id < ws /\ seen st !! id = None))
    then (true, mkState (<[id := now]> (seen st)) (Z.max (highest st) id) m)
    else (false, mkState (seen st) (highest st) m).

Definition start (id now : Z) : state := mkState {[id := now]} id 0.

Definition wf (st : state) : Prop :=
  is_u32 (highest st) /\ is_Some (seen st !! highest st)
  /\ forall id, is_Some (seen st !! id) -> 1 <= id <= highest st.

Lemma start_wf id now : is_u32 id -> id <> 0 -> wf (start id now).
Proof.
  intros Hid Hnz. split_and!; simpl; [done| |].
  - rewrite lookup_singleton_eq. eauto.
  - intros j. rewrite lookup_singleton. case_decide; [ilia|by intros []].
Qed.

Lemma accept_wf ws tw st id now :
  wf st -> is_u32 id -> id <> 0 -> wf (accept ws tw st id now).2.
Proof.
  intros (Hh & Hs & Hb) Hid Hnz. unfold accept.
  assert (forall h m, highest st <= h -> id <= h -> is_u32 h ->
    is_Some ((<[id := now]> (seen st)) !! h) ->
    wf (mkState (<[id := now]> (seen st)) h m)) as Hins.
  { intros h m Hle Hle' Hu Hsome. split_and!; simpl; [done..|].
    intros j. rewrite lookup_insert. case_decide; [ilia|].
    intros Hj%Hb. lia. }
  case_decide.
  - case_decide; simpl; [|done]. apply Hins; [lia|lia|done|].
    rewrite lookup_insert_eq. eauto.
  - case_decide; simpl; [|by split_and!].
    apply Hins; [lia|lia|ilia|].
    rewrite lookup_insert. case_decide; [eauto|].
    by rewrite Z.max_l by lia.
Qed.

(** An accepted id was not accepted before, and is recorded. *)
Lemma accept_fresh ws tw st id now st' :
  wf st -> accept ws tw st id now = (true, st') ->
  seen st !! id = None /\ seen st' = <[id := now]> (seen st).
Proof.
  intros (_ & _ & Hb). unfold accept.
  assert (highest st < id -> seen st !! id = None) as Hnew.
  { intros Hlt. destruct (seen st !! id) eqn:E; [|done].
    specialize (Hb id (mk_is_Some _ _ E)). lia. }
  case_decide.
  - case_decide; intros [= <-]. split; [|done]. apply Hnew. lia.
  - case_decide as Hc; intros [= <-]. split; [|done].
    destruct Hc as [?|(_ & _ & ?)]; auto.
Qed.

Lemma reject_seen ws tw st id now st' :
  accept ws tw st id now = (false, st') -> seen st' = seen st.
Proof.
  unfold accept. case_decide; case_decide; intros [= <-]; done.
Qed.

End ReplaySpec.

(** ** Refinement *)

Module ReplayRefinement.

Import ReplayWindow.

Definition shape (self : ReplayWindow) (i : ReplayInner) : Prop :=
  is_u32 (window_size self)
  /\ length (bitmap i) = Z.to_nat (div_ceil (window_size self) 64)
  /\ length (arrival_times i) = Z.to_nat (window_size self)
  /\ words_ok (bitmap i).

(** The bitmap and the time array are the specification's map, seen through
    the window of offsets below the highest id. *)
Record refines (self : ReplayWindow) (i : ReplayInner)
    (st : ReplaySpec.state) : Prop := mkRefines {
  r_init : initialized i = true;
  r_highest : highest_id i = ReplaySpec.highest st;
  r_minimum : minimum_id i = ReplaySpec.minimum st;
  r_shape : shape self i;
  r_bits : forall o, 0 <= o < window_size self ->
    bit (bitmap i) o
    = bool_decide (is_Some (ReplaySpec.seen st !! (ReplaySpec.highest st - o)));
  r_times : forall o, 0 <= o < window_size self ->
    arrival_times i !! Z.to_nat o
    = Some (ReplaySpec.seen st !! (ReplaySpec.highest st - o));
  r_wf : ReplaySpec.wf st;
}.

Lemma shape_bits self i :
  shape self i -> window_size self <= 64 * Z.of_nat (length (bitmap i)).
Proof.
  intros (Hu & Hl & _). rewrite Hl. unfold div_ceil.
  pose proof (Z.div_mod (window_size self + 64 - 1) 64).
  pose proof (Z.mod_pos_bound (window_size self + 64 - 1) 64).
  rewrite Z2Nat.id; [lia|]. apply Z.div_pos; ilia.
Qed.

Lemma new_shape ws tw : is_u32 ws -> shape (new ws tw) (inner (new ws tw)).
Proof.
  intros Hu. split_and!; simpl; [done|apply length_replicate..|].
  apply words_ok_zeros.
Qed.

Lemma initialize_refines self i id ts now :
  shape self i -> is_u32 id -> id <> 0 ->
  refines self (initialize self i id ts now) (ReplaySpec.start id now).
Proof.
  intros Hshape Hid Hnz. pose proof (shape_bits _ _ Hshape) as Hbits.
  destruct Hshape as (Hu & Hlb & Hlt & Hw).
  unfold initialize. destruct (decide (0 < window_size self)) as [Hpos|].
  - assert (<[0%nat := 1]> (replicate (length (bitmap i)) 0)
            = set_bit (replicate (length (bitmap i)) 0) 0) as ->.
    { unfold set_bit. change (Z.to_nat (0 / 64)) with 0%nat.
      by rewrite lookup_total_replicate_2 by lia. }
    constructor; simpl; try done; [|..|by apply ReplaySpec.start_wf].
    + split_and!; simpl; [done| | |].
      * by rewrite set_bit_length, length_replicate.
      * by rewrite length_insert, length_replicate.
      * apply set_bit_words_ok, words_ok_zeros.
    + intros o Ho. rewrite bit_set_bit, bit_zeros by (rewrite ?length_replicate; lia).
      rewrite orb_false_r. apply bool_decide_ext. rewrite lookup_singleton.
      case_decide; split; (lia || (intros [] ; done) || eauto).
    + intros o Ho. rewrite lookup_singleton.
      destruct (decide (o = 0)) as [->|].
      * rewrite decide_True by lia.
        apply list_lookup_insert_eq. rewrite length_replicate. lia.
      * rewrite decide_False, list_lookup_insert_ne by lia.
        apply lookup_replicate_2. lia.
  - constructor; simpl; try done; [|lia..|by apply ReplaySpec.start_wf].
    split_and!; simpl; rewrite ?length_replicate; try done. apply words_ok_zeros.
Qed.

Lemma seqZ_lookup_inv (n o : Z) (k : nat) :
  seqZ 0 n !! k = Some o -> o = Z.of_nat k /\ 0 <= o < n.
Proof. intros [-> ?]%lookup_seqZ. lia. Qed.

Lemma reap_refines self i st now :
  refines self i st ->
  refines self (reap self i now)
    (ReplaySpec.mkState (ReplaySpec.seen st) (ReplaySpec.highest st)
       (ReplaySpec.reap (window_size self) (time_window self) st now)).
Proof.
  intros [Hi Hh Hm Hs Hb Ht Hwf].
  assert (minimum_id (reap self i now)
          = ReplaySpec.reap (window_size self) (time_window self) st now) as Hmin.
  { unfold reap, ReplaySpec.reap. case_decide; [done|].
    assert (arrival_times i
            = (fun o => ReplaySpec.seen st !! (ReplaySpec.highest st - o))
                <$> seqZ 0 (window_size self)) as ->.
    { apply list_eq. intros k. rewrite list_lookup_fmap.
      destruct (seqZ 0 (window_size self) !! k) as [o|] eqn:Ho; simpl.
      - apply seqZ_lookup_inv in Ho as [Ho ?]. rewrite <- Ht by lia.
        f_equal. lia.
      - apply lookup_ge_None in Ho. apply lookup_ge_None.
        rewrite length_seqZ in Ho. destruct Hs as (_ & _ & -> & _). lia. }
    rewrite list_find_fmap.
    destruct (list_find _ (seqZ 0 (window_size self))) as [[k o]|] eqn:Hf;
      simpl; [|done].
    apply list_find_Some in Hf as (Hk & _ & _).
    apply seqZ_lookup_inv in Hk as [-> _]. by rewrite Hh, Hm. }
  unfold reap in *. case_decide; [|case_match eqn:Hf; [case_match|]];
    constructor; simpl; try done; destruct Hwf as (? & ? & ?); by split_and!.
Qed.

(** Moving the window up to a new highest id. *)
Lemma advance_refines self i st id now bits times :
  refines self i st -> is_u32 id -> 0 < window_size self ->
  highest_id i < id ->
  (bits, times) =
    (if decide (window_size self <= id - highest_id i) then
       (replicate (length (bitmap i)) 0,
        replicate (length (arrival_times i)) None)
     else (shift_bitmap (bitmap i) (id - highest_id i),
           shift_times (arrival_times i) (id - highest_id i))) ->
  refines self
    (mkInner (initialized i) id (highest_timestamp i)
       (<[0%nat := Z.lor (bits !!! 0%nat) 1]> bits) (<[0%nat := Some now]> times)
       (minimum_id i))
    (ReplaySpec.mkState (<[id := now]> (ReplaySpec.seen st)) id
       (ReplaySpec.minimum st)).
Proof.
  intros [Hi Hh Hm Hs Hb Ht Hwf] Hid Hpos Hlt Hbt.
  pose proof (shape_bits _ _ Hs) as Hcap. destruct Hs as (Hu & Hlb & Hlt' & Hw).
  set (shift := id - highest_id i) in *. rewrite Hh in *.
  change (<[0%nat := Z.lor (bits !!! 0%nat) 1]> bits) with (set_bit bits 0).
  assert (length bits = length (bitmap i) /\ length times = length (arrival_times i)
          /\ words_ok bits) as (Hlbits & Hltimes & Hwbits).
  { case_decide; injection Hbt as -> ->; rewrite ?length_replicate.
    - by split_and!; [..|apply words_ok_zeros].
    - by rewrite shift_bitmap_length, shift_times_length;
        split_and!; [..|apply shift_bitmap_words_ok]. }
  assert (forall o, 0 <= o < shift ->
            ReplaySpec.seen st !! (id - o) = None) as Hnew.
  { intros o Ho. destruct (ReplaySpec.seen st !! (id - o)) eqn:E; [|done].
    destruct Hwf as (_ & _ & Hwf). specialize (Hwf _ (mk_is_Some _ _ E)). lia. }
  assert (forall o, 0 <= o < window_size self ->
    bit bits o = bool_decide (is_Some (ReplaySpec.seen st !! (id - o)))
    /\ times !! Z.to_nat o = Some (ReplaySpec.seen st !! (id - o))) as Hold.
  { intros o Ho. destruct (decide (o < shift)) as [Hos|Hos].
    - rewrite Hnew by lia. rewrite bool_decide_false by (by intros []).
      case_decide; injection Hbt as -> ->.
      + rewrite bit_zeros by lia. split; [done|]. apply lookup_replicate_2. lia.
      + rewrite bit_shift_bitmap_words, decide_True by (done || lia).
        by rewrite shift_times_lookup, decide_True by lia.
    - rewrite decide_False in Hbt by lia. injection Hbt as -> ->.
      rewrite bit_shift_bitmap_words, decide_False by (done || lia).
      rewrite shift_times_lookup, decide_False by lia.
      replace (Z.to_nat o - Z.to_nat shift)%nat with (Z.to_nat (o - shift)) by lia.
      rewrite Hb, Ht by lia.
      by replace (ReplaySpec.highest st - (o - shift)) with (id - o) by lia. }
  constructor; simpl; try done.
  - split_and!; simpl; rewrite ?set_bit_length, ?length_insert; try congruence.
    by apply set_bit_words_ok.
  - intros o Ho. rewrite bit_set_bit by lia. rewrite lookup_insert.
    destruct (decide (o = 0)) as [->|].
    + by rewrite decide_True, bool_decide_true by lia.
    + rewrite decide_False, bool_decide_false by lia. apply (Hold o Ho).
  - intros o Ho. rewrite lookup_insert. destruct (decide (o = 0)) as [->|].
    + rewrite decide_True by lia. apply list_lookup_insert_eq. lia.
    + rewrite decide_False, list_lookup_insert_ne by lia. apply (Hold o Ho).
  - destruct Hwf as (Hw1 & Hw2 & Hwf). pose proof (Hwf _ Hw2).
    split_and!; simpl; [done| |].
    + rewrite lookup_insert_eq. eauto.
    + intros j. rewrite lookup_insert. destruct (decide (id = j)); [lia|].
      intros ?%Hwf. lia.
Qed.

(** Recording an id at or below the highest one. *)
Lemma record_refines self i st id now :
  refines self i st -> 1 <= id <= highest_id i ->
  highest_id i - id < window_size self ->
  let offset := highest_id i - id in
  refines self
    (mkInner (initialized i) (highest_id i) (highest_timestamp i)
       (set_bit (bitmap i) offset)
       (<[Z.to_nat offset := Some now]> (arrival_times i)) (minimum_id i))
    (ReplaySpec.mkState (<[id := now]> (ReplaySpec.seen st))
       (ReplaySpec.highest st) (ReplaySpec.minimum st)).
Proof.
  intros [Hi Hh Hm Hs Hb Ht Hwf] Hid Hin offset.
  pose proof (shape_bits _ _ Hs) as Hcap. destruct Hs as (Hu & Hlb & Hlt & Hw).
  subst offset. rewrite Hh in *. constructor; simpl; try done.
  - split_and!; simpl; rewrite ?set_bit_length, ?length_insert; try done.
    by apply set_bit_words_ok.
  - intros o Ho. rewrite bit_set_bit, Hb, lookup_insert by lia.
    destruct (decide (o = ReplaySpec.highest st - id)) as [->|].
    + by rewrite decide_True, bool_decide_true by lia.
    + by rewrite decide_False, bool_decide_false by lia.
  - intros o Ho. rewrite lookup_insert.
    destruct (decide (o = ReplaySpec.highest st - id)) as [->|].
    + rewrite decide_True by lia. apply list_lookup_insert_eq. lia.
    + rewrite decide_False, list_lookup_insert_ne by lia. by apply Ht.
  - destruct Hwf as (Hw1 & Hw2 & Hwf). split_and!; simpl; [done| |].
    + rewrite lookup_insert. case_decide; eauto.
    + intros j. rewrite lookup_insert. case_decide; [lia|apply Hwf].
Qed.

(** The sequential mode of a zero-sized window. *)
Lemma sequential_refines self i st id now :
  refines self i st -> is_u32 id -> id <> 0 -> window_size self = 0 ->
  let '(b, i') := accept_locked self i id now in
  let '(b', st') :=
    ReplaySpec.accept (window_size self) (time_window self) st id now in
  b = b' /\ refines self i' st'
  /\ highest_timestamp i' = highest_timestamp i.
Proof.
  intros Hr Hid Hnz Hws. unfold accept_locked, ReplaySpec.accept.
  rewrite (r_init _ _ _ Hr), !(decide_True (P := window_size self = 0)) by done.
  cbn [negb].
  pose proof (r_wf _ _ _ Hr) as (Hu & _ & _). rewrite (r_highest _ _ _ Hr).
  assert (id = wrap32 (ReplaySpec.highest st + 1)
          <-> id = ReplaySpec.highest st + 1) as Hiff.
  { unfold wrap32. destruct (decide (ReplaySpec.highest st = U32_MAX)) as [->|].
    - change ((U32_MAX + 1) mod 2 ^ 32) with 0. ilia.
    - rewrite Z.mod_small by (change (2 ^ 32) with 4294967296; ilia). done. }
  destruct (decide (id = ReplaySpec.highest st + 1)) as [He|He].
  - rewrite decide_False by tauto. split_and!; try done.
    destruct Hr as [Hi Hh Hm Hs Hb Ht Hwf].
    constructor; simpl; try done; try lia.
    pose proof (ReplaySpec.accept_wf 0 0 st id now Hwf Hid Hnz) as H.
    unfold ReplaySpec.accept in H. simpl in H. by rewrite decide_True in H.
  - rewrite decide_True by tauto. by split_and!.
Qed.

Lemma accept_locked_simulates self i st id now :
  refines self i st -> is_u32 id -> id <> 0 ->
  let '(b, i') := accept_locked self i id now in
  let '(b', st') :=
    ReplaySpec.accept (window_size self) (time_window self) st id now in
  b = b' /\ refines self i' st'
  /\ highest_timestamp i' = highest_timestamp i.
Proof.
  intros Hr Hid Hnz. destruct (decide (window_size self = 0)) as [Hws|Hws];
    [by apply sequential_refines|].
  unfold accept_locked, ReplaySpec.accept.
  rewrite (r_init _ _ _ Hr), !(decide_False (P := window_size self = 0)) by done.
  cbn [negb]. apply (reap_refines _ _ _ now) in Hr.
  set (m := ReplaySpec.reap _ _ st now) in *.
  assert (highest_timestamp (reap self i now) = highest_timestamp i) as Hts
    by (unfold reap; repeat case_match; done).
  generalize dependent (reap self i now). intros j Hr Hts.
  pose proof (r_highest _ _ _ Hr) as Hh. pose proof (r_minimum _ _ _ Hr) as Hm.
  cbn in Hh, Hm. rewrite <- Hts. clear Hts.
  assert (0 < window_size self) as Hpos
    by (pose proof (r_shape _ _ _ Hr) as (? & _); ilia).
  destruct (decide (highest_id j < id)) as [Hgt|Hle].
  - rewrite (decide_True (P := _ \/ _)) by lia.
    destruct (if decide _ then _ else _) as [bits times] eqn:E.
    split_and!; [done| |done]. rewrite Z.max_r by lia.
    by apply (advance_refines _ _ _ _ now bits times Hr).
  - pose proof (r_bits _ _ _ Hr (highest_id j - id)) as Hbit. cbn in Hbit.
    replace (ReplaySpec.highest st - (highest_id j - id)) with id in Hbit by lia.
    destruct (decide (id < minimum_id j)) as [|Hmin];
      [rewrite decide_False by lia; by split_and!|].
    destruct (decide (window_size self <= highest_id j - id)) as [|Hwin];
      [rewrite decide_False by lia; by split_and!|].
    specialize (Hbit ltac:(ilia)). unfold bit in Hbit.
    destruct (decide (Z.land _ _ <> 0)) as [Hmask|Hmask];
      rewrite land_mask, Hbit in Hmask by (apply Z.mod_pos_bound; lia).
    + rewrite bool_decide_eq_true in Hmask. rewrite decide_False; [by split_and!|].
      intros [?|(_ & _ & E)]; [lia|]. rewrite E in Hmask. by destruct Hmask.
    + rewrite bool_decide_eq_true, <- eq_None_not_Some in Hmask.
      rewrite decide_True by (right; split_and!; [lia|lia|done]).
      split_and!; [done| |done]. rewrite Z.max_l by lia.
      apply (record_refines _ _ _ id now Hr); ilia.
Qed.

(** C3: the bitmap window implements its specification: from related states,
    [accept_locked] answers exactly what the set of accepted ids answers, and
    the states stay related (on every branch: sequential mode, a new highest
    id, an expired, too old, repeated or late id). *)
Theorem accept_locked_refines (self : ReplayWindow) (i : ReplayInner)
    (st : ReplaySpec.state) (id now : Z) :
  refines self i st -> is_u32 id -> id <> 0 ->
  let '(b, i') := accept_locked self i id now in
  let '(b', st') :=
    ReplaySpec.accept (window_size self) (time_window self) st id now in
  b = b' /\ refines self i' st'
  /\ highest_timestamp i' = highest_timestamp i.
Proof. apply accept_locked_simulates. Qed.

(** A 64-id window that has accepted id 10 accepts the late id 7. *)
Lemma accept_locked_refines_witness :
  let self := new 64 (from_secs 15) in
  let i := initialize self (inner self) 10 0 0 in
  (accept_locked self i 7 5).1 = true
  /\ let '(b, i') := accept_locked self i 7 5 in
     let '(b', st') :=
       ReplaySpec.accept 64 (from_secs 15) (ReplaySpec.start 10 0) 7 5 in
     b = b' /\ refines self i' st'
     /\ highest_timestamp i' = highest_timestamp i.
Proof.
  split; [vm_compute; reflexivity|].
  apply (accept_locked_refines (new 64 (from_secs 15)) _ (ReplaySpec.start 10 0) 7 5);
    [|ilia|lia].
  apply initialize_refines; [apply new_shape; ilia|ilia|lia].
Defined.

End ReplayRefinement.

(** ** Runs: no packet id is accepted twice in an epoch *)

Module ReplayTrace.

Import ReplayWindow ReplayRefinement.

(** A received packet id, in the short form or with its epoch timestamp. *)
Inductive event : Type :=
| Short (id now : Z)
| Long (id timestamp now : Z).

Definition event_ok (e : event) : Prop :=
  match e with
  | Short id _ => is_u32 id
  | Long id ts _ => is_u32 id /\ is_u32 ts
  end.

(** Process one event; an accepted id is reported with the epoch it was
    accepted in. *)
Definition step (w : ReplayWindow) (e : event) :
    option (Z * Z) * ReplayWindow :=
  match e with
  | Short id now =>
      let '(b, w') := accept_at w id now in
      (if b : bool then Some (highest_timestamp (inner w'), id) else None, w')
  | Long id ts now =>
      let '(b, w') := accept_long_form_at w id ts now in
      (if b : bool then Some (ts, id) else None, w')
  end.

Fixpoint run (w : ReplayWindow) (es : list event) : list (Z * Z) :=
  match es with
  | [] => []
  | e :: es =>
      let '(o, w') := step w e in
      option_list o ++ run w' es
  end.

(** What is known of a window that has accepted [acc]. *)
Record tracks (w : ReplayWindow) (acc : list (Z * Z)) : Prop := mkTracks {
  t_shape : shape w (inner w);
  t_fresh : initialized (inner w) = false -> acc = [];
  t_seen : initialized (inner w) = true -> exists st,
    refines w (inner w) st
    /\ (forall id, (highest_timestamp (inner w), id) ∈ acc ->
          is_Some (ReplaySpec.seen st !! id))
    /\ (forall ts id, (ts, id) ∈ acc -> ts <= highest_timestamp (inner w));
}.

Lemma new_tracks ws tw : is_u32 ws -> tracks (new ws tw) [].
Proof. intros Hu. constructor; [by apply new_shape|done|done]. Qed.

Lemma initialize_timestamp w i id ts now :
  highest_timestamp (initialize w i id ts now) = ts
  /\ initialized (initialize w i id ts now) = true.
Proof. unfold initialize. by case_decide. Qed.

(** Starting a new epoch. *)
Lemma initialize_tracks w acc id ts now :
  tracks w acc -> is_u32 id -> id <> 0 ->
  (forall ts' id', (ts', id') ∈ acc -> ts' < ts) ->
  tracks (set_inner w (initialize w (inner w) id ts now)) (acc ++ [(ts, id)])
  /\ (ts, id) ∉ acc.
Proof.
  intros Ht Hid Hnz Hold.
  destruct (initialize_timestamp w (inner w) id ts now) as [Hts Hi].
  pose proof (initialize_refines w (inner w) id ts now (t_shape _ _ Ht) Hid Hnz) as Hr.
  split; [|intros Hin%Hold; lia]. constructor; simpl.
  - apply Hr.
  - by rewrite Hi.
  - intros _. exists (ReplaySpec.start id now). rewrite Hts.
    split; [destruct Hr; by constructor|]. split.
    + intros id' [Hin%Hold|[= ->]%list_elem_of_singleton]%elem_of_app; [lia|].
      simpl. rewrite lookup_singleton_eq. eauto.
    + intros ts' id' [Hin%Hold|[= -> ->]%list_elem_of_singleton]%elem_of_app; lia.
Qed.

(** Accepting or rejecting an id in the current epoch. *)
Lemma accept_locked_tracks w acc id now b i' :
  tracks w acc -> is_u32 id -> id <> 0 -> initialized (inner w) = true ->
  accept_locked w (inner w) id now = (b, i') ->
  let key := (highest_timestamp (inner w), id) in
  highest_timestamp i' = highest_timestamp (inner w)
  /\ tracks (set_inner w i') (acc ++ if b then [key] else [])
  /\ (b = true -> key ∉ acc).
Proof.
  intros Ht Hid Hnz Hi Ha key. destruct (t_seen _ _ Ht Hi) as (st & Hr & Hs & Ho).
  pose proof (accept_locked_simulates w (inner w) st id now Hr Hid Hnz) as H.
  rewrite Ha in H. destruct (ReplaySpec.accept _ _ st id now) as [b' st'] eqn:E.
  destruct H as (<- & Hr' & Hts). split; [done|].
  assert (initialized i' = true) as Hi' by apply Hr'.
  assert (refines (set_inner w i') i' st') as Hr'' by (destruct Hr'; by constructor).
  destruct b.
  - apply ReplaySpec.accept_fresh in E as [Hnone Hseen]; [|apply Hr]. split.
    + constructor; simpl; [apply Hr''|by rewrite Hi'|]. intros _. exists st'.
      rewrite Hts, Hseen. split_and!; [done| |].
      * intros id'. rewrite elem_of_app, list_elem_of_singleton, lookup_insert.
        case_decide; [eauto|]. intros [Hin| [= ->]]; [auto|done].
      * intros ts' id'. rewrite elem_of_app, list_elem_of_singleton.
        intros [Hin|[= -> ->]]; [by eapply Ho|lia].
    + intros _ Hin. apply Hs in Hin. rewrite Hnone in Hin. by destruct Hin.
  - rewrite app_nil_r. apply ReplaySpec.reject_seen in E. split; [|done].
    constructor; simpl; [apply Hr''|by rewrite Hi'|]. intros _. exists st'.
    by rewrite Hts, E.
Qed.

Lemma step_tracks w acc e o w' :
  tracks w acc -> event_ok e -> step w e = (o, w') ->
  tracks w' (acc ++ option_list o) /\ (forall k, o = Some k -> k ∉ acc).
Proof.
  intros Ht He. assert (tracks w (acc ++ [])) as Ht0 by by rewrite app_nil_r.
  destruct e as [id now|id ts now]; simpl in *.
  - unfold accept_at. case_decide as Hz; [intros [= <- <-]; by split|].
    destruct (accept_locked w (inner w) id now) as [b i'] eqn:Ha.
    intros [= <- <-]. destruct (initialized (inner w)) eqn:Hi.
    + destruct (accept_locked_tracks _ _ _ _ _ _ Ht He Hz Hi Ha) as (Hts & H1 & H2).
      simpl in *. rewrite Hts in *. destruct b; split; try done.
      intros k [= <-]. by apply H2.
    + unfold accept_locked in Ha. rewrite Hi in Ha. injection Ha as <- <-.
      assert (acc = []) as -> by apply (t_fresh _ _ Ht Hi). simpl.
      rewrite (proj1 (initialize_timestamp w (inner w) id 0 now)).
      split; [|intros k _; apply not_elem_of_nil].
      apply (initialize_tracks w [] id 0 now Ht He Hz).
      intros ? ? []%not_elem_of_nil.
  - destruct He as [Hid Hts]. unfold accept_long_form_at.
    case_decide as Hz; [intros [= <- <-]; by split|].
    destruct (initialized (inner w)) eqn:Hi; simpl.
    + case_decide; [intros [= <- <-]; by split|]. case_decide as Hnew.
      * case_decide; intros [= <- <-]; [by split|].
        destruct (t_seen _ _ Ht Hi) as (st & _ & _ & Ho).
        destruct (initialize_tracks w acc id ts now Ht Hid Hz) as [H1 H2].
        { intros ts' id' Hin%Ho. lia. }
        split; [done|]. by intros k [= <-].
      * assert (ts = highest_timestamp (inner w)) as -> by lia.
        destruct (accept_locked w (inner w) id now) as [b i'] eqn:Ha.
        intros [= <- <-].
        destruct (accept_locked_tracks _ _ _ _ _ _ Ht Hid Hz Hi Ha) as (_ & H1 & H2).
        destruct b; split; try done. intros k [= <-]. by apply H2.
    + case_decide; intros [= <- <-]; [by split|].
      assert (acc = []) as -> by apply (t_fresh _ _ Ht Hi).
      split; [|intros k _; apply not_elem_of_nil].
      apply (initialize_tracks w [] id ts now Ht Hid Hz).
      intros ? ? []%not_elem_of_nil.
Qed.

Lemma initialize_highest w i id ts now : highest_id (initialize w i id ts now) = id.
Proof. unfold initialize. by case_decide. Qed.

(** An id above every earlier one of its epoch is accepted by a window of
    positive size, *)
Lemma accept_locked_fresh w i id now :
  0 < window_size w -> initialized i = true -> highest_id i < id ->
  let '(b, i') := accept_locked w i id now in
  b = true /\ initialized i' = true /\ highest_id i' = id
  /\ highest_timestamp i' = highest_timestamp i.
Proof.
  intros Hws Hi Hgt. unfold accept_locked. rewrite Hi, decide_False by lia. cbn [negb].
  assert (highest_id (reap w i now) = highest_id i
          /\ initialized (reap w i now) = true
          /\ highest_timestamp (reap w i now) = highest_timestamp i) as (-> & -> & ->)
    by (unfold reap; repeat case_match; done).
  rewrite decide_True by lia.
  by destruct (if decide _ then _ else _) as [bits times].
Qed.

Lemma accept_at_fresh w id now :
  0 < window_size w -> id <> 0 ->
  initialized (inner w) = false \/ highest_id (inner w) < id ->
  let '(b, w') := accept_at w id now in
  b = true /\ initialized (inner w') = true /\ window_size w' = window_size w
  /\ highest_id (inner w') = id.
Proof.
  intros Hws Hid Hnew. unfold accept_at. rewrite decide_False by done.
  destruct (initialized (inner w)) eqn:Hi.
  - destruct Hnew as [?|Hgt]; [done|].
    pose proof (accept_locked_fresh w (inner w) id now Hws Hi Hgt) as Ha.
    destruct (accept_locked w (inner w) id now) as [b i']. naive_solver.
  - unfold accept_locked. rewrite Hi. cbn [negb]. simpl.
    rewrite (proj2 (initialize_timestamp w (inner w) id 0 now)), initialize_highest.
    done.
Qed.

(** and so is one of a new epoch. *)
Lemma accept_long_form_fresh w id ts now :
  0 < window_size w -> id <> 0 ->
  (initialized (inner w) = false
   \/ highest_timestamp (inner w) < ts
   \/ (highest_timestamp (inner w) = ts /\ highest_id (inner w) < id)) ->
  let '(b, w') := accept_long_form_at w id ts now in
  b = true /\ initialized (inner w') = true /\ window_size w' = window_size w
  /\ highest_timestamp (inner w') = ts /\ highest_id (inner w') = id.
Proof.
  intros Hws Hid Hnew. unfold accept_long_form_at.
  rewrite decide_False by done.
  destruct (initialize_timestamp w (inner w) id ts now) as [Hts Hin].
  pose proof (initialize_highest w (inner w) id ts now) as Hh.
  destruct (initialized (inner w)) eqn:Hi; simpl.
  - destruct Hnew as [?|Hnew]; [done|]. rewrite decide_False by lia.
    case_decide as Hlt; [rewrite decide_False by lia; by simpl; split_and!|].
    destruct Hnew as [?|[<- Hgt]]; [lia|].
    pose proof (accept_locked_fresh w (inner w) id now Hws Hi Hgt) as Ha.
    destruct (accept_locked w (inner w) id now) as [b i']. naive_solver.
  - rewrite decide_False by lia. by simpl; split_and!.
Qed.

Lemma run_tracks w acc es :
  tracks w acc -> Forall event_ok es -> NoDup acc -> NoDup (acc ++ run w es).
Proof.
  intros Ht Hes. revert w acc Ht.
  induction Hes as [|e es He Hes IH]; intros w acc Ht Hnd; simpl.
  - by rewrite app_nil_r.
  - destruct (step w e) as [o w'] eqn:E.
    destruct (step_tracks _ _ _ _ _ Ht He E) as [Ht' Hfresh].
    rewrite (assoc_L (++)). apply IH; [done|].
    apply NoDup_app. split_and!; [done| |].
    + intros k Hin Ho. destruct o as [k'|]; [|by apply not_elem_of_nil in Ho].
      apply list_elem_of_singleton in Ho as ->. by eapply Hfresh.
    + destruct o; simpl; [apply NoDup_singleton|apply NoDup_nil_2].
Qed.

(** C2: whatever sequence of packet ids, timestamps and arrival times a window
    of any size receives, no id is accepted twice in the same timestamp
    epoch. *)
Theorem no_replay (ws tw : Z) (es : list event) :
  is_u32 ws -> Forall event_ok es -> NoDup (run (new ws tw) es).
Proof.
  intros Hu Hes. apply (run_tracks (new ws tw) [] es); [|done|apply NoDup_nil_2].
  by apply new_tracks.
Qed.

(** Out of order, repeated, too old and next-epoch ids. *)
Lemma no_replay_witness :
  let es := [Long 10 1 0; Long 7 1 1; Long 10 1 2; Long 7 1 3; Long 100 1 4;
             Long 36 1 5; Long 37 1 6; Long 10 2 7; Short 10 8] in
  run (new 64 0) es = [(1, 10); (1, 7); (1, 100); (1, 37); (2, 10)]
  /\ NoDup (run (new 64 0) es).
Proof.
  split; [vm_compute; reflexivity|].
  apply (no_replay 64 0); [ilia|repeat constructor; ilia].
Defined.

End ReplayTrace.
