(* ===== verification/OvpnSession.v ===== *)
(** * Session identity and packet-id allocation
    ([protocol/openvpn/session.rs])

    The [Mutex]-protected [SessionInner] is passed explicitly: an operation
    that mutates it returns the new value beside its result. *)

From stdpp Require Import base numbers list list_numbers gmap strings sorting.
From Stdlib Require Import ZArith Lia.
From S2P Require Import Prelude OvpnPacket.

Local Open Scope Z_scope.

Definition KEY_ID_MAX_VALUE : Z := 7.

Definition next_key_id (key_id : Z) : Z :=
  if decide (KEY_ID_MAX_VALUE <= key_id) then 1 else key_id + 1.

Inductive NegotiationState : Type :=
| Initial
| PreStart
| Start
| ControlReady.

Global Instance NegotiationState_eq_dec : EqDecision NegotiationState.
Proof. solve_decision. Defined.

Inductive SessionError : Type :=
| MissingRemoteSessionId
| PacketIdExpired
| InvalidOpcode.

Global Instance SessionError_eq_dec : EqDecision SessionError.
Proof. solve_decision. Defined.

Module Session.

Record SessionInner : Type := mkSession {
  key_id : Z;
  local_session_id : list Z;
  remote_session_id : option (list Z);
  local_control_packet_id : Z;
  local_data_packet_id : Z;
  negotiation_state : NegotiationState;
}.

(** [SessionManager::with_local_id] ([new] draws the id at random). *)
Definition with_local_id (id : list Z) : SessionInner :=
  mkSession 0 id None 1 1 Initial.

Definition set_remote_session_id (s : SessionInner) (id : list Z) :
    SessionInner :=
  mkSession (key_id s) (local_session_id s) (Some id)
    (local_control_packet_id s) (local_data_packet_id s)
    (negotiation_state s).

Definition set_negotiation_state (s : SessionInner) (st : NegotiationState) :
    SessionInner :=
  mkSession (key_id s) (local_session_id s) (remote_session_id s)
    (local_control_packet_id s) (local_data_packet_id s) st.

Definition validate_incoming_remote_session_id (s : SessionInner)
    (packet : Packet.Packet) : bool :=
  bool_decide (Packet.acknowledgment_ids packet = [])
  || (bool_decide (Packet.remote_session_id packet <> replicate 8 0)
      && bool_decide (Packet.remote_session_id packet = local_session_id s)).

Definition validate_incoming_local_session_id (s : SessionInner)
    (packet : Packet.Packet) : bool :=
  match remote_session_id s with
  | Some id => bool_decide (Packet.local_session_id packet = id)
  | None => false
  end.

(** [SessionManager::renegotiation]. *)
Definition renegotiation (s : SessionInner) (key : Z) : SessionInner :=
  mkSession key (local_session_id s) (remote_session_id s) 1 1 Start.

Definition new_soft_reset_packet (s : SessionInner) :
    result SessionError Packet.Packet :=
  remote ← ok_or MissingRemoteSessionId (remote_session_id s);
  Ok (Packet.set_remote_session_id remote
        (Packet.set_local_session_id (local_session_id s)
           (Packet.new ControlSoftResetV1 (key_id s) []))).

Definition new_acknowledgment_packet (s : SessionInner) (acks : list Z) :
    result SessionError Packet.Packet :=
  remote ← ok_or MissingRemoteSessionId (remote_session_id s);
  Ok (Packet.set_acknowledgment_ids acks
        (Packet.set_remote_session_id remote
           (Packet.set_local_session_id (local_session_id s)
              (Packet.new AcknowledgmentV1 (key_id s) [])))).

Definition new_hard_reset_server_v2_packet (s : SessionInner)
    (acks : list Z) : result SessionError Packet.Packet :=
  let packet :=
    Packet.set_acknowledgment_ids acks
      (Packet.set_local_session_id (local_session_id s)
         (Packet.new ControlHardResetServerV2 (key_id s) [])) in
  if decide (acks <> []) then
    remote ← ok_or MissingRemoteSessionId (remote_session_id s);
    Ok (Packet.set_remote_session_id remote packet)
  else Ok packet.

Definition bump_control_packet_id (s : SessionInner) : SessionInner :=
  mkSession (key_id s) (local_session_id s) (remote_session_id s)
    (local_control_packet_id s + 1) (local_data_packet_id s)
    (negotiation_state s).

(** [SessionManager::new_control_packet]. *)
Definition new_control_packet (s : SessionInner) (op : Opcode)
    (body : list Z) : result SessionError Packet.Packet * SessionInner :=
  if negb (Opcode.is_control op) then (Err InvalidOpcode, s)
  else if decide (local_control_packet_id s = U32_MAX)
  then (Err PacketIdExpired, s)
  else
    let id := local_control_packet_id s in
    let packet :=
      Packet.set_id id
        (Packet.set_remote_session_id
           (default (replicate 8 0) (remote_session_id s))
           (Packet.set_local_session_id (local_session_id s)
              (Packet.new op (key_id s) body))) in
    (Ok packet, bump_control_packet_id s).


(** [SessionManager::new_data_packet_ids]; [count] is a [usize]. *)
Definition new_data_packet_ids (s : SessionInner) (op : Opcode) (count : Z) :
    result SessionError (list Z) * SessionInner :=
  if negb (Opcode.is_data op) then (Err InvalidOpcode, s)
  else if decide (U32_MAX < count) then (Err PacketIdExpired, s)
  else
    let start := local_data_packet_id s in
    let end_ := start + count in
    if decide (U32_MAX < end_) then (Err PacketIdExpired, s)
    else
      (Ok (seqZ start (end_ - start)),
       mkSession (key_id s) (local_session_id s) (remote_session_id s)
         (local_control_packet_id s) end_ (negotiation_state s)).

(** ** Packet-id allocation over a session *)

(** The ids handed out by a sequence of data-packet requests, refused requests
    included. *)
Fixpoint data_ids_run (s : SessionInner) (reqs : list (Opcode * Z)) :
    list Z * SessionInner :=
  match reqs with
  | [] => ([], s)
  | (op, count) :: reqs =>
      let '(r, s') := new_data_packet_ids s op count in
      let '(ids, s'') := data_ids_run s' reqs in
      (match r with Ok l => l ++ ids | Err _ => ids end, s'')
  end.

Lemma data_ids_run_spec s reqs :
  is_u32 (local_data_packet_id s) -> Forall (fun r => 0 <= r.2) reqs ->
  let '(ids, s') := data_ids_run s reqs in
  ids = seqZ (local_data_packet_id s)
          (local_data_packet_id s' - local_data_packet_id s)
  /\ local_data_packet_id s <= local_data_packet_id s' <= U32_MAX
  /\ local_control_packet_id s' = local_control_packet_id s.
Proof.
  intros Hs Hreqs. revert s Hs.
  induction Hreqs as [|[op count] reqs Hc _ IH]; intros s Hs; simpl.
  { rewrite Z.sub_diag. split_and!; [done|lia|ilia|done]. }
  simpl in Hc. pose proof (IH s Hs) as Hrefused.
  unfold new_data_packet_ids.
  destruct (negb _); [by destruct (data_ids_run s reqs)|].
  destruct (decide (U32_MAX < count)); [by destruct (data_ids_run s reqs)|].
  destruct (decide (U32_MAX < _ + count)); [by destruct (data_ids_run s reqs)|].
  clear Hrefused. set (s1 := mkSession _ _ _ _ _ _).
  specialize (IH s1). destruct (data_ids_run s1 reqs) as [ids s2].
  destruct IH as (-> & Hle & Hctl); [subst s1; simpl; ilia|]. simpl in *.
  split_and!; [|lia|lia|done].
  replace (local_data_packet_id s2 - local_data_packet_id s) with
    (count + (local_data_packet_id s2 - (local_data_packet_id s + count))) by lia.
  rewrite seqZ_app by lia. do 2 f_equal; lia.
Qed.

(** the packet ids (the AEAD nonces) a session hands out for data packets,
    over any sequence of requests of any sizes, are consecutive: none is
    repeated or skipped, and the counter never passes the 32-bit range, a
    request that would being refused without consuming ids. *)
Theorem data_ids_consecutive (s : SessionInner) (reqs : list (Opcode * Z)) :
  is_u32 (local_data_packet_id s) -> Forall (fun r => 0 <= r.2) reqs ->
  let '(ids, s') := data_ids_run s reqs in
  ids = seqZ (local_data_packet_id s)
          (local_data_packet_id s' - local_data_packet_id s)
  /\ NoDup ids
  /\ local_data_packet_id s <= local_data_packet_id s' <= U32_MAX
  /\ local_control_packet_id s' = local_control_packet_id s.
Proof.
  intros Hs Hreqs. pose proof (data_ids_run_spec s reqs Hs Hreqs) as H.
  destruct (data_ids_run s reqs) as [ids s']. destruct H as (-> & ? & ?).
  split_and!; try done; [apply NoDup_seqZ|lia|lia].
Qed.

Lemma data_ids_consecutive_witness :
  let s := with_local_id [1; 2; 3; 4; 5; 6; 7; 8] in
  let reqs := [(DataV2, 3); (ControlV1, 9); (DataV1, 4294967295); (DataV2, 2)] in
  (data_ids_run s reqs).1 = [1; 2; 3; 4; 5]
  /\ let '(ids, s') := data_ids_run s reqs in
     ids = seqZ (local_data_packet_id s)
             (local_data_packet_id s' - local_data_packet_id s)
     /\ NoDup ids
     /\ local_data_packet_id s <= local_data_packet_id s' <= U32_MAX
     /\ local_control_packet_id s' = local_control_packet_id s.
Proof.
  split; [vm_compute; reflexivity|].
  apply (data_ids_consecutive (with_local_id [1; 2; 3; 4; 5; 6; 7; 8]));
    [simpl; ilia|repeat constructor; simpl; lia].
Defined.

(** The control packet-id counter: what a new control packet carries, and that
    the counter moves by one per packet. *)
Lemma new_control_packet_Ok s op body p s' :
  new_control_packet s op body = (Ok p, s') ->
  Packet.id p = local_control_packet_id s
  /\ Packet.payload p = body /\ Packet.opcode p = op
  /\ Packet.acknowledgment_ids p = []
  /\ local_control_packet_id s <> U32_MAX
  /\ s' = bump_control_packet_id s.
Proof.
  unfold new_control_packet. repeat case_match; try done.
  intros [= <- <-]. by split_and!.
Qed.

Lemma new_control_packet_Err s op body e s' :
  new_control_packet s op body = (Err e, s') -> s' = s.
Proof. unfold new_control_packet. repeat case_match; by intros [= _ <-]. Qed.

(** Key ids cycle through 1..7 once a session renegotiates; 0 is used by the
    initial key only. *)
Lemma next_key_id_range k : 0 <= k -> 1 <= next_key_id k <= 7.
Proof. unfold next_key_id, KEY_ID_MAX_VALUE. case_decide; lia. Qed.

Lemma next_key_id_ne k : 0 <= k <= 7 -> next_key_id k <> k.
Proof. unfold next_key_id, KEY_ID_MAX_VALUE. case_decide; lia. Qed.

End Session.
