(* ===== verification/OvpnReliable.v ===== *)
(** * The reliable control layer ([protocol/openvpn/reliable.rs])

    A [BTreeMap] or [BTreeSet] is a [gmap] or [gset], iterated in ascending key
    order where the code iterates it.  The state behind each [Mutex] is passed
    explicitly. *)

From stdpp Require Import base numbers list list_numbers gmap strings sorting.
From Stdlib Require Import ZArith Lia.
From S2P Require Import Prelude OvpnPacket.

Local Open Scope Z_scope.

Definition RELIABLE_SEND_BUFFER_SIZE : nat := 6.
Definition RELIABLE_RECEIVE_BUFFER_SIZE : Z := 12.
Definition MAXIMUM_ACKNOWLEDGMENTS_PER_PACKET : nat := 4.
Definition ACKNOWLEDGMENT_SET_CAPACITY : nat := 8.
Definition INITIAL_RETRANSMISSION_TIMEOUT : Z := from_secs 2.
Definition MAXIMUM_RETRANSMISSION_TIMEOUT : Z := from_secs 60.
Definition FAST_RETRANSMISSION_ACK_THRESHOLD : Z := 3.

(** ** The sender *)

Module Outgoing.

Record InFlightPacket : Type := mkInFlight {
  packet : Packet.Packet;
  retransmission_deadline : option Z;
  higher_packet_acknowledgments : Z;
  retransmission_count : Z;
}.

(** [InFlightPacket::schedule]. *)
Definition schedule (t : InFlightPacket) (now : Z) : InFlightPacket :=
  let count := saturating_add U32_MAX (retransmission_count t) 1 in
  let shift := Z.min (saturating_sub count 1) 31 in
  let multiplier := Z.shiftl 1 shift in
  let timeout :=
    Z.min (duration_saturating_mul INITIAL_RETRANSMISSION_TIMEOUT multiplier)
      MAXIMUM_RETRANSMISSION_TIMEOUT in
  mkInFlight (packet t) (Some (now + timeout))
    (higher_packet_acknowledgments t) count.

Record OutgoingInner : Type := mkOutgoing {
  in_flight : gmap Z InFlightPacket;
  pending_acknowledgments : gset Z;
}.

(** [OutgoingReliableState::new]. *)
Definition new : OutgoingInner := mkOutgoing ∅ ∅.

(** Iteration order of a set; that of a map is [entries]. *)
Definition ascending (s : gset Z) : list Z := merge_sort Z.le (elements s).

(** [take_acknowledgments]. *)
Definition take_acknowledgments (inner : OutgoingInner) (maximum : nat) :
    list Z * OutgoingInner :=
  let ids := take maximum (ascending (pending_acknowledgments inner)) in
  (ids,
   mkOutgoing (in_flight inner)
     (foldl (fun s id => s ∖ {[id]}) (pending_acknowledgments inner) ids)).

(** The loop of [return_acknowledgments], with its early [break]. *)
Fixpoint return_loop (pending : gset Z) (ids : list Z) : gset Z :=
  match ids with
  | [] => pending
  | id :: ids =>
      if decide ((ACKNOWLEDGMENT_SET_CAPACITY <= size pending)%nat
                 /\ id ∉ pending)
      then pending
      else return_loop ({[id]} ∪ pending) ids
  end.

Definition return_acknowledgments (inner : OutgoingInner) (ids : list Z) :
    OutgoingInner :=
  mkOutgoing (in_flight inner) (return_loop (pending_acknowledgments inner) ids).

(** [OutgoingReliableState::insert_outgoing_packet].  The closure [create] may
    itself change state ([S]: the session whose packet ids it consumes). *)
Definition insert_outgoing_packet {E S : Type} (inner : OutgoingInner)
    (maximum_acknowledgments : nat)
    (create : list Z -> S -> result E Packet.Packet * S) (s : S) :
    result E (option Packet.Packet) * OutgoingInner * S :=
  if decide (RELIABLE_SEND_BUFFER_SIZE <= size (in_flight inner))%nat
  then (Ok None, inner, s)
  else
    let '(ids, inner) := take_acknowledgments inner maximum_acknowledgments in
    let '(r, s) := create ids s in
    match r with
    | Ok p =>
        (Ok (Some p),
         mkOutgoing
           (<[Packet.id p := mkInFlight p None 0 0]> (in_flight inner))
           (pending_acknowledgments inner), s)
    | Err error => (Err error, return_acknowledgments inner ids, s)
    end.

(** One acknowledged id, in [on_incoming_packet]. *)
Definition acknowledge (flight : gmap Z InFlightPacket) (acked : Z) :
    gmap Z InFlightPacket :=
  map_imap (fun id tracked =>
      Some (if decide (id < acked) then
              mkInFlight (packet tracked) (retransmission_deadline tracked)
                (saturating_add U8_MAX (higher_packet_acknowledgments tracked) 1)
                (retransmission_count tracked)
            else tracked))
    (delete acked flight).

(** [OutgoingReliableState::on_incoming_packet]. *)
Definition on_incoming_packet (inner : OutgoingInner) (p : Packet.Packet) :
    OutgoingInner :=
  let pending := pending_acknowledgments inner in
  let pending :=
    if decide (Packet.opcode p <> AcknowledgmentV1
               /\ (size pending < ACKNOWLEDGMENT_SET_CAPACITY)%nat)
    then {[Packet.id p]} ∪ pending else pending in
  mkOutgoing (foldl acknowledge (in_flight inner) (Packet.acknowledgment_ids p))
    pending.

Definition pending_acknowledgment_count (inner : OutgoingInner) : nat :=
  size (pending_acknowledgments inner).

Definition take_acknowledgment_ids := take_acknowledgments.
Definition return_acknowledgment_ids := return_acknowledgments.

Definition has_in_flight_packets (inner : OutgoingInner) : bool :=
  bool_decide (in_flight inner <> ∅).

(** The readiness test of [packets_ready_to_send]. *)
Definition ready (now : Z) (t : InFlightPacket) : bool :=
  match retransmission_deadline t with
  | None => true
  | Some deadline => bool_decide (deadline <= now)
  end
  || bool_decide (FAST_RETRANSMISSION_ACK_THRESHOLD
                  <= higher_packet_acknowledgments t).

(** [OutgoingReliableState::packets_ready_to_send]. *)
Definition packets_ready_to_send (inner : OutgoingInner) (now : Z) :
    list Packet.Packet * OutgoingInner :=
  (omap (fun e : Z * InFlightPacket =>
           if ready now e.2 then Some (packet e.2) else None)
     (entries (in_flight inner)),
   mkOutgoing
     ((fun t => if ready now t then schedule t now else t)
        <$> in_flight inner)
     (pending_acknowledgments inner)).

(** ** Invariant: the windows are bounded *)

Record ok (o : OutgoingInner) : Prop := mkOk {
  ok_window : (size (in_flight o) <= RELIABLE_SEND_BUFFER_SIZE)%nat;
  ok_acks : (size (pending_acknowledgments o) <= ACKNOWLEDGMENT_SET_CAPACITY)%nat;
  ok_ids : forall id t, in_flight o !! id = Some t -> Packet.id (packet t) = id;
}.

Lemma ascending_elem s id : id ∈ ascending s <-> id ∈ s.
Proof. unfold ascending. by rewrite merge_sort_Permutation, elem_of_elements. Qed.

Lemma length_ascending s : length (ascending s) = size s.
Proof. unfold ascending. by rewrite merge_sort_Permutation. Qed.

Lemma ascending_NoDup s : NoDup (ascending s).
Proof. unfold ascending. rewrite merge_sort_Permutation. apply NoDup_elements. Qed.

Lemma ascending_sorted s : Sorted Z.le (ascending s).
Proof. apply (Sorted_merge_sort _). Qed.

Lemma remove_loop (s : gset Z) ids :
  foldl (fun s id => s ∖ {[id]}) s ids = s ∖ list_to_set ids.
Proof.
  revert s. induction ids as [|id ids IH]; intros s; simpl; [set_solver|].
  rewrite IH. set_solver.
Qed.

Lemma take_acknowledgments_spec o n :
  let '(ids, o') := take_acknowledgments o n in
  ids = take n (ascending (pending_acknowledgments o))
  /\ list_to_set ids ⊆ pending_acknowledgments o
  /\ pending_acknowledgments o' = pending_acknowledgments o ∖ list_to_set ids
  /\ in_flight o' = in_flight o.
Proof.
  unfold take_acknowledgments. split_and!; [done| |apply remove_loop|done].
  intros id. rewrite elem_of_list_to_set. intros Hid.
  apply ascending_elem. apply elem_of_take in Hid as (i & Hi & _).
  by eapply list_elem_of_lookup_2.
Qed.

(** Returning the acknowledgments that were taken restores the set. *)
Lemma return_loop_restores (p q : gset Z) ids :
  q ∪ list_to_set ids = p -> (size p <= ACKNOWLEDGMENT_SET_CAPACITY)%nat ->
  return_loop q ids = p.
Proof.
  revert q. induction ids as [|id ids IH]; intros q Hp Hsize; simpl; [set_solver|].
  rewrite decide_False.
  - apply IH; [|done]. set_solver.
  - intros [Hcap Hid]. simpl in Hp.
    assert (size ({[id]} ∪ q) <= size p)%nat as Hle
      by (apply subseteq_size; set_solver).
    rewrite size_union, size_singleton in Hle by set_solver. lia.
Qed.

Lemma return_loop_size q ids :
  (size q <= ACKNOWLEDGMENT_SET_CAPACITY)%nat ->
  (size (return_loop q ids) <= ACKNOWLEDGMENT_SET_CAPACITY)%nat.
Proof.
  revert q. induction ids as [|id ids IH]; intros q Hq; simpl; [done|].
  case_decide as Hc; [done|]. apply IH.
  destruct (decide (id ∈ q)) as [Hin|Hin].
  - by replace ({[id]} ∪ q) with q by set_solver.
  - rewrite size_union, size_singleton by set_solver.
    destruct (decide (ACKNOWLEDGMENT_SET_CAPACITY <= size q)%nat); [tauto|lia].
Qed.

Lemma take_return o n :
  ok o ->
  let '(ids, o') := take_acknowledgments o n in return_acknowledgments o' ids = o.
Proof.
  intros Ho. pose proof (take_acknowledgments_spec o n) as H.
  destruct (take_acknowledgments o n) as [ids o'].
  destruct H as (_ & Hsub & Hp & Hf). unfold return_acknowledgments.
  rewrite Hf, Hp, (return_loop_restores (pending_acknowledgments o)).
  - by destruct o.
  - rewrite union_comm_L. symmetry. by apply union_difference_L.
  - apply Ho.
Qed.

Lemma insert_outgoing_packet_cases {E S : Type} (o : OutgoingInner)
    (n : nat) (create : list Z -> S -> result E Packet.Packet * S) (s : S) :
  ok o ->
  let ids := take n (ascending (pending_acknowledgments o)) in
  match insert_outgoing_packet o n create s with
  | (Ok None, o', s') =>
      size (in_flight o) = RELIABLE_SEND_BUFFER_SIZE /\ o' = o /\ s' = s
  | (Err e, o', s') => o' = o /\ create ids s = (Err e, s')
  | (Ok (Some p), o', s') =>
      (size (in_flight o) < RELIABLE_SEND_BUFFER_SIZE)%nat
      /\ create ids s = (Ok p, s')
      /\ in_flight o' = <[Packet.id p := mkInFlight p None 0 0]> (in_flight o)
      /\ pending_acknowledgments o'
         = pending_acknowledgments o ∖ list_to_set ids
  end.
Proof.
  intros Ho ids. unfold insert_outgoing_packet.
  destruct (decide _) as [Hfull|Hroom].
  { pose proof (ok_window _ Ho). split_and!; [lia|done..]. }
  pose proof (take_acknowledgments_spec o n) as Ht.
  pose proof (take_return o n Ho) as Hr.
  destruct (take_acknowledgments o n) as [ids' o1]. destruct Ht as (-> & _ & Hp & Hf).
  fold ids in Hr |- *. destruct (create ids s) as [[p|e] s1] eqn:Hc; simpl.
  - rewrite Hf, Hp. split_and!; [lia|done..].
  - by rewrite Hr.
Qed.

(** Inserting a reliable packet is atomic.  With a full send window nothing
    is consumed and the packet is not created; when creating the packet fails,
    the taken acknowledgments are put back exactly; on success the packet is in
    flight and carries the lowest pending acknowledgments, which leave the
    pending set. *)
Theorem insert_outgoing_packet_atomic {E S : Type} (o : OutgoingInner)
    (n : nat) (create : list Z -> S -> result E Packet.Packet * S) (s : S) :
  ok o ->
  let ids := take n (ascending (pending_acknowledgments o)) in
  match insert_outgoing_packet o n create s with
  | (Ok None, o', s') =>
      size (in_flight o) = RELIABLE_SEND_BUFFER_SIZE /\ o' = o /\ s' = s
  | (Err e, o', s') => o' = o /\ create ids s = (Err e, s')
  | (Ok (Some p), o', s') =>
      (size (in_flight o) < RELIABLE_SEND_BUFFER_SIZE)%nat
      /\ create ids s = (Ok p, s')
      /\ in_flight o' = <[Packet.id p := mkInFlight p None 0 0]> (in_flight o)
      /\ pending_acknowledgments o'
         = pending_acknowledgments o ∖ list_to_set ids
  end.
Proof. apply insert_outgoing_packet_cases. Qed.

(** Creation fails: the three lowest of five acknowledgments are put back. *)
Lemma insert_outgoing_packet_atomic_witness :
  let o := mkOutgoing ∅ (list_to_set [5; 1; 4; 2; 3]) in
  let create (ids : list Z) (s : list Z) : result bool Packet.Packet * list Z :=
    (Err true, ids) in
  match insert_outgoing_packet o 3 create [] with
  | (Ok None, o', s') =>
      size (in_flight o) = RELIABLE_SEND_BUFFER_SIZE /\ o' = o /\ s' = []
  | (Err e, o', s') => o' = o /\ create [1; 2; 3] [] = (Err e, s')
  | (Ok (Some p), o', s') =>
      (size (in_flight o) < RELIABLE_SEND_BUFFER_SIZE)%nat
      /\ create [1; 2; 3] [] = (Ok p, s')
      /\ in_flight o' = <[Packet.id p := mkInFlight p None 0 0]> (in_flight o)
      /\ pending_acknowledgments o'
         = pending_acknowledgments o ∖ list_to_set [1; 2; 3]
  end.
Proof.
  intros o create. apply (insert_outgoing_packet_atomic o 3 create []).
  constructor; [vm_compute; lia|vm_compute; lia|].
  intros id t. simpl. rewrite lookup_empty. discriminate.
Defined.

Lemma size_acknowledge flight acked :
  (size (acknowledge flight acked) <= size flight)%nat.
Proof.
  unfold acknowledge. rewrite <- !size_dom.
  apply subseteq_size. rewrite dom_imap_subseteq. set_solver.
Qed.

Lemma acknowledge_lookup flight acked id t :
  acknowledge flight acked !! id = Some t ->
  id <> acked /\ exists t0, flight !! id = Some t0 /\ packet t = packet t0.
Proof.
  unfold acknowledge. rewrite map_lookup_imap.
  intros (t0 & Hd & Ht)%bind_Some. apply lookup_delete_Some in Hd as [Hne Hd].
  split; [done|]. exists t0. split; [done|]. case_decide; by injection Ht as <-.
Qed.

Lemma acknowledge_loop_ok flight acks :
  (size (foldl acknowledge flight acks) <= size flight)%nat
  /\ forall id t, foldl acknowledge flight acks !! id = Some t ->
     id ∉ acks /\ exists t0, flight !! id = Some t0 /\ packet t = packet t0.
Proof.
  revert flight. induction acks as [|a acks IH]; intros flight; simpl.
  - split; [done|]. intros id t Ht. split; [apply not_elem_of_nil|eauto].
  - destruct (IH (acknowledge flight a)) as [Hs Hl].
    pose proof (size_acknowledge flight a). split; [lia|].
    intros id t (Hn & t0 & Ht0 & Hp)%Hl.
    apply acknowledge_lookup in Ht0 as (Hne & t1 & Ht1 & Hp1).
    rewrite not_elem_of_cons. split; [done|]. exists t1. split; congruence.
Qed.

Lemma schedule_packet t now : packet (schedule t now) = packet t.
Proof. done. Qed.

Lemma insert_ok {E S} o n (create : list Z -> S -> result E Packet.Packet * S) s :
  ok o -> ok (insert_outgoing_packet o n create s).1.2.
Proof.
  intros Ho. pose proof (insert_outgoing_packet_cases o n create s Ho) as H.
  destruct (insert_outgoing_packet o n create s) as [[[[p|]|e] o'] s']; simpl in *.
  - destruct H as (Hlt & _ & Hf & Hp). destruct Ho as [Hw Ha Hi]. constructor.
    + rewrite Hf, map_size_insert. case_match; simpl; lia.
    + rewrite Hp. etransitivity; [|exact Ha]. apply subseteq_size. set_solver.
    + intros id t. rewrite Hf, lookup_insert. case_decide; [|apply Hi].
      by intros [= <-].
  - by destruct H as (_ & -> & _).
  - by destruct H as (-> & _).
Qed.

Lemma on_incoming_packet_ok o p : ok o -> ok (on_incoming_packet o p).
Proof.
  intros [Hw Ha Hi]. unfold on_incoming_packet.
  destruct (acknowledge_loop_ok (in_flight o) (Packet.acknowledgment_ids p))
    as [Hs Hl].
  constructor; simpl.
  - lia.
  - case_decide as Hc; [|done]. destruct Hc as [_ Hc].
    rewrite size_union_alt, size_singleton.
    assert (size (pending_acknowledgments o ∖ {[Packet.id p]})
            <= size (pending_acknowledgments o))%nat
      by (apply subseteq_size; set_solver). lia.
  - intros id t (_ & t0 & Ht0 & ->)%Hl. by apply Hi.
Qed.

Lemma take_ok o n : ok o -> ok (take_acknowledgments o n).2.
Proof.
  intros [Hw Ha Hi]. pose proof (take_acknowledgments_spec o n) as H.
  destruct (take_acknowledgments o n) as [ids o'].
  destruct H as (_ & _ & Hp & Hf). constructor; simpl.
  - by rewrite Hf.
  - rewrite Hp. etransitivity; [|exact Ha]. apply subseteq_size. set_solver.
  - by rewrite Hf.
Qed.

Lemma return_ok o ids : ok o -> ok (return_acknowledgments o ids).
Proof. intros [Hw Ha Hi]. constructor; simpl; auto using return_loop_size. Qed.

Lemma ready_ok o now : ok o -> ok (packets_ready_to_send o now).2.
Proof.
  intros [Hw Ha Hi]. constructor; simpl; [by rewrite map_size_fmap|done|].
  intros id t. rewrite lookup_fmap, fmap_Some.
  intros (t0 & Ht0 & ->). specialize (Hi _ _ Ht0). by case_match.
Qed.

#[export] Hint Resolve insert_ok on_incoming_packet_ok take_ok return_ok ready_ok
  : zay.

(** The operations of the sender, as transitions of its state. *)
Inductive step : OutgoingInner -> OutgoingInner -> Prop :=
| step_insert {E S} o n (create : list Z -> S -> result E Packet.Packet * S) s :
    step o (insert_outgoing_packet o n create s).1.2
| step_incoming o p : step o (on_incoming_packet o p)
| step_take o n : step o (take_acknowledgment_ids o n).2
| step_return o ids : step o (return_acknowledgment_ids o ids)
| step_ready o now : step o (packets_ready_to_send o now).2.

(** In every state the sender can reach, at most six packets are in flight
    and at most eight acknowledgments are pending, and every in-flight packet
    is filed under its own packet id. *)
Theorem reachable_ok (o : OutgoingInner) : rtc step new o -> ok o.
Proof.
  apply rtc_invariant; [intros a b Ha Hab; destruct Hab; eauto with zay|].
  constructor; [vm_compute; lia|vm_compute; lia|].
  intros id t. simpl. by rewrite lookup_empty.
Qed.

(** Three arrivals, then an acknowledgment-only packet takes them. *)
Lemma reachable_ok_witness :
  let arrived n := Packet.set_id n (Packet.new ControlV1 0 []) in
  let o := foldl on_incoming_packet new [arrived 1; arrived 2; arrived 3] in
  (take_acknowledgment_ids o 4).1 = [1; 2; 3]
  /\ ok (take_acknowledgment_ids o 4).2.
Proof.
  intros arrived o. split; [vm_compute; reflexivity|]. apply reachable_ok.
  do 3 (eapply rtc_l; [apply step_incoming|]). apply rtc_once, step_take.
Defined.

(** the [n]-th transmission of a packet sets its deadline [2 s * 2^(n-1)]
    later, capped at 60 s: the backoff doubles, never shrinks below the initial
    timeout, never exceeds the maximum, and no intermediate product overflows
    the 32-bit multiplier or the duration range. *)
Theorem schedule_backoff (t : InFlightPacket) (now : Z) :
  is_u32 (retransmission_count t) -> retransmission_count t < U32_MAX ->
  let n := retransmission_count t in
  retransmission_deadline (schedule t now)
  = Some (now + Z.min (from_secs 2 * 2 ^ n) (from_secs 60))
  /\ retransmission_count (schedule t now) = n + 1.
Proof.
  intros Hu Hlt n. unfold schedule. simpl. fold n in Hu, Hlt |- *.
  assert (saturating_add U32_MAX n 1 = n + 1) as -> by ilia.
  split; [|done]. do 2 f_equal.
  assert (saturating_sub (n + 1) 1 = n) as -> by ilia.
  rewrite Z.shiftl_1_l.
  unfold duration_saturating_mul, INITIAL_RETRANSMISSION_TIMEOUT,
    MAXIMUM_RETRANSMISSION_TIMEOUT.
  destruct (decide (n <= 31)) as [Hle|Hgt].
  - rewrite (Z.min_l n 31) by lia. f_equal. apply Z.min_r.
    assert (2 ^ n <= 2 ^ 31) by (apply Z.pow_le_mono_r; ilia).
    unfold from_secs, DURATION_MAX, NANOS_PER_SEC, U64_MAX. lia.
  - rewrite (Z.min_r n 31) by lia.
    assert (2 ^ 31 <= 2 ^ n) by (apply Z.pow_le_mono_r; lia).
    unfold from_secs, DURATION_MAX, NANOS_PER_SEC, U64_MAX. lia.
Qed.

(** The fifth transmission waits 32 s, the sixth 60 s. *)
Lemma schedule_backoff_witness :
  let t n := mkInFlight (Packet.new ControlV1 0 []) None 0 n in
  retransmission_deadline (schedule (t 4) 0) = Some (from_secs 32)
  /\ retransmission_deadline (schedule (t 5) 0)
     = Some (0 + Z.min (from_secs 2 * 2 ^ 5) (from_secs 60))
  /\ retransmission_count (schedule (t 5) 0) = 5 + 1.
Proof.
  intros t. split; [vm_compute; reflexivity|].
  apply (schedule_backoff (t 5) 0); simpl; ilia.
Defined.

(** The fast-retransmission counter is not cleared by a retransmission: once a
    packet has three higher acknowledgments it is ready again at any later
    poll, whatever deadline the retransmission has just set. *)
Lemma fast_retransmission_not_reset t now now' :
  FAST_RETRANSMISSION_ACK_THRESHOLD <= higher_packet_acknowledgments t ->
  ready now' (schedule t now) = true.
Proof.
  intros H. apply orb_true_iff. right. by apply bool_decide_eq_true_2.
Qed.

End Outgoing.

(** ** The receiver *)

Module Incoming.

Record IncomingInner : Type := mkIncoming {
  pending : gmap Z Packet.Packet;
  last_consumed_id : Z;
}.

(** [IncomingReliableState::new]. *)
Definition new : IncomingInner := mkIncoming ∅ 0.

(** [IncomingReliableState::try_insert_incoming_packet]. *)
Definition try_insert_incoming_packet (inner : IncomingInner)
    (p : Packet.Packet) : bool * IncomingInner :=
  if decide (Packet.id p <= last_consumed_id inner
             \/ is_Some (pending inner !! Packet.id p))
  then (false, inner)
  else
    let next := wrap32 (last_consumed_id inner + 1) in
    if decide (RELIABLE_RECEIVE_BUFFER_SIZE <= wrap32 (Packet.id p - next)
               \/ RELIABLE_RECEIVE_BUFFER_SIZE <= Z.of_nat (size (pending inner)))
    then (false, inner)
    else
      (true, mkIncoming (<[Packet.id p := p]> (pending inner))
               (last_consumed_id inner)).

(** The loop of [next_ordered_sequence]; each iteration removes a pending
    packet. *)
Fixpoint ordered_loop (fuel : nat) (inner : IncomingInner) :
    list Packet.Packet * IncomingInner :=
  match fuel with
  | O => ([], inner)
  | S fuel =>
      let next := wrap32 (last_consumed_id inner + 1) in
      match pending inner !! next with
      | None => ([], inner)
      | Some p =>
          let '(ready, inner') :=
            ordered_loop fuel (mkIncoming (delete next (pending inner)) next) in
          (p :: ready, inner')
      end
  end.

(** [IncomingReliableState::next_ordered_sequence]. *)
Definition next_ordered_sequence (inner : IncomingInner) :
    list Packet.Packet * IncomingInner :=
  ordered_loop (S (size (pending inner))) inner.

(** ** Invariant: the receive window *)

(** Every buffered packet is filed under its id, inside the twelve ids that
    follow the last consumed one. *)
Record ok (i : IncomingInner) : Prop := mkOk {
  ok_last : is_u32 (last_consumed_id i);
  ok_pending : forall id p, pending i !! id = Some p ->
    Packet.id p = id
    /\ last_consumed_id i < id <= last_consumed_id i + RELIABLE_RECEIVE_BUFFER_SIZE
    /\ id <= U32_MAX;
}.

(** In a settled state the next expected packet is not buffered. *)
Definition settled (i : IncomingInner) : Prop :=
  pending i !! (last_consumed_id i + 1) = None.

Lemma new_ok : ok new /\ settled new.
Proof.
  split; [constructor; simpl; [ilia|]|by unfold settled].
  intros id p. by rewrite lookup_empty.
Qed.

Lemma wrap32_next i :
  ok i -> last_consumed_id i < U32_MAX ->
  wrap32 (last_consumed_id i + 1) = last_consumed_id i + 1.
Proof.
  intros [Hl _] Hlt. unfold wrap32. apply Z.mod_small.
  change (2 ^ 32) with 4294967296. ilia.
Qed.

Lemma lookup_next i :
  ok i ->
  pending i !! wrap32 (last_consumed_id i + 1)
  = pending i !! (last_consumed_id i + 1).
Proof.
  intros Hi. destruct (decide (last_consumed_id i < U32_MAX)).
  - by rewrite wrap32_next.
  - destruct Hi as [Hl Hp].
    assert (last_consumed_id i = U32_MAX) as He by ilia. rewrite He in *.
    change (wrap32 (U32_MAX + 1)) with 0.
    transitivity (@None Packet.Packet); [|symmetry]; apply eq_None_not_Some;
      intros [p Hx]; apply Hp in Hx; ilia.
Qed.

(** The receive window never fills up without the packet it waits for: the
    buffered ids other than the next one fit in eleven slots. *)
Lemma pending_size i :
  ok i -> settled i -> (size (pending i) <= 11)%nat.
Proof.
  intros [Hl Hp] Hs.
  assert (dom (pending i)
          ⊆ (list_to_set (seqZ (last_consumed_id i + 2) 11) : gset Z)) as Hsub.
  { intros id [p Hx]%elem_of_dom. rewrite elem_of_list_to_set, elem_of_seqZ.
    destruct (Hp _ _ Hx) as (_ & Hr & _). unfold RELIABLE_RECEIVE_BUFFER_SIZE in Hr.
    destruct (decide (id = last_consumed_id i + 1)) as [->|]; [|lia].
    unfold settled in Hs. congruence. }
  apply subseteq_size in Hsub. rewrite size_dom in Hsub.
  rewrite size_list_to_set in Hsub by apply NoDup_seqZ.
  by rewrite length_seqZ in Hsub.
Qed.

Lemma try_insert_ok i p b i' :
  ok i -> is_u32 (Packet.id p) -> try_insert_incoming_packet i p = (b, i') ->
  ok i' /\ last_consumed_id i' = last_consumed_id i
  /\ pending i' = (if b then <[Packet.id p := p]> (pending i) else pending i).
Proof.
  intros Hi Hid. unfold try_insert_incoming_packet.
  case_decide as H1; [intros [= <- <-]; done|].
  case_decide as H2; [intros [= <- <-]; done|].
  intros [= <- <-]. split; [|done]. constructor; simpl; [apply Hi|].
  intros id q. rewrite lookup_insert. case_decide as He; [|apply Hi].
  intros [= <-]. subst id. split; [done|].
  assert (last_consumed_id i < Packet.id p) by lia.
  rewrite wrap32_next in H2 by (done || ilia).
  unfold wrap32 in H2. rewrite Z.mod_small in H2
    by (destruct Hi as [Hl _]; change (2 ^ 32) with 4294967296; ilia).
  unfold RELIABLE_RECEIVE_BUFFER_SIZE in *. ilia.
Qed.

(** The loop delivers the consecutive run that follows the last consumed id and
    stops at the first gap; the number of buffered packets bounds its
    iterations. *)
Lemma ordered_loop_spec fuel i :
  ok i -> (size (pending i) < fuel)%nat ->
  let '(ready, i') := ordered_loop fuel i in
  ok i' /\ settled i'
  /\ last_consumed_id i' = last_consumed_id i + Z.of_nat (length ready)
  /\ map Packet.id ready = seqZ (last_consumed_id i + 1) (Z.of_nat (length ready))
  /\ (forall p, p ∈ ready -> pending i !! Packet.id p = Some p)
  /\ (forall id p, pending i' !! id = Some p -> pending i !! id = Some p).
Proof.
  revert i. induction fuel as [|fuel IH]; intros i Hi Hf; [lia|]. simpl.
  destruct (pending i !! wrap32 (last_consumed_id i + 1)) as [p|] eqn:Hn.
  - pose proof Hn as Hn'. rewrite lookup_next in Hn' by done.
    destruct (ok_pending _ Hi _ _ Hn') as (Hid & Hr & Hmax).
    rewrite wrap32_next in Hn |- * by (done || ilia).
    set (i1 := mkIncoming _ _). assert (ok i1) as Hi1.
    { constructor; simpl; [pose proof (ok_last _ Hi); ilia|].
      intros id q [Hne Hq]%lookup_delete_Some.
      destruct (ok_pending _ Hi _ _ Hq) as (? & ? & ?). split_and!; [done|lia..]. }
    specialize (IH i1 Hi1). destruct (ordered_loop fuel i1) as [ready i'].
    destruct IH as (Hi' & Hs & Hl & Hm & Hin & Hrest).
    { simpl. rewrite map_size_delete_Some by eauto.
      assert (size (pending i) <> 0%nat).
      { intros He%map_size_empty_iff. by rewrite He, lookup_empty in Hn. }
      lia. }
    simpl in *. split_and!; [done|done|lia| |..].
    + rewrite Hm, Hid. symmetry. rewrite seqZ_cons by lia. f_equal. f_equal; lia.
    + intros q [->|Hq]%elem_of_cons; [by rewrite Hid|].
      by apply Hin, lookup_delete_Some in Hq as [_ ?].
    + intros id q [_ Hq]%Hrest%lookup_delete_Some. done.
  - split_and!; try done; simpl; [|lia|].
    + unfold settled. by rewrite <- lookup_next.
    + intros p []%not_elem_of_nil.
Qed.

Lemma next_ordered_sequence_spec i :
  ok i ->
  let '(ready, i') := next_ordered_sequence i in
  ok i' /\ settled i'
  /\ last_consumed_id i' = last_consumed_id i + Z.of_nat (length ready)
  /\ map Packet.id ready = seqZ (last_consumed_id i + 1) (Z.of_nat (length ready))
  /\ (forall p, p ∈ ready -> pending i !! Packet.id p = Some p)
  /\ (forall id p, pending i' !! id = Some p -> pending i !! id = Some p).
Proof. intros Hi. apply ordered_loop_spec; [done|lia]. Qed.

(** A packet arrives: it is offered to the window and, when taken, what has
    become consecutive is delivered (as [TlsControlChannelCore] does). *)
Definition arrive (i : IncomingInner) (p : Packet.Packet) :
    list Packet.Packet * IncomingInner :=
  let '(b, i') := try_insert_incoming_packet i p in
  if b : bool then next_ordered_sequence i' else ([], i').

Fixpoint arrivals (i : IncomingInner) (ps : list Packet.Packet) :
    list Packet.Packet * IncomingInner :=
  match ps with
  | [] => ([], i)
  | p :: ps =>
      let '(d, i') := arrive i p in
      let '(ds, i'') := arrivals i' ps in
      (d ++ ds, i'')
  end.

Lemma arrive_spec i p :
  ok i -> settled i -> is_u32 (Packet.id p) ->
  let '(d, i') := arrive i p in
  ok i' /\ settled i'
  /\ last_consumed_id i' = last_consumed_id i + Z.of_nat (length d)
  /\ map Packet.id d = seqZ (last_consumed_id i + 1) (Z.of_nat (length d))
  /\ (forall q, q ∈ d -> q = p \/ pending i !! Packet.id q = Some q)
  /\ (forall id q, pending i' !! id = Some q ->
        q = p \/ pending i !! id = Some q).
Proof.
  intros Hi Hs Hid. unfold arrive.
  destruct (try_insert_incoming_packet i p) as [b i1] eqn:Ht.
  destruct (try_insert_ok _ _ _ _ Hi Hid Ht) as (Hi1 & Hl & Hp). destruct b.
  - pose proof (next_ordered_sequence_spec i1 Hi1) as H.
    destruct (next_ordered_sequence i1) as [d i'].
    destruct H as (H1 & H2 & H3 & H4 & H5 & H6). rewrite Hl, Hp in *.
    split_and!; try done.
    + intros q Hq%H5. apply lookup_insert_Some in Hq as [[_ ->]|[_ ?]]; auto.
    + intros id q Hq%H6. apply lookup_insert_Some in Hq as [[_ ->]|[_ ?]]; auto.
  - unfold settled. rewrite Hl, Hp. simpl. split_and!; try done; [lia|..].
    + intros q []%not_elem_of_nil.
    + auto.
Qed.

Lemma arrivals_spec i ps :
  ok i -> settled i -> Forall (fun p => is_u32 (Packet.id p)) ps ->
  let '(ds, i') := arrivals i ps in
  ok i' /\ settled i'
  /\ last_consumed_id i' = last_consumed_id i + Z.of_nat (length ds)
  /\ map Packet.id ds = seqZ (last_consumed_id i + 1) (Z.of_nat (length ds))
  /\ (forall q, q ∈ ds -> q ∈ ps \/ pending i !! Packet.id q = Some q)
  /\ (forall id q, pending i' !! id = Some q ->
        q ∈ ps \/ pending i !! id = Some q).
Proof.
  intros Hi Hs Hps. revert i Hi Hs.
  induction Hps as [|p ps Hp _ IH]; intros i Hi Hs; simpl.
  { split_and!; try done; [lia| |by auto]. intros q []%not_elem_of_nil. }
  pose proof (arrive_spec i p Hi Hs Hp) as H1.
  destruct (arrive i p) as [d i1]. destruct H1 as (Ha & Hb & Hc & Hd & He & Hf).
  specialize (IH i1 Ha Hb). destruct (arrivals i1 ps) as [ds i2].
  destruct IH as (Ga & Gb & Gc & Gd & Ge & Gf).
  assert (forall id q, pending i1 !! id = Some q ->
            q ∈ p :: ps \/ pending i !! id = Some q) as Hpend.
  { intros id q [->|?]%Hf; [left; apply elem_of_cons|]; auto. }
  split_and!; [done|done|rewrite length_app; lia| |..].
  - rewrite map_app, Hd, Gd, Hc, length_app, Nat2Z.inj_add, seqZ_app by lia.
    do 2 f_equal; lia.
  - intros q [Hq|Hq]%elem_of_app.
    + apply He in Hq as [->|?]; [left; apply elem_of_cons|]; auto.
    + apply Ge in Hq as [?|?]; [left; apply elem_of_cons; by right|by apply Hpend].
  - intros id q Hq%Gf. destruct Hq as [?|?];
      [left; apply elem_of_cons; by right|by apply Hpend].
Qed.

(** whatever packets arrive, lost, repeated, reordered or outside the
    window, the receiver delivers packet ids 1, 2, 3, ... in order, each
    exactly once and without a gap, and delivers only packets that arrived. *)
Theorem in_order_exactly_once (ps : list Packet.Packet) :
  Forall (fun p => is_u32 (Packet.id p)) ps ->
  let '(ds, i) := arrivals new ps in
  map Packet.id ds = seqZ 1 (Z.of_nat (length ds))
  /\ last_consumed_id i = Z.of_nat (length ds)
  /\ (forall q, q ∈ ds -> q ∈ ps).
Proof.
  intros Hps. destruct new_ok as [Hi Hs].
  pose proof (arrivals_spec new ps Hi Hs Hps) as H.
  destruct (arrivals new ps) as [ds i]. destruct H as (_ & _ & Hl & Hm & Hq & _).
  split_and!; [done|done|]. intros q [?|Hn]%Hq; [done|].
  simpl in Hn. by rewrite lookup_empty in Hn.
Qed.

(** Ids 3, 1, 3, 14, 2, 1 arrive: 1, 2, 3 are delivered. *)
Lemma in_order_exactly_once_witness :
  let ps := map (fun n => Packet.set_id n (Packet.new ControlV1 0 [n])) [3; 1; 3; 14; 2; 1] in
  let '(ds, i) := arrivals new ps in
  length ds = 3%nat
  /\ map Packet.id ds = seqZ 1 (Z.of_nat (length ds))
  /\ last_consumed_id i = Z.of_nat (length ds)
  /\ (forall q, q ∈ ds -> q ∈ ps).
Proof.
  intros ps. pose proof (in_order_exactly_once ps) as H.
  assert (length (arrivals new ps).1 = 3%nat) as Hl by (vm_compute; reflexivity).
  destruct (arrivals new ps) as [ds i]. split; [exact Hl|].
  apply H. repeat constructor; simpl; ilia.
Defined.

Lemma try_insert_next i p :
  ok i -> settled i ->
  Packet.id p = last_consumed_id i + 1 -> Packet.id p <= U32_MAX ->
  try_insert_incoming_packet i p
  = (true, mkIncoming (<[Packet.id p := p]> (pending i)) (last_consumed_id i)).
Proof.
  intros Hi Hs Hid Hmax. unfold try_insert_incoming_packet. rewrite decide_False.
  2: { intros [?|[q Hq]]; [lia|]. unfold settled in Hs. congruence. }
  rewrite decide_False; [done|].
  rewrite wrap32_next by (done || lia). rewrite Hid, Z.sub_diag.
  pose proof (pending_size i Hi Hs). unfold RELIABLE_RECEIVE_BUFFER_SIZE.
  change (wrap32 0) with 0. lia.
Qed.

(** With the next packet buffered, the loop delivers it first. *)
Lemma next_ordered_sequence_head i p :
  ok i -> pending i !! (last_consumed_id i + 1) = Some p ->
  exists r, (next_ordered_sequence i).1 = p :: r.
Proof.
  intros Hi Hp. unfold next_ordered_sequence. cbn [ordered_loop].
  rewrite lookup_next, Hp by done. destruct (ordered_loop _ _). by eexists.
Qed.

(** The receiver cannot deadlock: in every reachable state the next
    expected packet is accepted when it arrives, is delivered at once, and is
    the first packet delivered. *)
Theorem next_expected_delivered (ps : list Packet.Packet) (p : Packet.Packet) :
  Forall (fun p => is_u32 (Packet.id p)) ps ->
  let i := (arrivals new ps).2 in
  Packet.id p = last_consumed_id i + 1 -> Packet.id p <= U32_MAX ->
  head (arrive i p).1 = Some p
  /\ last_consumed_id i < last_consumed_id (arrive i p).2.
Proof.
  intros Hps i Hid Hmax. destruct new_ok as [Hi0 Hs0].
  pose proof (arrivals_spec new ps Hi0 Hs0 Hps) as H. subst i.
  destruct (arrivals new ps) as [ds i]. destruct H as (Hi & Hs & _). simpl in *.
  assert (is_u32 (Packet.id p)) as Hu by (pose proof (ok_last _ Hi); ilia).
  pose proof (try_insert_next i p Hi Hs Hid Hmax) as Ht.
  destruct (try_insert_ok _ _ _ _ Hi Hu Ht) as (Hi1 & _ & _).
  pose proof (next_ordered_sequence_spec _ Hi1) as Hn.
  destruct (next_ordered_sequence_head _ p Hi1) as [r Hr].
  { simpl. by rewrite <- Hid, lookup_insert_eq. }
  unfold arrive. rewrite Ht. destruct (next_ordered_sequence _) as [d i'].
  simpl in Hr. subst d. destruct Hn as (_ & _ & Hl & _). simpl in *.
  split; [done|lia].
Qed.

(** Ids 2 to 12 fill eleven slots; id 1 still gets in and goes first. *)
Lemma next_expected_delivered_witness :
  let mk n := Packet.set_id n (Packet.new ControlV1 0 [n]) in
  let i := (arrivals new (map mk (seqZ 2 11))).2 in
  size (pending i) = 11%nat
  /\ head (arrive i (mk 1)).1 = Some (mk 1)
  /\ last_consumed_id i < last_consumed_id (arrive i (mk 1)).2.
Proof.
  intros mk i. split; [vm_compute; reflexivity|].
  apply (next_expected_delivered (map mk (seqZ 2 11)) (mk 1)).
  - change (seqZ 2 11) with [2; 3; 4; 5; 6; 7; 8; 9; 10; 11; 12].
    repeat constructor; simpl; ilia.
  - vm_compute. reflexivity.
  - vm_compute. discriminate.
Defined.

End Incoming.
