(* ===== verification/OvpnStream.v ===== *)
(** * Stream framing ([protocol/openvpn/stream.rs])

    Packets on a TCP link carry a 16-bit big-endian length prefix.  A reader is
    the list of bytes still to come; a writer is the list of bytes written so
    far, as [read_exact] and [write_all] make partial transfers invisible. *)

From stdpp Require Import base numbers list.
From Stdlib Require Import ZArith Lia.
From S2P Require Import Prelude.

Local Open Scope Z_scope.

Definition STREAM_PACKET_MAX_LENGTH : Z := U16_MAX.

(** The [io::ErrorKind]s that framing can produce. *)
Inductive StreamError : Type :=
| UnexpectedEof
| InvalidData
| InvalidInput.

Module Stream.

(** [AsyncReadExt::read_exact] on [n] bytes; the result is the bytes and the
    reader that is left. *)
Definition read_exact (n : nat) (reader : list Z) :
    result StreamError (list Z * list Z) :=
  if decide (length reader < n)%nat then Err UnexpectedEof
  else Ok (firstn n reader, skipn n reader).

Definition read_stream_packet (reader : list Z) :
    result StreamError (list Z * list Z) :=
  '(prefix, reader) ← read_exact 2 reader;
  let length := from_be_bytes prefix in
  if decide (length = 0) then Err InvalidData
  else read_exact (Z.to_nat length) reader.

Definition write_stream_packet (writer packet : list Z) :
    result StreamError (list Z) :=
  if decide (packet = []) then Ok writer
  else if decide (Z.of_nat (length packet) <= U16_MAX) then
    Ok (writer ++ to_be_bytes 2 (Z.of_nat (length packet)) ++ packet)
  else Err InvalidInput.

(** The loop of [write_stream_packets]: the packets before a failing one have
    been written, so the writer is returned on every path. *)
Fixpoint write_loop (writer : list Z) (written : nat) (packets : list (list Z)) :
    result StreamError nat * list Z :=
  match packets with
  | [] => (Ok written, writer)
  | packet :: packets =>
      match write_stream_packet writer packet with
      | Err e => (Err e, writer)
      | Ok writer => write_loop writer (S written) packets
      end
  end.

Definition write_stream_packets (writer : list Z) (packets : list (list Z)) :
    result StreamError nat * list Z :=
  write_loop writer 0 packets.

(** A peer that reads [n] packets in a row. *)
Fixpoint read_stream_packets (n : nat) (reader : list Z) :
    result StreamError (list (list Z) * list Z) :=
  match n with
  | O => Ok ([], reader)
  | S n =>
      '(p, reader) ← read_stream_packet reader;
      '(ps, reader) ← read_stream_packets n reader;
      Ok (p :: ps, reader)
  end.

(** ** Framing is uniquely decodable *)

Lemma read_exact_app (l tail : list Z) :
  read_exact (length l) (l ++ tail) = Ok (l, tail).
Proof.
  unfold read_exact. rewrite decide_False by (rewrite length_app; lia).
  by rewrite take_app_length, drop_app_length.
Qed.

Definition frame (packet : list Z) : list Z :=
  if decide (packet = []) then []
  else to_be_bytes 2 (Z.of_nat (length packet)) ++ packet.

Lemma write_stream_packet_Ok writer packet :
  Z.of_nat (length packet) <= STREAM_PACKET_MAX_LENGTH ->
  write_stream_packet writer packet = Ok (writer ++ frame packet).
Proof.
  intros Hl. unfold write_stream_packet, frame. case_decide; [by rewrite app_nil_r|].
  by rewrite decide_True.
Qed.

Lemma write_loop_Ok writer n packets :
  Forall (fun p => Z.of_nat (length p) <= STREAM_PACKET_MAX_LENGTH) packets ->
  write_loop writer n packets
  = (Ok (n + length packets)%nat, writer ++ flat_map frame packets).
Proof.
  intros Hp. revert writer n.
  induction Hp as [|p ps Hp _ IH]; intros writer n; simpl.
  - by rewrite app_nil_r, Nat.add_0_r.
  - rewrite write_stream_packet_Ok by done. rewrite IH, <- (assoc_L (++)).
    do 2 f_equal. lia.
Qed.

Lemma read_frame packet tail :
  packet <> [] -> Z.of_nat (length packet) <= STREAM_PACKET_MAX_LENGTH ->
  read_stream_packet (frame packet ++ tail) = Ok (packet, tail).
Proof.
  intros Hne Hl. unfold frame. rewrite decide_False, <- (assoc_L (++)) by done.
  unfold read_stream_packet.
  replace 2%nat with (length (to_be_bytes 2 (Z.of_nat (length packet)))) at 1
    by apply length_to_be_bytes.
  rewrite read_exact_app. rbind.
  rewrite from_to_be_bytes
    by (unfold STREAM_PACKET_MAX_LENGTH, U16_MAX in Hl; simpl; lia).
  rewrite decide_False by (destruct packet; simpl; [done|lia]).
  rewrite Nat2Z.id. apply read_exact_app.
Qed.

(** reading what was written returns the written packets, in order and
    with their boundaries, and leaves whatever follows them; empty packets are
    not put on the wire. *)
Theorem read_write_stream_packets (packets : list (list Z)) (tail : list Z) :
  Forall (fun p => Z.of_nat (length p) <= STREAM_PACKET_MAX_LENGTH) packets ->
  let sent := filter (fun p => p <> []) packets in
  let '(r, wire) := write_stream_packets [] packets in
  r = Ok (length packets)
  /\ read_stream_packets (length sent) (wire ++ tail) = Ok (sent, tail).
Proof.
  intros Hp sent. subst sent. unfold write_stream_packets.
  rewrite write_loop_Ok by done. split; [done|]. simpl.
  induction Hp as [|p ps Hp _ IH]; simpl; [done|].
  rewrite filter_cons, <- (assoc_L (++)). case_decide as Hne.
  - simpl. rewrite read_frame by done. rbind. by rewrite IH.
  - rewrite Hne. exact IH.
Qed.

Lemma read_write_stream_packets_witness :
  let packets := [[1; 2; 3]; []; [4]] in
  let '(r, wire) := write_stream_packets [] packets in
  wire = [0; 3; 1; 2; 3; 0; 1; 4]
  /\ r = Ok (length packets)
  /\ read_stream_packets 2 (wire ++ [9]) = Ok ([[1; 2; 3]; [4]], [9]).
Proof.
  intros packets. pose proof (read_write_stream_packets packets [9]) as H.
  assert ((write_stream_packets [] packets).2 = [0; 3; 1; 2; 3; 0; 1; 4]) as Hw
    by (vm_compute; reflexivity).
  destruct (write_stream_packets [] packets) as [r wire]. split; [exact Hw|].
  apply H. repeat constructor; vm_compute; discriminate.
Defined.

(** An over-long packet stops the batch after the packets before it. *)
Lemma write_stream_packets_too_large before packet after :
  Forall (fun p => Z.of_nat (length p) <= STREAM_PACKET_MAX_LENGTH) before ->
  STREAM_PACKET_MAX_LENGTH < Z.of_nat (length packet) ->
  write_stream_packets [] (before ++ packet :: after)
  = (Err InvalidInput, flat_map frame before).
Proof.
  intros Hb Hl. unfold write_stream_packets.
  change (flat_map frame before) with ([] ++ flat_map frame before).
  generalize ([] : list Z) as w. generalize 0%nat as n.
  induction Hb as [|p ps Hp _ IH]; intros n w; simpl.
  - unfold write_stream_packet, STREAM_PACKET_MAX_LENGTH in *.
    rewrite !decide_False; [by rewrite app_nil_r|lia|].
    intros ->. simpl in Hl. ilia.
  - rewrite write_stream_packet_Ok by done. by rewrite IH, <- (assoc_L (++)).
Qed.

End Stream.
