(* ===== verification/OvpnText.v ===== *)
(** * Strings of the Rust standard library

    A [&str] is a byte string in UTF-8.  [str::trim] removes the characters
    with the Unicode property [White_Space] at both ends; they are matched here
    by their encodings. *)

From stdpp Require Import base numbers list strings.
From Stdlib Require Import ZArith Lia.
From S2P Require Import Prelude.

Local Open Scope Z_scope.

Module Text.

Definition bytes_of (s : string) : list Z :=
  (fun c => Z.of_nat (Ascii.nat_of_ascii c)) <$> String.list_ascii_of_string s.

Definition of_bytes (l : list Z) : string :=
  String.string_of_list_ascii ((fun b => Ascii.ascii_of_nat (Z.to_nat b)) <$> l).

(** White space of one byte: tab to carriage return, and space. *)
Definition is_space1 (b : Z) : bool := bool_decide (9 <= b <= 13 \/ b = 32).

(** U+0085 and U+00A0. *)
Definition is_space2 (a b : Z) : bool :=
  bool_decide (a = 194 /\ (b = 133 \/ b = 160)).

(** U+1680, U+2000 to U+200A, U+2028, U+2029, U+202F, U+205F and U+3000. *)
Definition is_space3 (a b c : Z) : bool :=
  bool_decide
    ((a = 225 /\ b = 154 /\ c = 128)
     \/ (a = 226 /\ b = 128 /\ (128 <= c <= 138 \/ c = 168 \/ c = 169 \/ c = 175))
     \/ (a = 226 /\ b = 129 /\ c = 159)
     \/ (a = 227 /\ b = 128 /\ c = 128)).

(** Remove one white-space character from the front of [l], or, with [back],
    from the front of its reversal. *)
Definition strip_space (back : bool) (l : list Z) : option (list Z) :=
  match l with
  | [] => None
  | a :: l1 =>
      if is_space1 a then Some l1
      else
        match l1 with
        | [] => None
        | b :: l2 =>
            if (if back then is_space2 b a else is_space2 a b) then Some l2
            else
              match l2 with
              | [] => None
              | c :: l3 =>
                  if (if back then is_space3 c b a else is_space3 a b c)
                  then Some l3 else None
              end
        end
  end.

Fixpoint strip_spaces (fuel : nat) (back : bool) (l : list Z) : list Z :=
  match fuel with
  | O => l
  | S fuel =>
      match strip_space back l with
      | Some l => strip_spaces fuel back l
      | None => l
      end
  end.

Definition trim_bytes (l : list Z) : list Z :=
  let l := strip_spaces (length l) false l in
  rev (strip_spaces (length l) true (rev l)).

(** [str::trim]. *)
Definition trim (s : string) : string := of_bytes (trim_bytes (bytes_of s)).

Definition upper (b : Z) : Z := if decide (97 <= b <= 122) then b - 32 else b.

(** [str::to_ascii_uppercase]. *)
Definition to_ascii_uppercase (s : string) : string :=
  of_bytes (map upper (bytes_of s)).

(** [str::starts_with], [str::ends_with] on bytes and [str::strip_suffix]. *)
Definition starts_with (s prefix : string) : bool :=
  bool_decide (firstn (length (bytes_of prefix)) (bytes_of s) = bytes_of prefix).

Definition ends_with (s suffix : string) : bool :=
  let n := (length (bytes_of s) - length (bytes_of suffix))%nat in
  bool_decide (skipn n (bytes_of s) = bytes_of suffix).

Definition strip_suffix (s suffix : string) : option string :=
  if ends_with s suffix then
    Some (of_bytes (firstn (length (bytes_of s) - length (bytes_of suffix))
                      (bytes_of s)))
  else None.

(** ** Properties *)

Lemma of_bytes_bytes_of s : of_bytes (bytes_of s) = s.
Proof.
  unfold of_bytes, bytes_of. rewrite <- list_fmap_compose.
  rewrite <- (String.string_of_list_ascii_of_string s) at 2. f_equal.
  rewrite <- (list_fmap_id (String.list_ascii_of_string s)) at 2.
  apply list_fmap_ext. intros _ c _. simpl.
  by rewrite Nat2Z.id, Ascii.ascii_nat_embedding.
Qed.

Lemma strip_space_shorter back l l' :
  strip_space back l = Some l' -> (length l' < length l)%nat.
Proof.
  unfold strip_space. destruct l as [|a [|b [|c l]]]; simpl;
    repeat case_match; intros [= <-]; simpl; lia.
Qed.

(** The fuel is enough: no white space is left. *)
Lemma strip_spaces_done fuel back l :
  (length l <= fuel)%nat -> strip_space back (strip_spaces fuel back l) = None.
Proof.
  revert l. induction fuel as [|fuel IH]; intros l Hl; simpl.
  - by destruct l; [|simpl in Hl; lia].
  - destruct (strip_space back l) as [l'|] eqn:E; [|done].
    apply IH. apply strip_space_shorter in E. lia.
Qed.

(** A string that neither begins nor ends with white space is its own trim. *)
Lemma trim_id s :
  strip_space false (bytes_of s) = None ->
  strip_space true (rev (bytes_of s)) = None -> trim s = s.
Proof.
  intros H1 H2. unfold trim, trim_bytes.
  assert (forall n b l, strip_space b l = None -> strip_spaces n b l = l) as Hid
    by (intros [] b l E; simpl; [done|by rewrite E]).
  rewrite (Hid _ false) by done. rewrite (Hid _ true) by done.
  by rewrite rev_involutive, of_bytes_bytes_of.
Qed.

End Text.
