(* ===== verification/Text.v ===== *)
(** * Text operations of the standard library, on UTF-8 byte lists

    A Rust [String] is the list of its UTF-8 bytes.  The operations below are
    the ones of [str] that the routing, rule-set, DNS and OpenVPN code uses: trimming
    of white space and of a character, ASCII case folding, prefixes and
    suffixes, search, splitting at a byte, at white space and at lines, the
    reversal of the characters (not of the bytes), and [from_utf8_lossy]. *)

From stdpp Require Import base numbers list strings.
From Stdlib Require Import ZArith Lia.
From S2P Require Import Prelude OvpnText.

Local Open Scope Z_scope.

Definition text : Type := list Z.

Definition DOT : Z := 46.

(** [str::trim_start_matches] and [str::trim_end_matches] of one ASCII
    character. *)
Fixpoint trim_start_matches (c : Z) (s : text) : text :=
  match s with
  | [] => []
  | b :: s' => if decide (b = c) then trim_start_matches c s' else s
  end.

Definition trim_end_matches (c : Z) (s : text) : text :=
  rev (trim_start_matches c (rev s)).

Definition upper_byte (b : Z) : Z := if decide (97 <= b <= 122) then b - 32 else b.
Definition to_ascii_uppercase (s : text) : text := upper_byte <$> s.

Definition lower_byte (b : Z) : Z := if decide (65 <= b <= 90) then b + 32 else b.

Definition to_ascii_lowercase (s : text) : text := lower_byte <$> s.

Definition eq_ignore_ascii_case (a b : text) : bool :=
  bool_decide (to_ascii_lowercase a = to_ascii_lowercase b).

Definition starts_with_byte (c : Z) (s : text) : bool := bool_decide (head s = Some c).
Definition ends_with_byte (c : Z) (s : text) : bool := bool_decide (last s = Some c).

Definition strip_prefix (p s : text) : option text :=
  if decide (p `prefix_of` s) then Some (drop (length p) s) else None.

Definition strip_suffix (x s : text) : option text :=
  if decide (x `suffix_of` s) then Some (take (length s - length x) s) else None.

(** [str::contains] of a string. *)
Fixpoint contains (s needle : text) : bool :=
  bool_decide (needle `prefix_of` s)
  || match s with
     | [] => false
     | _ :: s' => contains s' needle
     end.

(** The characters of a string: a continuation byte belongs to the character
    before it. *)
Definition is_continuation (b : Z) : bool := bool_decide (128 <= b < 192).

Fixpoint chars (s : text) : list text :=
  match s with
  | [] => []
  | b :: s' =>
      match chars s' with
      | (c :: cs) :: rest =>
          if is_continuation c then (b :: c :: cs) :: rest else [b] :: (c :: cs) :: rest
      | rest => [b] :: rest
      end
  end.

(** [String::from_utf8] accepts these byte strings. *)
Fixpoint utf8_valid (s : text) : bool :=
  match s with
  | [] => true
  | a :: s =>
      if decide (a < 128) then utf8_valid s
      else
        match s with
        | [] => false
        | b :: s =>
            is_continuation b &&
            if decide (194 <= a <= 223) then utf8_valid s
            else
              match s with
              | [] => false
              | c :: s =>
                  is_continuation c &&
                  if decide (224 <= a <= 239) then
                    bool_decide ((a = 224 -> 160 <= b) /\ (a = 237 -> b < 160)) && utf8_valid s
                  else
                    match s with
                    | [] => false
                    | d :: s =>
                        is_continuation d
                        && bool_decide (240 <= a <= 244 /\ (a = 240 -> 144 <= b) /\ (a = 244 -> b < 144))
                        && utf8_valid s
                    end
              end
        end
  end.

(** [chars().rev().collect::<String>()]. *)
Definition chars_rev (s : text) : text := concat (rev (chars s)).

Definition ascii (s : text) : Prop := Forall (fun b => 0 <= b < 128) s.

(** ** Facts *)

Lemma chars_ascii s : ascii s -> chars s = (fun b => [b]) <$> s.
Proof.
  induction 1 as [|b s Hb Hs IH]; [done|]. cbn [chars]. rewrite IH.
  destruct s as [|c s]; [done|]. cbn. unfold is_continuation.
  rewrite bool_decide_eq_false_2; [done|]. apply Forall_cons in Hs as [? _]. lia.
Qed.

Lemma utf8_valid_ascii s : ascii s -> utf8_valid s = true.
Proof. induction 1 as [|b s Hb Hs IH]; [done|]. cbn. by rewrite decide_True by lia. Qed.

Lemma chars_rev_ascii s : ascii s -> chars_rev s = rev s.
Proof.
  intros Hs. unfold chars_rev. rewrite (chars_ascii _ Hs). clear Hs.
  induction s as [|b s IH]; [done|]. cbn. rewrite concat_app. cbn.
  by rewrite <-IH.
Qed.

Lemma ascii_app s t : ascii (s ++ t) <-> ascii s /\ ascii t.
Proof. apply Forall_app. Qed.

Lemma trim_start_matches_id c s : head s <> Some c -> trim_start_matches c s = s.
Proof. destruct s as [|b s]; [done|]. cbn. by case_decide; simplify_eq. Qed.

Lemma trim_end_matches_id c s : last s <> Some c -> trim_end_matches c s = s.
Proof.
  intros Hs. unfold trim_end_matches. rewrite trim_start_matches_id; [apply rev_involutive|].
  rewrite rev_alt. fold (reverse s). by rewrite head_reverse.
Qed.

Lemma lower_byte_id b : ~ 65 <= b <= 90 -> lower_byte b = b.
Proof. intros H. unfold lower_byte. by rewrite decide_False. Qed.

(** A string without capital letters. *)
Definition lowercase (s : text) : Prop := Forall (fun b => ~ 65 <= b <= 90) s.

Lemma to_ascii_lowercase_id s : lowercase s -> to_ascii_lowercase s = s.
Proof. induction 1; [done|]. cbn. rewrite lower_byte_id by done. by f_equal. Qed.

Lemma to_ascii_lowercase_lower s : lowercase (to_ascii_lowercase s).
Proof.
  apply Forall_fmap, Forall_true. intros b. cbn. unfold lower_byte. case_decide; lia.
Qed.

Lemma strip_prefix_spec p s r : strip_prefix p s = Some r <-> s = p ++ r.
Proof.
  unfold strip_prefix. split.
  - case_decide as H; [|done]. intros [= <-]. destruct H as [t ->].
    by rewrite drop_app_length.
  - intros ->. rewrite decide_True by by eexists. by rewrite drop_app_length.
Qed.

Lemma strip_suffix_spec x s r : strip_suffix x s = Some r <-> s = r ++ x.
Proof.
  unfold strip_suffix. split.
  - case_decide as H; [|done]. intros [= <-]. destruct H as [t ->].
    rewrite length_app, Nat.add_sub, take_app_length. done.
  - intros ->. rewrite decide_True by by eexists.
    by rewrite length_app, Nat.add_sub, take_app_length.
Qed.

Lemma contains_spec s needle :
  contains s needle = true <-> exists a b, s = a ++ needle ++ b.
Proof.
  induction s as [|c s IH]; cbn; rewrite orb_true_iff, bool_decide_eq_true.
  - split.
    + intros [[b E]|?]; [|done]. by exists [], b.
    + intros ([|? a] & b & E); [|done]. left. by exists b.
  - rewrite IH. split.
    + intros [[b E]|(a & b & ->)]; [by exists [], b|by exists (c :: a), b].
    + intros ([|c' a] & b & E); [left; by exists b|]. right. simplify_eq/=. by exists a, b.
Qed.

(** The bytes of a literal. *)
Definition txt (s : string) : text := Text.bytes_of s.

(** [str::trim]. *)
Definition trim (s : text) : text := Text.trim_bytes s.

(** [str::split] at a byte. *)
Fixpoint split_on (c : Z) (s : text) : list text :=
  match s with
  | [] => [[]]
  | b :: s =>
      if decide (b = c) then [] :: split_on c s
      else match split_on c s with
           | g :: gs => (b :: g) :: gs
           | [] => [[b]]
           end
  end.

(** [str::split_once] at the first byte [c]. *)
Fixpoint split_once (c : Z) (s : text) : option (text * text) :=
  match s with
  | [] => None
  | b :: s =>
      if decide (b = c) then Some ([], s)
      else '(x, y) ← split_once c s; Some (b :: x, y)
  end.

(** [str::split_whitespace]: [word] is what was read of the current word. *)
Fixpoint words_from (fuel : nat) (word s : text) : list text :=
  let emit := match word with [] => [] | _ => [word] end in
  match fuel with
  | O => emit
  | S fuel =>
      match Text.strip_space false s with
      | Some s => emit ++ words_from fuel [] s
      | None =>
          match s with
          | [] => emit
          | b :: s => words_from fuel (word ++ [b]) s
          end
      end
  end.

Definition split_whitespace (s : text) : list text := words_from (S (length s)) [] s.

Definition NEWLINE : Z := 10.
Definition RETURN : Z := 13.

(** [str::lines]: a line ends with a newline, or a carriage return and a
    newline; a last line that is not ended is a line unless it is empty. *)
Fixpoint lines_of (pieces : list text) : list text :=
  match pieces with
  | [] => []
  | [last_piece] => match last_piece with [] => [] | _ => [last_piece] end
  | piece :: pieces => default piece (strip_suffix [RETURN] piece) :: lines_of pieces
  end.

Definition lines (s : text) : list text := lines_of (split_on NEWLINE s).

(** The character at the head of a byte string: whether it is well formed, and
    the number of bytes it has, or the number of bytes that one replacement
    character stands for. *)
Definition head_char (s : text) : bool * nat :=
  match s with
  | [] => (true, 0%nat)
  | a :: s =>
      if decide (a < 128) then (true, 1%nat)
      else
        match s with
        | [] => (false, 1%nat)
        | b :: s =>
            if decide (194 <= a <= 223) then
              if is_continuation b then (true, 2%nat) else (false, 1%nat)
            else if decide (224 <= a <= 239) then
              if is_continuation b && bool_decide ((a = 224 -> 160 <= b) /\ (a = 237 -> b < 160)) then
                match s with
                | c :: _ => if is_continuation c then (true, 3%nat) else (false, 2%nat)
                | [] => (false, 2%nat)
                end
              else (false, 1%nat)
            else if decide (240 <= a <= 244) then
              if is_continuation b && bool_decide ((a = 240 -> 144 <= b) /\ (a = 244 -> b < 144)) then
                match s with
                | c :: d :: _ =>
                    if is_continuation c then if is_continuation d then (true, 4%nat) else (false, 3%nat)
                    else (false, 2%nat)
                | [c] => if is_continuation c then (false, 3%nat) else (false, 2%nat)
                | [] => (false, 2%nat)
                end
              else (false, 1%nat)
            else (false, 1%nat)
        end
  end.

(** U+FFFD. *)
Definition REPLACEMENT : text := [239; 191; 189].

Fixpoint lossy (fuel : nat) (s : text) : text :=
  match fuel, s with
  | S fuel, _ :: _ =>
      let '(valid, n) := head_char s in
      (if valid then take n s else REPLACEMENT) ++ lossy fuel (drop n s)
  | _, _ => []
  end.

(** [String::from_utf8_lossy]. *)
Definition from_utf8_lossy (s : text) : text := lossy (length s) s.

(** ** Facts *)

Lemma split_on_cons c s : exists g gs, split_on c s = g :: gs.
Proof.
  destruct s as [|b s]; cbn; [by eexists _, _|]. case_decide; [by eexists _, _|].
  destruct (split_on c s); by eexists _, _.
Qed.

Lemma split_on_app c s t : split_on c (s ++ c :: t) = split_on c s ++ split_on c t.
Proof.
  induction s as [|b s IH]; cbn; [by rewrite decide_True|].
  case_decide; rewrite IH; [done|].
  destruct (split_on_cons c s) as (g & gs & ->). done.
Qed.

Lemma split_on_none c s : c ∉ s -> split_on c s = [s].
Proof.
  induction s as [|b s IH]; [done|]. intros [Hb Hs]%not_elem_of_cons. cbn.
  rewrite decide_False by done. by rewrite IH.
Qed.

Lemma split_once_app c s t : c ∉ s -> split_once c (s ++ c :: t) = Some (s, t).
Proof.
  induction s as [|b s IH]; cbn; [by rewrite decide_True|].
  intros [Hb Hs]%not_elem_of_cons. rewrite decide_False by done. by rewrite IH.
Qed.

Lemma split_on_pieces c s : Forall (fun g => c ∉ g) (split_on c s).
Proof.
  induction s as [|b s IH]; cbn; [by repeat constructor; apply not_elem_of_nil|].
  case_decide; [constructor; [apply not_elem_of_nil|done]|].
  destruct (split_on_cons c s) as (g & gs & E). rewrite E in *.
  apply Forall_cons in IH as [Hg Hgs]. constructor; [|done].
  apply not_elem_of_cons. split; [congruence|done].
Qed.

Lemma strip_space_ascii back b s :
  0 <= b < 128 -> Text.is_space1 b = false -> Text.strip_space back (b :: s) = None.
Proof.
  intros Hb Hs. cbn. rewrite Hs. unfold Text.is_space2, Text.is_space3.
  destruct s as [|c [|d s]]; [done|..]; destruct back; repeat case_bool_decide; try done; lia.
Qed.

Lemma trim_between b s c t :
  s = b :: t -> last s = Some c -> 0 <= b < 128 -> 0 <= c < 128 ->
  Text.is_space1 b = false -> Text.is_space1 c = false -> trim s = s.
Proof.
  intros -> Hl Hb Hc Hsb Hsc. unfold trim, Text.trim_bytes.
  assert (forall n back l, Text.strip_space back l = None -> Text.strip_spaces n back l = l) as Hid
    by (intros [] back l E; simpl; [done|by rewrite E]).
  rewrite (Hid _ false) by by apply strip_space_ascii.
  rewrite (Hid _ true); [apply rev_involutive|].
  apply last_Some in Hl as [l' ->]. rewrite rev_app_distr. by apply strip_space_ascii.
Qed.

(** A character is decided by its bytes. *)
Lemma utf8_valid_step s :
  s <> [] -> utf8_valid s = (head_char s).1 && utf8_valid (drop (head_char s).2 s).
Proof.
  destruct s as [|a s]; [done|]. intros _. cbn [utf8_valid head_char].
  case_decide; [done|].
  destruct s as [|b s]; [done|].
  case_decide; [by destruct (is_continuation b)|].
  case_decide.
  - destruct s as [|c s]; [by destruct (is_continuation b), (bool_decide _)|].
    by destruct (is_continuation b), (bool_decide _), (is_continuation c).
  - destruct (is_continuation b); [|by destruct s as [|c [|d s]]; try case_decide].
    destruct (decide (240 <= a <= 244)) as [Ha|Ha].
    + destruct s as [|c [|d s]]; [by destruct (bool_decide _)|by destruct (bool_decide _), (is_continuation c)|].
      replace (bool_decide (240 <= a <= 244 /\ _ /\ _)) with (bool_decide ((a = 240 -> 144 <= b) /\ (a = 244 -> b < 144)))
        by (apply bool_decide_ext; tauto).
      by destruct (bool_decide _), (is_continuation c), (is_continuation d).
    + destruct s as [|c [|d s]]; [done|by destruct (is_continuation c)|].
      rewrite (bool_decide_eq_false_2 (240 <= a <= 244 /\ _)) by tauto.
      by destruct (is_continuation c), (is_continuation d).
Qed.

Lemma head_char_valid s t :
  s <> [] -> (head_char s).1 = true ->
  head_char (s ++ t) = head_char s /\ (0 < (head_char s).2 <= length s)%nat.
Proof.
  destruct s as [|a s]; [done|]. intros _. cbn [app head_char].
  case_decide; [split; [done|cbn; lia]|]. destruct s as [|b s]; [done|]. cbn [app].
  case_decide; [destruct (is_continuation b); [|done]; split; [done|cbn; lia]|].
  case_decide.
  - destruct (_ && _); [|done]. destruct s as [|c s]; [done|]. cbn [app].
    destruct (is_continuation c); [|done]. split; [done|cbn; lia].
  - case_decide; [|done]. destruct (_ && _); [|done].
    destruct s as [|c [|d s]]; [done|by cbn; destruct (is_continuation c)|]. cbn [app].
    destruct (is_continuation c), (is_continuation d); try done. split; [done|cbn; lia].
Qed.

(** Texts are taken character by character. *)
Lemma utf8_ind (P : text -> Prop) :
  P [] ->
  (forall s, s <> [] -> (head_char s).1 = true -> utf8_valid (drop (head_char s).2 s) = true ->
     P (drop (head_char s).2 s) -> P s) ->
  forall s, utf8_valid s = true -> P s.
Proof.
  intros H0 Hs s. remember (length s) as n eqn:En. revert s En.
  induction (lt_wf n) as [n _ IH]. intros s -> Hv.
  destruct (decide (s = [])) as [->|Hne]; [done|].
  rewrite utf8_valid_step in Hv by done. apply andb_true_iff in Hv as [Hc Hv].
  destruct (head_char_valid s [] Hne Hc) as [_ Hn].
  apply Hs; [done..|]. eapply IH; [|done|done]. rewrite length_drop. lia.
Qed.

Lemma utf8_valid_app s t : utf8_valid s = true -> utf8_valid (s ++ t) = utf8_valid t.
Proof.
  revert s. apply (utf8_ind (fun s => utf8_valid (s ++ t) = utf8_valid t)); [done|].
  intros s Hne Hc _ IH. destruct (head_char_valid s t Hne Hc) as [E Hn].
  rewrite utf8_valid_step by (intros [? ?]%app_nil; done).
  by rewrite E, Hc, drop_app_le by lia.
Qed.

(** Nothing is replaced in a valid text. *)
Lemma from_utf8_lossy_valid s : utf8_valid s = true -> from_utf8_lossy s = s.
Proof.
  unfold from_utf8_lossy. enough (forall s, utf8_valid s = true ->
    forall n, (length s <= n)%nat -> lossy n s = s) as H by (intros; by apply H).
  clear s. apply (utf8_ind (fun s => forall n, (length s <= n)%nat -> lossy n s = s)).
  - by intros [].
  - intros s Hne Hc _ IH n Hn. destruct (head_char_valid s [] Hne Hc) as [_ Hl].
    destruct s as [|a s]; [done|]. destruct n as [|n]; [cbn in Hn; lia|].
    cbn [lossy]. destruct (head_char (a :: s)) as [v k]. cbn [fst snd] in *. subst v.
    rewrite IH by (rewrite length_drop; cbn [length] in *; lia). apply take_drop.
Qed.
