(* ===== verification/OvpnQueue.v ===== *)
(** * The data packet queue ([protocol/openvpn/queue.rs])

    The bounded queue between the link and the tunnel, with its wake-up
    permit.  Tokio's [Notify] is a single stored permit: [notify_one] sets it
    and [notified] completes by consuming it. *)

From stdpp Require Import base numbers list relations.
From Stdlib Require Import ZArith Lia.
From S2P Require Import Prelude.

Definition DATA_PACKET_BATCH_SIZE : nat := 64.
Definition DATA_PACKET_QUEUE_CAPACITY : nat := 512.

Inductive QueueOverflowPolicy : Type :=
| DropOldest
| DropNewest.

Module Queue.

Section Queue.
Context {T : Type}.

Record DataPacketQueue : Type := mkQueue {
  capacity : nat;
  items : list T;
  wake : bool;
}.

(** [new] asserts a positive capacity; [None] is the panic. *)
Definition new (capacity : nat) : option DataPacketQueue :=
  if decide (0 < capacity)%nat then Some (mkQueue capacity [] false) else None.

(** The loop of [push_batch]; the result is the queue and the dropped items.
    A full queue of positive capacity is not empty, so the [unwrap] of
    [pop_front] does not panic. *)
Fixpoint push_loop (cap : nat) (policy : QueueOverflowPolicy)
    (queue : list T) (items : list T) : list T * list T :=
  match items with
  | [] => (queue, [])
  | item :: items =>
      if decide (length queue = cap) then
        match policy with
        | DropOldest =>
            match queue with
            | [] => (queue, [])
            | oldest :: queue =>
                let '(queue, dropped) :=
                  push_loop cap policy (queue ++ [item]) items in
                (queue, oldest :: dropped)
            end
        | DropNewest =>
            let '(queue, dropped) := push_loop cap policy queue items in
            (queue, item :: dropped)
        end
      else push_loop cap policy (queue ++ [item]) items
  end.

Definition push_batch (q : DataPacketQueue) (new_items : list T)
    (policy : QueueOverflowPolicy) : list T * DataPacketQueue :=
  let was_empty := bool_decide (length (items q) = 0)%nat in
  let '(queue, dropped) := push_loop (capacity q) policy (items q) new_items in
  let became_non_empty :=
    was_empty && negb (bool_decide (length queue = 0)%nat) in
  (dropped, mkQueue (capacity q) queue (became_non_empty || wake q)).

(** [Iterator::position]. *)
Fixpoint position (p : T -> bool) (l : list T) : option nat :=
  match l with
  | [] => None
  | x :: l => if p x then Some 0%nat else S <$> position p l
  end.

Definition pop (q : DataPacketQueue) (maximum : nat)
    (same_run : option (T -> T -> bool)) : list T * DataPacketQueue :=
  let count :=
    if decide (maximum = 0)%nat then length (items q)
    else Nat.min (length (items q)) maximum in
  let count :=
    match same_run, items q with
    | Some predicate, first :: _ =>
        if decide (1 < count)%nat then
          default count
            (position (fun item => negb (predicate first item))
               (take count (items q)))
        else count
    | _, _ => count
    end in
  let rest := drop count (items q) in
  let has_more := negb (bool_decide (length rest = 0)%nat) in
  (take count (items q), mkQueue (capacity q) rest (has_more || wake q)).

Definition drain (q : DataPacketQueue) : list T * DataPacketQueue :=
  (items q, mkQueue (capacity q) [] (wake q)).

(** ** The queue is a bounded FIFO *)

Record ok (q : DataPacketQueue) : Prop := mkOk {
  ok_capacity : (0 < capacity q)%nat;
  ok_length : (length (items q) <= capacity q)%nat;
}.

Lemma push_loop_oldest cap queue items :
  (0 < cap)%nat -> (length queue <= cap)%nat ->
  let excess := (length queue + length items - cap)%nat in
  push_loop cap DropOldest queue items
  = (drop excess (queue ++ items), take excess (queue ++ items)).
Proof.
  revert queue. induction items as [|x items IH]; intros queue Hc Hq excess; simpl.
  - subst excess. simpl.
    replace (length queue + 0 - cap)%nat with 0%nat by lia.
    by rewrite app_nil_r.
  - subst excess. simpl. case_decide as Hf.
    + destruct queue as [|o queue]; simpl in *; [lia|].
      rewrite IH by (rewrite ?length_app; simpl; lia).
      rewrite length_app, <- (assoc_L (++)). simpl.
      replace (length queue + 1 + length items - cap)%nat with (length items) by lia.
      replace (length queue + S (length items) - cap)%nat
        with (length items - 0 + 0)%nat by lia.
      replace (S (length queue + S (length items)) - cap)%nat
        with (S (length items)) by lia. done.
    + rewrite IH by (rewrite ?length_app; simpl; lia).
      rewrite length_app, <- (assoc_L (++)). simpl.
      by replace (length queue + 1 + length items)%nat
        with (length queue + S (length items))%nat by lia.
Qed.

Lemma push_loop_newest cap queue items :
  (length queue <= cap)%nat ->
  push_loop cap DropNewest queue items
  = (take cap (queue ++ items), drop cap (queue ++ items)).
Proof.
  revert queue. induction items as [|x items IH]; intros queue Hq; simpl.
  - rewrite app_nil_r, take_ge, drop_ge by done. done.
  - case_decide as Hf.
    + rewrite IH, <- Hf by done.
      by rewrite !take_app_length, !drop_app_length.
    + rewrite IH by (rewrite length_app; simpl; lia). by rewrite <- (assoc_L (++)).
Qed.

Lemma push_batch_cases q new_items policy :
  ok q ->
  let all := items q ++ new_items in
  let excess := (length all - capacity q)%nat in
  let '(dropped, q') := push_batch q new_items policy in
  capacity q' = capacity q
  /\ match policy with
     | DropOldest => items q' = drop excess all /\ dropped = take excess all
     | DropNewest => items q' = take (capacity q) all
                     /\ dropped = drop (capacity q) all
     end
  /\ (length (items q') = length all `min` capacity q)%nat.
Proof.
  intros [Hc Hl] all excess. unfold push_batch. subst excess all.
  rewrite length_app. destruct policy.
  - rewrite push_loop_oldest by done. simpl. split_and!; [done..|].
    rewrite length_drop, length_app. lia.
  - rewrite push_loop_newest by done. simpl. split_and!; [done..|].
    rewrite length_take, length_app. lia.
Qed.

(** A batch push keeps the queue within its capacity and is exact about
    what it loses: [DropOldest] keeps the newest items and returns the excess
    from the front, [DropNewest] keeps the oldest and returns the excess from
    the back; nothing is lost silently, duplicated or reordered. *)
Theorem push_batch_bounded_fifo (q : DataPacketQueue) (new_items : list T)
    (policy : QueueOverflowPolicy) :
  ok q ->
  let all := items q ++ new_items in
  let excess := (length all - capacity q)%nat in
  let '(dropped, q') := push_batch q new_items policy in
  ok q'
  /\ match policy with
     | DropOldest => items q' = drop excess all /\ dropped = take excess all
     | DropNewest => items q' = take (capacity q) all
                     /\ dropped = drop (capacity q) all
     end.
Proof.
  intros Hq all excess. pose proof (push_batch_cases q new_items policy Hq) as H.
  destruct (push_batch q new_items policy) as [dropped q'].
  destruct H as (Hc & H & Hl). split; [|done].
  destruct Hq as [Hq _]. constructor; rewrite Hc; [done|lia].
Qed.

Lemma position_spec (p : T -> bool) l :
  match position p l with
  | Some n => (n < length l)%nat /\ Forall (fun x => p x = false) (take n l)
              /\ exists x, l !! n = Some x /\ p x = true
  | None => Forall (fun x => p x = false) l
  end.
Proof.
  induction l as [|x l IH]; simpl; [constructor|].
  destruct (p x) eqn:Hp; simpl.
  - split_and!; [lia|constructor|]. by exists x.
  - destruct (position p l) as [n|]; simpl; [|by constructor].
    destruct IH as (Hn & Hf & Hx). split_and!; [lia|by constructor|done].
Qed.

(** a pop takes a prefix of the queue, of at most [maximum] items (zero
    meaning no limit), all in the run of the first item, and never stalls: a
    non-empty queue yields at least one item when the run predicate is
    reflexive on it, and what is left raises the wake-up permit. *)
Theorem pop_prefix_run (q : DataPacketQueue) (maximum : nat)
    (same_run : option (T -> T -> bool)) :
  (forall pr x, same_run = Some pr -> pr x x = true) ->
  let '(out, q') := pop q maximum same_run in
  items q = out ++ items q'
  /\ (maximum <> 0 -> length out <= maximum)%nat
  /\ (items q <> [] -> out <> [])
  /\ (items q' <> [] -> wake q' = true)
  /\ (forall pr first, same_run = Some pr -> head out = Some first ->
        Forall (fun x => pr first x = true) out).
Proof.
  intros Hrefl. unfold pop. set (limit := if decide _ then _ else _).
  assert (limit <= length (items q) /\ (maximum <> 0 -> limit <= maximum)
          /\ (items q <> [] -> 0 < limit))%nat as (Hl1 & Hl2 & Hl3).
  { subst limit. case_decide; split_and!; try lia; destruct (items q); cbn [length]; done || lia. }
  clearbody limit. set (count := match same_run with Some _ => _ | None => _ end).
  assert (count <= limit /\ (items q <> [] -> 0 < count)
          /\ (forall pr first, same_run = Some pr -> head (items q) = Some first ->
              Forall (fun x => pr first x = true) (take count (items q))))%nat
    as (Hc1 & Hc2 & Hc3).
  { subst count. destruct same_run as [pr|]; [|done].
    destruct (items q) as [|first rest] eqn:Hq; [done|].
    specialize (Hrefl pr first eq_refl). case_decide as Hgt.
    - pose proof (position_spec (fun x => negb (pr first x))
                    (take limit (first :: rest))) as Hp.
      destruct (position _ _) as [n|]; simpl.
      + destruct Hp as (Hn & Hf & x & Hx & Hneg). rewrite length_take in Hn.
        split_and!; [lia| |].
        * intros _. destruct n; [|lia]. destruct limit; [lia|]. simpl in Hx.
          injection Hx as <-. by rewrite Hrefl in Hneg.
        * intros ? ? [= <-] [= <-]. rewrite take_take, Nat.min_l in Hf by lia.
          eapply Forall_impl; [exact Hf|]. by intros y ?%negb_false_iff.
      + split_and!; [done|intros _; lia|]. intros ? ? [= <-] [= <-].
        eapply Forall_impl; [exact Hp|]. by intros y ?%negb_false_iff.
    - split_and!; [done|done|]. intros ? ? [= <-] [= <-].
      destruct limit as [|[|]]; [constructor| |lia]. by repeat constructor. }
  clearbody count. split_and!; simpl.
  - by rewrite take_drop.
  - rewrite length_take. lia.
  - intros Hne H. apply Hc2 in Hne as Hpos.
    apply (f_equal length) in H. rewrite length_take in H. simpl in H. lia.
  - intros Hr. rewrite bool_decide_false; [done|]. by rewrite length_zero_iff_nil.
  - intros pr first Hpr Hh. apply Hc3; [done|].
    destruct (items q), count; simpl in *; done.
Qed.

(** ** Wake-ups

    [awake] counts the consumers that a permit has woken and that have not yet
    popped. *)

Record state : Type := mkState {
  queue : DataPacketQueue;
  awake : nat;
}.

Inductive step : state -> state -> Prop :=
| step_push s new_items policy :
    step s (mkState (push_batch (queue s) new_items policy).2 (awake s))
| step_notified s :
    wake (queue s) = true ->
    step s (mkState (mkQueue (capacity (queue s)) (items (queue s)) false)
              (S (awake s)))
| step_pop s maximum same_run :
    step s (mkState (pop (queue s) maximum same_run).2 (pred (awake s)))
| step_drain s : step s (mkState (drain (queue s)).2 (awake s)).

Definition live (s : state) : Prop :=
  items (queue s) <> [] -> wake (queue s) = true \/ (0 < awake s)%nat.

(** No wake-up is lost: in every reachable state a non-empty queue has
    either a stored permit or a consumer that is already awake and about to
    pop. *)
Theorem no_lost_wakeup (cap : nat) (q : DataPacketQueue) (s : state) :
  new cap = Some q -> rtc step (mkState q 0) s -> live s.
Proof.
  intros Hq. apply rtc_invariant; [|unfold new in Hq; case_decide; [|done]; injection Hq as <-; by intros []]. intros a b Ha Hab.
  destruct Hab as [s' ni pol|s' Hw|s' mx sr|s']; unfold live in *; simpl.
  - unfold push_batch. destruct (push_loop _ _ _ _) as [l d]. simpl. intros Hl.
    destruct (decide (items (queue s') = [])) as [He|Hne].
    + left. rewrite He. simpl. by destruct l.
    + destruct (Ha Hne) as [->|?]; [left; apply orb_true_r|by right].
  - right. lia.
  - unfold pop. simpl. intros Hl. left. rewrite bool_decide_false; [done|].
    by rewrite length_zero_iff_nil.
  - done.
Qed.

End Queue.

(** The behaviour of the client and server queues of capacity three. *)
Lemma push_batch_bounded_fifo_witness :
  let q := mkQueue 3 [1; 2; 3]%nat true in
  push_batch q [4; 5]%nat DropOldest = ([1; 2]%nat, mkQueue 3 [3; 4; 5]%nat true)
  /\ let '(dropped, q') := push_batch q [4; 5]%nat DropOldest in
     ok q' /\ items q' = drop 2 [1; 2; 3; 4; 5]%nat
     /\ dropped = take 2 [1; 2; 3; 4; 5]%nat.
Proof.
  intros q. split; [vm_compute; reflexivity|].
  apply (push_batch_bounded_fifo q [4; 5]%nat DropOldest).
  constructor; vm_compute; lia.
Defined.

(** A batch ends at the boundary of the vectorized run. *)
Lemma pop_prefix_run_witness :
  let q := mkQueue 8 [10; 12; 14; 3; 5]%nat false in
  let same := fun a b => Bool.eqb (Nat.even a) (Nat.even b) in
  let '(out, q') := pop q 8 (Some same) in
  out = [10; 12; 14]%nat
  /\ items q = out ++ items q'
  /\ (8 <> 0 -> length out <= 8)%nat
  /\ (items q <> [] -> out <> [])
  /\ (items q' <> [] -> wake q' = true)
  /\ (forall pr first, Some same = Some pr -> head out = Some first ->
        Forall (fun x => pr first x = true) out).
Proof.
  intros q same. pose proof (pop_prefix_run q 8 (Some same)) as H.
  assert ((pop q 8 (Some same)).1 = [10; 12; 14]%nat) as Ho
    by (vm_compute; reflexivity).
  destruct (pop q 8 (Some same)) as [out q']. split; [exact Ho|]. apply H.
  intros pr x [= <-]. apply eqb_reflx.
Defined.

(** A push, a wake-up and a pop that leaves one item behind. *)
Lemma no_lost_wakeup_witness :
  let q := (push_batch (mkQueue 2 [] false) [1; 2]%nat DropOldest).2 in
  let q' := (pop (mkQueue 2 (items q) false) 1 None).2 in
  wake q = true /\ items q' = [2]%nat /\ live (mkState q' 0).
Proof.
  intros q q'. split_and!; [vm_compute; reflexivity..|].
  apply (no_lost_wakeup 2 (mkQueue 2 [] false)); [reflexivity|].
  eapply rtc_l; [apply (step_push _ [1; 2]%nat DropOldest)|].
  eapply rtc_l; [apply step_notified; vm_compute; reflexivity|].
  apply rtc_once. apply (step_pop (mkState (mkQueue 2 (items q) false) 1) 1 None).
Defined.

End Queue.
