(* ===== verification/OvpnFragment.v ===== *)
(** * Fragmentation ([protocol/openvpn/fragment.rs])

    OpenVPN's [--fragment] framing and its bounded, out-of-order reassembly.
    Iteration over a [HashMap] is in an unspecified order, which is the
    section's parameter [iter]. *)

From stdpp Require Import base numbers list list_numbers gmap.
From Stdlib Require Import ZArith Lia.
From S2P Require Import Prelude.

Local Open Scope Z_scope.

Definition TYPE_WHOLE : Z := 0.
Definition TYPE_PARTIAL : Z := 1.
Definition TYPE_LAST : Z := 2.
Definition TYPE_MASK : Z := 3.
Definition SEQUENCE_MASK : Z := 255.
Definition SEQUENCE_SHIFT : Z := 2.
Definition ID_MASK : Z := 31.
Definition ID_SHIFT : Z := 10.
Definition SIZE_MASK : Z := 16383.
Definition SIZE_SHIFT : Z := 15.
Definition SIZE_ROUND_SHIFT : Z := 2.
Definition FRAGMENT_MAX_PARTS : Z := 32.
Definition FRAGMENT_RECEIVE_WINDOW : Z := 25.
Definition FRAGMENT_REASSEMBLY_TIMEOUT : Z := from_secs 30.
Definition FRAGMENT_REASSEMBLY_MAX_BYTES : Z := Z.shiftl 4 20.
Definition FRAGMENT_REASSEMBLY_MAX_PACKET_BYTES : Z := U16_MAX.

Inductive FragmentError : Type :=
| PacketSizeTooSmall
| TooManyFragments
| HeaderNotFound
| SpuriousFlags
| UnknownType (kind : Z)
| PacketTooLarge
| MemoryLimit.

Module Fragment.

(** The length of a byte string as a [usize]. *)
Definition len (l : list Z) : Z := Z.of_nat (length l).

Record IncomingBuffer : Type := mkBuffer {
  max_size : Z;
  last_id : option Z;
  parts : gmap Z (list Z);
  bytes : Z;
  updated : Z;
}.

Record FragmentInner : Type := mkInner {
  outgoing_sequence : Z;
  incoming_sequence : option Z;
  incoming : gmap Z IncomingBuffer;
  incoming_bytes : Z;
}.

Record FragmentCodec : Type := mkCodec {
  inner : FragmentInner;
  reassembly_timeout : Z;
  reassembly_max_bytes : Z;
  reassembly_max_packet_bytes : Z;
}.

Definition default_inner : FragmentInner := mkInner 0 None ∅ 0.

Definition new : FragmentCodec :=
  mkCodec default_inner FRAGMENT_REASSEMBLY_TIMEOUT
    FRAGMENT_REASSEMBLY_MAX_BYTES FRAGMENT_REASSEMBLY_MAX_PACKET_BYTES.

Definition with_limits (timeout total_bytes packet_bytes : Z) : FragmentCodec :=
  mkCodec default_inner timeout total_bytes packet_bytes.

Definition set_inner (c : FragmentCodec) (i : FragmentInner) : FragmentCodec :=
  mkCodec i (reassembly_timeout c) (reassembly_max_bytes c)
    (reassembly_max_packet_bytes c).

Definition set_incoming (i : FragmentInner) (m : gmap Z IncomingBuffer) (n : Z) :
    FragmentInner :=
  mkInner (outgoing_sequence i) (incoming_sequence i) m n.

Definition set_incoming_sequence (i : FragmentInner) (s : Z) : FragmentInner :=
  mkInner (outgoing_sequence i) (Some s) (incoming i) (incoming_bytes i).

(** ** Sending *)

Definition frame (payload : list Z) (kind sequence id maximum_size : Z) :
    list Z :=
  let flags := Z.land kind TYPE_MASK in
  let flags :=
    Z.lor flags (Z.shiftl (Z.land sequence SEQUENCE_MASK) SEQUENCE_SHIFT) in
  let flags := Z.lor flags (Z.shiftl (Z.land id ID_MASK) ID_SHIFT) in
  let flags :=
    if decide (kind = TYPE_LAST)
    then Z.lor flags
           (Z.shiftl (Z.land (wrap32 maximum_size) SIZE_MASK) SIZE_SHIFT)
    else flags in
  to_be_bytes 4 flags ++ payload.

(** [slice::chunks]: the [i]-th chunk, and all of them. *)
Definition chunk (size : Z) (payload : list Z) (i : nat) : list Z :=
  firstn (Z.to_nat size) (skipn (i * Z.to_nat size) payload).

Definition chunks (size : Z) (payload : list Z) : list (list Z) :=
  chunk size payload <$> seq 0 (Z.to_nat (div_ceil (len payload) size)).

(** The loop of [encode], with its early return. *)
Fixpoint encode_loop (fragment_size payload_len sequence id : Z)
    (cs : list (list Z)) : result FragmentError (list (list Z)) :=
  match cs with
  | [] => Ok []
  | c :: cs =>
      if decide (FRAGMENT_MAX_PARTS <= id) then Err TooManyFragments
      else
        let last := bool_decide (payload_len <= (id + 1) * fragment_size) in
        let f :=
          frame c (if last then TYPE_LAST else TYPE_PARTIAL) sequence
            (wrap8 id)
            (if last then Z.shiftr fragment_size SIZE_ROUND_SHIFT else 0) in
        fs ← encode_loop fragment_size payload_len sequence (id + 1) cs;
        Ok (f :: fs)
  end.

Definition encode (i : FragmentInner) (payload : list Z) (fragment_size : Z) :
    result FragmentError (list (list Z)) * FragmentInner :=
  let fragment_size :=
    Z.land fragment_size (Z.lnot (Z.shiftl 1 SIZE_ROUND_SHIFT - 1)) in
  if decide (fragment_size = 0) then (Err PacketSizeTooSmall, i)
  else if decide (len payload <= fragment_size) then
    (Ok [frame payload TYPE_WHOLE 0 0 0], i)
  else
    let sequence := outgoing_sequence i in
    let i :=
      mkInner (wrap8 (outgoing_sequence i + 1)) (incoming_sequence i)
        (incoming i) (incoming_bytes i) in
    (encode_loop fragment_size (len payload) sequence 0
       (chunks fragment_size payload), i).

(** ** Receiving *)

Definition sequence_difference (sequence reference : Z) : Z :=
  let direct := sequence - reference in
  if decide (direct = 0) then 0
  else
    let wrapped :=
      if decide (reference < sequence) then direct - 256 else direct + 256 in
    if decide (direct < 0) then
      if decide (- direct <= wrapped) then direct else wrapped
    else if decide (direct <= - wrapped) then direct
    else wrapped.

Definition delete_buffer (i : FragmentInner) (sequence : Z) : FragmentInner :=
  match incoming i !! sequence with
  | Some buffer =>
      set_incoming i (delete sequence (incoming i))
        (saturating_sub (incoming_bytes i) (bytes buffer))
  | None => i
  end.

(** A sequence that has left the window that ends at [sequence]. *)
Definition stale (sequence buffered : Z) : bool :=
  let difference := sequence_difference buffered sequence in
  bool_decide (difference <= - FRAGMENT_RECEIVE_WINDOW \/ 0 < difference).

Section codec.
Variable iter : gmap Z IncomingBuffer -> list (Z * IncomingBuffer).

Definition advance_window (i : FragmentInner) (sequence : Z) : FragmentInner :=
  match incoming_sequence i with
  | None => set_incoming_sequence i sequence
  | Some current =>
      let difference := sequence_difference sequence current in
      if decide (- FRAGMENT_RECEIVE_WINDOW <= difference < FRAGMENT_RECEIVE_WINDOW)
      then
        if decide (difference <= 0) then i
        else
          let i := set_incoming_sequence i sequence in
          foldl delete_buffer i
            (filter (fun b => stale sequence b = true) (iter (incoming i)).*1)
      else set_incoming_sequence (set_incoming i ∅ 0) sequence
  end.

Definition expire (i : FragmentInner) (now timeout : Z) : FragmentInner :=
  foldl delete_buffer i
    (filter (fun e : Z * IncomingBuffer =>
               timeout <= duration_since now (updated e.2))
       (iter (incoming i))).*1.

(** [Iterator::min_by_key] on the time of the last update: the first of the
    smallest elements. *)
Fixpoint min_by_updated (l : list (Z * IncomingBuffer)) :
    option (Z * IncomingBuffer) :=
  match l with
  | [] => None
  | e :: l =>
      match min_by_updated l with
      | Some e' => if decide (updated e'.2 < updated e.2) then Some e' else Some e
      | None => Some e
      end
  end.

Definition oldest_sequence (i : FragmentInner) (exclude : Z) : option Z :=
  fst <$> min_by_updated
            (filter (fun e : Z * IncomingBuffer => e.1 <> exclude)
               (iter (incoming i))).

(** The eviction loop of [store]: [false] when no other buffer is left.  Every
    iteration removes a buffer, so the number of buffers is enough fuel. *)
Fixpoint evict (fuel : nat) (limit previous_length payload_len sequence : Z)
    (i : FragmentInner) : bool * FragmentInner :=
  match fuel with
  | O => (true, i)
  | S fuel =>
      if decide (limit < saturating_add U64_MAX
                           (saturating_sub (incoming_bytes i) previous_length)
                           payload_len)
      then
        match oldest_sequence i sequence with
        | None => (false, delete_buffer i sequence)
        | Some oldest =>
            evict fuel limit previous_length payload_len sequence
              (delete_buffer i oldest)
        end
      else (true, i)
  end.

(** The buffer of a sequence, when it is there. *)
Definition empty_buffer (size now : Z) : IncomingBuffer :=
  mkBuffer size None ∅ 0 now.

(** The tail of [store]: complete packets leave the buffers. *)
Definition finish (i : FragmentInner) (sequence : Z) (buffer : IncomingBuffer) :
    result FragmentError (option (list Z)) * FragmentInner :=
  match last_id buffer with
  | None => (Ok None, i)
  | Some last =>
      if forallb (fun part => bool_decide (is_Some (parts buffer !! part)))
           (seqZ 0 (last + 1))
      then
        (Ok (Some (flat_map (fun part => default [] (parts buffer !! part))
                     (seqZ 0 (last + 1)))),
         set_incoming i (delete sequence (incoming i))
           (saturating_sub (incoming_bytes i) (bytes buffer)))
      else (Ok None, i)
  end.

(** The middle of [store]: the buffer of [sequence] is [buffer]. *)
Definition store_part (c : FragmentCodec) (i : FragmentInner)
    (buffer : IncomingBuffer) (sequence id maximum_size : Z) (last : bool)
    (payload : list Z) (now : Z) :
    result FragmentError (option (list Z)) * FragmentInner :=
  let previous_length := from_option len 0 (parts buffer !! id) in
  let buffer_bytes :=
    saturating_add U64_MAX (saturating_sub (bytes buffer) previous_length)
      (len payload) in
  if decide (reassembly_max_packet_bytes c < buffer_bytes) then
    (Err PacketTooLarge, delete_buffer i sequence)
  else
    let '(room, i) :=
      evict (S (size (incoming i))) (reassembly_max_bytes c) previous_length
        (len payload) sequence i in
    if room : bool then
      let buffer :=
        mkBuffer (if decide (0 < maximum_size) then maximum_size
                  else max_size buffer)
          (if last then Some id else last_id buffer)
          (<[id := payload]> (parts buffer)) buffer_bytes now in
      let i :=
        set_incoming i (<[sequence := buffer]> (incoming i))
          (saturating_add U64_MAX
             (saturating_sub (incoming_bytes i) previous_length)
             (len payload)) in
      finish i sequence buffer
    else (Err MemoryLimit, i).

Definition store (c : FragmentCodec) (i : FragmentInner)
    (sequence id maximum_size : Z) (last : bool) (payload : list Z) (now : Z) :
    result FragmentError (option (list Z)) * FragmentInner :=
  let i := expire i now (reassembly_timeout c) in
  if decide (reassembly_max_packet_bytes c < len payload) then
    (Err PacketTooLarge, i)
  else
    let i := advance_window i sequence in
    let fragment_size :=
      if decide (0 < maximum_size) then maximum_size else len payload in
    let i :=
      match incoming i !! sequence with
      | Some buffer =>
          if decide (max_size buffer <> fragment_size)
          then delete_buffer i sequence else i
      | None => i
      end in
    let '(buffer, i) :=
      match incoming i !! sequence with
      | Some buffer => (buffer, i)
      | None =>
          let buffer := empty_buffer fragment_size now in
          (buffer,
           set_incoming i (<[sequence := buffer]> (incoming i)) (incoming_bytes i))
      end in
    store_part c i buffer sequence id maximum_size last payload now.

Definition decode_at (c : FragmentCodec) (i : FragmentInner)
    (payload : list Z) (now : Z) :
    result FragmentError (option (list Z)) * FragmentInner :=
  if decide (len payload < 4) then (Err HeaderNotFound, i)
  else
    let flags := from_be_bytes (firstn 4 payload) in
    let kind := Z.land flags TYPE_MASK in
    let body := skipn 4 payload in
    if decide (kind = TYPE_WHOLE) then
      if decide (Z.land (Z.shiftr flags SEQUENCE_SHIFT) SEQUENCE_MASK <> 0
                 \/ Z.land (Z.shiftr flags ID_SHIFT) ID_MASK <> 0)
      then (Err SpuriousFlags, i)
      else (Ok (Some body), i)
    else if decide (kind = TYPE_PARTIAL \/ kind = TYPE_LAST) then
      let sequence := Z.land (Z.shiftr flags SEQUENCE_SHIFT) SEQUENCE_MASK in
      let id := Z.land (Z.shiftr flags ID_SHIFT) ID_MASK in
      let maximum_size :=
        Z.shiftl (Z.land (Z.shiftr flags SIZE_SHIFT) SIZE_MASK)
          SIZE_ROUND_SHIFT in
      store c i sequence id maximum_size (bool_decide (kind = TYPE_LAST)) body now
    else (Err (UnknownType (wrap8 kind)), i).

(** A sequence of datagrams with their arrival times. *)
Fixpoint deliver (c : FragmentCodec) (i : FragmentInner)
    (datagrams : list (list Z * Z)) :
    list (result FragmentError (option (list Z))) * FragmentInner :=
  match datagrams with
  | [] => ([], i)
  | (payload, now) :: datagrams =>
      let '(r, i) := decode_at c i payload now in
      let '(rs, i) := deliver c i datagrams in
      (r :: rs, i)
  end.

(** ** Sequence numbers *)

(** The difference is the representative of smallest magnitude modulo 256. *)
Lemma sequence_difference_spec s r :
  is_u8 s -> is_u8 r ->
  (sequence_difference s r) mod 256 = (s - r) mod 256
  /\ -128 <= sequence_difference s r <= 128.
Proof.
  intros Hs Hr. unfold sequence_difference.
  assert (forall k, (s - r + k * 256) mod 256 = (s - r) mod 256) as Hmod
    by (intros; apply Z_mod_plus_full).
  pose proof (Hmod 1). pose proof (Hmod (-1)).
  destruct (decide (s - r = 0)) as [->|]; [by split|].
  repeat case_decide; split; try ilia; first
    [done|by rewrite <- (Hmod 1); f_equal; lia|by rewrite <- (Hmod (-1)); f_equal; lia].
Qed.

(** ** Accounting *)

Definition config_ok (c : FragmentCodec) : Prop :=
  0 <= reassembly_max_packet_bytes c
  /\ 0 <= reassembly_max_bytes c
  /\ reassembly_max_bytes c + reassembly_max_packet_bytes c <= U64_MAX.

Record buffer_ok (c : FragmentCodec) (b : IncomingBuffer) : Prop := mkBufferOk {
  b_bytes : bytes b = map_sum len (parts b);
  b_limit : bytes b <= reassembly_max_packet_bytes c;
}.

Record inv (c : FragmentCodec) (i : FragmentInner) : Prop := mkInv {
  i_bytes : incoming_bytes i = map_sum bytes (incoming i);
  i_limit : incoming_bytes i <= reassembly_max_bytes c;
  i_buffers : forall s b, incoming i !! s = Some b -> buffer_ok c b;
}.

Lemma len_nonneg l : 0 <= len l.
Proof. unfold len. lia. Qed.

Lemma part_le b c id p :
  buffer_ok c b -> parts b !! id = Some p -> len p <= bytes b.
Proof.
  intros Hb Hp. rewrite (b_bytes _ _ Hb).
  apply (map_sum_lookup_le len _ id); [|done]. intros; apply len_nonneg.
Qed.

Lemma bytes_nonneg c b : buffer_ok c b -> 0 <= bytes b.
Proof.
  intros Hb. rewrite (b_bytes _ _ Hb). apply map_sum_nonneg.
  intros; apply len_nonneg.
Qed.

Lemma buffer_le c i s b :
  inv c i -> incoming i !! s = Some b -> 0 <= bytes b <= incoming_bytes i.
Proof.
  intros Hi Hb. split; [by eapply bytes_nonneg, i_buffers|].
  rewrite (i_bytes _ _ Hi). apply (map_sum_lookup_le bytes _ s); [|done].
  intros. by eapply bytes_nonneg, i_buffers.
Qed.

Lemma delete_buffer_spec c i s :
  inv c i ->
  inv c (delete_buffer i s)
  /\ incoming (delete_buffer i s) = delete s (incoming i)
  /\ incoming_bytes (delete_buffer i s) <= incoming_bytes i.
Proof.
  intros Hi. unfold delete_buffer. destruct (incoming i !! s) as [b|] eqn:Hb.
  - destruct (buffer_le _ _ _ _ Hi Hb). unfold saturating_sub. simpl.
    split_and!; [|done|lia]. destruct Hi as [H1 H2 H3]. constructor; simpl.
    + rewrite (map_sum_delete _ _ _ b) by done. lia.
    + lia.
    + intros s' b' [_ Hb']%lookup_delete_Some. eauto.
  - split_and!; [done|by rewrite delete_id|lia].
Qed.

Lemma delete_buffers_inv c i l : inv c i -> inv c (foldl delete_buffer i l).
Proof.
  revert i. induction l as [|s l IH]; intros i Hi; simpl; [done|].
  apply IH. by apply delete_buffer_spec.
Qed.

Lemma advance_window_inv c i s : 0 <= reassembly_max_bytes c ->
  inv c i -> inv c (advance_window i s).
Proof.
  intros Hc Hi. unfold advance_window. destruct (incoming_sequence i) as [cur|].
  - case_decide; [case_decide; [done|]|].
    + apply delete_buffers_inv. by destruct Hi; constructor.
    + constructor; simpl; [done|done|]. intros ? ?. by rewrite lookup_empty.
  - by destruct Hi; constructor.
Qed.

Lemma expire_inv c i now t : inv c i -> inv c (expire i now t).
Proof. intros. by apply delete_buffers_inv. Qed.

(** ** Eviction terminates and makes room *)

Hypothesis iter_perm : forall m, iter m ≡ₚ map_to_list m.

Lemma min_by_updated_Some l e : min_by_updated l = Some e -> e ∈ l.
Proof.
  revert e. induction l as [|x l IH]; simpl; [done|]. intros e.
  rewrite elem_of_cons. destruct (min_by_updated l) as [e'|]; [|naive_solver].
  case_decide; naive_solver.
Qed.

Lemma min_by_updated_None l : min_by_updated l = None -> l = [].
Proof.
  destruct l as [|x l]; simpl; [done|].
  destruct (min_by_updated l); [case_decide|]; done.
Qed.

Lemma oldest_sequence_Some i s o :
  oldest_sequence i s = Some o -> o <> s /\ is_Some (incoming i !! o).
Proof.
  unfold oldest_sequence. intros ([o' b] & He & ->)%fmap_Some. simpl.
  apply min_by_updated_Some, list_elem_of_filter in He as [Hne He].
  rewrite iter_perm in He. apply elem_of_map_to_list in He. eauto.
Qed.

Lemma evict_spec c i fuel prev plen s b :
  config_ok c -> inv c i -> (size (incoming i) < fuel)%nat ->
  incoming i !! s = Some b -> 0 <= prev <= bytes b ->
  0 <= plen <= reassembly_max_packet_bytes c ->
  let '(room, i') := evict fuel (reassembly_max_bytes c) prev plen s i in
  inv c i'
  /\ (room = true -> incoming i' !! s = Some b
        /\ incoming_bytes i' - prev + plen <= reassembly_max_bytes c).
Proof.
  intros (Hc1 & Hc2 & Hc3). revert i.
  induction fuel as [|fuel IH]; intros i Hi Hf Hb Hprev Hplen; [lia|]. simpl.
  destruct (buffer_le _ _ _ _ Hi Hb). pose proof (i_limit _ _ Hi).
  case_decide as Hgt.
  - destruct (oldest_sequence i s) as [o|] eqn:Ho.
    + apply oldest_sequence_Some in Ho as [Hne [bo Hbo]].
      destruct (delete_buffer_spec c i o Hi) as (Hd & He & _).
      apply IH; [done| |by rewrite He, lookup_delete_ne|done..].
      rewrite He, map_size_delete_Some by eauto.
      assert (size (incoming i) <> 0%nat); [|lia].
      intros Hz%map_size_empty_iff. by rewrite Hz, lookup_empty in Hbo.
    + split; [by apply delete_buffer_spec|done].
  - split; [done|]. intros _. split; [done|]. ilia.
Qed.

Lemma finish_inv c i s b :
  inv c i -> incoming i !! s = Some b -> inv c (finish i s b).2.
Proof.
  intros Hi Hb. unfold finish. destruct (last_id b); [|done].
  case_match; [|done]. simpl.
  pose proof (delete_buffer_spec c i s Hi) as (Hd & _).
  unfold delete_buffer in Hd. by rewrite Hb in Hd.
Qed.

Lemma store_part_inv c i b s id ms last p now :
  config_ok c -> inv c i -> incoming i !! s = Some b ->
  len p <= reassembly_max_packet_bytes c ->
  inv c (store_part c i b s id ms last p now).2.
Proof.
  intros Hc Hi Hb Hp. unfold store_part.
  assert (buffer_ok c b) as Hok by by eapply i_buffers.
  assert (0 <= from_option len 0 (parts b !! id) <= bytes b) as Hprev.
  { destruct (parts b !! id) eqn:E; simpl; [|by split; [|eapply bytes_nonneg]].
    split; [apply len_nonneg|by eapply part_le]. }
  pose proof (len_nonneg p). pose proof (b_limit _ _ Hok) as Hlim.
  destruct (buffer_le _ _ _ _ Hi Hb). pose proof (i_limit _ _ Hi).
  set (prev := from_option len 0 (parts b !! id)) in *.
  case_decide as Hbig; [by apply delete_buffer_spec|].
  pose proof (evict_spec c i (S (size (incoming i))) prev (len p) s b Hc Hi
                ltac:(lia) Hb Hprev ltac:(lia)) as He.
  destruct (evict _ _ _ _ _ i) as [room i1]. destruct He as [Hi1 Hroom].
  destruct room; [|done]. destruct (Hroom eq_refl) as [Hb1 Hr].
  destruct Hc as (Hc1 & Hc2 & Hc3). destruct (buffer_le _ _ _ _ Hi1 Hb1).
  pose proof (i_limit _ _ Hi1).
  apply finish_inv; simpl; [|apply lookup_insert_eq].
  assert (saturating_add U64_MAX (saturating_sub (bytes b) prev) (len p)
          = bytes b - prev + len p) as E by ilia. rewrite E in *.
  constructor; simpl.
  - rewrite map_sum_insert, Hb1. simpl. rewrite <- (i_bytes _ _ Hi1). ilia.
  - ilia.
  - intros s' b'. rewrite lookup_insert. case_decide; [|apply Hi1].
    intros [= <-]. constructor; simpl; [|lia].
    rewrite map_sum_insert. fold prev. rewrite (b_bytes _ _ Hok). lia.
Qed.

Lemma store_inv c i s id ms last p now :
  config_ok c -> inv c i -> inv c (store c i s id ms last p now).2.
Proof.
  intros Hc Hi. unfold store.
  apply (expire_inv c i now (reassembly_timeout c)) in Hi.
  case_decide as Hp; [done|].
  apply (advance_window_inv c _ s) in Hi; [|apply Hc].
  set (i1 := advance_window _ s) in *. clearbody i1.
  set (i2 := match incoming i1 !! s with Some _ => _ | None => _ end).
  assert (inv c i2) as Hi2.
  { subst i2. repeat case_match; first [done|by apply delete_buffer_spec]. }
  clearbody i2. destruct (incoming i2 !! s) as [b|] eqn:Hb.
  - apply store_part_inv; auto; lia.
  - apply store_part_inv; [done| |apply lookup_insert_eq|lia].
    destruct Hi2 as [H1 H2 H3]. constructor; simpl; [|done|].
    + by rewrite map_sum_insert_new.
    + intros s' b'. rewrite lookup_insert. case_decide; [|apply H3].
      intros [= <-]. destruct Hc as (? & _). constructor; simpl; [done|lia].
Qed.

Lemma decode_at_inv c i p now :
  config_ok c -> inv c i -> inv c (decode_at c i p now).2.
Proof.
  intros Hc Hi. unfold decode_at. repeat (case_decide; [by try done|]); try done.
  all: repeat case_decide; try done; by apply store_inv.
Qed.

(** Reassembly memory is bounded whatever a peer sends: after any sequence
    of datagrams, the byte counter equals the bytes actually buffered, stays
    within the codec's total limit, and no partial packet exceeds the packet
    limit. *)
Theorem reassembly_memory_bounded (timeout total_bytes packet_bytes : Z)
    (datagrams : list (list Z * Z)) :
  0 <= packet_bytes -> 0 <= total_bytes -> total_bytes + packet_bytes <= U64_MAX ->
  let c := with_limits timeout total_bytes packet_bytes in
  let i := (deliver c (inner c) datagrams).2 in
  incoming_bytes i = map_sum (fun b => map_sum len (parts b)) (incoming i)
  /\ incoming_bytes i <= total_bytes
  /\ (forall s b, incoming i !! s = Some b ->
        map_sum len (parts b) <= packet_bytes).
Proof.
  intros Hp Ht Hs c i. assert (config_ok c) as Hc by done.
  assert (inv c i) as Hi.
  { subst i. assert (inv c (inner c)) as H0.
    { constructor; simpl; [done|done|]. intros ? ?. by rewrite lookup_empty. }
    revert H0. generalize (inner c).
    induction datagrams as [|[p now] ds IH]; intros i Hi; simpl; [done|].
    apply (decode_at_inv _ _ p now Hc) in Hi.
    destruct (decode_at c i p now) as [r i1]. specialize (IH i1 Hi).
    by destruct (deliver c i1 ds). }
  clearbody i. split_and!; [|apply Hi|].
  - rewrite (i_bytes _ _ Hi). apply map_sum_ext. intros s b Hb.
    by apply (b_bytes c), (i_buffers _ _ Hi s).
  - intros s b Hb. pose proof (i_buffers _ _ Hi s b Hb) as Hok.
    rewrite <- (b_bytes _ _ Hok). apply (b_limit _ _ Hok).
Qed.

(** ** Reassembly round trip *)

Lemma land_31 x : Z.land x 31 = x mod 32.
Proof. change 31 with (Z.ones 5). by rewrite Z.land_ones. Qed.

Lemma land_16383 x : Z.land x 16383 = x mod 16384.
Proof. change 16383 with (Z.ones 14). by rewrite Z.land_ones. Qed.

Lemma land_3 x : Z.land x 3 = x mod 4.
Proof. change 3 with (Z.ones 2). by rewrite Z.land_ones. Qed.

(** The header word of a frame is the sum of its four fields. *)
Lemma frame_flags p kind s id size :
  0 <= kind <= 2 -> is_u8 s -> 0 <= id < 32 -> 0 <= size < 16384 ->
  (kind <> TYPE_LAST -> size = 0) ->
  frame p kind s id size
  = to_be_bytes 4 (kind + s * 4 + id * 1024 + size * 32768) ++ p.
Proof.
  intros Hk Hs Hid Hsz Hlast. unfold frame. f_equal. f_equal.
  unfold TYPE_MASK, SEQUENCE_MASK, ID_MASK, SIZE_MASK, SEQUENCE_SHIFT, ID_SHIFT,
    SIZE_SHIFT, wrap32.
  rewrite land_3, land_255, land_31, land_16383.
  rewrite (Z.mod_small kind), (Z.mod_small s), (Z.mod_small id) by ilia.
  rewrite (Z.mod_small size (2 ^ 32)) by (change (2 ^ 32) with 4294967296; lia).
  rewrite (Z.mod_small size 16384) by lia.
  rewrite (Z.lor_comm kind), lor_shiftl_add by (simpl; lia).
  rewrite (Z.lor_comm (_ + kind)), lor_shiftl_add by (simpl; ilia).
  change (2 ^ 2) with 4. change (2 ^ 10) with 1024.
  destruct (decide (kind = TYPE_LAST)) as [->|Hne].
  - rewrite Z.lor_comm, lor_shiftl_add by (change (2 ^ 15) with 32768; ilia).
    change (2 ^ 15) with 32768. lia.
  - rewrite Hlast by done. lia.
Qed.

Lemma decode_frame c i p kind s id size now :
  1 <= kind <= 2 -> is_u8 s -> 0 <= id < 32 -> 0 <= size < 16384 ->
  (kind <> TYPE_LAST -> size = 0) ->
  decode_at c i (frame p kind s id size) now
  = store c i s id (size * 4) (bool_decide (kind = TYPE_LAST)) p now.
Proof.
  intros Hk Hs Hid Hsz Hlast. rewrite frame_flags by (done || lia).
  unfold decode_at. set (f := kind + s * 4 + id * 1024 + size * 32768).
  assert (length (to_be_bytes 4 f) = 4%nat) as Hl by apply length_to_be_bytes.
  rewrite decide_False by (unfold len; rewrite length_app; lia).
  rewrite (take_app_length' _ _ 4), (drop_app_length' _ _ 4) by lia.
  rewrite from_to_be_bytes
    by (change (2 ^ (8 * Z.of_nat 4)) with 4294967296; subst f; ilia).
  unfold TYPE_MASK, SEQUENCE_MASK, ID_MASK, SIZE_MASK, SEQUENCE_SHIFT, ID_SHIFT,
    SIZE_SHIFT, SIZE_ROUND_SHIFT.
  rewrite land_3, land_255, land_31, land_16383, !Z.shiftr_div_pow2,
    Z.shiftl_mul_pow2 by lia.
  change (2 ^ 2) with 4. change (2 ^ 10) with 1024. change (2 ^ 15) with 32768.
  assert (f mod 4 = kind) as ->
    by (symmetry; apply (Z.mod_unique _ _ (s + id * 256 + size * 8192)); subst f; lia).
  assert (f / 4 = s + (id + size * 32) * 256) as ->
    by (symmetry; apply (Z.div_unique _ _ _ kind); subst f; lia).
  assert (f / 1024 = id + size * 32) as ->
    by (symmetry; apply (Z.div_unique _ _ _ (kind + s * 4)); subst f; ilia).
  assert (f / 32768 = size) as ->
    by (symmetry; apply (Z.div_unique _ _ _ (kind + s * 4 + id * 1024));
        subst f; ilia).
  rewrite !Z_mod_plus_full, !Z.mod_small by ilia.
  unfold TYPE_WHOLE, TYPE_PARTIAL, TYPE_LAST. rewrite decide_False by lia.
  by rewrite decide_True by lia.
Qed.

Lemma decode_whole c i p now :
  decode_at c i (frame p TYPE_WHOLE 0 0 0) now = (Ok (Some p), i).
Proof.
  rewrite frame_flags by (unfold TYPE_WHOLE; ilia). unfold decode_at.
  change (TYPE_WHOLE + 0 * 4 + 0 * 1024 + 0 * 32768) with 0.
  assert (length (to_be_bytes 4 0) = 4%nat) as Hl by apply length_to_be_bytes.
  rewrite decide_False by (unfold len; rewrite length_app; lia).
  rewrite (take_app_length' _ _ 4), (drop_app_length' _ _ 4) by lia.
  by rewrite from_to_be_bytes by (simpl; lia).
Qed.

(** The fragments of one packet. *)
Section packet.
Context (payload : list Z) (size s : Z).
Hypothesis size_pos : 0 < size.
Hypothesis size_round : size mod 4 = 0.
Hypothesis payload_long : size < len payload.
Hypothesis payload_max : len payload <= U16_MAX.
Hypothesis s_u8 : is_u8 s.

Definition count : Z := div_ceil (len payload) size.
Definition part (k : Z) : list Z := chunk size payload (Z.to_nat k).
Definition fragment (k : Z) (c : list Z) : list Z :=
  let last := bool_decide (len payload <= (k + 1) * size) in
  frame c (if last then TYPE_LAST else TYPE_PARTIAL) s (wrap8 k)
    (if last then Z.shiftr size SIZE_ROUND_SHIFT else 0).

Lemma count_bounds : 0 < count /\ (count - 1) * size < len payload <= count * size.
Proof.
  unfold count, div_ceil.
  pose proof (Z.div_mod (len payload + size - 1) size ltac:(lia)).
  pose proof (Z.mod_pos_bound (len payload + size - 1) size size_pos). nia.
Qed.

Lemma last_iff k :
  0 <= k < count -> (len payload <= (k + 1) * size <-> k = count - 1).
Proof. pose proof count_bounds. nia. Qed.

Lemma len_part k : 0 <= k < count - 1 -> len (part k) = size.
Proof.
  intros Hk. pose proof count_bounds. unfold len, part, chunk in *.
  rewrite length_take, length_drop. nia.
Qed.

Lemma take_parts k :
  firstn ((Z.to_nat size) * S k) payload
  = firstn (Z.to_nat size * k) payload ++ chunk size payload k.
Proof.
  unfold chunk. rewrite Nat.mul_succ_r, (Nat.mul_comm k).
  by rewrite take_take_drop.
Qed.

Lemma concat_parts n :
  flat_map part (seqZ 0 (Z.of_nat n)) = firstn (Z.to_nat size * n) payload.
Proof.
  induction n as [|n IH]; [by rewrite Nat.mul_0_r|].
  replace (Z.of_nat (S n)) with (Z.of_nat n + 1) by lia.
  rewrite seqZ_app by lia. rewrite flat_map_app, IH, take_parts. f_equal.
  change (seqZ (0 + Z.of_nat n) 1) with [0 + Z.of_nat n]. simpl.
  unfold part. rewrite app_nil_r. f_equal. lia.
Qed.

Lemma concat_all : flat_map part (seqZ 0 count) = payload.
Proof.
  pose proof count_bounds. replace count with (Z.of_nat (Z.to_nat count)) by lia.
  rewrite concat_parts. apply take_ge. unfold len in *. nia.
Qed.

(** Distinct parts never add up to more than the packet. *)
Lemma parts_sum_le n (m : gmap Z (list Z)) :
  (forall k x, m !! k = Some x -> 0 <= k < Z.of_nat n /\ x = part k) ->
  map_sum len m <= len payload.
Proof.
  intros Hm. transitivity (len (firstn (Z.to_nat size * n) payload)).
  2: { unfold len. rewrite length_take. lia. }
  revert m Hm. induction n as [|n IH]; intros m Hm.
  - assert (m = ∅) as ->; [|rewrite map_sum_empty; apply len_nonneg].
    apply map_eq. intros k. rewrite lookup_empty. apply eq_None_not_Some.
    intros [x Hx]. apply Hm in Hx. lia.
  - rewrite take_parts.
    assert (map_sum len (delete (Z.of_nat n) m)
            <= len (firstn (Z.to_nat size * n) payload)) as Hle.
    { apply IH. intros k x [Hne Hx]%lookup_delete_Some.
      apply Hm in Hx as [? ->]. split; [lia|done]. }
    unfold len at 2. rewrite length_app, Nat2Z.inj_add.
    destruct (m !! Z.of_nat n) as [x|] eqn:Hx.
    + rewrite (map_sum_delete _ _ _ x) in Hle by done.
      apply Hm in Hx as [_ ->]. unfold part in Hle. rewrite Nat2Z.id in Hle.
      unfold len in *. lia.
    + rewrite delete_id in Hle by done. unfold len in *. lia.
Qed.

Lemma encode_loop_spec id cs frags :
  0 <= id -> encode_loop size (len payload) s id cs = Ok frags ->
  (cs = [] \/ id + Z.of_nat (length cs) <= FRAGMENT_MAX_PARTS)
  /\ length frags = length cs
  /\ (forall j x, cs !! j = Some x ->
        frags !! j = Some (fragment (id + Z.of_nat j) x)).
Proof.
  revert id frags. induction cs as [|x cs IH]; intros id frags Hid He; simpl in *.
  - apply Ok_inj in He as <-. split_and!; [by left|done|]. by intros j.
  - case_decide; [done|]. apply bind_Ok in He as (fs & Hfs & <-%Ok_inj).
    apply IH in Hfs as (Hn & Hl & Hj); [|lia]. split_and!; [|simpl; lia|].
    + right. unfold FRAGMENT_MAX_PARTS in *. destruct Hn as [->|]; simpl; lia.
    + intros [|j] y Hy; simpl in *.
      * injection Hy as ->. by rewrite Z.add_0_r.
      * replace (id + Z.of_nat (S j)) with (id + 1 + Z.of_nat j) by lia.
        by apply Hj.
Qed.

Lemma decode_fragment c i k now :
  0 <= k < count -> count <= FRAGMENT_MAX_PARTS ->
  let last := bool_decide (k = count - 1) in
  decode_at c i (fragment k (part k)) now
  = store c i s k (if last then size else 0) last (part k) now.
Proof.
  intros Hk Hc last. unfold fragment, FRAGMENT_MAX_PARTS in *.
  rewrite (bool_decide_ext _ _ (last_iff k Hk)). fold last.
  unfold wrap8, SIZE_ROUND_SHIFT. rewrite Z.mod_small by (simpl; lia).
  rewrite Z.shiftr_div_pow2 by lia. change (2 ^ 2) with 4.
  pose proof (Z.div_mod size 4 ltac:(lia)).
  destruct last; rewrite decode_frame; unfold TYPE_LAST, TYPE_PARTIAL; try done; try lia.
  - f_equal. lia.
  - unfold U16_MAX in *. split; [apply Z.div_pos; lia|].
    apply Z.div_lt_upper_bound; lia.
Qed.

(** The receiver holds exactly the parts [D] of the packet. *)
Definition holds (b : IncomingBuffer) (D : list Z) : Prop :=
  max_size b = size
  /\ (forall k, k ∈ D -> parts b !! k = Some (part k))
  /\ (forall k, k ∉ D -> parts b !! k = None)
  /\ last_id b = (if bool_decide (count - 1 ∈ D) then Some (count - 1) else None).

Definition idle (i : FragmentInner) : Prop :=
  incoming i = ∅ /\ incoming_bytes i = 0.

Definition in_window (i : FragmentInner) : Prop :=
  exists cur, incoming_sequence i = Some cur
  /\ - FRAGMENT_RECEIVE_WINDOW <= sequence_difference s cur <= 0.

Definition enters (i : FragmentInner) (b : IncomingBuffer) (D : list Z) : Prop :=
  incoming i = {[s := b]} /\ holds b D /\ in_window i.

Context (c : FragmentCodec) (t0 : Z).
Hypothesis c_ok : config_ok c.
Hypothesis c_packet : len payload <= reassembly_max_packet_bytes c.
Hypothesis c_total : reassembly_max_packet_bytes c <= reassembly_max_bytes c.
Hypothesis count_max : count <= FRAGMENT_MAX_PARTS.

Notation time_ok t := (t0 <= t < t0 + reassembly_timeout c).

Definition partial (i : FragmentInner) (D : list Z) : Prop :=
  match D with
  | [] => idle i
  | _ => exists b, incoming i = {[s := b]} /\ holds b D
         /\ time_ok (updated b) /\ in_window i
  end.

Lemma sequence_difference_diag x : sequence_difference x x = 0.
Proof. unfold sequence_difference. by rewrite decide_True by lia. Qed.

Lemma iter_empty : iter ∅ = [].
Proof. apply Permutation_nil_r. by rewrite iter_perm, map_to_list_empty. Qed.

Lemma iter_singleton b : iter {[s := b]} = [(s, b)].
Proof. apply Permutation_singleton_r. by rewrite iter_perm, map_to_list_singleton. Qed.

(** Advancing the window of an idle receiver to [s] leaves [s] inside it. *)
Lemma advance_window_idle i :
  idle i -> idle (advance_window i s) /\ in_window (advance_window i s).
Proof.
  intros [Hm Hb]. unfold advance_window, in_window, FRAGMENT_RECEIVE_WINDOW.
  assert (exists cur, Some s = Some cur
          /\ - (25) <= sequence_difference s cur <= 0) as Hs
    by (exists s; rewrite sequence_difference_diag; split; [done|lia]).
  destruct (incoming_sequence i) as [cur|] eqn:Hc; [|done].
  case_decide; [case_decide|done].
  - split; [done|]. exists cur. split; [done|lia].
  - simpl. rewrite Hm, iter_empty. done.
Qed.

Lemma holds_new now : holds (empty_buffer size now) [].
Proof.
  split_and!; [done| |done|].
  - intros k []%not_elem_of_nil.
  - by rewrite bool_decide_false by apply not_elem_of_nil.
Qed.

(** Every part finds its buffer: the one the earlier parts are in, or a new
    one. *)
Lemma store_enters i D k now :
  inv c i -> partial i D -> 0 <= k < count -> time_ok now ->
  let last := bool_decide (k = count - 1) in
  exists i' b, inv c i' /\ enters i' b D
  /\ store c i s k (if last then size else 0) last (part k) now
     = store_part c i' b s k (if last then size else 0) last (part k) now.
Proof.
  intros Hi Hp Hk Hnow last. unfold store.
  assert ((if decide (0 < (if last then size else 0)) then if last then size else 0
           else len (part k)) = size) as ->.
  { subst last. case_bool_decide; [by rewrite decide_True by lia|].
    rewrite decide_False by lia. apply len_part. lia. }
  rewrite decide_False.
  2: { unfold len, part, chunk in *. rewrite length_take, length_drop. lia. }
  destruct D as [|d D].
  - destruct Hp as [Hm Hb].
    assert (expire i now (reassembly_timeout c) = i) as ->
      by (unfold expire; by rewrite Hm, iter_empty).
    destruct (advance_window_idle i) as [[Hm' Hb'] Hw]; [done|].
    apply (advance_window_inv c i s) in Hi; [|apply c_ok].
    set (i1 := advance_window i s) in *. clearbody i1.
    rewrite Hm', lookup_empty. cbn beta iota. rewrite Hm', lookup_empty.
    eexists _, _. split_and!; [| |reflexivity].
    + constructor; simpl;
        [by rewrite map_sum_insert_new, Hb' by apply lookup_empty
        |rewrite Hb'; apply c_ok|].
      intros s' b' [<- <-]%lookup_singleton_Some.
      constructor; simpl; [done|apply c_ok].
    + split_and!; [done|apply holds_new|exact Hw].
  - destruct Hp as (b & Hm & Hh & Hu & Hw).
    assert (expire i now (reassembly_timeout c) = i) as ->.
    { unfold expire. rewrite Hm, iter_singleton. rewrite filter_cons_False; [done|].
      simpl. unfold duration_since. lia. }
    assert (advance_window i s = i) as ->.
    { unfold advance_window. destruct Hw as (cur & -> & Hd).
      rewrite decide_True by (unfold FRAGMENT_RECEIVE_WINDOW in *; lia).
      by rewrite decide_True by lia. }
    rewrite Hm, lookup_singleton_eq. rewrite decide_False by (intros Hne; by apply Hne, Hh).
    rewrite Hm, lookup_singleton_eq.
    exists i, b. by split_and!.
Qed.

Lemma holds_insert b D k last_id' bytes' now :
  holds b D -> 0 <= k < count ->
  last_id' = (if bool_decide (k = count - 1) then Some k else last_id b) ->
  holds (mkBuffer size last_id' (<[k := part k]> (parts b)) bytes' now) (k :: D).
Proof.
  intros (Hs & Hin & Hout & Hl) Hk ->. split_and!; simpl; [done|..].
  - intros j [->|Hj]%elem_of_cons; [apply lookup_insert_eq|].
    destruct (decide (k = j)) as [<-|];
      [apply lookup_insert_eq|rewrite lookup_insert_ne by done; auto].
  - intros j [Hne Hj]%not_elem_of_cons. rewrite lookup_insert_ne by done. auto.
  - rewrite Hl. destruct (decide (k = count - 1)) as [->|Hc].
    + by rewrite !bool_decide_true by (rewrite ?elem_of_cons; auto).
    + rewrite (bool_decide_false (k = count - 1)) by done.
      erewrite bool_decide_ext; [done|]. rewrite elem_of_cons.
      split; [auto|]. intros [?|?]; [lia|done].
Qed.

(** The bytes buffered after storing part [k] fit in the packet limit. *)
Lemma holds_bytes b D k :
  buffer_ok c b -> holds b D -> 0 <= k < count -> Forall (fun j => 0 <= j < count) D ->
  let prev := from_option len 0 (parts b !! k) in
  0 <= prev <= bytes b /\ bytes b - prev + len (part k) <= len payload.
Proof.
  intros Hb (_ & Hin & Hout & _) Hk HD prev.
  assert (0 <= prev <= bytes b) as Hprev.
  { subst prev. destruct (parts b !! k) eqn:E; simpl;
      [split; [apply len_nonneg|by eapply part_le]|by split; [|eapply bytes_nonneg]]. }
  split; [done|]. rewrite Forall_forall in HD.
  assert (map_sum len (<[k := part k]> (parts b)) <= len payload) as Hle.
  { apply (parts_sum_le (Z.to_nat count)). intros j x Hx.
    destruct (decide (j = k)) as [->|Hne].
    - rewrite lookup_insert_eq in Hx. injection Hx as <-. split; [lia|done].
    - rewrite lookup_insert_ne in Hx by done.
      destruct (decide (j ∈ D)) as [Hj|Hj].
      + rewrite (Hin j Hj) in Hx. injection Hx as <-.
        apply HD in Hj. split; [lia|done].
      + by rewrite (Hout j Hj) in Hx. }
  rewrite map_sum_insert in Hle. fold prev in Hle.
  rewrite (b_bytes _ _ Hb). lia.
Qed.

Lemma store_part_step i b D k now :
  inv c i -> enters i b D -> 0 <= k < count ->
  Forall (fun j => 0 <= j < count) D -> time_ok now ->
  let last := bool_decide (k = count - 1) in
  exists i' b', inv c i' /\ enters i' b' (k :: D) /\ time_ok (updated b')
  /\ store_part c i b s k (if last then size else 0) last (part k) now
     = finish i' s b'.
Proof.
  intros Hi (Hm & Hh & Hw) Hk HD Hnow last. unfold store_part.
  assert (incoming i !! s = Some b) as Hb by by rewrite Hm, lookup_singleton_eq.
  assert (buffer_ok c b) as Hok by by eapply i_buffers.
  destruct (holds_bytes b D k Hok Hh Hk HD) as [Hprev Hsum].
  set (prev := from_option len 0 (parts b !! k)) in *.
  pose proof (len_nonneg (part k)).
  assert (incoming_bytes i = bytes b) as Hib.
  { rewrite (i_bytes _ _ Hi), Hm. rewrite map_sum_singleton. lia. }
  assert (saturating_add U64_MAX (saturating_sub (bytes b) prev) (len (part k))
          = bytes b - prev + len (part k)) as E.
  { pose proof payload_max. ilia. }
  rewrite E, decide_False by lia. cbn [evict].
  rewrite Hib, E, decide_False by lia. rewrite Hib, E.
  eexists _, _. split_and!; [..|reflexivity]; simpl.
  - constructor; simpl.
    + rewrite Hm, insert_singleton_eq. rewrite map_sum_singleton. simpl. lia.
    + lia.
    + intros s' b'. rewrite Hm, insert_singleton_eq.
      intros [<- <-]%lookup_singleton_Some. constructor; simpl; [|lia].
      rewrite map_sum_insert. fold prev. rewrite (b_bytes _ _ Hok). lia.
  - split_and!; [by rewrite Hm, insert_singleton_eq| |done].
    destruct Hh as (Hsz & Hrest).
    assert ((if decide (0 < (if last then size else 0))
             then if last then size else 0 else max_size b) = size) as ->.
    { destruct last; [by rewrite decide_True by lia|]. by rewrite decide_False by lia. }
    by apply holds_insert.
  - lia.
  - lia.
Qed.

Lemma finish_step i b D :
  inv c i -> enters i b D -> D <> [] -> time_ok (updated b) ->
  ((forall k, 0 <= k < count -> k ∈ D) /\
     exists i', finish i s b = (Ok (Some payload), i') /\ idle i' /\ inv c i')
  \/ (~ (forall k, 0 <= k < count -> k ∈ D)
     /\ exists i', finish i s b = (Ok None, i') /\ partial i' D /\ inv c i').
Proof.
  intros Hi (Hm & Hh & Hw) HD Hu. pose proof count_bounds.
  assert (partial i D) as Hp by (destruct D; [done|]; by exists b).
  destruct Hh as (_ & Hin & Hout & Hl). unfold finish. rewrite Hl.
  case_bool_decide as Hlast.
  2: { right. split; [intros Hall; apply Hlast, Hall; lia|]. by exists i. }
  replace (count - 1 + 1) with count by lia. destruct (forallb _ _) eqn:Hall.
  - left. assert (forall k, 0 <= k < count -> k ∈ D) as Hcomplete.
    { intros k Hk. rewrite forallb_forall in Hall. specialize (Hall k).
      rewrite <- list_elem_of_In, elem_of_seqZ, bool_decide_eq_true in Hall.
      destruct (decide (k ∈ D)) as [|Hn]; [done|].
      rewrite (Hout k Hn) in Hall. destruct Hall as [? ?]; [lia|done]. }
    split; [done|]. eexists. split_and!; [|split|].
    + do 3 f_equal. rewrite <- concat_all.
      rewrite !flat_map_concat_map. f_equal. apply map_ext_in. intros k Hk%list_elem_of_In%elem_of_seqZ.
      by rewrite Hin by (apply Hcomplete; lia).
    + simpl. by rewrite Hm, delete_singleton_eq.
    + simpl. rewrite (i_bytes _ _ Hi), Hm, map_sum_singleton. ilia.
    + pose proof (finish_inv c i s b Hi) as H'. unfold finish in H'.
      rewrite Hl in H'.
      replace (count - 1 + 1) with count in H' by lia. rewrite Hall in H'.
      apply H'. by rewrite Hm, lookup_singleton_eq.
  - right. split; [|by exists i]. intros Hcomplete.
    apply not_true_iff_false in Hall. apply Hall, forallb_forall.
    intros k Hk%list_elem_of_In%elem_of_seqZ. apply bool_decide_eq_true.
    rewrite Hin by (apply Hcomplete; lia). eauto.
Qed.

(** One more part arrives. *)
Lemma decode_step i D k now :
  inv c i -> partial i D -> 0 <= k < count ->
  Forall (fun j => 0 <= j < count) D -> time_ok now ->
  ((forall j, 0 <= j < count -> j ∈ k :: D) /\
     exists i', decode_at c i (fragment k (part k)) now = (Ok (Some payload), i')
                /\ idle i' /\ inv c i')
  \/ (~ (forall j, 0 <= j < count -> j ∈ k :: D)
     /\ exists i', decode_at c i (fragment k (part k)) now = (Ok None, i')
                   /\ partial i' (k :: D) /\ inv c i').
Proof.
  intros Hi Hp Hk HD Hnow. rewrite decode_fragment by done.
  destruct (store_enters i D k now Hi Hp Hk Hnow) as (i1 & b1 & Hi1 & He1 & ->).
  destruct (store_part_step i1 b1 D k now Hi1 He1 Hk HD Hnow)
    as (i2 & b2 & Hi2 & He2 & Hu2 & ->).
  by apply finish_step.
Qed.

Lemma deliver_parts arrivals i D k tk :
  inv c i -> partial i D -> 0 <= k < count -> k ∉ D -> k ∉ arrivals.*1 ->
  Forall (fun j => 0 <= j < count) D ->
  Forall (fun a => 0 <= a.1 < count /\ time_ok a.2) arrivals -> time_ok tk ->
  (forall j, 0 <= j < count -> j = k \/ j ∈ D \/ j ∈ arrivals.*1) ->
  exists i', deliver c i (map (fun a => (fragment a.1 (part a.1), a.2))
                           (arrivals ++ [(k, tk)]))
  = (replicate (length arrivals) (Ok None) ++ [Ok (Some payload)], i') /\ idle i'.
Proof.
  intros Hi Hp Hk HkD Hka HD Ha Htk. revert i D Hi Hp HkD HD.
  induction arrivals as [|[a t] arrivals IH]; intros i D Hi Hp HkD HD Hall; simpl.
  - destruct (decode_step i D k tk Hi Hp Hk HD Htk)
      as [(_ & i' & -> & Hi' & _)|(Hn & _)]; [by exists i'|].
    destruct Hn. intros j Hj. apply elem_of_cons.
    destruct (Hall j Hj) as [?|[?|[]%not_elem_of_nil]]; auto.
  - simpl in *. apply not_elem_of_cons in Hka as [Hne Hka].
    apply Forall_cons in Ha as [[Hra Hta] Ha]. simpl in *.
    destruct (decode_step i D a t Hi Hp Hra HD Hta)
      as [(Hc & _)|(_ & i1 & -> & Hp1 & Hi1)].
    { exfalso. specialize (Hc k Hk). apply elem_of_cons in Hc. tauto. }
    destruct (IH Hka Ha i1 (a :: D) Hi1 Hp1) as (i' & Hd & Hi').
    + rewrite not_elem_of_cons. tauto.
    + by constructor.
    + intros j Hj. rewrite elem_of_cons. specialize (Hall j Hj).
      rewrite elem_of_cons in Hall. tauto.
    + exists i'. by rewrite Hd.
Qed.

End packet.

Lemma round_size size :
  0 <= size ->
  let r := Z.land size (Z.lnot (Z.shiftl 1 SIZE_ROUND_SHIFT - 1)) in
  r = size / 4 * 4 /\ 0 <= r /\ r mod 4 = 0.
Proof.
  intros Hs r. assert (r = size / 4 * 4) as ->.
  { subst r. change (Z.shiftl 1 SIZE_ROUND_SHIFT - 1) with (Z.ones 2).
    rewrite <- Z.ldiff_land, Z.ldiff_ones_r by lia.
    by rewrite Z.shiftr_div_pow2, Z.shiftl_mul_pow2 by lia. }
  split_and!; [done| |apply Z_mod_mult]. pose proof (Z.div_pos size 4). lia.
Qed.

(** The fragments that [encode] produces for a packet that needs several. *)
Lemma encode_fragments i payload size frags i' :
  0 <= size -> encode i payload size = (Ok frags, i') ->
  let r := size / 4 * 4 in
  0 < r
  /\ ((len payload <= r /\ frags = [frame payload TYPE_WHOLE 0 0 0])
      \/ (r < len payload /\ count payload r <= FRAGMENT_MAX_PARTS
         /\ Z.of_nat (length frags) = count payload r
         /\ forall j, 0 <= Z.of_nat j < count payload r ->
             frags !!! j = fragment payload r (outgoing_sequence i) (Z.of_nat j)
                             (part payload r (Z.of_nat j)))).
Proof.
  intros Hs. unfold encode. destruct (round_size size Hs) as (-> & Hr0 & Hr4).
  set (r := size / 4 * 4) in *. case_decide; [done|].
  case_decide; [intros [= <- <-]; split; [lia|by left]|].
  intros [= He <-]. assert (0 < r) as Hr by lia. split; [done|]. right.
  pose proof (count_bounds payload r Hr) as Hc.
  apply encode_loop_spec in He as (Hn & Hl & Hj); [|lia].
  assert (length (chunks r payload) = Z.to_nat (count payload r)) as Hlen
    by (unfold chunks; by rewrite length_fmap, length_seq).
  assert (chunks r payload <> []) as Hne
    by (intros E; rewrite E in Hlen; simpl in Hlen; lia).
  split_and!; [lia|destruct Hn; [done|lia]|lia|].
  intros j Hjc. apply list_lookup_total_correct. rewrite <- (Z.add_0_l (Z.of_nat j)) at 1.
  apply Hj. unfold chunks, part. rewrite list_lookup_fmap, lookup_seq_lt.
  - simpl. by rewrite Nat2Z.id.
  - fold (count payload r). lia.
Qed.

(** A fragment is its header and a part of the payload. *)
Lemma length_frame p kind s id m : len (frame p kind s id m) = len p + 4.
Proof. unfold frame, len. rewrite length_app, length_to_be_bytes. lia. Qed.

Lemma encode_loop_length size n s id cs frags bound :
  encode_loop size n s id cs = Ok frags -> Forall (fun c => len c <= bound) cs ->
  Forall (fun f => 4 <= len f <= bound + 4) frags.
Proof.
  intros He Hcs. revert id frags He.
  induction Hcs as [|c cs Hc _ IH]; intros id frags He; simpl in He.
  - by apply Ok_inj in He as <-.
  - case_decide; [done|]. apply bind_Ok in He as (fs & Hfs & <-%Ok_inj).
    constructor; [|by eapply IH]. rewrite length_frame. unfold len in *. lia.
Qed.

Lemma encode_length i payload size frags i' :
  encode i payload size = (Ok frags, i') ->
  Forall (fun f => 4 <= len f <= len payload + 4) frags.
Proof.
  unfold encode. repeat case_decide; intros [= He _]; [subst frags|].
  - constructor; [|done]. rewrite length_frame. unfold len in *. lia.
  - eapply encode_loop_length; [done|]. unfold chunks. apply Forall_fmap, Forall_true.
    intros j. unfold compose, chunk, len. rewrite length_take, length_drop. lia.
Qed.

Lemma encode_loop_Err size n s id cs e :
  encode_loop size n s id cs = Err e -> e = TooManyFragments.
Proof.
  revert id. induction cs as [|c cs IH]; intros id; [done|]. simpl.
  case_decide; [by intros <-%Err_inj|].
  destruct (encode_loop size n s (id + 1) cs) eqn:He; simpl; [done|].
  intros <-%Err_inj. by eapply IH.
Qed.

Lemma fragment_encode_Err i payload size e i' :
  encode i payload size = (Err e, i') -> e = PacketSizeTooSmall \/ e = TooManyFragments.
Proof.
  unfold encode. repeat case_decide; intros [= He _]; subst; [by left|right].
  by eapply encode_loop_Err.
Qed.

Lemma encode_count i payload size frags i' :
  0 <= size -> encode i payload size = (Ok frags, i') ->
  Z.of_nat (length frags) <= FRAGMENT_MAX_PARTS.
Proof.
  intros Hs He. apply encode_fragments in He as [_ [[_ ->]|(_ & ? & -> & _)]]; [|done..].
  by vm_compute.
Qed.

(** The fragments of one packet, in any order. *)
Lemma reassemble_fragments (c : FragmentCodec) (sender receiver : FragmentInner)
    (payload : list Z) (size : Z) (frags : list (list Z)) (sender' : FragmentInner)
    (arrivals : list (nat * Z)) (k : nat) (tk t0 : Z) :
  config_ok c -> reassembly_max_packet_bytes c <= reassembly_max_bytes c ->
  is_u8 (outgoing_sequence sender) -> 0 <= size ->
  len payload <= U16_MAX -> len payload <= reassembly_max_packet_bytes c ->
  encode sender payload size = (Ok frags, sender') ->
  incoming receiver = ∅ -> incoming_bytes receiver = 0 ->
  (forall j, j = k \/ j ∈ arrivals.*1 <-> (j < length frags)%nat) ->
  k ∉ arrivals.*1 ->
  Forall (fun t => t0 <= t < t0 + reassembly_timeout c) (tk :: arrivals.*2) ->
  exists receiver',
  deliver c receiver (map (fun a => (frags !!! a.1, a.2)) (arrivals ++ [(k, tk)]))
  = (replicate (length arrivals) (Ok None) ++ [Ok (Some payload)], receiver')
  /\ incoming receiver' = ∅ /\ incoming_bytes receiver' = 0.
Proof.
  intros Hc Ht Hs Hsz Hmax Hpk He Hm Hb Hcover Hk Htimes.
  apply Forall_cons in Htimes as [Htk Htimes].
  destruct (encode_fragments _ _ _ _ _ Hsz He) as [Hr Hcase].
  set (r := size / 4 * 4) in *. destruct Hcase as [[_ ->]|(Hlong & Hn & Hl & Hj)].
  { assert (k = 0%nat) as -> by (specialize (Hcover k); simpl in Hcover; lia).
    destruct arrivals as [|[a t] arrivals].
    - simpl. rewrite decode_whole. by eexists.
    - exfalso. simpl in *. apply not_elem_of_cons in Hk as [Hne _].
      specialize (Hcover a). rewrite elem_of_cons in Hcover. lia. }
  assert (inv c receiver) as Hi.
  { constructor; [by rewrite Hm, Hb|rewrite Hb; apply Hc|].
    intros ? ?. by rewrite Hm, lookup_empty. }
  assert (forall j, (j < length frags)%nat <-> 0 <= Z.of_nat j < count payload r) as Hlt
    by (intros; lia).
  set (arr := map (fun a => (Z.of_nat a.1, a.2)) arrivals).
  assert (arr.*1 = Z.of_nat <$> arrivals.*1) as Hfst
    by (subst arr; clear; induction arrivals; simpl; f_equal; done).
  destruct (deliver_parts payload r (outgoing_sequence sender)
    Hr ltac:(apply Z_mod_mult) Hlong Hmax Hs c t0 Hc Hpk Ht Hn
    arr receiver [] (Z.of_nat k) tk) as (i' & Hd & Hi'); try done.
  - apply Hlt, Hcover. by left.
  - apply not_elem_of_nil.
  - rewrite Hfst. intros (j & <-%Nat2Z.inj & Hin)%list_elem_of_fmap. done.
  - apply Forall_map, Forall_forall. intros [j t] Hin. simpl. split.
    + apply Hlt, Hcover. right. by apply (list_elem_of_fmap_2 fst) in Hin.
    + rewrite Forall_forall in Htimes. apply Htimes.
      by apply (list_elem_of_fmap_2 snd) in Hin.
  - intros j Hjr. replace j with (Z.of_nat (Z.to_nat j)) in * by lia.
    apply Hlt, Hcover in Hjr as [<-|Hin]; [by left|]. right. right.
    rewrite Hfst. by apply list_elem_of_fmap_2.
  - exists i'. destruct Hi' as [? ?]. split; [|done].
    subst arr. rewrite length_map in Hd. rewrite <- Hd. f_equal.
    rewrite !map_app, map_map. simpl. f_equal.
    + apply map_ext_in. intros [j t] Hin%list_elem_of_In. simpl. f_equal.
      apply Hj, Hlt, Hcover. right. by apply (list_elem_of_fmap_2 fst) in Hin.
    + do 2 f_equal. apply Hj, Hlt, Hcover. by left.
Qed.

(** C8: fragmentation is transparent: whatever [encode] produces for a packet
    of at most 65535 bytes, a receiver with no partial packet that gets the
    fragments in any order, with repetitions, within the reassembly timeout,
    returns nothing until the last missing one and then exactly the packet,
    and is left with no partial packet again. *)
Theorem reassemble_any_order (c : FragmentCodec) (sender receiver : FragmentInner)
    (payload : list Z) (size : Z) (frags : list (list Z)) (sender' : FragmentInner)
    (arrivals : list (nat * Z)) (k : nat) (tk t0 : Z) :
  config_ok c -> reassembly_max_packet_bytes c <= reassembly_max_bytes c ->
  is_u8 (outgoing_sequence sender) -> 0 <= size ->
  len payload <= U16_MAX -> len payload <= reassembly_max_packet_bytes c ->
  encode sender payload size = (Ok frags, sender') ->
  incoming receiver = ∅ -> incoming_bytes receiver = 0 ->
  (forall j, j = k \/ j ∈ arrivals.*1 <-> (j < length frags)%nat) ->
  k ∉ arrivals.*1 ->
  Forall (fun t => t0 <= t < t0 + reassembly_timeout c) (tk :: arrivals.*2) ->
  exists receiver',
  deliver c receiver (map (fun a => (frags !!! a.1, a.2)) (arrivals ++ [(k, tk)]))
  = (replicate (length arrivals) (Ok None) ++ [Ok (Some payload)], receiver')
  /\ incoming receiver' = ∅ /\ incoming_bytes receiver' = 0.
Proof.
  apply reassemble_fragments.
Qed.

(** In the order they were sent, with no repetition. *)
Lemma deliver_encoded (c : FragmentCodec) (sender receiver : FragmentInner)
    (payload : list Z) (size : Z) (frags : list (list Z)) (sender' : FragmentInner)
    (times : list Z) (t0 : Z) :
  config_ok c -> reassembly_max_packet_bytes c <= reassembly_max_bytes c ->
  is_u8 (outgoing_sequence sender) -> 0 <= size ->
  len payload <= U16_MAX -> len payload <= reassembly_max_packet_bytes c ->
  encode sender payload size = (Ok frags, sender') ->
  incoming receiver = ∅ -> incoming_bytes receiver = 0 ->
  length times = length frags ->
  Forall (fun t => t0 <= t < t0 + reassembly_timeout c) times ->
  exists receiver' n, length frags = S n
  /\ deliver c receiver (zip frags times)
     = (replicate n (Ok None) ++ [Ok (Some payload)], receiver')
  /\ incoming receiver' = ∅ /\ incoming_bytes receiver' = 0.
Proof.
  intros Hc Ht Hs Hsz Hmax Hpk He Hm Hb Hlen Htimes.
  destruct (encode_fragments _ _ _ _ _ Hsz He) as [Hr Hcase].
  assert (exists n, length frags = S n) as [n Hn].
  { assert (frags <> []); [|destruct frags; [done|by eexists]].
    destruct Hcase as [[_ ->]|(? & _ & Hl & _)]; [done|]. intros ->. simpl in Hl.
    pose proof (count_bounds payload (size / 4 * 4) Hr). lia. }
  set (L := zip (seq 0 (length frags)) times).
  assert (L.*1 = seq 0 n ++ [n]) as Hfst.
  { subst L. rewrite fst_zip by (rewrite length_seq; lia). by rewrite Hn, seq_S. }
  assert (L.*2 = times) as Hsnd
    by (subst L; rewrite snd_zip by (rewrite length_seq; lia); done).
  destruct (exists_last (l := L)) as (arrivals & [k tk] & HL);
    [intros E; rewrite E in Hfst; by destruct n|].
  rewrite HL, fmap_app in Hfst. rewrite HL, fmap_app in Hsnd. simpl in Hfst, Hsnd.
  apply app_inj_tail in Hfst as [Hfst ->].
  destruct (reassemble_fragments c sender receiver payload size frags sender'
    arrivals n tk t0) as (receiver' & Hd & Hrest); try done.
  - intros j. rewrite Hfst, elem_of_seq. lia.
  - rewrite Hfst, elem_of_seq. lia.
  - rewrite <- Hsnd, Forall_app, Forall_singleton in Htimes. constructor; apply Htimes.
  - exists receiver', n. split; [done|]. split; [|done].
    assert (length arrivals = n) as <-
      by (by rewrite <- (length_fmap fst), Hfst, length_seq).
    rewrite <- Hd. f_equal. rewrite <- HL. apply list_eq. intros j.
    subst L. rewrite list_lookup_fmap.
    change (zip ?a ?b) with (zip_with pair a b). rewrite !lookup_zip_with.
    destruct (decide (j < length frags)%nat) as [Hj|Hj].
    + rewrite lookup_seq_lt by done. destruct (lookup_lt_is_Some_2 _ _ Hj) as [f Hf].
      rewrite Hf. simpl. destruct (times !! j); simpl; [|done].
      by rewrite (list_lookup_total_correct _ _ _ Hf).
    + rewrite !(lookup_ge_None_2 (A:=_)) by (rewrite ?length_seq; lia). done.
Qed.

End codec.

(** Two fragments of six bytes in a codec that may hold eight: the second
    packet evicts the first. *)
Lemma reassembly_memory_bounded_witness :
  let c := with_limits (from_secs 30) 8 8 in
  let i := (deliver map_to_list c (inner c)
              [(frame [1; 2; 3; 4; 5; 6] TYPE_PARTIAL 0 0 0, 0);
               (frame [7; 8; 9; 10; 11; 12] TYPE_PARTIAL 1 0 0, 1)]).2 in
  incoming_bytes i = 6
  /\ incoming_bytes i = map_sum (fun b => map_sum len (parts b)) (incoming i)
  /\ incoming_bytes i <= 8
  /\ (forall s b, incoming i !! s = Some b -> map_sum len (parts b) <= 8).
Proof.
  intros c i. split; [vm_compute; reflexivity|].
  apply (reassembly_memory_bounded map_to_list (fun m => reflexivity _)
           (from_secs 30) 8 8); ilia.
Defined.

(** Ten bytes in fragments of four, arriving as 2, 0, 2, 1. *)
Lemma reassemble_any_order_witness :
  let payload := [1; 2; 3; 4; 5; 6; 7; 8; 9; 10] in
  let frags := match (encode default_inner payload 5).1 with
               | Ok frags => frags
               | Err _ => []
               end in
  length frags = 3%nat
  /\ exists receiver',
     deliver map_to_list new default_inner
       (map (fun a => (frags !!! a.1, a.2)) ([(2%nat, 1); (0%nat, 2); (2%nat, 3)] ++ [(1%nat, 4)]))
     = (replicate 3 (Ok None) ++ [Ok (Some payload)], receiver')
     /\ incoming receiver' = ∅ /\ incoming_bytes receiver' = 0.
Proof.
  intros payload frags. split; [vm_compute; reflexivity|].
  apply (reassemble_any_order map_to_list (fun m => reflexivity _) new
           default_inner default_inner payload 5 frags
           (mkInner 1 None ∅ 0) [(2%nat, 1); (0%nat, 2); (2%nat, 3)] 1 4 0).
  - split_and!; vm_compute; discriminate.
  - vm_compute. discriminate.
  - vm_compute. split; discriminate.
  - lia.
  - vm_compute. discriminate.
  - vm_compute. discriminate.
  - vm_compute. reflexivity.
  - reflexivity.
  - reflexivity.
  - assert (length frags = 3%nat) as -> by (vm_compute; reflexivity).
    intros j. simpl. rewrite !elem_of_cons, elem_of_nil. lia.
  - simpl. rewrite !elem_of_cons, elem_of_nil. lia.
  - simpl. unfold FRAGMENT_REASSEMBLY_TIMEOUT, from_secs, NANOS_PER_SEC.
    repeat constructor; lia.
Defined.

End Fragment.
