(* ===== verification/OvpnCompression.v ===== *)
(** * Compression framing of the data channel ([protocol/openvpn/compression.rs])

    The [lzo1x] and [lz4_flex] crates are the class [Compressors].  The mutexes
    of a [DataChannelFraming] are explicit state; [now] is the instant a call
    reads from the clock.  [usize] arithmetic is that of a release build, which
    wraps. *)

From stdpp Require Import base numbers list gmap strings.
From Stdlib Require Import ZArith Lia.
From S2P Require Import Prelude OvpnText OvpnFragment.

Local Open Scope Z_scope.

Definition OPENVPN_LZO_COMPRESS_BYTE : Z := 102.
Definition OPENVPN_LZ4_COMPRESS_BYTE : Z := 105.
Definition OPENVPN_NO_COMPRESS_BYTE : Z := 250.
Definition OPENVPN_NO_COMPRESS_BYTE_SWAP : Z := 251.
Definition OPENVPN_COMPRESS_V2_INDICATOR_BYTE : Z := 80.
Definition OPENVPN_COMPRESS_V2_SUBTYPE_NONE : Z := 0.
Definition OPENVPN_COMPRESS_V2_SUBTYPE_LZ4 : Z := 1.
Definition OPENVPN_MAX_DECOMPRESSED_SIZE : Z := Z.shiftl 1 16.
Definition OPENVPN_COMPRESSION_THRESHOLD : Z := 100.
Definition LZO_ADAPTIVE_SAMPLE_DURATION : Z := from_secs 2.
Definition LZO_ADAPTIVE_OFF_DURATION : Z := from_secs 60.
Definition LZO_ADAPTIVE_MINIMUM_BYTES : Z := 1000.
Definition LZO_ADAPTIVE_SAVE_PERCENT : Z := 5.

Inductive CompressionAlgorithm : Type :=
| AlgNone
| Stub
| Lzo
| Lz4
| StubV2
| Lz4V2.

Global Instance CompressionAlgorithm_eq_dec : EqDecision CompressionAlgorithm.
Proof. solve_decision. Defined.

Inductive AllowCompressionPolicy : Type :=
| StubOnly
| Asymmetric
| Yes.

Global Instance AllowCompressionPolicy_eq_dec : EqDecision AllowCompressionPolicy.
Proof. solve_decision. Defined.

Inductive CompressionDirective : Type :=
| Compress (value : string)
| CompLzo (value : string).

Inductive CompressionError : Type :=
| Unsupported (value : string)
| InvalidAllowPolicy
| AllowPolicyConflict
| MissingMarker
| InvalidMarker
| TruncatedFrame
| InvalidV2Subtype (subtype : Z)
| CompressedV2NotSupported
| DecompressionFailed
| FragmentFailure (e : FragmentError).

(** [lzo1x::compress], [lzo1x::decompress] with its bound, and
    [lz4_flex::block::decompress_into] a buffer of the given size. *)
Class Compressors : Type := {
  lzo_compress : list Z -> list Z;
  lzo_decompress : list Z -> Z -> option (list Z);
  lz4_decompress_into : list Z -> Z -> option (list Z);
}.

Class CompressorLaws `{Compressors} : Prop := {
  lzo_inverse p max :
    Z.of_nat (length p) <= max -> lzo_decompress (lzo_compress p) max = Some p;
  lzo_bound c max p :
    lzo_decompress c max = Some p -> Z.of_nat (length p) <= max;
  lz4_bound c max p :
    lz4_decompress_into c max = Some p -> Z.of_nat (length p) <= max;
}.

Module Compression.
Import Fragment.

(** ** Settings *)

Record CompressionSettings : Type := mkSettings {
  algorithm : CompressionAlgorithm;
  swap : bool;
  adaptive : bool;
  asymmetric : bool;
}.

Definition default_settings : CompressionSettings :=
  mkSettings AlgNone false false false.

Definition one_of (value : string) (names : list string) : bool :=
  bool_decide (value ∈ names).

Definition apply (s : CompressionSettings) (directive : CompressionDirective) :
    result CompressionError CompressionSettings :=
  match directive with
  | Compress value =>
      let value := Text.trim value in
      if one_of value [EmptyString; "stub"%string] then
        Ok (mkSettings Stub true (adaptive s) (asymmetric s))
      else if one_of value ["stub-v2"%string] then
        Ok (mkSettings StubV2 (swap s) (adaptive s) (asymmetric s))
      else if one_of value ["lzo"%string] then
        Ok (mkSettings Lzo false false (asymmetric s))
      else if one_of value ["lz4"%string] then
        Ok (mkSettings Lz4 true (adaptive s) (asymmetric s))
      else if one_of value ["lz4-v2"%string] then
        Ok (mkSettings Lz4V2 (swap s) (adaptive s) (asymmetric s))
      else if one_of value ["migrate"; "none"; "no"; "disabled"; "off"]%string then
        Ok default_settings
      else Err (Unsupported value)
  | CompLzo value =>
      let value := Text.trim value in
      if one_of value [EmptyString; "adaptive"%string] then
        Ok (mkSettings Lzo false true false)
      else if one_of value ["yes"%string] then Ok (mkSettings Lzo false false false)
      else if one_of value ["asym"%string] then Ok (mkSettings Lzo false false true)
      else if one_of value ["no"%string] then
        Ok (mkSettings Stub false false (asymmetric s))
      else if one_of value ["none"; "disabled"; "off"]%string then
        Ok default_settings
      else Err (Unsupported value)
  end.

Definition framing_enabled (s : CompressionSettings) : bool :=
  bool_decide (algorithm s <> AlgNone).

Definition non_stub_enabled (s : CompressionSettings) : bool :=
  match algorithm s with Lzo | Lz4 | Lz4V2 => true | _ => false end.

Definition framing_overhead (s : CompressionSettings) : Z :=
  match algorithm s with Stub | Lzo | Lz4 => 1 | _ => 0 end.

Definition compresses_outbound (s : CompressionSettings)
    (policy : AllowCompressionPolicy) : bool :=
  bool_decide (algorithm s = Lzo) && negb (asymmetric s)
  && bool_decide (policy = Yes).

Definition resolve_compression_settings (compression compression_lzo : string) :
    result CompressionError CompressionSettings :=
  settings ←
    (if decide (Text.trim compression <> EmptyString)
     then apply default_settings (Compress compression)
     else Ok default_settings);
  if decide (Text.trim compression_lzo <> EmptyString)
  then apply settings (CompLzo compression_lzo)
  else Ok settings.

Definition resolve_allow_compression_policy (value : string)
    (s : CompressionSettings) : result CompressionError AllowCompressionPolicy :=
  if decide (value = EmptyString) then
    Ok (if non_stub_enabled s then Asymmetric else StubOnly)
  else
    policy ←
      (if decide (value = "no"%string) then Ok StubOnly
       else if decide (value = "asym"%string) then Ok Asymmetric
       else if decide (value = "yes"%string) then Ok Yes
       else Err InvalidAllowPolicy);
    if decide (policy = StubOnly /\ non_stub_enabled s = true)
    then Err AllowPolicyConflict
    else Ok policy.

(** ** Frames *)

Definition prepend (marker : Z) (payload : list Z) : list Z := marker :: payload.

Definition apply_stub_compression_frame (payload : list Z) (swap : bool) :
    list Z :=
  if negb swap then prepend OPENVPN_NO_COMPRESS_BYTE payload
  else
    match payload with
    | [] => [OPENVPN_NO_COMPRESS_BYTE_SWAP]
    | first :: rest => OPENVPN_NO_COMPRESS_BYTE_SWAP :: rest ++ [first]
    end.

(** The last byte of a frame, then the bytes between it and the marker. *)
Definition unswap_v1_frame_head (framed : list Z) : list Z :=
  if decide (length framed <= 1)%nat then []
  else
    match last framed with
    | Some final => final :: removelast (tail framed)
    | None => []
    end.

Definition unframe_stub_compression (framed : list Z) (swap : bool) :
    result CompressionError (list Z) :=
  match framed with
  | [] => Err MissingMarker
  | marker :: rest =>
      let expected :=
        if swap then OPENVPN_NO_COMPRESS_BYTE_SWAP else OPENVPN_NO_COMPRESS_BYTE in
      if decide (marker <> expected) then Err InvalidMarker
      else Ok (if swap then unswap_v1_frame_head framed else rest)
  end.

Definition escape_v2_stub_compression (payload : list Z) : list Z :=
  if decide (head payload <> Some OPENVPN_COMPRESS_V2_INDICATOR_BYTE)
  then payload
  else [OPENVPN_COMPRESS_V2_INDICATOR_BYTE; OPENVPN_COMPRESS_V2_SUBTYPE_NONE]
         ++ payload.

Section Framing.
Context `{Compressors}.
Context (iter : gmap Z IncomingBuffer -> list (Z * IncomingBuffer)).

Definition decompress_lz4 (block : list Z) : result CompressionError (list Z) :=
  match block with
  | [] => Err DecompressionFailed
  | _ =>
      match lz4_decompress_into block OPENVPN_MAX_DECOMPRESSED_SIZE with
      | Some [] | None => Err DecompressionFailed
      | Some output => Ok output
      end
  end.

Definition decode_lzo_frame (framed : list Z) : result CompressionError (list Z) :=
  match framed with
  | [] => Err MissingMarker
  | marker :: rest =>
      if decide (marker = OPENVPN_NO_COMPRESS_BYTE) then Ok rest
      else if decide (marker = OPENVPN_LZO_COMPRESS_BYTE) then
        ok_or DecompressionFailed (lzo_decompress rest OPENVPN_MAX_DECOMPRESSED_SIZE)
      else Err InvalidMarker
  end.

Definition decode_lz4_v1_frame (framed : list Z) :
    result CompressionError (list Z) :=
  match framed with
  | [] => Err MissingMarker
  | marker :: rest =>
      if decide (marker = OPENVPN_NO_COMPRESS_BYTE_SWAP) then
        Ok (unswap_v1_frame_head framed)
      else if decide (marker = OPENVPN_LZ4_COMPRESS_BYTE) then
        match last rest with
        | None => Err TruncatedFrame
        | Some final => decompress_lz4 (final :: removelast rest)
        end
      else Err InvalidMarker
  end.

Definition unwrap_v2_compression (payload : list Z)
    (algorithm : CompressionAlgorithm) : result CompressionError (list Z) :=
  if decide (head payload <> Some OPENVPN_COMPRESS_V2_INDICATOR_BYTE)
  then Ok payload
  else
    match payload with
    | _ :: subtype :: rest =>
        if decide (subtype = OPENVPN_COMPRESS_V2_SUBTYPE_NONE) then Ok rest
        else if decide (subtype = OPENVPN_COMPRESS_V2_SUBTYPE_LZ4) then
          if decide (algorithm = Lz4V2) then decompress_lz4 rest
          else Err CompressedV2NotSupported
        else Err (InvalidV2Subtype subtype)
    | _ => Err TruncatedFrame
    end.

(** ** The framing of a session *)

Record AdaptiveState : Type := mkAdaptive {
  disabled : bool;
  next : option Z;
  total_bytes : Z;
  compressed_bytes : Z;
}.

Definition default_adaptive : AdaptiveState := mkAdaptive false None 0 0.

Record DataChannelFraming : Type := mkFraming {
  compression : CompressionSettings;
  compress_outbound : bool;
  fragment_enabled : bool;
  fragments : FragmentCodec;
  adaptive_state : AdaptiveState;
}.

Definition set_adaptive (d : DataChannelFraming) (a : AdaptiveState) :
    DataChannelFraming :=
  mkFraming (compression d) (compress_outbound d) (fragment_enabled d)
    (fragments d) a.

Definition set_fragments (d : DataChannelFraming) (i : FragmentInner) :
    DataChannelFraming :=
  mkFraming (compression d) (compress_outbound d) (fragment_enabled d)
    (set_inner (fragments d) i) (adaptive_state d).

Definition new (s : CompressionSettings) (fragment : Z)
    (allow_compression : AllowCompressionPolicy) : option DataChannelFraming :=
  if framing_enabled s || bool_decide (0 < fragment) then
    Some (mkFraming s (compresses_outbound s allow_compression)
            (bool_decide (0 < fragment)) Fragment.new default_adaptive)
  else None.

Definition clone (d : DataChannelFraming) : DataChannelFraming :=
  mkFraming (compression d) (compress_outbound d) (fragment_enabled d)
    Fragment.new default_adaptive.

Definition payload_overhead (d : DataChannelFraming) : Z :=
  framing_overhead (compression d) + (if fragment_enabled d then 4 else 0).

(** One look at the clock of the adaptive compressor. *)
Definition adapt (a : AdaptiveState) (now : Z) : AdaptiveState :=
  if match next a with Some n => bool_decide (n <= now) | None => true end then
    if disabled a then
      mkAdaptive false (Some (now + LZO_ADAPTIVE_SAMPLE_DURATION)) 0 0
    else if decide (LZO_ADAPTIVE_MINIMUM_BYTES < total_bytes a
                    /\ wrap64 (total_bytes a - compressed_bytes a)
                       < total_bytes a / (100 / LZO_ADAPTIVE_SAVE_PERCENT))
    then mkAdaptive true (Some (now + LZO_ADAPTIVE_OFF_DURATION)) 0 0
    else mkAdaptive false (Some (now + LZO_ADAPTIVE_SAMPLE_DURATION)) 0 0
  else a.

Definition lzo_compression_enabled (d : DataChannelFraming) (now : Z) :
    bool * DataChannelFraming :=
  if negb (adaptive (compression d)) then (true, d)
  else
    let a := adapt (adaptive_state d) now in
    (negb (disabled a), set_adaptive d a).

Definition encode_lzo_frame (d : DataChannelFraming) (payload : list Z)
    (now : Z) : list Z * DataChannelFraming :=
  if negb (compress_outbound d)
     || bool_decide (len payload < OPENVPN_COMPRESSION_THRESHOLD)
  then (prepend OPENVPN_NO_COMPRESS_BYTE payload, d)
  else
    let '(enabled, d) := lzo_compression_enabled d now in
    if negb enabled then (prepend OPENVPN_NO_COMPRESS_BYTE payload, d)
    else
      let compressed := lzo_compress payload in
      let d :=
        if adaptive (compression d) then
          let a := adaptive_state d in
          set_adaptive d
            (mkAdaptive (disabled a) (next a)
               (wrap64 (total_bytes a + len payload))
               (wrap64 (compressed_bytes a + len compressed)))
        else d in
      if decide (len payload <= len compressed)
      then (prepend OPENVPN_NO_COMPRESS_BYTE payload, d)
      else (prepend OPENVPN_LZO_COMPRESS_BYTE compressed, d).

(** The compression step of [encode]. *)
Definition encode_frame (d : DataChannelFraming) (payload : list Z) (now : Z) :
    list Z * DataChannelFraming :=
  match algorithm (compression d) with
  | AlgNone => (payload, d)
  | Stub => (apply_stub_compression_frame payload (swap (compression d)), d)
  | Lz4 => (apply_stub_compression_frame payload true, d)
  | Lzo => encode_lzo_frame d payload now
  | StubV2 | Lz4V2 => (escape_v2_stub_compression payload, d)
  end.

Definition encode (d : DataChannelFraming) (payload : list Z)
    (fragment_size now : Z) :
    result CompressionError (list (list Z)) * DataChannelFraming :=
  let '(framed, d) := encode_frame d payload now in
  if fragment_enabled d then
    let '(r, i) := Fragment.encode (inner (fragments d)) framed fragment_size in
    (map_err FragmentFailure r, set_fragments d i)
  else (Ok [framed], d).

(** The decompression step of [decode]. *)
Definition decode_frame (d : DataChannelFraming) (framed : list Z) :
    result CompressionError (list Z) :=
  match algorithm (compression d) with
  | AlgNone => Ok framed
  | Stub => unframe_stub_compression framed (swap (compression d))
  | Lzo => decode_lzo_frame framed
  | Lz4 => decode_lz4_v1_frame framed
  | StubV2 | Lz4V2 => unwrap_v2_compression framed (algorithm (compression d))
  end.

Definition decode (d : DataChannelFraming) (payload : list Z) (now : Z) :
    result CompressionError (option (list Z)) * DataChannelFraming :=
  if fragment_enabled d then
    let '(r, i) := decode_at iter (fragments d) (inner (fragments d)) payload now in
    let d := set_fragments d i in
    match r with
    | Err e => (Err (FragmentFailure e), d)
    | Ok None => (Ok None, d)
    | Ok (Some framed) => (Some <$> decode_frame d framed, d)
    end
  else (Some <$> decode_frame d payload, d).

(** A sequence of datagrams with their arrival times. *)
Fixpoint decode_all (d : DataChannelFraming) (datagrams : list (list Z * Z)) :
    list (result CompressionError (option (list Z))) * DataChannelFraming :=
  match datagrams with
  | [] => ([], d)
  | (payload, now) :: datagrams =>
      let '(r, d) := decode d payload now in
      let '(rs, d) := decode_all d datagrams in
      (r :: rs, d)
  end.

(** ** One frame *)

Lemma stub_round_trip payload swap :
  unframe_stub_compression (apply_stub_compression_frame payload swap) swap
  = Ok payload.
Proof.
  destruct swap; [|done]. destruct payload as [|first rest]; [done|].
  unfold unframe_stub_compression, apply_stub_compression_frame. cbn [negb].
  rewrite decide_False by congruence. f_equal. unfold unswap_v1_frame_head.
  rewrite decide_False by (simpl; rewrite length_app; simpl; lia).
  rewrite app_comm_cons, last_snoc. cbn [tail app]. by rewrite removelast_last.
Qed.

Lemma v2_round_trip payload a :
  unwrap_v2_compression (escape_v2_stub_compression payload) a = Ok payload.
Proof.
  unfold escape_v2_stub_compression, unwrap_v2_compression.
  destruct (decide (head payload <> _)) as [Hh|Hh]; [by rewrite ?decide_True|].
  rewrite decide_False by (simpl; congruence). done.
Qed.

Lemma lz4_round_trip payload :
  decode_lz4_v1_frame (apply_stub_compression_frame payload true) = Ok payload.
Proof.
  pose proof (stub_round_trip payload true) as Hr.
  unfold unframe_stub_compression, decode_lz4_v1_frame in *.
  destruct payload; cbn [apply_stub_compression_frame negb] in *;
    rewrite decide_False in Hr by congruence; by rewrite decide_True.
Qed.

(** The two ways [encode_lzo_frame] ends, and what it leaves alone. *)
Lemma encode_lzo_frame_cases d payload now :
  let '(framed, d') := encode_lzo_frame d payload now in
  (framed = prepend OPENVPN_NO_COMPRESS_BYTE payload
   \/ (compress_outbound d = true
       /\ framed = prepend OPENVPN_LZO_COMPRESS_BYTE (lzo_compress payload)
       /\ len (lzo_compress payload) < len payload))
  /\ exists a, d' = set_adaptive d a.
Proof.
  assert (exists a, d = set_adaptive d a) as Hd
    by (exists (adaptive_state d); by destruct d).
  unfold encode_lzo_frame. destruct (compress_outbound d) eqn:Hc; simpl; [|by auto].
  destruct (bool_decide _); [by auto|].
  assert (exists a, (lzo_compression_enabled d now).2 = set_adaptive d a) as [a Ha].
  { unfold lzo_compression_enabled. destruct (negb _); [done|]. by eexists. }
  destruct (lzo_compression_enabled d now) as [b d1]. simpl in Ha. subst d1.
  destruct b; simpl; [|by eauto].
  destruct (decide _); destruct (adaptive (compression d)); split; eauto;
    right; (split_and!; [done|done|lia]).
Qed.

Context {laws : CompressorLaws}.

Lemma frame_round_trip d d' payload now :
  compression d' = compression d -> len payload <= OPENVPN_MAX_DECOMPRESSED_SIZE ->
  decode_frame d' (encode_frame d payload now).1 = Ok payload.
Proof.
  intros Hs Hl. unfold decode_frame, encode_frame. rewrite Hs.
  destruct (algorithm (compression d)); simpl.
  - done.
  - apply stub_round_trip.
  - pose proof (encode_lzo_frame_cases d payload now) as Hc.
    destruct (encode_lzo_frame d payload now) as [framed d1].
    destruct Hc as [[->|(_ & -> & _)] _]; simpl; [done|].
    by rewrite lzo_inverse.
  - apply lz4_round_trip.
  - apply v2_round_trip.
  - apply v2_round_trip.
Qed.

Lemma length_stub payload swap :
  len (apply_stub_compression_frame payload swap) = len payload + 1.
Proof.
  unfold apply_stub_compression_frame, prepend, len.
  destruct swap; simpl; [|lia]. destruct payload; simpl; [done|].
  rewrite length_app. simpl. lia.
Qed.

Lemma encode_frame_bound d payload now :
  len (encode_frame d payload now).1 <= len payload + 2.
Proof using Type.
  unfold encode_frame. destruct (algorithm (compression d)); simpl; rewrite ?length_stub;
    try lia.
  - pose proof (encode_lzo_frame_cases d payload now) as Hc.
    destruct (encode_lzo_frame d payload now) as [framed d1]. unfold len in *.
    destruct Hc as [[->|(_ & -> & ?)] _]; simpl; lia.
  - unfold escape_v2_stub_compression, len. destruct (decide _); simpl; lia.
  - unfold escape_v2_stub_compression, len. destruct (decide _); simpl; lia.
Qed.

Lemma encode_frame_nonempty d payload now :
  payload <> [] -> (encode_frame d payload now).1 <> [].
Proof using Type.
  intros Hp. unfold encode_frame. destruct (algorithm (compression d)); simpl; try done.
  - intros E. pose proof (length_stub payload (swap (compression d))) as Hl.
    rewrite E in Hl. unfold len in Hl. simpl in Hl. lia.
  - pose proof (encode_lzo_frame_cases d payload now) as Hc.
    destruct (encode_lzo_frame d payload now) as [framed d1].
    by destruct Hc as [[->|(_ & -> & _)] _].
  - intros E. pose proof (length_stub payload true) as Hl.
    rewrite E in Hl. unfold len in Hl. simpl in Hl. lia.
  - unfold escape_v2_stub_compression. by destruct (decide _).
  - unfold escape_v2_stub_compression. by destruct (decide _).
Qed.

(** The compression step changes only the state of the adaptive compressor. *)
Lemma encode_frame_state d payload now :
  exists a, (encode_frame d payload now).2 = set_adaptive d a.
Proof using Type.
  assert (exists a, d = set_adaptive d a) as Hd
    by (exists (adaptive_state d); by destruct d).
  unfold encode_frame. destruct (algorithm (compression d)); simpl; try done.
  pose proof (encode_lzo_frame_cases d payload now) as Hc.
  by destruct (encode_lzo_frame d payload now), Hc as [_ ?].
Qed.

(** ** Framing and fragmentation together *)

(** Fragmentation with the default limits, and no packet half received. *)
Definition ready (d : DataChannelFraming) : Prop :=
  reassembly_timeout (fragments d) = FRAGMENT_REASSEMBLY_TIMEOUT
  /\ reassembly_max_bytes (fragments d) = FRAGMENT_REASSEMBLY_MAX_BYTES
  /\ reassembly_max_packet_bytes (fragments d) = FRAGMENT_REASSEMBLY_MAX_PACKET_BYTES
  /\ incoming (inner (fragments d)) = ∅ /\ incoming_bytes (inner (fragments d)) = 0.

Definition sequence_ok (d : DataChannelFraming) : Prop :=
  is_u8 (outgoing_sequence (inner (fragments d))).

Lemma new_ready s fragment policy d :
  new s fragment policy = Some d -> ready d /\ sequence_ok d.
Proof using Type.
  unfold new. destruct (_ || _); [|done]. intros [= <-]. split_and!; try done; ilia.
Qed.

Lemma decode_all_fragments d datagrams :
  fragment_enabled d = true ->
  let '(rs, i) := deliver iter (fragments d) (inner (fragments d)) datagrams in
  decode_all d datagrams
  = (map (fun r => match r with
                   | Err e => Err (FragmentFailure e)
                   | Ok None => Ok None
                   | Ok (Some framed) => Some <$> decode_frame d framed
                   end) rs,
     set_fragments d i).
Proof using Type.
  intros Hf. enough (forall i,
    let '(rs, i') := deliver iter (fragments d) i datagrams in
    decode_all (set_fragments d i) datagrams
    = (map (fun r => match r with
                     | Err e => Err (FragmentFailure e)
                     | Ok None => Ok None
                     | Ok (Some framed) => Some <$> decode_frame d framed
                     end) rs, set_fragments d i')) as Hall.
  { specialize (Hall (inner (fragments d))).
    destruct (deliver _ _ _ _) as [rs i]. rewrite <- Hall.
    by destruct d as [? ? ? [] ?]. }
  induction datagrams as [|[p now] l IH]; intros i; [done|]. simpl.
  unfold decode. cbn [fragment_enabled set_fragments fragments inner set_inner].
  rewrite Hf.
  change (decode_at iter (set_inner (fragments d) i) i p now)
    with (decode_at iter (fragments d) i p now).
  destruct (decode_at iter (fragments d) i p now) as [r i1].
  specialize (IH i1). destruct (deliver iter (fragments d) i1 l) as [rs i2].
  change (set_fragments (set_fragments d i) i1) with (set_fragments d i1).
  destruct r as [[framed|]|e]; by rewrite IH.
Qed.

Context (iter_perm : forall m, iter m ≡ₚ map_to_list m).

Lemma framing_encode_keeps d payload size now r d' :
  sequence_ok d -> encode d payload size now = (r, d') ->
  sequence_ok d' /\ compression d' = compression d
  /\ fragment_enabled d' = fragment_enabled d.
Proof using Type.
  unfold sequence_ok, encode. intros Hs.
  destruct (encode_frame_state d payload now) as [a Ha].
  destruct (encode_frame d payload now) as [framed d1]. simpl in Ha. subst d1.
  cbn [fragment_enabled set_adaptive].
  destruct (fragment_enabled d) eqn:Hf; [|by intros [= <- <-]].
  destruct (Fragment.encode _ _ _) as [r0 i] eqn:He. intros [= <- <-].
  split; [|done]. unfold Fragment.encode in He. cbn [fragments set_adaptive] in He.
  cbn [set_fragments fragments inner set_inner].
  repeat case_decide; injection He as _ <-; simpl; try done.
  unfold wrap8.
  pose proof (Z.mod_pos_bound (outgoing_sequence (inner (fragments d)) + 1) (2 ^ 8)).
  change (2 ^ 8) with 256 in *. ilia.
Qed.

(** A payload and its frames, delivered in order. *)
Lemma encode_lengths d payload size now frames d' :
  payload <> [] -> encode d payload size now = (Ok frames, d') ->
  Forall (fun f => f <> [] /\ len f <= len payload + 6) frames.
Proof using Type.
  intros Hp. unfold encode. pose proof (encode_frame_bound d payload now) as Hb.
  pose proof (encode_frame_nonempty d payload now Hp) as Hne.
  destruct (encode_frame d payload now) as [framed d1]. simpl in *.
  destruct (fragment_enabled d1).
  - destruct (Fragment.encode _ _ _) as [[frags|e] i] eqn:He; intros [= <- _].
    eapply Forall_impl; [eapply encode_length; exact He|].
    intros f Hf. simpl in Hf. unfold len in *. split; [intros ->; simpl in Hf; lia|lia].
  - intros [= <- _]. constructor; [|done]. split; [done|lia].
Qed.

(** At most the fragments of one packet, and only fragmentation fails. *)
Lemma encode_outcome d payload size now r d' :
  0 <= size -> encode d payload size now = (r, d') ->
  match r with
  | Ok frames => Z.of_nat (length frames) <= FRAGMENT_MAX_PARTS
  | Err e => fragment_enabled d = true
      /\ e ∈ [FragmentFailure PacketSizeTooSmall; FragmentFailure TooManyFragments]
  end.
Proof using Type.
  intros Hsz. unfold encode. destruct (encode_frame_state d payload now) as [a Ha].
  destruct (encode_frame d payload now) as [framed d1]. simpl in Ha. subst d1.
  cbn [fragment_enabled set_adaptive]. destruct (fragment_enabled d).
  - destruct (Fragment.encode _ _ _) as [[frags|e] i] eqn:He; intros [= <- _].
    + by eapply encode_count.
    + split; [done|]. apply fragment_encode_Err in He as [-> | ->]; repeat constructor.
  - intros [= <- _]. by vm_compute.
Qed.

Lemma decode_all_encoded sender receiver payload size now frames sender' times t0 :
  sequence_ok sender -> ready receiver ->
  compression receiver = compression sender ->
  fragment_enabled receiver = fragment_enabled sender ->
  0 <= size -> len payload + 2 <= U16_MAX ->
  encode sender payload size now = (Ok frames, sender') ->
  length times = length frames ->
  Forall (fun t => t0 <= t < t0 + FRAGMENT_REASSEMBLY_TIMEOUT) times ->
  exists receiver' n, length frames = S n
  /\ decode_all receiver (zip frames times)
     = (replicate n (Ok None) ++ [Ok (Some payload)], receiver')
  /\ ready receiver' /\ compression receiver' = compression receiver
  /\ fragment_enabled receiver' = fragment_enabled receiver.
Proof using All.
  intros Hs Hr Hc Hf Hsz Hl He Hlen Ht. unfold encode in He.
  pose proof (encode_frame_bound sender payload now) as Hbound.
  assert (forall d, compression d = compression sender ->
    decode_frame d (encode_frame sender payload now).1 = Ok payload) as Hdec.
  { intros d Hd. apply frame_round_trip; [done|].
    unfold OPENVPN_MAX_DECOMPRESSED_SIZE. change (Z.shiftl 1 16) with 65536. ilia. }
  destruct (encode_frame_state sender payload now) as [a Ha].
  destruct (encode_frame sender payload now) as [framed s1]. simpl in *. subst s1.
  cbn [fragment_enabled set_adaptive fragments] in He.
  destruct (fragment_enabled sender) eqn:Hfs.
  - destruct (Fragment.encode (inner (fragments sender)) framed size) as [[frags|e] i] eqn:Hfe;
      [|done]. injection He as <- <-.
    destruct Hr as (H1 & H2 & H3 & H5 & H6).
    destruct (deliver_encoded iter iter_perm (fragments receiver) (inner (fragments sender))
      (inner (fragments receiver)) framed size frags i times t0)
      as (i' & n & Hn & Hd & Hm & Hb); try done; rewrite ?H1, ?H2, ?H3; try done.
    { unfold config_ok. rewrite H2, H3. vm_compute. split_and!; congruence. }
    { ilia. }
    { unfold FRAGMENT_REASSEMBLY_MAX_PACKET_BYTES. ilia. }
    pose proof (decode_all_fragments receiver (zip frags times)) as Hall.
    rewrite Hd in Hall. exists (set_fragments receiver i'), n.
    rewrite Hall by congruence. split_and!; try done.
    rewrite map_app. change (map ?f (replicate n ?x)) with (f <$> replicate n x).
    rewrite fmap_replicate. simpl. by rewrite (Hdec receiver Hc).
  - injection He as <- <-. destruct times as [|t [|]]; try done.
    exists receiver, 0%nat. simpl. unfold decode. rewrite Hf.
    by rewrite (Hdec receiver Hc).
Qed.

(** ** Policy and bounds *)

(** Unless [allow-compression yes] is configured, and for every framing but
    symmetric LZO, nothing is compressed on the way out: the length of a frame
    is that of the payload and the fixed overhead (the version 2 escape adds
    two bytes to payloads that begin with the indicator), so it tells nothing
    about the contents; and the adaptive state is left alone. *)
Theorem outbound_not_compressed s fragment policy d payload now :
  new s fragment policy = Some d ->
  policy <> Yes \/ asymmetric s = true \/ algorithm s <> Lzo ->
  let '(framed, d') := encode_frame d payload now in
  d' = d
  /\ len framed = len payload + framing_overhead s
       + (match algorithm s with
          | StubV2 | Lz4V2 =>
              if decide (head payload = Some OPENVPN_COMPRESS_V2_INDICATOR_BYTE)
              then 2 else 0
          | _ => 0
          end).
Proof using Type.
  unfold new. destruct (_ || _); [|done]. intros [= <-] Hp.
  assert (compresses_outbound s policy = false) as Hc.
  { unfold compresses_outbound. destruct (bool_decide (algorithm s = Lzo)) eqn:E1,
      (asymmetric s) eqn:E2, (bool_decide (policy = Yes)) eqn:E3; try done.
    apply bool_decide_eq_true in E1, E3. naive_solver. }
  assert (forall p, len (escape_v2_stub_compression p)
    = len p + 0 + (if decide (head p = Some OPENVPN_COMPRESS_V2_INDICATOR_BYTE)
                   then 2 else 0)) as Hv2.
  { intros p. unfold escape_v2_stub_compression, len.
    destruct (decide (head p <> _)), (decide (head p = _)); try done; simpl; lia. }
  unfold encode_frame, encode_lzo_frame. cbn [compression compress_outbound].
  rewrite Hc. unfold framing_overhead.
  destruct (algorithm s); rewrite ?length_stub, ?Hv2; (split; [done|]);
    unfold prepend, len; cbn [length]; lia.
Qed.

Lemma decompress_lz4_bound block p :
  decompress_lz4 block = Ok p -> len p <= OPENVPN_MAX_DECOMPRESSED_SIZE.
Proof using laws.
  unfold decompress_lz4. destruct block; [done|].
  destruct (lz4_decompress_into _ _) as [[]|] eqn:E; intros Hp%Ok_inj || done.
  subst p. by eapply lz4_bound.
Qed.

(** Whatever a peer sends, decompression yields at most 64 KiB, or no more
    than the frame itself when the frame is not compressed. *)
Theorem decode_frame_bounded d framed p :
  decode_frame d framed = Ok p ->
  len p <= Z.max OPENVPN_MAX_DECOMPRESSED_SIZE (len framed).
Proof using laws.
  assert (forall l, len (unswap_v1_frame_head l) <= len l) as Hun.
  { intros l. unfold unswap_v1_frame_head, len. destruct (decide _); [simpl; lia|].
    destruct (last l); [|simpl; lia]. destruct l as [|x l]; [simpl in *; lia|].
    simpl. destruct l as [|y l]; [simpl; lia|]. pose proof (app_removelast_last 0 (l:=y :: l)) as Hr.
    apply (f_equal length) in Hr; [|done]. rewrite length_app in Hr. simpl in Hr |- *. lia. }
  assert (forall a, unwrap_v2_compression framed a = Ok p ->
            len p <= Z.max OPENVPN_MAX_DECOMPRESSED_SIZE (len framed)) as Hv2.
  { intros a. unfold unwrap_v2_compression. destruct (decide _).
    - intros <-%Ok_inj. lia.
    - destruct framed as [|x [|y r]]; [done|done|].
      destruct (decide _); [intros <-%Ok_inj; unfold len; simpl; lia|].
      repeat destruct (decide _); try done. intros ?%decompress_lz4_bound. lia. }
  unfold decode_frame. destruct (algorithm (compression d)).
  - intros <-%Ok_inj. lia.
  - unfold unframe_stub_compression. destruct framed as [|m r]; [done|].
    destruct (decide _); [done|]. intros <-%Ok_inj. specialize (Hun (m :: r)).
    destruct (swap _); unfold len in *; simpl in *; lia.
  - unfold decode_lzo_frame. destruct framed as [|m r]; [done|].
    destruct (decide _); [intros <-%Ok_inj; unfold len; simpl; lia|].
    destruct (decide _); [|done]. destruct (lzo_decompress _ _) eqn:E; [|done].
    intros <-%Ok_inj. apply lzo_bound in E. unfold len. lia.
  - unfold decode_lz4_v1_frame. destruct framed as [|m r]; [done|].
    destruct (decide _); [intros <-%Ok_inj; specialize (Hun (m :: r)); lia|].
    destruct (decide _); [|done]. destruct (last r); [|done].
    intros ?%decompress_lz4_bound. lia.
  - apply Hv2.
  - apply Hv2.
Qed.

(** ** The adaptive compressor *)

(** When a sample of more than 1000 bytes saved less than five per cent,
    compression stops for a minute. *)
Lemma adapt_disables a now :
  disabled a = false -> (forall n, next a = Some n -> n <= now) ->
  LZO_ADAPTIVE_MINIMUM_BYTES < total_bytes a <= U64_MAX ->
  compressed_bytes a <= total_bytes a < compressed_bytes a + total_bytes a / 20 ->
  0 <= compressed_bytes a ->
  adapt a now = mkAdaptive true (Some (now + LZO_ADAPTIVE_OFF_DURATION)) 0 0.
Proof using Type.
  intros Hd Hn Ht Hc H0. unfold adapt. rewrite Hd.
  assert (wrap64 (total_bytes a - compressed_bytes a)
          = total_bytes a - compressed_bytes a) as ->
    by (unfold wrap64; apply Z.mod_small; ilia).
  change (100 / LZO_ADAPTIVE_SAVE_PERCENT) with 20.
  rewrite (decide_True (P := _ /\ _)) by lia.
  destruct (next a) as [n|]; [|done]. by rewrite bool_decide_true by auto.
Qed.

(** When the sample grew under compression, the unsigned difference wraps
    around and compression stays on. *)
Lemma adapt_ignores_expansion a now :
  disabled a = false ->
  0 <= total_bytes a < compressed_bytes a -> compressed_bytes a < 2 ^ 63 ->
  disabled (adapt a now) = false.
Proof using Type.
  intros Hd Ht Hc. unfold adapt. rewrite Hd.
  assert (wrap64 (total_bytes a - compressed_bytes a)
          = 2 ^ 64 + total_bytes a - compressed_bytes a) as ->.
  { unfold wrap64. symmetry. apply (Z.mod_unique _ _ (-1)); lia. }
  change (100 / LZO_ADAPTIVE_SAVE_PERCENT) with 20.
  assert (total_bytes a / 20 <= total_bytes a) by (apply Z.div_le_upper_bound; lia).
  rewrite (decide_False (P := _ /\ _)) by lia.
  by destruct (match next a with Some _ => _ | None => _ end).
Qed.

End Framing.

(** ** Examples

    A compressor that adds one byte, and decoders that take it away. *)
Section examples.

Definition toy_decompress (c : list Z) (max : Z) : option (list Z) :=
  match c with
  | [] => None
  | _ :: p => if decide (Z.of_nat (length p) <= max) then Some p else None
  end.

#[local] Instance toy_compressors : Compressors := {|
  lzo_compress := cons 0;
  lzo_decompress := toy_decompress;
  lz4_decompress_into := toy_decompress;
|}.

#[local] Instance toy_compressor_laws : CompressorLaws.
Proof.
  constructor; simpl; unfold toy_decompress.
  - intros. by rewrite decide_True.
  - intros [|? c]; [done|]. intros max p. destruct (decide _); naive_solver.
  - intros [|? c]; [done|]. intros max p. destruct (decide _); naive_solver.
Qed.

Definition example_settings : CompressionSettings := mkSettings Lzo false true false.

Definition example_framing : DataChannelFraming :=
  mkFraming example_settings false false Fragment.new default_adaptive.

Lemma outbound_not_compressed_witness :
  let '(framed, d') := encode_frame example_framing [7; 7; 7] 0 in
  d' = example_framing /\ len framed = 4.
Proof.
  apply (outbound_not_compressed example_settings 0 Asymmetric example_framing [7; 7; 7] 0).
  - reflexivity.
  - left. discriminate.
Defined.

Lemma decode_frame_bounded_witness :
  decode_frame (mkFraming (mkSettings Lz4 true false false) false false Fragment.new
                  default_adaptive) [105; 1; 2; 0] = Ok [1; 2]
  /\ len [1; 2] <= Z.max OPENVPN_MAX_DECOMPRESSED_SIZE (len [105; 1; 2; 0]).
Proof.
  split; [vm_compute; reflexivity|].
  apply (decode_frame_bounded
    (mkFraming (mkSettings Lz4 true false false) false false Fragment.new default_adaptive)).
  vm_compute. reflexivity.
Defined.

(** Random data, which LZO makes longer: the compressor is never switched off. *)
Lemma adaptive_never_disabled :
  let d := mkFraming (mkSettings Lzo false true false) true false Fragment.new
             default_adaptive in
  let step d now := (encode_lzo_frame d (replicate 1400 7) (from_secs now)).2 in
  let d := foldl step d [0; 1; 2; 3; 4; 5; 6; 7; 8] in
  total_bytes (adaptive_state d) = 1400 /\ compressed_bytes (adaptive_state d) = 1401
  /\ disabled (adaptive_state d) = false.
Proof. vm_compute. done. Qed.

End examples.





End Compression.
