(* ===== verification/OvpnCrypto.v ===== *)
(** * Digests and static keys ([data_crypto.rs], [data.rs], [data_static.rs])

    The cryptographic crates are outside the repository: they are the
    operations of the class [Crypto], and what the code relies on is the class
    [CryptoLaws].  The names of the digests, the layout of the 2048-bit static
    key and the parser of key files are modelled here. *)

From stdpp Require Import base numbers list strings.
From Stdlib Require Import ZArith Lia.
From S2P Require Import Prelude OvpnReplay.

Local Open Scope Z_scope.

Inductive OpenVpnAuthDigest : Type :=
| DigestNone
| Md5
| Sha1
| Sha224
| Sha256
| Sha384
| Sha512
| Ripemd160.

Global Instance OpenVpnAuthDigest_eq_dec : EqDecision OpenVpnAuthDigest.
Proof. solve_decision. Defined.

Inductive OpenVpnDataCodecError : Type :=
| InvalidKeyMaterial
| UnsupportedCipher (name : string)
| UnsupportedAuth (name : string)
| InvalidPacketId
| InvalidAeadPayload
| AeadAuthenticationFailed
| HmacVerificationFailed
| InvalidEncryptedPayload
| InvalidPadding
| RandomFailed
| MissingStaticKey
| InvalidStaticKeyEndMarker
| InvalidStaticKeyLength
| InvalidStaticKeyHex
| ReplayedAeadPacket.

(** ** External primitives *)

(** The [hmac], [ctr]/[aes], [hex] and [pem] crates; [pem_parse] returns the tag
    and the contents of the first block. *)
Class Crypto : Type := {
  hmac : OpenVpnAuthDigest -> list Z -> list Z -> list Z;
  aes256_ctr : list Z -> list Z -> list Z -> list Z;
  hex_decode : list Z -> option (list Z);
  pem_parse : list Z -> option (string * list Z);
}.

Module Digest.

Definition from_name (name : string) :
    result OpenVpnDataCodecError OpenVpnAuthDigest :=
  if decide (name = "NONE"%string) then Ok DigestNone
  else if decide (name = "MD5"%string) then Ok Md5
  else if decide (name = EmptyString \/ name = "SHA1"%string) then Ok Sha1
  else if decide (name = "SHA224"%string) then Ok Sha224
  else if decide (name = "SHA256"%string) then Ok Sha256
  else if decide (name = "SHA384"%string) then Ok Sha384
  else if decide (name = "SHA512"%string) then Ok Sha512
  else if decide (name = "RIPEMD160"%string) then Ok Ripemd160
  else Err (UnsupportedAuth name).

Definition output_size (d : OpenVpnAuthDigest) : nat :=
  match d with
  | DigestNone => 0
  | Md5 => 16
  | Sha1 | Ripemd160 => 20
  | Sha224 => 28
  | Sha256 => 32
  | Sha384 => 48
  | Sha512 => 64
  end.

Section operations.
Context `{Crypto}.

Definition sign (d : OpenVpnAuthDigest) (key payload : list Z) : list Z :=
  match d with
  | DigestNone => []
  | _ => hmac d key payload
  end.

(** [Mac::verify_slice] succeeds exactly on the full tag. *)
Definition verify (d : OpenVpnAuthDigest) (key payload expected : list Z) :
    bool :=
  match d with
  | DigestNone => bool_decide (expected = [])
  | _ => bool_decide (hmac d key payload = expected)
  end.

Lemma verify_sign d key payload : verify d key payload (sign d key payload) = true.
Proof. destruct d; apply bool_decide_true; done. Qed.

Lemma verify_iff d key payload expected :
  verify d key payload expected = true <-> expected = sign d key payload.
Proof. destruct d; simpl; rewrite bool_decide_eq_true; naive_solver. Qed.
End operations.

End Digest.

(** What the code relies on: a tag has the length of its digest, and a
    counter-mode key stream preserves lengths and undoes itself. *)
Class CryptoLaws `{Crypto} : Prop := {
  hmac_length d key payload :
    d <> DigestNone -> length (hmac d key payload) = Digest.output_size d;
  hmac_bytes d key payload : bytes_ok (hmac d key payload);
  aes256_ctr_length key iv input :
    length (aes256_ctr key iv input) = length input;
  aes256_ctr_bytes key iv input :
    bytes_ok input -> bytes_ok (aes256_ctr key iv input);
  aes256_ctr_involutive key iv input :
    aes256_ctr key iv (aes256_ctr key iv input) = input;
}.

Lemma length_sign `{CryptoLaws} d key payload :
  length (Digest.sign d key payload) = Digest.output_size d.
Proof. destruct d; simpl; [done|by apply hmac_length..]. Qed.

(** ** Static keys *)

Module StaticKey.

Definition TLS_KEY_MATERIAL_LENGTH : nat := 256.

Record StaticKeySlot : Type := mkSlot {
  cipher_key : list Z;
  hmac_key : list Z;
}.

(** The slice [l[a..b]]. *)
Definition slice (a b : nat) (l : list Z) : list Z :=
  firstn (b - a) (skipn a l).

Definition split_static_key_material (material : list Z) :
    option (StaticKeySlot * StaticKeySlot) :=
  if decide (TLS_KEY_MATERIAL_LENGTH <= length material)%nat then
    Some (mkSlot (slice 0 64 material) (slice 64 128 material),
          mkSlot (slice 128 192 material) (slice 192 256 material))
  else None.

(** [slots[index]]; the indices are 0 and 1. *)
Definition slot (slots : StaticKeySlot * StaticKeySlot) (index : nat) :
    StaticKeySlot :=
  match index with
  | O => slots.1
  | _ => slots.2
  end.

Definition tls_data_key_slots (slots : StaticKeySlot * StaticKeySlot)
    (server : bool) : StaticKeySlot * StaticKeySlot :=
  if server then (slots.2, slots.1) else (slots.1, slots.2).

Definition data_replay_window_parameters (window_size window_time : Z) : Z * Z :=
  (if decide (window_size = 0)
   then ReplayWindow.DEFAULT_REPLAY_WINDOW_SIZE else window_size,
   if decide (window_time = 0)
   then ReplayWindow.DEFAULT_REPLAY_WINDOW_TIME else window_time).

(** The send key of one side is the receive key of the other. *)
Lemma tls_data_key_slots_dual slots :
  let '(send, receive) := tls_data_key_slots slots true in
  tls_data_key_slots slots false = (receive, send).
Proof. done. Qed.

(** [find_bytes]: the first window equal to the needle. *)
Fixpoint find_bytes_from (n : nat) (haystack needle : list Z) (at_ : nat) :
    option nat :=
  match n with
  | O => None
  | S n =>
      if decide (firstn (length needle) haystack = needle) then Some at_
      else find_bytes_from n (tail haystack) needle (S at_)
  end.

Definition find_bytes (haystack needle : list Z) : option nat :=
  find_bytes_from (S (length haystack) - length needle) haystack needle 0.

(** The bytes of an ASCII string. *)
Definition ascii_bytes (s : string) : list Z :=
  (fun c => Z.of_nat (Ascii.nat_of_ascii c)) <$> String.list_ascii_of_string s.

Definition BEGIN : list Z := ascii_bytes "-----BEGIN OpenVPN Static key V1-----".
Definition END : list Z := ascii_bytes "-----END OpenVPN Static key V1-----".

(** [u8::is_ascii_whitespace]: space, tab, line feed, form feed and carriage
    return. *)
Definition is_ascii_whitespace (b : Z) : bool :=
  bool_decide (b = 32 \/ b = 9 \/ b = 10 \/ b = 12 \/ b = 13).

Definition parse_openvpn_static_key `{Crypto} (content : list Z) :
    result OpenVpnDataCodecError (list Z) :=
  if decide (content = []) then Err MissingStaticKey
  else if decide (length content = 256)%nat then Ok content
  else
    encoded ←
      match find_bytes content BEGIN with
      | Some begin =>
          let encoded := skipn (begin + length BEGIN) content in
          end_ ← ok_or InvalidStaticKeyEndMarker (find_bytes encoded END);
          Ok (firstn end_ encoded)
      | None => Ok content
      end;
    let compact := filter (fun b => is_ascii_whitespace b = false) encoded in
    if decide (length compact <> 512)%nat then Err InvalidStaticKeyLength
    else ok_or InvalidStaticKeyHex (hex_decode compact).

Lemma find_bytes_from_spec n h needle at_ k :
  find_bytes_from n h needle at_ = Some k ->
  (at_ <= k)%nat
  /\ firstn (length needle) (skipn (k - at_) h) = needle.
Proof.
  revert h at_. induction n as [|n IH]; intros h at_; simpl; [done|].
  case_decide as Hd.
  - intros [= <-]. by rewrite Nat.sub_diag.
  - intros (Hle & Hf)%IH. split; [lia|].
    replace (k - at_)%nat with (S (k - S at_)) by lia.
    by destruct h; simpl in *; [rewrite drop_nil in Hf|].
Qed.

(** The position [find_bytes] returns is an occurrence of the needle. *)
Lemma find_bytes_Some h needle k :
  find_bytes h needle = Some k ->
  h = firstn k h ++ needle ++ skipn (k + length needle) h.
Proof.
  unfold find_bytes. intros (_ & Hf)%find_bytes_from_spec.
  rewrite Nat.sub_0_r in Hf. rewrite <- drop_drop.
  rewrite <- Hf at 1. by rewrite !take_drop.
Qed.

Lemma split_lengths material a b :
  split_static_key_material material = Some (a, b) ->
  length (cipher_key a) = 64%nat /\ length (hmac_key a) = 64%nat
  /\ length (cipher_key b) = 64%nat /\ length (hmac_key b) = 64%nat.
Proof.
  unfold split_static_key_material, TLS_KEY_MATERIAL_LENGTH, slice.
  case_decide as Hl; [|done]. intros [= <- <-]. simpl.
  rewrite !length_take, !length_drop. lia.
Qed.

End StaticKey.

(** ** An instance of the primitives

    A toy instance: it shows that the laws can be met, and lets examples be
    evaluated.  The tag is a checksum and the key stream a constant. *)

Module ToyCrypto.

Definition checksum (l : list Z) : Z :=
  foldl (fun acc b => (acc * 31 + b) mod 256) 7 l.

Definition toy_hmac (d : OpenVpnAuthDigest) (key payload : list Z) : list Z :=
  replicate (Digest.output_size d) (checksum (key ++ payload)).

Definition toy_ctr (key iv input : list Z) : list Z :=
  Z.lxor (checksum (key ++ iv)) <$> input.

Global Instance toy_crypto : Crypto := {|
  hmac := toy_hmac;
  aes256_ctr := toy_ctr;
  hex_decode := fun _ => None;
  pem_parse := fun _ => None;
|}.

Lemma checksum_u8 l : is_u8 (checksum l).
Proof.
  unfold checksum. assert (is_u8 7) as H by ilia. revert H. generalize 7.
  induction l as [|b l IH]; intros x Hx; simpl; [done|]. apply IH.
  pose proof (Z.mod_pos_bound (x * 31 + b) 256). ilia.
Qed.

Lemma lxor_u8 a b : is_u8 a -> is_u8 b -> is_u8 (Z.lxor a b).
Proof.
  intros Ha Hb. assert (Z.lxor a b = Z.lxor a b mod 2 ^ 8) as ->.
  { apply Z.bits_inj'. intros i Hi. destruct (decide (i < 8)).
    - by rewrite Z.mod_pow2_bits_low.
    - rewrite Z.mod_pow2_bits_high, Z.lxor_spec by lia.
      rewrite !(testbit_above 8) by (change (2 ^ 8) with 256; ilia). done. }
  pose proof (Z.mod_pos_bound (Z.lxor a b) (2 ^ 8)).
  change (2 ^ 8) with 256 in *. ilia.
Qed.

Global Instance toy_laws : CryptoLaws.
Proof.
  constructor; simpl; unfold toy_hmac, toy_ctr.
  - intros. apply length_replicate.
  - intros. apply Forall_replicate, checksum_u8.
  - intros. apply length_fmap.
  - intros key iv input Hin. apply Forall_fmap. eapply Forall_impl; [exact Hin|].
    intros b Hb. simpl. apply lxor_u8; [apply checksum_u8|done].
  - intros. rewrite <- list_fmap_compose. rewrite <- (list_fmap_id input) at 2.
    apply list_fmap_ext. intros _ x _. simpl.
    by rewrite <- Z.lxor_assoc, Z.lxor_nilpotent, Z.lxor_0_l.
Qed.

End ToyCrypto.
