(* ===== verification/OvpnDataCodec.v ===== *)
(** * Data-channel codecs ([data_aead.rs], [data_cbc.rs], [data_stream.rs],
    [data_static.rs], [data_crypto.rs], [data.rs])

    The ciphers are crates outside the repository: they are the class
    [DataCiphers], with the laws [DataCipherLaws].  The trait of the same name
    in the code is the class [OpenVpnDataCodec]; what the data plane relies on
    is the class [DataCodecLaws], which each codec discharges.  The replay
    window that a codec keeps behind a mutex is explicit state; [now] is the
    instant that [accept] reads, [random] is [getrandom::fill]. *)

From stdpp Require Import base numbers list strings.
From Stdlib Require Import ZArith Lia.
From S2P Require Import Prelude OvpnReplay OvpnText OvpnCrypto.

Local Open Scope Z_scope.

Inductive AeadAlgorithm : Type :=
| AeadAes128
| AeadAes192
| AeadAes256
| AeadChaCha20Poly1305.

(** A keyed cipher. *)
Record AeadCipher : Type := mkAead {
  aead_algorithm : AeadAlgorithm;
  aead_key : list Z;
}.

Inductive OpenVpnCbcCipher : Type :=
| CbcNone
| Blowfish
| Des
| TripleDesEde2
| TripleDesEde3
| Cast5
| Aes128
| Aes192
| Aes256
| Aria128
| Aria192
| Aria256
| Camellia128
| Camellia192
| Camellia256
| Seed
| Sm4.

Global Instance OpenVpnCbcCipher_eq_dec : EqDecision OpenVpnCbcCipher.
Proof. solve_decision. Defined.

Inductive OpenVpnStreamMode : Type :=
| Cfb
| Ofb.

(** The operations of the cipher crates.  [cbc_encrypt] and [stream_crypt] give
    [None] when the key or the initialization vector has a wrong length, and so
    does [cbc_decrypt], whose inner [None] is a padding error. *)
Class DataCiphers : Type := {
  aead_encrypt : AeadCipher -> list Z -> list Z -> list Z -> option (list Z);
  aead_decrypt : AeadCipher -> list Z -> list Z -> list Z -> option (list Z);
  cbc_encrypt : OpenVpnCbcCipher -> list Z -> list Z -> list Z -> option (list Z);
  cbc_decrypt : OpenVpnCbcCipher -> list Z -> list Z -> list Z ->
    option (option (list Z));
  stream_crypt : OpenVpnCbcCipher -> OpenVpnStreamMode -> list Z -> list Z ->
    bool -> list Z -> option (list Z);
}.

(** ** The trait *)

Class OpenVpnDataCodec (C : Type) : Type := {
  encoded_length : C -> Z -> Z;
  encode : C -> (nat -> option (list Z)) -> Z -> list Z -> list Z ->
    result OpenVpnDataCodecError (list Z);
  decode : C -> Z -> list Z -> list Z ->
    result OpenVpnDataCodecError (Z * list Z) * C;
}.

Module CbcCipher.

Definition from_name (name : string) :
    result OpenVpnDataCodecError OpenVpnCbcCipher :=
  if decide (name = "NONE"%string) then Ok CbcNone
  else if decide (name = "BF-CBC"%string) then Ok Blowfish
  else if decide (name = "DES-CBC"%string) then Ok Des
  else if decide (name = "DES-EDE-CBC"%string) then Ok TripleDesEde2
  else if decide (name = "DES-EDE3-CBC"%string) then Ok TripleDesEde3
  else if decide (name = "CAST5-CBC"%string) then Ok Cast5
  else if decide (name = "AES-128-CBC"%string) then Ok Aes128
  else if decide (name = "AES-192-CBC"%string) then Ok Aes192
  else if decide (name = "AES-256-CBC"%string) then Ok Aes256
  else if decide (name = "ARIA-128-CBC"%string) then Ok Aria128
  else if decide (name = "ARIA-192-CBC"%string) then Ok Aria192
  else if decide (name = "ARIA-256-CBC"%string) then Ok Aria256
  else if decide (name = "CAMELLIA-128-CBC"%string) then Ok Camellia128
  else if decide (name = "CAMELLIA-192-CBC"%string) then Ok Camellia192
  else if decide (name = "CAMELLIA-256-CBC"%string) then Ok Camellia256
  else if decide (name = "SEED-CBC"%string) then Ok Seed
  else if decide (name = "SM4-CBC"%string) then Ok Sm4
  else Err (UnsupportedCipher name).

Definition key_size (c : OpenVpnCbcCipher) : nat :=
  match c with
  | CbcNone => 0
  | Des => 8
  | Blowfish | TripleDesEde2 | Cast5 => 16
  | Aes128 | Aria128 | Camellia128 | Seed | Sm4 => 16
  | TripleDesEde3 | Aes192 | Aria192 | Camellia192 => 24
  | Aes256 | Aria256 | Camellia256 => 32
  end.

Definition block_size (c : OpenVpnCbcCipher) : nat :=
  match c with
  | CbcNone => 0
  | Blowfish | Des | TripleDesEde2 | TripleDesEde3 | Cast5 => 8
  | _ => 16
  end.

Section operations.
Context `{DataCiphers}.

Definition encrypt (c : OpenVpnCbcCipher) (key_material iv plaintext : list Z) :
    result OpenVpnDataCodecError (list Z) :=
  match c with
  | CbcNone => Ok plaintext
  | _ =>
      ok_or InvalidKeyMaterial
        (cbc_encrypt c (firstn (key_size c) key_material) iv plaintext)
  end.

Definition decrypt (c : OpenVpnCbcCipher) (key_material iv ciphertext : list Z) :
    result OpenVpnDataCodecError (list Z) :=
  match c with
  | CbcNone => Ok ciphertext
  | _ =>
      unpadded ← ok_or InvalidKeyMaterial
        (cbc_decrypt c (firstn (key_size c) key_material) iv ciphertext);
      ok_or InvalidPadding unpadded
  end.

(** The [SEED] branch uses the first 16 bytes, which is its key size. *)
Definition crypt_stream (c : OpenVpnCbcCipher) (mode : OpenVpnStreamMode)
    (key_material iv payload : list Z) (encrypting : bool) :
    result OpenVpnDataCodecError (list Z) :=
  match c with
  | CbcNone => Err (UnsupportedCipher "NONE stream mode")
  | _ =>
      ok_or InvalidKeyMaterial
        (stream_crypt c mode (firstn (key_size c) key_material) iv encrypting payload)
  end.

End operations.

Definition openvpn_stream_cipher_spec (name : string) :
    result OpenVpnDataCodecError (OpenVpnStreamMode * OpenVpnCbcCipher) :=
  '(base, mode) ←
    match Text.strip_suffix name "-CFB" with
    | Some base => Ok (base, Cfb)
    | None =>
        match Text.strip_suffix name "-OFB" with
        | Some base => Ok (base, Ofb)
        | None => Err (UnsupportedCipher name)
        end
    end;
  cipher ← from_name (String.append base "-CBC");
  if decide (cipher = CbcNone) then Err (UnsupportedCipher name)
  else Ok (mode, cipher).

End CbcCipher.

Definition aead_key_size (a : AeadAlgorithm) : nat :=
  match a with
  | AeadAes128 => 16
  | AeadAes192 => 24
  | AeadAes256 | AeadChaCha20Poly1305 => 32
  end.

(** What the code relies on: with keys and initialization vectors of the right
    length the ciphers succeed, their output has the documented length (a
    16-byte tag; PKCS#7 padding to the next block; none), and decryption undoes
    encryption. *)
Class DataCipherLaws `{DataCiphers} : Prop := {
  aead_seals c n a p :
    length (aead_key c) = aead_key_size (aead_algorithm c) ->
    length n = 12%nat -> Z.of_nat (length p) <= U32_MAX ->
    exists ct, aead_encrypt c n a p = Some ct
    /\ length ct = (length p + 16)%nat /\ aead_decrypt c n a ct = Some p;
  cbc_seals c key iv p :
    c <> CbcNone -> length key = CbcCipher.key_size c ->
    length iv = CbcCipher.block_size c ->
    exists ct, cbc_encrypt c key iv p = Some ct
    /\ length ct
       = ((length p / CbcCipher.block_size c + 1) * CbcCipher.block_size c)%nat
    /\ cbc_decrypt c key iv ct = Some (Some p);
  cbc_plain_bytes c key iv ct p :
    bytes_ok ct -> cbc_decrypt c key iv ct = Some (Some p) -> bytes_ok p;
  stream_seals c mode key iv p :
    c <> CbcNone -> length key = CbcCipher.key_size c ->
    length iv = CbcCipher.block_size c ->
    exists ct, stream_crypt c mode key iv true p = Some ct
    /\ length ct = length p /\ stream_crypt c mode key iv false ct = Some p;
}.

(** [getrandom::fill] succeeded. *)
Definition good_random (random : nat -> option (list Z)) : Prop :=
  forall n, exists b, random n = Some b /\ length b = n.

(** What a codec promises.  [opened] is the authenticated decryption, without
    the replay window: the epoch of the packet (zero for the short form), its
    id and its plaintext.  [accepted c acc] says that [c] has accepted the
    packets [acc].  [linked s r n] says that [r] opens what [s] seals and has
    seen no packet of [s] with an id of at least [n]. *)
Class DataCodecLaws (C : Type) `{OpenVpnDataCodec C} : Type := {
  opened : C -> list Z -> list Z -> result OpenVpnDataCodecError (Z * Z * list Z);
  accepted : C -> list (Z * Z) -> Prop;
  linked : C -> C -> Z -> Prop;
  decode_accepts c acc now aad payload :
    accepted c acc -> bytes_ok payload ->
    let '(r, c') := decode c now aad payload in
    (forall aad payload, opened c' aad payload = opened c aad payload)
    /\ match r with
       | Ok (id, p) => exists ts, opened c aad payload = Ok (ts, id, p)
           /\ (ts, id) ∉ acc /\ accepted c' (acc ++ [(ts, id)])
       | Err _ => accepted c' acc
       end;
  decode_encode s r n random id aad p now :
    linked s r n -> good_random random -> 1 <= n <= id -> id <= U32_MAX ->
    p <> [] -> Z.of_nat (length p) <= U32_MAX ->
    exists c r', encode s random id aad p = Ok c
    /\ Z.of_nat (length c) = encoded_length s (Z.of_nat (length p))
    /\ decode r now aad c = (Ok (id, p), r') /\ linked s r' (id + 1);
}.

Module Codec.
Import ReplayWindow StaticKey.

Definition AEAD_TAG_SIZE : nat := 16.
Definition PACKET_ID_SIZE : nat := 4.
Definition AEAD_OVERHEAD : nat := 20.

Section codecs.
Context `{Crypto} `{DataCiphers}.

(** ** AEAD *)

Definition aead_new (name : string) (key_material : list Z) :
    result OpenVpnDataCodecError AeadCipher :=
  if decide (name = "AES-128-GCM"%string)
  then Ok (mkAead AeadAes128 (firstn 16 key_material))
  else if decide (name = "AES-192-GCM"%string)
  then Ok (mkAead AeadAes192 (firstn 24 key_material))
  else if decide (name = "AES-256-GCM"%string)
  then Ok (mkAead AeadAes256 (firstn 32 key_material))
  else if decide (name = "CHACHA20-POLY1305"%string)
  then Ok (mkAead AeadChaCha20Poly1305 (firstn 32 key_material))
  else Err (UnsupportedCipher name).

Record TlsAeadDataCodec : Type := mkTlsAead {
  a_send_cipher : AeadCipher;
  a_send_iv_suffix : list Z;
  a_receive_cipher : AeadCipher;
  a_receive_iv_suffix : list Z;
  a_replay_window : ReplayWindow;
}.

Definition tls_aead_new (key_material : list Z) (server : bool)
    (cipher_name : string) (replay_window_size replay_window_time : Z) :
    result OpenVpnDataCodecError TlsAeadDataCodec :=
  slots ← ok_or InvalidKeyMaterial (split_static_key_material key_material);
  let '(send_slot, receive_slot) := tls_data_key_slots slots server in
  let '(size, time) :=
    data_replay_window_parameters replay_window_size replay_window_time in
  send_cipher ← aead_new cipher_name (cipher_key send_slot);
  receive_cipher ← aead_new cipher_name (cipher_key receive_slot);
  Ok (mkTlsAead send_cipher (firstn 8 (hmac_key send_slot))
        receive_cipher (firstn 8 (hmac_key receive_slot)) (new size time)).

Definition nonce (packet_id : Z) (suffix : list Z) : list Z :=
  to_be_bytes 4 packet_id ++ suffix.

Definition aad (aad_prefix packet_id : list Z) : list Z :=
  aad_prefix ++ packet_id.

Definition aead_encode (c : TlsAeadDataCodec) (packet_id : Z)
    (aad_prefix payload : list Z) : result OpenVpnDataCodecError (list Z) :=
  if decide (packet_id = 0) then Err InvalidPacketId
  else
    let packet_id_bytes := to_be_bytes 4 packet_id in
    ciphertext_and_tag ← ok_or AeadAuthenticationFailed
      (aead_encrypt (a_send_cipher c) (nonce packet_id (a_send_iv_suffix c))
         (aad aad_prefix packet_id_bytes) payload);
    if decide (length ciphertext_and_tag < AEAD_TAG_SIZE)%nat
    then Err InvalidAeadPayload
    else
      let encrypted_length := (length ciphertext_and_tag - AEAD_TAG_SIZE)%nat in
      Ok (packet_id_bytes ++ skipn encrypted_length ciphertext_and_tag
            ++ firstn encrypted_length ciphertext_and_tag).

(** What [decode] does before it asks the replay window. *)
Definition aead_open (c : TlsAeadDataCodec) (aad_prefix payload : list Z) :
    result OpenVpnDataCodecError (Z * list Z) :=
  if decide (length payload < AEAD_OVERHEAD)%nat then Err InvalidAeadPayload
  else
    let packet_id_bytes := firstn 4 payload in
    let packet_id := from_be_bytes packet_id_bytes in
    let tag := slice 4 AEAD_OVERHEAD payload in
    let encrypted_payload := skipn AEAD_OVERHEAD payload in
    plaintext ← ok_or AeadAuthenticationFailed
      (aead_decrypt (a_receive_cipher c) (nonce packet_id (a_receive_iv_suffix c))
         (aad aad_prefix packet_id_bytes) (encrypted_payload ++ tag));
    Ok (packet_id, plaintext).

Definition aead_decode (c : TlsAeadDataCodec) (now : Z)
    (aad_prefix payload : list Z) :
    result OpenVpnDataCodecError (Z * list Z) * TlsAeadDataCodec :=
  match aead_open c aad_prefix payload with
  | Err e => (Err e, c)
  | Ok (packet_id, plaintext) =>
      let '(accepted, w) := accept_at (a_replay_window c) packet_id now in
      (if accepted then Ok (packet_id, plaintext) else Err ReplayedAeadPacket,
       mkTlsAead (a_send_cipher c) (a_send_iv_suffix c) (a_receive_cipher c)
         (a_receive_iv_suffix c) w)
  end.

#[global] Instance tls_aead_codec : OpenVpnDataCodec TlsAeadDataCodec := {|
  encoded_length _ payload_length := Z.of_nat AEAD_OVERHEAD + payload_length;
  encode c _ := aead_encode c;
  decode := aead_decode;
|}.

(** ** CBC *)

Record TlsCbcDataCodec : Type := mkTlsCbc {
  b_send_cipher : OpenVpnCbcCipher;
  b_send_cipher_key : list Z;
  b_send_hmac_key : list Z;
  b_receive_cipher : OpenVpnCbcCipher;
  b_receive_cipher_key : list Z;
  b_receive_hmac_key : list Z;
  b_auth : OpenVpnAuthDigest;
  b_replay_window : ReplayWindow;
}.

Definition tls_cbc_new (key_material : list Z) (server : bool)
    (cipher_name auth_name : string) (replay_window_size replay_window_time : Z) :
    result OpenVpnDataCodecError TlsCbcDataCodec :=
  slots ← ok_or InvalidKeyMaterial (split_static_key_material key_material);
  let '(send_slot, receive_slot) := tls_data_key_slots slots server in
  cipher ← CbcCipher.from_name cipher_name;
  auth ← Digest.from_name auth_name;
  let key_size := CbcCipher.key_size cipher in
  let hmac_size := Digest.output_size auth in
  let '(size, time) :=
    data_replay_window_parameters replay_window_size replay_window_time in
  Ok (mkTlsCbc cipher (firstn key_size (cipher_key send_slot))
        (firstn hmac_size (hmac_key send_slot)) cipher
        (firstn key_size (cipher_key receive_slot))
        (firstn hmac_size (hmac_key receive_slot)) auth (new size time)).

(** Encrypt, then sign; shared by the CBC and the static-key codec, whose
    plaintexts differ. *)
Definition seal (cipher : OpenVpnCbcCipher) (auth : OpenVpnAuthDigest)
    (cipher_key hmac_key iv plaintext : list Z) :
    result OpenVpnDataCodecError (list Z) :=
  protected ←
    (if decide (cipher = CbcNone) then Ok plaintext
     else
       ciphertext ← CbcCipher.encrypt cipher cipher_key iv plaintext;
       Ok (iv ++ ciphertext));
  Ok (Digest.sign auth hmac_key protected ++ protected).

Definition unseal (cipher : OpenVpnCbcCipher) (auth : OpenVpnAuthDigest)
    (cipher_key hmac_key payload : list Z) :
    result OpenVpnDataCodecError (list Z) :=
  let hmac_size := Digest.output_size auth in
  if decide (length payload < hmac_size)%nat then Err InvalidEncryptedPayload
  else
    let received_hmac := firstn hmac_size payload in
    let protected := skipn hmac_size payload in
    if negb (Digest.verify auth hmac_key protected received_hmac)
    then Err HmacVerificationFailed
    else if decide (cipher = CbcNone) then Ok protected
    else
      let block_size := CbcCipher.block_size cipher in
      if decide (length protected < block_size * 2
                 \/ length protected mod block_size <> 0)%nat
      then Err InvalidEncryptedPayload
      else
        CbcCipher.decrypt cipher cipher_key (firstn block_size protected)
          (skipn block_size protected).

Definition cbc_encode_with_iv (c : TlsCbcDataCodec) (packet_id : Z)
    (payload iv : list Z) : result OpenVpnDataCodecError (list Z) :=
  if decide (packet_id = 0) then Err InvalidPacketId
  else
    seal (b_send_cipher c) (b_auth c) (b_send_cipher_key c) (b_send_hmac_key c) iv
      (to_be_bytes 4 packet_id ++ payload).

Definition cbc_encode (c : TlsCbcDataCodec) (random : nat -> option (list Z))
    (packet_id : Z) (payload : list Z) : result OpenVpnDataCodecError (list Z) :=
  iv ← ok_or RandomFailed (random (CbcCipher.block_size (b_send_cipher c)));
  cbc_encode_with_iv c packet_id payload iv.

Definition padded_length (cipher : OpenVpnCbcCipher) (auth : OpenVpnAuthDigest)
    (plaintext_length : Z) : Z :=
  let block_size := Z.of_nat (CbcCipher.block_size cipher) in
  Z.of_nat (Digest.output_size auth)
  + (if decide (block_size = 0) then plaintext_length
     else block_size + (plaintext_length / block_size + 1) * block_size).

Definition cbc_open (c : TlsCbcDataCodec) (payload : list Z) :
    result OpenVpnDataCodecError (Z * list Z) :=
  plaintext ← unseal (b_receive_cipher c) (b_auth c) (b_receive_cipher_key c)
                (b_receive_hmac_key c) payload;
  if decide (length plaintext < 4)%nat then Err InvalidEncryptedPayload
  else Ok (from_be_bytes (firstn 4 plaintext), skipn 4 plaintext).

Definition cbc_decode (c : TlsCbcDataCodec) (now : Z) (payload : list Z) :
    result OpenVpnDataCodecError (Z * list Z) * TlsCbcDataCodec :=
  match cbc_open c payload with
  | Err e => (Err e, c)
  | Ok (packet_id, plaintext) =>
      let '(accepted, w) := accept_at (b_replay_window c) packet_id now in
      (if accepted then Ok (packet_id, plaintext) else Err ReplayedAeadPacket,
       mkTlsCbc (b_send_cipher c) (b_send_cipher_key c) (b_send_hmac_key c)
         (b_receive_cipher c) (b_receive_cipher_key c) (b_receive_hmac_key c)
         (b_auth c) w)
  end.

#[global] Instance tls_cbc_codec : OpenVpnDataCodec TlsCbcDataCodec := {|
  encoded_length c payload_length :=
    padded_length (b_send_cipher c) (b_auth c) (4 + payload_length);
  encode c random packet_id _ payload := cbc_encode c random packet_id payload;
  decode c now _ payload := cbc_decode c now payload;
|}.

(** ** CFB and OFB *)

Record TlsStreamDataCodec : Type := mkTlsStream {
  s_mode : OpenVpnStreamMode;
  s_send_cipher : OpenVpnCbcCipher;
  s_send_cipher_key : list Z;
  s_send_hmac_key : list Z;
  s_receive_cipher : OpenVpnCbcCipher;
  s_receive_cipher_key : list Z;
  s_receive_hmac_key : list Z;
  s_auth : OpenVpnAuthDigest;
  s_send_timestamp : Z;
  s_replay_window : ReplayWindow;
}.

(** [new_at]; [new] passes the seconds of the system clock, as a [u32]. *)
Definition tls_stream_new (key_material : list Z) (server : bool)
    (cipher_name auth_name : string)
    (replay_window_size replay_window_time send_timestamp : Z) :
    result OpenVpnDataCodecError TlsStreamDataCodec :=
  slots ← ok_or InvalidKeyMaterial (split_static_key_material key_material);
  let '(send_slot, receive_slot) := tls_data_key_slots slots server in
  '(mode, cipher) ← CbcCipher.openvpn_stream_cipher_spec cipher_name;
  auth ← Digest.from_name auth_name;
  let key_size := CbcCipher.key_size cipher in
  let hmac_size := Digest.output_size auth in
  let '(size, time) :=
    data_replay_window_parameters replay_window_size replay_window_time in
  Ok (mkTlsStream mode cipher (firstn key_size (cipher_key send_slot))
        (firstn hmac_size (hmac_key send_slot)) cipher
        (firstn key_size (cipher_key receive_slot))
        (firstn hmac_size (hmac_key receive_slot)) auth send_timestamp
        (new size time)).

Definition stream_encode (c : TlsStreamDataCodec) (packet_id : Z)
    (payload : list Z) : result OpenVpnDataCodecError (list Z) :=
  if decide (packet_id = 0) then Err InvalidPacketId
  else
    let iv :=
      to_be_bytes 4 packet_id ++ to_be_bytes 4 (s_send_timestamp c)
        ++ replicate (CbcCipher.block_size (s_send_cipher c) - 8) 0 in
    ciphertext ← CbcCipher.crypt_stream (s_send_cipher c) (s_mode c)
      (s_send_cipher_key c) iv payload true;
    let protected := iv ++ ciphertext in
    Ok (Digest.sign (s_auth c) (s_send_hmac_key c) protected ++ protected).

(** The timestamp, the packet id and the plaintext. *)
Definition stream_open (c : TlsStreamDataCodec) (payload : list Z) :
    result OpenVpnDataCodecError (Z * Z * list Z) :=
  let hmac_size := Digest.output_size (s_auth c) in
  if decide (length payload < hmac_size)%nat then Err InvalidEncryptedPayload
  else
    let received_hmac := firstn hmac_size payload in
    let protected := skipn hmac_size payload in
    if negb (Digest.verify (s_auth c) (s_receive_hmac_key c) protected received_hmac)
    then Err HmacVerificationFailed
    else
      let block_size := CbcCipher.block_size (s_receive_cipher c) in
      if decide (length protected <= block_size)%nat
      then Err InvalidEncryptedPayload
      else
        let iv := firstn block_size protected in
        let packet_id := from_be_bytes (firstn 4 iv) in
        let timestamp := from_be_bytes (slice 4 8 iv) in
        plaintext ← CbcCipher.crypt_stream (s_receive_cipher c) (s_mode c)
          (s_receive_cipher_key c) iv (skipn block_size protected) false;
        Ok (timestamp, packet_id, plaintext).

Definition stream_decode (c : TlsStreamDataCodec) (now : Z) (payload : list Z) :
    result OpenVpnDataCodecError (Z * list Z) * TlsStreamDataCodec :=
  match stream_open c payload with
  | Err e => (Err e, c)
  | Ok (timestamp, packet_id, plaintext) =>
      let '(accepted, w) :=
        accept_long_form_at (s_replay_window c) packet_id timestamp now in
      (if accepted then Ok (packet_id, plaintext) else Err ReplayedAeadPacket,
       mkTlsStream (s_mode c) (s_send_cipher c) (s_send_cipher_key c)
         (s_send_hmac_key c) (s_receive_cipher c) (s_receive_cipher_key c)
         (s_receive_hmac_key c) (s_auth c) (s_send_timestamp c) w)
  end.

#[global] Instance tls_stream_codec : OpenVpnDataCodec TlsStreamDataCodec := {|
  encoded_length c payload_length :=
    Z.of_nat (Digest.output_size (s_auth c))
    + Z.of_nat (CbcCipher.block_size (s_send_cipher c)) + payload_length;
  encode c _ packet_id _ payload := stream_encode c packet_id payload;
  decode c now _ payload := stream_decode c now payload;
|}.

(** ** Static keys *)

Record StaticDecodeCandidate : Type := mkDecodeCandidate {
  k_cipher_key : list Z;
  k_hmac_key : list Z;
}.

Record StaticKeyDataCodec : Type := mkStaticCodec {
  k_cipher : OpenVpnCbcCipher;
  k_send_cipher_key : list Z;
  k_send_hmac_key : list Z;
  k_receive_candidates : list StaticDecodeCandidate;
  k_auth : OpenVpnAuthDigest;
  k_send_timestamp : Z;
  k_replay_window : ReplayWindow;
}.

Definition resolve_static_key_direction (direction : Z) : nat * nat * nat :=
  if decide (direction = 1 \/ direction = 2) then (1%nat, 0%nat, 1%nat)
  else if decide (direction < 0) then (0%nat, 0%nat, 1%nat)
  else (0%nat, 1%nat, 0%nat).

(** [new_at]; [new] passes the seconds of the system clock, as a [u32]. *)
Definition static_new (material : list Z) (key_direction : Z)
    (cipher_name auth_name : string)
    (replay_window_size replay_window_time send_timestamp : Z) :
    result OpenVpnDataCodecError StaticKeyDataCodec :=
  slots ← ok_or InvalidKeyMaterial (split_static_key_material material);
  cipher ← CbcCipher.from_name cipher_name;
  auth ← Digest.from_name auth_name;
  let '(send_index, receive_index, fallback_index) :=
    resolve_static_key_direction key_direction in
  let key_size := CbcCipher.key_size cipher in
  let hmac_size := Digest.output_size auth in
  let candidate index :=
    mkDecodeCandidate (firstn key_size (cipher_key (slot slots index)))
      (firstn hmac_size (hmac_key (slot slots index))) in
  let receive_candidates :=
    [candidate receive_index]
      ++ (if decide (fallback_index <> receive_index)
          then [candidate fallback_index] else []) in
  let '(size, time) :=
    data_replay_window_parameters replay_window_size replay_window_time in
  Ok (mkStaticCodec cipher (firstn key_size (cipher_key (slot slots send_index)))
        (firstn hmac_size (hmac_key (slot slots send_index))) receive_candidates
        auth send_timestamp (new size time)).

Definition static_encode_with_iv (c : StaticKeyDataCodec) (packet_id : Z)
    (payload iv : list Z) : result OpenVpnDataCodecError (list Z) :=
  if decide (packet_id = 0) then Err InvalidPacketId
  else
    seal (k_cipher c) (k_auth c) (k_send_cipher_key c) (k_send_hmac_key c) iv
      (to_be_bytes 4 packet_id ++ to_be_bytes 4 (k_send_timestamp c) ++ payload).

Definition static_encode (c : StaticKeyDataCodec)
    (random : nat -> option (list Z)) (packet_id : Z) (payload : list Z) :
    result OpenVpnDataCodecError (list Z) :=
  iv ← ok_or RandomFailed (random (CbcCipher.block_size (k_cipher c)));
  static_encode_with_iv c packet_id payload iv.

(** The timestamp, the packet id and the plaintext. *)
Definition decode_candidate (c : StaticKeyDataCodec) (payload : list Z)
    (candidate : StaticDecodeCandidate) :
    result OpenVpnDataCodecError (Z * Z * list Z) :=
  plaintext ← unseal (k_cipher c) (k_auth c) (k_cipher_key candidate)
                (k_hmac_key candidate) payload;
  if decide (length plaintext < 8)%nat then Err InvalidEncryptedPayload
  else
    let packet_id := from_be_bytes (firstn 4 plaintext) in
    if decide (packet_id = 0) then Err InvalidPacketId
    else Ok (from_be_bytes (slice 4 8 plaintext), packet_id, skipn 8 plaintext).

(** The loop of [decode]: the first candidate that opens the packet. *)
Fixpoint static_open (c : StaticKeyDataCodec) (payload : list Z)
    (last_error : OpenVpnDataCodecError) (candidates : list StaticDecodeCandidate) :
    result OpenVpnDataCodecError (Z * Z * list Z) :=
  match candidates with
  | [] => Err last_error
  | candidate :: candidates =>
      match decode_candidate c payload candidate with
      | Ok opened => Ok opened
      | Err error => static_open c payload error candidates
      end
  end.

Definition static_decode (c : StaticKeyDataCodec) (now : Z) (payload : list Z) :
    result OpenVpnDataCodecError (Z * list Z) * StaticKeyDataCodec :=
  match static_open c payload InvalidEncryptedPayload (k_receive_candidates c) with
  | Err e => (Err e, c)
  | Ok (timestamp, packet_id, plaintext) =>
      let '(accepted, w) :=
        accept_long_form_at (k_replay_window c) packet_id timestamp now in
      (if accepted then Ok (packet_id, plaintext) else Err ReplayedAeadPacket,
       mkStaticCodec (k_cipher c) (k_send_cipher_key c) (k_send_hmac_key c)
         (k_receive_candidates c) (k_auth c) (k_send_timestamp c) w)
  end.

#[global] Instance static_codec : OpenVpnDataCodec StaticKeyDataCodec := {|
  encoded_length c payload_length :=
    padded_length (k_cipher c) (k_auth c) (8 + payload_length);
  encode c random packet_id _ payload := static_encode c random packet_id payload;
  decode c now _ payload := static_decode c now payload;
|}.

(** ** [Box<dyn OpenVpnDataCodec>] *)

Inductive DynDataCodec : Type :=
| TlsAead (c : TlsAeadDataCodec)
| TlsCbc (c : TlsCbcDataCodec)
| TlsStream (c : TlsStreamDataCodec)
| StaticKeyed (c : StaticKeyDataCodec).

#[global] Instance dyn_codec : OpenVpnDataCodec DynDataCodec := {|
  encoded_length d n :=
    match d with
    | TlsAead c => encoded_length c n
    | TlsCbc c => encoded_length c n
    | TlsStream c => encoded_length c n
    | StaticKeyed c => encoded_length c n
    end;
  encode d random packet_id aad payload :=
    match d with
    | TlsAead c => encode c random packet_id aad payload
    | TlsCbc c => encode c random packet_id aad payload
    | TlsStream c => encode c random packet_id aad payload
    | StaticKeyed c => encode c random packet_id aad payload
    end;
  decode d now aad payload :=
    match d with
    | TlsAead c => let '(r, c) := decode c now aad payload in (r, TlsAead c)
    | TlsCbc c => let '(r, c) := decode c now aad payload in (r, TlsCbc c)
    | TlsStream c => let '(r, c) := decode c now aad payload in (r, TlsStream c)
    | StaticKeyed c => let '(r, c) := decode c now aad payload in (r, StaticKeyed c)
    end;
|}.

Definition new_tls_data_codec (key_material : list Z) (server : bool)
    (cipher_name auth_name : string)
    (replay_window_size replay_window_time system_seconds : Z) :
    result OpenVpnDataCodecError DynDataCodec :=
  if decide (cipher_name ∈ ["AES-128-GCM"; "AES-192-GCM"; "AES-256-GCM";
                             "CHACHA20-POLY1305"]%string)
  then TlsAead <$> tls_aead_new key_material server cipher_name
                     replay_window_size replay_window_time
  else if is_ok (CbcCipher.openvpn_stream_cipher_spec cipher_name)
  then TlsStream <$> tls_stream_new key_material server cipher_name auth_name
                       replay_window_size replay_window_time (wrap32 system_seconds)
  else TlsCbc <$> tls_cbc_new key_material server cipher_name auth_name
                    replay_window_size replay_window_time.

(** ** Replay windows *)

Definition sound_short (w : ReplayWindow) (acc : list (Z * Z)) : Prop :=
  ReplayTrace.tracks w acc
  /\ (initialized (inner w) = true -> highest_timestamp (inner w) = 0).

Lemma accept_at_epoch w id now :
  (initialized (inner w) = true -> highest_timestamp (inner w) = 0) ->
  let '(b, w') := accept_at w id now in
  (initialized (inner w') = true -> highest_timestamp (inner w') = 0)
  /\ (b = true -> highest_timestamp (inner w') = 0).
Proof using Type.
  intros Hw. unfold accept_at. destruct (decide (id = 0)); [done|].
  unfold accept_locked. destruct (initialized (inner w)) eqn:Hi; cbn [negb].
  - specialize (Hw eq_refl).
    assert (highest_timestamp (reap w (inner w) now) = highest_timestamp (inner w))
      as Hr by (unfold reap; repeat case_match; done).
    repeat case_decide; try (by rewrite ?Hr, ?Hw);
      repeat case_match; simpl; by rewrite ?Hr, ?Hw.
  - unfold initialize. by destruct (decide _).
Qed.

Lemma accept_at_sound w acc id now :
  sound_short w acc -> is_u32 id ->
  let '(b, w') := accept_at w id now in
  if b then (0, id) ∉ acc /\ sound_short w' (acc ++ [(0, id)])
  else sound_short w' acc.
Proof using Type.
  intros [Ht Hw] Hid. pose proof (accept_at_epoch w id now Hw) as He.
  pose proof (ReplayTrace.step_tracks w acc (ReplayTrace.Short id now)) as Hs.
  simpl in Hs. destruct (accept_at w id now) as [b w'].
  destruct He as [He1 He2]. destruct b.
  - rewrite He2 in Hs by done. destruct (Hs (Some (0, id)) w') as [H1 H2]; try done.
    split; [by apply H2|done].
  - destruct (Hs None w') as [H1 _]; try done.
    simpl in H1. rewrite app_nil_r in H1. done.
Qed.

Lemma accept_long_sound w acc id ts now :
  ReplayTrace.tracks w acc -> is_u32 id -> is_u32 ts ->
  let '(b, w') := accept_long_form_at w id ts now in
  if b then (ts, id) ∉ acc /\ ReplayTrace.tracks w' (acc ++ [(ts, id)])
  else ReplayTrace.tracks w' acc.
Proof using Type.
  intros Ht Hid Hts.
  pose proof (ReplayTrace.step_tracks w acc (ReplayTrace.Long id ts now)) as Hs.
  simpl in Hs. destruct (accept_long_form_at w id ts now) as [b w']. destruct b.
  - destruct (Hs (Some (ts, id)) w') as [H1 H2]; try done. split; [by apply H2|done].
  - destruct (Hs None w') as [H1 _]; try done.
    simpl in H1. rewrite app_nil_r in H1. done.
Qed.

Definition fresh_short (w : ReplayWindow) (n : Z) : Prop :=
  0 < window_size w /\ (initialized (inner w) = false \/ highest_id (inner w) < n).

Definition fresh_long (w : ReplayWindow) (ts n : Z) : Prop :=
  0 < window_size w
  /\ (initialized (inner w) = false \/ highest_timestamp (inner w) < ts
      \/ (highest_timestamp (inner w) = ts /\ highest_id (inner w) < n)).

Lemma accept_at_next w n id now :
  fresh_short w n -> 1 <= n <= id ->
  exists w', accept_at w id now = (true, w') /\ fresh_short w' (id + 1).
Proof using Type.
  intros [Hws Hn] Hid.
  pose proof (ReplayTrace.accept_at_fresh w id now Hws ltac:(lia) ltac:(intuition lia)) as Ha.
  destruct (accept_at w id now) as [b w']. destruct Ha as (-> & ? & ? & ?).
  exists w'. split; [done|]. split; [lia|right; lia].
Qed.

Lemma accept_long_next w ts n id now :
  fresh_long w ts n -> 1 <= n <= id ->
  exists w', accept_long_form_at w id ts now = (true, w') /\ fresh_long w' ts (id + 1).
Proof using Type.
  intros [Hws Hn] Hid.
  pose proof (ReplayTrace.accept_long_form_fresh w id ts now Hws ltac:(lia)
                ltac:(intuition lia)) as Ha.
  destruct (accept_long_form_at w id ts now) as [b w']. destruct Ha as (-> & ? & ? & ? & ?).
  exists w'. split; [done|]. split; [lia|right; right; lia].
Qed.

Context {laws : CryptoLaws} {claws : DataCipherLaws}.

(** ** The AEAD codec keeps the promises *)

Definition aead_linked (s r : TlsAeadDataCodec) (n : Z) : Prop :=
  a_receive_cipher r = a_send_cipher s /\ a_receive_iv_suffix r = a_send_iv_suffix s
  /\ length (aead_key (a_send_cipher s)) = aead_key_size (aead_algorithm (a_send_cipher s))
  /\ length (a_send_iv_suffix s) = 8%nat /\ fresh_short (a_replay_window r) n.

Lemma slice_4_20 (a t rest : list Z) :
  length a = 4%nat -> length t = 16%nat ->
  firstn 4 (a ++ t ++ rest) = a /\ slice 4 20 (a ++ t ++ rest) = t
  /\ skipn 20 (a ++ t ++ rest) = rest.
Proof using Type.
  intros Ha Ht. unfold slice. rewrite <- Ha, take_app_length, drop_app_length, Ha.
  split_and!; [done| |].
  - change (20 - 4)%nat with 16%nat. by rewrite <- Ht, take_app_length.
  - rewrite (assoc_L (++)). replace 20%nat with (length (a ++ t)) by (rewrite length_app; lia).
    apply drop_app_length.
Qed.

Lemma aead_open_encode s r n id aad_prefix p :
  aead_linked s r n -> 1 <= id <= U32_MAX -> Z.of_nat (length p) <= U32_MAX ->
  exists c, aead_encode s id aad_prefix p = Ok c
  /\ length c = (AEAD_OVERHEAD + length p)%nat /\ aead_open r aad_prefix c = Ok (id, p).
Proof using claws.
  intros (Hc & Hs & Hk & Hl & _) Hid Hp. unfold aead_encode. rewrite decide_False by lia.
  destruct (aead_seals (a_send_cipher s) (nonce id (a_send_iv_suffix s))
    (aad aad_prefix (to_be_bytes 4 id)) p Hk) as (ct & He & Hlen & Hd); [|done|].
  { unfold nonce. rewrite length_app, length_to_be_bytes. lia. }
  rewrite He. cbn [ok_or]. rbind. unfold AEAD_TAG_SIZE.
  rewrite decide_False by lia. set (k := (length ct - 16)%nat). eexists.
  assert (length (skipn k ct) = 16%nat) as Htag by (rewrite length_drop; lia).
  destruct (slice_4_20 (to_be_bytes 4 id) (skipn k ct) (firstn k ct)) as (H1 & H2 & H3);
    [apply length_to_be_bytes|done|].
  split; [done|].
  assert (length (to_be_bytes 4 id ++ skipn k ct ++ firstn k ct)
          = (AEAD_OVERHEAD + length p)%nat) as Hlc.
  { rewrite !length_app, length_to_be_bytes, Htag, length_take. unfold AEAD_OVERHEAD. lia. }
  split; [done|]. unfold aead_open. rewrite decide_False by (rewrite Hlc; lia).
  unfold AEAD_OVERHEAD. rewrite H1, H2, H3, take_drop, Hc, Hs, from_to_be_bytes by ilia.
  by rewrite Hd.
Qed.

Lemma aead_open_id c aad_prefix payload id p :
  bytes_ok payload -> aead_open c aad_prefix payload = Ok (id, p) -> is_u32 id.
Proof using Type.
  intros Hb. unfold aead_open. destruct (decide _); [done|].
  intros (pt & _ & [= <- <-])%bind_Ok. apply from_be_bytes_u32; [by apply Forall_take|].
  rewrite length_take. unfold AEAD_OVERHEAD in *. lia.
Qed.

#[global] Instance tls_aead_laws : DataCodecLaws TlsAeadDataCodec.
Proof.
  refine {|
    opened c aad_prefix payload :=
      (fun '(id, p) => (0, id, p)) <$> aead_open c aad_prefix payload;
    accepted c acc := sound_short (a_replay_window c) acc;
    linked := aead_linked;
    decode_accepts := _;
    decode_encode := _;
  |}.
  - intros c acc now aad_prefix payload Ha Hb. simpl. unfold aead_decode.
    destruct (aead_open c aad_prefix payload) as [[id p]|e] eqn:Ho; [|done].
    pose proof (accept_at_sound _ acc id now Ha (aead_open_id _ _ _ _ _ Hb Ho)) as Hs.
    destruct (accept_at _ id now) as [[] w]; (split; [done|]); [|done].
    exists 0. split; [done|]. exact Hs.
  - intros s r n random id aad_prefix p now Hl _ Hn Hid _ Hp. simpl.
    destruct (aead_open_encode s r n id aad_prefix p Hl) as (c & He & Hlen & Ho); [lia|done|].
    destruct Hl as (? & ? & ? & ? & Hf).
    destruct (accept_at_next _ n id now Hf Hn) as (w & Ha & Hf').
    exists c, (mkTlsAead (a_send_cipher r) (a_send_iv_suffix r) (a_receive_cipher r)
      (a_receive_iv_suffix r) w).
    split; [done|]. split; [lia|]. unfold aead_decode. rewrite Ho, Ha. done.
Defined.

(** ** Seal and unseal *)

Lemma block_size_pos c : c <> CbcNone -> (8 <= CbcCipher.block_size c)%nat.
Proof using Type. destruct c; simpl; (done || lia). Qed.

(** A signed message is checked against the whole signature. *)
Lemma split_signed auth key m :
  let out := Digest.sign auth key m ++ m in
  firstn (Digest.output_size auth) out = Digest.sign auth key m
  /\ skipn (Digest.output_size auth) out = m
  /\ length out = (Digest.output_size auth + length m)%nat.
Proof using laws.
  simpl. rewrite <- (length_sign auth key m).
  rewrite take_app_length, drop_app_length, length_app. done.
Qed.

Lemma unseal_seal cipher auth ck hk iv pt :
  length ck = CbcCipher.key_size cipher -> length iv = CbcCipher.block_size cipher ->
  exists out, seal cipher auth ck hk iv pt = Ok out
  /\ Z.of_nat (length out) = padded_length cipher auth (Z.of_nat (length pt))
  /\ unseal cipher auth ck hk out = Ok pt.
Proof using laws claws.
  intros Hk Hiv. unfold seal, unseal, padded_length.
  destruct (decide (cipher = CbcNone)) as [->|Hn]; rbind.
  - destruct (split_signed auth hk pt) as (E1 & E2 & E3). eexists. split; [done|].
    rewrite E1, E2, E3, Digest.verify_sign. split; [simpl; lia|].
    by rewrite decide_False by lia.
  - destruct (cbc_seals cipher ck iv pt Hn Hk Hiv) as (ct & He & Hl & Hd).
    pose proof (block_size_pos cipher Hn).
    assert (CbcCipher.encrypt cipher ck iv pt = Ok ct) as ->.
    { unfold CbcCipher.encrypt. rewrite <- Hk, firstn_all, He. by destruct cipher. }
    rbind. destruct (split_signed auth hk (iv ++ ct)) as (E1 & E2 & E3).
    eexists. split; [done|].
    rewrite E1, E2, E3, Digest.verify_sign, length_app, Hiv, Hl. cbn [negb].
    set (bs := CbcCipher.block_size cipher) in *. split.
    + rewrite (decide_False (P := Z.of_nat bs = 0)) by lia.
      rewrite !Nat2Z.inj_add, Nat2Z.inj_mul, Nat2Z.inj_add, Nat2Z.inj_div. lia.
    + rewrite decide_False by lia. rewrite decide_False.
      2:{ intros [Hx|Hx]; [nia|]. apply Hx. apply Nat.Div0.mod_divides.
          exists (length pt / bs + 2)%nat. lia. }
      rewrite <- Hiv, take_app_length, drop_app_length. unfold CbcCipher.decrypt.
      rewrite <- Hk, firstn_all, Hd. by destruct cipher.
Qed.

Lemma unseal_bytes cipher auth ck hk payload pt :
  bytes_ok payload -> unseal cipher auth ck hk payload = Ok pt -> bytes_ok pt.
Proof using claws.
  intros Hb. unfold unseal. destruct (decide _); [done|]. destruct (negb _); [done|].
  assert (bytes_ok (skipn (Digest.output_size auth) payload)) as Hp
    by (by apply Forall_drop).
  destruct (decide _); [by intros <-%Ok_inj|]. destruct (decide _); [done|].
  unfold CbcCipher.decrypt. set (iv := firstn _ (skipn _ _)). set (ct := skipn _ (skipn _ _)).
  assert (bytes_ok ct) as Hct by (by apply Forall_drop).
  destruct cipher; [done|..];
    (destruct (cbc_decrypt _ _ _ _) as [[x|]|] eqn:Hd; simpl; [|done|done];
     intros <-%Ok_inj; by eapply cbc_plain_bytes in Hd).
Qed.

(** ** The CBC codec keeps them *)

Definition cbc_linked (s r : TlsCbcDataCodec) (n : Z) : Prop :=
  b_receive_cipher r = b_send_cipher s /\ b_auth r = b_auth s
  /\ b_receive_cipher_key r = b_send_cipher_key s
  /\ b_receive_hmac_key r = b_send_hmac_key s
  /\ length (b_send_cipher_key s) = CbcCipher.key_size (b_send_cipher s)
  /\ fresh_short (b_replay_window r) n.

Lemma cbc_open_encode s r n random id p :
  cbc_linked s r n -> good_random random -> 1 <= id <= U32_MAX ->
  exists c, cbc_encode s random id p = Ok c
  /\ Z.of_nat (length c) = padded_length (b_send_cipher s) (b_auth s) (4 + Z.of_nat (length p))
  /\ cbc_open r c = Ok (id, p).
Proof using laws claws.
  intros (Hc & Ha & Hck & Hhk & Hk & _) Hrnd Hid. unfold cbc_encode.
  destruct (Hrnd (CbcCipher.block_size (b_send_cipher s))) as (iv & -> & Hiv).
  cbn [ok_or]. rbind. unfold cbc_encode_with_iv. rewrite decide_False by lia.
  destruct (unseal_seal (b_send_cipher s) (b_auth s) (b_send_cipher_key s)
    (b_send_hmac_key s) iv (to_be_bytes 4 id ++ p) Hk Hiv) as (c & -> & Hl & Hu).
  exists c. split; [done|]. rewrite Hl, length_app, length_to_be_bytes. split; [f_equal; lia|].
  unfold cbc_open. rewrite Hc, Ha, Hck, Hhk, Hu. rbind.
  rewrite decide_False by (rewrite length_app, length_to_be_bytes; lia).
  rewrite <- (length_to_be_bytes 4 id) at 1 3.
  rewrite take_app_length, drop_app_length, from_to_be_bytes by ilia. done.
Qed.

Lemma cbc_open_id c payload id p :
  bytes_ok payload -> cbc_open c payload = Ok (id, p) -> is_u32 id.
Proof using claws.
  intros Hb. unfold cbc_open. intros (pt & Hu & Ho)%bind_Ok. revert Ho.
  destruct (decide _); [done|]. intros [= <- <-].
  apply from_be_bytes_u32; [apply Forall_take; by eapply unseal_bytes|].
  rewrite length_take. lia.
Qed.

#[global] Instance tls_cbc_laws : DataCodecLaws TlsCbcDataCodec.
Proof.
  refine {|
    opened c _ payload := (fun '(id, p) => (0, id, p)) <$> cbc_open c payload;
    accepted c acc := sound_short (b_replay_window c) acc;
    linked := cbc_linked;
    decode_accepts := _;
    decode_encode := _;
  |}.
  - intros c acc now aad_prefix payload Ha Hb. simpl. unfold cbc_decode.
    destruct (cbc_open c payload) as [[id p]|e] eqn:Ho; [|done].
    pose proof (accept_at_sound _ acc id now Ha (cbc_open_id _ _ _ _ Hb Ho)) as Hs.
    destruct (accept_at _ id now) as [[] w]; (split; [done|]); [|done].
    exists 0. split; [done|]. exact Hs.
  - intros s r n random id aad_prefix p now Hl Hr Hn Hid _ _. simpl.
    destruct (cbc_open_encode s r n random id p Hl Hr) as (c & He & Hlen & Ho); [lia|].
    destruct Hl as (? & ? & ? & ? & ? & Hf).
    destruct (accept_at_next _ n id now Hf Hn) as (w & Ha & Hf').
    exists c. eexists. split; [done|]. split; [done|].
    unfold cbc_decode. rewrite Ho, Ha. split; [reflexivity|]. by split_and!.
Defined.

(** ** The stream codec keeps them *)

Definition stream_linked (s r : TlsStreamDataCodec) (n : Z) : Prop :=
  s_mode r = s_mode s /\ s_receive_cipher r = s_send_cipher s /\ s_auth r = s_auth s
  /\ s_receive_cipher_key r = s_send_cipher_key s
  /\ s_receive_hmac_key r = s_send_hmac_key s
  /\ s_send_cipher s <> CbcNone
  /\ length (s_send_cipher_key s) = CbcCipher.key_size (s_send_cipher s)
  /\ is_u32 (s_send_timestamp s)
  /\ fresh_long (s_replay_window r) (s_send_timestamp s) n.

Lemma slice_4_8 (a b rest : list Z) :
  length a = 4%nat -> length b = 4%nat ->
  firstn 4 (a ++ b ++ rest) = a /\ slice 4 8 (a ++ b ++ rest) = b
  /\ skipn 8 (a ++ b ++ rest) = rest.
Proof using Type.
  intros Ha Hb. unfold slice. rewrite <- Ha, take_app_length, drop_app_length, Ha.
  split_and!; [done| |].
  - change (8 - 4)%nat with 4%nat. by rewrite <- Hb, take_app_length.
  - rewrite (assoc_L (++)). replace 8%nat with (length (a ++ b)) by (rewrite length_app; lia).
    apply drop_app_length.
Qed.

Lemma crypt_stream_some c mode key iv p b :
  c <> CbcNone -> length key = CbcCipher.key_size c ->
  CbcCipher.crypt_stream c mode key iv p b
  = ok_or InvalidKeyMaterial (stream_crypt c mode key iv b p).
Proof using Type.
  intros Hn Hk. unfold CbcCipher.crypt_stream. rewrite <- Hk, firstn_all. by destruct c.
Qed.

Lemma stream_open_encode s r n id p :
  stream_linked s r n -> 1 <= id <= U32_MAX -> p <> [] ->
  exists c, stream_encode s id p = Ok c
  /\ length c = (Digest.output_size (s_auth s) + CbcCipher.block_size (s_send_cipher s)
                   + length p)%nat
  /\ stream_open r c = Ok (s_send_timestamp s, id, p).
Proof using laws claws.
  intros (Hm & Hc & Ha & Hck & Hhk & Hn & Hk & Hts & _) Hid Hp.
  pose proof (block_size_pos _ Hn). unfold stream_encode. rewrite decide_False by lia.
  set (iv := to_be_bytes 4 id ++ to_be_bytes 4 (s_send_timestamp s) ++ replicate _ 0).
  assert (length iv = CbcCipher.block_size (s_send_cipher s)) as Hiv.
  { subst iv. rewrite !length_app, !length_to_be_bytes, length_replicate. lia. }
  rewrite crypt_stream_some by done.
  destruct (stream_seals (s_send_cipher s) (s_mode s) (s_send_cipher_key s) iv p Hn Hk Hiv)
    as (ct & He & Hl & Hd).
  rewrite He. cbn [ok_or]. rbind.
  destruct (split_signed (s_auth s) (s_send_hmac_key s) (iv ++ ct)) as (E1 & E2 & E3).
  eexists. split; [done|]. split; [rewrite E3, length_app; lia|].
  unfold stream_open. rewrite Ha, Hc, Hm, Hck, Hhk, E1, E2, E3, Digest.verify_sign.
  assert (length p <> 0)%nat by (by destruct p).
  rewrite decide_False by lia. cbn [negb]. rewrite length_app, decide_False by lia.
  rewrite <- Hiv, take_app_length, drop_app_length, crypt_stream_some, Hd by done.
  cbn [ok_or]. rbind.
  destruct (slice_4_8 (to_be_bytes 4 id) (to_be_bytes 4 (s_send_timestamp s))
    (replicate (CbcCipher.block_size (s_send_cipher s) - 8) 0)) as (F1 & F2 & _);
    [apply length_to_be_bytes..|].
  subst iv. rewrite F1, F2, !from_to_be_bytes by ilia. done.
Qed.

Lemma stream_open_ids c payload ts id p :
  bytes_ok payload -> CbcCipher.block_size (s_receive_cipher c) <> 0%nat ->
  stream_open c payload = Ok (ts, id, p) -> is_u32 id /\ is_u32 ts.
Proof using Type.
  intros Hb Hbs. unfold stream_open. destruct (decide _); [done|].
  destruct (negb _); [done|].
  assert (bytes_ok (skipn (Digest.output_size (s_auth c)) payload)) as Hp
    by (by apply Forall_drop).
  revert Hp. generalize (skipn (Digest.output_size (s_auth c)) payload).
  intros protected Hp. destruct (decide _); [done|].
  assert (s_receive_cipher c <> CbcNone) as Hn by (by intros E; rewrite E in Hbs).
  pose proof (block_size_pos _ Hn).
  intros (pt & _ & [= <- <- <-])%bind_Ok. unfold slice.
  split; apply from_be_bytes_u32;
    rewrite ?length_take, ?length_drop, ?length_take; try lia;
    repeat first [apply Forall_take|apply Forall_drop]; done.
Qed.

#[global] Instance tls_stream_laws : DataCodecLaws TlsStreamDataCodec.
Proof.
  refine {|
    opened c _ payload := stream_open c payload;
    accepted c acc := ReplayTrace.tracks (s_replay_window c) acc
      /\ CbcCipher.block_size (s_receive_cipher c) <> 0%nat;
    linked := stream_linked;
    decode_accepts := _;
    decode_encode := _;
  |}.
  - intros c acc now aad_prefix payload [Ha Hbs] Hb. simpl. unfold stream_decode.
    destruct (stream_open c payload) as [[[ts id] p]|e] eqn:Ho; [|done].
    destruct (stream_open_ids _ _ _ _ _ Hb Hbs Ho) as [Hid Hts].
    pose proof (accept_long_sound _ acc id ts now Ha Hid Hts) as Hs.
    destruct (accept_long_form_at _ id ts now) as [[] w]; (split; [done|]); [|by split].
    exists ts. destruct Hs. by split_and!.
  - intros s r n random id aad_prefix p now Hl _ Hn Hid Hp _. simpl.
    destruct (stream_open_encode s r n id p Hl) as (c & He & Hlen & Ho); [lia|done|].
    destruct Hl as (? & ? & ? & ? & ? & ? & ? & ? & Hf).
    destruct (accept_long_next _ _ n id now Hf Hn) as (w & Ha & Hf').
    exists c. eexists. split; [done|]. split; [lia|].
    unfold stream_decode. rewrite Ho, Ha. split; [reflexivity|]. by split_and!.
Defined.

(** ** And so does the static-key codec *)

Definition static_linked (s r : StaticKeyDataCodec) (n : Z) : Prop :=
  k_cipher r = k_cipher s /\ k_auth r = k_auth s
  /\ head (k_receive_candidates r)
     = Some (mkDecodeCandidate (k_send_cipher_key s) (k_send_hmac_key s))
  /\ length (k_send_cipher_key s) = CbcCipher.key_size (k_cipher s)
  /\ is_u32 (k_send_timestamp s)
  /\ fresh_long (k_replay_window r) (k_send_timestamp s) n.

Lemma static_open_encode s r n random id p :
  static_linked s r n -> good_random random -> 1 <= id <= U32_MAX ->
  exists c, static_encode s random id p = Ok c
  /\ Z.of_nat (length c) = padded_length (k_cipher s) (k_auth s) (8 + Z.of_nat (length p))
  /\ static_open r c InvalidEncryptedPayload (k_receive_candidates r)
     = Ok (k_send_timestamp s, id, p).
Proof using laws claws.
  intros (Hc & Ha & Hcand & Hk & Hts & _) Hrnd Hid. unfold static_encode.
  destruct (Hrnd (CbcCipher.block_size (k_cipher s))) as (iv & -> & Hiv).
  cbn [ok_or]. rbind. unfold static_encode_with_iv. rewrite decide_False by lia.
  destruct (unseal_seal (k_cipher s) (k_auth s) (k_send_cipher_key s) (k_send_hmac_key s) iv
    (to_be_bytes 4 id ++ to_be_bytes 4 (k_send_timestamp s) ++ p) Hk Hiv)
    as (c & -> & Hl & Hu).
  exists c. split; [done|]. rewrite Hl, !length_app, !length_to_be_bytes. split; [f_equal; lia|].
  destruct (k_receive_candidates r) as [|cand rest]; [done|]. injection Hcand as ->.
  cbn [static_open]. unfold decode_candidate. rewrite Hc, Ha. cbn [k_cipher_key k_hmac_key].
  rewrite Hu. rbind.
  rewrite decide_False by (rewrite !length_app, !length_to_be_bytes; lia).
  destruct (slice_4_8 (to_be_bytes 4 id) (to_be_bytes 4 (k_send_timestamp s)) p)
    as (E1 & E2 & E3); [apply length_to_be_bytes..|].
  rewrite E1, E2, E3, !from_to_be_bytes, decide_False by ilia. done.
Qed.

Lemma static_open_ids c payload e ks ts id p :
  bytes_ok payload -> static_open c payload e ks = Ok (ts, id, p) ->
  is_u32 id /\ is_u32 ts.
Proof using claws.
  intros Hb. revert e. induction ks as [|k ks IH]; intros e; cbn [static_open]; [done|].
  destruct (decode_candidate c payload k) as [o|e'] eqn:Hd; [|apply IH].
  intros ->%Ok_inj. apply bind_Ok in Hd as (pt & Hu & Hd).
  apply unseal_bytes in Hu; [|done].
  destruct (decide _); [done|]. cbv zeta in Hd.
  destruct (decide _); [done|]. injection Hd as <- <- <-.
  unfold slice. split; apply from_be_bytes_u32;
    rewrite ?length_take, ?length_drop; try lia;
    repeat first [apply Forall_take|apply Forall_drop]; done.
Qed.

Lemma static_open_ext c c' payload e ks :
  k_cipher c' = k_cipher c -> k_auth c' = k_auth c ->
  static_open c' payload e ks = static_open c payload e ks.
Proof using Type.
  intros Hc Ha. revert e. induction ks as [|k ks IH]; intros e; cbn [static_open]; [done|].
  assert (decode_candidate c' payload k = decode_candidate c payload k) as ->
    by (unfold decode_candidate; by rewrite Hc, Ha).
  destruct (decode_candidate c payload k); [done|apply IH].
Qed.

#[global] Instance static_laws : DataCodecLaws StaticKeyDataCodec.
Proof.
  refine {|
    opened c _ payload :=
      static_open c payload InvalidEncryptedPayload (k_receive_candidates c);
    accepted c acc := ReplayTrace.tracks (k_replay_window c) acc;
    linked := static_linked;
    decode_accepts := _;
    decode_encode := _;
  |}.
  - intros c acc now aad_prefix payload Ha Hb. simpl. unfold static_decode.
    destruct (static_open c payload _ _) as [[[ts id] p]|e] eqn:Ho; [|done].
    destruct (static_open_ids _ _ _ _ _ _ _ Hb Ho) as [Hid Hts].
    pose proof (accept_long_sound _ acc id ts now Ha Hid Hts) as Hs.
    destruct (accept_long_form_at _ id ts now) as [[] w];
      (split; [intros; by apply static_open_ext|]); [|done].
    exists ts. by destruct Hs.
  - intros s r n random id aad_prefix p now Hl Hr Hn Hid _ _. simpl.
    destruct (static_open_encode s r n random id p Hl Hr) as (c & He & Hlen & Ho); [lia|].
    destruct Hl as (? & ? & ? & ? & ? & Hf).
    destruct (accept_long_next _ _ n id now Hf Hn) as (w & Ha & Hf').
    exists c. eexists. split; [done|]. split; [done|].
    unfold static_decode. rewrite Ho, Ha. split; [reflexivity|]. by split_and!.
Defined.

(** ** The boxed codec *)

Definition dyn_linked (s r : DynDataCodec) (n : Z) : Prop :=
  match s, r with
  | TlsAead s, TlsAead r => linked s r n
  | TlsCbc s, TlsCbc r => linked s r n
  | TlsStream s, TlsStream r => linked s r n
  | StaticKeyed s, StaticKeyed r => linked s r n
  | _, _ => False
  end.

#[global] Instance dyn_laws : DataCodecLaws DynDataCodec.
Proof.
  refine {|
    opened d aad_prefix payload :=
      match d with
      | TlsAead c => opened c aad_prefix payload
      | TlsCbc c => opened c aad_prefix payload
      | TlsStream c => opened c aad_prefix payload
      | StaticKeyed c => opened c aad_prefix payload
      end;
    accepted d acc :=
      match d with
      | TlsAead c => accepted c acc
      | TlsCbc c => accepted c acc
      | TlsStream c => accepted c acc
      | StaticKeyed c => accepted c acc
      end;
    linked := dyn_linked;
    decode_accepts := _;
    decode_encode := _;
  |}.
  - intros [c|c|c|c] acc now aad_prefix payload Ha Hb;
      pose proof (decode_accepts c acc now aad_prefix payload Ha Hb) as Hd;
      cbn [decode dyn_codec]; by destruct (decode c now aad_prefix payload) as [r c'].
  - intros [s|s|s|s] [r|r|r|r] n random id aad_prefix p now Hl Hr Hn Hid Hp Hlen;
      try done;
      destruct (decode_encode s r n random id aad_prefix p now Hl Hr Hn Hid Hp Hlen)
        as (c & r' & He & Hc & Hd & Hl'); exists c; eexists;
      (split; [exact He|]); (split; [exact Hc|]); cbn [decode dyn_codec];
      rewrite Hd; (split; [reflexivity|]); exact Hl'.
Defined.

(** ** A session *)

(** One side seals numbered payloads, the other decodes them; an item is the
    packet id, the additional data, the payload and the arrival time. *)
Fixpoint exchange {C} `{OpenVpnDataCodec C} (random : nat -> option (list Z)) (s r : C)
    (msgs : list (Z * list Z * list Z * Z)) :
    list (result OpenVpnDataCodecError (Z * list Z)) :=
  match msgs with
  | [] => []
  | (id, aad_prefix, p, now) :: msgs =>
      match encode s random id aad_prefix p with
      | Err e => Err e :: exchange random s r msgs
      | Ok c => let '(d, r) := decode r now aad_prefix c in d :: exchange random s r msgs
      end
  end.

(** The ids go up, the payloads are not empty. *)
Fixpoint increasing (n : Z) (msgs : list (Z * list Z * list Z * Z)) : Prop :=
  match msgs with
  | [] => True
  | (id, _, p, _) :: msgs =>
      n <= id <= U32_MAX /\ p <> [] /\ Z.of_nat (length p) <= U32_MAX
      /\ increasing (id + 1) msgs
  end.

Lemma exchange_linked {C} `{DataCodecLaws C} random (s r : C) n msgs :
  linked s r n -> good_random random -> 1 <= n -> increasing n msgs ->
  exchange random s r msgs = map (fun '(id, _, p, _) => Ok (id, p)) msgs.
Proof using Type.
  intros Hl Hr. revert n r Hl.
  induction msgs as [|[[[id ad] p] now] msgs IH]; intros n r Hl Hn; cbn [increasing];
    [done|].
  intros (Hid & Hp & Hlen & Hrest).
  destruct (decode_encode s r n random id ad p now Hl Hr) as (c & r' & He & _ & Hd & Hl');
    [lia|lia|done|done|].
  cbn [exchange map]. rewrite He, Hd. f_equal. apply (IH (id + 1)); [done|lia|done].
Qed.

(** The datagrams that a codec accepts, among those it receives. *)
Fixpoint accepted_datagrams {C} `{OpenVpnDataCodec C} (c : C)
    (l : list (list Z * list Z * Z)) : list (list Z * list Z) :=
  match l with
  | [] => []
  | (ad, payload, now) :: l =>
      let '(r, c') := decode c now ad payload in
      (if is_ok r then [(ad, payload)] else []) ++ accepted_datagrams c' l
  end.

(** The epoch and the packet id that a datagram carries for [c]. *)
Definition stamp {C} `{DataCodecLaws C} (c : C) (d : list Z * list Z) : option (Z * Z) :=
  match opened c d.1 d.2 with
  | Ok (ts, id, _) => Some (ts, id)
  | Err _ => None
  end.

Lemma accepted_datagrams_NoDup {C} `{DataCodecLaws C} (c : C) acc l :
  accepted c acc -> Forall (fun d => bytes_ok d.1.2) l -> NoDup acc ->
  exists stamps, NoDup (acc ++ stamps)
  /\ map (stamp c) (accepted_datagrams c l) = map Some stamps.
Proof using Type.
  intros Ha Hl. revert c acc Ha.
  induction Hl as [|[[ad payload] now] l Hb _ IH]; intros c acc Ha Hnd; cbn [accepted_datagrams].
  { exists []. by rewrite app_nil_r. }
  pose proof (decode_accepts c acc now ad payload Ha Hb) as Hd.
  destruct (decode c now ad payload) as [[[id p]|e] c']; cbn [is_ok app map];
    destruct Hd as [Hst Hd].
  - destruct Hd as (ts & Ho & Hnew & Ha').
    destruct (IH c' (acc ++ [(ts, id)]) Ha') as (stamps & Hs & Hm).
    { apply NoDup_app. split_and!; [done| |apply NoDup_singleton].
      by intros k Hk ->%list_elem_of_singleton. }
    exists ((ts, id) :: stamps). rewrite <- (assoc_L (++)) in Hs. split; [exact Hs|].
    cbn [map]. f_equal; [unfold stamp; cbn [fst snd]; by rewrite Ho|].
    rewrite <- Hm. apply map_ext. intros d. unfold stamp. by rewrite Hst.
  - destruct (IH c' acc Hd Hnd) as (stamps & Hs & Hm). exists stamps. split; [done|].
    rewrite <- Hm. apply map_ext. intros d. unfold stamp. by rewrite Hst.
Qed.

(** ** Both ends of a session *)

Lemma window_parameters_pos ws wt :
  is_u32 ws -> let '(size, time) := data_replay_window_parameters ws wt in
  0 < size <= U32_MAX.
Proof using Type.
  intros Hw. unfold data_replay_window_parameters, DEFAULT_REPLAY_WINDOW_SIZE.
  destruct (decide _); ilia.
Qed.

Lemma new_fresh_short size time n : 0 < size -> fresh_short (new size time) n.
Proof using Type. intros. split; [done|by left]. Qed.

Lemma new_fresh_long size time ts n : 0 < size -> fresh_long (new size time) ts n.
Proof using Type. intros. split; [done|by left]. Qed.

Lemma key_size_le c : (CbcCipher.key_size c <= 64)%nat.
Proof using Type. destruct c; simpl; lia. Qed.

Lemma length_key_slice c (key : list Z) :
  length key = 64%nat -> length (firstn (CbcCipher.key_size c) key) = CbcCipher.key_size c.
Proof using Type. intros Hk. rewrite length_take. pose proof (key_size_le c). lia. Qed.

Lemma aead_new_key name key c :
  length key = 64%nat -> aead_new name key = Ok c ->
  length (aead_key c) = aead_key_size (aead_algorithm c).
Proof using Type.
  intros Hk. unfold aead_new. repeat (destruct (decide _); [intros <-%Ok_inj;
    cbn [aead_key aead_algorithm aead_key_size]; rewrite length_take; lia|]). done.
Qed.

Lemma stream_spec_not_none name mode c :
  CbcCipher.openvpn_stream_cipher_spec name = Ok (mode, c) -> c <> CbcNone.
Proof using Type.
  unfold CbcCipher.openvpn_stream_cipher_spec. intros ([base m] & _ & Ho)%bind_Ok.
  apply bind_Ok in Ho as (cipher & _ & Ho). destruct (decide _); naive_solver.
Qed.

(** The client's codec and the server's, from the same key material. *)
Section Session.
Context (material : list Z) (cipher auth : string) (ws wt : Z) (Hws : is_u32 ws).

Lemma aead_session c s :
  tls_aead_new material false cipher ws wt = Ok c ->
  tls_aead_new material true cipher ws wt = Ok s ->
  aead_linked c s 1 /\ aead_linked s c 1.
Proof using Hws.
  pose proof (window_parameters_pos ws wt Hws) as Hp. unfold tls_aead_new.
  destruct (split_static_key_material material) as [[a b]|] eqn:Hm; [|done].
  apply split_lengths in Hm as (L1 & L2 & L3 & L4). cbn [ok_or]. rbind.
  cbn [tls_data_key_slots fst snd].
  destruct (data_replay_window_parameters ws wt) as [size time].
  destruct (aead_new cipher (cipher_key a)) as [ca|] eqn:Ea; [|done].
  destruct (aead_new cipher (cipher_key b)) as [cb|] eqn:Eb; [|done].
  rbind. intros <-%Ok_inj <-%Ok_inj.
  assert (forall k : list Z, length k = 64%nat -> length (firstn 8 k) = 8%nat) as H8
    by (intros; rewrite length_take; lia).
  split; (split_and!; [done|done| | |apply new_fresh_short; lia]);
    cbn [a_send_cipher a_send_iv_suffix]; eauto using aead_new_key.
Qed.

Lemma cbc_session c s :
  tls_cbc_new material false cipher auth ws wt = Ok c ->
  tls_cbc_new material true cipher auth ws wt = Ok s ->
  cbc_linked c s 1 /\ cbc_linked s c 1.
Proof using Hws.
  pose proof (window_parameters_pos ws wt Hws) as Hp. unfold tls_cbc_new.
  destruct (split_static_key_material material) as [[a b]|] eqn:Hm; [|done].
  apply split_lengths in Hm as (L1 & L2 & L3 & L4). cbn [ok_or]. rbind.
  cbn [tls_data_key_slots fst snd].
  destruct (CbcCipher.from_name cipher) as [ci|]; [|done].
  destruct (Digest.from_name auth) as [au|]; [|done]. rbind.
  destruct (data_replay_window_parameters ws wt) as [size time].
  intros <-%Ok_inj <-%Ok_inj.
  split; (split_and!; try done; simpl;
    [by apply length_key_slice|apply new_fresh_short; lia]).
Qed.

Lemma stream_session t1 t2 c s :
  is_u32 t1 -> is_u32 t2 ->
  tls_stream_new material false cipher auth ws wt t1 = Ok c ->
  tls_stream_new material true cipher auth ws wt t2 = Ok s ->
  stream_linked c s 1 /\ stream_linked s c 1.
Proof using Hws.
  pose proof (window_parameters_pos ws wt Hws) as Hp. unfold tls_stream_new.
  destruct (split_static_key_material material) as [[a b]|] eqn:Hm; [|done].
  apply split_lengths in Hm as (L1 & L2 & L3 & L4). cbn [ok_or]. rbind.
  cbn [tls_data_key_slots fst snd]. intros Ht1 Ht2.
  destruct (CbcCipher.openvpn_stream_cipher_spec cipher) as [[mode ci]|] eqn:Esp; [|done].
  apply stream_spec_not_none in Esp.
  destruct (Digest.from_name auth) as [au|]; [|done]. rbind.
  destruct (data_replay_window_parameters ws wt) as [size time].
  intros <-%Ok_inj <-%Ok_inj.
  split; split_and!; try done; simpl; (by apply length_key_slice) ||
    (apply new_fresh_long; lia).
Qed.

Lemma tls_session t1 t2 c s :
  new_tls_data_codec material false cipher auth ws wt t1 = Ok c ->
  new_tls_data_codec material true cipher auth ws wt t2 = Ok s ->
  dyn_linked c s 1 /\ dyn_linked s c 1.
Proof using Hws.
  assert (forall x, is_u32 (wrap32 x)) as Hu.
  { intros x. unfold wrap32. pose proof (Z.mod_pos_bound x (2 ^ 32)).
    change (2 ^ 32) with 4294967296 in *. ilia. }
  unfold new_tls_data_codec. destruct (decide _); [|destruct (is_ok _)].
  - destruct (tls_aead_new _ false _ _ _) eqn:Ec; [|done].
    destruct (tls_aead_new _ true _ _ _) eqn:Es; [|done].
    intros <-%Ok_inj <-%Ok_inj. by apply aead_session.
  - destruct (tls_stream_new _ false _ _ _ _ _) eqn:Ec; [|done].
    destruct (tls_stream_new _ true _ _ _ _ _) eqn:Es; [|done].
    intros <-%Ok_inj <-%Ok_inj. by apply (stream_session (wrap32 t1) (wrap32 t2)).
  - destruct (tls_cbc_new _ false _ _ _ _) eqn:Ec; [|done].
    destruct (tls_cbc_new _ true _ _ _ _) eqn:Es; [|done].
    intros <-%Ok_inj <-%Ok_inj. by apply cbc_session.
Qed.

(** A new codec has accepted nothing. *)
Lemma tls_new_accepted server t c :
  new_tls_data_codec material server cipher auth ws wt t = Ok c -> accepted c [].
Proof using Hws.
  pose proof (window_parameters_pos ws wt Hws) as Hp.
  assert (forall size time, 0 < size <= U32_MAX ->
            ReplayTrace.tracks (new size time) []) as Ht
    by (intros; apply ReplayTrace.new_tracks; ilia).
  unfold new_tls_data_codec, tls_aead_new, tls_stream_new, tls_cbc_new.
  destruct (split_static_key_material material) as [[a b]|]; cbn [ok_or]; rbind;
    [|by destruct (decide _); [|destruct (is_ok _)]].
  destruct (tls_data_key_slots (a, b) server) as [x y].
  destruct (data_replay_window_parameters ws wt) as [size time].
  destruct (decide _); [|destruct (is_ok _)].
  - destruct (aead_new _ (cipher_key x)); [|done]. destruct (aead_new _ (cipher_key y)); [|done].
    intros <-%Ok_inj. split; [by apply Ht|done].
  - destruct (CbcCipher.openvpn_stream_cipher_spec cipher) as [[mode ci]|] eqn:Esp; [|done].
    apply stream_spec_not_none in Esp. destruct (Digest.from_name auth); [|done].
    intros <-%Ok_inj. split; [by apply Ht|]. pose proof (block_size_pos _ Esp). simpl. lia.
  - destruct (CbcCipher.from_name cipher); [|done]. destruct (Digest.from_name auth); [|done].
    intros <-%Ok_inj. split; [by apply Ht|done].
Qed.
End Session.

(** C9: The two ends of a TLS session, whatever cipher was negotiated (AEAD, CBC,
    CFB, OFB or none), with the same replay window: every non-empty payload
    (of less than 2^32 bytes) that one end seals under increasing packet ids,
    from 1 to the last of 32 bits, with gaps where packets were lost, the other
    end decodes to the same id and payload, in both directions.  The packets
    arrive in the order of their ids.  (An empty payload is excluded: the
    receiver of a stream cipher refuses an empty ciphertext.) *)
Theorem tls_codecs_exchange (material : list Z) (cipher auth : string)
    (ws wt t1 t2 : Z) (c s : DynDataCodec) (random : nat -> option (list Z))
    (msgs : list (Z * list Z * list Z * Z)) :
  is_u32 ws ->
  new_tls_data_codec material false cipher auth ws wt t1 = Ok c ->
  new_tls_data_codec material true cipher auth ws wt t2 = Ok s ->
  good_random random -> increasing 1 msgs ->
  exchange random c s msgs = map (fun '(id, _, p, _) => Ok (id, p)) msgs
  /\ exchange random s c msgs = map (fun '(id, _, p, _) => Ok (id, p)) msgs.
Proof using laws claws.
  intros Hws Hc Hs Hr Hm. destruct (tls_session _ _ _ _ _ Hws _ _ _ _ Hc Hs).
  split; by apply (exchange_linked _ _ _ 1).
Qed.

(** C10: No data packet is accepted twice: whatever datagrams a TLS data codec
    receives, forged, repeated or reordered, the pairs of epoch and packet id
    of those it accepts are pairwise distinct. *)
Theorem tls_codec_no_replay (material : list Z) (server : bool) (cipher auth : string)
    (ws wt t : Z) (c : DynDataCodec) (l : list (list Z * list Z * Z)) :
  is_u32 ws -> new_tls_data_codec material server cipher auth ws wt t = Ok c ->
  Forall (fun d => bytes_ok d.1.2) l ->
  exists stamps, NoDup stamps
  /\ map (stamp c) (accepted_datagrams c l) = map Some stamps.
Proof using laws claws.
  intros Hws Hc Hl.
  apply (accepted_datagrams_NoDup c []); [|done|apply NoDup_nil_2].
  by eapply tls_new_accepted.
Qed.

(** Two static-key endpoints with complementary directions, or with none, open
    each other's packets. *)
Definition complementary (d d' : Z) : Prop :=
  (d < 0 /\ d' < 0) \/ (0 <= d /\ d <> 1 /\ d <> 2 /\ (d' = 1 \/ d' = 2))
  \/ (0 <= d' /\ d' <> 1 /\ d' <> 2 /\ (d = 1 \/ d = 2)).

Lemma static_session material d d' cipher auth ws wt t1 t2 c s :
  is_u32 ws -> is_u32 t1 -> complementary d d' ->
  static_new material d cipher auth ws wt t1 = Ok c ->
  static_new material d' cipher auth ws wt t2 = Ok s ->
  static_linked c s 1.
Proof using Type.
  intros Hws Ht Hd. pose proof (window_parameters_pos ws wt Hws) as Hp. unfold static_new.
  destruct (split_static_key_material material) as [[a b]|] eqn:Hm; [|done].
  apply split_lengths in Hm as (L1 & L2 & L3 & L4). cbn [ok_or]. rbind.
  destruct (CbcCipher.from_name cipher) as [ci|]; [|done].
  destruct (Digest.from_name auth) as [au|]; [|done]. rbind.
  destruct (data_replay_window_parameters ws wt) as [size time].
  unfold resolve_static_key_direction.
  unfold complementary in Hd.
  destruct (decide (d = 1 \/ d = 2)), (decide (d' = 1 \/ d' = 2)), (decide (d < 0)),
    (decide (d' < 0)); try (exfalso; lia);
    intros <-%Ok_inj <-%Ok_inj; split_and!; try done; simpl;
    (by apply length_key_slice) || (apply new_fresh_long; lia).
Qed.

End codecs.
(** ** Examples, with toy ciphers

    Encryption only pads and tags. *)
Section examples.
Import ToyCrypto.

Definition toy_tag (c : AeadCipher) (n a p : list Z) : list Z :=
  replicate 16 (checksum (aead_key c ++ n ++ a ++ p)).

Definition toy_pad (bs : nat) (p : list Z) : list Z :=
  let k := (bs - length p mod bs)%nat in p ++ replicate k (Z.of_nat k).

Definition toy_unpad (ct : list Z) : option (list Z) :=
  match last ct with
  | Some k => Some (firstn (length ct - Z.to_nat k) ct)
  | None => None
  end.

#[local] Instance toy_ciphers : DataCiphers := {|
  aead_encrypt c n a p := Some (p ++ toy_tag c n a p);
  aead_decrypt c n a ct :=
    let k := (length ct - 16)%nat in
    if decide (skipn k ct = toy_tag c n a (firstn k ct)) then Some (firstn k ct) else None;
  cbc_encrypt c key iv p := Some (toy_pad (CbcCipher.block_size c) p);
  cbc_decrypt c key iv ct := Some (toy_unpad ct);
  stream_crypt c mode key iv encrypting p := Some p;
|}.

Lemma toy_unpad_pad bs p : (bs <> 0)%nat -> toy_unpad (toy_pad bs p) = Some p.
Proof.
  intros Hb. unfold toy_unpad, toy_pad. set (k := (bs - _)%nat).
  assert (k <> 0)%nat as Hk.
  { subst k. pose proof (Nat.mod_upper_bound (length p) bs Hb). lia. }
  clearbody k. destruct k as [|k]; [done|].
  assert (last (p ++ replicate (S k) (Z.of_nat (S k))) = Some (Z.of_nat (S k))) as ->.
  { rewrite replicate_S_end, (assoc_L (++)). apply last_snoc. }
  rewrite length_app, length_replicate, Nat2Z.id.
  replace (length p + S k - S k)%nat with (length p) by lia.
  by rewrite take_app_length.
Qed.

#[local] Instance toy_cipher_laws : DataCipherLaws.
Proof.
  constructor; simpl.
  - intros c n a p _ _ _. eexists. split; [done|]. unfold toy_tag.
    rewrite length_app, length_replicate. split; [done|].
    replace (length p + 16 - 16)%nat with (length p) by lia.
    by rewrite take_app_length, drop_app_length, decide_True.
  - intros c key iv p Hn _ _. eexists. split; [done|].
    pose proof (block_size_pos c Hn). set (bs := CbcCipher.block_size c) in *.
    rewrite toy_unpad_pad by lia. split; [|done]. unfold toy_pad.
    rewrite length_app, length_replicate.
    pose proof (Nat.div_mod (length p) bs). pose proof (Nat.mod_upper_bound (length p) bs). nia.
  - intros c key iv ct p Hb. unfold toy_unpad. destruct (last ct); [|done].
    intros [= <-]. by apply Forall_take.
  - intros c mode key iv p _ _ _. by exists p.
Qed.

Definition toy_random (n : nat) : option (list Z) := Some (replicate n 9).

Definition toy_endpoint (server : bool) (cipher : string) : DynDataCodec :=
  match new_tls_data_codec (seqZ 0 256) server cipher "SHA256" 0 0 1000 with
  | Ok c => c
  | Err _ => TlsAead (mkTlsAead (mkAead AeadAes128 []) [] (mkAead AeadAes128 []) [] (new 0 0))
  end.

Definition toy_messages : list (Z * list Z * list Z * Z) :=
  [(1, [1; 2], [10; 11], 0); (2, [1; 2], [12], 1); (7, [1; 2], [13; 14; 15], 2)].

Lemma tls_codecs_exchange_witness :
  exchange toy_random (toy_endpoint false "AES-256-GCM") (toy_endpoint true "AES-256-GCM")
    toy_messages = [Ok (1, [10; 11]); Ok (2, [12]); Ok (7, [13; 14; 15])]
  /\ exchange toy_random (toy_endpoint true "BF-CFB") (toy_endpoint false "BF-CFB")
       toy_messages = [Ok (1, [10; 11]); Ok (2, [12]); Ok (7, [13; 14; 15])].
Proof.
  assert (good_random toy_random) as Hr
    by (intros n; exists (replicate n 9); split; [done|apply length_replicate]).
  assert (increasing 1 toy_messages) as Hm by (simpl; split_and!; (done || ilia)).
  split.
  - refine (proj1 (tls_codecs_exchange (seqZ 0 256) "AES-256-GCM" "SHA256" 0 0 1000 1000
      (toy_endpoint false "AES-256-GCM") (toy_endpoint true "AES-256-GCM")
      toy_random toy_messages _ _ _ _ _));
      [ilia|vm_compute; reflexivity|vm_compute; reflexivity|done|done].
  - refine (proj2 (tls_codecs_exchange (seqZ 0 256) "BF-CFB" "SHA256" 0 0 1000 1000
      (toy_endpoint false "BF-CFB") (toy_endpoint true "BF-CFB")
      toy_random toy_messages _ _ _ _ _));
      [ilia|vm_compute; reflexivity|vm_compute; reflexivity|done|done].
Defined.

Definition toy_datagram (id : Z) : list Z :=
  match encode (toy_endpoint false "AES-128-CBC") toy_random id [] [id; 5] with
  | Ok d => d
  | Err _ => []
  end.

(** Two packets, each sent twice, and a forged one: two are accepted. *)
Lemma tls_codec_no_replay_witness :
  let l := [([], toy_datagram 2, 0); ([], toy_datagram 1, 1); ([], toy_datagram 2, 2);
            ([], replicate 80 0, 3); ([], toy_datagram 1, 4)] in
  let c := toy_endpoint true "AES-128-CBC" in
  length (accepted_datagrams c l) = 2%nat
  /\ exists stamps, NoDup stamps
     /\ map (stamp c) (accepted_datagrams c l) = map Some stamps.
Proof.
  cbv zeta. split; [vm_compute; reflexivity|].
  apply (tls_codec_no_replay (seqZ 0 256) true "AES-128-CBC" "SHA256" 0 0 1000).
  - ilia.
  - vm_compute. reflexivity.
  - do 5 (apply Forall_cons_2; [apply bytes_okb_true; vm_compute; reflexivity|]).
    apply Forall_nil_2.
Defined.

End examples.

End Codec.
