(* ===== verification/OvpnMss.v ===== *)
(** * Clamping the TCP maximum segment size ([protocol/openvpn/mss.rs])

    A packet is a byte string; an out-of-range index, which panics in the code,
    is [None].  The loops have fuel, which is shown to be enough. *)

From stdpp Require Import base numbers list strings.
From Stdlib Require Import ZArith Lia.
From S2P Require Import Prelude OvpnText OvpnFragment OvpnCompression OvpnCrypto OvpnDataCodec.

Local Open Scope Z_scope.

Module Mss.

Definition IPV4_HEADER_MIN_LENGTH : Z := 20.
Definition IPV6_HEADER_LENGTH : Z := 40.
Definition TCP_HEADER_MIN_LENGTH : Z := 20.
Definition UDP_HEADER_LENGTH : Z := 8.
Definition TCP_CHECKSUM_OFFSET : Z := 16.
Definition TCP_SYN : Z := 2.
Definition TCP_OPTION_END : Z := 0.
Definition TCP_OPTION_NOP : Z := 1.
Definition TCP_OPTION_MSS : Z := 2.

Record MssClamp : Type := mkClamp {
  enabled : bool;
  maximum_segment_size : Z;
}.

Definition default_clamp : MssClamp := mkClamp false 0.

Definition len (l : list Z) : Z := Z.of_nat (length l).

(** [l[i]], [u16::from_be_bytes(l[i..i + 2])] and the write of a [u16]. *)
Definition byte (l : list Z) (i : Z) : option Z := l !! Z.to_nat i.

Definition get_u16 (l : list Z) (i : Z) : option Z :=
  hi ← byte l i; lo ← byte l (i + 1); Some (from_be_bytes [hi; lo]).

Definition put_u16 (l : list Z) (i v : Z) : option (list Z) :=
  if decide (i + 2 <= len l) then
    Some (firstn (Z.to_nat i) l ++ to_be_bytes 2 v ++ skipn (Z.to_nat (i + 2)) l)
  else None.

Definition swap_bytes (x : Z) : Z := Z.lor (Z.shiftl (Z.land x 255) 8) (Z.shiftr x 8).

Definition not16 (x : Z) : Z := U16_MAX - x.

(** [while sum >> 16 != 0]: a sum of three [u16] needs at most two rounds. *)
Fixpoint fold_carries (fuel : nat) (sum : Z) : Z :=
  match fuel with
  | O => sum
  | S fuel =>
      if decide (Z.shiftr sum 16 = 0) then sum
      else fold_carries fuel (Z.land sum 65535 + Z.shiftr sum 16)
  end.

Definition update_checksum (tcp : list Z) (field_offset old new : Z) :
    option (list Z) :=
  let '(old, new) :=
    if decide (field_offset mod 2 <> 0) then (swap_bytes old, swap_bytes new)
    else (old, new) in
  current ← get_u16 tcp TCP_CHECKSUM_OFFSET;
  let sum := fold_carries 3 (not16 current + not16 old + new) in
  put_u16 tcp TCP_CHECKSUM_OFFSET (not16 (wrap16 sum)).

Fixpoint clamp_loop (fuel : nat) (data_offset maximum : Z) (tcp : list Z)
    (clamped : bool) (offset : Z) : option (list Z * bool) :=
  match fuel with
  | O => None
  | S fuel =>
      if decide (data_offset <= offset) then Some (tcp, clamped)
      else
        kind ← byte tcp offset;
        if decide (kind = TCP_OPTION_END) then Some (tcp, clamped)
        else if decide (kind = TCP_OPTION_NOP) then
          clamp_loop fuel data_offset maximum tcp clamped (offset + 1)
        else if decide (data_offset <= offset + 1) then Some (tcp, clamped)
        else
          length ← byte tcp (offset + 1);
          if decide (length < 2 \/ data_offset < offset + length)
          then Some (tcp, clamped)
          else if decide (kind = TCP_OPTION_MSS /\ length = 4) then
            let value_offset := offset + 2 in
            advertised ← get_u16 tcp value_offset;
            if decide (maximum < advertised) then
              tcp ← put_u16 tcp value_offset maximum;
              tcp ← update_checksum tcp value_offset advertised maximum;
              clamp_loop fuel data_offset maximum tcp true (offset + length)
            else clamp_loop fuel data_offset maximum tcp clamped (offset + length)
          else clamp_loop fuel data_offset maximum tcp clamped (offset + length)
  end.

(** The segment after the call, and whether it was changed. *)
Definition clamp_tcp_syn_mss (tcp : list Z) (maximum : Z) :
    option (list Z * bool) :=
  b ← byte tcp 12;
  let data_offset := Z.shiftr b 4 * 4 in
  if decide (data_offset < TCP_HEADER_MIN_LENGTH \/ len tcp < data_offset)
  then Some (tcp, false)
  else
    clamp_loop (Z.to_nat data_offset) data_offset maximum tcp false
      TCP_HEADER_MIN_LENGTH.

(** [Some (Some n)]: the TCP segment starts at [n]. *)
Definition locate_tcp_syn_segment (packet : list Z) : option (option Z) :=
  match packet with
  | [] => Some None
  | first :: _ =>
      let version := Z.shiftr first 4 in
      header ←
        (if decide (version = 4) then
           if decide (len packet < IPV4_HEADER_MIN_LENGTH) then Some None
           else
             total ← get_u16 packet 2;
             flags ← get_u16 packet 6;
             protocol ← byte packet 9;
             if decide (total <> len packet \/ Z.land flags 16383 <> 0)
             then Some None
             else
               let length := Z.land first 15 * 4 in
               if decide (length < IPV4_HEADER_MIN_LENGTH
                          \/ len packet < length \/ protocol <> 6)
               then Some None
               else Some (Some length)
         else if decide (version = 6) then
           if decide (len packet < IPV6_HEADER_LENGTH) then Some None
           else
             payload_length ← get_u16 packet 4;
             next_header ← byte packet 6;
             if decide (payload_length + IPV6_HEADER_LENGTH <> len packet
                        \/ next_header <> 6)
             then Some None
             else Some (Some IPV6_HEADER_LENGTH)
         else Some None);
      match header with
      | None => Some None
      | Some ip_header_length =>
          let tcp := skipn (Z.to_nat ip_header_length) packet in
          if decide (len tcp < TCP_HEADER_MIN_LENGTH) then Some None
          else
            flags ← byte tcp 13;
            if decide (Z.land flags TCP_SYN = 0) then Some None
            else Some (Some ip_header_length)
      end
  end.

Definition apply_in_place (c : MssClamp) (packet : list Z) :
    option (list Z * bool) :=
  match packet with
  | [] => Some (packet, false)
  | first :: _ =>
      if negb (enabled c) then Some (packet, false)
      else
        let maximum :=
          if decide (Z.shiftr first 4 = 6)
          then wrap16 (maximum_segment_size c
                       - wrap16 (IPV6_HEADER_LENGTH - IPV4_HEADER_MIN_LENGTH))
          else maximum_segment_size c in
        segment ← locate_tcp_syn_segment packet;
        match segment with
        | None => Some (packet, false)
        | Some n =>
            '(tcp, clamped) ← clamp_tcp_syn_mss (skipn (Z.to_nat n) packet) maximum;
            Some (firstn (Z.to_nat n) packet ++ tcp, clamped)
        end
  end.

Definition apply (c : MssClamp) (packet : list Z) : option (list Z) :=
  if negb (enabled c) then Some packet
  else
    '(cloned, clamped) ← apply_in_place c packet;
    Some (if clamped : bool then cloned else packet).

(** ** The size of the clamp *)

(** Halving: 64 rounds are enough for sizes below [2^64]. *)
Fixpoint budget_loop (fuel : nat) (encoded : Z -> Z) (packet_size : Z)
    (minimum maximum : Z) : Z :=
  match fuel with
  | O => minimum
  | S fuel =>
      if decide (minimum < maximum) then
        let candidate := minimum + div_ceil (maximum - minimum) 2 in
        if decide (encoded candidate <= packet_size)
        then budget_loop fuel encoded packet_size candidate maximum
        else budget_loop fuel encoded packet_size minimum (candidate - 1)
      else minimum
  end.

Definition calculate_data_payload_budget {C} `{OpenVpnDataCodec C}
    (packet_size : Z) (codec : C) (packet_header_size fixed_payload_size : Z) : Z :=
  let minimum_packet_length :=
    packet_header_size + encoded_length codec fixed_payload_size in
  if decide (packet_size <= minimum_packet_length)
  then packet_size - minimum_packet_length
  else
    budget_loop 64
      (fun candidate =>
         packet_header_size + encoded_length codec (fixed_payload_size + candidate))
      packet_size 1 packet_size.

Definition calculate_mss_clamp {C} `{OpenVpnDataCodec C} (mss_fix : Z)
    (mss_fix_mode : string)
    (data_framing : option Compression.DataChannelFraming) (codec : C)
    (packet_header_size outer_transport_overhead : Z) : MssClamp :=
  if decide (mss_fix = 0) then default_clamp
  else if decide (mss_fix_mode = "fixed"%string) then
    mkClamp true (wrap16 (wrap16 mss_fix - 40))
  else
    let packet_header_size :=
      if decide (mss_fix_mode = "mtu"%string)
      then packet_header_size + outer_transport_overhead else packet_header_size in
    let framing_overhead :=
      match data_framing with
      | Some d => Compression.payload_overhead d
      | None => 0
      end in
    let budget :=
      calculate_data_payload_budget mss_fix codec packet_header_size
        (IPV4_HEADER_MIN_LENGTH + TCP_HEADER_MIN_LENGTH + framing_overhead) in
    mkClamp true (wrap16 budget).

Definition openvpn_outer_transport_overhead (protocol : string)
    (remote_ip : option IpAddr) : Z :=
  let ipv6 :=
    match remote_ip with
    | Some ip => is_ipv6 ip
    | None => Text.ends_with protocol "6"
    end in
  (if ipv6 then IPV6_HEADER_LENGTH else IPV4_HEADER_MIN_LENGTH)
  + (if Text.starts_with protocol "tcp" then TCP_HEADER_MIN_LENGTH
     else UDP_HEADER_LENGTH).

(** The offsets of the MSS values that the walk over the options meets. *)
Fixpoint mss_offsets (fuel : nat) (data_offset : Z) (tcp : list Z) (offset : Z) :
    list Z :=
  match fuel with
  | O => []
  | S fuel =>
      if decide (data_offset <= offset) then []
      else
        match byte tcp offset with
        | None => []
        | Some kind =>
            if decide (kind = TCP_OPTION_END) then []
            else if decide (kind = TCP_OPTION_NOP) then
              mss_offsets fuel data_offset tcp (offset + 1)
            else if decide (data_offset <= offset + 1) then []
            else
              match byte tcp (offset + 1) with
              | None => []
              | Some length =>
                  if decide (length < 2 \/ data_offset < offset + length) then []
                  else
                    (if decide (kind = TCP_OPTION_MSS /\ length = 4)
                     then [offset + 2] else [])
                      ++ mss_offsets fuel data_offset tcp (offset + length)
              end
        end
  end.

(** The maximum segment sizes that a segment advertises. *)
Definition data_offset_of (tcp : list Z) : Z :=
  match byte tcp 12 with Some b => Z.shiftr b 4 * 4 | None => 0 end.

Definition segment_mss_offsets (tcp : list Z) : list Z :=
  let d := data_offset_of tcp in
  if decide (d < TCP_HEADER_MIN_LENGTH \/ len tcp < d) then []
  else mss_offsets (Z.to_nat d) d tcp TCP_HEADER_MIN_LENGTH.

(** ** Two-byte fields *)

Lemma be2 hi lo : is_u8 hi -> is_u8 lo -> from_be_bytes [hi; lo] = hi * 256 + lo.
Proof.
  intros Hh Hl. change [hi; lo] with ([hi] ++ [lo]).
  rewrite from_be_bytes_app by done. change [hi] with ([] ++ [hi]).
  rewrite from_be_bytes_app by done. change (from_be_bytes []) with 0. lia.
Qed.

Lemma to_be2 v : is_u16 v -> to_be_bytes 2 v = [v / 256; v mod 256].
Proof.
  intros Hv. unfold to_be_bytes. simpl. rewrite !land_255, shiftr_8.
  rewrite (Z.mod_small (v / 256)); [done|].
  split; [apply Z.div_pos; ilia|]. apply Z.div_lt_upper_bound; ilia.
Qed.

Lemma swap_bytes_eq x : is_u16 x -> swap_bytes x = (x mod 256) * 256 + x / 256.
Proof.
  intros Hx. unfold swap_bytes. rewrite land_255, shiftr_8.
  rewrite lor_shiftl_add; [lia|lia|]. split; [apply Z.div_pos; ilia|].
  apply Z.div_lt_upper_bound; ilia.
Qed.

Lemma swap_bytes_u16 x : is_u16 x -> is_u16 (swap_bytes x).
Proof.
  intros Hx. rewrite swap_bytes_eq by done.
  pose proof (Z.mod_pos_bound x 256). pose proof (Z.div_pos x 256).
  assert (x / 256 < 256) by (apply Z.div_lt_upper_bound; ilia). ilia.
Qed.

Lemma byte_Some l i :
  bytes_ok l -> 0 <= i < len l -> exists b, byte l i = Some b /\ is_u8 b.
Proof.
  intros Hl Hi. unfold byte, len in *.
  destruct (lookup_lt_is_Some_2 l (Z.to_nat i)) as [b Hb]; [lia|].
  exists b. split; [done|]. by eapply Forall_lookup_1.
Qed.

(** A field cuts the string in three. *)
Lemma get_u16_split l i :
  bytes_ok l -> 0 <= i -> i + 2 <= len l ->
  exists hi lo, l = firstn (Z.to_nat i) l ++ [hi; lo] ++ skipn (Z.to_nat (i + 2)) l
  /\ is_u8 hi /\ is_u8 lo /\ get_u16 l i = Some (hi * 256 + lo).
Proof.
  intros Hl Hi Hle.
  destruct (byte_Some l i Hl) as (hi & Hhi & Hh); [lia|].
  destruct (byte_Some l (i + 1) Hl) as (lo & Hlo & Ho); [lia|].
  exists hi, lo. split_and!; [|done|done|].
  - unfold byte in *. rewrite <- (take_drop (Z.to_nat i) l) at 1. f_equal.
    rewrite (drop_S _ hi) by done. cbn [app]. f_equal.
    replace (S (Z.to_nat i)) with (Z.to_nat (i + 1)) by lia.
    rewrite (drop_S _ lo) by done. f_equal. f_equal. lia.
  - unfold get_u16. rewrite Hhi, Hlo. simpl. by rewrite be2.
Qed.

Lemma put_u16_Some l i v :
  bytes_ok l -> 0 <= i -> i + 2 <= len l ->
  exists l', put_u16 l i v = Some l' /\ len l' = len l /\ bytes_ok l'
  /\ forall j, 0 <= j -> j < i \/ i + 2 <= j -> byte l' j = byte l j.
Proof.
  intros Hl Hi Hle. unfold put_u16. rewrite decide_True by done. eexists.
  split; [done|]. unfold len, byte in *.
  assert (length (firstn (Z.to_nat i) l) = Z.to_nat i) as Ht
    by (rewrite length_take; lia).
  split_and!.
  - rewrite !length_app, Ht, length_to_be_bytes, length_drop. lia.
  - apply Forall_app_2; [by apply Forall_take|].
    apply Forall_app_2; [apply to_be_bytes_ok|by apply Forall_drop].
  - intros j Hj [Hlt|Hge].
    + rewrite lookup_app_l by lia. by rewrite lookup_take_lt by lia.
    + rewrite lookup_app_r, Ht by lia.
      rewrite lookup_app_r by (rewrite length_to_be_bytes; lia).
      rewrite length_to_be_bytes, lookup_drop. f_equal. lia.
Qed.

Lemma get_put_u16 l i v l' :
  0 <= i -> i + 2 <= len l -> is_u16 v -> put_u16 l i v = Some l' -> get_u16 l' i = Some v.
Proof.
  intros Hi Hle Hv. unfold put_u16. rewrite decide_True by done.
  intros <-%(inj Some).
  assert (length (firstn (Z.to_nat i) l) = Z.to_nat i) as Ht
    by (unfold len in *; rewrite length_take; lia).
  rewrite to_be2 by done. cbn [app]. unfold get_u16, byte.
  rewrite (list_lookup_middle _ _ _ (Z.to_nat i)) by lia. cbn [mbind option_bind].
  rewrite cons_middle, (assoc_L (++)), list_lookup_middle
    by (rewrite length_app, Ht; simpl; lia).
  cbn [mbind option_bind]. f_equal.
  assert (v / 256 < 256) by (apply Z.div_lt_upper_bound; ilia).
  pose proof (Z.div_pos v 256). pose proof (Z.mod_pos_bound v 256).
  rewrite be2 by ilia. pose proof (Z.div_mod v 256). lia.
Qed.

(** ** The Internet checksum

    The sum of the 16-bit words of a segment, the last one padded with a zero
    byte.  One's complement addition is addition modulo 65535: a segment
    verifies when its sum and that of the pseudo header are together congruent
    to zero. *)

Fixpoint word_sum (even : bool) (l : list Z) : Z :=
  match l with
  | [] => 0
  | b :: l => (if even then 256 * b else b) + word_sum (negb even) l
  end.

Definition eqm (x y : Z) : Prop := x mod U16_MAX = y mod U16_MAX.

#[local] Instance eqm_equivalence : Equivalence eqm.
Proof. split; unfold eqm; congruence. Qed.

#[local] Instance eqm_add : Proper (eqm ==> eqm ==> eqm) Z.add.
Proof.
  unfold eqm. intros a b Hab c d Hcd. by rewrite Z.add_mod, Hab, Hcd, <- Z.add_mod.
Qed.

#[local] Instance eqm_sub : Proper (eqm ==> eqm ==> eqm) Z.sub.
Proof.
  unfold eqm. intros a b Hab c d Hcd. by rewrite Zminus_mod, Hab, Hcd, <- Zminus_mod.
Qed.

Lemma eqm_not16 x : eqm (not16 x) (- x).
Proof.
  unfold eqm, not16. replace (U16_MAX - x) with (- x + 1 * U16_MAX) by lia.
  by rewrite Z.mod_add.
Qed.

Lemma word_sum_app e l l' :
  word_sum e (l ++ l') = word_sum e l + word_sum (xorb e (Nat.odd (length l))) l'.
Proof.
  revert e. induction l as [|b l IH]; intros e; cbn [word_sum app length].
  - by rewrite xorb_false_r.
  - rewrite IH, Nat.odd_succ, <- Nat.negb_odd.
    replace (xorb (negb e) (Nat.odd (length l))) with (xorb e (negb (Nat.odd (length l))))
      by (by destruct e, (Nat.odd _)). lia.
Qed.

(** The weight of a field depends on the parity of its offset. *)
Definition field (i v : Z) : Z := if decide (i mod 2 <> 0) then swap_bytes v else v.

Lemma word_sum_put l i v old l' :
  bytes_ok l -> 0 <= i -> i + 2 <= len l -> is_u16 v ->
  get_u16 l i = Some old -> put_u16 l i v = Some l' ->
  word_sum true l' = word_sum true l - field i old + field i v.
Proof.
  intros Hl Hi Hle Hv Hg Hp.
  destruct (get_u16_split l i Hl Hi Hle) as (hi & lo & Hs & Hh & Ho & Hg').
  rewrite Hg in Hg'. apply (inj Some) in Hg' as ->.
  unfold put_u16 in Hp. rewrite decide_True in Hp by done. apply (inj Some) in Hp as <-.
  rewrite Hs at 3. rewrite !word_sum_app, to_be2 by done.
  assert (length (firstn (Z.to_nat i) l) = Z.to_nat i) as ->
    by (unfold len in *; rewrite length_take; lia).
  cbn [word_sum length]. change (Nat.odd 2) with false. rewrite !xorb_false_r.
  assert (is_u16 (hi * 256 + lo)) by ilia.
  assert ((hi * 256 + lo) / 256 = hi) as Hd by (symmetry; apply (Z.div_unique _ _ _ lo); ilia).
  assert ((hi * 256 + lo) mod 256 = lo) as Hm by (symmetry; apply (Z.mod_unique _ _ hi); ilia).
  pose proof (Z.div_mod v 256). unfold field.
  assert (Nat.odd (Z.to_nat i) = bool_decide (i mod 2 <> 0)) as ->.
  { rewrite <- Nat.negb_even. destruct (Nat.even (Z.to_nat i)) eqn:E; simpl.
    - apply Nat.even_spec in E as [k Hk]. symmetry. apply bool_decide_false.
      replace i with (Z.of_nat k * 2) by lia. rewrite Z.mod_mul; lia.
    - assert (Nat.odd (Z.to_nat i) = true) as Hodd by (by rewrite <- Nat.negb_even, E).
      apply Nat.odd_spec in Hodd as [k Hk]. symmetry. apply bool_decide_true.
      replace i with (1 + Z.of_nat k * 2) by lia. rewrite Z.mod_add by lia. done. }
  destruct (decide (i mod 2 <> 0)).
  - rewrite bool_decide_true by done. cbn [xorb negb].
    rewrite !swap_bytes_eq, Hd, Hm by done. lia.
  - rewrite bool_decide_false by done. cbn [xorb negb]. lia.
Qed.

(** Folding the carries: three rounds reach a [u16] with the same residue. *)
Lemma fold_carries_spec sum :
  0 <= sum <= 3 * U16_MAX ->
  is_u16 (fold_carries 3 sum) /\ eqm (fold_carries 3 sum) sum.
Proof.
  intros Hs.
  assert (forall x, Z.land x 65535 = x mod 65536) as Hland
    by (intros; change 65535 with (Z.ones 16); by rewrite Z.land_ones).
  assert (forall x, Z.shiftr x 16 = x / 65536) as Hshift
    by (intros; by rewrite Z.shiftr_div_pow2).
  assert (forall x, eqm (x mod 65536 + x / 65536) x) as Hround.
  { intros x. unfold eqm, U16_MAX. rewrite (Z.div_mod x 65536) at 3 by lia.
    replace (65536 * (x / 65536) + x mod 65536)
      with (x mod 65536 + x / 65536 + x / 65536 * 65535) by lia.
    by rewrite Z.mod_add. }
  cbn [fold_carries]. rewrite !Hland, !Hshift. set (r := fun x => x mod 65536 + x / 65536).
  change (sum mod 65536 + sum / 65536) with (r sum).
  change (r sum mod 65536 + r sum / 65536) with (r (r sum)).
  change (r (r sum) mod 65536 + r (r sum) / 65536) with (r (r (r sum))).
  assert (forall x, x / 65536 = 0 <-> 0 <= x <= 65535) as Hsmall
    by (intros x; rewrite Z.div_small_iff by lia; lia).
  assert (0 <= r sum <= 65537) as H1.
  { subst r. simpl. unfold U16_MAX in Hs. pose proof (Z.mod_pos_bound sum 65536).
    assert (sum / 65536 < 3) by (apply Z.div_lt_upper_bound; lia).
    pose proof (Z.div_pos sum 65536). lia. }
  assert (forall x, 0 <= x <= 65537 -> 0 <= r x <= 65535) as Hr.
  { intros x Hx. subst r. cbv beta.
    assert (x / 65536 < 2) by (apply Z.div_lt_upper_bound; lia).
    pose proof (Z.div_mod x 65536). pose proof (Z.mod_pos_bound x 65536).
    pose proof (Z.div_pos x 65536). lia. }
  specialize (Hr _ H1).
  assert (eqm (r sum) sum /\ eqm (r (r sum)) sum) as [E1 E2].
  { split; [apply Hround|]. etransitivity; [apply Hround|apply Hround]. }
  destruct (decide (sum / 65536 = 0)) as [Hz|]; [apply Hsmall in Hz; split; [ilia|done]|].
  destruct (decide (r sum / 65536 = 0)) as [Hz|]; [apply Hsmall in Hz; split; [ilia|done]|].
  rewrite decide_True by (by apply Hsmall). split; [ilia|done].
Qed.

Lemma update_checksum_spec tcp i old v :
  bytes_ok tcp -> 18 <= len tcp -> is_u16 old -> is_u16 v ->
  exists tcp', update_checksum tcp i old v = Some tcp'
  /\ len tcp' = len tcp /\ bytes_ok tcp'
  /\ (forall j, 0 <= j -> j <> 16 -> j <> 17 -> byte tcp' j = byte tcp j)
  /\ eqm (word_sum true tcp') (word_sum true tcp + field i old - field i v).
Proof.
  intros Hb Hl Ho Hv. unfold update_checksum. fold (field i).
  assert ((if decide (i mod 2 <> 0) then (swap_bytes old, swap_bytes v) else (old, v))
          = (field i old, field i v)) as -> by (unfold field; by destruct (decide _)).
  assert (is_u16 (field i old) /\ is_u16 (field i v)) as [Fo Fv].
  { unfold field. destruct (decide _); auto using swap_bytes_u16. }
  unfold TCP_CHECKSUM_OFFSET.
  destruct (get_u16_split tcp 16 Hb) as (hi & lo & _ & Hh & Hlo & Hg); [lia|lia|].
  rewrite Hg. cbn [mbind option_bind]. set (current := hi * 256 + lo) in *.
  assert (is_u16 current) by ilia.
  destruct (fold_carries_spec (not16 current + not16 (field i old) + field i v)) as [Hu He];
    [unfold not16; ilia|].
  set (sum := fold_carries 3 _) in *.
  assert (wrap16 sum = sum) as -> by (apply Z.mod_small; ilia).
  destruct (put_u16_Some tcp 16 (not16 sum) Hb) as (tcp' & Hp & Hl' & Hb' & Hj); [lia|lia|].
  rewrite Hp. exists tcp'. split_and!; [done|done|done| |].
  - intros j Hj0 H16 H17. apply Hj; lia.
  - rewrite (word_sum_put tcp 16 (not16 sum) current tcp' Hb)
      by first [done|lia|unfold not16; ilia].
    assert (forall x, field 16 x = x) as Hf by done. rewrite !Hf, eqm_not16.
    assert (eqm (- sum) (current + field i old - field i v)) as Hs.
    { replace (- sum) with (0 - sum) by lia. rewrite He, !eqm_not16.
      replace (0 - (- current + - field i old + field i v))
        with (current + field i old - field i v) by lia. done. }
    rewrite Hs. replace (word_sum true tcp - current + (current + field i old - field i v))
      with (word_sum true tcp + field i old - field i v) by lia. done.
Qed.

(** Rewriting one value keeps the checksum. *)
Lemma rewrite_value tcp v old maximum :
  bytes_ok tcp -> 20 <= v -> v + 2 <= len tcp -> is_u16 maximum ->
  get_u16 tcp v = Some old -> is_u16 old ->
  exists tcp1 tcp2, put_u16 tcp v maximum = Some tcp1
  /\ update_checksum tcp1 v old maximum = Some tcp2
  /\ len tcp2 = len tcp /\ bytes_ok tcp2
  /\ eqm (word_sum true tcp2) (word_sum true tcp)
  /\ get_u16 tcp2 v = Some maximum
  /\ forall j, 0 <= j -> j <> 16 -> j <> 17 -> j <> v -> j <> v + 1 ->
       byte tcp2 j = byte tcp j.
Proof.
  intros Hb Hv Hle Hm Hg Ho.
  destruct (put_u16_Some tcp v maximum Hb) as (tcp1 & Hp & Hl1 & Hb1 & Hj1); [lia|lia|].
  destruct (update_checksum_spec tcp1 v old maximum Hb1) as (tcp2 & Hu & Hl2 & Hb2 & Hj2 & He);
    [lia|done|done|].
  exists tcp1, tcp2. split_and!; [done|done|lia|done| | |].
  - rewrite He, (word_sum_put tcp v maximum old tcp1) by (done || lia).
    replace (word_sum true tcp - field v old + field v maximum + field v old - field v maximum)
      with (word_sum true tcp) by lia. done.
  - apply get_put_u16 in Hp as <-; [|lia|lia|done]. unfold get_u16.
    rewrite !Hj2 by lia. done.
  - intros j H0 H16 H17 Hjv Hjv'. rewrite Hj2 by lia. apply Hj1; lia.
Qed.

(** ** The walk over the options *)

Lemma mss_offsets_bounds fuel d tcp offset v :
  v ∈ mss_offsets fuel d tcp offset -> offset + 2 <= v /\ v + 2 <= d.
Proof.
  revert offset. induction fuel as [|fuel IH]; intros offset; cbn [mss_offsets];
    [by intros ?%not_elem_of_nil|].
  destruct (decide _); [by intros ?%not_elem_of_nil|].
  destruct (byte tcp offset) as [kind|]; [|by intros ?%not_elem_of_nil].
  destruct (decide _); [by intros ?%not_elem_of_nil|].
  destruct (decide _); [intros Hv%IH; lia|].
  destruct (decide _); [by intros ?%not_elem_of_nil|].
  destruct (byte tcp (offset + 1)) as [size|]; [|by intros ?%not_elem_of_nil].
  destruct (decide _); [by intros ?%not_elem_of_nil|].
  intros [Hv|Hv%IH]%elem_of_app; [|lia].
  destruct (decide _); [apply list_elem_of_singleton in Hv; lia|by apply not_elem_of_nil in Hv].
Qed.

Lemma mss_offsets_agree fuel d l l' offset :
  (forall j, offset <= j -> byte l' j = byte l j) ->
  mss_offsets fuel d l' offset = mss_offsets fuel d l offset.
Proof.
  revert offset. induction fuel as [|fuel IH]; intros offset Hj; cbn [mss_offsets]; [done|].
  rewrite !Hj by lia. rewrite (IH (offset + 1)) by (intros; apply Hj; lia).
  destruct (byte l offset) as [kind|]; [|done].
  destruct (byte l (offset + 1)) as [size|]; [|done].
  destruct (decide (size < 2 \/ _)) as [|Hn]; [done|].
  by rewrite (IH (offset + size)) by (intros; apply Hj; lia).
Qed.

Lemma get_u16_agree l l' v :
  byte l' v = byte l v -> byte l' (v + 1) = byte l (v + 1) -> get_u16 l' v = get_u16 l v.
Proof. unfold get_u16. by intros -> ->. Qed.

(** What the loop does to a segment, from [offset] on. *)
Record clamps (maximum : Z) (offsets : list Z) (tcp tcp' : list Z) : Prop := {
  clamps_len : len tcp' = len tcp;
  clamps_bytes : bytes_ok tcp';
  clamps_sum : eqm (word_sum true tcp') (word_sum true tcp);
  clamps_values :
    map (get_u16 tcp') offsets
    = map (fun v => Z.min maximum <$> get_u16 tcp v) offsets;
  clamps_rest : forall j, 0 <= j -> j <> 16 -> j <> 17 ->
    (forall v, v ∈ offsets -> j <> v /\ j <> v + 1) -> byte tcp' j = byte tcp j;
}.

Lemma clamps_refl maximum tcp : bytes_ok tcp -> clamps maximum [] tcp tcp.
Proof. by split. Qed.

(** Rewriting the value at the head of the offsets, then the rest. *)
Lemma clamps_cons maximum v offsets tcp tcp2 tcp' old :
  20 <= v -> (forall w, w ∈ offsets -> v + 2 <= w) ->
  get_u16 tcp v = Some old -> len tcp2 = len tcp ->
  eqm (word_sum true tcp2) (word_sum true tcp) ->
  get_u16 tcp2 v = Some (Z.min maximum old) ->
  (forall j, 0 <= j -> j <> 16 -> j <> 17 -> j <> v -> j <> v + 1 ->
     byte tcp2 j = byte tcp j) ->
  clamps maximum offsets tcp2 tcp' -> clamps maximum (v :: offsets) tcp tcp'.
Proof.
  intros Hv Hw Hg Hl Hs Hg2 Hj [H1 H2 H3 H4 H5].
  assert (forall j, v <= j <= v + 1 -> byte tcp' j = byte tcp2 j) as Hkeep
    by (intros j ?; apply H5; [lia..|intros w ?%Hw; lia]).
  split; [lia|done|by rewrite H3| |].
  - cbn [map]. f_equal.
    + rewrite (get_u16_agree tcp2 tcp') by (apply Hkeep; lia). by rewrite Hg2, Hg.
    + rewrite H4. apply map_ext_in. intros w Hin%list_elem_of_In. f_equal.
      apply Hw in Hin. apply get_u16_agree; apply Hj; lia.
  - intros j H0 H16 H17 Hall.
    destruct (Hall v) as [Hv1 Hv2]; [left|]. rewrite H5; [by apply Hj|done..|].
    intros w Hin. apply Hall. by right.
Qed.

Lemma clamp_loop_spec fuel d maximum tcp clamped offset :
  bytes_ok tcp -> is_u16 maximum -> 20 <= offset -> offset <= d <= len tcp ->
  d - offset < Z.of_nat fuel ->
  exists tcp' b, clamp_loop fuel d maximum tcp clamped offset = Some (tcp', b)
  /\ clamps maximum (mss_offsets fuel d tcp offset) tcp tcp'
  /\ (b = false -> clamped = false /\ tcp' = tcp).
Proof.
  intros Hb Hm. revert tcp clamped offset Hb.
  induction fuel as [|fuel IH]; intros tcp clamped offset Hb Ho Hd Hf; [lia|].
  assert (exists tcp' b, Some (tcp, clamped) = Some (tcp', b)
    /\ clamps maximum [] tcp tcp' /\ (b = false -> clamped = false /\ tcp' = tcp)) as Hstop
    by (exists tcp, clamped; split_and!; [done|by apply clamps_refl|done]).
  cbn [clamp_loop mss_offsets]. destruct (decide (d <= offset)); [done|].
  destruct (byte_Some tcp offset Hb) as (kind & Hk & _); [lia|].
  rewrite Hk. cbn [mbind option_bind]. destruct (decide (kind = TCP_OPTION_END)); [done|].
  destruct (decide (kind = TCP_OPTION_NOP)); [by apply IH; [done|lia..]|].
  destruct (decide (d <= offset + 1)); [done|].
  destruct (byte_Some tcp (offset + 1) Hb) as (size & Hn & _); [lia|].
  rewrite Hn. cbn [mbind option_bind].
  destruct (decide (size < 2 \/ d < offset + size)); [done|].
  destruct (decide (kind = TCP_OPTION_MSS /\ size = 4)) as [[-> ->]|];
    [|by apply IH; [done|lia..]].
  destruct (get_u16_split tcp (offset + 2) Hb) as (hi & lo & _ & Hh & Hlo & Hg); [lia|lia|].
  rewrite Hg. cbn [mbind option_bind app]. set (old := hi * 256 + lo) in *.
  assert (is_u16 old) by ilia.
  assert (forall t w, w ∈ mss_offsets fuel d t (offset + 4) -> offset + 2 + 2 <= w) as Hge
    by (intros t w Hw%mss_offsets_bounds; lia).
  destruct (decide (maximum < old)) as [Hlt|Hle].
  - destruct (rewrite_value tcp (offset + 2) old maximum Hb)
      as (t1 & t2 & Hp & Hu & Hl2 & Hb2 & Hs2 & Hg2 & Hj2); [lia|lia|done|done|done|].
    rewrite Hp. cbn [mbind option_bind]. rewrite Hu. cbn [mbind option_bind].
    destruct (IH t2 true (offset + 4) Hb2) as (t' & b & -> & Hc & Hf'); [lia..|].
    rewrite (mss_offsets_agree _ _ tcp) in Hc by (intros; apply Hj2; lia).
    exists t', b. split; [done|]. split; [|by intros [? _]%Hf'].
    apply (clamps_cons _ _ _ _ t2 _ old); eauto; [lia|].
    by rewrite Z.min_l by lia.
  - destruct (IH tcp clamped (offset + 4) Hb) as (t' & b & -> & Hc & Hf'); [lia..|].
    exists t', b. split; [done|]. split; [|done].
    apply (clamps_cons _ _ _ _ tcp _ old); eauto; [lia|done|].
    by rewrite Z.min_r by lia.
Qed.

Lemma clamp_segment tcp maximum :
  bytes_ok tcp -> TCP_HEADER_MIN_LENGTH <= len tcp -> is_u16 maximum ->
  exists tcp' b, clamp_tcp_syn_mss tcp maximum = Some (tcp', b)
  /\ clamps maximum (segment_mss_offsets tcp) tcp tcp'
  /\ (b = false -> tcp' = tcp).
Proof.
  unfold TCP_HEADER_MIN_LENGTH. intros Hb Hl Hm.
  unfold clamp_tcp_syn_mss, segment_mss_offsets, data_offset_of.
  destruct (byte_Some tcp 12 Hb) as (x & -> & Hx); [lia|]. cbn [mbind option_bind].
  unfold TCP_HEADER_MIN_LENGTH. destruct (decide _) as [|Hd].
  - exists tcp, false. split_and!; [done|by apply clamps_refl|done].
  - destruct (clamp_loop_spec (Z.to_nat (Z.shiftr x 4 * 4)) (Z.shiftr x 4 * 4) maximum tcp
      false 20 Hb Hm) as (tcp' & b & Hc & Hcl & Hf); [lia..|].
    exists tcp', b. split_and!; [done|done|by intros [_ ?]%Hf].
Qed.

(** C18: Clamping a TCP segment never reads or writes outside it, keeps its
    length and its Internet checksum (the sum of its 16-bit words modulo
    65535, so a valid segment stays valid), lowers every MSS option to the
    maximum and touches no other byte than those values and the checksum; and
    when it reports no change there is none. *)
Theorem clamp_tcp_syn_mss_correct tcp maximum :
  bytes_ok tcp -> TCP_HEADER_MIN_LENGTH <= len tcp -> is_u16 maximum ->
  exists tcp' b, clamp_tcp_syn_mss tcp maximum = Some (tcp', b)
  /\ clamps maximum (segment_mss_offsets tcp) tcp tcp'
  /\ (b = false -> tcp' = tcp).
Proof. apply clamp_segment. Qed.

(** A SYN with an MSS option of 1460, clamped to 1300. *)
Definition sample_syn : list Z :=
  [0; 80; 0; 81; 0; 0; 0; 1; 0; 0; 0; 0; 96; 2; 255; 255; 18; 52; 0; 0; 2; 4; 5; 180].

Lemma clamp_tcp_syn_mss_correct_witness :
  segment_mss_offsets sample_syn = [22]
  /\ exists tcp' b, clamp_tcp_syn_mss sample_syn 1300 = Some (tcp', b)
     /\ clamps 1300 (segment_mss_offsets sample_syn) sample_syn tcp'
     /\ (b = false -> tcp' = sample_syn).
Proof.
  split; [reflexivity|]. apply (clamp_tcp_syn_mss_correct sample_syn 1300).
  - apply bytes_okb_true. reflexivity.
  - vm_compute. congruence.
  - ilia.
Defined.

(** ** Whole packets *)

Lemma locate_total packet :
  bytes_ok packet ->
  exists o, locate_tcp_syn_segment packet = Some o
  /\ forall n, o = Some n -> 0 <= n /\ n + TCP_HEADER_MIN_LENGTH <= len packet.
Proof.
  intros Hb. unfold locate_tcp_syn_segment. destruct packet as [|first rest]; [by exists None|].
  set (packet := first :: rest) in *.
  assert (forall r, r = Some None \/ (exists n, r = Some (Some n) /\ 0 <= n <= len packet) ->
    exists o, (header ← r;
      match header with
      | None => Some None
      | Some n =>
          let tcp := skipn (Z.to_nat n) packet in
          if decide (len tcp < TCP_HEADER_MIN_LENGTH) then Some None
          else flags ← byte tcp 13;
               if decide (Z.land flags TCP_SYN = 0) then Some None else Some (Some n)
      end) = Some o
    /\ forall n, o = Some n -> 0 <= n /\ n + TCP_HEADER_MIN_LENGTH <= len packet) as Htail.
  { intros r [->|(n & -> & Hn)]; cbn [mbind option_bind]; [by exists None|].
    cbv zeta. destruct (decide _) as [|Hl]; [by exists None|]. unfold TCP_HEADER_MIN_LENGTH in *.
    destruct (byte_Some (skipn (Z.to_nat n) packet) 13) as (f & -> & _);
      [by apply Forall_drop|lia|]. cbn [mbind option_bind].
    destruct (decide _); [by exists None|]. exists (Some n). split; [done|].
    intros ? [= <-]. unfold len in *. rewrite length_drop in Hl. lia. }
  apply Htail. unfold IPV4_HEADER_MIN_LENGTH, IPV6_HEADER_LENGTH.
  destruct (decide (_ = 4)); [|destruct (decide (_ = 6)); [|by left]].
  - destruct (decide (len packet < 20)); [by left|].
    destruct (get_u16_split packet 2 Hb) as (? & ? & _ & _ & _ & ->); [lia..|].
    destruct (get_u16_split packet 6 Hb) as (? & ? & _ & _ & _ & ->); [lia..|].
    destruct (byte_Some packet 9 Hb) as (? & -> & _); [lia|]. cbn [mbind option_bind].
    destruct (decide _); [by left|]. destruct (decide _); [by left|].
    right. eexists. split; [done|]. lia.
  - destruct (decide (len packet < 40)); [by left|].
    destruct (get_u16_split packet 4 Hb) as (? & ? & _ & _ & _ & ->); [lia..|].
    destruct (byte_Some packet 6 Hb) as (? & -> & _); [lia|]. cbn [mbind option_bind].
    destruct (decide _); [by left|]. right. eexists. split; [done|]. lia.
Qed.

(** [apply] never panics and keeps the length of the packet. *)
Lemma apply_total c packet :
  bytes_ok packet -> is_u16 (maximum_segment_size c) ->
  exists packet', apply c packet = Some packet' /\ len packet' = len packet
  /\ bytes_ok packet'.
Proof.
  intros Hb Hm. unfold apply. destruct (negb (enabled c)) eqn:He; [by exists packet|].
  unfold apply_in_place. rewrite He. destruct packet as [|first rest]; [by exists []|].
  set (packet := first :: rest) in *. set (maximum := if decide _ then _ else _).
  assert (is_u16 maximum) as Hmax.
  { subst maximum. destruct (decide _); [|done]. unfold wrap16 at 1.
    pose proof (Z.mod_pos_bound (maximum_segment_size c - wrap16
      (IPV6_HEADER_LENGTH - IPV4_HEADER_MIN_LENGTH)) (2 ^ 16)).
    change (2 ^ 16) with 65536 in *. ilia. }
  destruct (locate_total packet Hb) as (o & -> & Hn). cbn [mbind option_bind].
  destruct o as [n|]; [|by exists packet]. destruct (Hn n eq_refl) as [Hn0 Hn1].
  unfold TCP_HEADER_MIN_LENGTH in Hn1.
  assert (len (skipn (Z.to_nat n) packet) = len packet - n) as Hlen
    by (unfold len in *; rewrite length_drop; lia).
  destruct (clamp_segment (skipn (Z.to_nat n) packet) maximum) as (tcp' & b & -> & Hc & _);
    [by apply Forall_drop|unfold TCP_HEADER_MIN_LENGTH; lia|done|].
  cbn [mbind option_bind]. destruct b; [|by exists packet].
  eexists. split; [done|]. destruct Hc as [Hcl Hcb _ _ _]. split.
  - unfold len in *. rewrite length_app, length_take. lia.
  - apply Forall_app_2; [by apply Forall_take|done].
Qed.

(** ** The size of the clamp *)

Lemma padded_length_mono cipher auth x y :
  0 <= x <= y -> Codec.padded_length cipher auth x <= Codec.padded_length cipher auth y.
Proof.
  intros Hxy. unfold Codec.padded_length. destruct (decide _) as [|Hn]; [lia|].
  assert (x / Z.of_nat (CbcCipher.block_size cipher)
          <= y / Z.of_nat (CbcCipher.block_size cipher))
    by (apply Z.div_le_mono; lia). nia.
Qed.

(** A longer payload never gives a shorter packet. *)
Lemma encoded_length_mono `{Crypto} `{DataCiphers} (codec : Codec.DynDataCodec) x y :
  0 <= x <= y -> encoded_length codec x <= encoded_length codec y.
Proof.
  intros Hxy. destruct codec; simpl; try lia; apply padded_length_mono; lia.
Qed.

Section Budget.
Context (encoded : Z -> Z) (packet_size : Z).
Context (Hmono : forall x y, 0 <= x <= y -> encoded x <= encoded y).

(** The loop finds the largest size that fits, if the smallest one does. *)
Lemma budget_loop_spec fuel lo hi :
  1 <= lo <= hi -> hi - lo < 2 ^ Z.of_nat fuel ->
  let r := budget_loop fuel encoded packet_size lo hi in
  lo <= r <= hi
  /\ (encoded lo <= packet_size ->
      encoded r <= packet_size
      /\ forall p, lo <= p <= hi -> encoded p <= packet_size -> p <= r)
  /\ (packet_size < encoded lo -> r = lo).
Proof using Hmono.
  revert lo hi. induction fuel as [|fuel IH]; intros lo hi Hlo Hf; cbn [budget_loop].
  { change (2 ^ Z.of_nat 0) with 1 in Hf. split_and!; [lia..| |done].
    intros ?. split; [done|lia]. }
  destruct (decide (lo < hi)) as [Hlt|].
  2:{ split_and!; [lia..| |done]. intros ?. split; [done|lia]. }
  set (c := lo + div_ceil (hi - lo) 2).
  assert (lo < c <= hi /\ 2 * (c - lo) <= hi - lo + 1 /\ hi - lo <= 2 * (c - lo)) as (Hc & Hc1 & Hc2).
  { subst c. unfold div_ceil. pose proof (Z.div_mod (hi - lo + 2 - 1) 2).
    pose proof (Z.mod_pos_bound (hi - lo + 2 - 1) 2). lia. }
  rewrite Nat2Z.inj_succ, Z.pow_succ_r in Hf by lia.
  destruct (decide (encoded c <= packet_size)) as [Hfit|Hno].
  - destruct (IH c hi) as (H1 & H2 & _); [lia|lia|]. destruct (H2 Hfit) as [H3 H4].
    split_and!; [lia..| |].
    + intros _. split; [done|]. intros p Hp Hpf. destruct (decide (c <= p)); [|lia].
      apply H4; [lia|done].
    + intros Hbad. pose proof (Hmono lo c). lia.
  - destruct (IH lo (c - 1)) as (H1 & H2 & H3); [lia|lia|]. split_and!; [lia..| |done].
    intros Hfit. destruct (H2 Hfit) as [H4 H5]. split; [done|].
    intros p Hp Hpf. apply H5; [|done].
    destruct (decide (p < c)); [lia|]. pose proof (Hmono c p). lia.
Qed.
End Budget.

(** With any codec, the payload budget of a packet size is the largest number
    of payload bytes whose packet fits in that size, whenever one byte fits;
    when not even an empty payload leaves room the result is the (negative or
    zero) space that is left. *)
Theorem payload_budget_maximal `{Crypto} `{DataCiphers} (codec : Codec.DynDataCodec)
    (packet_size header fixed : Z) :
  0 <= header -> 0 <= fixed -> 0 < packet_size < 2 ^ 63 ->
  let packet p := header + encoded_length codec (fixed + p) in
  let budget := calculate_data_payload_budget packet_size codec header fixed in
  (packet_size <= packet 0 -> budget = packet_size - packet 0)
  /\ (packet 0 < packet_size -> packet 1 <= packet_size ->
      1 <= budget <= packet_size /\ packet budget <= packet_size
      /\ forall p, 0 <= p <= packet_size -> packet p <= packet_size -> p <= budget).
Proof.
  intros Hh Hf Hs packet budget. unfold budget, calculate_data_payload_budget.
  assert (packet 0 = header + encoded_length codec fixed) as Hz
    by (unfold packet; do 2 f_equal; lia).
  rewrite <- Hz. split; [intros; by rewrite decide_True|].
  intros Hroom Hone. rewrite decide_False by lia.
  destruct (budget_loop_spec packet packet_size) with (fuel := 64%nat) (lo := 1) (hi := packet_size)
    as (B1 & B2 & _); [|lia|change (Z.of_nat 64) with 64; lia|].
  { intros x y Hxy. unfold packet. pose proof (encoded_length_mono codec (fixed + x) (fixed + y)). lia. }
  fold packet. destruct (B2 Hone) as [B3 B4]. split_and!; [lia..|exact B3|].
  intros p Hp Hfit. destruct (decide (1 <= p)); [apply B4; [lia|done]|lia].
Qed.

(** [mssfix 1250] with AES-256-GCM, a header of four bytes and forty fixed bytes. *)
Section example.
Import Codec ToyCrypto.

#[local] Instance no_ciphers : DataCiphers := {|
  aead_encrypt _ _ _ _ := None;
  aead_decrypt _ _ _ _ := None;
  cbc_encrypt _ _ _ _ := None;
  cbc_decrypt _ _ _ _ := None;
  stream_crypt _ _ _ _ _ _ := None;
|}.

Definition sample_codec : DynDataCodec :=
  TlsAead (mkTlsAead (mkAead AeadAes256 []) [] (mkAead AeadAes256 []) []
             (OvpnReplay.ReplayWindow.new 64 0)).

Lemma payload_budget_maximal_witness :
  calculate_data_payload_budget 1250 sample_codec 4 40 = 1186
  /\ (forall p, 0 <= p <= 1250 -> 4 + encoded_length sample_codec (40 + p) <= 1250 ->
        p <= calculate_data_payload_budget 1250 sample_codec 4 40).
Proof.
  split; [vm_compute; reflexivity|].
  destruct (payload_budget_maximal sample_codec 1250 4 40) as [_ Hb]; [lia..|].
  apply Hb; vm_compute; congruence.
Defined.

End example.

End Mss.
