(* ===== verification/OvpnKeepalive.v ===== *)
(** * Keepalive timers and data-channel messages ([protocol/openvpn/keepalive.rs])

    Instants and durations are nanoseconds. *)

From stdpp Require Import base numbers list strings.
From Stdlib Require Import ZArith Lia.
From S2P Require Import Prelude.

Local Open Scope Z_scope.

Module Keepalive.

Definition PRE_PULL_INITIAL_PING_RESTART : Z := from_secs 120.

Inductive ClientPingTimeoutAction : Type :=
| ActionNone
| Restart
| Exit.

Record KeepalivePolicy : Type := mkPolicy {
  ping_interval : Z;
  ping_restart : Z;
  ping_exit : Z;
  inactive_timeout : Z;
  inactive_minimum_bytes : Z;
  session_timeout : Z;
  renegotiation_interval : Z;
}.

Inductive KeepaliveTerminal : Type :=
| SessionTimeout
| InactiveTimeout
| PingRestartTimeout
| PingExitTimeout.

Record KeepaliveDecision : Type := mkDecision {
  request_renegotiation : bool;
  send_ping : bool;
  terminal : option KeepaliveTerminal;
}.

Record OpenVpnKeepaliveState : Type := mkState {
  session_start : Z;
  last_inbound : option Z;
  last_outbound : option Z;
  last_inactivity_reset : Z;
  inactivity_bytes : Z;
  renegotiation_deadline : option Z;
}.

Definition deadline (now interval : Z) : option Z :=
  if decide (interval <> 0) then Some (now + interval) else None.

Definition new (now renegotiation_interval : Z) : OpenVpnKeepaliveState :=
  mkState now (Some now) None now 0 (deadline now renegotiation_interval).

Definition mark_activity (s : OpenVpnKeepaliveState) (now : Z)
    (inbound outbound : bool) : OpenVpnKeepaliveState :=
  mkState (session_start s) (if inbound then Some now else last_inbound s)
    (if outbound then Some now else last_outbound s) (last_inactivity_reset s)
    (inactivity_bytes s) (renegotiation_deadline s).

(** The free function of the same name. *)
Definition accumulate_inactivity_bytes (accumulator byte_count threshold : Z) :
    Z * bool :=
  let accumulated := wrap64 (accumulator + byte_count) in
  if decide (threshold <= accumulated) then (0, true) else (accumulated, false).

Definition register_inactivity_bytes (s : OpenVpnKeepaliveState)
    (now byte_count threshold : Z) : OpenVpnKeepaliveState :=
  let '(accumulator, reset) :=
    accumulate_inactivity_bytes (inactivity_bytes s) byte_count threshold in
  mkState (session_start s) (last_inbound s) (last_outbound s)
    (if reset : bool then now else last_inactivity_reset s) accumulator
    (renegotiation_deadline s).

Definition note_renegotiated (s : OpenVpnKeepaliveState)
    (now renegotiation_interval : Z) : OpenVpnKeepaliveState :=
  mkState (session_start s) (last_inbound s) (last_outbound s)
    (last_inactivity_reset s) (inactivity_bytes s)
    (deadline now renegotiation_interval).

Definition effective_client_ping_timeout (ping_restart ping_exit : Z) :
    Z * ClientPingTimeoutAction :=
  if decide (ping_exit <> 0) then (ping_exit, Exit)
  else if decide (ping_restart <> 0) then (ping_restart, Restart)
  else (0, ActionNone).

Definition evaluate (s : OpenVpnKeepaliveState) (now : Z)
    (policy : KeepalivePolicy) : KeepaliveDecision :=
  let request :=
    match renegotiation_deadline s with
    | Some d => bool_decide (d <= now)
    | None => false
    end in
  let terminal :=
    if decide (session_timeout policy <> 0
               /\ session_timeout policy <= duration_since now (session_start s))
    then Some SessionTimeout
    else if decide (inactive_timeout policy <> 0
                    /\ inactive_timeout policy
                       <= duration_since now (last_inactivity_reset s))
    then Some InactiveTimeout
    else
      let '(timeout, action) :=
        effective_client_ping_timeout (ping_restart policy) (ping_exit policy) in
      if match last_inbound s with
         | Some last => bool_decide (timeout <> 0 /\ timeout < duration_since now last)
         | None => false
         end
      then
        match action with
        | Restart => Some PingRestartTimeout
        | Exit => Some PingExitTimeout
        | ActionNone => None
        end
      else None in
  let ping :=
    match terminal with Some _ => false | None => true end
    && bool_decide (ping_interval policy <> 0)
    && match last_outbound s with
       | Some last => bool_decide (ping_interval policy <= duration_since now last)
       | None => true
       end in
  mkDecision request ping terminal.

Definition pre_pull_ping_restart (disabled : bool) (configured : Z)
    (pull_enabled udp_transport : bool) : Z :=
  if disabled then 0
  else if decide (configured <> 0) then configured
  else if pull_enabled && udp_transport then PRE_PULL_INITIAL_PING_RESTART
  else 0.

(** ** Messages in the data channel *)

Definition OPENVPN_DATA_CHANNEL_PING_PAYLOAD : list Z :=
  [42; 24; 123; 243; 100; 30; 180; 203; 7; 237; 45; 10; 152; 31; 199; 72].
Definition OPENVPN_OCC_MAGIC : list Z :=
  [40; 127; 52; 107; 212; 239; 122; 129; 45; 86; 184; 211; 175; 197; 69; 156].
Definition OPENVPN_OCC_REQUEST : Z := 0.
Definition OPENVPN_OCC_REPLY : Z := 1.
Definition OPENVPN_OCC_EXIT : Z := 6.

Definition openvpn_data_channel_exit_notify_payload : list Z :=
  OPENVPN_OCC_MAGIC ++ [OPENVPN_OCC_EXIT].

Definition occ_opcode (payload : list Z) : option Z :=
  if decide (firstn (length OPENVPN_OCC_MAGIC) payload = OPENVPN_OCC_MAGIC)
  then head (skipn (length OPENVPN_OCC_MAGIC) payload)
  else None.

(** The options string as its bytes. *)
Definition build_occ_reply_payload (options_string : list Z) : list Z :=
  OPENVPN_OCC_MAGIC ++ [OPENVPN_OCC_REPLY] ++ options_string ++ [0].

Definition build_occ_response_for_incoming (incoming local_options_string : list Z) :
    option (list Z) :=
  if decide (occ_opcode incoming = Some OPENVPN_OCC_REQUEST
             /\ local_options_string <> [])
  then Some (build_occ_reply_payload local_options_string)
  else None.

Record PendingInner : Type := mkPending {
  closed : bool;
  ping_pending : bool;
  occ_message : option (list Z);
}.

Definition pending_default : PendingInner := mkPending false false None.

(** The boolean says that a waiter is notified. *)
Definition pending_send_ping (p : PendingInner) : PendingInner * bool :=
  if closed p then (p, false)
  else (mkPending (closed p) true (occ_message p), true).

Definition send_occ_message (p : PendingInner) (payload : list Z) :
    PendingInner * bool :=
  if decide (payload = []) then (p, false)
  else if closed p then (p, false)
  else (mkPending (closed p) (ping_pending p) (Some payload), true).

Definition take (p : PendingInner) : option (list Z) * PendingInner :=
  if closed p then (None, p)
  else if ping_pending p then
    (Some OPENVPN_DATA_CHANNEL_PING_PAYLOAD,
     mkPending (closed p) false (occ_message p))
  else (occ_message p, mkPending (closed p) (ping_pending p) None).

Definition close (p : PendingInner) : PendingInner := mkPending true false None.

(** ** Inactivity *)

(** The payloads that passed, with the instants they were registered at. *)
Definition register_all (s : OpenVpnKeepaliveState) (threshold : Z)
    (l : list (Z * Z)) : OpenVpnKeepaliveState :=
  foldl (fun s '(now, bytes) => register_inactivity_bytes s now bytes threshold) s l.

Definition total (l : list (Z * Z)) : Z := foldr (fun e acc => e.2 + acc) 0 l.

Lemma register_all_start s threshold l :
  session_start (register_all s threshold l) = session_start s.
Proof.
  revert s. induction l as [|[t n] l IH]; intros s; simpl; [done|].
  rewrite IH. unfold register_inactivity_bytes. by destruct (accumulate_inactivity_bytes _ _ _).
Qed.

(** The counter holds at most what was registered. *)
Lemma register_all_bytes s threshold l :
  0 <= inactivity_bytes s -> Forall (fun e => 0 <= e.2) l ->
  inactivity_bytes s + total l <= U64_MAX ->
  0 <= inactivity_bytes (register_all s threshold l) <= inactivity_bytes s + total l.
Proof.
  intros Ha Hl. revert s Ha.
  induction Hl as [|[t n] l Hn Hl IH]; intros s Ha Hmax; simpl in *; [lia|].
  assert (0 <= total l) as Ht by (clear -Hl; induction Hl; simpl; lia).
  set (s1 := register_inactivity_bytes s t n threshold).
  assert (0 <= inactivity_bytes s1 <= inactivity_bytes s + n) as Hs1.
  { subst s1. unfold register_inactivity_bytes, accumulate_inactivity_bytes, wrap64.
    rewrite Z.mod_small by ilia. destruct (decide _); simpl; lia. }
  specialize (IH s1). lia.
Qed.

(** Either the timer was reset at one of the instants, or everything was added
    up and the threshold was not reached. *)
Lemma register_all_cases s threshold l :
  0 <= inactivity_bytes s -> Forall (fun e => 0 <= e.2) l ->
  inactivity_bytes s + total l <= U64_MAX ->
  let s' := register_all s threshold l in
  last_inactivity_reset s' ∈ l.*1
  \/ (inactivity_bytes s' = inactivity_bytes s + total l
      /\ last_inactivity_reset s' = last_inactivity_reset s
      /\ (l <> [] -> inactivity_bytes s + total l < threshold)).
Proof.
  intros Ha Hl. revert s Ha.
  induction Hl as [|[t n] l Hn Hl IH]; intros s Ha Hmax; simpl in *; [right; split_and!; [lia|done|done]|].
  assert (0 <= total l) as Ht.
  { clear -Hl. induction Hl as [|e l He Hl IH]; simpl; lia. }
  set (s1 := register_inactivity_bytes s t n threshold).
  assert ((threshold <= inactivity_bytes s + n
           /\ inactivity_bytes s1 = 0 /\ last_inactivity_reset s1 = t)
          \/ (inactivity_bytes s + n < threshold
              /\ inactivity_bytes s1 = inactivity_bytes s + n
              /\ last_inactivity_reset s1 = last_inactivity_reset s)) as Hs1.
  { subst s1. unfold register_inactivity_bytes, accumulate_inactivity_bytes, wrap64.
    rewrite Z.mod_small by ilia. destruct (decide _); simpl; [left|right]; lia. }
  destruct (IH s1) as [Hin|(Hb & Hr & Hlt)]; [lia|lia|left; by right|].
  fold (register_all s1 threshold l).
  destruct Hs1 as [(_ & H0 & H1)|(Hn1 & H0 & H1)]; [left; rewrite Hr, H1; left|].
  right. split_and!; [lia|congruence|]. intros _. destruct l; [simpl; lia|].
  specialize (Hlt ltac:(done)). simpl in *. lia.
Qed.

(** A session that carries at least [inactive_minimum_bytes] within its
    inactivity timeout is not terminated for inactivity, whatever passed
    before. *)
Theorem active_session_survives (start interval : Z) (policy : KeepalivePolicy)
    (old recent : list (Z * Z)) (now : Z) :
  Forall (fun e => 0 <= e.2) (old ++ recent) -> total (old ++ recent) <= U64_MAX ->
  recent <> [] -> inactive_minimum_bytes policy <= total recent ->
  Forall (fun e => e.1 <= now < e.1 + inactive_timeout policy) recent ->
  terminal (evaluate (register_all (new start interval)
                        (inactive_minimum_bytes policy) (old ++ recent)) now policy)
  <> Some InactiveTimeout.
Proof.
  intros Hn Hmax Hne Henough Htimes.
  apply Forall_app in Hn as [Hno Hnr].
  assert (forall l, Forall (fun e : Z * Z => 0 <= e.2) l -> 0 <= total l) as Hpos.
  { intros l. induction 1; simpl; lia. }
  assert (total (old ++ recent) = total old + total recent) as Htot.
  { clear. induction old as [|e old IH]; simpl; lia. }
  unfold register_all. rewrite foldl_app. fold (register_all (new start interval)
    (inactive_minimum_bytes policy) old).
  set (s := register_all (new start interval) (inactive_minimum_bytes policy) old).
  pose proof (Hpos recent Hnr).
  assert (0 <= inactivity_bytes s <= total old) as Hs.
  { destruct (register_all_bytes (new start interval) (inactive_minimum_bytes policy) old);
      [done|done|simpl; lia|]. subst s. simpl in *. lia. }
  pose proof (register_all_cases s (inactive_minimum_bytes policy) recent) as Hc.
  fold (register_all s (inactive_minimum_bytes policy) recent).
  destruct Hc as [Hin|(_ & _ & Hlt)]; [lia|done|lia| |].
  2:{ specialize (Hlt Hne). lia. }
  apply list_elem_of_fmap in Hin as ([t n] & Ht & Hin).
  rewrite Forall_forall in Htimes. specialize (Htimes _ Hin). simpl in *.
  unfold evaluate. cbv zeta. cbn [terminal]. destruct (decide _); [done|].
  rewrite decide_False.
  - destruct (effective_client_ping_timeout _ _) as [timeout action].
    destruct (match last_inbound _ with Some _ => _ | None => _ end); [|done].
    by destruct action.
  - rewrite Ht. unfold duration_since. lia.
Qed.

(** Sixty bytes within ten seconds, after an idle minute. *)
Lemma active_session_survives_witness :
  let policy := mkPolicy 0 0 0 (from_secs 30) 50 0 0 in
  terminal (evaluate (register_all (new 0 0) 50
    [(from_secs 2, 10); (from_secs 60, 30); (from_secs 65, 30)]) (from_secs 70) policy)
  <> Some InactiveTimeout.
Proof.
  apply (active_session_survives 0 0 (mkPolicy 0 0 0 (from_secs 30) 50 0 0)
    [(from_secs 2, 10)] [(from_secs 60, 30); (from_secs 65, 30)] (from_secs 70)).
  - repeat constructor; simpl; lia.
  - vm_compute. congruence.
  - congruence.
  - vm_compute. congruence.
  - repeat constructor; vm_compute; congruence.
Defined.

(** The order of precedence of the timeouts. *)
Lemma evaluate_terminal s now policy :
  let d := evaluate s now policy in
  (terminal d = Some SessionTimeout
   <-> session_timeout policy <> 0
       /\ session_timeout policy <= duration_since now (session_start s))
  /\ (terminal d = Some InactiveTimeout ->
      inactive_timeout policy <= duration_since now (last_inactivity_reset s))
  /\ (forall t, terminal d = Some t -> send_ping d = false)
  /\ (ping_exit policy <> 0 -> terminal d <> Some PingRestartTimeout).
Proof.
  unfold evaluate. cbv zeta. cbn [terminal send_ping].
  destruct (decide (session_timeout policy <> 0 /\ _)) as [Hs|Hs]; [naive_solver|].
  destruct (decide (inactive_timeout policy <> 0 /\ _)) as [Hi|Hi]; [naive_solver|].
  unfold effective_client_ping_timeout.
  destruct (decide (ping_exit policy <> 0)) as [Hx|Hx];
    [|destruct (decide (ping_restart policy <> 0))];
    (destruct (match last_inbound s with Some _ => _ | None => _ end); naive_solver).
Qed.

(** A pending ping is delivered before an option message, and neither is lost
    to the other. *)
Lemma take_order p payload :
  closed p = false -> payload <> [] ->
  let p1 := (send_occ_message (pending_send_ping p).1 payload).1 in
  let '(m1, p2) := take p1 in
  let '(m2, p3) := take p2 in
  let '(m3, _) := take p3 in
  m1 = Some OPENVPN_DATA_CHANNEL_PING_PAYLOAD /\ m2 = Some payload /\ m3 = None.
Proof.
  intros Hc Hp. unfold send_occ_message. rewrite decide_False by done.
  unfold pending_send_ping, take. by destruct p as [[] ? ?].
Qed.

Lemma occ_opcode_magic op rest : occ_opcode (OPENVPN_OCC_MAGIC ++ op :: rest) = Some op.
Proof. unfold occ_opcode. rewrite take_app_length, drop_app_length. by rewrite decide_True. Qed.

End Keepalive.
