(* ===== verification/OvpnRenegotiation.v ===== *)
(** * When a key must be renegotiated ([protocol/openvpn/renegotiation.rs])

    Counters are [u64] and wrap; a packet id is a [u32]. *)

From stdpp Require Import base numbers list strings.
From Stdlib Require Import ZArith Lia.
From S2P Require Import Prelude OvpnText.

Local Open Scope Z_scope.

Module Renegotiation.

Definition OPENVPN_PACKET_ID_WRAP_TRIGGER : Z := 4278190080.
Definition SWEET32_RENEGOTIATION_BYTES_CLAMP : Z := 64 * 1024 * 1024.
Definition AES_GCM_USAGE_LIMIT : Z := (Z.shiftl 1 36 - 1) / 8 * 7.

Inductive RenegotiationDirection : Type :=
| Send
| Receive.

Global Instance RenegotiationDirection_eq_dec : EqDecision RenegotiationDirection.
Proof. solve_decision. Defined.

Record DirectionUsage : Type := mkUsage {
  highest_packet_id : Z;
  plaintext_blocks : Z;
}.

Definition default_usage : DirectionUsage := mkUsage 0 0.

Record DataRenegotiationBudget : Type := mkBudget {
  bytes_limit : Z;
  packets_limit : Z;
  aead_usage_limit : Z;
  active_key_id : Z;
  bytes_transferred : Z;
  packets_transferred : Z;
  send_usage : DirectionUsage;
  receive_usage : DirectionUsage;
}.

Definition is_sweet32_vulnerable_cipher (cipher_name : string) : bool :=
  bool_decide (Text.to_ascii_uppercase (Text.trim cipher_name) ∈
    ["BF-CBC"; "BF-CFB"; "BF-OFB"; "CAST5-CBC"; "CAST5-CFB"; "CAST5-OFB";
     "DES-CBC"; "DES-CFB"; "DES-OFB"; "DES-EDE-CBC"; "DES-EDE-CFB"; "DES-EDE-OFB";
     "DES-EDE3-CBC"; "DES-EDE3-CFB"; "DES-EDE3-OFB"; "RC2-CBC"; "RC2-40-CBC";
     "RC2-64-CBC"]%string).

Definition new (cipher_name : string) (configured_bytes configured_packets key : Z) :
    DataRenegotiationBudget :=
  let cipher_name := Text.to_ascii_uppercase (Text.trim cipher_name) in
  mkBudget
    (if decide (configured_bytes = 0 /\ is_sweet32_vulnerable_cipher cipher_name = true)
     then SWEET32_RENEGOTIATION_BYTES_CLAMP else configured_bytes)
    configured_packets
    (if decide (cipher_name ∈ ["AES-128-GCM"; "AES-192-GCM"; "AES-256-GCM"]%string)
     then AES_GCM_USAGE_LIMIT else 0)
    key 0 0 default_usage default_usage.

Definition consume_transfer (b : DataRenegotiationBudget)
    (key_id accounted_bytes : Z) : bool * DataRenegotiationBudget :=
  if decide (key_id <> active_key_id b) then (false, b)
  else
    let bytes := wrap64 (bytes_transferred b + accounted_bytes) in
    let packets := wrap64 (packets_transferred b + 1) in
    (bool_decide ((0 < bytes_limit b /\ bytes_limit b <= bytes)
                  \/ (0 < packets_limit b /\ packets_limit b <= packets)),
     mkBudget (bytes_limit b) (packets_limit b) (aead_usage_limit b)
       (active_key_id b) bytes packets (send_usage b) (receive_usage b)).

Definition consume_usage (b : DataRenegotiationBudget) (key_id : Z)
    (direction : RenegotiationDirection) (packet_id aead_plaintext_bytes : Z) :
    bool * DataRenegotiationBudget :=
  if decide (key_id <> active_key_id b) then (false, b)
  else
    let usage :=
      match direction with Send => send_usage b | Receive => receive_usage b end in
    let highest := Z.max (highest_packet_id usage) packet_id in
    let blocks :=
      if decide (0 < aead_plaintext_bytes)
      then wrap64 (plaintext_blocks usage + div_ceil aead_plaintext_bytes 16)
      else plaintext_blocks usage in
    let usage := mkUsage highest blocks in
    (bool_decide
       ((direction = Send /\ OPENVPN_PACKET_ID_WRAP_TRIGGER <= packet_id)
        \/ (0 < aead_usage_limit b
            /\ aead_usage_limit b < wrap64 (blocks + highest))),
     mkBudget (bytes_limit b) (packets_limit b) (aead_usage_limit b)
       (active_key_id b) (bytes_transferred b) (packets_transferred b)
       (match direction with Send => usage | Receive => send_usage b end)
       (match direction with Send => receive_usage b | Receive => usage end)).

Definition reset (b : DataRenegotiationBudget) (key : Z) : DataRenegotiationBudget :=
  mkBudget (bytes_limit b) (packets_limit b) (aead_usage_limit b) key 0 0
    default_usage default_usage.

(** ** A session's accounting *)

Inductive event : Type :=
| Transfer (key_id bytes : Z)
| Usage (key_id : Z) (direction : RenegotiationDirection) (packet_id bytes : Z).

Definition event_ok (e : event) : Prop :=
  match e with
  | Transfer _ n => 0 <= n
  | Usage _ _ id n => is_u32 id /\ 0 <= n
  end.

Definition step (b : DataRenegotiationBudget) (e : event) :
    bool * DataRenegotiationBudget :=
  match e with
  | Transfer k n => consume_transfer b k n
  | Usage k d id n => consume_usage b k d id n
  end.

Definition run (b : DataRenegotiationBudget) (es : list event) :
    DataRenegotiationBudget :=
  foldl (fun b e => (step b e).2) b es.

(** What the events amount to for one key: the bytes and packets transferred,
    and for a direction the highest id and the 16-byte blocks. *)
Definition bytes_of (k : Z) (e : event) : Z :=
  match e with
  | Transfer k' n => if decide (k' = k) then n else 0
  | Usage _ _ _ _ => 0
  end.

Definition packets_of (k : Z) (e : event) : Z :=
  match e with
  | Transfer k' _ => if decide (k' = k) then 1 else 0
  | Usage _ _ _ _ => 0
  end.

Definition blocks_of (k : Z) (d : RenegotiationDirection) (e : event) : Z :=
  match e with
  | Usage k' d' _ n => if decide (k' = k /\ d' = d) then div_ceil n 16 else 0
  | Transfer _ _ => 0
  end.

Definition id_of (k : Z) (d : RenegotiationDirection) (e : event) : Z :=
  match e with
  | Usage k' d' id _ => if decide (k' = k /\ d' = d) then id else 0
  | Transfer _ _ => 0
  end.

Definition sum (f : event -> Z) (es : list event) : Z :=
  foldr (fun e acc => f e + acc) 0 es.

Definition highest (f : event -> Z) (es : list event) : Z :=
  foldr (fun e acc => Z.max (f e) acc) 0 es.

Lemma div_ceil_16 n : 0 <= n -> 0 <= div_ceil n 16 /\ (n = 0 -> div_ceil n 16 = 0).
Proof.
  intros Hn. unfold div_ceil. split; [apply Z.div_pos; lia|]. by intros ->.
Qed.

Lemma sum_app f es es' : sum f (es ++ es') = sum f es + sum f es'.
Proof. induction es as [|e es IH]; simpl; lia. Qed.

Lemma highest_app f es es' :
  highest f (es ++ es') = Z.max (highest f es) (highest f es').
Proof.
  induction es as [|e es IH]; simpl; [|lia].
  assert (forall l, 0 <= highest f l) as H0 by (induction l; simpl; lia).
  specialize (H0 es'). lia.
Qed.

Lemma bytes_of_nonneg k e : event_ok e -> 0 <= bytes_of k e.
Proof. destruct e; simpl; [|done]. by destruct (decide _). Qed.

Lemma packets_of_nonneg k e : event_ok e -> 0 <= packets_of k e.
Proof. destruct e; simpl; [|done]. by destruct (decide _). Qed.

Lemma blocks_of_nonneg k d e : event_ok e -> 0 <= blocks_of k d e.
Proof.
  destruct e; simpl; [done|]. intros [_ Hn]. destruct (decide _); [|done].
  by apply div_ceil_16.
Qed.

Lemma sum_nonneg f es :
  Forall event_ok es -> (forall e, event_ok e -> 0 <= f e) -> 0 <= sum f es.
Proof. intros Hes Hf. induction Hes as [|e es He _ IH]; simpl; [lia|]. specialize (Hf e He). lia. Qed.

Definition usage_of (b : DataRenegotiationBudget) (d : RenegotiationDirection) :
    DirectionUsage :=
  match d with Send => send_usage b | Receive => receive_usage b end.

(** The counters are the totals of the key [k], modulo [2^64]. *)
Definition counts (k : Z) (b : DataRenegotiationBudget) (es : list event) : Prop :=
  bytes_transferred b = wrap64 (sum (bytes_of k) es)
  /\ packets_transferred b = wrap64 (sum (packets_of k) es)
  /\ forall d, highest_packet_id (usage_of b d) = highest (id_of k d) es
       /\ plaintext_blocks (usage_of b d) = wrap64 (sum (blocks_of k d) es).

Definition same_limits (b b' : DataRenegotiationBudget) : Prop :=
  active_key_id b' = active_key_id b /\ bytes_limit b' = bytes_limit b
  /\ packets_limit b' = packets_limit b /\ aead_usage_limit b' = aead_usage_limit b.

Lemma highest_nonneg f es : 0 <= highest f es.
Proof. induction es; simpl; lia. Qed.

Lemma counts_snoc k b b' es e :
  counts k b es ->
  bytes_transferred b' = wrap64 (bytes_transferred b + bytes_of k e) ->
  packets_transferred b' = wrap64 (packets_transferred b + packets_of k e) ->
  (forall d, highest_packet_id (usage_of b' d)
             = Z.max (highest_packet_id (usage_of b d)) (id_of k d e)
     /\ plaintext_blocks (usage_of b' d)
        = wrap64 (plaintext_blocks (usage_of b d) + blocks_of k d e)) ->
  counts k b' (es ++ [e]).
Proof.
  intros (Hb & Hp & Hu) Hb' Hp' Hu'.
  assert (forall x y, wrap64 (wrap64 x + y) = wrap64 (x + y)) as Hw
    by (intros; unfold wrap64; by rewrite Zplus_mod_idemp_l).
  unfold counts. rewrite !sum_app, Hb', Hp', Hb, Hp, !Hw. simpl. rewrite !Z.add_0_r.
  split_and!; [done|done|]. intros d. destruct (Hu d) as [H1 H2], (Hu' d) as [H3 H4].
  rewrite sum_app, highest_app, H3, H4, H1, H2, Hw. simpl. rewrite Z.add_0_r.
  split; [|done]. pose proof (highest_nonneg (id_of k d) es). lia.
Qed.

Lemma wrap64_idem x : wrap64 (wrap64 x) = wrap64 x.
Proof. unfold wrap64. by rewrite Z.mod_mod. Qed.

(** Zero contributions change nothing. *)
Lemma counts_zero k b es :
  counts k b es ->
  wrap64 (bytes_transferred b + 0) = bytes_transferred b
  /\ wrap64 (packets_transferred b + 0) = packets_transferred b
  /\ forall d, Z.max (highest_packet_id (usage_of b d)) 0 = highest_packet_id (usage_of b d)
     /\ wrap64 (plaintext_blocks (usage_of b d) + 0) = plaintext_blocks (usage_of b d).
Proof.
  intros (Hb & Hp & Hu). rewrite !Z.add_0_r, Hb, Hp, !wrap64_idem. split_and!; try done.
  intros d. destruct (Hu d) as [-> ->]. rewrite Z.add_0_r, wrap64_idem. split; [|done].
  pose proof (highest_nonneg (id_of k d) es). lia.
Qed.

Lemma counts_other k b es e :
  counts k b es -> bytes_of k e = 0 -> packets_of k e = 0 ->
  (forall d, id_of k d e = 0 /\ blocks_of k d e = 0) -> counts k b (es ++ [e]).
Proof.
  intros Hc Hb Hp Hu. destruct (counts_zero _ _ _ Hc) as (Z1 & Z2 & Z3).
  apply (counts_snoc k b); [done|by rewrite Hb, Z1|by rewrite Hp, Z2|].
  intros d. destruct (Hu d) as [-> ->], (Z3 d) as [-> ->]. done.
Qed.

Lemma step_counts b es e :
  counts (active_key_id b) b es -> event_ok e ->
  counts (active_key_id b) (step b e).2 (es ++ [e]) /\ same_limits b (step b e).2.
Proof.
  intros Hc He. destruct (counts_zero _ _ _ Hc) as (Z1 & Z2 & Z3).
  destruct e as [k n|k d id n]; simpl; unfold consume_transfer, consume_usage;
    destruct (decide (k <> active_key_id b)) as [Hne|Heq]; (split; [|done]); simpl.
  - apply counts_other; simpl; rewrite ?decide_False by done; done.
  - apply (counts_snoc _ b); simpl; rewrite ?(decide_True (P := k = _)) by lia; try done.
    intros d. destruct (Z3 d) as [H1 H2]. by rewrite H1, H2.
  - apply counts_other; try done. intros d'. simpl.
    by rewrite !decide_False by naive_solver.
  - apply (counts_snoc _ b); [done|by simpl; rewrite Z1|by simpl; rewrite Z2|]. intros d'. simpl.
    destruct (decide (d = d')) as [<-|Hd].
    + rewrite !(decide_True (P := k = _ /\ _)) by (split; [lia|done]).
      destruct He as [_ Hn], (div_ceil_16 n Hn) as [_ Hz].
      destruct (decide (0 < n)); [by destruct d|].
      rewrite Hz by lia. rewrite (proj2 (Z3 d)). by destruct d.
    + rewrite !(decide_False (P := k = _ /\ _)) by naive_solver. rewrite (proj1 (Z3 d')), (proj2 (Z3 d')).
      by destruct d, d'.
Qed.

Lemma run_counts b es :
  counts (active_key_id b) b [] -> Forall event_ok es ->
  counts (active_key_id b) (run b es) es /\ same_limits b (run b es).
Proof.
  intros H0 Hes. induction es as [|e es IH] using rev_ind; [by split|].
  apply Forall_app in Hes as [Hes He]. rewrite Forall_singleton in He.
  destruct (IH Hes) as [Hc Hl]. unfold run in *. rewrite foldl_app. cbn [foldl].
  set (b1 := foldl _ b es) in *. pose proof Hl as (Hk & L1 & L2 & L3).
  rewrite <- Hk in Hc |- *.
  destruct (step_counts b1 es e Hc He) as [Hc' (Hk' & M1 & M2 & M3)].
  split; [done|]. split_and!; congruence.
Qed.

Lemma new_counts cipher bytes packets key :
  let b := new cipher bytes packets key in counts (active_key_id b) b [].
Proof. split_and!; try done. by intros []. Qed.

Lemma reset_counts b key :
  let b' := reset b key in counts (active_key_id b') b' [].
Proof. split_and!; try done. by intros []. Qed.

(** The answers, in terms of the counters after the call. *)
Lemma consume_transfer_answer b n :
  let '(r, b') := consume_transfer b (active_key_id b) n in
  r = true <-> (0 < bytes_limit b <= bytes_transferred b'
                \/ 0 < packets_limit b <= packets_transferred b').
Proof.
  unfold consume_transfer. rewrite decide_False by naive_solver.
  rewrite bool_decide_eq_true. simpl. tauto.
Qed.

Lemma consume_usage_answer b d id m :
  let '(r, b') := consume_usage b (active_key_id b) d id m in
  r = true <-> ((d = Send /\ OPENVPN_PACKET_ID_WRAP_TRIGGER <= id)
                \/ (0 < aead_usage_limit b
                    < wrap64 (plaintext_blocks (usage_of b' d)
                              + highest_packet_id (usage_of b' d)))).
Proof.
  unfold consume_usage. rewrite (decide_False (P := _ <> _)) by naive_solver.
  rewrite bool_decide_eq_true. destruct d; simpl; tauto.
Qed.

(** The accounting is exact.  After any sequence of transfers and cipher uses
    under any keys, the next transfer under the active key asks for a
    renegotiation exactly when the bytes or the packets of that key reach
    their limit, and the next use exactly when a sent packet id reaches the
    wrap-around trigger or the blocks and the highest id of that direction
    exceed the AEAD limit (the totals being below [2^64]); packets of other
    keys never count. *)
Theorem renegotiation_exact (cipher : string) (bytes packets key : Z)
    (es : list event) (n id m : Z) (d : RenegotiationDirection) :
  let b0 := new cipher bytes packets key in
  let b := run b0 es in
  let total_bytes := sum (bytes_of key) (es ++ [Transfer key n]) in
  let total_packets := sum (packets_of key) (es ++ [Transfer key n]) in
  let blocks := sum (blocks_of key d) (es ++ [Usage key d id m]) in
  let top := highest (id_of key d) (es ++ [Usage key d id m]) in
  Forall event_ok es -> 0 <= n -> is_u32 id -> 0 <= m ->
  total_bytes <= U64_MAX -> total_packets <= U64_MAX -> blocks + top <= U64_MAX ->
  ((consume_transfer b key n).1 = true
   <-> (0 < bytes_limit b0 <= total_bytes \/ 0 < packets <= total_packets))
  /\ ((consume_usage b key d id m).1 = true
      <-> ((d = Send /\ OPENVPN_PACKET_ID_WRAP_TRIGGER <= id)
           \/ 0 < aead_usage_limit b0 < blocks + top))
  /\ (forall key', key' <> key ->
        consume_transfer b key' n = (false, b) /\ consume_usage b key' d id m = (false, b)).
Proof.
  intros b0 b total_bytes total_packets blocks top Hes Hn Hid Hm Hb Hp Hu.
  destruct (run_counts b0 es (new_counts _ _ _ _) Hes) as [Hc (Hk & L1 & L2 & L3)].
  fold b in Hc, Hk, L1, L2, L3. change (active_key_id b0) with key in *.
  assert (forall e, event_ok e -> counts key (step b e).2 (es ++ [e])) as Hstep.
  { intros e He. rewrite <- Hk in Hc. rewrite <- Hk. by apply step_counts. }
  assert (forall f, (forall e, event_ok e -> 0 <= f e) -> forall e, event_ok e ->
            0 <= sum f (es ++ [e])) as Hpos.
  { intros f Hf e He. apply sum_nonneg; [|done]. apply Forall_app; by split; [|constructor]. }
  assert (forall x, 0 <= x <= U64_MAX -> wrap64 x = x) as Hw
    by (intros; apply Z.mod_small; ilia).
  destruct (Hstep (Transfer key n) Hn) as (C1 & C2 & _).
  destruct (Hstep (Usage key d id m) (conj Hid Hm)) as (_ & _ & C3).
  specialize (C3 d) as [C3 C4]. cbn [step] in C1, C2, C3, C4.
  pose proof (consume_transfer_answer b n) as A1.
  pose proof (consume_usage_answer b d id m) as A2. rewrite Hk in A1, A2.
  split_and!.
  - destruct (consume_transfer b key n) as [r b1]. simpl in *. rewrite A1, C1, C2, L1, L2.
    rewrite !Hw; [done|..]; (split; [|done]); apply Hpos with (e := Transfer key n);
      auto using bytes_of_nonneg, packets_of_nonneg.
  - destruct (consume_usage b key d id m) as [r b1]. simpl in *. rewrite A2, C3, C4, L3.
    assert (0 <= blocks) as Hbl.
    { apply Hpos with (e := Usage key d id m); [|done]. auto using blocks_of_nonneg. }
    assert (0 <= top) by apply highest_nonneg. fold blocks. fold top.
    rewrite (Hw blocks), Hw by lia. done.
  - intros key' Hne. unfold consume_transfer, consume_usage. rewrite Hk.
    by rewrite !(decide_True (P := key' <> key)).
Qed.

Lemma renegotiation_exact_witness :
  let b := run (new "AES-256-GCM" 1000 0 1) [Transfer 1 600; Transfer 2 900;
             Usage 1 Send 7 600] in
  (consume_transfer b 1 400).1 = true /\ (consume_transfer b 1 399).1 = false.
Proof.
  assert (forall n, 0 <= n <= 1000 ->
    (consume_transfer (run (new "AES-256-GCM" 1000 0 1) [Transfer 1 600; Transfer 2 900;
       Usage 1 Send 7 600]) 1 n).1 = true <-> 400 <= n) as Hx.
  { intros n Hn.
    destruct (renegotiation_exact "AES-256-GCM" 1000 0 1 [Transfer 1 600; Transfer 2 900;
       Usage 1 Send 7 600] n 8 100 Send) as [Ht _].
    - repeat constructor; simpl; ilia.
    - lia.
    - ilia.
    - lia.
    - simpl. ilia.
    - vm_compute. congruence.
    - vm_compute. congruence.
    - change (bytes_limit (new "AES-256-GCM" 1000 0 1)) with 1000 in Ht.
      simpl in Ht |- *. rewrite Ht. lia. }
  split; [apply Hx; lia|]. apply not_true_iff_false. rewrite Hx; lia.
Defined.

End Renegotiation.
