(* ===== verification/OvpnDataPlane.v ===== *)
(** * The TLS data plane ([protocol/openvpn/data_plane.rs])

    A plane owns its session, codec and framing; the code keeps their state
    behind mutexes, here it is passed along.  The plane is generic in the
    codec, as in the code, and the theorems use only the interface
    [DataCodecLaws].  [random id] is the randomness of the packet [id]. *)

From stdpp Require Import base numbers list list_numbers gmap strings.
From Stdlib Require Import ZArith Lia.
From S2P Require Import Prelude OvpnPacket OvpnSession OvpnFragment OvpnCompression OvpnCrypto.
From S2P Require Import OvpnDataCodec OvpnKeepalive.

Local Open Scope Z_scope.

Inductive IncomingDataEvent : Type :=
| PayloadEvent (payload : list Z)
| PingEvent
| ExitEvent
| OccResponse (response : list Z)
| FragmentPending.

Inductive DataPlaneError : Type :=
| CodecError (e : OpenVpnDataCodecError)
| FramingError (e : CompressionError)
| PlanePacketError (e : PacketError)
| PlaneSessionError (e : SessionError)
| WrongKeyState
| WrongPeerId.

Record EncodedDataPacket : Type := mkEncoded {
  raw_packet : list Z;
  encoded_key_id : Z;
  encoded_packet_id : Z;
  aead_block_bytes : Z;
  encoded_accounted_bytes : Z;
}.

Record DecodedDataEvent : Type := mkDecoded {
  event : IncomingDataEvent;
  decoded_key_id : Z;
  decoded_packet_id : Z;
  aead_plaintext_bytes : Z;
  decoded_accounted_bytes : Z;
}.

Module DataPlane.

Section Plane.
Context {C : Type} `{OpenVpnDataCodec C} `{Compressors}.
Context (iter : gmap Z Fragment.IncomingBuffer -> list (Z * Fragment.IncomingBuffer)).

Record TlsDataPlane : Type := mkPlane {
  session : Session.SessionInner;
  codec : C;
  framing : option Compression.DataChannelFraming;
  peer_id : option Z;
  local_options_string : list Z;
}.

Definition mask_peer_id (peer_id : option Z) : option Z :=
  (fun value => Z.land value 16777215) <$> peer_id.

Definition new (session : Session.SessionInner) (codec : C)
    (framing : option Compression.DataChannelFraming) (peer_id : option Z)
    (local_options_string : list Z) : TlsDataPlane :=
  mkPlane session codec framing (mask_peer_id peer_id) local_options_string.

Definition set_peer_id (d : TlsDataPlane) (peer_id : option Z) : TlsDataPlane :=
  mkPlane (session d) (codec d) (framing d) (mask_peer_id peer_id)
    (local_options_string d).

(** [peer_id.to_be_bytes()[1..]]. *)
Definition peer_id_bytes (peer_id : Z) : list Z := skipn 1 (to_be_bytes 4 peer_id).

Definition data_v2_aad (packet : Packet.Packet) : list Z :=
  if decide (Packet.opcode packet <> DataV2) then []
  else
    [Z.lor (wrap8 (Z.shiftl (Opcode.wire_value (Packet.opcode packet)) 3))
       (Z.land (Packet.key_id packet) 7)]
      ++ Packet.peer_id packet.

(** The closure that [encode_payload_with_metadata] maps over the frames. *)
Definition encode_one (d : TlsDataPlane) (random : Z -> nat -> option (list Z))
    (opcode : Opcode) (payload : list Z) (packet_id : Z) :
    result DataPlaneError EncodedDataPacket :=
  let key_id := Session.key_id (session d) in
  let packet := Packet.new opcode key_id [] in
  let packet :=
    match peer_id d with
    | Some p => Packet.set_peer_id (peer_id_bytes p) packet
    | None => packet
    end in
  let aad := data_v2_aad packet in
  body ← map_err CodecError (encode (codec d) (random packet_id) packet_id aad payload);
  let packet := Packet.set_payload body packet in
  raw ← map_err PlanePacketError (Packet.encode packet);
  Ok (mkEncoded raw key_id packet_id
        (Z.of_nat (length body) + Z.of_nat (length aad)) (Z.of_nat (length raw))).

(** The mapped iterator, collected into a [Result]. *)
Fixpoint encode_frames (d : TlsDataPlane) (random : Z -> nat -> option (list Z))
    (opcode : Opcode) (frames : list (list Z * Z)) :
    result DataPlaneError (list EncodedDataPacket) :=
  match frames with
  | [] => Ok []
  | (payload, packet_id) :: frames =>
      packet ← encode_one d random opcode payload packet_id;
      packets ← encode_frames d random opcode frames;
      Ok (packet :: packets)
  end.

Definition opcode_of (d : TlsDataPlane) : Opcode :=
  match peer_id d with Some _ => DataV2 | None => DataV1 end.

Definition encode_payload_with_metadata (d : TlsDataPlane)
    (random : Z -> nat -> option (list Z)) (payload : list Z)
    (fragment_size now : Z) :
    result DataPlaneError (list EncodedDataPacket) * TlsDataPlane :=
  let '(framed, framing') :=
    match framing d with
    | Some f =>
        let '(r, f) := Compression.encode f payload fragment_size now in (r, Some f)
    | None => (Ok [payload], None)
    end in
  let d := mkPlane (session d) (codec d) framing' (peer_id d) (local_options_string d) in
  match framed with
  | Err e => (Err (FramingError e), d)
  | Ok framed =>
      let opcode := opcode_of d in
      let '(ids, session') :=
        Session.new_data_packet_ids (session d) opcode (Z.of_nat (length framed)) in
      let d := mkPlane session' (codec d) (framing d) (peer_id d)
                 (local_options_string d) in
      match ids with
      | Err e => (Err (PlaneSessionError e), d)
      | Ok ids => (encode_frames d random opcode (zip framed ids), d)
      end
  end.

Definition encode_payload (d : TlsDataPlane)
    (random : Z -> nat -> option (list Z)) (payload : list Z)
    (fragment_size now : Z) : result DataPlaneError (list (list Z)) * TlsDataPlane :=
  let '(r, d) := encode_payload_with_metadata d random payload fragment_size now in
  (map raw_packet <$> r, d).

(** The event that a decoded payload stands for. *)
Definition classify (local_options_string payload : list Z) : IncomingDataEvent :=
  if decide (payload = Keepalive.OPENVPN_DATA_CHANNEL_PING_PAYLOAD) then PingEvent
  else if decide (Keepalive.occ_opcode payload = Some Keepalive.OPENVPN_OCC_EXIT)
  then ExitEvent
  else if decide (firstn (length Keepalive.OPENVPN_OCC_MAGIC) payload
                    = Keepalive.OPENVPN_OCC_MAGIC
                  /\ Keepalive.occ_opcode payload = Some Keepalive.OPENVPN_OCC_REQUEST)
  then
    match Keepalive.build_occ_response_for_incoming payload local_options_string with
    | Some response => OccResponse response
    | None => PayloadEvent payload
    end
  else PayloadEvent payload.

Definition decode_packet_with_metadata (d : TlsDataPlane) (packet : Packet.Packet)
    (now : Z) : result DataPlaneError DecodedDataEvent * TlsDataPlane :=
  if negb (Opcode.is_data (Packet.opcode packet))
     || bool_decide (Packet.key_id packet <> Session.key_id (session d))
  then (Err WrongKeyState, d)
  else if bool_decide (Packet.opcode packet = DataV2)
          && match peer_id d with
             | Some p => bool_decide (peer_id_bytes p <> Packet.peer_id packet)
             | None => false
             end
  then (Err WrongPeerId, d)
  else
    let aad := data_v2_aad packet in
    let '(r, codec') := decode (codec d) now aad (Packet.payload packet) in
    let d := mkPlane (session d) codec' (framing d) (peer_id d)
               (local_options_string d) in
    match r with
    | Err e => (Err (CodecError e), d)
    | Ok (packet_id, decrypted) =>
        let '(payload, framing') :=
          match framing d with
          | Some f => let '(r, f) := Compression.decode iter f decrypted now in (r, Some f)
          | None => (Ok (Some decrypted), None)
          end in
        let d := mkPlane (session d) (codec d) framing' (peer_id d)
                   (local_options_string d) in
        match payload with
        | Err e => (Err (FramingError e), d)
        | Ok payload =>
            let event :=
              match payload with
              | None => FragmentPending
              | Some payload => classify (local_options_string d) payload
              end in
            (Ok (mkDecoded event (Packet.key_id packet) packet_id
                   (Z.of_nat (length decrypted))
                   (Z.of_nat (length (Packet.payload packet)))), d)
        end
    end.

Definition decode_packet (d : TlsDataPlane) (packet : Packet.Packet) (now : Z) :
    result DataPlaneError IncomingDataEvent * TlsDataPlane :=
  let '(r, d) := decode_packet_with_metadata d packet now in (event <$> r, d).

Definition decode_raw_packet (d : TlsDataPlane) (raw : list Z) (now : Z) :
    result DataPlaneError IncomingDataEvent * TlsDataPlane :=
  match Packet.parse raw with
  | Err e => (Err (PlanePacketError e), d)
  | Ok packet => decode_packet d packet now
  end.

(** A sequence of datagrams with their arrival times. *)
Fixpoint decode_raw_packets (d : TlsDataPlane) (l : list (list Z * Z)) :
    list (result DataPlaneError IncomingDataEvent) * TlsDataPlane :=
  match l with
  | [] => ([], d)
  | (raw, now) :: l =>
      let '(r, d) := decode_raw_packet d raw now in
      let '(rs, d) := decode_raw_packets d l in
      (r :: rs, d)
  end.

(** ** One packet *)

Definition data_packet (op : Opcode) (key : Z) (peer : option Z) (body : list Z) :
    Packet.Packet :=
  Packet.set_payload body
    (match peer with
     | Some p => Packet.set_peer_id (peer_id_bytes p) (Packet.new op key [])
     | None => Packet.new op key []
     end).

Definition wire_opcode (peer : option Z) : Opcode :=
  match peer with Some _ => DataV2 | None => DataV1 end.

Lemma length_peer_id_bytes p : length (peer_id_bytes p) = 3%nat.
Proof using Type. unfold peer_id_bytes. by rewrite length_drop, length_to_be_bytes. Qed.

Lemma data_packet_round_trip key peer body :
  0 <= key < 8 ->
  exists raw, Packet.encode (data_packet (wire_opcode peer) key peer body) = Ok raw
  /\ Packet.parse raw = Ok (data_packet (wire_opcode peer) key peer body).
Proof using Type.
  intros Hk. unfold data_packet.
  assert (key = 0 \/ key = 1 \/ key = 2 \/ key = 3 \/ key = 4 \/ key = 5 \/ key = 6 \/ key = 7)
    as Hcases by lia.
  destruct peer as [p|]; simpl.
  - pose proof (length_peer_id_bytes p) as Hl.
    destruct (peer_id_bytes p) as [|x [|y [|z [|]]]]; try done.
    destruct_or! Hcases; subst key; eexists; (split; [reflexivity|]); reflexivity.
  - destruct_or! Hcases; subst key; eexists; (split; [reflexivity|]); reflexivity.
Qed.

(** What the plane makes of a frame that the codec has opened. *)
Definition outcome (options : list Z) (r : result CompressionError (option (list Z))) :
    result DataPlaneError IncomingDataEvent :=
  match r with
  | Err e => Err (FramingError e)
  | Ok None => Ok FragmentPending
  | Ok (Some payload) => Ok (classify options payload)
  end.

Definition unframe (f : option Compression.DataChannelFraming) (plain : list Z) (now : Z) :
    result CompressionError (option (list Z)) * option Compression.DataChannelFraming :=
  match f with
  | Some f => let '(r, f) := Compression.decode iter f plain now in (r, Some f)
  | None => (Ok (Some plain), None)
  end.

Context {laws : DataCodecLaws C}.

(** The sender's plane and the receiver's agree on the key and the peer. *)
Definition same_peer (s r : TlsDataPlane) : Prop :=
  0 <= Session.key_id (session s) < 8
  /\ Session.key_id (session r) = Session.key_id (session s)
  /\ (peer_id r = peer_id s \/ peer_id r = None).

Lemma deliver_one s r random n id frame now :
  same_peer s r -> linked (codec s) (codec r) n -> good_random (random id) ->
  1 <= n <= id -> id <= U32_MAX -> frame <> [] -> Z.of_nat (length frame) <= U32_MAX ->
  exists packet c', encode_one s random (opcode_of s) frame id = Ok packet
  /\ linked (codec s) c' (id + 1)
  /\ decode_raw_packet r (raw_packet packet) now
     = let '(o, f) := unframe (framing r) frame now in
       (outcome (local_options_string r) o,
        mkPlane (session r) c' f (peer_id r) (local_options_string r)).
Proof using Type.
  intros (Hk & Hkr & Hp) Hl Hr Hn Hid Hne Hlen. unfold encode_one.
  set (packet0 := match peer_id s with Some _ => _ | None => _ end).
  destruct (decode_encode (codec s) (codec r) n (random id) id (data_v2_aad packet0) frame now
    Hl Hr Hn Hid Hne Hlen) as (body & c' & He & _ & Hd & Hl').
  rewrite He. cbn [map_err]. rbind.
  destruct (data_packet_round_trip (Session.key_id (session s)) (peer_id s) body Hk)
    as (raw & Hraw & Hparse).
  assert (Packet.set_payload body packet0
    = data_packet (wire_opcode (peer_id s)) (Session.key_id (session s)) (peer_id s) body)
    as -> by done.
  rewrite Hraw. cbn [map_err]. rbind. eexists _, c'. split; [done|]. split; [done|].
  cbn [raw_packet]. unfold decode_raw_packet. rewrite Hparse.
  unfold decode_packet, decode_packet_with_metadata.
  assert (Packet.key_id (data_packet (wire_opcode (peer_id s)) (Session.key_id (session s))
            (peer_id s) body) = Session.key_id (session s)) as Hkey.
  { unfold data_packet. destruct (peer_id s); simpl; rewrite land_7; by apply Z.mod_small. }
  rewrite Hkey, Hkr, (bool_decide_false (_ <> _)) by naive_solver.
  assert (data_v2_aad (data_packet (wire_opcode (peer_id s)) (Session.key_id (session s))
            (peer_id s) body) = data_v2_aad packet0) as ->
    by (unfold packet0, data_packet, opcode_of; by destruct (peer_id s)).
  assert (Packet.payload (data_packet (wire_opcode (peer_id s)) (Session.key_id (session s))
            (peer_id s) body) = body) as -> by (unfold data_packet; by destruct (peer_id s)).
  rewrite Hd. destruct r as [se cr fr pr os]. cbn in *.
  destruct Hp as [-> | ->]; destruct (peer_id s) as [p|]; cbn;
    rewrite ?(bool_decide_false (_ <> _)) by naive_solver; cbn;
    (destruct fr as [f|]; cbn; [destruct (Compression.decode iter f frame now) as [[[q|]|e] f']|]; reflexivity).
Qed.

Fixpoint unframe_all (f : option Compression.DataChannelFraming) (l : list (list Z * Z)) :
    list (result CompressionError (option (list Z))) * option Compression.DataChannelFraming :=
  match l with
  | [] => ([], f)
  | (plain, now) :: l =>
      let '(o, f) := unframe f plain now in
      let '(os, f) := unframe_all f l in
      (o :: os, f)
  end.

Lemma unframe_all_Some f l :
  unframe_all (Some f) l
  = let '(os, f) := Compression.decode_all iter f l in (os, Some f).
Proof using Type.
  revert f. induction l as [|[p t] l IH]; intros f; [done|]. simpl.
  destruct (Compression.decode iter f p t) as [o f1]. rewrite IH.
  by destruct (Compression.decode_all iter f1 l).
Qed.

Lemma deliver_frames s r random id frames times :
  same_peer s r -> linked (codec s) (codec r) id -> (forall i, good_random (random i)) ->
  1 <= id -> id + Z.of_nat (length frames) <= U32_MAX + 1 ->
  Forall (fun f => f <> [] /\ Z.of_nat (length f) <= U32_MAX) frames ->
  length times = length frames ->
  exists packets c',
    encode_frames s random (opcode_of s) (zip frames (seqZ id (Z.of_nat (length frames))))
    = Ok packets
  /\ length packets = length frames
  /\ linked (codec s) c' (id + Z.of_nat (length frames))
  /\ decode_raw_packets r (zip (map raw_packet packets) times)
     = let '(os, f) := unframe_all (framing r) (zip frames times) in
       (outcome (local_options_string r) <$> os,
        mkPlane (session r) c' f (peer_id r) (local_options_string r)).
Proof using Type.
  intros Hsp Hl Hr Hid Hmax Hf. revert r id times Hsp Hl Hid Hmax.
  induction Hf as [|f frames [Hne Hlen] _ IH]; intros r id times Hsp Hl Hid Hmax Ht.
  - exists [], (codec r). rewrite Z.add_0_r. split_and!; [done..|]. by destruct r.
  - destruct times as [|t times]; [done|]. simpl in Ht, Hmax.
    destruct (deliver_one s r random id id f t Hsp Hl (Hr id)) as (packet & c1 & He & Hl1 & Hd);
      [lia..|done|done|].
    cbn [zip zip_with length]. rewrite seqZ_cons by lia.
    destruct (unframe (framing r) f t) as [o f1] eqn:Hu.
    set (r1 := mkPlane (session r) c1 f1 (peer_id r) (local_options_string r)) in Hd.
    destruct (IH r1 (id + 1) times) as (packets & c2 & Hes & Hlp & Hl2 & Hds);
      [done|done|lia..|].
    exists (packet :: packets), c2. cbn [zip zip_with encode_frames map].
    rewrite He. rbind. replace (Z.pred (Z.of_nat (S (length frames))))
      with (Z.of_nat (length frames)) by lia.
    rewrite <- Z.add_1_r, Hes. rbind. split_and!; [done|simpl; lia| |].
    + by replace (id + Z.of_nat (S (length frames)))
        with (id + 1 + Z.of_nat (length frames)) by lia.
    + cbn [zip zip_with decode_raw_packets unframe_all]. rewrite Hd, Hu.
      cbn [zip] in Hds. rewrite Hds.
      unfold r1; cbn [framing local_options_string session peer_id].
      by destruct (unframe_all f1 _) as [os f2].
Qed.

(** ** A sequence of payloads *)

Context {compressor_laws : CompressorLaws}.
Context (iter_perm : forall m, iter m ≡ₚ map_to_list m).

Definition framings_match (s r : option Compression.DataChannelFraming) : Prop :=
  match s, r with
  | None, None => True
  | Some s, Some r =>
      Compression.sequence_ok s /\ Compression.ready r
      /\ Compression.compression r = Compression.compression s
      /\ Compression.fragment_enabled r = Compression.fragment_enabled s
  | _, _ => False
  end.

(** Two planes at the ends of one tunnel: the receiver opens what the sender
    will send next and holds no half-received packet. *)
Definition in_sync (s r : TlsDataPlane) : Prop :=
  same_peer s r
  /\ 1 <= Session.local_data_packet_id (session s)
  /\ linked (codec s) (codec r) (Session.local_data_packet_id (session s))
  /\ framings_match (framing s) (framing r).

Definition fragments_on (f : option Compression.DataChannelFraming) : bool :=
  match f with Some f => Compression.fragment_enabled f | None => false end.

(** The ways [encode_payload] may refuse a payload: it does not fit in the
    fragments, or the packet ids of the key run out. *)
Definition refusal (d : TlsDataPlane) (e : DataPlaneError) : Prop :=
  (fragments_on (framing d) = true
   /\ e ∈ [FramingError (FragmentFailure PacketSizeTooSmall);
            FramingError (FragmentFailure TooManyFragments)])
  \/ (e = PlaneSessionError PacketIdExpired
      /\ U32_MAX - FRAGMENT_MAX_PARTS < Session.local_data_packet_id (session d)).

(** What an exchange leaves of the sender. *)
Definition continues (s s' : TlsDataPlane) : Prop :=
  fragments_on (framing s') = fragments_on (framing s)
  /\ Session.local_data_packet_id (session s) <= Session.local_data_packet_id (session s').

Lemma refusal_mono s s' e : continues s s' -> refusal s e -> refusal s' e.
Proof using Type.
  intros [Hf Hn] [[? ?]|[? ?]]; [left|right]; (split; [congruence|done || lia]).
Qed.

Lemma frame_payload s r payload size now :
  framings_match s r -> payload <> [] -> 0 <= size ->
  Z.of_nat (length payload) + 2 <= U16_MAX ->
  let '(framed, s') :=
    match s with
    | Some f => let '(x, f) := Compression.encode f payload size now in (x, Some f)
    | None => (Ok [payload], None)
    end in
  framings_match s' r /\ fragments_on s' = fragments_on s
  /\ match framed with
     | Err e => fragments_on s = true
         /\ e ∈ [FragmentFailure PacketSizeTooSmall; FragmentFailure TooManyFragments]
     | Ok frames => Z.of_nat (length frames) <= FRAGMENT_MAX_PARTS
         /\ Forall (fun f => f <> [] /\ Z.of_nat (length f) <= U32_MAX) frames
         /\ forall times t0, length times = length frames ->
            Forall (fun t => t0 <= t < t0 + FRAGMENT_REASSEMBLY_TIMEOUT) times ->
            exists k r', length frames = S k
            /\ unframe_all r (zip frames times)
               = (replicate k (Ok None) ++ [Ok (Some payload)], r')
            /\ framings_match s' r'
     end.
Proof using All.
  intros Hm Hne Hsz Hlen. destruct s as [s|], r as [r|]; try done.
  - destruct Hm as (Hs & Hr & Hc & Hf).
    destruct (Compression.encode s payload size now) as [x s'] eqn:He.
    destruct (Compression.framing_encode_keeps s payload size now x s' Hs He) as (Hs' & Hc' & Hf').
    pose proof (Compression.encode_outcome s payload size now x s' Hsz He) as Ho.
    split; [simpl; by rewrite Hc', Hf'|]. split; [done|].
    destruct x as [frames|e]; [|done]. split_and!; [done| |].
    + eapply Forall_impl; [by eapply Compression.encode_lengths|].
      intros f [? Hfl]. split; [done|]. unfold Fragment.len in Hfl. ilia.
    + intros times t0 Ht Hw.
      destruct (Compression.decode_all_encoded iter iter_perm s r payload size now frames s'
        times t0 Hs Hr Hc Hf Hsz Hlen He Ht Hw) as (r' & k & Hk & Hd & Hr' & Hcr & Hfr).
      exists k, (Some r'). rewrite unframe_all_Some, Hd. simpl. by rewrite Hcr, Hfr, Hc', Hf'.
  - split_and!; [done|done|by vm_compute|constructor; [split; [done|ilia]|done]|].
    intros [|t [|]] t0 Ht _; try done. by exists 0%nat, None.
Qed.

(** The packets of framed payloads, with the ids the session allots. *)
Lemma deliver_framed s r random id frames :
  same_peer s r -> 1 <= id ->
  linked (codec s) (codec r) id ->
  (forall i, good_random (random i)) ->
  Forall (fun f => f <> [] /\ Z.of_nat (length f) <= U32_MAX) frames ->
  id + Z.of_nat (length frames) <= U32_MAX + 1 ->
  exists packets,
    encode_frames s random (opcode_of s)
      (zip frames (seqZ id (Z.of_nat (length frames))))
    = Ok packets
  /\ length packets = length frames
  /\ forall times, length times = length frames -> exists c',
     linked (codec s) c' (id + Z.of_nat (length frames))
     /\ decode_raw_packets r (zip (map raw_packet packets) times)
        = let '(os, f) := unframe_all (framing r) (zip frames times) in
          (outcome (local_options_string r) <$> os,
           mkPlane (session r) c' f (peer_id r) (local_options_string r)).
Proof using Type.
  intros Hsp Hid Hl Hr Hfl Hmax.
  destruct (deliver_frames s r random _ frames (replicate (length frames) 0)
    Hsp Hl Hr Hid Hmax Hfl) as (packets & _ & He & Hlen & _); [apply length_replicate|].
  exists packets. split; [done|]. split; [done|]. intros times Ht.
  destruct (deliver_frames s r random _ frames times Hsp Hl Hr Hid Hmax Hfl Ht)
    as (packets' & c' & He' & _ & Hl' & Hd).
  assert (packets' = packets) as -> by congruence. by exists c'.
Qed.

Lemma deliver_payload s r random payload size now :
  in_sync s r -> (forall i, good_random (random i)) -> payload <> [] -> 0 <= size ->
  Z.of_nat (length payload) + 2 <= U16_MAX ->
  let '(x, s') := encode_payload s random payload size now in
  continues s s'
  /\ match x with
     | Err e => refusal s' e /\ in_sync s' r
     | Ok raws =>
         forall times t0, length times = length raws ->
         Forall (fun t => t0 <= t < t0 + FRAGMENT_REASSEMBLY_TIMEOUT) times ->
         exists k r', length raws = S k
         /\ decode_raw_packets r (zip raws times)
            = (replicate k (Ok FragmentPending)
                 ++ [Ok (classify (local_options_string r) payload)], r')
         /\ local_options_string r' = local_options_string r
         /\ in_sync s' r'
     end.
Proof using All.
  intros (Hsp & Hid & Hl & Hm) Hr Hne Hsz Hlen.
  pose proof (frame_payload _ _ payload size now Hm Hne Hsz Hlen) as Hf.
  unfold encode_payload, encode_payload_with_metadata.
  destruct (match framing s with Some _ => _ | None => _ end) as [framed fs'].
  destruct Hf as (Hm' & Hon & Hf). destruct framed as [frames|e].
  2: { destruct Hf as [Hf He]. split; [by split|]. split; [left|done].
       split; [simpl; congruence|].
       apply elem_of_cons in He as [->|He%list_elem_of_singleton]; [|subst]; repeat constructor. }
  destruct Hf as (Hcount & Hfl & Hf).
  cbn [session codec framing peer_id local_options_string].
  set (s1 := mkPlane _ _ _ _ _). unfold Session.new_data_packet_ids.
  assert (Opcode.is_data (opcode_of s1) = true) as ->
    by (unfold opcode_of, s1; simpl; by destruct (peer_id s)).
  cbn [negb]. unfold FRAGMENT_MAX_PARTS in Hcount.
  rewrite decide_False by ilia. destruct (decide _) as [Hend|Hend].
  { split; [by split|]. split; [right|done]. split; [done|]. unfold FRAGMENT_MAX_PARTS. simpl. lia. }
  rewrite Z.add_simpl_l. set (s2 := mkPlane _ _ _ _ _).
  destruct (deliver_framed s2 r random (Session.local_data_packet_id (session s)) frames
    Hsp Hid Hl Hr Hfl) as (packets & He & Hpl & Hd); [lia|].
  change (opcode_of s1) with (opcode_of s2). rewrite He. cbn [fmap result_fmap].
  split; [split; [done|simpl; lia]|]. intros times t0 Ht Hw. rewrite length_map in *.
  destruct (Hd times) as (c' & Hl' & Hdec); [congruence|].
  destruct (Hf times t0) as (k & fr & Hk & Hu & Hm2); [congruence|done|].
  rewrite Hdec, Hu, fmap_app, fmap_replicate.
  exists k. eexists. split; [congruence|]. split; [reflexivity|]. split; [done|].
  split_and!; [done|simpl; lia|done|done].
Qed.

(** The payload, its fragment size, when it is sent and when its packets arrive. *)
Record Sending : Type := mkSending {
  sent_payload : list Z;
  fragment_size : Z;
  sent_at : Z;
  arrival : nat -> Z;
}.

Definition sending_ok (q : Sending) : Prop :=
  sent_payload q <> [] /\ Z.of_nat (length (sent_payload q)) + 2 <= U16_MAX
  /\ 0 <= fragment_size q
  /\ exists t0, forall j, t0 <= arrival q j < t0 + FRAGMENT_REASSEMBLY_TIMEOUT.

(** The sender encodes the payloads one after the other; the packets of each
    reach the receiver in order. *)
Fixpoint exchange (random : Z -> nat -> option (list Z)) (s r : TlsDataPlane)
    (l : list Sending) :
    list (result DataPlaneError (list (result DataPlaneError IncomingDataEvent)))
    * TlsDataPlane * TlsDataPlane :=
  match l with
  | [] => ([], s, r)
  | q :: l =>
      match encode_payload s random (sent_payload q) (fragment_size q) (sent_at q) with
      | (Err e, s) => let '(xs, s, r) := exchange random s r l in (Err e :: xs, s, r)
      | (Ok raws, s) =>
          let '(events, r) :=
            decode_raw_packets r (zip raws (arrival q <$> seq 0 (length raws))) in
          let '(xs, s, r) := exchange random s r l in (Ok events :: xs, s, r)
      end
  end.

Lemma exchange_spec random s r l :
  (forall i, good_random (random i)) -> in_sync s r -> Forall sending_ok l ->
  let '(xs, s', r') := exchange random s r l in
  continues s s' /\ in_sync s' r'
  /\ Forall2 (fun q x =>
       match x with
       | Err e => refusal s' e
       | Ok events => exists k, events = replicate k (Ok FragmentPending)
           ++ [Ok (classify (local_options_string r) (sent_payload q))]
       end) l xs.
Proof using All.
  intros Hr Hs Hl. revert s r Hs.
  induction Hl as [|q l (Hne & Hlen & Hsz & t0 & Hw) _ IH]; intros s r Hs; simpl.
  { split; [split; [done|lia]|]. split; [done|constructor]. }
  pose proof (deliver_payload s r random (sent_payload q) (fragment_size q) (sent_at q)
    Hs Hr Hne Hsz Hlen) as Hd.
  destruct (encode_payload _ _ _ _ _) as [[raws|e] s1].
  - destruct Hd as [[Hf Hn] Hd].
    destruct (Hd (arrival q <$> seq 0 (length raws)) t0) as (k & r1 & _ & -> & Ho & Hs1).
    { by rewrite length_fmap, length_seq. }
    { apply Forall_fmap, Forall_true. intros j. apply Hw. }
    specialize (IH s1 r1 Hs1). destruct (exchange random s1 r1 l) as [[xs s2] r2].
    destruct IH as ([Hf2 Hn2] & Hs2 & Hx). rewrite Ho in Hx.
    split; [split; [congruence|lia]|]. split; [done|]. constructor; [by exists k|done].
  - destruct Hd as ([Hf Hn] & He & Hs1).
    specialize (IH s1 r Hs1). destruct (exchange random s1 r l) as [[xs s2] r2].
    destruct IH as (Hc2 & Hs2 & Hx). pose proof Hc2 as [Hf2 Hn2].
    split; [split; [congruence|lia]|]. split; [done|]. constructor; [|done].
    by eapply refusal_mono.
Qed.

(** Two planes of one session, as [new] builds them. *)
Lemma new_in_sync session session' c c' settings fragment policy peer options options' :
  0 <= Session.key_id session < 8 -> Session.key_id session' = Session.key_id session ->
  1 <= Session.local_data_packet_id session ->
  linked c c' (Session.local_data_packet_id session) ->
  in_sync (new session c (Compression.new settings fragment policy) peer options)
          (new session' c' (Compression.new settings fragment policy) peer options').
Proof using Type.
  intros Hk Hk' Hid Hl. split; [|split; [done|split; [done|]]].
  - split_and!; try done; simpl; try lia. by left.
  - simpl. destruct (Compression.new settings fragment policy) as [f|] eqn:Hf; simpl; [|done].
    by apply Compression.new_ready in Hf as [? ?].
Qed.

(** C1: A tunnel delivers, whatever codec, compression and fragmentation it
    uses.  Two planes are in sync: the receiver's codec opens what the sender's
    seals next, both frame alike, and no packet is half received.  Payloads are
    sent that are not empty and have 65533 bytes at most (65535 with the bytes
    of the framing), and the packets of each arrive in order, without loss,
    within the reassembly timeout.  Then every payload that is encoded reaches
    the other plane unchanged: its packets yield pending fragments and, with
    the last, the event of exactly that payload.  Encoding refuses a payload
    only if it needs too many or too small fragments, or if the packet ids of
    the key are used up, and a refusal does not disturb the payloads that
    follow: the planes stay in sync. *)
Theorem tunnel_delivers (random : Z -> nat -> option (list Z)) (s r : TlsDataPlane)
    (l : list Sending) :
  (forall i, good_random (random i)) -> in_sync s r -> Forall sending_ok l ->
  let '(xs, s', r') := exchange random s r l in
  in_sync s' r'
  /\ Forall2 (fun q x =>
       match x with
       | Err e => refusal s' e
       | Ok events => exists k, events = replicate k (Ok FragmentPending)
           ++ [Ok (classify (local_options_string r) (sent_payload q))]
       end) l xs.
Proof using All.
  intros Hr Hs Hl. pose proof (exchange_spec random s r l Hr Hs Hl) as Hx.
  destruct (exchange random s r l) as [[xs s'] r']. apply Hx.
Qed.

End Plane.
Arguments TlsDataPlane C : clear implicits.

(** ** An example tunnel, with LZO framing, fragments and an AEAD cipher *)
Section examples.
#[local] Existing Instance ToyCrypto.toy_crypto.
#[local] Existing Instance ToyCrypto.toy_laws.
#[local] Existing Instance Codec.toy_ciphers.
#[local] Existing Instance Codec.toy_cipher_laws.
#[local] Existing Instance Compression.toy_compressors.
#[local] Existing Instance Compression.toy_compressor_laws.

Definition example_plane (server : bool) : TlsDataPlane Codec.DynDataCodec :=
  new (Session.with_local_id (replicate 8 (if server then 2 else 1)))
    (Codec.toy_endpoint server "AES-256-GCM")
    (Compression.new Compression.example_settings 8 Asymmetric) (Some 5) [86; 52].

(** A payload of four fragments, a ping, and a payload that has too many. *)
Definition example_sendings : list Sending :=
  [mkSending (seqZ 0 30) 8 0 (fun j => Z.min (Z.of_nat j) 40);
   mkSending Keepalive.OPENVPN_DATA_CHANNEL_PING_PAYLOAD 100 0 (fun _ => 7);
   mkSending (replicate 400 1) 8 0 (fun _ => 8)].

Lemma tunnel_delivers_witness :
  let '(xs, s', r') := exchange map_to_list (fun _ => Codec.toy_random)
    (example_plane false) (example_plane true) example_sendings in
  xs = [Ok (replicate 3 (Ok FragmentPending) ++ [Ok (PayloadEvent (seqZ 0 30))]);
        Ok [Ok PingEvent]; Err (FramingError (FragmentFailure TooManyFragments))]
  /\ in_sync s' r'.
Proof.
  assert (in_sync (example_plane false) (example_plane true)) as Hs.
  { apply new_in_sync; [vm_compute; split; congruence|reflexivity|vm_compute; congruence|].
    refine (proj1 (Codec.tls_session (seqZ 0 256) "AES-256-GCM" "SHA256" 0 0 _ 1000 1000 _ _ _ _));
      [ilia|vm_compute; reflexivity|vm_compute; reflexivity]. }
  pose proof (tunnel_delivers map_to_list (fun _ => reflexivity _)
    (fun _ => Codec.toy_random) (example_plane false) (example_plane true) example_sendings) as Ht.
  assert ((exchange map_to_list (fun _ => Codec.toy_random) (example_plane false)
    (example_plane true) example_sendings).1.1
    = [Ok (replicate 3 (Ok FragmentPending) ++ [Ok (PayloadEvent (seqZ 0 30))]);
       Ok [Ok PingEvent]; Err (FramingError (FragmentFailure TooManyFragments))]) as Hx
    by (vm_compute; reflexivity).
  destruct (exchange _ _ _ _ _) as [[xs s'] r']. split; [exact Hx|].
  apply Ht; [|exact Hs|].
  - intros i n. exists (replicate n 9). split; [done|apply length_replicate].
  - repeat apply Forall_cons_2; [| | |apply Forall_nil_2];
      (split_and!; [discriminate|by vm_compute|by vm_compute|]);
      [exists 0|exists 7|exists 8]; intros j; simpl;
      change FRAGMENT_REASSEMBLY_TIMEOUT with 30000000000; lia.
Defined.
End examples.

End DataPlane.
