(* ===== verification/OvpnControlWrap.v ===== *)
(** * Control-channel protection ([protocol/openvpn/control_wrap.rs])

    [tls-auth], [tls-crypt] and [tls-crypt-v2] wrapping of control packets.
    The atomics of [PacketIdState] and the replay window behind its [Mutex] are
    passed explicitly; [unix] is the result of [unix_timestamp], [now] the
    instant at which a packet is decoded. *)

From stdpp Require Import base numbers list list_numbers strings.
From Stdlib Require Import ZArith Lia.
From S2P Require Import Prelude OvpnPacket OvpnReplay OvpnCrypto.

Local Open Scope Z_scope.

Definition TLS_CONTROL_HEADER_LENGTH : nat := 9.
Definition TLS_CONTROL_PACKET_ID_LENGTH : nat := 8.
Definition TLS_CRYPT_TAG_LENGTH : nat := 32.
Definition TLS_CRYPT_BLOCK_LENGTH : nat := 16.
Definition TLS_CRYPT_V2_CLIENT_KEY_DATA_LENGTH : nat := 256.
Definition TLS_CRYPT_V2_SERVER_KEY_LENGTH : nat := 128.
Definition TLS_CRYPT_KEY_DIRECTION_NORMAL : Z := 0.
Definition TLS_CRYPT_KEY_DIRECTION_INVERSE : Z := 1.
Definition TLS_CRYPT_V2_EARLY_NEGOTIATION_START : Z := 251658240.
Definition TLS_CRYPT_V2_TLV_TYPE_EARLY_NEGOTIATION_FLAGS : Z := 1.
Definition TLS_CRYPT_V2_EARLY_NEGOTIATION_FLAG_RESEND_WKC : Z := 1.

(** The message of [Key] is not modelled. *)
Inductive ControlWrapError : Type :=
| InvalidPacket
| AuthenticationFailed
| ReplayedPacket
| NoneAuth
| Key
| MissingWrappedClientKey
| MissingServerKey
| InvalidV2WrappedKey
| InvalidV2WrappedKeyLength
| InvalidV2ClientKey
| InvalidV2ServerKey
| V2PlaintextTooShort
| MalformedEarlyNegotiation
| InvalidPem.

(** ** Outgoing packet ids *)

Module PacketIdState.

Record PacketIdState : Type := mkState {
  next_id : Z;
  timestamp : Z;
}.

Definition default : PacketIdState := mkState 0 0.

Definition seed_next_id (s : PacketIdState) (next_id unix : Z) : PacketIdState :=
  mkState next_id (if decide (timestamp s = 0) then unix else timestamp s).

(** One successful iteration of the compare-and-exchange loop of [next]. *)
Definition next (s : PacketIdState) (unix : Z) : list Z * PacketIdState :=
  let current := next_id s in
  let wraps := bool_decide (current = U32_MAX) in
  let next := if wraps then 1 else current + 1 in
  let timestamp :=
    if wraps || bool_decide (timestamp s = 0)
    then Z.max (timestamp s) unix else timestamp s in
  (to_be_bytes 4 next ++ to_be_bytes 4 timestamp, mkState next timestamp).

End PacketIdState.

Module ControlWrap.

Section protection.
Context `{Crypto}.

(** [resolve_direction]: send slot, receive slot, fallback slot. *)
Definition resolve_direction (direction : Z) : nat * nat * nat :=
  if decide (direction = 1 \/ direction = 2) then (1, 0, 1)%nat
  else if decide (direction < 0) then (0, 0, 1)%nat
  else (0, 1, 0)%nat.

Definition accept_control_packet_id (replay : ReplayWindow.ReplayWindow)
    (packet_id : list Z) (now : Z) :
    result ControlWrapError unit * ReplayWindow.ReplayWindow :=
  let id := from_be_bytes (StaticKey.slice 0 4 packet_id) in
  let timestamp := from_be_bytes (StaticKey.slice 4 8 packet_id) in
  let '(accepted, replay) :=
    ReplayWindow.accept_long_form_at replay id timestamp now in
  (if accepted : bool then Ok () else Err ReplayedPacket, replay).

Definition new_window : ReplayWindow.ReplayWindow :=
  ReplayWindow.new ReplayWindow.DEFAULT_REPLAY_WINDOW_SIZE
    ReplayWindow.DEFAULT_REPLAY_WINDOW_TIME.

(** ** [tls-auth] *)

Record ControlAuthCodec : Type := mkAuth {
  a_send_key : list Z;
  a_receive_keys : list (list Z);
  a_send_state : PacketIdState.PacketIdState;
  a_receive_state : ReplayWindow.ReplayWindow;
  a_auth : OpenVpnAuthDigest;
}.

Definition auth_new (static_key : list Z) (key_direction : Z)
    (auth_name : string) : result ControlWrapError ControlAuthCodec :=
  material ←
    map_err (fun _ => Key) (StaticKey.parse_openvpn_static_key static_key);
  auth ← map_err (fun _ => Key) (Digest.from_name auth_name);
  if decide (auth = DigestNone) then Err NoneAuth
  else
    slots ← ok_or Key (StaticKey.split_static_key_material material);
    let '(send, receive, fallback) := resolve_direction key_direction in
    let digest_size := Digest.output_size auth in
    let key i := firstn digest_size (StaticKey.hmac_key (StaticKey.slot slots i)) in
    Ok (mkAuth (key send)
          (key receive :: if decide (fallback <> receive) then [key fallback] else [])
          PacketIdState.default new_window auth).

Definition auth_new_session_codec (c : ControlAuthCodec) : ControlAuthCodec :=
  mkAuth (a_send_key c) (a_receive_keys c) PacketIdState.default new_window
    (a_auth c).

Definition auth_seed_next_packet_id (c : ControlAuthCodec) (next_id unix : Z) :
    ControlAuthCodec :=
  mkAuth (a_send_key c) (a_receive_keys c)
    (PacketIdState.seed_next_id (a_send_state c) next_id unix)
    (a_receive_state c) (a_auth c).

Definition auth_encode (c : ControlAuthCodec) (raw_packet : list Z) (unix : Z) :
    list Z * ControlAuthCodec :=
  if decide (length raw_packet < TLS_CONTROL_HEADER_LENGTH)%nat
  then (raw_packet, c)
  else
    let '(packet_id, send_state) := PacketIdState.next (a_send_state c) unix in
    let digest :=
      Digest.sign (a_auth c) (a_send_key c) (packet_id ++ raw_packet) in
    (firstn TLS_CONTROL_HEADER_LENGTH raw_packet ++ digest ++ packet_id
       ++ skipn TLS_CONTROL_HEADER_LENGTH raw_packet,
     mkAuth (a_send_key c) (a_receive_keys c) send_state (a_receive_state c)
       (a_auth c)).

Definition auth_set_window (c : ControlAuthCodec)
    (w : ReplayWindow.ReplayWindow) : ControlAuthCodec :=
  mkAuth (a_send_key c) (a_receive_keys c) (a_send_state c) w (a_auth c).

(** The loop over the receive keys: the first key that verifies decides. *)
Fixpoint auth_verify_loop (auth : OpenVpnAuthDigest) (keys : list (list Z))
    (auth_input digest : list Z) : bool :=
  match keys with
  | [] => false
  | key :: keys =>
      Digest.verify auth key auth_input digest
      || auth_verify_loop auth keys auth_input digest
  end.

Definition auth_decode (c : ControlAuthCodec) (raw_packet : list Z) (now : Z) :
    result ControlWrapError (list Z) * ControlAuthCodec :=
  let digest_size := Digest.output_size (a_auth c) in
  if decide (length raw_packet
             < TLS_CONTROL_HEADER_LENGTH + digest_size
               + TLS_CONTROL_PACKET_ID_LENGTH)%nat
  then (Err InvalidPacket, c)
  else
    let packet_id_start := (TLS_CONTROL_HEADER_LENGTH + digest_size)%nat in
    let body_start := (packet_id_start + TLS_CONTROL_PACKET_ID_LENGTH)%nat in
    let header := firstn TLS_CONTROL_HEADER_LENGTH raw_packet in
    let digest :=
      StaticKey.slice TLS_CONTROL_HEADER_LENGTH packet_id_start raw_packet in
    let packet_id := StaticKey.slice packet_id_start body_start raw_packet in
    let body := skipn body_start raw_packet in
    if auth_verify_loop (a_auth c) (a_receive_keys c)
         (packet_id ++ header ++ body) digest
    then
      let '(r, w) :=
        accept_control_packet_id (a_receive_state c) packet_id now in
      (_ ← r; Ok (header ++ body), auth_set_window c w)
    else (Err AuthenticationFailed, c).

(** ** [tls-crypt] *)

Record CryptCandidate : Type := mkCandidate {
  encrypt_key : list Z;
  auth_key : list Z;
}.

Record ControlCryptCodec : Type := mkCrypt {
  c_send : CryptCandidate;
  c_receive_candidates : list CryptCandidate;
  c_send_state : PacketIdState.PacketIdState;
  c_receive_state : ReplayWindow.ReplayWindow;
}.

Definition candidate (slots : StaticKey.StaticKeySlot * StaticKey.StaticKeySlot)
    (index : nat) : CryptCandidate :=
  mkCandidate (firstn 32 (StaticKey.cipher_key (StaticKey.slot slots index)))
    (firstn 32 (StaticKey.hmac_key (StaticKey.slot slots index))).

Definition crypt_from_material (material : list Z) (key_direction : Z) :
    result ControlWrapError ControlCryptCodec :=
  slots ← ok_or Key (StaticKey.split_static_key_material material);
  let '(send, receive, fallback) := resolve_direction key_direction in
  Ok (mkCrypt (candidate slots send)
        (candidate slots receive
           :: if decide (fallback <> receive) then [candidate slots fallback] else [])
        PacketIdState.default new_window).

Definition crypt_new (static_key : list Z) (key_direction : Z) :
    result ControlWrapError ControlCryptCodec :=
  material ←
    map_err (fun _ => Key) (StaticKey.parse_openvpn_static_key static_key);
  crypt_from_material material key_direction.

Definition crypt_new_session_codec (c : ControlCryptCodec) : ControlCryptCodec :=
  mkCrypt (c_send c) (c_receive_candidates c) PacketIdState.default new_window.

Definition crypt_seed_next_packet_id (c : ControlCryptCodec) (next_id unix : Z) :
    ControlCryptCodec :=
  mkCrypt (c_send c) (c_receive_candidates c)
    (PacketIdState.seed_next_id (c_send_state c) next_id unix)
    (c_receive_state c).

Definition crypt_encode (c : ControlCryptCodec) (raw_packet : list Z) (unix : Z) :
    list Z * ControlCryptCodec :=
  if decide (length raw_packet < TLS_CONTROL_HEADER_LENGTH)%nat
  then (raw_packet, c)
  else
    let header := firstn TLS_CONTROL_HEADER_LENGTH raw_packet in
    let body := skipn TLS_CONTROL_HEADER_LENGTH raw_packet in
    let '(packet_id, send_state) := PacketIdState.next (c_send_state c) unix in
    let tag :=
      Digest.sign Sha256 (auth_key (c_send c)) (header ++ packet_id ++ body) in
    let ciphertext := aes256_ctr (encrypt_key (c_send c)) (firstn 16 tag) body in
    (header ++ packet_id ++ tag ++ ciphertext,
     mkCrypt (c_send c) (c_receive_candidates c) send_state (c_receive_state c)).

Definition crypt_set_window (c : ControlCryptCodec)
    (w : ReplayWindow.ReplayWindow) : ControlCryptCodec :=
  mkCrypt (c_send c) (c_receive_candidates c) (c_send_state c) w.

(** The loop over the candidates: the plaintext under the first candidate that
    authenticates it. *)
Fixpoint crypt_candidate_loop (candidates : list CryptCandidate)
    (header packet_id tag ciphertext : list Z) : option (list Z) :=
  match candidates with
  | [] => None
  | k :: candidates =>
      let plaintext := aes256_ctr (encrypt_key k) (firstn 16 tag) ciphertext in
      if Digest.verify Sha256 (auth_key k) (header ++ packet_id ++ plaintext) tag
      then Some plaintext
      else crypt_candidate_loop candidates header packet_id tag ciphertext
  end.

Definition crypt_decode (c : ControlCryptCodec) (raw_packet : list Z) (now : Z) :
    result ControlWrapError (list Z) * ControlCryptCodec :=
  let tag_start :=
    (TLS_CONTROL_HEADER_LENGTH + TLS_CONTROL_PACKET_ID_LENGTH)%nat in
  let body_start := (tag_start + TLS_CRYPT_TAG_LENGTH)%nat in
  if decide (length raw_packet < body_start)%nat then (Err InvalidPacket, c)
  else
    let header := firstn TLS_CONTROL_HEADER_LENGTH raw_packet in
    let packet_id :=
      StaticKey.slice TLS_CONTROL_HEADER_LENGTH tag_start raw_packet in
    let tag := StaticKey.slice tag_start body_start raw_packet in
    let ciphertext := skipn body_start raw_packet in
    match crypt_candidate_loop (c_receive_candidates c) header packet_id tag
            ciphertext with
    | Some plaintext =>
        let '(r, w) :=
          accept_control_packet_id (c_receive_state c) packet_id now in
        (_ ← r; Ok (header ++ plaintext), crypt_set_window c w)
    | None => (Err AuthenticationFailed, c)
    end.

(** ** [tls-crypt-v2] *)

Definition unwrap_tls_crypt_v2_client_key (wrapped server_key : list Z) :
    result ControlWrapError (list Z) :=
  if decide (length server_key < TLS_CRYPT_V2_SERVER_KEY_LENGTH)%nat
  then Err InvalidV2ServerKey
  else if decide (length wrapped < TLS_CRYPT_TAG_LENGTH + 2)%nat
  then Err InvalidV2WrappedKey
  else
    let length_bytes := skipn (length wrapped - 2) wrapped in
    if decide (from_be_bytes length_bytes <> Z.of_nat (length wrapped))
    then Err InvalidV2WrappedKeyLength
    else
      let tag := firstn TLS_CRYPT_TAG_LENGTH wrapped in
      let ciphertext :=
        StaticKey.slice TLS_CRYPT_TAG_LENGTH (length wrapped - 2) wrapped in
      let plaintext :=
        aes256_ctr (firstn 32 server_key) (firstn 16 tag) ciphertext in
      if negb (Digest.verify Sha256 (StaticKey.slice 64 96 server_key)
                 (length_bytes ++ plaintext) tag)
      then Err AuthenticationFailed
      else if decide (length plaintext < TLS_CRYPT_V2_CLIENT_KEY_DATA_LENGTH)%nat
      then Err V2PlaintextTooShort
      else Ok (firstn TLS_CRYPT_V2_CLIENT_KEY_DATA_LENGTH plaintext).

Definition TLS_CRYPT_V2_CLIENT_PEM_TYPE : string :=
  "OpenVPN tls-crypt-v2 client key".
Definition TLS_CRYPT_V2_SERVER_PEM_TYPE : string :=
  "OpenVPN tls-crypt-v2 server key".

Definition load_named_pem (input : list Z) (expected_type : string) :
    result ControlWrapError (list Z) :=
  '(tag, contents) ← ok_or InvalidPem (pem_parse input);
  if decide (tag <> expected_type) then Err InvalidPem else Ok contents.

Definition load_tls_crypt_v2_client_key (input : list Z) :
    result ControlWrapError (list Z * list Z) :=
  key ← load_named_pem input TLS_CRYPT_V2_CLIENT_PEM_TYPE;
  if decide (length key < TLS_CRYPT_V2_CLIENT_KEY_DATA_LENGTH)%nat
  then Err InvalidV2ClientKey
  else
    let material := firstn TLS_CRYPT_V2_CLIENT_KEY_DATA_LENGTH key in
    let wrapped := skipn TLS_CRYPT_V2_CLIENT_KEY_DATA_LENGTH key in
    if decide (wrapped = []) then Err MissingWrappedClientKey
    else Ok (material, wrapped).

Definition load_tls_crypt_v2_server_key (input : list Z) :
    result ControlWrapError (list Z) :=
  key ← load_named_pem input TLS_CRYPT_V2_SERVER_PEM_TYPE;
  if decide (length key < TLS_CRYPT_V2_SERVER_KEY_LENGTH)%nat
  then Err InvalidV2ServerKey
  else Ok (firstn TLS_CRYPT_V2_SERVER_KEY_LENGTH key).

Definition tls_crypt_v2_reset_announces_early_negotiation (raw_packet : list Z) :
    bool :=
  if decide (length raw_packet < TLS_CONTROL_HEADER_LENGTH + 4)%nat then false
  else
    let packet_id :=
      from_be_bytes
        (StaticKey.slice TLS_CONTROL_HEADER_LENGTH
           (TLS_CONTROL_HEADER_LENGTH + 4) raw_packet) in
    bool_decide (Z.land packet_id TLS_CRYPT_V2_EARLY_NEGOTIATION_START
                 = TLS_CRYPT_V2_EARLY_NEGOTIATION_START).

(** The loop of [parse_tls_crypt_v2_early_negotiation_flags]; every iteration
    consumes at least four bytes. *)
Fixpoint parse_flags_loop (fuel : nat) (payload : list Z) (flags : Z) :
    result ControlWrapError Z :=
  match fuel with
  | O => Err MalformedEarlyNegotiation
  | S fuel =>
      if decide (payload = []) then Ok flags
      else if decide (length payload < 4)%nat then Err MalformedEarlyNegotiation
      else
        let kind := from_be_bytes (StaticKey.slice 0 2 payload) in
        let length_ := Z.to_nat (from_be_bytes (StaticKey.slice 2 4 payload)) in
        let payload := skipn 4 payload in
        if decide (length payload < length_)%nat
        then Err MalformedEarlyNegotiation
        else
          let value := firstn length_ payload in
          let payload := skipn length_ payload in
          if decide (kind = TLS_CRYPT_V2_TLV_TYPE_EARLY_NEGOTIATION_FLAGS) then
            if decide (length_ <> 2)%nat then Err MalformedEarlyNegotiation
            else parse_flags_loop fuel payload (Z.lor flags (from_be_bytes value))
          else parse_flags_loop fuel payload flags
  end.

Definition parse_tls_crypt_v2_early_negotiation_flags (payload : list Z) :
    result ControlWrapError Z :=
  parse_flags_loop (S (length payload)) payload 0.

Definition tls_crypt_v2_server_requests_wrapped_client_key_resend
    (payload : list Z) : result ControlWrapError bool :=
  flags ← parse_tls_crypt_v2_early_negotiation_flags payload;
  Ok (bool_decide
        (Z.land flags TLS_CRYPT_V2_EARLY_NEGOTIATION_FLAG_RESEND_WKC <> 0)).

Definition carries_wrapped_client_key (opcode : Opcode) : bool :=
  match opcode with
  | ControlHardResetClientV3 | ControlWkcV1 => true
  | _ => false
  end.

Definition append_tls_crypt_v2_wrapped_client_key
    (raw_packet wrapped_client_key : list Z) (opcode : Opcode) : list Z :=
  if negb (bool_decide (wrapped_client_key = [])) && carries_wrapped_client_key opcode
  then raw_packet ++ wrapped_client_key
  else raw_packet.

(** ** The three modes together *)

Record TlsControlProtection : Type := mkProtection {
  auth : option ControlAuthCodec;
  crypt : option ControlCryptCodec;
  crypt_v2_server_key : list Z;
}.

Definition new_session_protection (p : TlsControlProtection) :
    TlsControlProtection :=
  mkProtection (auth_new_session_codec <$> auth p)
    (crypt_new_session_codec <$> crypt p) (crypt_v2_server_key p).

Definition control_packet_overhead (p : TlsControlProtection) : nat :=
  if bool_decide (is_Some (crypt p))
     || negb (bool_decide (crypt_v2_server_key p = []))
  then
    TLS_CONTROL_PACKET_ID_LENGTH + TLS_CRYPT_TAG_LENGTH + TLS_CRYPT_BLOCK_LENGTH
  else
    match auth p with
    | Some a => Digest.output_size (a_auth a) + TLS_CONTROL_PACKET_ID_LENGTH
    | None => 0
    end.

Definition encode (p : TlsControlProtection) (raw_packet : list Z) (unix : Z) :
    list Z * TlsControlProtection :=
  match crypt p, auth p with
  | Some c, _ =>
      let '(out, c) := crypt_encode c raw_packet unix in
      (out, mkProtection (auth p) (Some c) (crypt_v2_server_key p))
  | None, Some a =>
      let '(out, a) := auth_encode a raw_packet unix in
      (out, mkProtection (Some a) (crypt p) (crypt_v2_server_key p))
  | None, None => (raw_packet, p)
  end.

Definition extract_tls_crypt_v2_client_key (p : TlsControlProtection)
    (raw_packet : list Z) :
    result ControlWrapError (list Z) * TlsControlProtection :=
  if decide (crypt_v2_server_key p = []) then (Err MissingServerKey, p)
  else if decide (length raw_packet < TLS_CONTROL_HEADER_LENGTH + 2)%nat
  then (Err InvalidV2WrappedKey, p)
  else
    let wrapped_length :=
      Z.to_nat (from_be_bytes (skipn (length raw_packet - 2) raw_packet)) in
    if decide (wrapped_length < TLS_CRYPT_TAG_LENGTH + 2
               \/ length raw_packet - TLS_CONTROL_HEADER_LENGTH < wrapped_length)%nat
    then (Err InvalidV2WrappedKey, p)
    else
      let packet_end := (length raw_packet - wrapped_length)%nat in
      let packet := firstn packet_end raw_packet in
      match crypt p with
      | Some _ => (Ok packet, p)
      | None =>
          match
            material ← unwrap_tls_crypt_v2_client_key
                         (skipn packet_end raw_packet) (crypt_v2_server_key p);
            crypt_from_material material TLS_CRYPT_KEY_DIRECTION_NORMAL
          with
          | Ok c =>
              (Ok packet, mkProtection (auth p) (Some c) (crypt_v2_server_key p))
          | Err e => (Err e, p)
          end
      end.

Definition decode (p : TlsControlProtection) (raw_packet : list Z) (now : Z) :
    result ControlWrapError (list Z) * TlsControlProtection :=
  if decide (length raw_packet < TLS_CONTROL_HEADER_LENGTH)%nat
  then (Err InvalidPacket, p)
  else
    let opcode := Opcode.from_wire (Z.shiftr (raw_packet !!! 0%nat) 3) in
    let '(r, p) :=
      if carries_wrapped_client_key opcode
      then extract_tls_crypt_v2_client_key p raw_packet
      else (Ok raw_packet, p) in
    match r with
    | Err e => (Err e, p)
    | Ok packet =>
        match crypt p, auth p with
        | Some c, _ =>
            let '(r, c) := crypt_decode c packet now in
            (r, mkProtection (auth p) (Some c) (crypt_v2_server_key p))
        | None, Some a =>
            let '(r, a) := auth_decode a packet now in
            (r, mkProtection (Some a) (crypt p) (crypt_v2_server_key p))
        | None, None =>
            if decide (crypt_v2_server_key p <> [])
            then (Err MissingWrappedClientKey, p)
            else (Ok packet, p)
        end
    end.

(** ** Packet ids *)

Lemma next_spec s unix :
  let '(packet_id, s') := PacketIdState.next s unix in
  length packet_id = 8%nat /\ bytes_ok packet_id.
Proof.
  unfold PacketIdState.next. split.
  - by rewrite length_app, !length_to_be_bytes.
  - apply Forall_app. split; apply to_be_bytes_ok.
Qed.

(** Short of the wrap of the counter, the packet id names the counter and the
    epoch of the state. *)
Lemma next_id_fields s unix :
  0 <= PacketIdState.next_id s < U32_MAX ->
  is_u32 (PacketIdState.timestamp s) -> is_u32 unix ->
  let '(packet_id, s') := PacketIdState.next s unix in
  from_be_bytes (StaticKey.slice 0 4 packet_id) = PacketIdState.next_id s'
  /\ from_be_bytes (StaticKey.slice 4 8 packet_id) = PacketIdState.timestamp s'
  /\ PacketIdState.next_id s' = PacketIdState.next_id s + 1
  /\ PacketIdState.timestamp s'
     = (if decide (PacketIdState.timestamp s = 0) then unix
        else PacketIdState.timestamp s).
Proof.
  intros Hn Ht Hu. unfold PacketIdState.next. rewrite bool_decide_false by lia.
  cbn [orb PacketIdState.next_id PacketIdState.timestamp].
  unfold StaticKey.slice. simpl Nat.sub.
  rewrite drop_0, (take_app_length' _ _ 4), (drop_app_length' _ _ 4), take_ge
    by (rewrite length_to_be_bytes; lia).
  change (2 ^ 32) with 4294967296.
  assert ((if bool_decide (PacketIdState.timestamp s = 0)
           then Z.max (PacketIdState.timestamp s) unix
           else PacketIdState.timestamp s)
          = (if decide (PacketIdState.timestamp s = 0) then unix
             else PacketIdState.timestamp s)) as ->.
  { case_bool_decide as E; [|by rewrite decide_False].
    rewrite decide_True by done. ilia. }
  rewrite !from_to_be_bytes
    by (change (2 ^ (8 * Z.of_nat 4)) with 4294967296; try case_decide; ilia).
  done.
Qed.

(** ** Only fresh packets are accepted *)

Import ReplayTrace.

Definition id_pair (packet_id : list Z) : Z * Z :=
  (from_be_bytes (StaticKey.slice 4 8 packet_id),
   from_be_bytes (StaticKey.slice 0 4 packet_id)).

Lemma slice_bytes_ok a b l : bytes_ok l -> bytes_ok (StaticKey.slice a b l).
Proof. intros. by apply Forall_take, Forall_drop. Qed.

Lemma length_slice a b l :
  (b <= length l)%nat -> length (StaticKey.slice a b l) = (b - a)%nat.
Proof. intros. unfold StaticKey.slice. rewrite length_take, length_drop. lia. Qed.

Lemma accept_control_packet_id_tracks w acc packet_id now :
  tracks w acc -> bytes_ok packet_id -> length packet_id = 8%nat ->
  let '(r, w') := accept_control_packet_id w packet_id now in
  if is_ok r then tracks w' (acc ++ [id_pair packet_id]) /\ id_pair packet_id ∉ acc
  else tracks w' acc.
Proof.
  intros Ht Hb Hl. unfold accept_control_packet_id.
  set (id := from_be_bytes (StaticKey.slice 0 4 packet_id)).
  set (ts := from_be_bytes (StaticKey.slice 4 8 packet_id)).
  assert (event_ok (Long id ts now)) as He.
  { split; apply from_be_bytes_u32; auto using slice_bytes_ok;
      rewrite length_slice; lia. }
  destruct (ReplayWindow.accept_long_form_at w id ts now) as [b w'] eqn:E.
  destruct (step_tracks w acc (Long id ts now) (if b then Some (ts, id) else None) w')
    as [H1 H2]; [done|done|by simpl; rewrite E|].
  destruct b; simpl in *; [|by rewrite app_nil_r in H1]. by split; [|apply H2].
Qed.

(** The packet id of a [tls-crypt] packet. *)
Definition crypt_packet_id (raw : list Z) : list Z :=
  StaticKey.slice TLS_CONTROL_HEADER_LENGTH
    (TLS_CONTROL_HEADER_LENGTH + TLS_CONTROL_PACKET_ID_LENGTH) raw.

(** The packets, out of a sequence with arrival times, that a receiver
    accepts. *)
Fixpoint crypt_accepted (c : ControlCryptCodec) (l : list (list Z * Z)) :
    list (list Z) :=
  match l with
  | [] => []
  | (raw, now) :: l =>
      let '(r, c') := crypt_decode c raw now in
      (if is_ok r then [raw] else []) ++ crypt_accepted c' l
  end.

Lemma crypt_decode_tracks c acc raw now :
  tracks (c_receive_state c) acc -> bytes_ok raw ->
  let '(r, c') := crypt_decode c raw now in
  if is_ok r then
    tracks (c_receive_state c') (acc ++ [id_pair (crypt_packet_id raw)])
    /\ id_pair (crypt_packet_id raw) ∉ acc
  else tracks (c_receive_state c') acc.
Proof.
  intros Ht Hb. unfold crypt_decode. case_decide as Hl; [done|].
  destruct (crypt_candidate_loop _ _ _ _ _) as [p|]; [|done].
  pose proof (accept_control_packet_id_tracks (c_receive_state c) acc
                (crypt_packet_id raw) now Ht) as Ha.
  fold (crypt_packet_id raw).
  destruct (accept_control_packet_id _ _ now) as [[[]|e] w]; simpl in *; apply Ha;
    unfold crypt_packet_id; auto using slice_bytes_ok; rewrite length_slice;
    unfold TLS_CONTROL_HEADER_LENGTH, TLS_CONTROL_PACKET_ID_LENGTH,
      TLS_CRYPT_TAG_LENGTH in *; lia.
Qed.

Lemma crypt_accepted_NoDup c acc l :
  tracks (c_receive_state c) acc -> Forall (fun d => bytes_ok d.1) l ->
  NoDup acc ->
  NoDup (acc ++ map (fun raw => id_pair (crypt_packet_id raw)) (crypt_accepted c l)).
Proof.
  intros Ht Hl. revert c acc Ht.
  induction Hl as [|[raw now] l Hr _ IH]; intros c acc Ht Hnd; simpl.
  { by rewrite app_nil_r. }
  pose proof (crypt_decode_tracks c acc raw now Ht Hr) as Hd.
  destruct (crypt_decode c raw now) as [r c']. destruct (is_ok r); simpl.
  - destruct Hd as [Ht' Hnew]. rewrite cons_middle, (assoc_L (++)).
    apply IH; [done|]. apply NoDup_app. split_and!; [done| |apply NoDup_singleton].
    by intros k Hk ->%list_elem_of_singleton.
  - by apply IH.
Qed.

(** C19: a [tls-crypt] session never accepts a packet id twice: over any
    sequence of datagrams, forged, repeated or reordered, the packet-id fields
    of the accepted datagrams are pairwise distinct. *)
Theorem crypt_no_replay (c : ControlCryptCodec) (l : list (list Z * Z)) :
  Forall (fun d => bytes_ok d.1) l ->
  NoDup (map crypt_packet_id (crypt_accepted (crypt_new_session_codec c) l)).
Proof.
  intros Hl.
  assert (tracks (c_receive_state (crypt_new_session_codec c)) []) as Ht
    by (apply new_tracks; unfold ReplayWindow.DEFAULT_REPLAY_WINDOW_SIZE; ilia).
  pose proof (crypt_accepted_NoDup _ [] l Ht Hl (NoDup_nil_2)) as Hnd.
  simpl in Hnd. rewrite <- (map_map crypt_packet_id id_pair) in Hnd.
  by apply NoDup_fmap_1 in Hnd.
Qed.

(** ** Authentication *)

Lemma crypt_candidate_loop_Some ks header pid tag ct p :
  crypt_candidate_loop ks header pid tag ct = Some p ->
  exists k, k ∈ ks /\ tag = Digest.sign Sha256 (auth_key k) (header ++ pid ++ p)
  /\ p = aes256_ctr (encrypt_key k) (firstn 16 tag) ct.
Proof.
  induction ks as [|k ks IH]; cbn [crypt_candidate_loop]; [done|].
  destruct (Digest.verify _ _ _ _) eqn:Hv.
  - intros [= <-]. exists k. apply Digest.verify_iff in Hv.
    split_and!; [apply elem_of_cons; auto|done|done].
  - intros (k' & Hk & Hrest)%IH. exists k'. split; [apply elem_of_cons; auto|done].
Qed.

(** What [crypt_decode] returns carries the tag of one of the receive keys. *)
Lemma crypt_decode_authentic c raw now out c' :
  crypt_decode c raw now = (Ok out, c') ->
  exists k plaintext, k ∈ c_receive_candidates c
  /\ out = firstn 9 raw ++ plaintext
  /\ StaticKey.slice 17 49 raw
     = Digest.sign Sha256 (auth_key k)
         (firstn 9 raw ++ crypt_packet_id raw ++ plaintext).
Proof.
  unfold crypt_decode. case_decide; [done|].
  destruct (crypt_candidate_loop _ _ _ _ _) as [p|] eqn:Hp; [|done].
  apply crypt_candidate_loop_Some in Hp as (k & Hk & Htag & _).
  destruct (accept_control_packet_id _ _ now) as [[[]|e] w]; [|done].
  rbind. intros [= <- <-]. by exists k, p.
Qed.

(** ** A session of packets in order *)

Context `{!CryptoLaws}.

(** The fields of a [tls-crypt] packet can be read back. *)
Lemma crypt_fields header pid tag ct :
  length header = 9%nat -> length pid = 8%nat -> length tag = 32%nat ->
  let raw := header ++ pid ++ tag ++ ct in
  (49 <= length raw)%nat /\ firstn 9 raw = header
  /\ StaticKey.slice 9 17 raw = pid /\ StaticKey.slice 17 49 raw = tag
  /\ skipn 49 raw = ct.
Proof.
  intros Hh Hp Ht raw. subst raw. unfold StaticKey.slice. simpl Nat.sub.
  split_and!.
  - rewrite !length_app. lia.
  - by rewrite (take_app_length' _ _ 9).
  - rewrite (drop_app_length' _ _ 9) by done. by rewrite (take_app_length' _ _ 8).
  - rewrite (assoc_L (++)), (drop_app_length' _ _ 17) by (rewrite length_app; lia).
    by rewrite (take_app_length' _ _ 32).
  - rewrite (assoc_L (++)), (assoc_L (++)).
    by rewrite (drop_app_length' _ _ 49) by (rewrite !length_app; lia).
Qed.

(** Decoding an encoded packet comes down to the packet-id check, when the
    first receive candidate is the sender's key. *)
Lemma crypt_decode_encode s r rest raw unix now :
  c_receive_candidates r = c_send s :: rest ->
  (TLS_CONTROL_HEADER_LENGTH <= length raw)%nat ->
  let '(packet_id, st) := PacketIdState.next (c_send_state s) unix in
  let '(a, w) := accept_control_packet_id (c_receive_state r) packet_id now in
  crypt_decode r (crypt_encode s raw unix).1 now
  = (_ ← a; Ok raw, crypt_set_window r w).
Proof.
  intros Hc Hl. unfold TLS_CONTROL_HEADER_LENGTH in Hl.
  pose proof (next_spec (c_send_state s) unix) as Hn.
  destruct (PacketIdState.next (c_send_state s) unix) as [pid st] eqn:Hnext.
  destruct Hn as [Hpl _].
  destruct (accept_control_packet_id (c_receive_state r) pid now) as [a w] eqn:Ha.
  unfold crypt_encode. rewrite decide_False by (unfold TLS_CONTROL_HEADER_LENGTH; lia).
  rewrite Hnext. cbn [fst]. change TLS_CONTROL_HEADER_LENGTH with 9%nat.
  set (tag := Digest.sign Sha256 _ _). set (ct := aes256_ctr _ _ _).
  destruct (crypt_fields (firstn 9 raw) pid tag ct) as (Hlen & Hf1 & Hf2 & Hf3 & Hf4).
  { rewrite length_take. lia. }
  { done. }
  { subst tag. apply (length_sign Sha256). }
  unfold crypt_decode. change TLS_CONTROL_HEADER_LENGTH with 9%nat.
  change (9 + TLS_CONTROL_PACKET_ID_LENGTH)%nat with 17%nat.
  change (17 + TLS_CRYPT_TAG_LENGTH)%nat with 49%nat.
  rewrite decide_False by lia. rewrite Hf1, Hf2, Hf3, Hf4, Hc, Ha.
  cbn [crypt_candidate_loop]. subst ct. rewrite aes256_ctr_involutive.
  subst tag. rewrite Digest.verify_sign. by rewrite take_drop.
Qed.

(** A receiver that is level with a sender will accept its next packet. *)
Definition level (s : PacketIdState.PacketIdState)
    (w : ReplayWindow.ReplayWindow) : Prop :=
  0 < ReplayWindow.window_size w
  /\ is_u32 (PacketIdState.timestamp s)
  /\ (ReplayWindow.initialized (ReplayWindow.inner w) = false
      \/ (PacketIdState.timestamp s <> 0
         /\ ReplayWindow.highest_timestamp (ReplayWindow.inner w)
            = PacketIdState.timestamp s
         /\ ReplayWindow.highest_id (ReplayWindow.inner w)
            <= PacketIdState.next_id s)).

Lemma accept_next s w unix now :
  level s w -> 0 <= PacketIdState.next_id s < U32_MAX -> 0 < unix <= U32_MAX ->
  let '(packet_id, s') := PacketIdState.next s unix in
  let '(a, w') := accept_control_packet_id w packet_id now in
  a = Ok () /\ level s' w'
  /\ PacketIdState.next_id s' = PacketIdState.next_id s + 1.
Proof.
  intros (Hws & Hts & Hl) Hn Hu.
  pose proof (next_id_fields s unix Hn Hts ltac:(ilia)) as Hf.
  destruct (PacketIdState.next s unix) as [pid s'].
  destruct Hf as (Hid & Ht & Hn' & Ht'). unfold accept_control_packet_id.
  rewrite Hid, Ht.
  pose proof (accept_long_form_fresh w (PacketIdState.next_id s')
                (PacketIdState.timestamp s') now Hws ltac:(lia)) as Ha.
  destruct (ReplayWindow.accept_long_form_at _ _ _ _) as [b w'].
  destruct Ha as (-> & Hi & Hws' & Hts' & Hh').
  { destruct Hl as [?|(Hnz & Heq & Hle)]; [by left|]. right. right.
    rewrite decide_False in Ht' by done. lia. }
  split_and!; [done| |done]. unfold level. rewrite Hws', Hts', Hh'.
  assert (is_u32 (PacketIdState.timestamp s') /\ PacketIdState.timestamp s' <> 0)
    as [Hu1 Hu2] by (rewrite Ht'; case_decide; ilia).
  split_and!; [done|apply Hu1..|]. right. split_and!; [done|done|lia].
Qed.

(** A sender and a receiver exchange packets; [unix] and [now] are their
    clocks. *)
Fixpoint crypt_exchange (s r : ControlCryptCodec)
    (l : list (list Z * Z * Z)) : list (result ControlWrapError (list Z)) :=
  match l with
  | [] => []
  | (raw, unix, now) :: l =>
      let '(packet, s) := crypt_encode s raw unix in
      let '(res, r) := crypt_decode r packet now in
      res :: crypt_exchange s r l
  end.

Lemma crypt_exchange_level s r rest l :
  c_receive_candidates r = c_send s :: rest ->
  level (c_send_state s) (c_receive_state r) ->
  0 <= PacketIdState.next_id (c_send_state s) ->
  PacketIdState.next_id (c_send_state s) + Z.of_nat (length l) <= U32_MAX ->
  Forall (fun e => (TLS_CONTROL_HEADER_LENGTH <= length e.1.1)%nat
                   /\ 0 < e.1.2 <= U32_MAX) l ->
  crypt_exchange s r l = map (fun e => Ok e.1.1) l.
Proof.
  intros Hc Hlev Hn Hmax Hl. revert s r Hc Hlev Hn Hmax.
  induction Hl as [|[[raw unix] now] l [Hraw Hunix] _ IH];
    intros s r Hc Hlev Hn Hmax; simpl; [done|]. simpl in *.
  pose proof (crypt_decode_encode s r rest raw unix now Hc Hraw) as Hd.
  pose proof (accept_next (c_send_state s) (c_receive_state r) unix now Hlev
                ltac:(lia) Hunix) as Ha.
  assert (c_send (crypt_encode s raw unix).2 = c_send s
          /\ c_send_state (crypt_encode s raw unix).2
             = (PacketIdState.next (c_send_state s) unix).2) as [Hs1 Hs2].
  { unfold crypt_encode. rewrite decide_False by (unfold TLS_CONTROL_HEADER_LENGTH in *; lia).
    by destruct (PacketIdState.next (c_send_state s) unix). }
  destruct (PacketIdState.next (c_send_state s) unix) as [pid st].
  destruct (accept_control_packet_id (c_receive_state r) pid now) as [a w].
  destruct Ha as (-> & Hlev' & Hn'). rbind in Hd.
  destruct (crypt_encode s raw unix) as [packet s']. simpl in *. rewrite Hd.
  f_equal. apply IH; simpl; rewrite ?Hs1, ?Hs2; [done..|lia|lia].
Qed.

(** C20: two [tls-crypt] endpoints built from the same static key with
    complementary key directions understand each other: every control packet
    of a session, in order, is decoded to exactly the packet that was encoded,
    for as many packets as there are packet ids. *)
Theorem crypt_round_trip (material : list Z) (d1 d2 : Z)
    (s r : ControlCryptCodec) (l : list (list Z * Z * Z)) :
  crypt_from_material material d1 = Ok s ->
  crypt_from_material material d2 = Ok r ->
  (resolve_direction d2).1.2 = (resolve_direction d1).1.1 ->
  Z.of_nat (length l) <= U32_MAX ->
  Forall (fun e => (TLS_CONTROL_HEADER_LENGTH <= length e.1.1)%nat
                   /\ 0 < e.1.2 <= U32_MAX) l ->
  crypt_exchange s r l = map (fun e => Ok e.1.1) l.
Proof.
  unfold crypt_from_material.
  destruct (StaticKey.split_static_key_material material) as [slots|]; [|done].
  rbind. cbn [ok_or]. rbind.
  destruct (resolve_direction d1) as [[s1 r1] f1].
  destruct (resolve_direction d2) as [[s2 r2] f2].
  intros <-%Ok_inj <-%Ok_inj Hdir Hlen Hl. simpl in Hdir. subst r2.
  eapply crypt_exchange_level; simpl; [reflexivity| |lia|lia|done].
  split_and!; [done|done|by left].
Qed.

(** ** [tls-auth] *)

Lemma auth_verify_loop_in auth keys key input :
  key ∈ keys ->
  auth_verify_loop auth keys input (Digest.sign auth key input) = true.
Proof.
  induction keys as [|k keys IH]; [by intros []%not_elem_of_nil|].
  intros [->|Hk]%elem_of_cons; simpl.
  - by rewrite Digest.verify_sign.
  - rewrite IH by done. apply orb_true_r.
Qed.

(** A [tls-auth] packet authenticated with any of the receive keys comes back
    unchanged when its packet id is fresh. *)
Lemma auth_decode_encode s r raw unix now :
  a_auth r = a_auth s -> a_send_key s ∈ a_receive_keys r ->
  (TLS_CONTROL_HEADER_LENGTH <= length raw)%nat ->
  let '(packet_id, st) := PacketIdState.next (a_send_state s) unix in
  let '(a, w) := accept_control_packet_id (a_receive_state r) packet_id now in
  auth_decode r (auth_encode s raw unix).1 now
  = (_ ← a; Ok raw, auth_set_window r w).
Proof.
  intros Ha Hk Hl. change TLS_CONTROL_HEADER_LENGTH with 9%nat in Hl.
  pose proof (next_spec (a_send_state s) unix) as Hn.
  destruct (PacketIdState.next (a_send_state s) unix) as [pid st] eqn:Hnext.
  destruct Hn as [Hpl _].
  destruct (accept_control_packet_id (a_receive_state r) pid now) as [a w] eqn:Hacc.
  unfold auth_encode. change TLS_CONTROL_HEADER_LENGTH with 9%nat.
  rewrite decide_False by lia. rewrite Hnext. cbn [fst].
  set (digest := Digest.sign _ _ _).
  assert (length digest = Digest.output_size (a_auth s)) as Hdl by apply length_sign.
  assert (length (firstn 9 raw) = 9%nat) as Hhl by (rewrite length_take; lia).
  unfold auth_decode. change TLS_CONTROL_HEADER_LENGTH with 9%nat.
  change TLS_CONTROL_PACKET_ID_LENGTH with 8%nat. rewrite Ha, <- Hdl.
  rewrite decide_False by (rewrite !length_app; lia). unfold StaticKey.slice.
  rewrite (take_app_length' _ _ 9) by lia.
  replace (9 + length digest - 9)%nat with (length digest) by lia.
  replace (9 + length digest + 8 - (9 + length digest))%nat with 8%nat by lia.
  rewrite (drop_app_length' _ _ 9), take_app_length by lia.
  replace (skipn (9 + length digest)
             (firstn 9 raw ++ digest ++ pid ++ skipn 9 raw))
    with (pid ++ skipn 9 raw)
    by (rewrite (assoc_L (++)); symmetry; apply drop_app_length';
        rewrite length_app; lia).
  replace (skipn (9 + length digest + 8)
             (firstn 9 raw ++ digest ++ pid ++ skipn 9 raw))
    with (skipn 9 raw)
    by (rewrite (assoc_L (++)), (assoc_L (++)); symmetry; apply drop_app_length';
        rewrite !length_app; lia).
  rewrite (take_app_length' _ _ 8), take_drop by lia.
  subst digest. by rewrite auth_verify_loop_in, Hacc by done.
Qed.

(** ** Overhead *)

Lemma length_crypt_encode c raw unix :
  (length (crypt_encode c raw unix).1 <= length raw + 40)%nat.
Proof.
  unfold crypt_encode. case_decide; [simpl; lia|].
  pose proof (next_spec (c_send_state c) unix) as Hn.
  destruct (PacketIdState.next (c_send_state c) unix) as [pid st].
  destruct Hn as [Hpl _]. cbn [fst].
  rewrite !length_app, (length_sign Sha256), aes256_ctr_length, length_take, length_drop.
  change (Digest.output_size Sha256) with 32%nat. unfold TLS_CONTROL_HEADER_LENGTH in *. lia.
Qed.

Lemma length_auth_encode c raw unix :
  (length (auth_encode c raw unix).1
   <= length raw + (Digest.output_size (a_auth c) + 8))%nat.
Proof.
  unfold auth_encode. case_decide; [simpl; lia|].
  pose proof (next_spec (a_send_state c) unix) as Hn.
  destruct (PacketIdState.next (a_send_state c) unix) as [pid st].
  destruct Hn as [Hpl _]. cbn [fst].
  rewrite !length_app, length_sign, length_take, length_drop.
  unfold TLS_CONTROL_HEADER_LENGTH in *. lia.
Qed.

(** The overhead that the control channel budgets for is an upper bound, as
    [tls-auth] and [tls-crypt-v2] are not configured together. *)
Lemma length_encode p raw unix :
  auth p = None \/ crypt_v2_server_key p = [] ->
  (length (encode p raw unix).1 <= length raw + control_packet_overhead p)%nat.
Proof.
  intros Hconf. unfold encode, control_packet_overhead.
  destruct (crypt p) as [c|].
  - pose proof (length_crypt_encode c raw unix).
    destruct (crypt_encode c raw unix). simpl in *.
    unfold TLS_CONTROL_PACKET_ID_LENGTH, TLS_CRYPT_TAG_LENGTH,
      TLS_CRYPT_BLOCK_LENGTH. lia.
  - destruct (auth p) as [a|]; simpl; [|lia].
    pose proof (length_auth_encode a raw unix).
    destruct (auth_encode a raw unix). destruct Hconf as [?|Hk]; [done|].
    rewrite Hk. simpl in *. unfold TLS_CONTROL_PACKET_ID_LENGTH. lia.
Qed.

(** ** Decoded packets are bytes *)

Lemma crypt_decode_bytes c raw now out c' :
  bytes_ok raw -> crypt_decode c raw now = (Ok out, c') -> bytes_ok out.
Proof.
  intros Hb. unfold crypt_decode. case_decide; [done|].
  destruct (crypt_candidate_loop _ _ _ _ _) as [p|] eqn:Hp; [|done].
  apply crypt_candidate_loop_Some in Hp as (k & _ & _ & ->).
  destruct (accept_control_packet_id _ _ now) as [[[]|e] w]; [|done].
  rbind. intros [= <- <-].
  apply Forall_app. split; [by apply Forall_take|].
  by apply aes256_ctr_bytes, Forall_drop.
Qed.

Lemma auth_decode_bytes c raw now out c' :
  bytes_ok raw -> auth_decode c raw now = (Ok out, c') -> bytes_ok out.
Proof.
  intros Hb. unfold auth_decode. case_decide; [done|].
  destruct (auth_verify_loop _ _ _ _); [|done].
  destruct (accept_control_packet_id _ _ now) as [[[]|e] w]; [|done].
  rbind. intros [= <- <-].
  apply Forall_app. split; [by apply Forall_take|by apply Forall_drop].
Qed.

Lemma extract_bytes p raw out p' :
  bytes_ok raw -> extract_tls_crypt_v2_client_key p raw = (Ok out, p') ->
  bytes_ok out.
Proof.
  intros Hb. unfold extract_tls_crypt_v2_client_key.
  repeat (case_decide; [done|]). destruct (crypt p).
  - intros [= <- <-]. by apply Forall_take.
  - destruct (unwrap_tls_crypt_v2_client_key _ _) as [m|]; [|done]. rbind.
    destruct (crypt_from_material m _); [|done]. intros [= <- <-]. by apply Forall_take.
Qed.

Lemma decode_bytes p raw now out p' :
  bytes_ok raw -> decode p raw now = (Ok out, p') -> bytes_ok out.
Proof.
  intros Hb. unfold decode. case_decide; [done|].
  destruct (if carries_wrapped_client_key _ then _ else _) as [[q|e] p1] eqn:Hq; [|done].
  assert (bytes_ok q) as Hbq.
  { destruct (carries_wrapped_client_key _); [by eapply extract_bytes|].
    by injection Hq as <- <-. }
  destruct (crypt p1) as [c|]; [|destruct (auth p1) as [a|]].
  - destruct (crypt_decode c q now) as [r c'] eqn:E. intros [= -> _].
    by eapply crypt_decode_bytes.
  - destruct (auth_decode a q now) as [r a'] eqn:E. intros [= -> _].
    by eapply auth_decode_bytes.
  - case_decide; [done|]. by intros [= <- _].
Qed.

(** ** The wrapped client key *)

(** A server separates the wrapped client key, which ends with its own length,
    from the packet it was appended to. *)
Lemma extract_append p c raw wrapped body opcode :
  crypt_v2_server_key p <> [] -> crypt p = Some c ->
  carries_wrapped_client_key opcode = true ->
  wrapped = body ++ to_be_bytes 2 (Z.of_nat (length wrapped)) ->
  (TLS_CRYPT_TAG_LENGTH + 2 <= length wrapped)%nat ->
  Z.of_nat (length wrapped) <= U16_MAX ->
  (TLS_CONTROL_HEADER_LENGTH <= length raw)%nat ->
  extract_tls_crypt_v2_client_key p
    (append_tls_crypt_v2_wrapped_client_key raw wrapped opcode) = (Ok raw, p).
Proof.
  intros Hk Hc Hop Hw Hlow Hhigh Hr.
  unfold append_tls_crypt_v2_wrapped_client_key. rewrite Hop.
  unfold TLS_CRYPT_TAG_LENGTH, TLS_CONTROL_HEADER_LENGTH in *.
  rewrite bool_decide_false by (intros ->; simpl in Hlow; lia). cbn [negb andb].
  unfold extract_tls_crypt_v2_client_key. rewrite decide_False by done.
  unfold TLS_CRYPT_TAG_LENGTH, TLS_CONTROL_HEADER_LENGTH.
  rewrite !length_app. rewrite decide_False by lia.
  assert (skipn (length raw + length wrapped - 2) (raw ++ wrapped)
          = to_be_bytes 2 (Z.of_nat (length wrapped))) as ->.
  { rewrite Hw at 2. rewrite (assoc_L (++)). apply drop_app_length'.
    apply (f_equal length) in Hw. rewrite length_app, length_to_be_bytes in Hw.
    rewrite length_app. lia. }
  rewrite from_to_be_bytes by (unfold U16_MAX in *; simpl; lia).
  rewrite Nat2Z.id, decide_False by lia. rewrite Hc.
  by rewrite (take_app_length' _ _ (length raw + length wrapped - length wrapped))
    by lia.
Qed.

(** ** Early-negotiation data *)

Definition tlv (e : Z * list Z) : list Z :=
  to_be_bytes 2 e.1 ++ to_be_bytes 2 (Z.of_nat (length e.2)) ++ e.2.

Definition tlv_ok (e : Z * list Z) : Prop :=
  is_u16 e.1 /\ Z.of_nat (length e.2) <= U16_MAX
  /\ (e.1 = TLS_CRYPT_V2_TLV_TYPE_EARLY_NEGOTIATION_FLAGS -> length e.2 = 2%nat).

Definition tlv_flags (e : Z * list Z) : Z :=
  if decide (e.1 = TLS_CRYPT_V2_TLV_TYPE_EARLY_NEGOTIATION_FLAGS)
  then from_be_bytes e.2 else 0.

Lemma parse_flags_loop_tlvs fuel es flags :
  Forall tlv_ok es -> (length es < fuel)%nat ->
  parse_flags_loop fuel (flat_map tlv es) flags
  = Ok (foldl (fun acc e => Z.lor acc (tlv_flags e)) flags es).
Proof.
  intros Hes. revert fuel flags.
  induction Hes as [|[kind value] es (Hk & Hl & H2) _ IH];
    intros [|fuel] flags Hf; [simpl in Hf; lia|done|simpl in Hf; lia|].
  cbn [length fst snd] in *. cbn [parse_flags_loop flat_map foldl].
  set (rest := flat_map tlv es) in *. unfold tlv. cbn [fst snd].
  rewrite <- !(assoc_L (++)).
  assert (length (to_be_bytes 2 kind) = 2%nat) as Hkl by apply length_to_be_bytes.
  assert (length (to_be_bytes 2 (Z.of_nat (length value))) = 2%nat) as Hll
    by apply length_to_be_bytes.
  rewrite decide_False
    by (intros E; apply (f_equal length) in E; rewrite length_app in E; simpl in E; lia).
  rewrite decide_False by (rewrite !length_app; lia). unfold StaticKey.slice.
  simpl Nat.sub. rewrite drop_0, (take_app_length' _ _ 2), (drop_app_length' _ _ 2),
    (take_app_length' _ _ 2) by lia.
  rewrite (assoc_L (++)), (drop_app_length' _ _ 4) by (rewrite length_app; lia).
  rewrite !from_to_be_bytes by (unfold is_u16, U16_MAX in *; simpl; lia).
  rewrite Nat2Z.id, decide_False by (rewrite length_app; lia).
  rewrite take_app_length, drop_app_length. unfold tlv_flags at 2. cbn [fst snd].
  case_decide as E.
  - rewrite decide_False by (rewrite H2 by done; lia). apply IH. lia.
  - rewrite Z.lor_0_r. apply IH. lia.
Qed.

(** early-negotiation data parses for every well-formed sequence of
    type-length-value records, unknown types included, and the parser always
    reaches the end of it: the result is the union of the flag records. *)
Theorem early_negotiation_flags (es : list (Z * list Z)) :
  Forall tlv_ok es ->
  parse_tls_crypt_v2_early_negotiation_flags (flat_map tlv es)
  = Ok (foldl (fun acc e => Z.lor acc (tlv_flags e)) 0 es).
Proof.
  intros Hes. apply parse_flags_loop_tlvs; [done|].
  clear Hes. induction es as [|e es IH]; [simpl; lia|].
  cbn [flat_map length]. unfold tlv at 1.
  rewrite !length_app, !length_to_be_bytes. lia.
Qed.

End protection.

(** ** Examples, with the toy primitives *)

Section examples.
Import ToyCrypto.

Definition sample_material : list Z := seqZ 0 256.

Definition endpoint (direction : Z) : ControlCryptCodec :=
  match crypt_from_material sample_material direction with
  | Ok c => c
  | Err _ => mkCrypt (mkCandidate [] []) [] PacketIdState.default new_window
  end.

Definition sample_raw (n : Z) : list Z := [32; 1; 2; 3; 4; 5; 6; 7; 8; n; n + 1].

(** A client and a server exchange three packets. *)
Lemma crypt_round_trip_witness :
  crypt_exchange (endpoint 0) (endpoint 1)
    [(sample_raw 1, 1000, 5); (sample_raw 2, 1001, 6); (sample_raw 3, 1002, 7)]
  = [Ok (sample_raw 1); Ok (sample_raw 2); Ok (sample_raw 3)].
Proof.
  apply (crypt_round_trip sample_material 0 1 (endpoint 0) (endpoint 1)
           [(sample_raw 1, 1000, 5); (sample_raw 2, 1001, 6); (sample_raw 3, 1002, 7)]).
  - vm_compute. reflexivity.
  - vm_compute. reflexivity.
  - reflexivity.
  - vm_compute. discriminate.
  - repeat constructor; simpl; unfold U32_MAX, TLS_CONTROL_HEADER_LENGTH; lia.
Defined.

(** Two packets arrive as 2, 1, 2, 1 with a forged one: two are accepted. *)
Lemma crypt_no_replay_witness :
  let s0 := endpoint 0 in
  let '(p1, s1) := crypt_encode s0 (sample_raw 1) 1000 in
  let '(p2, _) := crypt_encode s1 (sample_raw 2) 1000 in
  let l := [(p2, 1); (p1, 2); (p2, 3); (repeat 0 60, 4); (p1, 5)] in
  length (crypt_accepted (crypt_new_session_codec (endpoint 1)) l) = 2%nat
  /\ NoDup (map crypt_packet_id
              (crypt_accepted (crypt_new_session_codec (endpoint 1)) l)).
Proof.
  intros s0. destruct (crypt_encode s0 (sample_raw 1) 1000) as [p1 s1] eqn:E1.
  destruct (crypt_encode s1 (sample_raw 2) 1000) as [p2 s2] eqn:E2.
  vm_compute in E1. injection E1 as <- <-. vm_compute in E2. injection E2 as <- <-.
  intros l. split; [vm_compute; reflexivity|].
  apply crypt_no_replay. repeat constructor; vm_compute; discriminate.
Defined.

Lemma early_negotiation_flags_witness :
  parse_tls_crypt_v2_early_negotiation_flags
    (flat_map tlv [(7, [1; 2; 3]); (1, [0; 1]); (1, [128; 0])])
  = Ok (foldl (fun acc e => Z.lor acc (tlv_flags e)) 0
          [(7, [1; 2; 3]); (1, [0; 1]); (1, [128; 0])]).
Proof.
  apply early_negotiation_flags.
  repeat constructor; vm_compute; intros; (reflexivity || discriminate).
Defined.

End examples.

End ControlWrap.
