(* ===== verification/OvpnControlChannel.v ===== *)
(** * The TLS control channel ([protocol/openvpn/control_channel.rs])

    The protocol core of one control key-state: the session, the protection
    and the two halves of the reliable layer put together.  The code's interior
    mutability becomes a channel that is passed in and out; [unix] and [now]
    are the clocks its callees read. *)

From stdpp Require Import base numbers list list_numbers gmap strings sorting.
From Stdlib Require Import ZArith Lia.
From S2P Require Import Prelude OvpnPacket OvpnReplay OvpnSession OvpnReliable OvpnCrypto.
From S2P Require Import OvpnControlWrap.

Local Open Scope Z_scope.

Create HintDb channel.

Definition TLS_CONTROL_PAYLOAD_SIZE : nat := 1024.
Definition TLS_CONTROL_CHANNEL_MTU : nat := 1250.
Definition IPV4_CONTROL_DATAGRAM_OVERHEAD : nat := 28.
Definition IPV6_CONTROL_DATAGRAM_OVERHEAD : nat := 48.

Inductive IncomingControlEvent : Type :=
| TlsCiphertext (bytes : list Z)
| Data (packet : Packet.Packet)
| HardReset (packet : Packet.Packet)
| SoftReset (packet : Packet.Packet).

Inductive ControlChannelError : Type :=
| EmptyPacket
| PacketErr (e : PacketError)
| SessionErr (e : SessionError)
| Protection (e : ControlWrapError)
| ReliableWindowFull
| NoPendingAcknowledgment.

Module Channel.

Section channel.
Context `{Crypto}.

Record TlsControlChannelCore : Type := mkChannel {
  session : Session.SessionInner;
  protection : ControlWrap.TlsControlProtection;
  outgoing : Outgoing.OutgoingInner;
  incoming : Incoming.IncomingInner;
  wrapped_client_key : list Z;
  remote_is_ipv6 : bool;
}.

Definition new (session : Session.SessionInner)
    (protection : ControlWrap.TlsControlProtection)
    (wrapped_client_key : list Z) (remote_is_ipv6 : bool) :
    TlsControlChannelCore :=
  mkChannel session protection Outgoing.new Incoming.new wrapped_client_key
    remote_is_ipv6.

(** Field assignments. *)
Definition set_session (s : Session.SessionInner) (ch : TlsControlChannelCore) :
    TlsControlChannelCore :=
  mkChannel s (protection ch) (outgoing ch) (incoming ch)
    (wrapped_client_key ch) (remote_is_ipv6 ch).
Definition set_protection (p : ControlWrap.TlsControlProtection)
    (ch : TlsControlChannelCore) : TlsControlChannelCore :=
  mkChannel (session ch) p (outgoing ch) (incoming ch)
    (wrapped_client_key ch) (remote_is_ipv6 ch).
Definition set_outgoing (o : Outgoing.OutgoingInner)
    (ch : TlsControlChannelCore) : TlsControlChannelCore :=
  mkChannel (session ch) (protection ch) o (incoming ch)
    (wrapped_client_key ch) (remote_is_ipv6 ch).
Definition set_incoming (i : Incoming.IncomingInner)
    (ch : TlsControlChannelCore) : TlsControlChannelCore :=
  mkChannel (session ch) (protection ch) (outgoing ch) i
    (wrapped_client_key ch) (remote_is_ipv6 ch).

Definition is_control_or_acknowledgment (opcode : Opcode) : bool :=
  Opcode.is_control opcode || bool_decide (opcode = AcknowledgmentV1).

Definition is_tls_hard_reset_opcode (opcode : Opcode) : bool :=
  match opcode with
  | ControlHardResetClientV1 | ControlHardResetServerV1
  | ControlHardResetClientV2 | ControlHardResetServerV2
  | ControlHardResetClientV3 => true
  | _ => false
  end.

Definition acknowledgment_array_length (count : nat) : nat :=
  let count := Nat.min count MAXIMUM_ACKNOWLEDGMENTS_PER_PACKET in
  if decide (count = 0)%nat then 1 else 1 + 4 * count + 8.

Definition seed_incoming_packet (ch : TlsControlChannelCore)
    (packet : Packet.Packet) : TlsControlChannelCore :=
  if Session.validate_incoming_remote_session_id (session ch) packet
  then set_outgoing (Outgoing.on_incoming_packet (outgoing ch) packet) ch
  else ch.

(** The part of [ingest_link_packet] after the packet has been parsed. *)
Definition ingest_packet (ch : TlsControlChannelCore) (packet : Packet.Packet) :
    list IncomingControlEvent * TlsControlChannelCore :=
  let ses := session ch in
  let acknowledged :=
    set_outgoing (Outgoing.on_incoming_packet (outgoing ch) packet) ch in
  if Opcode.is_data (Packet.opcode packet) then ([Data packet], ch)
  else if negb (Session.validate_incoming_remote_session_id ses packet)
  then ([], ch)
  else if is_tls_hard_reset_opcode (Packet.opcode packet) then
    if negb (bool_decide (Packet.key_id packet = 0))
       || negb (bool_decide (Session.key_id ses = 0))
       || negb (Session.validate_incoming_local_session_id ses packet)
    then ([], ch)
    else ([HardReset packet], acknowledged)
  else if decide (Packet.opcode packet = ControlSoftResetV1) then
    if negb (Session.validate_incoming_local_session_id ses packet)
    then ([], ch)
    else ([SoftReset packet], ch)
  else if negb (Session.validate_incoming_local_session_id ses packet)
          || negb (bool_decide (Packet.key_id packet = Session.key_id ses))
  then ([], ch)
  else if bool_decide (Packet.opcode packet = AcknowledgmentV1)
          || negb (Opcode.is_control (Packet.opcode packet))
  then ([], acknowledged)
  else
    let '(inserted, inc) :=
      Incoming.try_insert_incoming_packet (incoming ch) packet in
    if negb inserted then ([], set_incoming inc acknowledged)
    else
      let '(packets, inc) := Incoming.next_ordered_sequence inc in
      (map (fun p => TlsCiphertext (Packet.payload p))
         (filter (fun p => Packet.payload p <> []) packets),
       set_incoming inc acknowledged).

Definition ingest_link_packet (ch : TlsControlChannelCore)
    (raw_packet : list Z) (now : Z) :
    result ControlChannelError (list IncomingControlEvent)
    * TlsControlChannelCore :=
  match raw_packet with
  | [] => (Err EmptyPacket, ch)
  | header :: _ =>
      let opcode := Opcode.from_wire (Z.shiftr header 3) in
      let '(decoded, prot) :=
        if is_control_or_acknowledgment opcode
        then ControlWrap.decode (protection ch) raw_packet now
        else (Ok raw_packet, protection ch) in
      let ch := set_protection prot ch in
      match decoded with
      | Err e => (Err (Protection e), ch)
      | Ok decoded =>
          match Packet.parse decoded with
          | Err e => (Err (PacketErr e), ch)
          | Ok packet =>
              let '(events, ch) := ingest_packet ch packet in
              (Ok events, ch)
          end
      end
  end.

Definition next_packet_carries_wrapped_client_key (ch : TlsControlChannelCore) :
    bool :=
  negb (bool_decide (wrapped_client_key ch = []))
  && bool_decide (Session.local_control_packet_id (session ch) = 1).

Definition encode_link_packet (ch : TlsControlChannelCore)
    (packet : Packet.Packet) (unix : Z) :
    result ControlChannelError (list Z) * TlsControlChannelCore :=
  let should_wrap :=
    negb (bool_decide (wrapped_client_key ch = []))
    && bool_decide (Packet.id packet = 1)
    && (bool_decide (Packet.opcode packet = ControlV1)
        || bool_decide (Packet.opcode packet = ControlWkcV1)) in
  let out := if should_wrap then Packet.set_opcode ControlWkcV1 packet else packet in
  match Packet.encode out with
  | Err e => (Err (PacketErr e), ch)
  | Ok raw =>
      let '(protected, ch) :=
        if is_control_or_acknowledgment (Packet.opcode out) then
          let '(b, p) := ControlWrap.encode (protection ch) raw unix in
          (b, set_protection p ch)
        else (raw, ch) in
      (Ok (if should_wrap
           then ControlWrap.append_tls_crypt_v2_wrapped_client_key protected
                  (wrapped_client_key ch) (Packet.opcode out)
           else protected), ch)
  end.

Definition control_channel_frame_overhead (ch : TlsControlChannelCore)
    (acknowledgment_count : nat) : nat :=
  1 + 8 + acknowledgment_array_length acknowledgment_count + 4
  + ControlWrap.control_packet_overhead (protection ch)
  + (if remote_is_ipv6 ch then IPV6_CONTROL_DATAGRAM_OVERHEAD
     else IPV4_CONTROL_DATAGRAM_OVERHEAD).

(** The closures handed to [insert_outgoing_packet]. *)
Definition create_control (op : Opcode) (body : list Z) (acks : list Z)
    (s : Session.SessionInner) :
    result SessionError Packet.Packet * Session.SessionInner :=
  let '(r, s) := Session.new_control_packet s op body in
  (Packet.set_acknowledgment_ids acks <$> r, s).

Definition create_soft_reset (acks : list Z) (s : Session.SessionInner) :
    result SessionError Packet.Packet * Session.SessionInner :=
  (Packet.set_acknowledgment_ids acks <$> Session.new_soft_reset_packet s, s).

Definition packetize_tls_ciphertext (ch : TlsControlChannelCore)
    (ciphertext : list Z) (unix : Z) :
    result ControlChannelError (option (list Z * nat)) * TlsControlChannelCore :=
  if decide (ciphertext = []) then (Ok None, ch)
  else
    let pending := Outgoing.pending_acknowledgment_count (outgoing ch) in
    let payload_size :=
      (Nat.min TLS_CONTROL_PAYLOAD_SIZE TLS_CONTROL_CHANNEL_MTU
       - control_channel_frame_overhead ch pending)%nat in
    let payload_size :=
      if next_packet_carries_wrapped_client_key ch
      then (payload_size - length (wrapped_client_key ch))%nat
      else payload_size in
    let consumed := Nat.min (length ciphertext) payload_size in
    let '(r, o, s) :=
      Outgoing.insert_outgoing_packet (outgoing ch)
        MAXIMUM_ACKNOWLEDGMENTS_PER_PACKET
        (create_control ControlV1 (firstn consumed ciphertext)) (session ch) in
    let ch := set_outgoing o (set_session s ch) in
    match r with
    | Err e => (Err (SessionErr e), ch)
    | Ok None => (Ok None, ch)
    | Ok (Some packet) =>
        let '(raw, ch) := encode_link_packet ch packet unix in
        ((fun raw => Some (raw, consumed)) <$> raw, ch)
    end.

Definition send_initial_soft_reset (ch : TlsControlChannelCore) (unix : Z) :
    result ControlChannelError (list Z) * TlsControlChannelCore :=
  let '(r, o, s) :=
    Outgoing.insert_outgoing_packet (outgoing ch)
      MAXIMUM_ACKNOWLEDGMENTS_PER_PACKET create_soft_reset (session ch) in
  let ch := set_outgoing o (set_session s ch) in
  match r with
  | Err e => (Err (SessionErr e), ch)
  | Ok None => (Err ReliableWindowFull, ch)
  | Ok (Some packet) => encode_link_packet ch packet unix
  end.

Definition new_acknowledgment_packet (ch : TlsControlChannelCore) (unix : Z) :
    result ControlChannelError (list Z) * TlsControlChannelCore :=
  if next_packet_carries_wrapped_client_key ch then
    let '(r, o, s) :=
      Outgoing.insert_outgoing_packet (outgoing ch) ACKNOWLEDGMENT_SET_CAPACITY
        (create_control ControlWkcV1 []) (session ch) in
    let ch := set_outgoing o (set_session s ch) in
    match r with
    | Err e => (Err (SessionErr e), ch)
    | Ok None => (Err ReliableWindowFull, ch)
    | Ok (Some packet) => encode_link_packet ch packet unix
    end
  else
    let '(ids, o) :=
      Outgoing.take_acknowledgment_ids (outgoing ch) ACKNOWLEDGMENT_SET_CAPACITY in
    let ch := set_outgoing o ch in
    if decide (ids = []) then (Err NoPendingAcknowledgment, ch)
    else
      match Session.new_acknowledgment_packet (session ch) ids with
      | Err e =>
          (Err (SessionErr e),
           set_outgoing (Outgoing.return_acknowledgment_ids (outgoing ch) ids) ch)
      | Ok packet => encode_link_packet ch packet unix
      end.

(** The fallible [map] and [collect] of [packets_ready_to_send], which stop at
    the first error. *)
Fixpoint encode_all (ch : TlsControlChannelCore) (packets : list Packet.Packet)
    (unix : Z) :
    result ControlChannelError (list (list Z)) * TlsControlChannelCore :=
  match packets with
  | [] => (Ok [], ch)
  | packet :: packets =>
      let '(r, ch) := encode_link_packet ch packet unix in
      match r with
      | Err e => (Err e, ch)
      | Ok raw =>
          let '(rs, ch) := encode_all ch packets unix in
          (cons raw <$> rs, ch)
      end
  end.

Definition packets_ready_to_send (ch : TlsControlChannelCore) (now unix : Z) :
    result ControlChannelError (list (list Z)) * TlsControlChannelCore :=
  let '(packets, o) := Outgoing.packets_ready_to_send (outgoing ch) now in
  let '(r, ch) := encode_all (set_outgoing o ch) packets unix in
  match r with
  | Err e => (Err e, ch)
  | Ok packets =>
      if decide (0 < Outgoing.pending_acknowledgment_count (outgoing ch))%nat then
        let '(ack, ch) := new_acknowledgment_packet ch unix in
        match ack with
        | Ok packet => (Ok (packets ++ [packet]), ch)
        | Err ReliableWindowFull => (Ok packets, ch)
        | Err e => (Err e, ch)
        end
      else (Ok packets, ch)
  end.

Definition return_failed_acknowledgments (ch : TlsControlChannelCore)
    (raw_packet : list Z) :
    result ControlChannelError unit * TlsControlChannelCore :=
  match Packet.parse raw_packet with
  | Err e => (Err (PacketErr e), ch)
  | Ok packet =>
      (Ok (),
       if decide (Packet.opcode packet = AcknowledgmentV1) then
         set_outgoing
           (Outgoing.return_acknowledgment_ids (outgoing ch)
              (Packet.acknowledgment_ids packet)) ch
       else ch)
  end.

Definition has_in_flight_packets (ch : TlsControlChannelCore) : bool :=
  Outgoing.has_in_flight_packets (outgoing ch).

(** ** The size of control datagrams *)

Definition session_ok (s : Session.SessionInner) : Prop :=
  length (Session.local_session_id s) = SESSION_ID_LENGTH
  /\ (forall id, Session.remote_session_id s = Some id ->
        length id = SESSION_ID_LENGTH).

Definition ip_overhead (ch : TlsControlChannelCore) : nat :=
  if remote_is_ipv6 ch then IPV6_CONTROL_DATAGRAM_OVERHEAD
  else IPV4_CONTROL_DATAGRAM_OVERHEAD.

Lemma create_control_spec op body acks s r s' :
  create_control op body acks s = (Ok r, s') ->
  Packet.opcode r = op /\ Packet.payload r = body
  /\ Packet.acknowledgment_ids r = acks
  /\ Packet.id r = Session.local_control_packet_id s
  /\ Packet.local_session_id r = Session.local_session_id s
  /\ Packet.remote_session_id r
     = default (replicate 8 0) (Session.remote_session_id s)
  /\ s' = Session.bump_control_packet_id s
  /\ Opcode.is_control op = true
  /\ Session.local_control_packet_id s <> U32_MAX
  /\ Packet.key_id r = Z.land (Session.key_id s) 7.
Proof.
  unfold create_control, Session.new_control_packet.
  destruct (Opcode.is_control op) eqn:Hop; simpl; [|done].
  case_decide; [done|]. intros [= <- <-]. by split_and!.
Qed.

Lemma length_flat_be4 (l : list Z) :
  length (flat_map (to_be_bytes 4) l) = (4 * length l)%nat.
Proof.
  induction l as [|x l IH]; [done|]. cbn [flat_map length].
  rewrite length_app, length_to_be_bytes, IH. lia.
Qed.

Lemma length_encode_packet p raw :
  Opcode.is_control (Packet.opcode p) = true ->
  length (Packet.local_session_id p) = SESSION_ID_LENGTH ->
  length (Packet.remote_session_id p) = SESSION_ID_LENGTH ->
  Packet.encode p = Ok raw ->
  length raw
  = (1 + 8 + (1 + 4 * length (Packet.acknowledgment_ids p)
              + if decide (Packet.acknowledgment_ids p = []) then 0 else 8)
     + 4 + length (Packet.payload p))%nat.
Proof.
  intros Hop Hl Hr. unfold SESSION_ID_LENGTH in *. unfold Packet.encode.
  rewrite decide_False by (intros E; by rewrite E in Hop).
  rewrite Hop. cbn [orb]. intros (fields & Hf & <-%Ok_inj)%bind_Ok.
  unfold Packet.encode_control_fields in Hf. case_decide; [done|].
  apply Ok_inj in Hf as <-.
  rewrite (decide_True (P := Packet.opcode p <> AcknowledgmentV1))
    by (intros E; by rewrite E in Hop).
  rewrite !length_app, length_flat_be4, length_to_be_bytes. simpl.
  destruct (Packet.acknowledgment_ids p) as [|a l] eqn:E; simpl; lia.
Qed.

Context `{!CryptoLaws}.

Lemma length_encode_link_packet ch packet unix raw ch' :
  ControlWrap.auth (protection ch) = None
  \/ ControlWrap.crypt_v2_server_key (protection ch) = [] ->
  Opcode.is_control (Packet.opcode packet) = true ->
  length (Packet.local_session_id packet) = SESSION_ID_LENGTH ->
  length (Packet.remote_session_id packet) = SESSION_ID_LENGTH ->
  encode_link_packet ch packet unix = (Ok raw, ch') ->
  (length raw
   <= 1 + 8 + (1 + 4 * length (Packet.acknowledgment_ids packet)
               + if decide (Packet.acknowledgment_ids packet = []) then 0 else 8)
      + 4 + length (Packet.payload packet)
      + ControlWrap.control_packet_overhead (protection ch)
      + if bool_decide (wrapped_client_key ch <> [] /\ Packet.id packet = 1%Z)
        then length (wrapped_client_key ch) else 0)%nat.
Proof.
  intros Hconf Hop Hl Hr. unfold encode_link_packet.
  set (wrap := negb _ && _ && _). set (out := if wrap then _ else packet).
  assert (Packet.acknowledgment_ids out = Packet.acknowledgment_ids packet
          /\ Packet.payload out = Packet.payload packet
          /\ Packet.local_session_id out = Packet.local_session_id packet
          /\ Packet.remote_session_id out = Packet.remote_session_id packet
          /\ Opcode.is_control (Packet.opcode out) = true)
    as (Ha & Hp & Hlo & Hro & Hoo) by (subst out; by destruct wrap).
  destruct (Packet.encode out) as [body|] eqn:He; [|done].
  apply length_encode_packet in He; [|congruence..].
  unfold is_control_or_acknowledgment. rewrite Hoo. cbn [orb].
  pose proof (ControlWrap.length_encode (protection ch) body unix Hconf) as Hlen.
  destruct (ControlWrap.encode (protection ch) body unix) as [b p].
  intros [= <- <-]. cbn [fst] in Hlen. rewrite Ha, Hp in He.
  destruct wrap eqn:Hw; [|lia]. subst wrap. rewrite !andb_true_iff in Hw.
  destruct Hw as [[Hw1 Hw2] _]. apply bool_decide_eq_true in Hw2.
  assert (wrapped_client_key ch <> []) as Hne
    by (intros E; by rewrite E in Hw1).
  rewrite bool_decide_true by done.
  unfold ControlWrap.append_tls_crypt_v2_wrapped_client_key.
  destruct (negb _ && _); rewrite ?length_app;
    cbn [set_protection wrapped_client_key]; lia.
Qed.

(** The acknowledgments of a packet take the space budgeted for them. *)
Lemma acknowledgment_array_length_spec o :
  let acks := firstn MAXIMUM_ACKNOWLEDGMENTS_PER_PACKET
                (Outgoing.ascending (Outgoing.pending_acknowledgments o)) in
  (1 + 4 * length acks + if decide (acks = []) then 0 else 8)%nat
  = acknowledgment_array_length (Outgoing.pending_acknowledgment_count o).
Proof.
  intros acks. unfold acknowledgment_array_length, Outgoing.pending_acknowledgment_count.
  assert (length acks = Nat.min (size (Outgoing.pending_acknowledgments o))
                          MAXIMUM_ACKNOWLEDGMENTS_PER_PACKET) as <-.
  { subst acks. rewrite length_take, Outgoing.length_ascending. lia. }
  destruct acks as [|a acks]; [done|]. rewrite !decide_False by done. lia.
Qed.

(** Every datagram that carries TLS ciphertext fits: with its IP and UDP
    headers, its acknowledgments, its protection and a wrapped client key it
    stays within the control payload size, as long as that overhead leaves
    room at all; the bytes reported as consumed are a prefix of the ciphertext
    and are exactly the payload put in flight. *)
Theorem packetize_fits (ch : TlsControlChannelCore) (ciphertext raw : list Z)
    (unix : Z) (consumed : nat) (ch' : TlsControlChannelCore) :
  Outgoing.ok (outgoing ch) -> session_ok (session ch) ->
  ControlWrap.auth (protection ch) = None
  \/ ControlWrap.crypt_v2_server_key (protection ch) = [] ->
  (control_channel_frame_overhead ch
     (Outgoing.pending_acknowledgment_count (outgoing ch))
   + length (wrapped_client_key ch) <= TLS_CONTROL_PAYLOAD_SIZE)%nat ->
  packetize_tls_ciphertext ch ciphertext unix = (Ok (Some (raw, consumed)), ch') ->
  (length raw + ip_overhead ch <= TLS_CONTROL_PAYLOAD_SIZE)%nat
  /\ (consumed <= length ciphertext)%nat
  /\ exists t, Outgoing.in_flight (outgoing ch')
                !! Session.local_control_packet_id (session ch) = Some t
     /\ Packet.payload (Outgoing.packet t) = firstn consumed ciphertext.
Proof.
  intros Hout [Hsl Hsr] Hconf Hroom. unfold packetize_tls_ciphertext.
  case_decide; [done|]. set (pending := Outgoing.pending_acknowledgment_count _) in *.
  set (size := if next_packet_carries_wrapped_client_key ch then _ else _).
  set (n := Nat.min (length ciphertext) size).
  pose proof (Outgoing.insert_outgoing_packet_cases (outgoing ch)
    MAXIMUM_ACKNOWLEDGMENTS_PER_PACKET (create_control ControlV1 (firstn n ciphertext))
    (session ch) Hout) as Hins.
  destruct (Outgoing.insert_outgoing_packet _ _ _ _) as [[[[p|]|e] o] s]; [|done|done].
  destruct Hins as (_ & Hc & Hf & _).
  apply create_control_spec in Hc
    as (Hop & Hpl & Hacks & Hid & Hlo & Hro & _).
  set (ch1 := set_outgoing o (set_session s ch)).
  destruct (encode_link_packet ch1 p unix) as [[r|e] ch2] eqn:He; [|done].
  cbn [fmap result_fmap]. intros [= <- <- <-].
  assert (outgoing ch2 = o) as Ho2.
  { revert He. unfold encode_link_packet. destruct (Packet.encode _); [|done].
    destruct (is_control_or_acknowledgment _); [|by intros [= _ <-]].
    destruct (ControlWrap.encode _ _ _). by intros [= _ <-]. }
  apply length_encode_link_packet in He; [|done|by rewrite Hop|congruence|].
  2: { rewrite Hro. destruct (Session.remote_session_id (session ch)) eqn:E;
         [by apply Hsr|done]. }
  split_and!; [|subst n; lia|].
  - rewrite Hpl, length_take, Hacks, Hid, acknowledgment_array_length_spec in He.
    fold pending in He. cbn [ch1 set_outgoing set_session protection
      wrapped_client_key] in He.
    rewrite bool_decide_and, bool_decide_not in He.
    fold (next_packet_carries_wrapped_client_key ch) in He.
    unfold ip_overhead, TLS_CONTROL_PAYLOAD_SIZE, TLS_CONTROL_CHANNEL_MTU in *.
    unfold control_channel_frame_overhead in *.
    subst n size. destruct (next_packet_carries_wrapped_client_key ch); lia.
  - rewrite Ho2, Hf, <- Hid, lookup_insert_eq. eexists. split; [done|]. exact Hpl.
Qed.

(** ** The invariant of the channel *)

Record ok (ch : TlsControlChannelCore) : Prop := mkOk {
  ok_outgoing : Outgoing.ok (outgoing ch);
  ok_incoming : Incoming.ok (incoming ch);
  ok_settled : Incoming.settled (incoming ch);
}.

(** Operations on the outgoing half alone. *)
Lemma set_outgoing_ok ch o :
  ok ch -> Outgoing.ok o -> ok (set_outgoing o ch).
Proof. intros [? ? ?] ?. by constructor. Qed.

Lemma set_session_ok ch s : ok ch -> ok (set_session s ch).
Proof. intros [? ? ?]. by constructor. Qed.

Lemma set_protection_ok ch p : ok ch -> ok (set_protection p ch).
Proof. intros [? ? ?]. by constructor. Qed.

#[local] Hint Resolve set_outgoing_ok set_session_ok set_protection_ok
  ok_outgoing Outgoing.insert_ok Outgoing.on_incoming_packet_ok Outgoing.take_ok
  Outgoing.return_ok Outgoing.ready_ok : channel.

Lemma seed_ok ch p : ok ch -> ok (seed_incoming_packet ch p).
Proof. intros. unfold seed_incoming_packet. case_match; auto with channel. Qed.

Lemma ingest_packet_ok ch p :
  ok ch -> is_u32 (Packet.id p) -> ok (ingest_packet ch p).2.
Proof.
  intros Hch Hid. unfold ingest_packet.
  assert (ok (set_outgoing (Outgoing.on_incoming_packet (outgoing ch) p) ch)) as Hack
    by auto with channel.
  repeat (match goal with
          | |- ok (if ?b then _ else _).2 => destruct b; [try done|]
          | |- ok (match ?b with left _ => _ | right _ => _ end).2 =>
              destruct b; [try done|]
          end); try (repeat case_match; done).
  destruct (Incoming.try_insert_incoming_packet (incoming ch) p) as [b inc] eqn:Ht.
  destruct Hch as [Ho Hi Hs].
  destruct (Incoming.try_insert_ok _ _ _ _ Hi Hid Ht) as (Hi' & Hl & Hp).
  destruct b; cbn [negb].
  - pose proof (Incoming.next_ordered_sequence_spec inc Hi') as Hn.
    destruct (Incoming.next_ordered_sequence inc) as [ps inc'].
    destruct Hn as (? & ? & _). destruct Hack. by constructor.
  - destruct Hack as [Hao Hai Has]. constructor; simpl; [done|done|].
    unfold Incoming.settled in *. by rewrite Hl, Hp.
Qed.

Lemma ingest_ok ch raw now :
  ok ch -> bytes_ok raw -> ok (ingest_link_packet ch raw now).2.
Proof.
  intros Hch Hb. unfold ingest_link_packet. destruct raw as [|h raw]; [done|].
  destruct (if is_control_or_acknowledgment _ then _ else _) as [d prot] eqn:Hd.
  destruct d as [out|e]; simpl; [|by apply set_protection_ok].
  assert (bytes_ok out) as Hout.
  { destruct (is_control_or_acknowledgment _); [by eapply ControlWrap.decode_bytes|].
    by injection Hd as <- <-. }
  destruct (Packet.parse out) as [p|e] eqn:Hp; simpl; [|by apply set_protection_ok].
  apply Packet.parse_sound in Hp as [Hp _]; [|done].
  pose proof (ingest_packet_ok (set_protection prot ch) p
                (set_protection_ok _ _ Hch) (Packet.ok_id _ Hp)) as Hi.
  by destruct (ingest_packet _ p).
Qed.

Lemma encode_link_packet_ok ch p unix : ok ch -> ok (encode_link_packet ch p unix).2.
Proof.
  intros. unfold encode_link_packet. destruct (Packet.encode _); [|done].
  destruct (is_control_or_acknowledgment _); [|done].
  destruct (ControlWrap.encode _ _ _). by apply set_protection_ok.
Qed.

Lemma encode_all_ok ch ps unix : ok ch -> ok (encode_all ch ps unix).2.
Proof.
  revert ch. induction ps as [|p ps IH]; intros ch Hch; simpl; [done|].
  apply (encode_link_packet_ok ch p unix) in Hch.
  destruct (encode_link_packet ch p unix) as [[raw|e] ch1]; [|done].
  specialize (IH ch1 Hch). by destruct (encode_all ch1 ps unix).
Qed.

(** Sending a freshly created reliable packet. *)
Lemma insert_channel_ok {E} ch n
    (create : list Z -> Session.SessionInner ->
              result E Packet.Packet * Session.SessionInner) :
  ok ch ->
  let '(_, o, s) := Outgoing.insert_outgoing_packet (outgoing ch) n create (session ch) in
  ok (set_outgoing o (set_session s ch)).
Proof.
  intros Hch.
  pose proof (Outgoing.insert_ok (outgoing ch) n create (session ch)
                (ok_outgoing _ Hch)) as Ho.
  destruct (Outgoing.insert_outgoing_packet _ _ _ _) as [[r o] s].
  auto with channel.
Qed.

Lemma packetize_ok ch c unix : ok ch -> ok (packetize_tls_ciphertext ch c unix).2.
Proof.
  intros Hch. unfold packetize_tls_ciphertext. case_decide; [done|].
  set (create := create_control _ _).
  pose proof (insert_channel_ok ch MAXIMUM_ACKNOWLEDGMENTS_PER_PACKET create Hch) as Hi.
  destruct (Outgoing.insert_outgoing_packet _ _ _ _) as [[[[p|]|e] o] s]; [|done|done].
  apply (encode_link_packet_ok _ p unix) in Hi.
  by destruct (encode_link_packet _ p unix).
Qed.

Lemma soft_reset_ok ch unix : ok ch -> ok (send_initial_soft_reset ch unix).2.
Proof.
  intros Hch. unfold send_initial_soft_reset.
  pose proof (insert_channel_ok ch MAXIMUM_ACKNOWLEDGMENTS_PER_PACKET
                create_soft_reset Hch) as Hi.
  destruct (Outgoing.insert_outgoing_packet _ _ _ _) as [[[[p|]|e] o] s]; [|done|done].
  by apply encode_link_packet_ok.
Qed.

Lemma acknowledgment_ok ch unix : ok ch -> ok (new_acknowledgment_packet ch unix).2.
Proof.
  intros Hch. unfold new_acknowledgment_packet.
  destruct (next_packet_carries_wrapped_client_key ch).
  - pose proof (insert_channel_ok ch ACKNOWLEDGMENT_SET_CAPACITY
                  (create_control ControlWkcV1 []) Hch) as Hi.
    destruct (Outgoing.insert_outgoing_packet _ _ _ _) as [[[[p|]|e] o] s]; [|done|done].
    by apply encode_link_packet_ok.
  - pose proof (Outgoing.take_ok (outgoing ch) ACKNOWLEDGMENT_SET_CAPACITY
                  (ok_outgoing _ Hch)) as Ht.
    unfold Outgoing.take_acknowledgment_ids.
    destruct (Outgoing.take_acknowledgments _ _) as [ids o]. simpl in Ht.
    case_decide; [by apply set_outgoing_ok|].
    destruct (Session.new_acknowledgment_packet _ _).
    + apply encode_link_packet_ok. auto with channel.
    + apply set_outgoing_ok; [auto with channel|]. by apply Outgoing.return_ok.
Qed.

Lemma ready_channel_ok ch now unix : ok ch -> ok (packets_ready_to_send ch now unix).2.
Proof.
  intros Hch. unfold packets_ready_to_send.
  pose proof (Outgoing.ready_ok (outgoing ch) now (ok_outgoing _ Hch)) as Hr.
  destruct (Outgoing.packets_ready_to_send (outgoing ch) now) as [ps o]. simpl in Hr.
  pose proof (encode_all_ok (set_outgoing o ch) ps unix (set_outgoing_ok _ _ Hch Hr)) as He.
  destruct (encode_all _ ps unix) as [[raws|e] ch1]; [|done]. simpl in He.
  case_decide; [|done]. apply (acknowledgment_ok ch1 unix) in He.
  destruct (new_acknowledgment_packet ch1 unix) as [[raw|[]] ch2]; done.
Qed.

(** The operations of a channel, as transitions. *)
Inductive step : TlsControlChannelCore -> TlsControlChannelCore -> Prop :=
| step_seed ch p : step ch (seed_incoming_packet ch p)
| step_ingest ch raw now :
    bytes_ok raw -> step ch (ingest_link_packet ch raw now).2
| step_packetize ch c unix : step ch (packetize_tls_ciphertext ch c unix).2
| step_soft_reset ch unix : step ch (send_initial_soft_reset ch unix).2
| step_ready ch now unix : step ch (packets_ready_to_send ch now unix).2
| step_return ch raw : step ch (return_failed_acknowledgments ch raw).2.

(** A control channel keeps its windows bounded and consistent whatever
    bytes a peer sends and in whatever order the operations run: at most six
    packets in flight, at most eight pending acknowledgments, and a receive
    buffer of at most twelve slots that never holds the packet it waits for. *)
Theorem channel_reachable_ok (s : Session.SessionInner)
    (p : ControlWrap.TlsControlProtection) (wkc : list Z) (v6 : bool)
    (ch : TlsControlChannelCore) :
  rtc step (new s p wkc v6) ch -> ok ch.
Proof.
  apply rtc_invariant.
  - intros a b Ha Hab. destruct Hab; auto using seed_ok, ingest_ok, packetize_ok,
      soft_reset_ok, ready_channel_ok.
    unfold return_failed_acknowledgments. destruct (Packet.parse raw); [|done].
    simpl. case_decide; [|done]. apply set_outgoing_ok; [done|].
    by apply Outgoing.return_ok, ok_outgoing.
  - destruct Incoming.new_ok as [? ?]. constructor; [|done|done].
    constructor; [vm_compute; lia|vm_compute; lia|].
    intros id t. simpl. by rewrite lookup_empty.
Qed.

End channel.

(** ** Examples, with the toy primitives *)

Section examples.
Import ToyCrypto.

(** A client with a [tls-crypt] key, three acknowledgments to send and an IPv6
    link. *)
Definition sample_session : Session.SessionInner :=
  Session.set_remote_session_id (Session.with_local_id [1; 2; 3; 4; 5; 6; 7; 8])
    [8; 7; 6; 5; 4; 3; 2; 1].

Definition sample_channel : TlsControlChannelCore :=
  set_outgoing (Outgoing.mkOutgoing ∅ (list_to_set [1; 2; 3]))
    (new sample_session
       (ControlWrap.mkProtection None (Some (ControlWrap.endpoint 0)) []) [] true).

(** A long ciphertext fills the datagram to 16 bytes below the limit: the
    budget counts a cipher block that the counter mode does not use. *)
Lemma packetize_fits_witness :
  match packetize_tls_ciphertext sample_channel (replicate 2000 7) 1000 with
  | (Ok (Some (raw, consumed)), ch') =>
      (length raw + ip_overhead sample_channel = 1008)%nat
      /\ (length raw + ip_overhead sample_channel <= TLS_CONTROL_PAYLOAD_SIZE)%nat
      /\ (consumed <= length (replicate 2000 7))%nat
      /\ exists t, Outgoing.in_flight (outgoing ch')
                   !! Session.local_control_packet_id (session sample_channel)
                   = Some t
         /\ Packet.payload (Outgoing.packet t) = firstn consumed (replicate 2000 7)
  | _ => False
  end.
Proof.
  destruct (packetize_tls_ciphertext sample_channel (replicate 2000 7) 1000)
    as [[[[raw consumed]|]|e] ch'] eqn:E;
    [|vm_compute in E; discriminate|vm_compute in E; discriminate].
  split.
  - vm_compute in E. injection E as <- _ _. vm_compute. reflexivity.
  - apply (packetize_fits sample_channel (replicate 2000 7) raw 1000 consumed ch').
    + constructor; [vm_compute; lia|vm_compute; lia|].
      intros id t. simpl. rewrite lookup_empty. discriminate.
    + split; [reflexivity|]. intros id [= <-]. reflexivity.
    + right. reflexivity.
    + vm_compute. lia.
    + exact E.
Defined.

(** A channel that sends, receives garbage and polls. *)
Lemma channel_reachable_ok_witness :
  let ch0 := new sample_session (ControlWrap.mkProtection None None []) [] false in
  let ch1 := (packetize_tls_ciphertext ch0 [22; 3; 1] 1000).2 in
  let ch2 := (ingest_link_packet ch1 (replicate 30 32) 5).2 in
  let ch3 := (packets_ready_to_send ch2 6 1000).2 in
  has_in_flight_packets ch3 = true /\ ok ch3.
Proof.
  intros ch0 ch1 ch2 ch3. split; [vm_compute; reflexivity|].
  apply (channel_reachable_ok sample_session (ControlWrap.mkProtection None None [])
           [] false).
  eapply rtc_l; [apply step_packetize|].
  eapply rtc_l; [apply step_ingest|apply rtc_once, step_ready].
  apply Forall_replicate. ilia.
Defined.

End examples.

End Channel.
