(* ===== verification/OvpnControlMux.v ===== *)
(** * The control-channel demultiplexer ([protocol/openvpn/control_mux.rs])

    The primary control channel and the soft-reset channels that live beside
    it, by key id.  [iter] is the unspecified order in which the code visits
    the values of its [HashMap]. *)

From stdpp Require Import base numbers list gmap.
From Stdlib Require Import ZArith Lia.
From S2P Require Import Prelude OvpnPacket OvpnSession OvpnReliable OvpnCrypto OvpnControlWrap.
From S2P Require Import OvpnControlChannel.

Local Open Scope Z_scope.

Definition MAXIMUM_PENDING_PACKETS_PER_KEY_STATE : nat := 8.

Record RoutedControlEvents : Type := mkRouted {
  routed_key_id : Z;
  events : list IncomingControlEvent;
}.

Inductive ControlMuxError : Type :=
| MuxEmptyPacket
| InvalidRenegotiationKeyId
| DuplicateKeyId (key_id : Z)
| UnknownKeyId (key_id : Z)
| WrongInitialResetKeyId
| ChannelErr (e : ControlChannelError).

Module Mux.

Section mux.
Context `{Crypto}.

Record TlsControlChannelMuxCore : Type := mkMux {
  primary_key_id : Z;
  channels : gmap Z Channel.TlsControlChannelCore;
  pending : gmap Z (list (list Z));
}.

Definition channel_key_id (ch : Channel.TlsControlChannelCore) : Z :=
  Session.key_id (Channel.session ch).

Definition new (primary : Channel.TlsControlChannelCore) :
    TlsControlChannelMuxCore :=
  mkMux (channel_key_id primary) {[channel_key_id primary := primary]} ∅.

Definition contains (m : TlsControlChannelMuxCore) (key_id : Z) : bool :=
  bool_decide (is_Some (channels m !! key_id)).

(** The replay of the buffered packets, which stops at the first error. *)
Fixpoint replay_pending (ch : Channel.TlsControlChannelCore)
    (packets : list (list Z)) (now : Z) :
    result ControlChannelError (list IncomingControlEvent)
    * Channel.TlsControlChannelCore :=
  match packets with
  | [] => (Ok [], ch)
  | packet :: packets =>
      let '(r, ch) := Channel.ingest_link_packet ch packet now in
      match r with
      | Err e => (Err e, ch)
      | Ok es =>
          let '(r, ch) := replay_pending ch packets now in
          (app es <$> r, ch)
      end
  end.

(** [register_renegotiation_channel]: the channel is moved in, so it is lost
    when the registration fails. *)
Definition register_renegotiation_channel (m : TlsControlChannelMuxCore)
    (channel : Channel.TlsControlChannelCore)
    (initial_soft_reset : option Packet.Packet) (now : Z) :
    result ControlMuxError (list IncomingControlEvent)
    * TlsControlChannelMuxCore :=
  let key_id := channel_key_id channel in
  if decide (key_id = 0) then (Err InvalidRenegotiationKeyId, m)
  else if contains m key_id then (Err (DuplicateKeyId key_id), m)
  else
    match
      match initial_soft_reset with
      | Some packet =>
          if decide (Packet.key_id packet <> key_id) then None
          else Some (Channel.seed_incoming_packet channel packet)
      | None => Some channel
      end
    with
    | None => (Err WrongInitialResetKeyId, m)
    | Some channel =>
        let packets := default [] (pending m !! key_id) in
        let m := mkMux (primary_key_id m) (channels m) (delete key_id (pending m)) in
        let '(r, channel) := replay_pending channel packets now in
        match r with
        | Err e => (Err (ChannelErr e), m)
        | Ok es =>
            (Ok es,
             mkMux (primary_key_id m) (<[key_id := channel]> (channels m))
               (pending m))
        end
    end.

Definition promote (m : TlsControlChannelMuxCore) (key_id : Z) :
    result ControlMuxError unit * TlsControlChannelMuxCore :=
  if contains m key_id
  then (Ok (), mkMux key_id (channels m) (pending m))
  else (Err (UnknownKeyId key_id), m).

Definition unregister (m : TlsControlChannelMuxCore) (key_id : Z) :
    bool * TlsControlChannelMuxCore :=
  if decide (key_id = primary_key_id m) then (false, m)
  else
    (contains m key_id,
     mkMux (primary_key_id m) (delete key_id (channels m))
       (delete key_id (pending m))).

(** Buffering a packet of an unknown key state: the oldest one makes room. *)
Definition push_pending (packets : list (list Z)) (packet : list Z) :
    list (list Z) :=
  (if decide (MAXIMUM_PENDING_PACKETS_PER_KEY_STATE <= length packets)%nat
   then tail packets else packets) ++ [packet].

Definition ingest_link_packet (m : TlsControlChannelMuxCore)
    (raw_packet : list Z) (now : Z) :
    result ControlMuxError RoutedControlEvents * TlsControlChannelMuxCore :=
  match raw_packet with
  | [] => (Err MuxEmptyPacket, m)
  | header :: _ =>
      let announced := Z.land header 7 in
      let opcode := Opcode.from_wire (Z.shiftr header 3) in
      if negb (contains m announced)
         && negb (bool_decide (opcode = ControlSoftResetV1))
      then
        (Ok (mkRouted announced []),
         mkMux (primary_key_id m) (channels m)
           (<[announced :=
                push_pending (default [] (pending m !! announced)) raw_packet]>
              (pending m)))
      else
        let routed :=
          if contains m announced then announced else primary_key_id m in
        match channels m !! routed with
        | None => (Err (UnknownKeyId routed), m)
        | Some channel =>
            let '(r, channel) := Channel.ingest_link_packet channel raw_packet now in
            let m :=
              mkMux (primary_key_id m) (<[routed := channel]> (channels m))
                (pending m) in
            (mkRouted routed <$> map_err ChannelErr r, m)
        end
  end.

(** The operations that address one channel. *)
Definition with_channel {A} (m : TlsControlChannelMuxCore) (key_id : Z)
    (f : Channel.TlsControlChannelCore ->
         result ControlChannelError A * Channel.TlsControlChannelCore) :
    result ControlMuxError A * TlsControlChannelMuxCore :=
  match channels m !! key_id with
  | None => (Err (UnknownKeyId key_id), m)
  | Some channel =>
      let '(r, channel) := f channel in
      (map_err ChannelErr r,
       mkMux (primary_key_id m) (<[key_id := channel]> (channels m)) (pending m))
  end.

Definition packetize_tls_ciphertext (m : TlsControlChannelMuxCore) (key_id : Z)
    (ciphertext : list Z) (unix : Z) :=
  with_channel m key_id
    (fun ch => Channel.packetize_tls_ciphertext ch ciphertext unix).

Definition send_initial_soft_reset (m : TlsControlChannelMuxCore) (key_id unix : Z) :=
  with_channel m key_id (fun ch => Channel.send_initial_soft_reset ch unix).

Section ready.
Variable iter : gmap Z Channel.TlsControlChannelCore -> list Z.

(** The loop of [packets_ready_to_send] over the channels. *)
Fixpoint ready_loop (m : TlsControlChannelMuxCore) (keys : list Z) (now unix : Z) :
    result ControlMuxError (list (list Z)) * TlsControlChannelMuxCore :=
  match keys with
  | [] => (Ok [], m)
  | key :: keys =>
      let '(r, m) :=
        with_channel m key (fun ch => Channel.packets_ready_to_send ch now unix) in
      match r with
      | Err e => (Err e, m)
      | Ok packets =>
          let '(r, m) := ready_loop m keys now unix in
          (app packets <$> r, m)
      end
  end.

Definition packets_ready_to_send (m : TlsControlChannelMuxCore) (now unix : Z) :=
  ready_loop m (iter (channels m)) now unix.
End ready.

(** ** Invariant *)

(** The primary channel is registered, packets are buffered only for key
    states that are not, at most eight of them each, and every channel is
    registered under its own key id. *)
Record ok (m : TlsControlChannelMuxCore) : Prop := mkOk {
  ok_primary : is_Some (channels m !! primary_key_id m);
  ok_pending : forall k l, pending m !! k = Some l ->
    (length l <= MAXIMUM_PENDING_PACKETS_PER_KEY_STATE)%nat
    /\ channels m !! k = None;
  ok_keys : forall k ch, channels m !! k = Some ch -> channel_key_id ch = k;
}.

(** No operation of a channel changes its key id. *)
Lemma ingest_packet_key ch p :
  channel_key_id (Channel.ingest_packet ch p).2 = channel_key_id ch.
Proof. unfold Channel.ingest_packet. by repeat case_match. Qed.

Lemma ingest_key ch raw now :
  channel_key_id (Channel.ingest_link_packet ch raw now).2 = channel_key_id ch.
Proof.
  unfold Channel.ingest_link_packet. destruct raw; [done|].
  destruct (if Channel.is_control_or_acknowledgment _ then _ else _) as [[out|e] p];
    [|done].
  destruct (Packet.parse out) as [q|e]; [|done].
  pose proof (ingest_packet_key (Channel.set_protection p ch) q) as Hk.
  by destruct (Channel.ingest_packet _ q).
Qed.

Lemma encode_key ch p unix :
  channel_key_id (Channel.encode_link_packet ch p unix).2 = channel_key_id ch.
Proof.
  unfold Channel.encode_link_packet. destruct (Packet.encode _); [|done].
  destruct (Channel.is_control_or_acknowledgment _); [|done].
  by destruct (ControlWrap.encode _ _ _).
Qed.

Lemma create_control_key op body acks s :
  Session.key_id (Channel.create_control op body acks s).2 = Session.key_id s.
Proof.
  unfold Channel.create_control, Session.new_control_packet.
  destruct (negb _); [done|]. by case_decide.
Qed.

Lemma insert_key {E} ch n
    (create : list Z -> Session.SessionInner ->
              result E Packet.Packet * Session.SessionInner) :
  (forall acks s, Session.key_id (create acks s).2 = Session.key_id s) ->
  let '(_, o, s) := Outgoing.insert_outgoing_packet (Channel.outgoing ch) n create
                      (Channel.session ch) in
  channel_key_id (Channel.set_outgoing o (Channel.set_session s ch))
  = channel_key_id ch.
Proof.
  intros Hc. unfold Outgoing.insert_outgoing_packet. case_decide; [done|].
  destruct (Outgoing.take_acknowledgments _ _) as [ids o].
  specialize (Hc ids (Channel.session ch)).
  destruct (create ids (Channel.session ch)) as [[p|e] s]; done.
Qed.

Lemma packetize_key ch c unix :
  channel_key_id (Channel.packetize_tls_ciphertext ch c unix).2 = channel_key_id ch.
Proof.
  unfold Channel.packetize_tls_ciphertext. case_decide; [done|].
  set (create := Channel.create_control _ _).
  pose proof (insert_key ch MAXIMUM_ACKNOWLEDGMENTS_PER_PACKET create
                ltac:(intros; apply create_control_key)) as Hi.
  destruct (Outgoing.insert_outgoing_packet _ _ _ _) as [[[[p|]|e] o] s]; [|done|done].
  rewrite <- Hi.
  pose proof (encode_key (Channel.set_outgoing o (Channel.set_session s ch)) p unix) as He.
  by destruct (Channel.encode_link_packet _ p unix).
Qed.

Lemma soft_reset_key ch unix :
  channel_key_id (Channel.send_initial_soft_reset ch unix).2 = channel_key_id ch.
Proof.
  unfold Channel.send_initial_soft_reset.
  pose proof (insert_key ch MAXIMUM_ACKNOWLEDGMENTS_PER_PACKET
                Channel.create_soft_reset ltac:(done)) as Hi.
  destruct (Outgoing.insert_outgoing_packet _ _ _ _) as [[[[p|]|e] o] s]; [|done|done].
  by rewrite encode_key.
Qed.

Lemma acknowledgment_key ch unix :
  channel_key_id (Channel.new_acknowledgment_packet ch unix).2 = channel_key_id ch.
Proof.
  unfold Channel.new_acknowledgment_packet.
  destruct (Channel.next_packet_carries_wrapped_client_key ch).
  - pose proof (insert_key ch ACKNOWLEDGMENT_SET_CAPACITY
                  (Channel.create_control ControlWkcV1 [])
                  ltac:(intros; apply create_control_key)) as Hi.
    destruct (Outgoing.insert_outgoing_packet _ _ _ _) as [[[[p|]|e] o] s]; [|done|done].
    by rewrite encode_key.
  - destruct (Outgoing.take_acknowledgment_ids _ _) as [ids o]. case_decide; [done|].
    destruct (Session.new_acknowledgment_packet _ _); [|done]. by rewrite encode_key.
Qed.

Lemma encode_all_key ch ps unix :
  channel_key_id (Channel.encode_all ch ps unix).2 = channel_key_id ch.
Proof.
  revert ch. induction ps as [|p ps IH]; intros ch; simpl; [done|].
  rewrite <- (encode_key ch p unix).
  destruct (Channel.encode_link_packet ch p unix) as [[raw|e] ch1]; [|done].
  specialize (IH ch1). by destruct (Channel.encode_all ch1 ps unix).
Qed.

Lemma ready_key ch now unix :
  channel_key_id (Channel.packets_ready_to_send ch now unix).2 = channel_key_id ch.
Proof.
  unfold Channel.packets_ready_to_send.
  destruct (Outgoing.packets_ready_to_send _ now) as [ps o].
  pose proof (encode_all_key (Channel.set_outgoing o ch) ps unix) as He.
  destruct (Channel.encode_all _ ps unix) as [[raws|e] ch1]; [|done]. simpl in He.
  change (channel_key_id (Channel.set_outgoing o ch)) with (channel_key_id ch) in He.
  case_decide; [|done]. rewrite <- He, <- (acknowledgment_key ch1 unix).
  by destruct (Channel.new_acknowledgment_packet ch1 unix) as [[raw|[]] ch2].
Qed.

Lemma replay_key ch ps now :
  channel_key_id (replay_pending ch ps now).2 = channel_key_id ch.
Proof.
  revert ch. induction ps as [|p ps IH]; intros ch; simpl; [done|].
  rewrite <- (ingest_key ch p now).
  destruct (Channel.ingest_link_packet ch p now) as [[es|e] ch1]; [|done].
  specialize (IH ch1). by destruct (replay_pending ch1 ps now).
Qed.

(** Replacing a registered channel by one with the same key id. *)
Lemma update_channel_ok m k ch ch' :
  ok m -> channels m !! k = Some ch -> channel_key_id ch' = k ->
  ok (mkMux (primary_key_id m) (<[k := ch']> (channels m)) (pending m)).
Proof.
  intros [Hp Hq Hk] Hch Hkey. constructor; simpl.
  - rewrite lookup_insert. case_decide; eauto.
  - intros j l Hl. destruct (Hq j l Hl) as [? Hn]. split; [done|].
    rewrite lookup_insert_ne; [done|]. intros ->. congruence.
  - intros j c. rewrite lookup_insert. case_decide; [intros [= <-]; congruence|apply Hk].
Qed.

Lemma with_channel_ok {A} m k
    (f : Channel.TlsControlChannelCore ->
         result ControlChannelError A * Channel.TlsControlChannelCore) :
  (forall ch, channel_key_id (f ch).2 = channel_key_id ch) ->
  ok m -> ok (with_channel m k f).2.
Proof.
  intros Hf Hm. unfold with_channel. destruct (channels m !! k) as [ch|] eqn:Hch; [|done].
  specialize (Hf ch). destruct (f ch) as [r ch']. simpl in *.
  apply (update_channel_ok m k ch); [done|done|]. rewrite Hf. by apply Hm.
Qed.

Lemma contains_false m k : contains m k = false -> channels m !! k = None.
Proof. unfold contains. rewrite bool_decide_eq_false. apply eq_None_not_Some. Qed.

Lemma length_push_pending l p :
  (length l <= MAXIMUM_PENDING_PACKETS_PER_KEY_STATE)%nat ->
  (length (push_pending l p) <= MAXIMUM_PENDING_PACKETS_PER_KEY_STATE)%nat.
Proof.
  unfold push_pending, MAXIMUM_PENDING_PACKETS_PER_KEY_STATE. intros Hl.
  rewrite length_app. case_decide; [destruct l|]; simpl in *; lia.
Qed.

Lemma mux_ingest_ok m raw now : ok m -> ok (ingest_link_packet m raw now).2.
Proof.
  intros Hm. unfold ingest_link_packet. destruct raw as [|h raw]; [done|].
  set (k := Z.land h 7). destruct (negb (contains m k) && _) eqn:Hc.
  - apply andb_true_iff in Hc as [Hc%negb_true_iff%contains_false _].
    destruct Hm as [Hp Hq Hk]. constructor; simpl; [done| |done].
    intros j l. rewrite lookup_insert. case_decide as E; [|apply Hq].
    intros [= <-]. subst j. split; [|done]. apply length_push_pending.
    destruct (pending m !! k) as [l|] eqn:El; [by apply (Hq k)|simpl; lia].
  - set (routed := if contains m k then k else _).
    destruct (channels m !! routed) as [ch|] eqn:Hch; [|done].
    pose proof (ingest_key ch (h :: raw) now) as Hkey.
    destruct (Channel.ingest_link_packet ch (h :: raw) now) as [r ch']. simpl in *.
    apply (update_channel_ok m routed ch); [done|done|]. rewrite Hkey. by apply Hm.
Qed.

Lemma delete_pending_ok m k :
  ok m -> ok (mkMux (primary_key_id m) (channels m) (delete k (pending m))).
Proof.
  intros [Hp Hq Hk]. constructor; simpl; [done| |done].
  intros j l [_ Hl]%lookup_delete_Some. by apply Hq.
Qed.

Lemma register_ok m ch reset now :
  ok m -> ok (register_renegotiation_channel m ch reset now).2.
Proof.
  intros Hm. unfold register_renegotiation_channel. case_decide; [done|].
  destruct (contains m (channel_key_id ch)) eqn:Hc; [done|].
  apply contains_false in Hc.
  destruct (match reset with Some _ => _ | None => _ end) as [ch1|] eqn:Hr; [|done].
  assert (channel_key_id ch1 = channel_key_id ch) as Hkey.
  { destruct reset as [p|]; [case_decide; [done|]|]; injection Hr as <-; [|done].
    unfold Channel.seed_incoming_packet. by case_match. }
  pose proof (replay_key ch1 (default [] (pending m !! channel_key_id ch)) now) as Hk2.
  destruct (replay_pending ch1 _ now) as [[es|e] ch2]; simpl in *;
    [|by apply delete_pending_ok].
  apply (delete_pending_ok m (channel_key_id ch)) in Hm as [Hp Hq Hk].
  constructor; simpl in *.
  - rewrite lookup_insert. case_decide; eauto.
  - intros j l Hl. destruct (Hq j l Hl) as [? Hn]. split; [done|].
    rewrite lookup_insert_ne; [done|]. intros <-. by rewrite lookup_delete_eq in Hl.
  - intros j c. rewrite lookup_insert. case_decide; [|apply Hk].
    intros [= <-]. congruence.
Qed.

Lemma ready_loop_ok m keys now unix : ok m -> ok (ready_loop m keys now unix).2.
Proof.
  revert m. induction keys as [|k keys IH]; intros m Hm; simpl; [done|].
  set (f := fun ch => Channel.packets_ready_to_send ch now unix).
  apply (with_channel_ok m k f) in Hm; [|intros; apply ready_key].
  destruct (with_channel m k f) as [[ps|e] m1]; [|done].
  specialize (IH m1 Hm). by destruct (ready_loop m1 keys now unix).
Qed.

(** The operations of the demultiplexer, as transitions. *)
Inductive step : TlsControlChannelMuxCore -> TlsControlChannelMuxCore -> Prop :=
| step_register m ch reset now :
    step m (register_renegotiation_channel m ch reset now).2
| step_promote m k : step m (promote m k).2
| step_unregister m k : step m (unregister m k).2
| step_ingest m raw now : step m (ingest_link_packet m raw now).2
| step_packetize m k c unix : step m (packetize_tls_ciphertext m k c unix).2
| step_soft_reset m k unix : step m (send_initial_soft_reset m k unix).2
| step_ready m iter now unix : step m (packets_ready_to_send iter m now unix).2.

(** However channels are registered, promoted and removed and whatever
    packets arrive, the primary channel always exists, every channel is filed
    under its own key id, and the buffer of packets for key states that do not
    exist yet stays bounded (eight packets per key id) and disjoint from the
    registered channels. *)
Theorem mux_reachable_ok (primary : Channel.TlsControlChannelCore)
    (m : TlsControlChannelMuxCore) :
  rtc step (new primary) m -> ok m.
Proof.
  apply rtc_invariant.
  - intros a b Ha Hab. destruct Hab as [m0 ch r now|m0 k|m0 k|m0 raw now|m0 k c u|m0 k u|m0 it now u].
    + by apply register_ok.
    + unfold promote. destruct (contains m0 k) eqn:Hc; [|done]. simpl.
      unfold contains in Hc. apply bool_decide_eq_true in Hc.
      destruct Ha as [? ? ?]. by constructor.
    + unfold unregister. case_decide as Hne; [done|]. destruct Ha as [Hp Hq Hk].
      constructor; simpl.
      * by rewrite lookup_delete_ne.
      * intros j l [Hj Hl]%lookup_delete_Some. rewrite lookup_delete_ne by done.
        by apply Hq.
      * intros j ch [_ Hl]%lookup_delete_Some. by apply Hk.
    + by apply mux_ingest_ok.
    + apply with_channel_ok; [intros; apply packetize_key|done].
    + apply with_channel_ok; [intros; apply soft_reset_key|done].
    + by apply ready_loop_ok.
  - constructor; simpl.
    + rewrite lookup_singleton_eq. eauto.
    + intros k l. by rewrite lookup_empty.
    + by intros k ch [<- <-]%lookup_singleton_Some.
Qed.

(** ** Packets that arrive before their channel *)

Definition early (k : Z) (raw : list Z) : Prop :=
  match raw with
  | [] => False
  | header :: _ => Z.land header 7 = k
      /\ Opcode.from_wire (Z.shiftr header 3) <> ControlSoftResetV1
  end.

Lemma ingest_early m k raw now :
  channels m !! k = None -> early k raw ->
  ingest_link_packet m raw now
  = (Ok (mkRouted k []),
     mkMux (primary_key_id m) (channels m)
       (<[k := push_pending (default [] (pending m !! k)) raw]> (pending m))).
Proof.
  intros Hn He. destruct raw as [|h raw]; [done|]. destruct He as [Hk Hop]. simpl.
  rewrite Hk. unfold contains. rewrite Hn, !bool_decide_false; [done|done|].
  by intros [? ?].
Qed.

Lemma push_pending_drop l p :
  let cap := MAXIMUM_PENDING_PACKETS_PER_KEY_STATE in
  push_pending (drop (length l - cap) l) p = drop (length (l ++ [p]) - cap) (l ++ [p]).
Proof.
  intros cap. unfold push_pending. fold cap. rewrite length_drop, length_app.
  simpl length. assert (0 < cap)%nat as Hpos by (subst cap; apply Nat.lt_0_succ).
  clearbody cap. case_decide as Hc.
  - rewrite drop_app_le by lia. f_equal.
    replace (length l + 1 - cap)%nat with (length l - cap + 1)%nat by lia.
    rewrite <- drop_drop. by destruct (drop (length l - cap) l).
  - replace (length l - cap)%nat with 0%nat by lia.
    replace (length l + 1 - cap)%nat with 0%nat by lia. by rewrite !drop_0.
Qed.

(** The state after a run of early packets. *)
Lemma ingest_early_run m k raws now :
  channels m !! k = None -> Forall (early k) raws -> pending m !! k = None ->
  let m' := foldl (fun m raw => (ingest_link_packet m raw now).2) m raws in
  channels m' = channels m
  /\ default [] (pending m' !! k)
     = drop (length raws - MAXIMUM_PENDING_PACKETS_PER_KEY_STATE) raws.
Proof.
  intros Hn He Hp. induction raws as [|raw raws IH] using rev_ind.
  { simpl. by rewrite Hp. }
  apply Forall_app in He as [He Hr]. rewrite Forall_singleton in Hr.
  rewrite foldl_app. simpl. destruct (IH He) as [Hc Hd].
  set (m1 := foldl _ m raws) in *. rewrite (ingest_early m1 k) by (done || by rewrite Hc).
  simpl. split; [done|]. rewrite lookup_insert_eq. simpl.
  rewrite Hd. apply push_pending_drop.
Qed.

(** Packets that arrive ahead of their key state are not lost: when the
    renegotiation channel is registered, the last eight of them are handed to
    it in arrival order, as if they had arrived after the registration. *)
Theorem early_packets_replayed (m : TlsControlChannelMuxCore)
    (channel : Channel.TlsControlChannelCore) (raws : list (list Z)) (now : Z) :
  let k := channel_key_id channel in
  k <> 0 -> channels m !! k = None -> pending m !! k = None ->
  Forall (early k) raws ->
  let m' := foldl (fun m raw => (ingest_link_packet m raw now).2) m raws in
  let kept := drop (length raws - MAXIMUM_PENDING_PACKETS_PER_KEY_STATE) raws in
  let '(r, channel') := replay_pending channel kept now in
  let '(r', m'') := register_renegotiation_channel m' channel None now in
  r' = map_err ChannelErr r
  /\ pending m'' !! k = None
  /\ channels m'' !! k = (if is_ok r then Some channel' else None).
Proof.
  intros k Hk Hn Hp He m' kept.
  destruct (ingest_early_run m k raws now Hn He Hp) as [Hc Hd].
  fold m' in Hc, Hd. fold kept in Hd. unfold register_renegotiation_channel.
  fold k. rewrite decide_False by done. unfold contains.
  rewrite Hc, Hn, bool_decide_false by (by intros [? ?]). rewrite Hd.
  destruct (replay_pending channel kept now) as [[es|e] ch]; simpl.
  - rewrite lookup_delete_eq, lookup_insert_eq. done.
  - by rewrite lookup_delete_eq.
Qed.

(** One undecodable early packet makes the registration fail, and the channel
    that was moved into the call is not registered. *)
Lemma register_loses_channel m channel now e channel' :
  channel_key_id channel <> 0 ->
  channels m !! channel_key_id channel = None ->
  replay_pending channel (default [] (pending m !! channel_key_id channel)) now
  = (Err e, channel') ->
  let '(r, m') := register_renegotiation_channel m channel None now in
  r = Err (ChannelErr e) /\ channels m' = channels m
  /\ pending m' !! channel_key_id channel = None.
Proof.
  intros Hk Hn Hr. unfold register_renegotiation_channel.
  rewrite decide_False by done. unfold contains.
  rewrite Hn, bool_decide_false by (by intros [? ?]). rewrite Hr. simpl.
  by rewrite lookup_delete_eq.
Qed.

End mux.

(** ** Examples, with the toy primitives *)

Section examples.
Import ToyCrypto.

Definition plain_protection : ControlWrap.TlsControlProtection :=
  ControlWrap.mkProtection None None [].

Definition primary_channel : Channel.TlsControlChannelCore :=
  Channel.new Channel.sample_session plain_protection [] false.

Definition renegotiated_channel : Channel.TlsControlChannelCore :=
  Channel.new (Session.renegotiation Channel.sample_session 1) plain_protection []
    false.

(** A control packet of key state 1 with id [n]. *)
Definition early_packet (n : Z) : list Z :=
  [33; 8; 7; 6; 5; 4; 3; 2; 1; 0; 0; 0; 0; n; 100 + n].

(** Packets 2 and 1 arrive before the channel: it delivers 1 and 2. *)
Lemma early_packets_replayed_witness :
  let k := channel_key_id renegotiated_channel in
  let raws := [early_packet 2; early_packet 1] in
  let m' := foldl (fun m raw => (ingest_link_packet m raw 0).2)
              (new primary_channel) raws in
  (register_renegotiation_channel m' renegotiated_channel None 0).1
  = Ok [TlsCiphertext [101]; TlsCiphertext [102]]
  /\ let kept := drop (length raws - MAXIMUM_PENDING_PACKETS_PER_KEY_STATE) raws in
     let '(r, channel') := replay_pending renegotiated_channel kept 0 in
     let '(r', m'') := register_renegotiation_channel m' renegotiated_channel None 0 in
     r' = map_err ChannelErr r
     /\ pending m'' !! k = None
     /\ channels m'' !! k = (if is_ok r then Some channel' else None).
Proof.
  intros k raws m'. split; [vm_compute; reflexivity|].
  apply (early_packets_replayed (new primary_channel) renegotiated_channel raws 0).
  - vm_compute. discriminate.
  - vm_compute. reflexivity.
  - vm_compute. reflexivity.
  - repeat constructor; vm_compute; discriminate.
Defined.

(** A renegotiation: an early packet, the registration, the promotion and the
    removal of the old channel. *)
Lemma mux_reachable_ok_witness :
  let m1 := (ingest_link_packet (new primary_channel) (early_packet 1) 0).2 in
  let m2 := (register_renegotiation_channel m1 renegotiated_channel None 0).2 in
  let m3 := (promote m2 1).2 in
  let m4 := (unregister m3 0).2 in
  primary_key_id m4 = 1 /\ ok m4.
Proof.
  intros m1 m2 m3 m4. split; [vm_compute; reflexivity|].
  apply (mux_reachable_ok primary_channel).
  eapply rtc_l; [apply step_ingest|]. eapply rtc_l; [apply step_register|].
  eapply rtc_l; [apply step_promote|]. apply rtc_once, step_unregister.
Defined.

End examples.

End Mux.
