(* ===== verification/OvpnCookie.v ===== *)
(** * Stateless session ids ([protocol/openvpn/session_id_hmac.rs])

    The server's session id for a client is a truncated HMAC over the time
    bucket, the client's address and the client's session id, so that the first
    answer needs no state.  The random key of [new] is an argument. *)

From stdpp Require Import base numbers list list_numbers strings.
From Stdlib Require Import ZArith Lia.
From S2P Require Import Prelude OvpnCrypto.

Local Open Scope Z_scope.

Definition DEFAULT_HANDSHAKE_WINDOW_SECONDS : Z := 60.
Definition SESSION_ID_HMAC_PAST_BUCKETS : Z := 2.
Definition SESSION_ID_HMAC_FUTURE_BUCKETS : Z := 1.

(** The strings as their bytes. *)
Inductive SessionPeerAddress : Type :=
| PeerUdp (ip : IpAddr) (port : Z) (zone : list Z)
| PeerOther (network address : list Z).

Module Cookie.

Record SessionIdHmacSigner : Type := mkSigner {
  hmac_key : list Z;
  handshake_window : Z;
}.

Definition new (key : list Z) : SessionIdHmacSigner :=
  mkSigner key DEFAULT_HANDSHAKE_WINDOW_SECONDS.

Definition with_key (key : list Z) (window : Z) : SessionIdHmacSigner :=
  mkSigner key window.

Definition encode_peer_address (peer : option SessionPeerAddress) : list Z :=
  match peer with
  | None => []
  | Some (PeerUdp ip port zone) =>
      let '(family, address) :=
        match ip with
        | IpV4 a => (4, to_be_bytes 4 a)
        | IpV6 a => (6, to_be_bytes 16 a)
        end in
      [family] ++ address ++ to_be_bytes 2 port
        ++ to_be_bytes 2 (wrap16 (Z.of_nat (length zone))) ++ zone
  | Some (PeerOther network address) =>
      to_be_bytes 2 (wrap16 (Z.of_nat (length network))) ++ network
        ++ to_be_bytes 2 (wrap16 (Z.of_nat (length address))) ++ address
  end.

Definition constant_time_eq (left right : list Z) : bool :=
  if decide (length left <> length right) then false
  else
    bool_decide
      (foldl (fun difference '(l, r) => Z.lor difference (Z.lxor l r)) 0
         (zip left right) = 0).

Section signer.
Context `{Crypto}.

(** What is signed. *)
Definition input (self : SessionIdHmacSigner) (client_session_id : list Z)
    (peer_address : option SessionPeerAddress) (current_time offset : Z) : list Z :=
  let bucket_width := Z.quot (handshake_window self + 1) 2 in
  let bucket := wrap32 (Z.quot current_time bucket_width) in
  let bucket := wrap32 (bucket + wrap32 offset) in
  to_be_bytes 4 bucket ++ encode_peer_address peer_address ++ client_session_id.

Definition derive_at (self : SessionIdHmacSigner) (client_session_id : list Z)
    (peer_address : option SessionPeerAddress) (current_time offset : Z) : list Z :=
  firstn 8
    (Digest.sign Sha256 (hmac_key self)
       (input self client_session_id peer_address current_time offset)).

Definition validate_at (self : SessionIdHmacSigner) (client_session_id : list Z)
    (peer_address : option SessionPeerAddress) (server_session_id : list Z)
    (current_time : Z) : bool :=
  existsb
    (fun offset =>
       constant_time_eq (derive_at self client_session_id peer_address current_time offset)
         server_session_id)
    (seqZ (- SESSION_ID_HMAC_PAST_BUCKETS)
       (SESSION_ID_HMAC_PAST_BUCKETS + SESSION_ID_HMAC_FUTURE_BUCKETS + 1)).

(** ** Comparison and encoding *)

Lemma constant_time_eq_true l r : constant_time_eq l r = true <-> l = r.
Proof.
  unfold constant_time_eq. case_decide as Hlen; [split; [done|naive_solver]|].
  rewrite bool_decide_eq_true.
  enough (forall acc,
    foldl (fun difference '(l, r) => Z.lor difference (Z.lxor l r)) acc (zip l r) = 0
    <-> acc = 0 /\ l = r) as Hx by (rewrite Hx; naive_solver).
  revert r Hlen. induction l as [|x l IH]; intros [|y r] Hlen acc; try done; simpl.
  - naive_solver.
  - rewrite IH by (simpl in Hlen; lia). rewrite Z.lor_eq_0_iff, Z.lxor_eq_0_iff. naive_solver.
Qed.

(** Addresses that their encoding determines: lengths that fit their field, and
    network names too short for the length to look like an address family. *)
Definition peer_ok (peer : option SessionPeerAddress) : Prop :=
  match peer with
  | None => True
  | Some (PeerUdp ip port zone) =>
      match ip with IpV4 a => is_u32 a | IpV6 a => 0 <= a <= U128_MAX end
      /\ is_u16 port /\ Z.of_nat (length zone) <= U16_MAX
  | Some (PeerOther network address) =>
      Z.of_nat (length network) < 1024 /\ Z.of_nat (length address) <= U16_MAX
  end.

Lemma length_field_inj m1 m2 l1 l2 :
  Z.of_nat (length m1) <= U16_MAX -> Z.of_nat (length m2) <= U16_MAX ->
  to_be_bytes 2 (wrap16 (Z.of_nat (length m1))) ++ m1 ++ l1
  = to_be_bytes 2 (wrap16 (Z.of_nat (length m2))) ++ m2 ++ l2 -> m1 = m2 /\ l1 = l2.
Proof.
  intros H1 H2. unfold wrap16. change (2 ^ 16) with 65536.
  rewrite !Z.mod_small by ilia. intros [Hl E]%be_field_inj; [|simpl; ilia..].
  by apply app_inj_1 in E; [|lia].
Qed.

(** The first byte tells the kinds of addresses apart. *)
Lemma encode_peer_address_head p :
  peer_ok p ->
  match p with
  | None => encode_peer_address p = []
  | Some (PeerUdp (IpV4 _) _ _) => head (encode_peer_address p) = Some 4
  | Some (PeerUdp (IpV6 _) _ _) => head (encode_peer_address p) = Some 6
  | Some (PeerOther _ _) => exists b, head (encode_peer_address p) = Some b /\ b < 4
  end.
Proof.
  destruct p as [[[a|a] port zone|net adr]|]; try done. intros [Hn _].
  eexists. split; [reflexivity|]. rewrite land_255, shiftr_8. unfold wrap16.
  change (2 ^ 16) with 65536. rewrite (Z.mod_small (Z.of_nat (length net))) by lia.
  rewrite Z.mod_small by (split; [apply Z.div_pos|apply Z.div_lt_upper_bound]; lia).
  apply Z.div_lt_upper_bound; lia.
Qed.

Lemma udp_fields_inj n x y port port' zone zone' :
  0 <= x < 2 ^ (8 * Z.of_nat n) -> 0 <= y < 2 ^ (8 * Z.of_nat n) ->
  is_u16 port -> is_u16 port' ->
  Z.of_nat (length zone) <= U16_MAX -> Z.of_nat (length zone') <= U16_MAX ->
  to_be_bytes n x ++ to_be_bytes 2 port
    ++ to_be_bytes 2 (wrap16 (Z.of_nat (length zone))) ++ zone
  = to_be_bytes n y ++ to_be_bytes 2 port'
    ++ to_be_bytes 2 (wrap16 (Z.of_nat (length zone'))) ++ zone' ->
  x = y /\ port = port' /\ zone = zone'.
Proof.
  intros Hx Hy Hp Hp' Hz Hz' [-> E]%be_field_inj; [|done..].
  apply be_field_inj in E as [-> E]; [|simpl; ilia..].
  rewrite <- (app_nil_r zone), <- (app_nil_r zone') in E.
  rewrite (app_nil_r zone), (app_nil_r zone') in E at 1.
  by apply length_field_inj in E as [-> _].
Qed.

Lemma encode_peer_address_inj p q :
  peer_ok p -> peer_ok q -> encode_peer_address p = encode_peer_address q -> p = q.
Proof.
  intros Hp Hq E.
  pose proof (encode_peer_address_head p Hp) as Bp.
  pose proof (encode_peer_address_head q Hq) as Bq. rewrite E in Bp.
  destruct p as [[[a|a] port zone|net adr]|], q as [[[a'|a'] port' zone'|net' adr']|];
    try destruct Bp as (bp & Bp & Lp); try destruct Bq as (bq & Bq & Lq);
    first [rewrite Bq in Bp | rewrite Bp in Bq]; try done; try (injection Bp as Bp; subst; lia).
  - destruct Hp as (? & ? & ?), Hq as (? & ? & ?).
    apply (app_inj_1 [4] [4]) in E as [_ E]; [|done].
    apply udp_fields_inj in E as (-> & -> & ->); try done; simpl; ilia.
  - destruct Hp as (? & ? & ?), Hq as (? & ? & ?).
    apply (app_inj_1 [6] [6]) in E as [_ E]; [|done].
    apply udp_fields_inj in E as (-> & -> & ->); try done; simpl; unfold U128_MAX in *; lia.
  - destruct Hp as [? ?], Hq as [? ?]. apply length_field_inj in E as [-> E]; [|ilia..].
    rewrite <- (app_nil_r adr), <- (app_nil_r adr') in E.
    rewrite (app_nil_r adr), (app_nil_r adr') in E at 1.
    by apply length_field_inj in E as [-> _].
Qed.

(** ** Lifetime *)

Definition bucket_width (self : SessionIdHmacSigner) : Z :=
  Z.quot (handshake_window self + 1) 2.

Lemma bucket_width_bounds self :
  1 <= handshake_window self ->
  1 <= bucket_width self /\ handshake_window self <= 2 * bucket_width self.
Proof.
  intros Hw. unfold bucket_width. rewrite Z.quot_div_nonneg by lia.
  pose proof (Z.div_mod (handshake_window self + 1) 2 ltac:(lia)).
  pose proof (Z.mod_pos_bound (handshake_window self + 1) 2 ltac:(lia)). lia.
Qed.

(** The message of a time and an offset, as a function of the bucket. *)
Lemma input_bucket self c p t o :
  1 <= handshake_window self -> 0 <= t <= U32_MAX -> -2 <= o <= 1 ->
  input self c p t o
  = to_be_bytes 4 ((t / bucket_width self + o) mod 2 ^ 32) ++ encode_peer_address p ++ c.
Proof.
  intros Hw Ht Ho. destruct (bucket_width_bounds self Hw) as [Hb _].
  unfold input. fold (bucket_width self). unfold wrap32.
  rewrite Z.quot_div_nonneg by lia. do 2 f_equal.
  rewrite <- Zplus_mod. done.
Qed.

Lemma input_inj self c p t o c' p' t' o' :
  1 <= handshake_window self -> 0 <= t <= U32_MAX -> 0 <= t' <= U32_MAX ->
  -2 <= o <= 1 -> -2 <= o' <= 1 ->
  peer_ok p -> peer_ok p' -> length c = length c' ->
  input self c p t o = input self c' p' t' o' ->
  (t / bucket_width self + o) mod 2 ^ 32 = (t' / bucket_width self + o') mod 2 ^ 32
  /\ p = p' /\ c = c'.
Proof.
  intros Hw Ht Ht' Ho Ho' Hp Hp' Hc. rewrite !input_bucket by done.
  intros [Hb E]%be_field_inj; [|apply Z.mod_pos_bound; lia..].
  apply app_inj_2 in E as [Ep ->]; [|done].
  split; [done|]. split; [|done]. by apply encode_peer_address_inj.
Qed.

Lemma validate_at_true self c p id t :
  validate_at self c p id t = true <->
  exists o, -2 <= o <= 1 /\ derive_at self c p t o = id.
Proof.
  unfold validate_at. rewrite existsb_exists. split.
  - intros (o & Ho%list_elem_of_In%elem_of_seqZ & E%constant_time_eq_true).
    exists o. split; [|done]. unfold SESSION_ID_HMAC_PAST_BUCKETS,
      SESSION_ID_HMAC_FUTURE_BUCKETS in Ho. lia.
  - intros (o & Ho & E). exists o. split; [|by apply constant_time_eq_true].
    apply list_elem_of_In, elem_of_seqZ.
    unfold SESSION_ID_HMAC_PAST_BUCKETS, SESSION_ID_HMAC_FUTURE_BUCKETS. lia.
Qed.

(** C40: A session id that the server derived for a client is accepted from that
    client for the whole handshake window.  It is accepted from no other
    address, for no other client session and not after one and a half windows
    (three buckets), unless the truncated HMAC collides on the two messages. *)
Theorem cookie_lifetime (self : SessionIdHmacSigner) (c c' : list Z)
    (p p' : option SessionPeerAddress) (t t' : Z) :
  1 <= handshake_window self -> 0 <= t <= t' -> t' < U32_MAX ->
  peer_ok p -> peer_ok p' -> length c = length c' ->
  (t' <= t + handshake_window self ->
   validate_at self c p (derive_at self c p t 0) t' = true)
  /\ (validate_at self c' p' (derive_at self c p t 0) t' = true ->
      (c' = c /\ p' = p /\ t' < t + 3 * bucket_width self)
      \/ exists o, -2 <= o <= 1 /\ input self c' p' t' o <> input self c p t 0
         /\ derive_at self c' p' t' o = derive_at self c p t 0).
Proof.
  intros Hw Ht Ht' Hp Hp' Hc. destruct (bucket_width_bounds self Hw) as [Hb Hb2].
  set (w := bucket_width self) in *.
  pose proof (Z.div_mod t w ltac:(lia)) as D. pose proof (Z.mod_pos_bound t w ltac:(lia)).
  pose proof (Z.div_mod t' w ltac:(lia)) as D'. pose proof (Z.mod_pos_bound t' w ltac:(lia)).
  assert (t / w <= t' / w) by (apply Z.div_le_mono; lia).
  assert (0 <= t / w) by (apply Z.div_pos; lia).
  assert (t' / w <= t') by (apply Z.div_le_upper_bound; nia). split.
  - intros Hwin. apply validate_at_true. exists (t / w - t' / w).
    assert (-2 <= t / w - t' / w <= 1) as Ho by nia. split; [done|].
    unfold derive_at. rewrite !input_bucket by ilia. fold w.
    replace (t' / w + (t / w - t' / w)) with (t / w + 0) by lia. done.
  - intros (o & Ho & E)%validate_at_true.
    destruct (decide (input self c' p' t' o = input self c p t 0)) as [Ei|]; [left|right; eauto].
    apply input_inj in Ei as (Eb & -> & ->); try done; try ilia. split_and!; [done..|].
    fold w in Eb. rewrite Z.add_0_r, (Z.mod_small (t / w)) in Eb by ilia.
    pose proof (Z.div_mod (t' / w + o) (2 ^ 32) ltac:(lia)) as De.
    change (2 ^ 32) with 4294967296 in *. rewrite Eb in De.
    assert (t' / w - t / w <= 2) by ilia. nia.
Qed.

End signer.

(** ** An example *)
Section examples.
Import ToyCrypto.

Definition example_peer : option SessionPeerAddress :=
  Some (PeerUdp (IpV4 3232235777) 1194 []).

Lemma cookie_lifetime_witness :
  let self := with_key (replicate 32 7) 60 in
  let id := derive_at self (replicate 8 9) example_peer 1000 0 in
  validate_at self (replicate 8 9) example_peer id 1060 = true
  /\ validate_at self (replicate 8 9) example_peer id 1091 = false.
Proof.
  cbv zeta. split; [|vm_compute; reflexivity].
  refine (proj1 (cookie_lifetime (with_key (replicate 32 7) 60) (replicate 8 9) (replicate 8 9)
    example_peer example_peer 1000 1060 _ _ _ _ _ _) _); try (by vm_compute); done.
Defined.
End examples.

End Cookie.
