(* ===== verification/OvpnReset.v ===== *)
(** * The hard-reset handshake ([protocol/openvpn/reset.rs])

    The reset packets of both sides, and the exchange that
    [establish_tls_client_session] and [establish_tls_server_session]
    ([tls_session.rs]) make of them.  A protection is passed along with its
    counters; [unix] is the wall clock of the sender, [now] the clock of the
    receiver's replay window. *)

From stdpp Require Import base numbers list list_numbers strings.
From Stdlib Require Import ZArith Lia.
From S2P Require Import Prelude OvpnPacket OvpnReplay OvpnSession OvpnCrypto OvpnControlWrap.
From S2P Require Import OvpnControlChannel.

Local Open Scope Z_scope.

Definition TLS_HANDSHAKE_RETRY_MAXIMUM : Z := from_secs 60.

Inductive ResetError : Type :=
| ResetEmptyPacket
| ResetPacket (e : PacketError)
| ResetSession (e : SessionError)
| ResetProtection (e : ControlWrapError)
| InvalidServerOpcode (op : Opcode)
| InvalidServerReset
| InvalidClientKeyId
| InvalidClientOpcode (op : Opcode)
| InvalidClientState.

Record AcceptedServerReset : Type := mkAccepted {
  packet : Packet.Packet;
  resend_wrapped_client_key : bool;
}.

Module Reset.
Import ControlWrap.

(** [HandshakeRetrySchedule]: the current wait. *)
Definition advance (current : Z) : Z :=
  Z.min (duration_saturating_mul current 2) TLS_HANDSHAKE_RETRY_MAXIMUM.

Section reset.
Context `{Crypto}.

Definition build_client_hard_reset (session : Session.SessionInner)
    (protection : TlsControlProtection) (wrapped_client_key : list Z) (unix : Z) :
    result ResetError (list Z) * TlsControlProtection :=
  let opcode :=
    if decide (wrapped_client_key = []) then ControlHardResetClientV2
    else ControlHardResetClientV3 in
  let packet :=
    Packet.set_local_session_id (Session.local_session_id session)
      (Packet.new opcode (Session.key_id session) []) in
  match Packet.encode packet with
  | Err e => (Err (ResetPacket e), protection)
  | Ok raw =>
      let '(encoded, protection) := encode protection raw unix in
      (Ok (append_tls_crypt_v2_wrapped_client_key encoded wrapped_client_key opcode),
       protection)
  end.

Definition decode_handshake_packet (protection : TlsControlProtection)
    (raw_packet : list Z) (now : Z) :
    result ResetError Packet.Packet * TlsControlProtection :=
  match raw_packet with
  | [] => (Err ResetEmptyPacket, protection)
  | header :: _ =>
      let opcode := Opcode.from_wire (Z.shiftr header 3) in
      let '(decoded, protection) :=
        if Channel.is_control_or_acknowledgment opcode
        then
          let '(r, protection) := decode protection raw_packet now in
          (map_err ResetProtection r, protection)
        else (Ok raw_packet, protection) in
      (raw ← decoded; map_err ResetPacket (Packet.parse raw), protection)
  end.

Definition accept_server_hard_reset (session : Session.SessionInner)
    (protection : TlsControlProtection) (wrapped_client_key_present : bool)
    (raw_packet : list Z) (now : Z) :
    result ResetError AcceptedServerReset * Session.SessionInner
    * TlsControlProtection :=
  let '(r, protection) := decode_handshake_packet protection raw_packet now in
  match r with
  | Err e => (Err e, session, protection)
  | Ok packet =>
      if negb (bool_decide (Packet.opcode packet = ControlHardResetServerV1)
               || bool_decide (Packet.opcode packet = ControlHardResetServerV2))
      then (Err (InvalidServerOpcode (Packet.opcode packet)), session, protection)
      else if bool_decide (Packet.key_id packet <> Session.key_id session)
              || negb (Session.validate_incoming_remote_session_id session packet)
      then (Err InvalidServerReset, session, protection)
      else
        let session :=
          Session.set_remote_session_id session (Packet.local_session_id packet) in
        let resend :=
          if wrapped_client_key_present
             && negb (bool_decide (Packet.payload packet = []))
          then
            map_err ResetProtection
              (tls_crypt_v2_server_requests_wrapped_client_key_resend
                 (Packet.payload packet))
          else Ok false in
        (resend ← resend; Ok (mkAccepted packet resend), session, protection)
  end.

Definition validate_initial_client_reset (packet : Packet.Packet) :
    result ResetError unit :=
  if decide (Packet.key_id packet <> 0) then Err InvalidClientKeyId
  else if negb (bool_decide (Packet.opcode packet = ControlHardResetClientV2)
                || bool_decide (Packet.opcode packet = ControlHardResetClientV3))
  then Err (InvalidClientOpcode (Packet.opcode packet))
  else if decide (Packet.id packet <> 0 \/ Packet.acknowledgment_ids packet <> []
                  \/ Packet.payload packet <> [])
  then Err InvalidClientState
  else Ok ().

Definition accept_initial_client_hard_reset
    (static_protection : TlsControlProtection) (raw_packet : list Z) (now : Z) :
    result ResetError (Packet.Packet * TlsControlProtection) :=
  let session_protection := new_session_protection static_protection in
  let '(r, session_protection) :=
    decode_handshake_packet session_protection raw_packet now in
  packet ← r;
  _ ← validate_initial_client_reset packet;
  Ok (packet, session_protection).

Definition build_server_hard_reset (session : Session.SessionInner)
    (protection : TlsControlProtection) (client_reset_packet_id : Z)
    (early_negotiation_payload : list Z) (unix : Z) :
    result ResetError (list Z) * TlsControlProtection :=
  match
    packet ← map_err ResetSession
      (Session.new_hard_reset_server_v2_packet session [client_reset_packet_id]);
    map_err ResetPacket
      (Packet.encode (Packet.set_payload early_negotiation_payload packet))
  with
  | Err e => (Err e, protection)
  | Ok raw =>
      let '(encoded, protection) := encode protection raw unix in
      (Ok encoded, protection)
  end.

(** ** The exchange *)

(** The first flight of [establish_tls_server_session]: the session that the
    server creates for an accepted reset, and its answer. *)
Definition answer_client (static_protection : TlsControlProtection)
    (server_id raw : list Z) (now unix : Z) :
    result ResetError
      (Packet.Packet * Session.SessionInner * TlsControlProtection * list Z) :=
  accepted ← accept_initial_client_hard_reset static_protection raw now;
  let '(client_reset, protection) := accepted in
  let session :=
    Session.set_remote_session_id (Session.with_local_id server_id)
      (Packet.local_session_id client_reset) in
  let '(reset, protection) :=
    build_server_hard_reset session protection (Packet.id client_reset) [] unix in
  reset ← reset;
  Ok (client_reset, session, protection, reset).

(** What a read of the client's loop in [establish_tls_client_session] comes to:
    a packet, with the clock of the replay window, or an error. *)
Inductive arrival : Type :=
| Received (raw : list Z) (clock : Z)
| ReadFailed.

Inductive AwaitError : Type := AwaitIo | HandshakeTimeout.

(** The client's side while it waits: the wait before the next repetition, the
    present instant, and the instants at which the reset was sent again. *)
Record Waiting : Type := mkWaiting {
  w_session : Session.SessionInner;
  w_protection : TlsControlProtection;
  w_retry : Z;
  w_now : Z;
  w_resent : list Z;
}.

(** The loop.  A packet that has arrived by the end of the wait is read; one that
    is not the server's reset is dropped.  A wait that ends without a packet
    sends the reset again ([write_ok] says whether that succeeds at an instant)
    and lengthens the wait.  The deadline ends the loop.  Nothing when the fuel
    runs out. *)
Fixpoint await_loop (fuel : nat) (write_ok : Z -> bool) (wrapped : bool) (deadline : Z)
    (arrivals : list (Z * arrival)) (w : Waiting) : option (result AwaitError Packet.Packet * Waiting) :=
  match fuel with
  | O => None
  | S fuel =>
      if decide (deadline <= w_now w) then Some (Err HandshakeTimeout, w)
      else
        let limit := w_now w + Z.min (w_retry w) (deadline - w_now w) in
        let timeout :=
          let w := mkWaiting (w_session w) (w_protection w) (w_retry w) limit (w_resent w) in
          if write_ok limit then
            await_loop fuel write_ok wrapped deadline arrivals
              (mkWaiting (w_session w) (w_protection w) (advance (w_retry w)) limit (w_resent w ++ [limit]))
          else Some (Err AwaitIo, w) in
        match arrivals with
        | [] => timeout
        | (at_, a) :: rest =>
            if decide (at_ <= limit) then
              let now := Z.max (w_now w) at_ in
              match a with
              | ReadFailed =>
                  Some (Err AwaitIo, mkWaiting (w_session w) (w_protection w) (w_retry w) now (w_resent w))
              | Received raw clock =>
                  let '(r, session, protection) :=
                    accept_server_hard_reset (w_session w) (w_protection w) wrapped raw clock in
                  let w := mkWaiting session protection (w_retry w) now (w_resent w) in
                  match r with
                  | Ok reset => Some (Ok (packet reset), w)
                  | Err _ => await_loop fuel write_ok wrapped deadline rest w
                  end
              end
            else timeout
        end
  end.

(** A wait lasts at least [tls_timeout], or a minute if that is less. *)
Definition await_fuel (tls_timeout handshake_timeout : Z) (arrivals : list (Z * arrival)) : nat :=
  length arrivals + Z.to_nat (handshake_timeout / Z.min tls_timeout TLS_HANDSHAKE_RETRY_MAXIMUM) + 2.

Definition await_server_reset (session : Session.SessionInner) (protection : TlsControlProtection)
    (write_ok : Z -> bool) (wrapped : bool) (tls_timeout handshake_timeout start : Z)
    (arrivals : list (Z * arrival)) : option (result AwaitError Packet.Packet * Waiting) :=
  await_loop (await_fuel tls_timeout handshake_timeout arrivals) write_ok wrapped (start + handshake_timeout) arrivals
    (mkWaiting session protection tls_timeout start []).

(** ** Protections that understand each other *)

Context `{!CryptoLaws}.

(** The counters of one direction have room for [n] more packets. *)
Definition room (n : Z) (s : PacketIdState.PacketIdState)
    (w : ReplayWindow.ReplayWindow) : Prop :=
  level s w /\ 0 <= PacketIdState.next_id s /\ PacketIdState.next_id s + n <= U32_MAX.

(** [q] opens what [p] seals, for [n] more packets. *)
Definition linked (n : Z) (p q : TlsControlProtection) : Prop :=
  match crypt p, crypt q with
  | Some s, Some r =>
      (exists rest, c_receive_candidates r = c_send s :: rest)
      /\ room n (c_send_state s) (c_receive_state r)
  | None, None =>
      crypt_v2_server_key q = []
      /\ match auth p, auth q with
         | Some s, Some r =>
             a_auth r = a_auth s /\ a_send_key s ∈ a_receive_keys r
             /\ room n (a_send_state s) (a_receive_state r)
         | None, None => True
         | _, _ => False
         end
  | _, _ => False
  end.

Lemma crypt_link n s r rest raw unix now :
  c_receive_candidates r = c_send s :: rest ->
  room (n + 1) (c_send_state s) (c_receive_state r) -> 0 <= n ->
  0 < unix <= U32_MAX -> (TLS_CONTROL_HEADER_LENGTH <= length raw)%nat ->
  exists w, crypt_decode r (crypt_encode s raw unix).1 now = (Ok raw, crypt_set_window r w)
  /\ room n (c_send_state (crypt_encode s raw unix).2) w
  /\ c_send (crypt_encode s raw unix).2 = c_send s
  /\ c_receive_candidates (crypt_encode s raw unix).2 = c_receive_candidates s
  /\ c_receive_state (crypt_encode s raw unix).2 = c_receive_state s.
Proof.
  intros Hc (Hlev & Hn0 & Hn) Hnn Hu Hl.
  pose proof (crypt_decode_encode s r rest raw unix now Hc Hl) as Hd.
  pose proof (accept_next _ _ unix now Hlev ltac:(lia) Hu) as Ha.
  assert (c_send_state (crypt_encode s raw unix).2
          = (PacketIdState.next (c_send_state s) unix).2
    /\ c_send (crypt_encode s raw unix).2 = c_send s
    /\ c_receive_candidates (crypt_encode s raw unix).2 = c_receive_candidates s
    /\ c_receive_state (crypt_encode s raw unix).2 = c_receive_state s) as (-> & ? & ? & ?).
  { unfold crypt_encode. rewrite decide_False by lia. by destruct (PacketIdState.next _ _). }
  destruct (PacketIdState.next (c_send_state s) unix) as [pid st].
  destruct (accept_control_packet_id _ pid now) as [a w].
  destruct Ha as (-> & Hl' & Hn'). exists w. split; [exact Hd|].
  split; [|done]. simpl. split_and!; [done|lia|lia].
Qed.

Lemma auth_link n s r raw unix now :
  a_auth r = a_auth s -> a_send_key s ∈ a_receive_keys r ->
  room (n + 1) (a_send_state s) (a_receive_state r) -> 0 <= n ->
  0 < unix <= U32_MAX -> (TLS_CONTROL_HEADER_LENGTH <= length raw)%nat ->
  exists w, auth_decode r (auth_encode s raw unix).1 now = (Ok raw, auth_set_window r w)
  /\ room n (a_send_state (auth_encode s raw unix).2) w
  /\ a_auth (auth_encode s raw unix).2 = a_auth s
  /\ a_send_key (auth_encode s raw unix).2 = a_send_key s
  /\ a_receive_keys (auth_encode s raw unix).2 = a_receive_keys s
  /\ a_receive_state (auth_encode s raw unix).2 = a_receive_state s.
Proof.
  intros Ha Hk (Hlev & Hn0 & Hn) Hnn Hu Hl.
  pose proof (auth_decode_encode s r raw unix now Ha Hk Hl) as Hd.
  pose proof (accept_next _ _ unix now Hlev ltac:(lia) Hu) as Hacc.
  assert (a_send_state (auth_encode s raw unix).2
          = (PacketIdState.next (a_send_state s) unix).2
    /\ a_auth (auth_encode s raw unix).2 = a_auth s
    /\ a_send_key (auth_encode s raw unix).2 = a_send_key s
    /\ a_receive_keys (auth_encode s raw unix).2 = a_receive_keys s
    /\ a_receive_state (auth_encode s raw unix).2 = a_receive_state s)
    as (-> & ? & ? & ? & ?).
  { unfold auth_encode. rewrite decide_False by lia. by destruct (PacketIdState.next _ _). }
  destruct (PacketIdState.next (a_send_state s) unix) as [pid st].
  destruct (accept_control_packet_id _ pid now) as [a w].
  destruct Hacc as (-> & Hl' & Hn'). exists w. split; [exact Hd|].
  split; [|done]. simpl. split_and!; [done|lia|lia].
Qed.

(** The header stays in front. *)
Lemma encode_front p h tl unix :
  (TLS_CONTROL_HEADER_LENGTH <= length (h :: tl))%nat ->
  exists tl', (encode p (h :: tl) unix).1 = h :: tl'
  /\ (TLS_CONTROL_HEADER_LENGTH <= length (h :: tl'))%nat.
Proof.
  intros Hl. unfold encode, crypt_encode, auth_encode, TLS_CONTROL_HEADER_LENGTH in *.
  destruct (crypt p) as [c|]; [|destruct (auth p) as [a|]];
    rewrite ?decide_False by lia; [| |by exists tl].
  all: destruct (PacketIdState.next _ _) as [pid st]; cbn [fst take app];
    eexists; split; [reflexivity|].
  all: cbn [length] in *; rewrite !length_app, length_take; lia.
Qed.

(** A packet crosses; the link keeps one packet less, and the other direction
    is not touched. *)
Lemma linked_crosses n p q h tl unix now :
  linked (n + 1) p q -> 0 <= n -> 0 < unix <= U32_MAX ->
  (TLS_CONTROL_HEADER_LENGTH <= length (h :: tl))%nat ->
  carries_wrapped_client_key (Opcode.from_wire (Z.shiftr h 3)) = false ->
  let p' := (encode p (h :: tl) unix).2 in
  exists q', decode q (encode p (h :: tl) unix).1 now = (Ok (h :: tl), q')
  /\ linked n p' q'
  /\ forall m, linked m q p -> linked m q' p'.
Proof.
  intros Hl Hn Hu Hlen Hw.
  destruct (encode_front p h tl unix Hlen) as (tl' & He & Hlen').
  unfold decode. rewrite He. rewrite decide_False by lia. cbn [lookup_total list_lookup_total].
  rewrite Hw. cbn beta iota. rewrite <- He.
  revert Hl. unfold linked, encode.
  destruct (crypt p) as [s|] eqn:Hp, (crypt q) as [r|] eqn:Hq; try done.
  - intros [[rest Hc] Hr].
    destruct (crypt_link n s r rest (h :: tl) unix now Hc Hr Hn Hu Hlen)
      as (w & Hd & Hr' & Es & Ec & Ew).
    destruct (crypt_encode s (h :: tl) unix) as [out s']. simpl in *. rewrite Hd.
    eexists. split; [reflexivity|]. simpl. rewrite Es, Ec, Ew.
    split; [split; [by exists rest|done]|]. done.
  - destruct (auth p) as [s|] eqn:Hap, (auth q) as [r|] eqn:Haq; try (by intros [_ []]).
    + intros (Hk & Ha & Hs & Hr).
      destruct (auth_link n s r (h :: tl) unix now Ha Hs Hr Hn Hu Hlen)
        as (w & Hd & Hr' & Es & Ek & Ec & Ew).
      destruct (auth_encode s (h :: tl) unix) as [out s']. simpl in *. rewrite Hd.
      eexists. split; [reflexivity|]. simpl. rewrite Es, Ek, Ec, Ew.
      split; [by split_and!|]. done.
    + intros [Hk _]. rewrite decide_False by (by intros []). simpl.
      eexists. split; [reflexivity|]. by rewrite Hp, Hq, Hap, Haq.
Qed.

(** [tls-crypt-v2]: the server learns the client's key from the wrapped key at
    the end of the reset. *)
Definition v2_pair (n : Z) (p q : TlsControlProtection) (wrapped : list Z) : Prop :=
  exists s r material, crypt p = Some s /\ crypt q = None
  /\ crypt_v2_server_key q <> []
  /\ unwrap_tls_crypt_v2_client_key wrapped (crypt_v2_server_key q) = Ok material
  /\ crypt_from_material material TLS_CRYPT_KEY_DIRECTION_NORMAL = Ok r
  /\ (exists rest, c_receive_candidates r = c_send s :: rest)
  /\ (exists rest, c_receive_candidates s = c_send r :: rest)
  /\ room n (c_send_state s) (c_receive_state r)
  /\ room n (c_send_state r) (c_receive_state s).

Lemma unwrap_length wrapped key material :
  unwrap_tls_crypt_v2_client_key wrapped key = Ok material ->
  (TLS_CRYPT_TAG_LENGTH + 2 <= length wrapped)%nat
  /\ from_be_bytes (skipn (length wrapped - 2) wrapped) = Z.of_nat (length wrapped).
Proof.
  unfold unwrap_tls_crypt_v2_client_key. case_decide; [done|].
  destruct (decide (length wrapped < _)%nat); [done|].
  destruct (decide (_ <> _)) as [|Hl]; [done|]. intros _. split; [lia|].
  by apply dec_stable in Hl.
Qed.

Lemma extract_wrapped q raw wrapped material r :
  crypt q = None -> crypt_v2_server_key q <> [] ->
  unwrap_tls_crypt_v2_client_key wrapped (crypt_v2_server_key q) = Ok material ->
  crypt_from_material material TLS_CRYPT_KEY_DIRECTION_NORMAL = Ok r ->
  (TLS_CONTROL_HEADER_LENGTH <= length raw)%nat ->
  extract_tls_crypt_v2_client_key q (raw ++ wrapped)
  = (Ok raw, mkProtection (auth q) (Some r) (crypt_v2_server_key q)).
Proof.
  intros Hq Hk Hw Hr Hlen. destruct (unwrap_length _ _ _ Hw) as [Hwl Hlast].
  unfold extract_tls_crypt_v2_client_key. rewrite decide_False by done.
  unfold TLS_CONTROL_HEADER_LENGTH, TLS_CRYPT_TAG_LENGTH in *.
  rewrite length_app, decide_False by lia.
  rewrite drop_app_ge by lia.
  replace (length raw + length wrapped - 2 - length raw)%nat with (length wrapped - 2)%nat
    by lia.
  rewrite Hlast, Nat2Z.id, decide_False by lia.
  replace (length raw + length wrapped - length wrapped)%nat with (length raw) by lia.
  rewrite take_app_length, drop_app_length, Hq, Hw. rbind. by rewrite Hr.
Qed.

Lemma v2_crosses n p q h tl wrapped unix now :
  v2_pair (n + 1) p q wrapped -> 0 <= n -> 0 < unix <= U32_MAX ->
  (TLS_CONTROL_HEADER_LENGTH <= length (h :: tl))%nat ->
  carries_wrapped_client_key (Opcode.from_wire (Z.shiftr h 3)) = true ->
  let p' := (encode p (h :: tl) unix).2 in
  exists q', decode q ((encode p (h :: tl) unix).1 ++ wrapped) now = (Ok (h :: tl), q')
  /\ linked n p' q' /\ linked (n + 1) q' p'.
Proof.
  intros (s & r & material & Hp & Hq & Hk & Hw & Hr & [rest Hc] & [rest' Hc'] & Hroom & Hroom')
    Hn Hu Hlen Hop.
  destruct (encode_front p h tl unix Hlen) as (tl' & He & Hlen').
  unfold decode. rewrite He. rewrite decide_False by (rewrite length_app; lia).
  cbn [lookup_total list_lookup_total app]. rewrite Hop.
  rewrite (app_comm_cons tl' wrapped h), (extract_wrapped q (h :: tl') wrapped material r) by done.
  cbn [crypt auth crypt_v2_server_key]. rewrite <- He. unfold linked, encode. rewrite Hp.
  destruct (crypt_link n s r rest (h :: tl) unix now Hc Hroom Hn Hu Hlen)
    as (w & Hd & Hr' & Es & Ec & Ew).
  destruct (crypt_encode s (h :: tl) unix) as [out s']. simpl in *. rewrite Hd.
  eexists. split; [reflexivity|]. simpl. rewrite Es, Ec, Ew.
  split; (split; [by eexists|done]).
Qed.

(** ** The handshake *)

Definition matched (n : Z) (client server : TlsControlProtection)
    (wrapped : list Z) : Prop :=
  (wrapped = [] /\ linked n client (new_session_protection server)
   /\ linked n (new_session_protection server) client)
  \/ (wrapped <> [] /\ v2_pair n client (new_session_protection server) wrapped).

Definition id_ok (id : list Z) : Prop :=
  bytes_ok id /\ length id = SESSION_ID_LENGTH.

Lemma decode_handshake q out h tl raw now p q' :
  out = h :: tl -> Opcode.from_wire (Z.shiftr h 3) = Packet.opcode p ->
  Opcode.is_control (Packet.opcode p) = true ->
  decode q out now = (Ok raw, q') -> Packet.parse raw = Ok p ->
  decode_handshake_packet q out now = (Ok p, q').
Proof.
  intros -> Ho Hc Hd Hp. unfold decode_handshake_packet. rewrite Ho.
  unfold Channel.is_control_or_acknowledgment. rewrite Hc. cbn [orb].
  rewrite Hd. cbn [map_err]. rbind. by rewrite Hp.
Qed.

(** The encoding of a control packet is long enough for every protection. *)
Lemma control_encoding p :
  Packet.ok p -> Opcode.is_control (Packet.opcode p) = true ->
  exists h tl, Packet.encode p = Ok (h :: tl) /\ Packet.parse (h :: tl) = Ok p
  /\ Opcode.from_wire (Z.shiftr h 3) = Packet.opcode p
  /\ (TLS_CONTROL_HEADER_LENGTH <= length (h :: tl))%nat.
Proof.
  intros Hok Hc. destruct (Packet.parse_complete p Hok) as (raw & He & Hp).
  destruct (Packet.encode_head p raw Hok He) as (h & tl & -> & Hh).
  exists h, tl. split_and!; [done..|].
  pose proof (Channel.length_encode_packet p (h :: tl) Hc (proj2 (Packet.ok_local p Hok))
    (proj2 (Packet.ok_remote p Hok)) He) as ->.
  unfold TLS_CONTROL_HEADER_LENGTH. lia.
Qed.

Definition client_reset (op : Opcode) (cid : list Z) : Packet.Packet :=
  Packet.set_local_session_id cid (Packet.new op 0 []).

Lemma client_reset_ok op cid :
  op = ControlHardResetClientV2 \/ op = ControlHardResetClientV3 -> id_ok cid ->
  Packet.ok (client_reset op cid).
Proof.
  intros Hop [Hb Hl]. pose proof Packet.zero_session_id_ok as Hz.
  assert (bytes_ok [0; 0; 0]) as H000 by (repeat constructor; ilia).
  destruct Hop as [-> | ->]; constructor; simpl; try done; try ilia;
    ((split; [constructor|lia]) || constructor).
Qed.

Definition server_reset (cid sid : list Z) : Packet.Packet :=
  Packet.set_remote_session_id cid (Packet.set_acknowledgment_ids [0]
    (Packet.set_local_session_id sid (Packet.new ControlHardResetServerV2 0 []))).

Lemma server_reset_ok cid sid : id_ok cid -> id_ok sid -> Packet.ok (server_reset cid sid).
Proof.
  intros [Hb Hl] [Hb' Hl'].
  assert (bytes_ok [0; 0; 0]) as H000 by (repeat constructor; ilia).
  constructor; simpl; try done; try ilia;
    ((split; [by repeat constructor|lia]) || constructor).
Qed.

Lemma client_flight n pc ps wrapped cid unix now :
  matched (n + 1) pc ps wrapped -> 0 <= n -> id_ok cid -> 0 < unix <= U32_MAX ->
  exists raw pc1 op q,
    build_client_hard_reset (Session.with_local_id cid) pc wrapped unix = (Ok raw, pc1)
  /\ accept_initial_client_hard_reset ps raw now = Ok (client_reset op cid, q)
  /\ linked n pc1 q /\ linked (n + 1) q pc1.
Proof.
  intros Hm Hn Hid Hu. unfold build_client_hard_reset, accept_initial_client_hard_reset.
  set (op := if decide (wrapped = []) then _ else _).
  assert (op = ControlHardResetClientV2 \/ op = ControlHardResetClientV3) as Hop
    by (unfold op; case_decide; tauto).
  change (Packet.set_local_session_id _ _) with (client_reset op cid).
  assert (Opcode.is_control (Packet.opcode (client_reset op cid)) = true) as Hc
    by (by destruct Hop as [-> | ->]).
  destruct (control_encoding _ (client_reset_ok op cid Hop Hid) Hc)
    as (h & tl & He & Hp & Hh & Hlen). rewrite He.
  destruct (encode_front pc h tl unix Hlen) as (tl' & Hf & _).
  assert (exists q, decode (new_session_protection ps)
      (append_tls_crypt_v2_wrapped_client_key (encode pc (h :: tl) unix).1 wrapped op) now
      = (Ok (h :: tl), q)
    /\ linked n (encode pc (h :: tl) unix).2 q
    /\ linked (n + 1) q (encode pc (h :: tl) unix).2) as (q & Hd & Hl1 & Hl2).
  { unfold append_tls_crypt_v2_wrapped_client_key, op in *.
    destruct Hm as [(-> & Hpq & Hqp)|[Hw Hv]].
    - destruct (linked_crosses n pc _ h tl unix now Hpq Hn Hu Hlen) as (q & ? & ? & Hx).
      { by rewrite Hh. }
      exists q. simpl. eauto.
    - rewrite decide_False, bool_decide_false in * by done. simpl.
      destruct (v2_crosses n pc _ h tl wrapped unix now Hv Hn Hu Hlen) as (q & ?).
      { by rewrite Hh. }
      by exists q. }
  destruct (encode pc (h :: tl) unix) as [out pc1]. simpl in *. subst out.
  assert (exists tl2, append_tls_crypt_v2_wrapped_client_key (h :: tl') wrapped op = h :: tl2)
    as [tl2 Happ] by (unfold append_tls_crypt_v2_wrapped_client_key; destruct (_ && _); by eexists).
  eexists _, pc1, op, q. split; [reflexivity|].
  rewrite (decode_handshake _ _ h tl2 (h :: tl) now (client_reset op cid) q) by done.
  rbind. unfold validate_initial_client_reset.
  assert (negb (bool_decide (Packet.opcode (client_reset op cid) = ControlHardResetClientV2)
    || bool_decide (Packet.opcode (client_reset op cid) = ControlHardResetClientV3)) = false)
    as -> by (by destruct Hop as [-> | ->]).
  rewrite !decide_False by (simpl; naive_solver). rbind. done.
Qed.

Lemma server_flight n p q cid sid wrapped unix now :
  linked (n + 1) p q -> linked n q p -> 0 <= n -> id_ok cid -> id_ok sid ->
  cid <> replicate 8 0 -> 0 < unix <= U32_MAX ->
  let session := Session.set_remote_session_id (Session.with_local_id sid) cid in
  exists raw p1 q1,
    build_server_hard_reset session p 0 [] unix = (Ok raw, p1)
  /\ accept_server_hard_reset (Session.with_local_id cid) q wrapped raw now
     = (Ok (mkAccepted (server_reset cid sid) false),
        Session.set_remote_session_id (Session.with_local_id cid) sid, q1)
  /\ linked n p1 q1 /\ linked n q1 p1.
Proof.
  intros Hpq Hqp Hn Hc Hs Hz Hu session. unfold build_server_hard_reset.
  change (Session.new_hard_reset_server_v2_packet session [0])
    with (Ok (E := SessionError) (server_reset cid sid)). cbn [map_err]. rbind.
  change (Packet.set_payload [] (server_reset cid sid)) with (server_reset cid sid).
  destruct (control_encoding (server_reset cid sid) (server_reset_ok cid sid Hc Hs) eq_refl)
    as (h & tl & He & Hp & Hh & Hlen). rewrite He. cbn [map_err].
  destruct (encode_front p h tl unix Hlen) as (tl' & Hf & _).
  destruct (linked_crosses n p q h tl unix now Hpq Hn Hu Hlen) as (q1 & Hd & Hl1 & Hl2).
  { by rewrite Hh. }
  destruct (encode p (h :: tl) unix) as [out p1]. simpl in *. subst out.
  exists (h :: tl'), p1, q1. split; [done|]. split; [|split; [done|by apply Hl2]].
  unfold accept_server_hard_reset.
  rewrite (decode_handshake q _ h tl' (h :: tl) now (server_reset cid sid) q1) by done.
  assert (Session.validate_incoming_remote_session_id (Session.with_local_id cid)
    (server_reset cid sid) = true) as ->.
  { unfold Session.validate_incoming_remote_session_id. simpl.
    rewrite (bool_decide_true (cid <> _)), (bool_decide_true (cid = _)) by done. done. }
  by destruct wrapped.
Qed.

(** ** The wait *)

(** The instants of [k] repetitions after [now]. *)
Fixpoint resend_times (k : nat) (now retry : Z) : list Z :=
  match k with
  | O => []
  | S k => (now + retry) :: resend_times k (now + retry) (advance retry)
  end.

(** The least wait. *)
Definition least_wait (retry : Z) : Z := Z.min retry TLS_HANDSHAKE_RETRY_MAXIMUM.

Lemma advance_bounds retry :
  0 < retry -> 0 < advance retry /\ least_wait retry <= least_wait (advance retry).
Proof.
  intros Hr. unfold advance, least_wait, duration_saturating_mul.
  assert (TLS_HANDSHAKE_RETRY_MAXIMUM * 2 <= DURATION_MAX) by (by vm_compute).
  assert (0 < TLS_HANDSHAKE_RETRY_MAXIMUM) by (by vm_compute). lia.
Qed.

(** The rounds that are left until the deadline. *)
Definition rounds_left (least now deadline : Z) : nat := Z.to_nat ((deadline - now) / least).

Lemma rounds_step least now deadline wait :
  0 < least -> least <= wait -> now + wait < deadline ->
  (rounds_left least (now + wait) deadline < rounds_left least now deadline)%nat.
Proof.
  intros Hl Hw Hd. unfold rounds_left.
  pose proof (Z.div_le_mono (deadline - (now + wait)) (deadline - now + (-1) * least) least Hl ltac:(lia)) as Hm.
  rewrite Z.div_add in Hm by lia. pose proof (Z.div_pos (deadline - (now + wait)) least). lia.
Qed.

(** A packet that the client accepts, and that comes before the deadline, is
    read; until then the reset is repeated. *)
Lemma await_accepts fuel write_ok wrapped least deadline at_ raw clock reset session' protection' w :
  (forall t, write_ok t = true) -> 0 < least -> 0 < w_retry w -> least <= least_wait (w_retry w) ->
  w_now w < deadline -> w_now w <= at_ < deadline ->
  accept_server_hard_reset (w_session w) (w_protection w) wrapped raw clock = (Ok reset, session', protection') ->
  (rounds_left least (w_now w) deadline < fuel)%nat ->
  exists k, Forall (fun t => t < at_) (resend_times k (w_now w) (w_retry w))
  /\ ~ Forall (fun t => t < at_) (resend_times (S k) (w_now w) (w_retry w))
  /\ await_loop fuel write_ok wrapped deadline [(at_, Received raw clock)] w
     = Some (Ok (packet reset),
             mkWaiting session' protection' (Nat.iter k advance (w_retry w)) at_
               (w_resent w ++ resend_times k (w_now w) (w_retry w))).
Proof.
  intros Hok Hl Hr Hlw Hd Ha Hacc. revert w Hr Hlw Hd Ha Hacc.
  induction fuel as [|fuel IH]; intros w Hr Hlw Hd Ha Hacc Hf; [lia|].
  cbn [await_loop]. rewrite decide_False by lia. cbv zeta. cbn [w_session w_protection w_retry w_resent].
  case_decide as Hle.
  - exists 0%nat. split; [constructor|]. split; [intros Hf'; apply Forall_inv in Hf'; lia|]. rewrite Hacc. cbn [resend_times Nat.iter nat_rect].
    rewrite app_nil_r. by rewrite Z.max_r by lia.
  - rewrite Z.min_l in * by lia. rewrite Hok.
    destruct (advance_bounds (w_retry w) Hr) as [Hr' Hlw'].
    destruct (IH (mkWaiting (w_session w) (w_protection w) (advance (w_retry w)) (w_now w + w_retry w)
                    (w_resent w ++ [w_now w + w_retry w]))) as (k & Hk & Hk' & E);
      cbn [w_session w_protection w_retry w_resent w_now] in *; try done; try lia.
    { pose proof (rounds_step least (w_now w) deadline (w_retry w) Hl ltac:(unfold least_wait in Hlw; lia) ltac:(lia)). lia. }
    exists (S k). split; [constructor; [lia|done]|].
    split; [intros Hf'; by apply Forall_inv_tail in Hf'|]. by rewrite E, <-app_assoc, Nat.iter_succ_r.
Qed.

(** Without a packet until the deadline the client gives up, at the deadline. *)
Lemma await_expires fuel write_ok wrapped least deadline arrivals w :
  (forall t, write_ok t = true) -> 0 < least -> 0 < w_retry w -> least <= least_wait (w_retry w) ->
  w_now w <= deadline -> Forall (fun a => deadline < a.1) arrivals ->
  (rounds_left least (w_now w) deadline + 1 < fuel)%nat ->
  exists w', await_loop fuel write_ok wrapped deadline arrivals w = Some (Err HandshakeTimeout, w')
  /\ w_now w' = deadline.
Proof.
  intros Hok Hl Hr Hlw Hd Ha. revert w Hr Hlw Hd.
  induction fuel as [|fuel IH]; intros w Hr Hlw Hd Hf; [lia|].
  cbn [await_loop]. case_decide as He; [exists w; split; [done|lia]|]. cbv zeta.
  set (limit := w_now w + Z.min (w_retry w) (deadline - w_now w)).
  set (w1 := mkWaiting _ _ (advance _) limit _).
  assert (exists w', await_loop fuel write_ok wrapped deadline arrivals w1 = Some (Err HandshakeTimeout, w')
                     /\ w_now w' = deadline) as (w' & E & Hw').
  { destruct (advance_bounds (w_retry w) Hr) as [Hr' Hlw']. destruct (decide (w_now w + w_retry w < deadline)).
    - assert (limit = w_now w + w_retry w) as El by (unfold limit; lia).
      pose proof (rounds_step least (w_now w) deadline (w_retry w) Hl ltac:(unfold least_wait in Hlw; lia) ltac:(lia)).
      apply IH; cbn [w_retry w_now w1]; rewrite ?El; lia.
    - assert (limit = deadline) as El by (unfold limit; lia). destruct fuel as [|fuel]; [lia|].
      cbn [await_loop]. rewrite decide_True by (cbn; lia). by eexists. }
  exists w'. split; [|done]. rewrite Hok. destruct Ha as [|[at_ a] rest Hat]; [exact E|].
  rewrite decide_False; [exact E|]. cbn in Hat. unfold limit. lia.
Qed.

(** The wait doubles up to the maximum. *)
Lemma advance_iter k retry :
  0 <= retry <= TLS_HANDSHAKE_RETRY_MAXIMUM ->
  Nat.iter k advance retry = Z.min (retry * 2 ^ Z.of_nat k) TLS_HANDSHAKE_RETRY_MAXIMUM.
Proof.
  intros Hr. induction k as [|k IH]; [simpl; lia|].
  cbn [Nat.iter nat_rect]. unfold Nat.iter in IH. rewrite IH.
  rewrite Nat2Z.inj_succ, Z.pow_succ_r by lia.
  unfold advance, duration_saturating_mul.
  assert (TLS_HANDSHAKE_RETRY_MAXIMUM * 2 <= DURATION_MAX) by (by vm_compute).
  assert (0 <= retry * 2 ^ Z.of_nat k) by (apply Z.mul_nonneg_nonneg; [lia|apply Z.pow_nonneg; lia]).
  lia.
Qed.

(** C35: The hard-reset handshake completes, unprotected, with tls-auth, with
    tls-crypt and with tls-crypt-v2, when the two protections fit each other and
    have room for the packets.  The server accepts the client's first packet,
    whose session id it learns, and the client accepts the answer if it arrives
    before the handshake timeout.  Until then it repeats its reset at the end of
    every wait, and the waits double up to a minute.  It learns the server's
    session id; each side's session names the other, and the protections stay in
    step in both directions for all remaining packets.  An answer that arrives
    after the handshake timeout is not read: the client gives up with a timeout
    at that instant.  The session ids have eight bytes, and the client's is not
    zero; the clocks fit 32 bits; the first wait is positive and at most a
    minute; writing to the transport succeeds and nothing else arrives. *)
Theorem handshake_completes (n : Z) (client server : TlsControlProtection)
    (wrapped cid sid : list Z) (unix1 unix2 now1 now2 tls_timeout handshake_timeout start at_ : Z)
    (write_ok : Z -> bool) :
  matched (n + 1) client server wrapped -> 0 <= n ->
  id_ok cid -> id_ok sid -> cid <> replicate 8 0 ->
  0 < unix1 <= U32_MAX -> 0 < unix2 <= U32_MAX ->
  0 < tls_timeout <= TLS_HANDSHAKE_RETRY_MAXIMUM -> 0 < handshake_timeout ->
  (forall t, write_ok t = true) -> start <= at_ ->
  exists raw1 client1 op server1 session raw2 client2,
    let await := await_server_reset (Session.with_local_id cid) client1 write_ok
                   (negb (bool_decide (wrapped = []))) tls_timeout handshake_timeout start
                   [(at_, Received raw2 now2)] in
    build_client_hard_reset (Session.with_local_id cid) client wrapped unix1
    = (Ok raw1, client1)
  /\ answer_client server sid raw1 now1 unix2
     = Ok (client_reset op cid, session, server1, raw2)
  /\ Session.local_session_id session = sid
  /\ Session.remote_session_id session = Some cid
  /\ (at_ < start + handshake_timeout -> exists k,
        await = Some (Ok (server_reset cid sid),
          mkWaiting (Session.set_remote_session_id (Session.with_local_id cid) sid) client2
            (Z.min (tls_timeout * 2 ^ Z.of_nat k) TLS_HANDSHAKE_RETRY_MAXIMUM) at_
            (resend_times k start tls_timeout))
        /\ Forall (fun t => t < at_) (resend_times k start tls_timeout)
        /\ ~ Forall (fun t => t < at_) (resend_times (S k) start tls_timeout))
  /\ (start + handshake_timeout < at_ -> exists w,
        await = Some (Err HandshakeTimeout, w) /\ w_now w = start + handshake_timeout)
  /\ linked n client2 server1 /\ linked n server1 client2.
Proof.
  intros Hm Hn Hc Hs Hz Hu1 Hu2 Ht Hh Hok Hat.
  destruct (client_flight n client server wrapped cid unix1 now1 Hm Hn Hc Hu1)
    as (raw1 & client1 & op & q & Hb & Ha & Hl1 & Hl2).
  destruct (server_flight n q client1 cid sid (negb (bool_decide (wrapped = []))) unix2 now2
    Hl2 Hl1 Hn Hc Hs Hz Hu2) as (raw2 & server1 & client2 & Hb2 & Ha2 & Hl3 & Hl4).
  exists raw1, client1, op, server1,
    (Session.set_remote_session_id (Session.with_local_id sid) cid), raw2, client2.
  cbv zeta. split; [done|]. unfold answer_client. rewrite Ha. rbind.
  change (Packet.id (client_reset op cid)) with 0.
  change (Packet.local_session_id (client_reset op cid)) with cid.
  rewrite Hb2. rbind. unfold await_server_reset. set (fuel := await_fuel _ _ _).
  assert (0 < least_wait tls_timeout) by (unfold least_wait; lia).
  assert (rounds_left (least_wait tls_timeout) start (start + handshake_timeout) + 1 < fuel)%nat as Hf.
  { unfold fuel, await_fuel, rounds_left. fold (least_wait tls_timeout). cbn [length].
    replace (start + handshake_timeout - start) with handshake_timeout by lia. lia. }
  set (w := mkWaiting _ _ tls_timeout start []). split_and!; try done.
  - intros Hd.
    destruct (await_accepts fuel write_ok (negb (bool_decide (wrapped = []))) (least_wait tls_timeout)
      (start + handshake_timeout) at_ raw2 now2 _ _ _ w Hok ltac:(done) ltac:(cbn; lia) ltac:(done) ltac:(cbn; lia)
      ltac:(cbn; lia) Ha2) as (k & Hk & Hk' & E); [change (w_now w) with start; lia|].
    exists k. rewrite E. cbn [w_now w_retry w_resent app w] in *. rewrite advance_iter by lia. done.
  - intros Hd. apply (await_expires _ _ _ (least_wait tls_timeout)); cbn [w_retry w_now w];
      [done|done|lia|done|lia|by repeat constructor|lia].
Qed.
End reset.

(** ** Examples *)
Section examples.
Import ToyCrypto.

Definition example_protection (direction : Z) : TlsControlProtection :=
  mkProtection None (Some (endpoint direction)) [].

(** The answer comes after seventeen seconds, and two, six and fourteen seconds
    after the start the client has sent its reset again. *)
Lemma handshake_completes_witness :
  exists raw1 client1 op server1 session raw2 client2,
    build_client_hard_reset (Session.with_local_id (replicate 8 1)) (example_protection 1)
      [] 1000 = (Ok raw1, client1)
  /\ answer_client (example_protection 0) (replicate 8 2) raw1 7 1001
     = Ok (client_reset op (replicate 8 1), session, server1, raw2)
  /\ await_server_reset (Session.with_local_id (replicate 8 1)) client1 (fun _ => true) false
       (from_secs 2) (from_secs 60) 0 [(from_secs 17, Received raw2 9)]
     = Some (Ok (server_reset (replicate 8 1) (replicate 8 2)),
        mkWaiting (Session.set_remote_session_id (Session.with_local_id (replicate 8 1)) (replicate 8 2))
          client2 (from_secs 16) (from_secs 17) [from_secs 2; from_secs 6; from_secs 14])
  /\ linked 100 client2 server1 /\ linked 100 server1 client2.
Proof.
  destruct (handshake_completes 100 (example_protection 1) (example_protection 0) []
    (replicate 8 1) (replicate 8 2) 1000 1001 7 9 (from_secs 2) (from_secs 60) 0 (from_secs 17) (fun _ => true))
    as (raw1 & client1 & op & server1 & session & raw2 & client2 & H1 & H2 & _ & _ & H3 & _ & H4 & H5).
  - left. split; [done|].
    assert (room 101 PacketIdState.default new_window) as Hroom.
    { split; [|by vm_compute]. split; [by vm_compute|]. split; [by vm_compute|by left]. }
    split; (split; [eexists; vm_compute; reflexivity|exact Hroom]).
  - lia.
  - split; [by apply bytes_okb_true|done].
  - split; [by apply bytes_okb_true|done].
  - discriminate.
  - by vm_compute.
  - by vm_compute.
  - by vm_compute.
  - by vm_compute.
  - done.
  - by vm_compute.
  - exists raw1, client1, op, server1, session, raw2, client2.
    split; [exact H1|]. split; [exact H2|]. split; [|split; [exact H4|exact H5]].
    destruct H3 as (k & E & Hk & Hk'); [by vm_compute|].
    destruct k as [|[|[|[|k]]]]; [| | |exact E|].
    + destruct Hk'. by repeat constructor.
    + destruct Hk'. by repeat constructor.
    + destruct Hk'. by repeat constructor.
    + exfalso. do 3 apply Forall_inv_tail in Hk. by apply Forall_inv in Hk.
Defined.
End examples.

End Reset.
