(* ===== verification/OvpnDelivery.v ===== *)
(** * Two control channels over an unreliable network

    The reliable layer end to end: a sending and a receiving
    [TlsControlChannelCore] joined by a network that loses, repeats, delays and
    reorders packets in both directions.  The network carries parsed packets:
    that the wire encoding and its protection return the packet is proved in
    [OvpnPacket] and [OvpnControlWrap].  The channel is one without a wrapped
    client key, so every reliable packet carries ciphertext. *)

From stdpp Require Import base numbers list list_numbers gmap relations.
From Stdlib Require Import ZArith Lia.
From S2P Require Import Prelude OvpnPacket OvpnSession OvpnReliable OvpnCrypto OvpnControlWrap.
From S2P Require Import OvpnControlChannel.

Local Open Scope Z_scope.

Module Delivery.

Section delivery.
Context `{Crypto}.

Record net : Type := mkNet {
  sender : Channel.TlsControlChannelCore;
  receiver : Channel.TlsControlChannelCore;
  sent : list Packet.Packet;
  acks : list Packet.Packet;
  written : list Z;
  delivered : list Z;
}.

(** The sender packetizes ciphertext or polls its retransmissions; the network
    delivers the [i]-th packet ever sent, or the [i]-th acknowledgment packet;
    the receiver emits an acknowledgment packet.  What is never delivered is
    lost. *)
Inductive action : Type :=
| Send (ciphertext : list Z) (unix : Z)
| Poll (now unix : Z)
| Deliver (i : nat)
| EmitAck
| DeliverAck (i : nat).

(** The ciphertext that the events of a channel hand to TLS. *)
Definition ciphertext_of (e : IncomingControlEvent) : list Z :=
  match e with
  | TlsCiphertext bytes => bytes
  | _ => []
  end.

(** One action; [None] when it is not possible. *)
Definition exec (n : net) (a : action) : option net :=
  match a with
  | Send c unix =>
      let id := Session.local_control_packet_id (Channel.session (sender n)) in
      match Channel.packetize_tls_ciphertext (sender n) c unix with
      | (Ok (Some (raw, consumed)), ch) =>
          t ← Outgoing.in_flight (Channel.outgoing ch) !! id;
          Some (mkNet ch (receiver n) (sent n ++ [Outgoing.packet t]) (acks n)
                  (written n ++ firstn consumed c) (delivered n))
      | (_, ch) => None
      end
  | Poll now unix =>
      Some (mkNet (Channel.packets_ready_to_send (sender n) now unix).2
              (receiver n) (sent n) (acks n) (written n) (delivered n))
  | Deliver i =>
      p ← sent n !! i;
      let '(es, ch) := Channel.ingest_packet (receiver n) p in
      Some (mkNet (sender n) ch (sent n) (acks n) (written n)
              (delivered n ++ flat_map ciphertext_of es))
  | EmitAck =>
      let '(ids, o) :=
        Outgoing.take_acknowledgment_ids (Channel.outgoing (receiver n))
          ACKNOWLEDGMENT_SET_CAPACITY in
      match Session.new_acknowledgment_packet
              (Channel.session (receiver n)) ids with
      | Ok p =>
          Some (mkNet (sender n) (Channel.set_outgoing o (receiver n)) (sent n)
                  (acks n ++ [p]) (written n) (delivered n))
      | Err _ => None
      end
  | DeliverAck i =>
      p ← acks n !! i;
      Some (mkNet (Channel.ingest_packet (sender n) p).2 (receiver n) (sent n)
              (acks n) (written n) (delivered n))
  end.

Definition step (n n' : net) : Prop := exists a, exec n a = Some n'.

Fixpoint exec_all (n : net) (l : list action) : option net :=
  match l with
  | [] => Some n
  | a :: l => n ← exec n a; exec_all n l
  end.

Lemma exec_all_reachable n l n' : exec_all n l = Some n' -> rtc step n n'.
Proof.
  revert n. induction l as [|a l IH]; intros n; simpl.
  - intros [= <-]. apply rtc_refl.
  - intros (n1 & H1 & H2)%bind_Some. eapply rtc_l; [by exists a|by apply IH].
Qed.

Definition start (s r : Session.SessionInner) : net :=
  mkNet (Channel.new s (ControlWrap.mkProtection None None []) [] false)
    (Channel.new r (ControlWrap.mkProtection None None []) [] false)
    [] [] [] [].

(** ** The receiver delivers through the receive window *)

Definition payloads (ps : list Packet.Packet) : list Z :=
  flat_map Packet.payload ps.

Lemma ciphertext_filter ps :
  flat_map ciphertext_of
    (map (fun p => TlsCiphertext (Packet.payload p))
       (filter (fun p => Packet.payload p <> []) ps))
  = payloads ps.
Proof.
  induction ps as [|p ps IH]; [done|]. rewrite filter_cons. simpl.
  case_decide as Hp; simpl; [by rewrite IH|]. by rewrite IH, Hp.
Qed.

(** A channel either ignores a packet, or passes it through its window and
    hands out what the window releases. *)
Lemma ingest_packet_window ch p :
  let '(es, ch') := Channel.ingest_packet ch p in
  (flat_map ciphertext_of es = [] /\ Channel.incoming ch' = Channel.incoming ch)
  \/ (flat_map ciphertext_of es
      = payloads (Incoming.arrive (Channel.incoming ch) p).1
      /\ Channel.incoming ch' = (Incoming.arrive (Channel.incoming ch) p).2).
Proof.
  unfold Channel.ingest_packet, Incoming.arrive. cbv zeta.
  destruct (Opcode.is_data _); [cbv beta iota; by left|].
  destruct (negb (Session.validate_incoming_remote_session_id _ _)); [cbv beta iota; by left|].
  destruct (Channel.is_tls_hard_reset_opcode _);
    [destruct (_ || _ || _); cbv beta iota; by left|].
  destruct (decide (Packet.opcode p = ControlSoftResetV1));
    [destruct (negb _); cbv beta iota; by left|].
  destruct (negb (Session.validate_incoming_local_session_id _ _) || _); [cbv beta iota; by left|].
  destruct (bool_decide (Packet.opcode p = AcknowledgmentV1) || _); [cbv beta iota; by left|].
  destruct (Incoming.try_insert_incoming_packet _ p) as [b inc]. destruct b; [|cbv beta iota; by right].
  cbn [negb]. destruct (Incoming.next_ordered_sequence inc) as [ps inc'].
  right. split; [apply ciphertext_filter|done].
Qed.

(** ** Safety *)

Record ok (n : net) : Prop := mkOk {
  ok_sender : Outgoing.ok (Channel.outgoing (sender n));
  ok_wkc : Channel.wrapped_client_key (sender n) = [];
  ok_next : Session.local_control_packet_id (Channel.session (sender n))
            = Z.of_nat (length (sent n)) + 1;
  ok_ids : forall i p, sent n !! i = Some p -> Packet.id p = Z.of_nat i + 1;
  ok_bound : Z.of_nat (length (sent n)) < U32_MAX;
  ok_written : written n = payloads (sent n);
  ok_receiver : Incoming.ok (Channel.incoming (receiver n))
                /\ Incoming.settled (Channel.incoming (receiver n));
  ok_pending : forall id p,
    Incoming.pending (Channel.incoming (receiver n)) !! id = Some p -> p ∈ sent n;
  ok_last : Incoming.last_consumed_id (Channel.incoming (receiver n))
            <= Z.of_nat (length (sent n));
  ok_delivered : delivered n
    = payloads (take (Z.to_nat (Incoming.last_consumed_id
                                  (Channel.incoming (receiver n)))) (sent n));
}.

Lemma payloads_app l k : payloads (l ++ k) = payloads l ++ payloads k.
Proof. apply flat_map_app. Qed.

Lemma start_ok s r :
  Session.local_control_packet_id s = 1 -> ok (start s r).
Proof.
  intros Hs. destruct Incoming.new_ok. constructor; simpl; try done; try ilia.
  - constructor; [vm_compute; lia|vm_compute; lia|].
    intros id t. simpl. by rewrite lookup_empty.
Qed.

(** Encoding a packet touches the protection only. *)
Definition same_layer (ch ch' : Channel.TlsControlChannelCore) : Prop :=
  Channel.outgoing ch' = Channel.outgoing ch
  /\ Channel.session ch' = Channel.session ch
  /\ Channel.wrapped_client_key ch' = Channel.wrapped_client_key ch.

Lemma encode_keeps ch p unix :
  same_layer ch (Channel.encode_link_packet ch p unix).2.
Proof.
  unfold Channel.encode_link_packet. destruct (Packet.encode _); [|done].
  destruct (Channel.is_control_or_acknowledgment _); [|done].
  by destruct (ControlWrap.encode _ _ _).
Qed.

Lemma encode_all_keeps ch ps unix :
  same_layer ch (Channel.encode_all ch ps unix).2.
Proof.
  revert ch. induction ps as [|p ps IH]; intros ch; simpl; [done|].
  destruct (encode_keeps ch p unix) as (H1 & H2 & H3).
  destruct (Channel.encode_link_packet ch p unix) as [[raw|e] ch1]; [|done].
  destruct (IH ch1) as (G1 & G2 & G3).
  destruct (Channel.encode_all ch1 ps unix) as [r ch2]. simpl in *.
  split_and!; congruence.
Qed.

(** What packetizing puts in flight, and what it leaves alone. *)
Lemma packetize_sends ch c unix raw consumed ch' :
  Outgoing.ok (Channel.outgoing ch) ->
  Channel.packetize_tls_ciphertext ch c unix = (Ok (Some (raw, consumed)), ch') ->
  let id := Session.local_control_packet_id (Channel.session ch) in
  Outgoing.ok (Channel.outgoing ch')
  /\ Channel.wrapped_client_key ch' = Channel.wrapped_client_key ch
  /\ Session.local_control_packet_id (Channel.session ch') = id + 1
  /\ id <> U32_MAX
  /\ exists t, Outgoing.in_flight (Channel.outgoing ch') !! id = Some t
     /\ Packet.id (Outgoing.packet t) = id
     /\ Packet.payload (Outgoing.packet t) = firstn consumed c.
Proof.
  intros Ho. unfold Channel.packetize_tls_ciphertext. case_decide; [done|].
  set (n := Nat.min (length c) _). set (create := Channel.create_control _ _).
  pose proof (Outgoing.insert_outgoing_packet_cases (Channel.outgoing ch)
    MAXIMUM_ACKNOWLEDGMENTS_PER_PACKET create (Channel.session ch) Ho) as Hins.
  pose proof (Outgoing.insert_ok (Channel.outgoing ch)
    MAXIMUM_ACKNOWLEDGMENTS_PER_PACKET create (Channel.session ch) Ho) as Hok.
  destruct (Outgoing.insert_outgoing_packet _ _ _ _) as [[[[p|]|e] o] s]; [|done|done].
  destruct Hins as (_ & Hc & Hf & _). simpl in Hok.
  apply Channel.create_control_spec in Hc
    as (_ & Hpl & _ & Hid & _ & _ & Hs & _ & Hmax & _).
  set (ch1 := Channel.set_outgoing o (Channel.set_session s ch)).
  destruct (encode_keeps ch1 p unix) as (H1 & H2 & H3).
  destruct (Channel.encode_link_packet ch1 p unix) as [[r|e] ch2]; [|done].
  cbn [fmap result_fmap]. intros [= _ <- <-]. simpl in H1, H2, H3.
  rewrite H1, H2, H3. split_and!; [done|done| |done|].
  - by rewrite Hs.
  - rewrite Hf, <- Hid, lookup_insert_eq. eexists. by split_and!.
Qed.

(** Without a wrapped client key an acknowledgment is not a reliable packet. *)
Lemma acknowledgment_keeps ch unix :
  Outgoing.ok (Channel.outgoing ch) -> Channel.wrapped_client_key ch = [] ->
  let ch' := (Channel.new_acknowledgment_packet ch unix).2 in
  Outgoing.ok (Channel.outgoing ch') /\ Channel.wrapped_client_key ch' = []
  /\ Channel.session ch' = Channel.session ch.
Proof.
  intros Ho Hw. unfold Channel.new_acknowledgment_packet,
    Channel.next_packet_carries_wrapped_client_key.
  rewrite Hw, bool_decide_true by done. cbn [negb andb].
  pose proof (Outgoing.take_ok (Channel.outgoing ch) ACKNOWLEDGMENT_SET_CAPACITY Ho) as Ht.
  unfold Outgoing.take_acknowledgment_ids.
  destruct (Outgoing.take_acknowledgments _ _) as [ids o]. simpl in Ht.
  case_decide; [by simpl; split_and!|].
  destruct (Session.new_acknowledgment_packet _ _) as [q|e].
  - destruct (encode_keeps (Channel.set_outgoing o ch) q unix) as (H1 & H2 & H3).
    simpl in *. rewrite H1, H2, H3. by split_and!.
  - simpl. split_and!; [by apply Outgoing.return_ok|done..].
Qed.

(** So polling does not number new packets. *)
Lemma poll_keeps ch now unix :
  Outgoing.ok (Channel.outgoing ch) -> Channel.wrapped_client_key ch = [] ->
  let ch' := (Channel.packets_ready_to_send ch now unix).2 in
  Outgoing.ok (Channel.outgoing ch') /\ Channel.wrapped_client_key ch' = []
  /\ Channel.session ch' = Channel.session ch.
Proof.
  intros Ho Hw. unfold Channel.packets_ready_to_send.
  pose proof (Outgoing.ready_ok (Channel.outgoing ch) now Ho) as Hr.
  destruct (Outgoing.packets_ready_to_send _ now) as [ps o]. simpl in Hr.
  destruct (encode_all_keeps (Channel.set_outgoing o ch) ps unix) as (H1 & H2 & H3).
  destruct (Channel.encode_all _ ps unix) as [r ch1]. simpl in H1, H2, H3.
  rewrite <- H1 in Hr. rewrite <- H3 in Hw. rewrite <- H2.
  destruct r as [raws|e]; [|done]. case_decide; [|done].
  pose proof (acknowledgment_keeps ch1 unix Hr Hw) as Hack.
  by destruct (Channel.new_acknowledgment_packet ch1 unix) as [[raw|[]] ch2].
Qed.

(** Packets with consecutive ids out of [sent] are a segment of it. *)
Lemma segment (ps d : list Packet.Packet) (last : nat) :
  (forall i p, ps !! i = Some p -> Packet.id p = Z.of_nat i + 1) ->
  map Packet.id d = seqZ (Z.of_nat last + 1) (Z.of_nat (length d)) ->
  (forall q, q ∈ d -> q ∈ ps) ->
  (last + length d <= length ps \/ d = [])%nat
  /\ take (last + length d) ps = take last ps ++ d.
Proof.
  intros Hids Hm Hin.
  assert (forall j q, d !! j = Some q -> ps !! (last + j)%nat = Some q) as Hj.
  { intros j q Hq.
    assert (Packet.id q = Z.of_nat last + 1 + Z.of_nat j) as Hid.
    { apply (f_equal (lookup j)) in Hm. change (map Packet.id d) with (Packet.id <$> d) in Hm.
      rewrite list_lookup_fmap, Hq in Hm.
      simpl in Hm. symmetry in Hm. apply lookup_seqZ in Hm as [-> _]. lia. }
    assert (q ∈ ps) as Hq' by (eapply Hin, list_elem_of_lookup_2; done).
    apply list_elem_of_lookup in Hq' as [i Hi]. pose proof (Hids i q Hi).
    by replace (last + j)%nat with i by lia. }
  assert (last + length d <= length ps \/ d = [])%nat as Hlen.
  { destruct d as [|q d] using rev_ind; [by right|]. left. rewrite length_app in *.
    simpl. assert (ps !! (last + length d)%nat = Some q) as Hl%lookup_lt_Some; [|lia].
    apply Hj. by rewrite list_lookup_middle. }
  split; [done|]. destruct Hlen as [Hlen| ->];
    [|by rewrite Nat.add_0_r, app_nil_r].
  apply list_eq. intros i. destruct (decide (i < last + length d)%nat) as [Hi|Hi].
  - rewrite lookup_take_lt by lia. destruct (decide (i < last)%nat).
    + rewrite lookup_app_l by (rewrite length_take; lia). by rewrite lookup_take_lt.
    + rewrite lookup_app_r by (rewrite length_take; lia).
      rewrite length_take, Nat.min_l by lia.
      destruct (lookup_lt_is_Some_2 d (i - last)) as [q Hq]; [lia|].
      rewrite Hq. specialize (Hj _ _ Hq). by replace (last + (i - last))%nat with i in Hj by lia.
  - rewrite lookup_take_ge, lookup_ge_None_2; [done| |lia].
    rewrite length_app, length_take. lia.
Qed.
(** Receiving a packet changes the outgoing half by its acknowledgments only. *)
Lemma ingest_keeps ch p :
  let ch' := (Channel.ingest_packet ch p).2 in
  (Outgoing.ok (Channel.outgoing ch) -> Outgoing.ok (Channel.outgoing ch'))
  /\ Channel.session ch' = Channel.session ch
  /\ Channel.wrapped_client_key ch' = Channel.wrapped_client_key ch.
Proof.
  assert (Outgoing.ok (Channel.outgoing ch) ->
          Outgoing.ok (Outgoing.on_incoming_packet (Channel.outgoing ch) p)) as Ho
    by apply Outgoing.on_incoming_packet_ok.
  unfold Channel.ingest_packet. cbv zeta.
  destruct (Opcode.is_data _); [done|].
  destruct (negb (Session.validate_incoming_remote_session_id _ _)); [done|].
  destruct (Channel.is_tls_hard_reset_opcode _); [by destruct (_ || _ || _)|].
  destruct (decide (Packet.opcode p = ControlSoftResetV1)); [by destruct (negb _)|].
  destruct (negb (Session.validate_incoming_local_session_id _ _) || _); [done|].
  destruct (bool_decide (Packet.opcode p = AcknowledgmentV1) || _); [done|].
  destruct (Incoming.try_insert_incoming_packet _ p) as [[] inc]; [|done].
  cbn [negb]. by destruct (Incoming.next_ordered_sequence inc).
Qed.

Lemma send_ok n c unix n' : ok n -> exec n (Send c unix) = Some n' -> ok n'.
Proof.
  intros Hn. cbn [exec].
  destruct (Channel.packetize_tls_ciphertext (sender n) c unix)
    as [[[[raw k]|]|e] ch] eqn:Hp; [|done|done].
  intros (t & Ht & [= <-])%bind_Some.
  destruct (packetize_sends _ _ _ _ _ _ (ok_sender _ Hn) Hp)
    as (H1 & H2 & H3 & H4 & t' & Ht' & Hid & Hpl).
  rewrite Ht in Ht'. injection Ht' as <-.
  pose proof (ok_next _ Hn) as Hnext. pose proof (ok_bound _ Hn) as Hbound.
  destruct Hn as [G1 G2 G3 G4 G5 G6 G7 G8 G9 G10]. constructor; simpl.
  - done.
  - congruence.
  - rewrite H3, Hnext, length_app. simpl. lia.
  - intros i p. rewrite lookup_app_Some, list_lookup_singleton_Some.
    intros [?|(Hi & Hz & <-)]; [by apply G4|]. rewrite Hid, Hnext. lia.
  - rewrite length_app. simpl. lia.
  - rewrite payloads_app, G6. f_equal. simpl. by rewrite app_nil_r.
  - done.
  - intros id p Hq. apply elem_of_app. left. by eapply G8.
  - rewrite length_app. simpl. lia.
  - rewrite take_app_le; [done|]. destruct G7 as [[Hu _] _]. ilia.
Qed.

Lemma deliver_ok n i n' : ok n -> exec n (Deliver i) = Some n' -> ok n'.
Proof.
  intros Hn. cbn [exec]. intros (p & Hp & Hd)%bind_Some.
  pose proof (ingest_packet_window (receiver n) p) as Hw.
  destruct (Channel.ingest_packet (receiver n) p) as [es ch]. injection Hd as <-.
  destruct Hn as [G1 G2 G3 G4 G5 G6 [G7 G7'] G8 G9 G10].
  destruct Hw as [[-> Hi]|[-> Hi]].
  { constructor; simpl; rewrite ?Hi, ?app_nil_r; done. }
  pose proof (G4 _ _ Hp) as Hid. pose proof (lookup_lt_Some _ _ _ Hp) as Hlt.
  assert (is_u32 (Packet.id p)) as Hu by ilia.
  pose proof (Incoming.arrive_spec _ p G7 G7' Hu) as Ha.
  destruct (Incoming.arrive (Channel.incoming (receiver n)) p) as [d inc].
  destruct Ha as (A1 & A2 & A3 & A4 & A5 & A6). simpl in Hi.
  assert (p ∈ sent n) as Hin by by eapply list_elem_of_lookup_2.
  set (last := Incoming.last_consumed_id (Channel.incoming (receiver n))) in *.
  assert (0 <= last) as Hlast by (subst last; destruct G7 as [Hu' _]; ilia).
  destruct (segment (sent n) d (Z.to_nat last)) as [Hlen Hseg].
  { done. }
  { by rewrite Z2Nat.id. }
  { intros q [->|Hq]%A5; [done|]. by eapply G8. }
  constructor; simpl; rewrite ?Hi; try done.
  - intros id q [->|Hq]%A6; [done|]. by eapply G8.
  - rewrite A3. destruct Hlen as [?| ->]; simpl; lia.
  - rewrite A3, G10, <- payloads_app.
    replace (Z.to_nat (last + Z.of_nat (length d)))
      with (Z.to_nat last + length d)%nat by lia. by rewrite Hseg.
Qed.

Lemma step_ok n n' : ok n -> step n n' -> ok n'.
Proof.
  intros Hn [a Ha]. destruct a as [c u|now u|i| |i].
  - by eapply send_ok.
  - cbn [exec] in Ha. injection Ha as <-.
    destruct (poll_keeps (sender n) now u (ok_sender _ Hn) (ok_wkc _ Hn))
      as (H1 & H2 & H3).
    destruct Hn as [G1 G2 G3 G4 G5 G6 G7 G8 G9 G10].
    constructor; simpl; rewrite ?H3; done.
  - by eapply deliver_ok.
  - cbn [exec] in Ha.
    destruct (Outgoing.take_acknowledgment_ids _ _) as [ids o].
    destruct (Session.new_acknowledgment_packet _ _) as [p|e]; [|done].
    injection Ha as <-. by destruct Hn.
  - cbn [exec] in Ha. apply bind_Some in Ha as (p & _ & [= <-]).
    destruct (ingest_keeps (sender n) p) as (H1 & H2 & H3).
    destruct Hn as [G1 G2 G3 G4 G5 G6 G7 G8 G9 G10].
    constructor; simpl; rewrite ?H2, ?H3; auto.
Qed.

(** C4: the control channel is a reliable byte stream as far as safety goes:
    whatever the network loses, repeats, delays or reorders in either
    direction, and whenever the ends retransmit or acknowledge, the ciphertext
    handed to the receiver's TLS is at all times a prefix of the ciphertext
    the sender's TLS wrote, with no gap, repetition or reordering. *)
Theorem delivered_prefix (s r : Session.SessionInner) (n : net) :
  Session.local_control_packet_id s = 1 ->
  rtc step (start s r) n -> delivered n `prefix_of` written n.
Proof.
  intros Hs Hr. assert (ok n) as Hn.
  { revert Hr. apply rtc_invariant; [apply step_ok|by apply start_ok]. }
  rewrite (ok_delivered _ Hn), (ok_written _ Hn).
  set (k := Z.to_nat _). rewrite <- (take_drop k (sent n)) at 2.
  rewrite payloads_app. by eexists.
Qed.

End delivery.

(** ** Examples *)

Section examples.
Import ToyCrypto.

Definition client : Session.SessionInner :=
  Session.set_remote_session_id (Session.with_local_id [1; 1; 1; 1; 1; 1; 1; 1])
    [2; 2; 2; 2; 2; 2; 2; 2].
Definition server : Session.SessionInner :=
  Session.set_remote_session_id (Session.with_local_id [2; 2; 2; 2; 2; 2; 2; 2])
    [1; 1; 1; 1; 1; 1; 1; 1].

Definition send_byte (b : Z) : action := Send [b] 1000.

(** The first packet is late and the second is repeated. *)
Lemma delivered_prefix_witness :
  match exec_all (start client server)
          [send_byte 10; send_byte 20; send_byte 30; Deliver 1; Deliver 1;
           Deliver 0; EmitAck; DeliverAck 0; Poll 5 1000] with
  | Some n =>
      written n = [10; 20; 30] /\ delivered n = [10; 20]
      /\ delivered n `prefix_of` written n
  | None => False
  end.
Proof.
  destruct (exec_all (start client server) _) as [n|] eqn:E;
    [|vm_compute in E; discriminate].
  split_and!.
  - vm_compute in E. injection E as <-. reflexivity.
  - vm_compute in E. injection E as <-. reflexivity.
  - apply (delivered_prefix client server n); [reflexivity|].
    eapply exec_all_reachable. exact E.
Defined.

(** Sixteen packets of which the first is delayed: five at a time the others
    arrive and are acknowledged.  Packets 13 to 16 lie beyond the receive
    window when they arrive, so the receiver drops them, but they have been
    acknowledged. *)
Definition stalled_run : list action :=
  map send_byte (seqZ 1 6) ++ map Deliver (seq 1 5) ++ [EmitAck; DeliverAck 0]
  ++ map send_byte (seqZ 7 5) ++ map Deliver (seq 6 5) ++ [EmitAck; DeliverAck 1]
  ++ map send_byte (seqZ 12 5) ++ map Deliver (seq 11 5) ++ [EmitAck; DeliverAck 2]
  ++ [Deliver 0; EmitAck; DeliverAck 3].

(** There is no liveness to match the safety theorem: a run in which every
    packet reaches the receiver once ends with nothing in flight, so nothing
    will be retransmitted, and with four bytes that were written and
    acknowledged but are not delivered and never will be. *)
Lemma acknowledged_but_lost :
  exists n, rtc step (start client server) n
  /\ Outgoing.in_flight (Channel.outgoing (sender n)) = ∅
  /\ written n = seqZ 1 16 /\ delivered n = seqZ 1 12
  /\ Incoming.pending (Channel.incoming (receiver n)) = ∅.
Proof.
  destruct (exec_all (start client server) stalled_run) as [n|] eqn:E;
    [|vm_compute in E; discriminate].
  exists n. split; [by eapply exec_all_reachable|].
  vm_compute in E. injection E as <-. by split_and!.
Qed.

End examples.

End Delivery.
