(* ===== verification/OvpnKeyRing.v ===== *)
(** * The data key ring ([protocol/openvpn/data_key_ring.rs])

    The outbound key and the receive keys retained across TLS soft resets.  A
    key state carries a session and a value of abstract types. *)

From stdpp Require Import base numbers list relations sorting.
From Stdlib Require Import ZArith Lia.
From S2P Require Import Prelude OvpnSession.

Local Open Scope Z_scope.

Definition OPENVPN_TLS_TRANSITION_WINDOW : Z := from_secs 3600.
Definition OPENVPN_TLS_KEY_SCAN_SIZE : nat := 3.

Inductive DataKeyRingError : Type :=
| InvalidSoftResetKeyId (key_id : Z)
| MissingStagedKey.

(** ** Stable sorting

    [slice::sort_by_key] is stable; so is insertion from the right. *)

Section sort_by_key.
Context {A : Type} (key : A -> Z).

Fixpoint insert_by_key (x : A) (l : list A) : list A :=
  match l with
  | [] => [x]
  | y :: l => if decide (key x <= key y) then x :: y :: l else y :: insert_by_key x l
  end.

Definition sort_by_key (l : list A) : list A := foldr insert_by_key [] l.

Definition key_le (x y : A) : Prop := key x <= key y.

Lemma insert_by_key_perm x l : insert_by_key x l ≡ₚ x :: l.
Proof.
  induction l as [|y l IH]; simpl; [done|]. case_decide; [done|].
  rewrite IH. apply Permutation_swap.
Qed.

Lemma sort_by_key_perm l : sort_by_key l ≡ₚ l.
Proof.
  induction l as [|x l IH]; simpl; [done|]. by rewrite insert_by_key_perm, IH.
Qed.

Lemma insert_by_key_sorted x l :
  StronglySorted key_le l -> StronglySorted key_le (insert_by_key x l).
Proof.
  induction l as [|y l IH]; intros Hs; simpl; [by repeat constructor|].
  apply StronglySorted_inv in Hs as [Hs Hy]. case_decide as Hd.
  - constructor; [by constructor|]. constructor; [done|].
    eapply Forall_impl; [exact Hy|]. unfold key_le. intros z ?. simpl in *. lia.
  - constructor; [by apply IH|]. rewrite insert_by_key_perm. constructor; [|done].
    unfold key_le. lia.
Qed.

Lemma sort_by_key_sorted l : StronglySorted key_le (sort_by_key l).
Proof.
  induction l as [|x l IH]; simpl; [constructor|]. by apply insert_by_key_sorted.
Qed.

(** Sorting a sorted list changes nothing. *)
Lemma sort_by_key_id l : StronglySorted key_le l -> sort_by_key l = l.
Proof.
  induction l as [|x l IH]; intros Hs; simpl; [done|].
  apply StronglySorted_inv in Hs as [Hs Hx]. rewrite IH by done.
  destruct l as [|y l]; [done|]. simpl. apply Forall_cons in Hx as [Hx _].
  by rewrite decide_True.
Qed.
End sort_by_key.

Module KeyRing.

Section ring.
Context {S T : Type}.

Record OpenVpnReceiveKeyState : Type := mkKey {
  key_id : Z;
  sequence : Z;
  session : S;
  value : T;
  expires_at : option Z;
}.

Record OpenVpnDataKeyRing : Type := mkRing {
  receive : list OpenVpnReceiveKeyState;
  send_key_id : Z;
  send_sequence : Z;
  promoted_sequence : Z;
  transition_window : Z;
  scan_size : nat;
}.

Definition with_limits (key_id : Z) (session : S) (value : T)
    (transition_window : Z) (scan_size : nat) : OpenVpnDataKeyRing :=
  mkRing [mkKey key_id 0 session value None] key_id 0 0 transition_window
    (Nat.max scan_size 1).

Definition new (key_id : Z) (session : S) (value : T) : OpenVpnDataKeyRing :=
  with_limits key_id session value OPENVPN_TLS_TRANSITION_WINDOW
    OPENVPN_TLS_KEY_SCAN_SIZE.

Definition set_receive (r : OpenVpnDataKeyRing)
    (l : list OpenVpnReceiveKeyState) : OpenVpnDataKeyRing :=
  mkRing l (send_key_id r) (send_sequence r) (promoted_sequence r)
    (transition_window r) (scan_size r).

Definition current_send_key_id (r : OpenVpnDataKeyRing) : Z := send_key_id r.

Definition next_soft_reset_key_id (r : OpenVpnDataKeyRing) : Z :=
  next_key_id (send_key_id r).

(** An entry of the given key id and sequence. *)
Definition names (k s : Z) (e : OpenVpnReceiveKeyState) : Prop :=
  key_id e = k /\ sequence e = s.

Global Instance names_dec k s e : Decision (names k s e).
Proof. unfold names. apply _. Defined.

Definition find (P : OpenVpnReceiveKeyState -> Prop) `{!forall x, Decision (P x)}
    (l : list OpenVpnReceiveKeyState) : option OpenVpnReceiveKeyState :=
  snd <$> list_find P l.

Definition current_send (r : OpenVpnDataKeyRing) :
    option OpenVpnReceiveKeyState :=
  find (names (send_key_id r) (send_sequence r)) (receive r).

Definition sort_and_limit (r : OpenVpnDataKeyRing) : OpenVpnDataKeyRing :=
  let l := sort_by_key sequence (receive r) in
  set_receive r
    (if decide (scan_size r < length l)%nat
     then drop (length l - scan_size r) l else l).

Definition validate_soft_reset_key_id (key_id : Z) :
    result DataKeyRingError unit :=
  if decide (1 <= key_id <= 7) then Ok () else Err (InvalidSoftResetKeyId key_id).

Definition stage (r : OpenVpnDataKeyRing) (k s : Z) (session : S) (value : T)
    (now : Z) : result DataKeyRingError unit * OpenVpnDataKeyRing :=
  match validate_soft_reset_key_id k with
  | Err e => (Err e, r)
  | Ok _ =>
      (Ok (),
       sort_and_limit
         (set_receive r
            (filter (fun e => key_id e <> k) (receive r)
             ++ [mkKey k s session value (Some (now + transition_window r))])))
  end.

Definition alive (now : Z) (e : OpenVpnReceiveKeyState) : Prop :=
  match expires_at e with
  | None => True
  | Some expires => now < expires
  end.

Global Instance alive_dec now e : Decision (alive now e).
Proof. unfold alive. destruct (expires_at e); apply _. Defined.

Definition prune (r : OpenVpnDataKeyRing) (now : Z) : OpenVpnDataKeyRing :=
  sort_and_limit (set_receive r (filter (alive now) (receive r))).

Definition set_expiry (x : option Z) (e : OpenVpnReceiveKeyState) :
    OpenVpnReceiveKeyState :=
  mkKey (key_id e) (sequence e) (session e) (value e) x.

Definition promote (r : OpenVpnDataKeyRing) (k s now : Z) :
    result DataKeyRingError bool * OpenVpnDataKeyRing :=
  match validate_soft_reset_key_id k with
  | Err e => (Err e, r)
  | Ok _ =>
      if decide (s <= promoted_sequence r) then (Ok false, r)
      else
        match list_find (names k s) (receive r) with
        | None => (Err MissingStagedKey, r)
        | Some (new_index, _) =>
            let expiry := now + transition_window r in
            let l :=
              (fun e =>
                 if decide (names (send_key_id r) (send_sequence r) e)
                 then set_expiry (Some expiry) e else e) <$> receive r in
            let l := alter (set_expiry None) new_index l in
            (Ok true,
             prune (mkRing l k s s (transition_window r) (scan_size r)) now)
        end
  end.

Definition discard (r : OpenVpnDataKeyRing) (k s : Z) : OpenVpnDataKeyRing :=
  if decide (k = send_key_id r /\ s = send_sequence r) then r
  else
    set_receive r
      (filter (fun e => key_id e <> k \/ sequence e <> s) (receive r)).

Definition select_receive (r : OpenVpnDataKeyRing) (k now : Z) :
    option OpenVpnReceiveKeyState * OpenVpnDataKeyRing :=
  let r := prune r now in
  (find (fun e => key_id e = k) (receive r), r).

Definition retained_key_ids (r : OpenVpnDataKeyRing) (now : Z) :
    list Z * OpenVpnDataKeyRing :=
  let r := prune r now in (key_id <$> receive r, r).

(** ** Invariant *)

(** The ring is bounded, has at most one key state per key id, and is sorted by
    sequence, so the newest states survive the limit. *)
Record ok (r : OpenVpnDataKeyRing) : Prop := mkOk {
  ok_scan : (0 < scan_size r)%nat;
  ok_length : (length (receive r) <= scan_size r)%nat;
  ok_keys : NoDup (key_id <$> receive r);
  ok_sorted : StronglySorted (key_le sequence) (receive r);
  ok_promoted : send_sequence r = promoted_sequence r;
}.

Lemma NoDup_keys_filter (P : OpenVpnReceiveKeyState -> Prop)
    `{!forall x, Decision (P x)} l :
  NoDup (key_id <$> l) -> NoDup (key_id <$> filter P l).
Proof.
  induction l as [|e l IH]; [done|]. rewrite fmap_cons, NoDup_cons.
  intros [Hn Hd]. rewrite filter_cons. case_decide; [|by apply IH].
  rewrite fmap_cons, NoDup_cons. split; [|by apply IH].
  rewrite !list_elem_of_fmap. rewrite list_elem_of_fmap in Hn.
  intros (x & Hx & [_ Hin]%list_elem_of_filter). apply Hn. by exists x.
Qed.

Lemma StronglySorted_drop (R : OpenVpnReceiveKeyState -> OpenVpnReceiveKeyState -> Prop)
    n l : StronglySorted R l -> StronglySorted R (drop n l).
Proof.
  revert l. induction n as [|n IH]; intros [|x l] Hs; simpl; try done.
  apply IH. by apply StronglySorted_inv in Hs as [? _].
Qed.

Lemma StronglySorted_filter (R : OpenVpnReceiveKeyState -> OpenVpnReceiveKeyState -> Prop)
    (P : OpenVpnReceiveKeyState -> Prop) `{!forall x, Decision (P x)} l :
  StronglySorted R l -> StronglySorted R (filter P l).
Proof.
  induction 1 as [|x l Hs IH Hx]; [constructor|]. rewrite filter_cons.
  case_decide; [|done]. constructor; [done|].
  rewrite Forall_forall in *. intros y [_ Hy]%list_elem_of_filter. auto.
Qed.

Lemma sort_and_limit_ok r :
  (0 < scan_size r)%nat -> NoDup (key_id <$> receive r) ->
  send_sequence r = promoted_sequence r -> ok (sort_and_limit r).
Proof.
  intros Hs Hk Hp. constructor; simpl; [done|..|done].
  - case_decide; [rewrite length_drop|]; lia.
  - assert (NoDup (key_id <$> sort_by_key sequence (receive r))) as Hn
      by by rewrite sort_by_key_perm.
    case_decide; [|done]. rewrite <- (take_drop (length (sort_by_key sequence (receive r))
      - scan_size r) (sort_by_key sequence (receive r))), fmap_app in Hn.
    by apply NoDup_app in Hn as (_ & _ & ?).
  - case_decide; [apply StronglySorted_drop|]; apply sort_by_key_sorted.
Qed.

Lemma stage_ok r k s ses v now : ok r -> ok (stage r k s ses v now).2.
Proof.
  intros [H1 H2 H3 H4 H5]. unfold stage.
  destruct (validate_soft_reset_key_id k); [|by constructor].
  apply sort_and_limit_ok; simpl; [done| |done].
  rewrite fmap_app, NoDup_app. split_and!;
    [by apply NoDup_keys_filter| |apply NoDup_singleton].
  intros x Hx. rewrite list_elem_of_fmap in Hx.
  destruct Hx as (e & -> & [Hne _]%list_elem_of_filter).
  simpl. by rewrite list_elem_of_singleton.
Qed.

Lemma prune_ok r now : ok r -> ok (prune r now).
Proof.
  intros [H1 H2 H3 H4 H5]. apply sort_and_limit_ok; simpl; [done| |done].
  by apply NoDup_keys_filter.
Qed.

Lemma discard_ok r k s : ok r -> ok (discard r k s).
Proof.
  intros [H1 H2 H3 H4 H5]. unfold discard. case_decide; [by constructor|].
  constructor; simpl; [done| |by apply NoDup_keys_filter| |done].
  - etransitivity; [|exact H2]. apply length_filter.
  - apply StronglySorted_filter. done.
Qed.

(** ** The outbound key *)

Lemma find_unique l e :
  NoDup (key_id <$> l) -> e ∈ l ->
  find (names (key_id e) (sequence e)) l = Some e.
Proof.
  intros Hn [i Hi]%list_elem_of_lookup. unfold find.
  assert (list_find (names (key_id e) (sequence e)) l = Some (i, e)) as ->; [|done].
  apply list_find_Some. split_and!; [done|done|]. intros j y Hj Hlt [Hk _].
  assert (i = j); [|lia].
  eapply (NoDup_lookup (key_id <$> l)); [done|..]; rewrite list_lookup_fmap.
  - by rewrite Hi.
  - rewrite Hj. simpl. by rewrite Hk.
Qed.

Lemma find_names_Some k s l e :
  find (names k s) l = Some e -> e ∈ l /\ key_id e = k /\ sequence e = s.
Proof.
  unfold find. intros ([i e'] & Hf & ->)%fmap_Some.
  apply list_find_Some in Hf as (Hi & [Hk Hs] & _). simpl.
  split_and!; [by eapply list_elem_of_lookup_2|done|done].
Qed.

(** Pruning a ring within its limit keeps exactly the entries that are alive. *)
Lemma prune_receive r now :
  StronglySorted (key_le sequence) (receive r) ->
  (length (receive r) <= scan_size r)%nat ->
  receive (prune r now) = filter (alive now) (receive r).
Proof.
  intros Hs Hl. unfold prune, sort_and_limit. simpl.
  rewrite sort_by_key_id by by apply StronglySorted_filter.
  rewrite decide_False; [done|].
  pose proof (length_filter (alive now) (receive r)). lia.
Qed.

(** The entries of the ring after a promotion, before pruning. *)
Definition handover (r : OpenVpnDataKeyRing) (i : nat) (expiry : Z) :
    list OpenVpnReceiveKeyState :=
  alter (set_expiry None) i
    ((fun e => if decide (names (send_key_id r) (send_sequence r) e)
               then set_expiry (Some expiry) e else e) <$> receive r).

Lemma handover_fmap {B} (f : OpenVpnReceiveKeyState -> B) r i expiry :
  (forall x e, f (set_expiry x e) = f e) ->
  f <$> handover r i expiry = f <$> receive r.
Proof.
  intros Hf. apply list_eq. intros j. unfold handover.
  rewrite !list_lookup_fmap. destruct (decide (i = j)) as [<-|Hne].
  - rewrite list_lookup_alter_eq, list_lookup_fmap.
    destruct (receive r !! i); simpl; [|done]. rewrite Hf. by case_decide; rewrite ?Hf.
  - rewrite list_lookup_alter_ne, list_lookup_fmap by done.
    destruct (receive r !! j); simpl; [|done]. by case_decide; rewrite ?Hf.
Qed.

Lemma sorted_by_sequences l l' :
  sequence <$> l = sequence <$> l' ->
  StronglySorted (key_le sequence) l -> StronglySorted (key_le sequence) l'.
Proof.
  intros Hs Hl. revert l' Hs. induction Hl as [|x l Hl IH Hx]; intros [|y l'] Hs;
    try done; [constructor|].
  rewrite !fmap_cons in Hs.
  assert (sequence x = sequence y) as Hxy by congruence.
  assert (sequence <$> l = sequence <$> l') as Hs' by congruence.
  clear Hs. rename Hs' into Hs. constructor; [by apply IH|].
  assert (Forall (fun z => sequence x <= z) (sequence <$> l)) as Hz
    by (apply Forall_fmap; done).
  rewrite Hs, Forall_fmap in Hz. eapply Forall_impl; [exact Hz|].
  intros z Hxz. unfold key_le. simpl in Hxz. lia.
Qed.

Lemma promote_receive r k s now r' :
  ok r -> promote r k s now = (Ok true, r') ->
  exists i e, receive r !! i = Some e /\ key_id e = k /\ sequence e = s
  /\ promoted_sequence r < s
  /\ receive r' = filter (alive now) (handover r i (now + transition_window r))
  /\ r' = mkRing (receive r') k s s (transition_window r) (scan_size r)
  /\ NoDup (key_id <$> handover r i (now + transition_window r)).
Proof.
  intros [H1 H2 H3 H4 H5]. unfold promote.
  destruct (validate_soft_reset_key_id k); [|done]. case_decide; [done|].
  destruct (list_find (names k s) (receive r)) as [[i e]|] eqn:Hf; [|done].
  apply list_find_Some in Hf as (Hi & [Hk Hs] & _). intros [= <-].
  fold (handover r i (now + transition_window r)).
  exists i, e. split_and!; [done|done|done|lia| |done|].
  - apply prune_receive; simpl.
    + eapply sorted_by_sequences; [|exact H4]. by rewrite handover_fmap.
    + rewrite <- (length_fmap key_id), handover_fmap, length_fmap by done. done.
  - by rewrite handover_fmap.
Qed.

Lemma promote_ok r k s now : ok r -> ok (promote r k s now).2.
Proof.
  intros Hr. pose proof (promote_receive r k s now) as Hp.
  destruct (promote r k s now) as [[[]|e] r'] eqn:E; simpl.
  - destruct (Hp _ Hr eq_refl) as (i & e & Hi & Hk & Hs & Hlt & Hrec & -> & Hn).
    destruct Hr as [H1 H2 H3 H4 H5]. constructor; simpl in *; [done|..|done];
      rewrite Hrec.
    + etransitivity; [apply length_filter|].
      by rewrite <- (length_fmap key_id), handover_fmap, length_fmap.
    + by apply NoDup_keys_filter.
    + apply StronglySorted_filter. eapply sorted_by_sequences; [|exact H4].
      by rewrite handover_fmap.
  - unfold promote in E. by repeat case_match; simplify_eq.
  - unfold promote in E. by repeat case_match; simplify_eq.
Qed.

(** A promotion hands over cleanly: the promoted key becomes the outbound
    key, without expiry; its sequence is newer than every earlier outbound
    key; and the previous outbound key stays in the ring for receiving, for
    one transition window. *)
Theorem promote_hands_over (r : OpenVpnDataKeyRing) (k s now : Z)
    (r' : OpenVpnDataKeyRing) :
  ok r -> 0 < transition_window r -> promote r k s now = (Ok true, r') ->
  (exists e, current_send r' = Some e /\ key_id e = k /\ sequence e = s
             /\ expires_at e = None)
  /\ send_sequence r < send_sequence r'
  /\ (forall e, current_send r = Some e -> key_id e <> k ->
        find (names (key_id e) (sequence e)) (receive r')
        = Some (set_expiry (Some (now + transition_window r)) e)).
Proof.
  intros Hr Hw Hp.
  destruct (promote_receive _ _ _ _ _ Hr Hp)
    as (i & e & Hi & Hk & Hs & Hlt & Hrec & Heq & Hn).
  set (l := handover r i (now + transition_window r)) in *.
  assert (forall x, x ∈ l -> alive now x -> find (names (key_id x) (sequence x)) (receive r')
          = Some x) as Hfind.
  { intros x Hx Ha. apply find_unique; rewrite Hrec; [by apply NoDup_keys_filter|].
    by apply list_elem_of_filter. }
  split_and!.
  - exists (set_expiry None e). split_and!; [|done..].
    unfold current_send. rewrite Heq. simpl. rewrite <- Hk, <- Hs.
    apply (Hfind (set_expiry None e)); [|done]. subst l. unfold handover.
    eapply (list_elem_of_lookup_2 _ i). rewrite list_lookup_alter_eq, list_lookup_fmap, Hi.
    simpl. by case_decide.
  - rewrite Heq. simpl. rewrite (ok_promoted _ Hr). lia.
  - intros x Hx Hne. apply find_names_Some in Hx as ([j Hj]%list_elem_of_lookup & Hxk & Hxs).
    apply (Hfind (set_expiry (Some (now + transition_window r)) x)); [|simpl; unfold alive; simpl; lia].
    subst l. unfold handover. eapply (list_elem_of_lookup_2 _ j).
    assert (i <> j) by (intros ->; congruence).
    rewrite list_lookup_alter_ne, list_lookup_fmap, Hj by done. simpl.
    by rewrite decide_True.
Qed.

(** The transitions of a ring. *)
Inductive step : OpenVpnDataKeyRing -> OpenVpnDataKeyRing -> Prop :=
| step_stage r k s ses v now : step r (stage r k s ses v now).2
| step_promote r k s now : step r (promote r k s now).2
| step_discard r k s : step r (discard r k s)
| step_select r k now : step r (select_receive r k now).2
| step_prune r now : step r (prune r now).

Lemma send_sequence_mono r r' :
  ok r -> step r r' -> ok r' /\ send_sequence r <= send_sequence r'.
Proof.
  intros Hr Hs. destruct Hs as [r k s ses v now|r k s now|r k s|r k now|r now].
  - split; [by apply stage_ok|]. unfold stage. by destruct (validate_soft_reset_key_id k).
  - split; [by apply promote_ok|]. unfold promote.
    destruct (validate_soft_reset_key_id k); [|done]. case_decide; [done|].
    destruct (list_find _ _) as [[i e]|]; [|done]. simpl.
    rewrite (ok_promoted _ Hr). lia.
  - split; [by apply discard_ok|]. unfold discard. by case_decide.
  - by split; [apply prune_ok|].
  - by split; [apply prune_ok|].
Qed.

(** C37: in every state a ring can reach it is bounded by its scan size, holds
    at most one key state per key id, sorted by age, and the outbound key
    never rolls back to an older sequence. *)
Theorem ring_reachable (r r' : OpenVpnDataKeyRing) :
  ok r -> rtc step r r' -> ok r' /\ send_sequence r <= send_sequence r'.
Proof.
  intros Hr Hs. induction Hs as [r|r r1 r2 H1 _ IH]; [done|].
  destruct (send_sequence_mono _ _ Hr H1) as [Hr1 Hle].
  destruct (IH Hr1) as [H2 Hle']. split; [done|lia].
Qed.

(** The outbound key survives the staging of another key as long as the states
    at least as new as it, the staged one included, fit in the ring. *)
Lemma stage_keeps_send r k s ses v now e :
  ok r -> current_send r = Some e -> 1 <= k <= 7 -> k <> send_key_id r ->
  (length (filter (fun x => (send_sequence r <= sequence x)%Z /\ key_id x <> k) (receive r))
   < scan_size r)%nat ->
  current_send (stage r k s ses v now).2 = Some e.
Proof.
  intros Hr He Hk Hne Hroom.
  pose proof (ok_keys _ (stage_ok r k s ses v now Hr)) as Hnd.
  apply find_names_Some in He as (Hin & Hek & Hes). revert Hnd.
  unfold stage, validate_soft_reset_key_id. rewrite decide_True by done. simpl.
  set (x := mkKey k s ses v _). set (l := filter _ (receive r) ++ [x]).
  intros Hnd. unfold current_send. simpl. rewrite <- Hek, <- Hes.
  apply find_unique; [done|].
  assert (e ∈ sort_by_key sequence l) as Hl.
  { rewrite sort_by_key_perm. apply elem_of_app. left. apply list_elem_of_filter.
    split; [congruence|done]. }
  case_decide as Hlong; [|done].
  apply list_elem_of_split in Hl as (a & b & Hab). rewrite Hab, length_app in *.
  simpl in Hlong |- *.
  assert (length b < scan_size r)%nat as Hb; cycle 1.
  { rewrite drop_app_le by lia. apply elem_of_app. right. apply elem_of_cons. by left. }
  pose proof (sort_by_key_sorted sequence l) as Hsort. rewrite Hab in Hsort.
  apply (StronglySorted_drop _ (length a)) in Hsort. rewrite drop_app_length in Hsort.
  apply StronglySorted_inv in Hsort as [_ Hb]. unfold key_le in Hb. rewrite Hes in Hb.
  set (newer := fun y => (send_sequence r <= sequence y)%Z).
  assert (length (filter newer (sort_by_key sequence l)) = length (filter newer l)) as Hf
    by by rewrite sort_by_key_perm.
  rewrite Hab, filter_app, length_app in Hf.
  assert (filter newer (e :: b) = e :: b) as E.
  { assert (Forall newer (e :: b)) as Hall
      by (constructor; [subst newer; simpl; lia|exact Hb]).
    clear -Hall. induction Hall; [done|]. by rewrite filter_cons_True, IHHall. }
  rewrite E in Hf.
  subst l. rewrite filter_app, length_app, list_filter_filter in Hf.
  pose proof (length_filter newer [x]). simpl in *. subst newer. simpl in *. lia.
Qed.
End ring.

Arguments OpenVpnDataKeyRing : clear implicits.

(** ** Examples *)

Definition sample_ring : OpenVpnDataKeyRing unit nat :=
  (stage (new 0 () 100%nat) 1 1 () 101%nat 0).2.

Lemma with_limits_ok {S T} k (ses : S) (v : T) w n : ok (with_limits k ses v w n).
Proof.
  constructor; simpl; [lia|lia|apply NoDup_singleton|by repeat constructor|done].
Qed.

Lemma promote_hands_over_witness :
  let r' := (promote sample_ring 1 1 10).2 in
  (exists e, current_send r' = Some e /\ key_id e = 1 /\ sequence e = 1
             /\ expires_at e = None)
  /\ send_sequence sample_ring < send_sequence r'
  /\ (forall e, current_send sample_ring = Some e -> key_id e <> 1 ->
        find (names (key_id e) (sequence e)) (receive r')
        = Some (set_expiry (Some (10 + transition_window sample_ring)) e)).
Proof.
  intros r'. apply (promote_hands_over sample_ring 1 1 10).
  - apply stage_ok, with_limits_ok.
  - vm_compute. reflexivity.
  - vm_compute. reflexivity.
Defined.

Lemma ring_reachable_witness :
  let r' := (stage (promote sample_ring 1 1 10).2 2 2 () 102%nat 20).2 in
  send_sequence r' = 1 /\ ok r' /\ send_sequence sample_ring <= send_sequence r'.
Proof.
  intros r'. split; [vm_compute; reflexivity|].
  apply (ring_reachable sample_ring r').
  - apply stage_ok, with_limits_ok.
  - eapply rtc_l; [apply step_promote|]. apply rtc_once, step_stage.
Defined.

(** The limit does not spare the outbound key: three keys staged without a
    promotion evict it, and the ring is left without an outbound key. *)
Lemma staging_evicts_outbound_key :
  let r1 := sample_ring in
  let r2 := (stage r1 2 2 () 102%nat 0).2 in
  let r3 := (stage r2 3 3 () 103%nat 0).2 in
  is_Some (current_send r2) /\ current_send_key_id r3 = 0 /\ current_send r3 = None.
Proof. vm_compute. split_and!; eauto. Qed.

(** Staging a state under the outbound key's own id replaces that key. *)
Lemma staging_replaces_outbound_key :
  let r1 := (promote sample_ring 1 1 10).2 in
  let r2 := (stage r1 1 2 () 102%nat 20).2 in
  is_Some (current_send r1) /\ current_send r2 = None.
Proof. vm_compute. split_and!; eauto. Qed.

End KeyRing.
