(* ===== verification/OvpnSoftReset.v ===== *)
(** * Soft-reset coordination ([protocol/openvpn/soft_reset.rs])

    The bookkeeping of concurrent key renegotiations.  [iter] is the order in
    which the code visits the values of its [HashMap]; the sequence numbers of
    the states are distinct, so no result depends on it. *)

From stdpp Require Import base numbers list gmap relations sorting.
From Stdlib Require Import ZArith Lia.
From S2P Require Import Prelude OvpnSession OvpnKeyRing.

Local Open Scope Z_scope.

Inductive SoftResetStatus : Type :=
| Negotiating
| AwaitingData
| Active
| LameDuck
| Failed.

Global Instance SoftResetStatus_eq_dec : EqDecision SoftResetStatus.
Proof. solve_decision. Defined.

Inductive SoftResetStateError : Type :=
| Closed
| InvalidKeyId (key_id : Z)
| StaleState.

Module SoftReset.

Record SoftResetState : Type := mkState {
  key_id : Z;
  sequence : Z;
  initiator : bool;
  must_negotiate_by : Z;
  status : SoftResetStatus;
  expires_at : option Z;
  peer_data_confirmed : bool;
}.

Record BeginSoftReset : Type := mkBegin {
  b_key_id : Z;
  b_sequence : Z;
  b_created : bool;
}.

Record SoftResetCoordinator : Type := mkCoordinator {
  states : gmap Z SoftResetState;
  active_key_id : Z;
  last_sequence : Z;
  promoted_sequence : Z;
  handshake_window : Z;
  transition_window : Z;
  key_scan_size : nat;
  closed : bool;
}.

Definition with_limits (active handshake transition : Z) (scan : nat) :
    SoftResetCoordinator :=
  mkCoordinator ∅ active 0 0 handshake transition (Nat.max scan 1) false.

Definition new (active handshake : Z) : SoftResetCoordinator :=
  with_limits active handshake OPENVPN_TLS_TRANSITION_WINDOW
    OPENVPN_TLS_KEY_SCAN_SIZE.

(** Field assignments. *)
Definition set_states (c : SoftResetCoordinator) (m : gmap Z SoftResetState) :
    SoftResetCoordinator :=
  mkCoordinator m (active_key_id c) (last_sequence c) (promoted_sequence c)
    (handshake_window c) (transition_window c) (key_scan_size c) (closed c).

Definition set_status (st : SoftResetStatus) (x : option Z) (s : SoftResetState) :
    SoftResetState :=
  mkState (key_id s) (sequence s) (initiator s) (must_negotiate_by s) st x
    (peer_data_confirmed s).

Definition confirm (s : SoftResetState) : SoftResetState :=
  mkState (key_id s) (sequence s) (initiator s) (must_negotiate_by s) (status s)
    (expires_at s) true.

Definition pending_status (s : SoftResetState) : bool :=
  match status s with
  | Negotiating | AwaitingData => true
  | _ => false
  end.

Definition completed_status (s : SoftResetState) : bool :=
  match status s with
  | Active | LameDuck | AwaitingData => true
  | _ => false
  end.

Definition begin (c : SoftResetCoordinator) (k : Z) (initiator : bool) (now : Z) :
    result SoftResetStateError BeginSoftReset * SoftResetCoordinator :=
  if closed c then (Err Closed, c)
  else if decide (k = 0 \/ KEY_ID_MAX_VALUE < k) then (Err (InvalidKeyId k), c)
  else
    let create :=
      let sequence := wrap64 (last_sequence c + 1) in
      let s :=
        mkState k sequence initiator (now + handshake_window c) Negotiating None
          false in
      (Ok (mkBegin k sequence true),
       mkCoordinator (<[k := s]> (delete k (states c))) (active_key_id c) sequence
         (promoted_sequence c) (handshake_window c) (transition_window c)
         (key_scan_size c) (closed c)) in
    match states c !! k with
    | Some existing =>
        if pending_status existing || bool_decide (active_key_id c = k)
        then (Ok (mkBegin k (sequence existing) false), c)
        else create
    | None => create
    end.

Definition begin_remote (c : SoftResetCoordinator) (k now : Z) :=
  begin c k false now.

Definition matching_state (c : SoftResetCoordinator) (k s : Z) :
    result SoftResetStateError SoftResetState :=
  match states c !! k with
  | Some st => if decide (sequence st = s) then Ok st else Err StaleState
  | None => Err StaleState
  end.

Definition set_awaiting_data (c : SoftResetCoordinator) (k s now : Z) :
    result SoftResetStateError unit * SoftResetCoordinator :=
  match matching_state c k s with
  | Err e => (Err e, c)
  | Ok st =>
      (Ok (),
       set_states c
         (<[k := set_status AwaitingData (Some (now + transition_window c)) st]>
            (states c)))
  end.

Definition confirm_peer_data (c : SoftResetCoordinator) (k : Z) :
    bool * SoftResetCoordinator :=
  match states c !! k with
  | None => (false, c)
  | Some st =>
      (bool_decide (status st = AwaitingData),
       set_states c (<[k := confirm st]> (states c)))
  end.

Definition finish_failed (c : SoftResetCoordinator) (k s : Z) :
    result SoftResetStateError unit * SoftResetCoordinator :=
  match matching_state c k s with
  | Err e => (Err e, c)
  | Ok _ => (Ok (), set_states c (delete k (states c)))
  end.

Definition close (c : SoftResetCoordinator) : SoftResetCoordinator :=
  mkCoordinator ∅ (active_key_id c) (last_sequence c) (promoted_sequence c)
    (handshake_window c) (transition_window c) (key_scan_size c) true.

(** The retention test of [prune]. *)
Definition retained (now : Z) (s : SoftResetState) : Prop :=
  match status s with
  | LameDuck | AwaitingData =>
      match expires_at s with
      | Some expires => now < expires
      | None => False
      end
  | _ => True
  end.

Global Instance retained_dec now s : Decision (retained now s).
Proof.
  unfold retained. destruct (status s); try apply _;
    destruct (expires_at s); apply _.
Defined.

(** The derived order on [(sequence, key_id)] pairs. *)
Definition pair_le (x y : Z * Z) : Prop :=
  x.1 < y.1 \/ (x.1 = y.1 /\ x.2 <= y.2).

Global Instance pair_le_dec : RelDecision pair_le.
Proof. intros x y. unfold pair_le. apply _. Defined.

Section order.
Variable iter : gmap Z SoftResetState -> list SoftResetState.

(** [Iterator::max_by_key] on the sequence: the last of the largest. *)
Fixpoint max_by_sequence (l : list SoftResetState) : option SoftResetState :=
  match l with
  | [] => None
  | s :: l =>
      match max_by_sequence l with
      | Some s' => if decide (sequence s' < sequence s) then Some s else Some s'
      | None => Some s
      end
  end.

Definition begin_local (c : SoftResetCoordinator) (now : Z) :
    result SoftResetStateError BeginSoftReset * SoftResetCoordinator :=
  match max_by_sequence
          (filter (fun s => pending_status s = true) (iter (states c))) with
  | Some s => (Ok (mkBegin (key_id s) (sequence s) false), c)
  | None => begin c (next_key_id (active_key_id c)) true now
  end.

Definition prune (c : SoftResetCoordinator) (now : Z) : SoftResetCoordinator :=
  let m := filter (fun e : Z * SoftResetState => retained now e.2) (states c) in
  let completed :=
    merge_sort pair_le
      ((fun s => (sequence s, key_id s))
         <$> filter (fun s => completed_status s = true) (iter m)) in
  let remove_count := (length completed - key_scan_size c)%nat in
  set_states c (foldl (fun m e => delete e.2 m) m (take remove_count completed)).

Definition finish_success (c : SoftResetCoordinator) (k s now : Z) :
    result SoftResetStateError bool * SoftResetCoordinator :=
  match matching_state c k s with
  | Err e => (Err e, c)
  | Ok st =>
      let expiry := now + transition_window c in
      if decide (s <= promoted_sequence c) then
        (Ok false,
         prune (set_states c (<[k := set_status LameDuck (Some expiry) st]> (states c)))
           now)
      else
        let m :=
          (fun x => if decide (status x = Active)
                    then set_status LameDuck (Some expiry) x else x)
            <$> states c in
        let m := alter (set_status Active None) k m in
        (Ok true,
         prune (mkCoordinator m k (last_sequence c) s (handshake_window c)
                  (transition_window c) (key_scan_size c) (closed c)) now)
  end.

(** ** Invariant *)

Record ok (c : SoftResetCoordinator) : Prop := mkOk {
  ok_active_key : 0 <= active_key_id c;
  ok_promoted : 0 <= promoted_sequence c <= last_sequence c;
  ok_key : forall k s, states c !! k = Some s ->
    key_id s = k /\ 1 <= k <= KEY_ID_MAX_VALUE /\ 0 < sequence s <= last_sequence c;
  ok_distinct : forall k k' s s', states c !! k = Some s -> states c !! k' = Some s' ->
    sequence s = sequence s' -> k = k';
  ok_active : forall k s, states c !! k = Some s -> status s = Active ->
    k = active_key_id c /\ sequence s = promoted_sequence c;
}.

(** Dropping states keeps the invariant. *)
Lemma submap_ok c m : ok c -> m ⊆ states c -> ok (set_states c m).
Proof.
  intros [H0 H1 H2 H3 H4] Hm.
  assert (forall k s, m !! k = Some s -> states c !! k = Some s) as Hsub
    by (intros; by eapply lookup_weaken).
  constructor; simpl; [done|done|..]; eauto.
Qed.

(** Updating a state without making it active keeps the invariant. *)
Lemma update_ok c k st st' :
  ok c -> states c !! k = Some st ->
  key_id st' = key_id st -> sequence st' = sequence st ->
  (status st' = Active -> status st = Active) ->
  ok (set_states c (<[k := st']> (states c))).
Proof.
  intros [H0 H1 H2 H3 H4] Hst Hk Hs Ha.
  assert (forall j s, <[k := st']> (states c) !! j = Some s ->
    exists s0, states c !! j = Some s0 /\ key_id s = key_id s0 /\ sequence s = sequence s0
    /\ (status s = Active -> status s0 = Active)) as Hl.
  { intros j s. rewrite lookup_insert. case_decide as Hj; [|by eauto].
    intros [= <-]. subst j. by exists st. }
  constructor; simpl; [done|done|..].
  - intros j s (s0 & Hs0 & -> & -> & _)%Hl. by apply H2.
  - intros j j' s s' (s0 & Hs0 & _ & -> & _)%Hl (s1 & Hs1 & _ & -> & _)%Hl He.
    by eapply H3.
  - intros j s (s0 & Hs0 & _ & -> & Hact)%Hl Hst'. by apply H4; auto.
Qed.

Lemma prune_subseteq c now : states (prune c now) ⊆ states c.
Proof.
  unfold prune. simpl. set (l := take _ _). clearbody l.
  transitivity (filter (fun e : Z * SoftResetState => retained now e.2) (states c)).
  - generalize (filter (fun e : Z * SoftResetState => retained now e.2) (states c)).
    induction l as [|e l IH]; intros m; simpl; [done|].
    rewrite IH. apply delete_subseteq.
  - apply map_filter_subseteq.
Qed.

Lemma coordinator_prune_ok c now : ok c -> ok (prune c now).
Proof. intros Hc. apply submap_ok; [done|apply prune_subseteq]. Qed.

Lemma begin_ok c k b now :
  ok c -> 0 <= k -> last_sequence c < U64_MAX -> ok (begin c k b now).2.
Proof.
  intros Hc Hk Hu. unfold begin. destruct (closed c); [done|].
  case_decide as Hr; [done|].
  assert (wrap64 (last_sequence c + 1) = last_sequence c + 1) as ->.
  { unfold wrap64. pose proof (ok_promoted _ Hc). apply Z.mod_small.
    unfold U64_MAX in *. lia. }
  set (s := mkState _ _ _ _ _ _ _). set (create := (_, mkCoordinator _ _ _ _ _ _ _ _)).
  assert (ok create.2) as Hcreate; [|repeat case_match; done].
  destruct Hc as [H0 H1 H2 H3 H4].
  assert (forall j x, <[k := s]> (delete k (states c)) !! j = Some x ->
    (j = k /\ x = s) \/ (j <> k /\ states c !! j = Some x)) as Hl.
  { intros j x. rewrite lookup_insert. case_decide as E; [intros [= <-]; by left|].
    intros [_ ?]%lookup_delete_Some. right. by split. }
  constructor; simpl; [done|lia|..].
  - intros j x [[-> ->]|[_ Hx]]%Hl; simpl; [lia|]. apply H2 in Hx. lia.
  - intros j j' x x' [[-> ->]|[Hj Hx]]%Hl [[-> ->]|[Hj' Hx']]%Hl He; simpl in He; try done.
    + apply H2 in Hx'. lia.
    + apply H2 in Hx. lia.
    + by eapply H3.
  - intros j x [[-> ->]|[_ Hx]]%Hl Ha; [done|]. by apply H4.
Qed.

Lemma matching_state_Ok c k s st :
  matching_state c k s = Ok st -> states c !! k = Some st /\ sequence st = s.
Proof.
  unfold matching_state. destruct (states c !! k) as [x|]; [|done].
  case_decide; [|done]. by intros <-%Ok_inj.
Qed.

(** Promoting a state demotes the one that was active. *)
Lemma promote_states c k s expiry st j x :
  ok c -> states c !! k = Some st -> sequence st = s ->
  alter (set_status Active None) k
    ((fun x => if decide (status x = Active)
               then set_status LameDuck (Some expiry) x else x) <$> states c) !! j
  = Some x ->
  exists x0, states c !! j = Some x0 /\ key_id x = key_id x0
  /\ sequence x = sequence x0 /\ (status x = Active -> j = k).
Proof.
  intros Hc Hst Hs. destruct (decide (j = k)) as [->|Hne].
  - rewrite lookup_alter_eq, lookup_fmap, Hst. simpl. intros [= <-]. exists st.
    by case_decide.
  - rewrite lookup_alter_ne, lookup_fmap by done.
    intros (x0 & Hx0 & ->)%fmap_Some. exists x0. by case_decide.
Qed.

Lemma finish_success_ok c k s now : ok c -> ok (finish_success c k s now).2.
Proof.
  intros Hc. unfold finish_success.
  destruct (matching_state c k s) as [st|e] eqn:Hm; [|done].
  apply matching_state_Ok in Hm as [Hst Hs]. case_decide as Hle.
  - apply coordinator_prune_ok. by apply (update_ok c k st).
  - apply coordinator_prune_ok. set (expiry := now + transition_window c).
    pose proof (promote_states c k s expiry st) as Hp.
    set (m := alter _ k _) in *.
    destruct (ok_key _ Hc _ _ Hst) as (_ & Hk & Hseq). pose proof (ok_promoted _ Hc).
    constructor; simpl; [lia|lia|..].
    + intros j x (x0 & Hx0 & -> & -> & _)%Hp; try done. by apply Hc.
    + intros j j' x x' (x0 & Hx0 & _ & -> & _)%Hp (x1 & Hx1 & _ & -> & _)%Hp He; try done.
      by eapply ok_distinct.
    + intros j x (x0 & Hx0 & _ & -> & Ha)%Hp Hact; try done.
      rewrite (Ha Hact) in *. split; [done|]. congruence.
Qed.

(** The operations of a coordinator, as transitions; key ids are bytes. *)
Inductive step : SoftResetCoordinator -> SoftResetCoordinator -> Prop :=
| step_begin_local c now :
    last_sequence c < U64_MAX -> step c (begin_local c now).2
| step_begin_remote c k now :
    is_u8 k -> last_sequence c < U64_MAX -> step c (begin_remote c k now).2
| step_awaiting c k s now : step c (set_awaiting_data c k s now).2
| step_confirm c k : step c (confirm_peer_data c k).2
| step_success c k s now : step c (finish_success c k s now).2
| step_failed c k s : step c (finish_failed c k s).2
| step_prune c now : step c (prune c now)
| step_close c : step c (close c).

Lemma coordinator_step_ok c c' :
  ok c -> step c c' -> ok c' /\ promoted_sequence c <= promoted_sequence c'.
Proof.
  intros Hc Hs.
  destruct Hs as [c now Hu|c k now Hk Hu|c k s now|c k|c k s now|c k s|c now|c].
  - unfold begin_local. destruct (max_by_sequence _); [by split|].
    pose proof (ok_active_key _ Hc) as Ha.
    pose proof (Session.next_key_id_range (active_key_id c) Ha). split.
    + apply begin_ok; [done|lia|done].
    + unfold begin. by repeat case_match.
  - split; [apply begin_ok; [done|ilia|done]|].
    unfold begin_remote, begin. by repeat case_match.
  - unfold set_awaiting_data. destruct (matching_state c k s) as [st|] eqn:Hm; [|by split].
    apply matching_state_Ok in Hm as [Hst _]. split; [|done]. by apply (update_ok c k st).
  - unfold confirm_peer_data. destruct (states c !! k) as [st|] eqn:Hst; [|by split].
    split; [|done]. by apply (update_ok c k st).
  - split; [by apply finish_success_ok|]. unfold finish_success.
    destruct (matching_state c k s); [|done]. case_decide; simpl; lia.
  - unfold finish_failed. destruct (matching_state c k s); [|by split].
    split; [|done]. apply submap_ok; [done|apply delete_subseteq].
  - by split; [apply coordinator_prune_ok|].
  - split; [|done]. destruct Hc as [H0 H1 H2 H3 H4].
    by constructor; simpl; try done; intros; rewrite lookup_empty in *.
Qed.

(** Over any interleaving of local and remote resets, completions, failures
    and expirations, the states keep valid and distinct key ids and sequence
    numbers, at most the newest promoted state is active, and the promoted
    sequence never decreases: a late success cannot roll outbound traffic
    back. *)
Theorem coordinator_reachable (c c' : SoftResetCoordinator) :
  ok c -> rtc step c c' ->
  ok c' /\ promoted_sequence c <= promoted_sequence c'.
Proof.
  intros Hc Hs. induction Hs as [c|c c1 c2 H1 _ IH]; [done|].
  destruct (coordinator_step_ok _ _ Hc H1) as [Hc1 Hle].
  destruct (IH Hc1) as [H2 Hle']. split; [done|lia].
Qed.

Hypothesis iter_perm : forall m, iter m ≡ₚ (map_to_list m).*2.

Lemma max_by_sequence_spec l s :
  max_by_sequence l = Some s -> s ∈ l /\ Forall (fun x => sequence x <= sequence s) l.
Proof.
  revert s. induction l as [|x l IH]; intros s; simpl; [done|].
  destruct (max_by_sequence l) as [y|] eqn:E.
  - destruct (IH y eq_refl) as [Hin Hall]. case_decide; intros [= <-].
    + split; [apply elem_of_cons; auto|]. constructor; [lia|].
      eapply Forall_impl; [exact Hall|]. simpl. intros. lia.
    + split; [apply elem_of_cons; auto|]. constructor; [lia|done].
  - intros [= <-]. destruct l as [|z l]; [split; [apply elem_of_cons; auto|repeat constructor; lia]|].
    simpl in E. destruct (max_by_sequence l); [case_decide|]; done.
Qed.

(** The two ends agree when they start a reset at the same time: whatever
    state [begin_local] announces, new or joined, a remote reset for the same
    key id joins it, with the same sequence and without starting another
    negotiation. *)
Theorem simultaneous_reset (c : SoftResetCoordinator) (now now' : Z)
    (b : BeginSoftReset) (c' : SoftResetCoordinator) :
  ok c -> last_sequence c < U64_MAX -> closed c = false ->
  begin_local c now = (Ok b, c') ->
  begin_remote c' (b_key_id b) now'
  = (Ok (mkBegin (b_key_id b) (b_sequence b) false), c').
Proof.
  intros Hc Hu Hcl. unfold begin_local. destruct (max_by_sequence _) as [s|] eqn:Hmax.
  - intros [= <- <-]. apply max_by_sequence_spec in Hmax as [Hin _].
    apply list_elem_of_filter in Hin as [Hp Hin].
    rewrite iter_perm in Hin. apply list_elem_of_fmap in Hin as ([k s'] & Heq & Hin).
    simpl in Heq. subst s'. apply elem_of_map_to_list in Hin.
    destruct (ok_key _ Hc _ _ Hin) as (Hk & Hr & _). simpl.
    unfold begin_remote, begin. rewrite Hcl, Hk.
    rewrite decide_False by (unfold KEY_ID_MAX_VALUE in *; lia).
    by rewrite Hin, Hp.
  - set (k := next_key_id (active_key_id c)).
    assert (1 <= k <= 7) as Hk by (apply Session.next_key_id_range, ok_active_key; done).
    intros Hb. assert (b_key_id b = k /\ closed c' = false
      /\ exists st, states c' !! k = Some st /\ sequence st = b_sequence b
         /\ (pending_status st || bool_decide (active_key_id c' = k) = true)) as Hst.
    { revert Hb. unfold begin. rewrite Hcl.
      rewrite decide_False by (unfold KEY_ID_MAX_VALUE; lia).
      assert (forall r m, (Ok (mkBegin k r true), mkCoordinator (<[k := m]> (delete k (states c)))
          (active_key_id c) r (promoted_sequence c) (handshake_window c)
          (transition_window c) (key_scan_size c) false)
        = (@Ok SoftResetStateError _ b, c') -> sequence m = r -> pending_status m = true ->
        b_key_id b = k /\ closed c' = false
        /\ exists st, states c' !! k = Some st /\ sequence st = b_sequence b
         /\ (pending_status st || bool_decide (active_key_id c' = k) = true)) as Hnew.
      { intros r m [= <- <-] Hr Hp. split_and!; [done|done|]. exists m. simpl.
        rewrite lookup_insert_eq, Hp. by split_and!. }
      destruct (states c !! k) as [st|] eqn:Hs.
      - destruct (pending_status st || _) eqn:E.
        + intros [= <- <-]. split_and!; [done|done|]. by exists st.
        + intros Hb. eapply Hnew; [exact Hb|done|done].
      - intros Hb. eapply Hnew; [exact Hb|done|done]. }
    destruct Hst as (-> & Hcl' & st & Hs & Hseq & Hp).
    unfold begin_remote, begin. rewrite Hcl'.
    rewrite decide_False by (unfold KEY_ID_MAX_VALUE; lia).
    by rewrite Hs, Hp, Hseq.
Qed.
End order.

(** ** Examples *)

Definition values (m : gmap Z SoftResetState) : list SoftResetState :=
  (map_to_list m).*2.

Lemma coordinator_with_limits_ok a h t n : 0 <= a -> ok (with_limits a h t n).
Proof.
  intros Ha. by constructor; simpl; try lia; intros; rewrite lookup_empty in *.
Qed.

(** A local reset and a later remote one complete in the wrong order: the older
    one does not become active. *)
Lemma coordinator_reachable_witness :
  let c0 := new 0 (from_secs 60) in
  let c1 := (begin_local values c0 0).2 in
  let c2 := (begin_remote c1 2 1).2 in
  let c3 := (finish_success values c2 2 2 5).2 in
  let c4 := (finish_success values c3 1 1 6).2 in
  active_key_id c4 = 2 /\ ok c4 /\ promoted_sequence c0 <= promoted_sequence c4.
Proof.
  intros c0 c1 c2 c3 c4. split; [vm_compute; reflexivity|].
  apply (coordinator_reachable values c0 c4).
  - apply coordinator_with_limits_ok. lia.
  - eapply rtc_l; [apply (step_begin_local values c0 0); vm_compute; reflexivity|].
    eapply rtc_l; [apply (step_begin_remote values c1 2 1); [ilia|vm_compute; reflexivity]|].
    eapply rtc_l; [apply (step_success values c2 2 2 5)|].
    apply rtc_once, (step_success values c3 1 1 6).
Defined.

Lemma simultaneous_reset_witness :
  let c0 := new 7 (from_secs 60) in
  match begin_local values c0 0 with
  | (Ok b, c1) =>
      b_key_id b = 1
      /\ begin_remote c1 (b_key_id b) 3
         = (Ok (mkBegin (b_key_id b) (b_sequence b) false), c1)
  | (Err _, _) => False
  end.
Proof.
  intros c0. destruct (begin_local values c0 0) as [[b|e] c1] eqn:E;
    [|vm_compute in E; discriminate].
  split.
  - vm_compute in E. injection E as <- _. reflexivity.
  - apply (simultaneous_reset values (fun m => reflexivity _) c0 0 3 b c1).
    + apply coordinator_with_limits_ok. lia.
    + vm_compute. reflexivity.
    + reflexivity.
    + exact E.
Defined.

End SoftReset.
