(* ===== verification/OvpnIpPool.v ===== *)
(** * The server's address pool ([protocol/openvpn/ip_pool.rs], and the prefix
    type of [route.rs])

    Addresses are integers of 32 or 128 bits.  The two address families keep
    the same four tables, so one record [Book] stands for both; the functions
    of the code are its instances.  [now] is the instant of a release. *)

From stdpp Require Import base numbers list list_numbers gmap strings relations.
From Stdlib Require Import ZArith Lia.
From S2P Require Import Prelude.

Local Open Scope Z_scope.

Inductive Topology : Type :=
| Subnet
| P2p
| Net30.

Global Instance Topology_eq_dec : EqDecision Topology.
Proof. solve_decision. Defined.

Definition IP_POOL_MAXIMUM_SIZE : Z := 65536.

Inductive IpPoolError : Type :=
| UnsupportedTopology (name : string)
| InvalidIpv4Prefix (len : Z)
| NoAllocatableIpv4
| Ipv4NotConfigured
| Ipv6NotConfigured
| Exhausted
| Ipv4ServerOutsidePool (a : Z)
| Ipv4ServerNotUsable (a : Z)
| Ipv4ServerAfterAllocation
| Ipv6ServerOutsidePool (a : Z).

Module IpPrefix.

Record OpenVpnIpPrefix : Type := mkPrefix {
  address : IpAddr;
  prefix_len : Z;
}.

(** [u32::MAX << (32 - len)] and its 128-bit counterpart. *)
Definition mask (width max len : Z) : Z :=
  if decide (len = 0) then 0 else Z.land (Z.shiftl max (width - len)) max.

Definition masked (p : OpenVpnIpPrefix) : OpenVpnIpPrefix :=
  mkPrefix
    (match address p with
     | IpV4 bits => IpV4 (Z.land bits (mask 32 U32_MAX (prefix_len p)))
     | IpV6 bits => IpV6 (Z.land bits (mask 128 U128_MAX (prefix_len p)))
     end) (prefix_len p).

Definition prefix_contains (p : OpenVpnIpPrefix) (a : IpAddr) : bool :=
  match address (masked p), a with
  | IpV4 network, IpV4 a =>
      bool_decide (Z.land a (mask 32 U32_MAX (prefix_len p)) = network)
  | IpV6 network, IpV6 a =>
      bool_decide (Z.land a (mask 128 U128_MAX (prefix_len p)) = network)
  | _, _ => false
  end.

Definition last_ipv4_in_prefix (p : OpenVpnIpPrefix) : option Z :=
  match address (masked p) with
  | IpV4 network =>
      let host_bits := 32 - prefix_len p in
      Some (Z.lor network
              (if decide (host_bits = 32) then U32_MAX
               else Z.shiftl 1 host_bits - 1))
  | IpV6 _ => None
  end.

Definition add_ipv4 (a offset : Z) : option Z :=
  let value := a + offset in
  if decide (0 <= value <= U32_MAX) then Some value else None.

Definition next_ipv6 (a : Z) : option Z :=
  if decide (a + 1 <= U128_MAX) then Some (a + 1) else None.

End IpPrefix.

Module IpPool.
Import IpPrefix.

(** ** Address tables *)

Record Book : Type := mkBook {
  used : gset Z;
  identity_of : gmap Z string;
  address_of : gmap string Z;
  released : gmap Z Z;
}.

Definition empty_book : Book := mkBook ∅ ∅ ∅ ∅.

(** The first half of [commit_ipv4_lease] and [commit_ipv6_address]: the
    address leaves the identity that held it before. *)
Definition forget_previous (b : Book) (a : Z) (identity : string) : gmap string Z :=
  match identity_of b !! a with
  | Some previous =>
      if decide (previous <> identity /\ address_of b !! previous = Some a)
      then delete previous (address_of b) else address_of b
  | None => address_of b
  end.

Definition commit (b : Book) (a : Z) (identity : string) : Book :=
  let address_of' := forget_previous b a identity in
  let released' := delete a (released b) in
  if decide (identity = EmptyString) then
    mkBook ({[a]} ∪ used b) (delete a (identity_of b)) address_of' released'
  else
    let '(identity_of', released') :=
      match address_of' !! identity with
      | Some previous =>
          if decide (previous <> a)
          then (delete previous (identity_of b), delete previous released')
          else (identity_of b, released')
      | None => (identity_of b, released')
      end in
    mkBook ({[a]} ∪ used b) (<[a := identity]> identity_of')
      (<[identity := a]> address_of') released'.

(** One family of [release]. *)
Definition release_book (b : Book) (a now : Z) : Book :=
  mkBook (used b ∖ {[a]}) (identity_of b) (address_of b)
    (match identity_of b !! a with
     | Some identity =>
         if decide (identity = EmptyString) then delete a (released b)
         else <[a := now]> (released b)
     | None => delete a (released b)
     end).

Definition release_is_before (l r : option Z) : bool :=
  match l, r with
  | None, Some _ => true
  | Some l, Some r => bool_decide (l < r)
  | _, _ => false
  end.

(** The selection that [find_available_ipv4_lease] and
    [find_available_ipv6_address] make among the visited candidates: the first
    free one when there is no identity, otherwise the first that was never
    released, otherwise the one released longest ago.  [skip] is the extra
    condition of the second. *)
Fixpoint select (b : Book) (identity : string) (skip : Z -> bool)
    (selected : option (Z * option Z)) (candidates : list Z) : option Z :=
  match candidates with
  | [] => fst <$> selected
  | a :: candidates =>
      if decide (a ∈ used b) then select b identity skip selected candidates
      else if decide (identity = EmptyString) then Some a
      else if skip a then select b identity skip selected candidates
      else
        let rel := released b !! a in
        let selected' :=
          match selected with
          | None => Some (a, rel)
          | Some (_, current) =>
              if release_is_before rel current then Some (a, rel) else selected
          end in
        match rel with
        | Some _ => select b identity skip selected' candidates
        | None => fst <$> selected'
        end
  end.

(** ** The pool *)

Record Ipv4PoolLease : Type := mkLease {
  client : Z;
  peer : option Z;
}.

Record IpPool : Type := mkPool {
  ipv4_prefix : option OpenVpnIpPrefix;
  ipv4_topology : Topology;
  ipv4_server : option Z;
  ipv4_start : option Z;
  ipv4_end : option Z;
  ipv6_prefix : option OpenVpnIpPrefix;
  ipv4 : Book;
  ipv6_server : option Z;
  ipv6 : Book;
}.

Definition set_ipv4 (p : IpPool) (b : Book) : IpPool :=
  mkPool (ipv4_prefix p) (ipv4_topology p) (ipv4_server p) (ipv4_start p)
    (ipv4_end p) (ipv6_prefix p) b (ipv6_server p) (ipv6 p).
Definition set_ipv6 (p : IpPool) (server : option Z) (b : Book) : IpPool :=
  mkPool (ipv4_prefix p) (ipv4_topology p) (ipv4_server p) (ipv4_start p)
    (ipv4_end p) (ipv6_prefix p) (ipv4 p) server b.

Definition resolve_ipv4_pool_topology (topology : string) :
    result IpPoolError Topology :=
  if decide (topology = EmptyString) then Ok Net30
  else if decide (topology = "subnet"%string) then Ok Subnet
  else if decide (topology = "p2p"%string) then Ok P2p
  else if decide (topology = "net30"%string) then Ok Net30
  else Err (UnsupportedTopology topology).

Definition configure_ipv4 (p : IpPool) (prefix : OpenVpnIpPrefix) :
    result IpPoolError IpPool :=
  if decide (prefix_len prefix < 16 \/ 29 < prefix_len prefix)
  then Err (InvalidIpv4Prefix (prefix_len prefix))
  else
    match address prefix, last_ipv4_in_prefix prefix with
    | IpV4 network, Some broadcast =>
        let '(start, end_) :=
          match ipv4_topology p with
          | Subnet => (add_ipv4 network 2, add_ipv4 broadcast (-1))
          | P2p | Net30 =>
              (add_ipv4 network 4,
               add_ipv4 broadcast (if decide (prefix_len prefix = 29) then 0 else -4))
          end in
        let p :=
          mkPool (Some prefix) (ipv4_topology p) (add_ipv4 network 1) start end_
            (ipv6_prefix p) (ipv4 p) (ipv6_server p) (ipv6 p) in
        match start, end_ with
        | Some s, Some e => if decide (e < s) then Err NoAllocatableIpv4 else Ok p
        | _, _ => Err NoAllocatableIpv4
        end
    | _, _ => Ok p
    end.

Definition is_pool (v4 : bool) (max : Z) (p : OpenVpnIpPrefix) : Prop :=
  is_ipv4 (address p) = v4 /\ prefix_len p <= max.

Global Instance is_pool_dec v4 max p : Decision (is_pool v4 max p).
Proof. unfold is_pool. apply _. Defined.

Definition new (address_pools : list OpenVpnIpPrefix) (topology : string) :
    result IpPoolError IpPool :=
  topology ← resolve_ipv4_pool_topology topology;
  let pool :=
    mkPool None topology None None None None empty_book None empty_book in
  pool ←
    match list_find (is_pool true 32) address_pools with
    | Some (_, prefix) => configure_ipv4 pool (masked prefix)
    | None => Ok pool
    end;
  match list_find (is_pool false 128) address_pools with
  | Some (_, prefix) =>
      let prefix := masked prefix in
      let server :=
        match address prefix with IpV6 a => next_ipv6 a | IpV4 _ => None end in
      let b :=
        match server with
        | Some s => mkBook {[s]} ∅ ∅ ∅
        | None => empty_book
        end in
      Ok (mkPool (ipv4_prefix pool) (ipv4_topology pool) (ipv4_server pool)
            (ipv4_start pool) (ipv4_end pool) (Some prefix) (ipv4 pool) server b)
  | None => Ok pool
  end.

Definition has_ipv4 (p : IpPool) : bool := bool_decide (is_Some (ipv4_prefix p)).
Definition has_ipv6 (p : IpPool) : bool := bool_decide (is_Some (ipv6_prefix p)).

Definition set_server_ipv4 (p : IpPool) (a : option Z) :
    result IpPoolError IpPool :=
  match a with
  | None => Ok p
  | Some a =>
      match ipv4_prefix p with
      | None => Err (Ipv4ServerOutsidePool a)
      | Some prefix =>
          if negb (prefix_contains prefix (IpV4 a))
          then Err (Ipv4ServerOutsidePool a)
          else if decide (address prefix = IpV4 a
                          \/ last_ipv4_in_prefix prefix = Some a)
          then Err (Ipv4ServerNotUsable a)
          else if decide (used (ipv4 p) <> ∅) then Err Ipv4ServerAfterAllocation
          else
            Ok (mkPool (ipv4_prefix p) (ipv4_topology p) (Some a) (ipv4_start p)
                  (ipv4_end p) (ipv6_prefix p) (ipv4 p) (ipv6_server p) (ipv6 p))
      end
  end.

Definition set_server_ipv6 (p : IpPool) (a : option Z) :
    result IpPoolError IpPool :=
  match a with
  | None => Ok p
  | Some a =>
      match ipv6_prefix p with
      | None => Err (Ipv6ServerOutsidePool a)
      | Some prefix =>
          if negb (prefix_contains prefix (IpV6 a))
          then Err (Ipv6ServerOutsidePool a)
          else
            let b := ipv6 p in
            let u :=
              match ipv6_server p with
              | Some previous => used b ∖ {[previous]}
              | None => used b
              end in
            Ok (set_ipv6 p (Some a)
                  (mkBook ({[a]} ∪ u) (identity_of b) (address_of b) (released b)))
      end
  end.

(** [ipv4_lease]. *)
Definition ipv4_lease (p : IpPool) (a : Z) : Ipv4PoolLease :=
  mkLease a
    (match ipv4_topology p with
     | P2p => ipv4_server p
     | Net30 => add_ipv4 a (-1)
     | Subnet => None
     end).

(** The two loops of [visit_ipv4_leases]; the client addresses they visit.
    Every iteration moves up by one or four, so the length of the range is
    enough fuel. *)
Fixpoint visit_hosts (fuel : nat) (server : option Z) (end_ : Z)
    (current : option Z) : list Z :=
  match fuel, current with
  | S fuel, Some c =>
      if decide (end_ < c) then []
      else
        let rest := visit_hosts fuel server end_ (add_ipv4 c 1) in
        if decide (server = Some c) then rest else c :: rest
  | _, _ => []
  end.

Fixpoint visit_blocks (fuel : nat) (server : option Z) (end_ : Z)
    (current : option Z) : list Z :=
  match fuel, current with
  | S fuel, Some block =>
      if decide (end_ < block) then []
      else
        match add_ipv4 block 1, add_ipv4 block 2 with
        | Some peer, Some c =>
            if decide (end_ < c) then []
            else
              let rest := visit_blocks fuel server end_ (add_ipv4 block 4) in
              if decide (server = Some peer \/ server = Some c) then rest
              else c :: rest
        | _, _ => []
        end
  | _, _ => []
  end.

Definition ipv4_candidates (p : IpPool) : list Z :=
  match ipv4_start p, ipv4_end p with
  | Some start, Some end_ =>
      let fuel := Z.to_nat (end_ - start + 2) in
      match ipv4_topology p with
      | Subnet | P2p => visit_hosts fuel (ipv4_server p) end_ (Some start)
      | Net30 => visit_blocks fuel (ipv4_server p) end_ (Some start)
      end
  | _, _ => []
  end.

Definition find_available_ipv4_lease (p : IpPool) (identity : string) :
    option Ipv4PoolLease :=
  ipv4_lease p
    <$> select (ipv4 p) identity (fun _ => false) None (ipv4_candidates p).

Definition allocate_ipv4_for_identity (p : IpPool) (identity : string) :
    result IpPoolError Ipv4PoolLease * IpPool :=
  if negb (has_ipv4 p) then (Err Ipv4NotConfigured, p)
  else
    let lease :=
      match address_of (ipv4 p) !! identity with
      | Some previous =>
          if decide (identity <> EmptyString /\ previous ∉ used (ipv4 p))
          then Some (ipv4_lease p previous)
          else find_available_ipv4_lease p identity
      | None => find_available_ipv4_lease p identity
      end in
    match lease with
    | Some lease =>
        (Ok lease, set_ipv4 p (commit (ipv4 p) (client lease) identity))
    | None => (Err Exhausted, p)
    end.

Definition ipv6_contains (p : IpPool) (a : Z) : bool :=
  match ipv6_prefix p with
  | Some prefix => prefix_contains prefix (IpV6 a)
  | None => false
  end.

(** The addresses that the loop of [find_available_ipv6_address] visits: the
    server's address is skipped without being counted. *)
Fixpoint visit_ipv6 (fuel : nat) (p : IpPool) (visited : Z)
    (current : option Z) : list Z :=
  match fuel, current with
  | S fuel, Some a =>
      if ipv6_contains p a && bool_decide (visited < IP_POOL_MAXIMUM_SIZE)
      then
        if decide (ipv6_server p = Some a)
        then visit_ipv6 fuel p visited (next_ipv6 a)
        else a :: visit_ipv6 fuel p (visited + 1) (next_ipv6 a)
      else []
  | _, _ => []
  end.

Definition ipv6_candidates (p : IpPool) : list Z :=
  match ipv6_prefix p with
  | Some prefix =>
      match address prefix with
      | IpV6 network =>
          visit_ipv6 (Z.to_nat (IP_POOL_MAXIMUM_SIZE + 2)) p 0 (next_ipv6 network)
      | IpV4 _ => []
      end
  | None => []
  end.

Definition find_available_ipv6_address (p : IpPool) (identity : string) :
    option Z :=
  select (ipv6 p) identity
    (fun a => bool_decide (identity_of (ipv6 p) !! a = None)
              && bool_decide (IP_POOL_MAXIMUM_SIZE
                              <= Z.of_nat (size (address_of (ipv6 p)))))
    None (ipv6_candidates p).

Definition allocate_ipv6_for_identity (p : IpPool) (identity : string) :
    result IpPoolError Z * IpPool :=
  if negb (has_ipv6 p) then (Err Ipv6NotConfigured, p)
  else
    let address :=
      match address_of (ipv6 p) !! identity with
      | Some previous =>
          if decide (identity <> EmptyString /\ ipv6_contains p previous = true
                     /\ ipv6_server p <> Some previous
                     /\ previous ∉ used (ipv6 p))
          then Some previous
          else find_available_ipv6_address p identity
      | None => find_available_ipv6_address p identity
      end in
    match address with
    | Some a =>
        (Ok a, set_ipv6 p (ipv6_server p) (commit (ipv6 p) a identity))
    | None => (Err Exhausted, p)
    end.

Definition release (p : IpPool) (a : IpAddr) (now : Z) : IpPool :=
  match a with
  | IpV4 a => set_ipv4 p (release_book (ipv4 p) a now)
  | IpV6 a => set_ipv6 p (ipv6_server p) (release_book (ipv6 p) a now)
  end.

(** The pool that [OpenVpnServer] builds from its options
    ([server_connector.rs]): the configured prefixes name both the ranges and
    the server's own addresses. *)
Definition first_address (v4 : bool) (pools : list OpenVpnIpPrefix) : option Z :=
  match list_find (fun p => is_ipv4 (address p) = v4) pools with
  | Some (_, p) => match address p with IpV4 a | IpV6 a => Some a end
  | None => None
  end.

Definition server_pool (pools : list OpenVpnIpPrefix) (topology : string) :
    result IpPoolError IpPool :=
  let topology :=
    if decide (topology = EmptyString) then "subnet"%string else topology in
  pool ← new pools topology;
  pool ← set_server_ipv4 pool (first_address true pools);
  set_server_ipv6 pool (first_address false pools).

(** The life of the pool: clients come and go, and [held] lists the addresses
    of the leases that are alive ([OpenVpnServerLease]; dropping one releases
    its addresses). *)
Inductive step : IpPool * list IpAddr -> IpPool * list IpAddr -> Prop :=
| step_ipv4 p held identity lease p' :
    allocate_ipv4_for_identity p identity = (Ok lease, p') ->
    step (p, held) (p', IpV4 (client lease) :: held)
| step_ipv6 p held identity a p' :
    allocate_ipv6_for_identity p identity = (Ok a, p') ->
    step (p, held) (p', IpV6 a :: held)
| step_refused_ipv4 p held identity e p' :
    allocate_ipv4_for_identity p identity = (Err e, p') ->
    step (p, held) (p', held)
| step_refused_ipv6 p held identity e p' :
    allocate_ipv6_for_identity p identity = (Err e, p') ->
    step (p, held) (p', held)
| step_release p held a now :
    a ∈ held -> step (p, held) (release p a now, filter (fun x => x <> a) held).

(** ** Selection *)

(** [l] was released no later than [r]; an address that never was comes first. *)
Definition rel_le (l r : option Z) : Prop :=
  match l, r with
  | None, _ => True
  | Some _, None => False
  | Some l, Some r => l <= r
  end.

Lemma rel_le_trans x y z : rel_le x y -> rel_le y z -> rel_le x z.
Proof. destruct x, y, z; simpl; intuition lia. Qed.

Lemma rel_le_refl x : rel_le x x.
Proof. destruct x; simpl; [lia|done]. Qed.

Lemma release_is_before_le l r : release_is_before l r = true -> rel_le l r.
Proof. destruct l, r; simpl; rewrite ?bool_decide_eq_true; (done || lia). Qed.

Lemma release_is_before_ge l r : release_is_before l r = false -> rel_le r l.
Proof. destruct l, r; simpl; rewrite ?bool_decide_eq_false; (done || lia). Qed.

(** A candidate that may be chosen. *)
Definition free (b : Book) (skip : Z -> bool) (a : Z) : Prop :=
  a ∉ used b /\ skip a = false.

Lemma select_first b skip selected candidates :
  selected = None ->
  select b EmptyString skip selected candidates
    = head (filter (fun a => a ∉ used b) candidates).
Proof.
  intros ->. induction candidates as [|a l IH]; [done|]. cbn [select].
  rewrite filter_cons. destruct (decide (a ∈ used b)).
  - rewrite decide_False by auto. exact IH.
  - by rewrite !decide_True.
Qed.

Definition tag (b : Book) (o : option Z) : option (Z * option Z) :=
  (fun x => (x, released b !! x)) <$> o.

(** One round of the selection keeps the address released longest ago. *)
Lemma select_round b o c :
  exists y,
    match tag b o with
    | None => Some (c, released b !! c)
    | Some (_, current) =>
        if release_is_before (released b !! c) current
        then Some (c, released b !! c) else tag b o
    end = tag b (Some y)
    /\ (y = c \/ o = Some y)
    /\ rel_le (released b !! y) (released b !! c)
    /\ (forall x, o = Some x -> rel_le (released b !! y) (released b !! x)).
Proof.
  destruct o as [x|]; simpl; [destruct (release_is_before _ _) eqn:Hb|].
  - exists c. split_and!; [done|by left|apply rel_le_refl|].
    intros ? [= <-]. by apply release_is_before_le.
  - exists x. split_and!; [done|by right|by apply release_is_before_ge|].
    intros ? [= <-]. apply rel_le_refl.
  - exists c. split_and!; [done|by left|apply rel_le_refl|done].
Qed.

(** With an identity, the choice is free and least recently released. *)
Lemma select_oldest b identity skip o candidates a :
  identity <> EmptyString ->
  select b identity skip (tag b o) candidates = Some a ->
  (a ∈ candidates /\ free b skip a \/ o = Some a)
  /\ (forall x, o = Some x -> rel_le (released b !! a) (released b !! x))
  /\ (forall a', a' ∈ candidates -> free b skip a' ->
                 rel_le (released b !! a) (released b !! a')).
Proof.
  intros Hid. revert o. induction candidates as [|c l IH]; intros o; cbn [select].
  { destruct o as [x|]; [|done]. simpl. intros [= <-].
    split_and!; [by right| |by intros ? ?%not_elem_of_nil].
    intros ? [= <-]. apply rel_le_refl. }
  assert (~ free b skip c ->
          select b identity skip (tag b o) l = Some a ->
          (a ∈ c :: l /\ free b skip a \/ o = Some a)
          /\ (forall x, o = Some x -> rel_le (released b !! a) (released b !! x))
          /\ (forall a', a' ∈ c :: l -> free b skip a' ->
                 rel_le (released b !! a) (released b !! a'))) as Hskip.
  { intros Hc (H1 & H2 & H3)%IH. split_and!; [|done|].
    - destruct H1 as [[? ?]|?]; [left; split; [by right|done]|by right].
    - intros a' [->|?]%elem_of_cons ?; [done|by apply H3]. }
  destruct (decide (c ∈ used b)) as [Hc|Hc]; [by apply Hskip; intros [? _]|].
  rewrite decide_False by done.
  destruct (skip c) eqn:Hs; [by apply Hskip; intros [_ ?]; congruence|clear Hskip].
  destruct (select_round b o c) as (y & -> & Hy & Hyc & Hyo).
  destruct (released b !! c) as [t|] eqn:Ht.
  - intros (H1 & H2 & H3)%IH. specialize (H2 y eq_refl).
    split_and!; [| |intros a' [->|?]%elem_of_cons ?; [rewrite Ht|by apply H3]];
      eauto using rel_le_trans.
    destruct H1 as [[? ?]|[= <-]]; [left; split; [by right|done]|].
    destruct Hy as [->|?]; [left; split; [left|done]|by right].
  - simpl. intros [= <-]. destruct (released b !! y) eqn:Hr; [done|].
    split_and!; [|done|done]. destruct Hy as [->|?]; [|by right].
    left. split; [left|done].
Qed.

(** Nothing is chosen only when no candidate may be. *)
Lemma select_none b identity skip o candidates :
  select b identity skip (tag b o) candidates = None ->
  o = None
  /\ forall a, a ∈ candidates -> a ∈ used b \/ identity <> EmptyString /\ skip a = true.
Proof.
  revert o. induction candidates as [|c l IH]; intros o; cbn [select].
  { destruct o; [done|]. split; [done|]. by intros ? ?%not_elem_of_nil. }
  assert (c ∈ used b \/ identity <> EmptyString /\ skip c = true ->
          select b identity skip (tag b o) l = None -> o = None
          /\ forall a, a ∈ c :: l -> a ∈ used b \/ identity <> EmptyString /\ skip a = true)
    as Hskip.
  { intros Hc [? Hl]%IH. split; [done|]. intros a [->|?]%elem_of_cons; auto. }
  destruct (decide (c ∈ used b)); [by apply Hskip; left|].
  destruct (decide (identity = EmptyString)); [done|].
  destruct (skip c) eqn:Hs; [by apply Hskip; right|].
  destruct (select_round b o c) as (y & -> & _).
  destruct (released b !! c); [by intros [? _]%IH|done].
Qed.

Lemma select_free b identity skip candidates a :
  select b identity skip None candidates = Some a ->
  a ∈ candidates /\ a ∉ used b.
Proof.
  destruct (decide (identity = EmptyString)) as [->|Hid].
  - rewrite select_first by done. intros Ha%head_Some_elem_of.
    apply list_elem_of_filter in Ha as [? ?]. done.
  - intros Ha. apply (select_oldest b identity skip None) in Ha as [Ha _]; [|done].
    destruct Ha as [[? [? _]]|?]; done.
Qed.

(** ** The tables agree *)

(** The two maps are inverse to each other, no address is filed under the
    empty identity, and only addresses with an identity have a release time. *)
Record book_ok (b : Book) : Prop := {
  ok_inverse : forall a i, identity_of b !! a = Some i <-> address_of b !! i = Some a;
  ok_named : forall a, identity_of b !! a <> Some EmptyString;
  ok_released : forall a, is_Some (released b !! a) -> is_Some (identity_of b !! a);
}.

Lemma empty_book_ok u : book_ok (mkBook u ∅ ∅ ∅).
Proof.
  split; simpl; intros *; rewrite ?lookup_empty; try done.
Qed.

Lemma used_commit b a identity : used (commit b a identity) = {[a]} ∪ used b.
Proof. unfold commit. repeat case_match; done. Qed.

Section Commit.
Context (b : Book) (Hb : book_ok b) (a : Z).

Lemma unnamed_address : address_of b !! EmptyString = None.
Proof using Hb.
  destruct (address_of b !! EmptyString) eqn:He; [|done].
  apply (ok_inverse b Hb) in He. by apply (ok_named b Hb) in He.
Qed.

Lemma lookup_forget_previous identity i :
  forget_previous b a identity !! i
    = (if decide (identity_of b !! a = Some i /\ i <> identity)
       then None else address_of b !! i).
Proof using Hb.
  unfold forget_previous. destruct (identity_of b !! a) as [i'|] eqn:Hi.
  - apply (ok_inverse b Hb) in Hi.
    destruct (decide (i' <> identity /\ _)) as [[? _]|Hn].
    + destruct (decide (i' = i)) as [->|]; [rewrite lookup_delete_eq|
        rewrite lookup_delete_ne by done];
        destruct (decide _) as [?|?]; naive_solver.
    + destruct (decide _) as [?|?]; naive_solver.
  - destruct (decide _) as [?|?]; naive_solver.
Qed.

Lemma address_of_commit identity i :
  address_of (commit b a identity) !! i
    = (if decide (i = identity /\ identity <> EmptyString) then Some a
       else if decide (identity_of b !! a = Some i) then None
       else address_of b !! i).
Proof using Hb.
  pose proof (ok_named b Hb a). pose proof unnamed_address.
  unfold commit. destruct (decide (identity = EmptyString)) as [->|Hn].
  - simpl. rewrite lookup_forget_previous. repeat destruct (decide _); naive_solver.
  - destruct (match forget_previous _ _ _ !! _ with Some _ => _ | None => _ end).
    simpl. destruct (decide (i = identity)) as [->|].
    + rewrite lookup_insert_eq, decide_True; done.
    + rewrite lookup_insert_ne, lookup_forget_previous by done.
      repeat destruct (decide _); naive_solver.
Qed.

Lemma identity_of_commit identity x :
  identity_of (commit b a identity) !! x
    = (if decide (x = a) then
         if decide (identity = EmptyString) then None else Some identity
       else if decide (address_of b !! identity = Some x) then None
       else identity_of b !! x).
Proof using Hb.
  pose proof unnamed_address as Hnone.
  unfold commit. destruct (decide (identity = EmptyString)) as [->|Hn]; simpl.
  - destruct (decide (x = a)) as [->|]; [by rewrite lookup_delete_eq|].
    by rewrite lookup_delete_ne, Hnone by done.
  - rewrite lookup_forget_previous, (decide_False (P := _ /\ _)) by naive_solver.
    destruct (address_of b !! identity) as [y|]; [destruct (decide (y <> a))|];
      simpl; (destruct (decide (x = a)) as [->|];
      [by rewrite lookup_insert_eq|rewrite lookup_insert_ne by done]); [| |done].
    + destruct (decide (y = x)) as [->|].
      * by rewrite lookup_delete_eq, decide_True.
      * by rewrite lookup_delete_ne, decide_False by congruence.
    + rewrite decide_False; [done|naive_solver].
Qed.

Lemma released_commit identity x :
  is_Some (released (commit b a identity) !! x) ->
  x <> a /\ address_of b !! identity <> Some x /\ is_Some (released b !! x).
Proof using Hb.
  pose proof unnamed_address as Hnone.
  unfold commit. destruct (decide (identity = EmptyString)) as [->|Hn]; simpl.
  - rewrite lookup_delete_is_Some, Hnone. naive_solver.
  - rewrite lookup_forget_previous, (decide_False (P := _ /\ _)) by naive_solver.
    destruct (address_of b !! identity) as [y|]; [destruct (decide (y <> a))|];
      simpl; rewrite ?lookup_delete_is_Some; naive_solver.
Qed.

Lemma commit_ok identity : book_ok (commit b a identity).
Proof using Hb.
  pose proof (ok_inverse b Hb) as Hinv. pose proof (ok_named b Hb) as Hnm.
  split.
  - intros x i. rewrite identity_of_commit, address_of_commit.
    pose proof (Hinv x i). pose proof (Hinv a i). pose proof (Hinv x identity).
    pose proof (Hnm x). pose proof (Hnm a).
    repeat destruct (decide _); naive_solver.
  - intros x. rewrite identity_of_commit. pose proof (Hnm x).
    repeat destruct (decide _); naive_solver.
  - intros x (? & ? & Hx)%released_commit. rewrite identity_of_commit.
    rewrite !decide_False by done. by apply (ok_released b Hb).
Qed.
End Commit.

Lemma release_ok b a now : book_ok b -> book_ok (release_book b a now).
Proof.
  intros [H1 H2 H3]. split; simpl; [done|done|].
  intros x. destruct (decide (x = a)) as [->|].
  - destruct (identity_of b !! a) as [i|]; [by eauto|].
    rewrite lookup_delete_eq. by intros [? ?].
  - intros Hx. apply H3.
    destruct (identity_of b !! a) as [i|]; [destruct (decide _)|];
      rewrite ?lookup_delete_ne, ?lookup_insert_ne in Hx by done; done.
Qed.

(** ** The addresses a pool may lease *)

Definition leasable (p : IpPool) (a : Z) : Prop :=
  match ipv4_start p, ipv4_end p with
  | Some start, Some end_ =>
      start <= a <= end_ /\ ipv4_server p <> Some a
      /\ (ipv4_topology p = Net30 ->
          (a - start) mod 4 = 2 /\ ipv4_server p <> Some (a - 1))
  | _, _ => False
  end.

Lemma add_ipv4_Some a offset :
  0 <= a + offset <= U32_MAX -> add_ipv4 a offset = Some (a + offset).
Proof. intros ?. unfold add_ipv4. by rewrite decide_True. Qed.

Lemma visit_hosts_spec fuel server end_ c a :
  0 <= c -> end_ <= U32_MAX -> end_ - c + 2 <= Z.of_nat fuel ->
  a ∈ visit_hosts fuel server end_ (Some c) <-> c <= a <= end_ /\ server <> Some a.
Proof.
  intros Hc He. revert c Hc. induction fuel as [|fuel IH]; intros c Hc Hf; cbn [visit_hosts].
  { rewrite elem_of_nil. lia. }
  destruct (decide (end_ < c)); [rewrite elem_of_nil; lia|].
  assert (a ∈ visit_hosts fuel server end_ (add_ipv4 c 1)
          <-> c < a <= end_ /\ server <> Some a) as Hrest.
  { unfold add_ipv4. destruct (decide (0 <= c + 1 <= U32_MAX)).
    - rewrite IH by lia. intuition lia.
    - destruct fuel; simpl; rewrite elem_of_nil; lia. }
  destruct (decide (server = Some c)) as [->|Hn].
  - rewrite Hrest. split; intros [? Hs]; (split; [|done]); [lia|].
    destruct (decide (a = c)); [congruence|lia].
  - rewrite elem_of_cons, Hrest. split; [intros [->|[? ?]]; (split; [lia|done])|].
    intros [? ?]. destruct (decide (a = c)); [by left|right; split; [lia|done]].
Qed.

Lemma visit_blocks_spec fuel server end_ c a :
  0 <= c -> end_ <= U32_MAX -> end_ - c + 2 <= Z.of_nat fuel ->
  a ∈ visit_blocks fuel server end_ (Some c)
  <-> c <= a <= end_ /\ server <> Some a /\ (a - c) mod 4 = 2
      /\ server <> Some (a - 1).
Proof.
  intros Hc He. revert c Hc. induction fuel as [|fuel IH]; intros c Hc Hf; cbn [visit_blocks].
  { rewrite elem_of_nil. lia. }
  destruct (decide (end_ < c)); [rewrite elem_of_nil; lia|].
  destruct (decide (c + 2 <= U32_MAX)).
  2:{ unfold add_ipv4 at 2. rewrite (decide_False (P := 0 <= c + 2 <= _)) by lia.
      destruct (add_ipv4 c 1); rewrite elem_of_nil;
        (split; [done|]; intros (? & _ & Hm & _)); Z.div_mod_to_equations; lia. }
  rewrite !add_ipv4_Some by lia.
  destruct (decide (end_ < c + 2)).
  { rewrite elem_of_nil. split; [done|]. intros (? & _ & ? & _).
    Z.div_mod_to_equations; lia. }
  assert (a ∈ visit_blocks fuel server end_ (add_ipv4 c 4)
          <-> c + 2 < a <= end_ /\ server <> Some a /\ (a - c) mod 4 = 2
              /\ server <> Some (a - 1)) as Hrest.
  { assert ((a - c) mod 4 = 2 -> c + 2 < a -> c + 4 <= a)
      by (intros; Z.div_mod_to_equations; lia).
    assert ((a - (c + 4)) mod 4 = (a - c) mod 4) as Hmod
      by (replace (a - c) with (a - (c + 4) + 1 * 4) by lia; by rewrite Z.mod_add).
    unfold add_ipv4. destruct (decide (0 <= c + 4 <= U32_MAX)).
    - rewrite IH, Hmod by lia. intuition lia.
    - destruct fuel; simpl; rewrite elem_of_nil; intuition lia. }
  assert (a = c + 2 \/ a <> c + 2) as [->|Hac] by lia.
  - assert ((c + 2 - c) mod 4 = 2) by (replace (c + 2 - c) with 2 by lia; done).
    replace (c + 2 - 1) with (c + 1) in * by lia.
    destruct (decide (server = Some (c + 1) \/ server = Some (c + 2))) as [Hs|Hs];
      rewrite ?elem_of_cons, Hrest; intuition lia.
  - assert ((a - c) mod 4 = 2 -> c <= a -> c + 2 < a)
      by (intros; Z.div_mod_to_equations; lia).
    destruct (decide (server = Some (c + 1) \/ server = Some (c + 2)));
      rewrite ?elem_of_cons, Hrest; intuition lia.
Qed.

Definition bounds_ok (p : IpPool) : Prop :=
  forall start end_, ipv4_start p = Some start -> ipv4_end p = Some end_ ->
    0 <= start /\ end_ <= U32_MAX.

(** The loops visit exactly the leasable addresses. *)
Lemma ipv4_candidates_spec p a :
  bounds_ok p -> a ∈ ipv4_candidates p <-> leasable p a.
Proof.
  intros Hb. unfold ipv4_candidates, leasable.
  destruct (ipv4_start p) as [start|] eqn:Hs; [|rewrite elem_of_nil; done].
  destruct (ipv4_end p) as [end_|] eqn:He; [|rewrite elem_of_nil; done].
  destruct (Hb start end_ Hs He).
  destruct (ipv4_topology p) eqn:Ht;
    rewrite ?visit_hosts_spec, ?visit_blocks_spec by lia; naive_solver.
Qed.

Lemma visit_ipv6_sound fuel p visited current a :
  a ∈ visit_ipv6 fuel p visited current ->
  ipv6_contains p a = true /\ ipv6_server p <> Some a.
Proof.
  revert visited current. induction fuel as [|fuel IH]; intros visited current;
    cbn [visit_ipv6]; [by intros ?%not_elem_of_nil|].
  destruct current as [c|]; [|by intros ?%not_elem_of_nil].
  destruct (ipv6_contains p c) eqn:Hc; simpl; [|by intros ?%not_elem_of_nil].
  destruct (bool_decide _); [|by intros ?%not_elem_of_nil].
  destruct (decide (ipv6_server p = Some c)); [by apply IH|].
  intros [->|?]%elem_of_cons; [done|by eapply IH].
Qed.

(** ** One allocation *)

Lemma find_available_ipv4_lease_spec p identity :
  bounds_ok p ->
  match find_available_ipv4_lease p identity with
  | Some lease =>
      lease = ipv4_lease p (client lease)
      /\ client lease ∉ used (ipv4 p) /\ leasable p (client lease)
      /\ (identity <> EmptyString -> forall a', leasable p a' -> a' ∉ used (ipv4 p) ->
            rel_le (released (ipv4 p) !! client lease) (released (ipv4 p) !! a'))
  | None => forall a, leasable p a -> a ∈ used (ipv4 p)
  end.
Proof.
  intros Hbd. unfold find_available_ipv4_lease.
  assert (forall a, a ∈ ipv4_candidates p <-> leasable p a) as Hc
    by (intros; by apply ipv4_candidates_spec).
  destruct (select _ _ _ _ _) as [a|] eqn:Hsel; simpl.
  - destruct (select_free _ _ _ _ _ Hsel) as [Ha Hu].
    rewrite <-Hc. split_and!; [done|done|done|].
    intros Hn a' Ha' Hu'.
    apply (select_oldest (ipv4 p) identity _ None) in Hsel as (_ & _ & Hold);
      [|done]. apply Hold; [by apply Hc|done].
  - intros a Ha. apply (select_none (ipv4 p) identity _ None) in Hsel as [_ Hall].
    destruct (Hall a) as [?|[_ ?]]; [by apply Hc|done|done].
Qed.

(** The lease is the address the identity had, or the one the search found. *)
Lemma allocate_ipv4_Ok p identity lease p' :
  allocate_ipv4_for_identity p identity = (Ok lease, p') ->
  p' = set_ipv4 p (commit (ipv4 p) (client lease) identity)
  /\ (identity <> EmptyString
      /\ address_of (ipv4 p) !! identity = Some (client lease)
      /\ client lease ∉ used (ipv4 p) /\ lease = ipv4_lease p (client lease)
      \/ ~ (exists previous, identity <> EmptyString
             /\ address_of (ipv4 p) !! identity = Some previous
             /\ previous ∉ used (ipv4 p))
         /\ find_available_ipv4_lease p identity = Some lease).
Proof.
  unfold allocate_ipv4_for_identity. destruct (negb (has_ipv4 p)); [done|].
  destruct (address_of (ipv4 p) !! identity) as [previous|] eqn:Hp;
    [destruct (decide _) as [[? ?]|Hn]|].
  - simpl. intros [= <- <-]. split; [done|]. left. done.
  - destruct (find_available_ipv4_lease p identity) as [l|]; [|done].
    intros [= <- <-]. split; [done|]. right. naive_solver.
  - destruct (find_available_ipv4_lease p identity) as [l|]; [|done].
    intros [= <- <-]. split; [done|]. right. naive_solver.
Qed.

Lemma allocate_ipv4_Err p identity e p' :
  has_ipv4 p = true -> allocate_ipv4_for_identity p identity = (Err e, p') ->
  e = Exhausted /\ p' = p /\ find_available_ipv4_lease p identity = None.
Proof.
  intros H4. unfold allocate_ipv4_for_identity. rewrite H4. simpl.
  repeat case_match; naive_solver.
Qed.

(** What [allocate_ipv4_for_identity] does, on every branch.  The client
    gets the address it had before if that one is free; otherwise a leasable
    free address, for a named client one that was never released or else the
    one released longest ago.  The address becomes used and is remembered for
    the client.  The pool refuses only when every leasable address is used, and
    then does not change. *)
Theorem allocate_ipv4_spec p identity :
  bounds_ok p -> book_ok (ipv4 p) -> has_ipv4 p = true ->
  match allocate_ipv4_for_identity p identity with
  | (Ok lease, p') =>
      let a := client lease in
      lease = ipv4_lease p a /\ a ∉ used (ipv4 p)
      /\ used (ipv4 p') = {[a]} ∪ used (ipv4 p) /\ book_ok (ipv4 p')
      /\ (identity <> EmptyString -> address_of (ipv4 p') !! identity = Some a)
      /\ (forall previous,
            identity <> EmptyString -> address_of (ipv4 p) !! identity = Some previous ->
            previous ∉ used (ipv4 p) -> a = previous)
      /\ (identity <> EmptyString /\ address_of (ipv4 p) !! identity = Some a
          \/ leasable p a
             /\ (identity <> EmptyString -> forall a', leasable p a' ->
                    a' ∉ used (ipv4 p) ->
                    rel_le (released (ipv4 p) !! a) (released (ipv4 p) !! a')))
  | (Err e, p') =>
      e = Exhausted /\ p' = p /\ forall a, leasable p a -> a ∈ used (ipv4 p)
  end.
Proof.
  intros Hbd Hb H4. pose proof (find_available_ipv4_lease_spec p identity Hbd) as Hfind.
  destruct (allocate_ipv4_for_identity p identity) as [[lease|e] p'] eqn:Ha.
  - apply allocate_ipv4_Ok in Ha as [-> Ha]. simpl. rewrite used_commit.
    assert (identity <> EmptyString ->
            address_of (commit (ipv4 p) (client lease) identity) !! identity
              = Some (client lease))
      by (intros; by rewrite address_of_commit, decide_True).
    destruct Ha as [(? & Hp & ? & ?)|[Hno Hf]].
    + split_and!; try done; [by apply commit_ok|naive_solver|by left].
    + rewrite Hf in Hfind. destruct Hfind as (? & ? & ? & ?).
      split_and!; try done; [by apply commit_ok|naive_solver|by right].
  - apply allocate_ipv4_Err in Ha as (? & ? & Hn); [|done]. by rewrite Hn in Hfind.
Qed.

(** ** The life of the pool *)

Record pool_ok (p : IpPool) (held : list IpAddr) : Prop := {
  pool_bounds : bounds_ok p;
  pool_ipv4 : book_ok (ipv4 p);
  pool_ipv6 : book_ok (ipv6 p);
  pool_used_ipv4 : forall a, a ∈ used (ipv4 p) <-> IpV4 a ∈ held;
  pool_used_ipv6 : forall a,
    a ∈ used (ipv6 p) <-> IpV6 a ∈ held \/ ipv6_server p = Some a;
  pool_known_ipv4 : forall a, is_Some (identity_of (ipv4 p) !! a) -> leasable p a;
  pool_held_ipv4 : forall a, IpV4 a ∈ held -> leasable p a;
  pool_held_ipv6 : forall a,
    IpV6 a ∈ held -> ipv6_contains p a = true /\ ipv6_server p <> Some a;
  pool_distinct : NoDup held;
}.

Lemma alloc_ipv4_ok p held identity lease p' :
  pool_ok p held ->
  allocate_ipv4_for_identity p identity = (Ok lease, p') ->
  pool_ok p' (IpV4 (client lease) :: held).
Proof.
  intros [Hbd H4 H6 Hu4 Hu6 Hk Hh4 Hh6 Hnd] [-> Ha]%allocate_ipv4_Ok.
  set (c := client lease) in *.
  assert (c ∉ used (ipv4 p) /\ leasable p c) as [Hc Hl].
  { destruct Ha as [(_ & Hp & ? & _)|[_ Hf]].
    - split; [done|]. apply Hk. exists identity. by apply (ok_inverse _ H4).
    - pose proof (find_available_ipv4_lease_spec p identity Hbd) as Hs.
      rewrite Hf in Hs. by destruct Hs as (_ & ? & ? & _). }
  assert (forall a, leasable (set_ipv4 p (commit (ipv4 p) c identity)) a
                    <-> leasable p a) as Hlay by done.
  split; simpl.
  - exact Hbd.
  - by apply commit_ok.
  - done.
  - intros a. rewrite used_commit, elem_of_union, elem_of_singleton, elem_of_cons, Hu4.
    naive_solver.
  - intros a. rewrite elem_of_cons, Hu6. naive_solver.
  - intros a. rewrite Hlay, identity_of_commit by done.
    destruct (decide (a = c)) as [->|]; [done|].
    destruct (decide _); [by intros [? ?]|apply Hk].
  - intros a [[= ->]|?]%elem_of_cons; [done|by apply Hh4].
  - intros a [?|?]%elem_of_cons; [done|by apply Hh6].
  - constructor; [|done]. by rewrite <-Hu4.
Qed.

Lemma allocate_ipv6_Ok p identity a p' :
  allocate_ipv6_for_identity p identity = (Ok a, p') ->
  p' = set_ipv6 p (ipv6_server p) (commit (ipv6 p) a identity)
  /\ a ∉ used (ipv6 p) /\ ipv6_contains p a = true /\ ipv6_server p <> Some a.
Proof.
  unfold allocate_ipv6_for_identity. destruct (negb (has_ipv6 p)); [done|].
  assert (forall b, find_available_ipv6_address p identity = Some b ->
    b ∉ used (ipv6 p) /\ ipv6_contains p b = true /\ ipv6_server p <> Some b) as Hf.
  { intros b [Hb Hu]%select_free. split; [done|]. revert Hb. unfold ipv6_candidates.
    destruct (ipv6_prefix p) as [q|]; [|by intros ?%not_elem_of_nil].
    destruct (address q); [by intros ?%not_elem_of_nil|]. apply visit_ipv6_sound. }
  destruct (address_of (ipv6 p) !! identity) as [b|];
    [destruct (decide _) as [(? & ? & ? & ?)|?]|].
  - by intros [= <- <-].
  - destruct (find_available_ipv6_address p identity); [|done]. intros [= <- <-]. auto.
  - destruct (find_available_ipv6_address p identity); [|done]. intros [= <- <-]. auto.
Qed.

Lemma alloc_ipv6_ok p held identity a p' :
  pool_ok p held ->
  allocate_ipv6_for_identity p identity = (Ok a, p') ->
  pool_ok p' (IpV6 a :: held).
Proof.
  intros [Hbd H4 H6 Hu4 Hu6 Hk Hh4 Hh6 Hnd] (-> & Ha & Hc & Hs)%allocate_ipv6_Ok.
  split; simpl; try done.
  - by apply commit_ok.
  - intros x. rewrite elem_of_cons, Hu4. naive_solver.
  - intros x. rewrite used_commit, elem_of_union, elem_of_singleton, elem_of_cons, Hu6.
    naive_solver.
  - intros x [?|?]%elem_of_cons; [done|by apply Hh4].
  - intros x [[= ->]|?]%elem_of_cons; [done|by apply Hh6].
  - constructor; [|done]. intros Hin. apply Ha, Hu6. by left.
Qed.

Lemma release_pool_ok p held a now :
  pool_ok p held -> a ∈ held ->
  pool_ok (release p a now) (filter (fun x => x <> a) held).
Proof.
  intros [Hbd H4 H6 Hu4 Hu6 Hk Hh4 Hh6 Hnd] Ha.
  destruct a as [a|a]; split; simpl; try done; try (by apply release_ok);
    try (by apply NoDup_filter);
    intros x; rewrite ?elem_of_difference, ?elem_of_singleton, list_elem_of_filter,
      ?Hu4, ?Hu6; naive_solver.
Qed.

Lemma refused_ipv4 p identity e p' :
  allocate_ipv4_for_identity p identity = (Err e, p') -> p' = p.
Proof. unfold allocate_ipv4_for_identity. repeat case_match; naive_solver. Qed.

Lemma refused_ipv6 p identity e p' :
  allocate_ipv6_for_identity p identity = (Err e, p') -> p' = p.
Proof. unfold allocate_ipv6_for_identity. repeat case_match; naive_solver. Qed.

Lemma pool_step_ok p held s :
  pool_ok p held -> step (p, held) s -> pool_ok (fst s) (snd s).
Proof.
  intros Hok Hs. inversion Hs; subst; simpl.
  - eapply alloc_ipv4_ok; eauto.
  - eapply alloc_ipv6_ok; eauto.
  - match goal with H : _ = (Err _, _) |- _ => by apply refused_ipv4 in H as -> end.
  - match goal with H : _ = (Err _, _) |- _ => by apply refused_ipv6 in H as -> end.
  - by apply release_pool_ok.
Qed.

(** ** The pool as the server configures it *)

Lemma add_ipv4_bounds a offset x :
  add_ipv4 a offset = Some x -> 0 <= x <= U32_MAX.
Proof. unfold add_ipv4. destruct (decide _); naive_solver. Qed.

Lemma configure_ipv4_ok p prefix p' :
  configure_ipv4 p prefix = Ok p' -> bounds_ok p ->
  bounds_ok p' /\ ipv4 p' = ipv4 p.
Proof.
  unfold configure_ipv4. destruct (decide _); [done|].
  destruct (address prefix) as [network|]; [|by intros <-%Ok_inj].
  destruct (last_ipv4_in_prefix prefix) as [bc|]; [|by intros <-%Ok_inj].
  intros Hp Hbd. destruct (ipv4_topology p);
    (destruct (add_ipv4 network _) as [s|] eqn:Hs; [|done]);
    (destruct (add_ipv4 bc _) as [e|] eqn:He; [|done]);
    (destruct (decide (e < s)); [done|]); apply Ok_inj in Hp as <-;
    apply add_ipv4_bounds in Hs, He; (split; [|done]);
    intros ? ? [= <-] [= <-]; lia.
Qed.

(** A pool that has not leased anything. *)
Definition fresh (p : IpPool) : Prop :=
  bounds_ok p /\ ipv4 p = empty_book
  /\ exists u, ipv6 p = mkBook u ∅ ∅ ∅ /\ forall a, a ∈ u <-> ipv6_server p = Some a.

Lemma fresh_ok p : fresh p -> pool_ok p [].
Proof.
  intros (Hbd & H4 & u & H6 & Hu).
  split; rewrite ?H4, ?H6; try apply empty_book_ok; try done.
  - set_solver.
  - intros a. simpl. rewrite Hu. set_solver.
  - intros a. simpl. rewrite lookup_empty. by intros [? ?].
  - by intros a ?%not_elem_of_nil.
  - by intros a ?%not_elem_of_nil.
  - constructor.
Qed.

Lemma new_fresh pools topology p : new pools topology = Ok p -> fresh p.
Proof.
  unfold new. intros (t & _ & Hp)%bind_Ok. cbv zeta in Hp.
  apply bind_Ok in Hp as (q & Hq & Hp).
  assert (bounds_ok q /\ ipv4 q = empty_book /\ ipv6 q = empty_book
          /\ ipv6_server q = None) as (Hbd & H4 & H6 & Hs).
  { destruct (list_find _ _) as [[? prefix]|]; [|by apply Ok_inj in Hq as <-].
    pose proof Hq as Hq'. apply configure_ipv4_ok in Hq as [? ->]; [|done].
    split_and!; [done|done| |]; unfold configure_ipv4 in Hq';
      repeat case_match; simplify_eq; done. }
  clear Hq. destruct (list_find _ _) as [[? prefix]|]; apply Ok_inj in Hp as <-.
  - destruct (match address (masked prefix) with IpV4 _ => _ | IpV6 _ => _ end) as [s|];
      (split; [done|]; split; [done|]; eexists; split; [done|]; simpl; set_solver).
  - split; [done|]. split; [done|]. exists ∅. rewrite H6, Hs. split; [done|set_solver].
Qed.

Lemma set_server_ipv4_fresh p a p' :
  fresh p -> set_server_ipv4 p a = Ok p' -> fresh p'.
Proof.
  intros Hf. unfold set_server_ipv4. destruct a as [a|]; [|by intros <-%Ok_inj].
  destruct (ipv4_prefix p) as [q|]; [|done]. destruct (negb _); [done|].
  destruct (decide _); [done|]. destruct (decide _); [done|].
  by intros <-%Ok_inj.
Qed.

Lemma set_server_ipv6_fresh p a p' :
  fresh p -> set_server_ipv6 p a = Ok p' -> fresh p'.
Proof.
  intros (Hbd & H4 & u & H6 & Hu). unfold set_server_ipv6.
  destruct a as [a|]; [|intros <-%Ok_inj; split; [done|]; split; [done|]; by exists u].
  destruct (ipv6_prefix p) as [q|]; [|done]. destruct (negb _); [done|].
  rewrite H6. intros <-%Ok_inj. split; [done|]. split; [done|].
  simpl. eexists. split; [done|]. simpl. intros x.
  destruct (ipv6_server p) as [s|]; set_solver.
Qed.

Lemma server_pool_fresh pools topology p :
  server_pool pools topology = Ok p -> fresh p.
Proof.
  unfold server_pool. intros (p0 & H0%new_fresh & Hp)%bind_Ok. cbv beta in Hp.
  apply bind_Ok in Hp as (p1 & H1 & Hp).
  eauto using set_server_ipv4_fresh, set_server_ipv6_fresh.
Qed.

(** C36: From the configured pool, whatever sequence of allocations, refusals and
    releases, no two live leases share an address; the used addresses are
    exactly those of the live leases (and the server's own in IPv6), so nothing
    leaks; every leased IPv4 address is in the pool's range and differs from
    the server's, every leased IPv6 address is in the prefix and differs from
    the server's; and the identity tables stay inverse to each other. *)
Theorem leases_exclusive pools topology p0 p held :
  server_pool pools topology = Ok p0 -> rtc step (p0, []) (p, held) ->
  NoDup held
  /\ (forall a, a ∈ used (ipv4 p) <-> IpV4 a ∈ held)
  /\ (forall a, a ∈ used (ipv6 p) <-> IpV6 a ∈ held \/ ipv6_server p = Some a)
  /\ (forall a, IpV4 a ∈ held -> leasable p a)
  /\ (forall a, IpV6 a ∈ held -> ipv6_contains p a = true /\ ipv6_server p <> Some a)
  /\ book_ok (ipv4 p) /\ book_ok (ipv6 p).
Proof.
  intros H0%server_pool_fresh%fresh_ok Hr.
  assert (pool_ok p held) as [? ? ? ? ? ? ? ? ?]; [|done].
  apply (rtc_invariant step (fun s => pool_ok (fst s) (snd s))) in Hr; [done| |done].
  intros [p1 h1] s Hs Hst. by apply pool_step_ok in Hst.
Qed.

(** *** Examples *)

Definition example_prefixes : list OpenVpnIpPrefix :=
  [mkPrefix (IpV4 168296449) 29; mkPrefix (IpV6 42540766411282592856903984951653826561) 126].

Definition example_pool : IpPool :=
  match server_pool example_prefixes EmptyString with
  | Ok p => p
  | Err _ => mkPool None Subnet None None None None empty_book None empty_book
  end.

Definition alice : string := "alice".

Lemma allocate_ipv4_spec_witness :
  match allocate_ipv4_for_identity example_pool alice with
  | (Ok lease, p') =>
      client lease = 168296450 /\ used (ipv4 p') = {[168296450]} ∪ used (ipv4 example_pool)
  | (Err _, _) => False
  end.
Proof.
  assert (bounds_ok example_pool) as Hb by (intros ? ? [= <-] [= <-]; vm_compute; split; congruence).
  assert (book_ok (ipv4 example_pool)) as Hk by apply (empty_book_ok ∅).
  pose proof (allocate_ipv4_spec example_pool alice Hb Hk eq_refl) as H.
  destruct (allocate_ipv4_for_identity example_pool alice) as [[lease|e] p'] eqn:Ha.
  - assert (client lease = 168296450) as Hc.
    { assert (fst (allocate_ipv4_for_identity example_pool alice)
              = Ok (mkLease 168296450 None)) as He by (vm_compute; reflexivity).
      rewrite Ha in He. simpl in He. apply Ok_inj in He. by subst. }
    destruct H as (_ & _ & Hu & _). by rewrite <-Hc.
  - assert (fst (allocate_ipv4_for_identity example_pool alice)
            = Ok (mkLease 168296450 None)) as He by (vm_compute; reflexivity).
    by rewrite Ha in He.
Defined.

Lemma leases_exclusive_witness : NoDup [IpV6 42540766411282592856903984951653826562;
  IpV4 168296450].
Proof.
  refine (proj1 (leases_exclusive example_prefixes EmptyString example_pool _ _ eq_refl _)).
  eapply rtc_l; [apply (step_ipv4 _ _ alice (mkLease 168296450 None)); vm_compute; reflexivity|].
  eapply rtc_l; [eapply (step_ipv6 _ _ alice); vm_compute; reflexivity|].
  apply rtc_refl.
Defined.

End IpPool.
