(* ===== verification/PppFrame.v ===== *)
(** * PPP carrier framing ([protocol/openconnect_ppp_frame.rs])

    The three encapsulations of PPP over a TLS stream: the F5 and Fortinet
    length-prefixed frames and HDLC with byte stuffing and a frame check
    sequence.  A decoder is the bytes it has not used; its loops run on the
    slice that starts at [consumed].  An error shows a prefix of the input, here
    the bytes instead of their hexadecimal digits. *)

From stdpp Require Import base numbers list list_numbers.
From Stdlib Require Import ZArith Lia.
From S2P Require Import Prelude.

Local Open Scope Z_scope.

Definition PPP_MAXIMUM_PAYLOAD_LENGTH : Z := U16_MAX.
Definition PPP_MAXIMUM_WIRE_FRAME_SIZE : Z := 2 * PPP_MAXIMUM_PAYLOAD_LENGTH + 6.

Definition F5_MAGIC : Z := 62720.
Definition FORTINET_MAGIC : Z := 20560.
Definition HDLC_FLAG : Z := 126.
Definition HDLC_ESCAPE : Z := 125.
Definition HDLC_INITIAL_FCS : Z := 65535.
Definition HDLC_GOOD_FCS : Z := 61624.

Inductive PppEncapsulation : Type := F5 | F5Hdlc | Fortinet.

Inductive PppFrameError : Type :=
| ReceiveBufferTooLarge
| InvalidPayloadLength (length : Z)
| FrameLengthOverflow
| InvalidF5Magic (preview : list Z * bool)
| InvalidFortinetMagic (preview : list Z * bool)
| InvalidFortinetLength (preview : list Z * bool).

Module PppFrame.

Definition len (l : list Z) : Z := Z.of_nat (length l).

Record PppFrameDecoder : Type := mkDecoder {
  encapsulation : PppEncapsulation;
  pending : list Z;
}.

Definition new (e : PppEncapsulation) : PppFrameDecoder := mkDecoder e [].

(** The first 64 bytes, and whether more follow. *)
Definition preview (content : list Z) : list Z * bool :=
  (firstn 64 content, bool_decide (64 < len content)).

(** ** The frame check sequence *)

Definition fcs_step (fcs : Z) : Z :=
  if decide (Z.land fcs 1 <> 0) then Z.lxor (Z.shiftr fcs 1) 33800
  else Z.shiftr fcs 1.

Definition update_hdlc_fcs (fcs value : Z) : Z :=
  Nat.iter 8 fcs_step (Z.lxor fcs value).

(** ** Byte stuffing *)

Definition hdlc_escapes (async_map value : Z) : bool :=
  bool_decide (value = HDLC_ESCAPE \/ value = HDLC_FLAG)
  || (bool_decide (value < 32)
      && bool_decide (Z.land async_map (Z.shiftl 1 value) <> 0)).

Definition append_hdlc_byte (values : list Z) (async_map : Z) : list Z :=
  flat_map
    (fun value =>
       if hdlc_escapes async_map value then [HDLC_ESCAPE; Z.lxor value 32]
       else [value])
    values.

Definition encode_ppp_hdlc_frame (payload : list Z) (async_map : Z) : list Z :=
  let fcs := foldl update_hdlc_fcs HDLC_INITIAL_FCS payload in
  let fcs := Z.lxor fcs U16_MAX in
  [HDLC_FLAG] ++ append_hdlc_byte payload async_map
    ++ append_hdlc_byte [wrap8 fcs; wrap8 (Z.shiftr fcs 8)] async_map
    ++ [HDLC_FLAG].

(** The loop that removes the escapes; [None] when an escape is left open. *)
Fixpoint unescape (encoded : list Z) (escaped : bool) : option (list Z) :=
  match encoded with
  | [] => if escaped then None else Some []
  | value :: encoded =>
      if escaped then cons (Z.lxor value 32) <$> unescape encoded false
      else if decide (value = HDLC_ESCAPE) then unescape encoded true
      else cons value <$> unescape encoded false
  end.

Definition decode_ppp_hdlc_frame (encoded : list Z) : option (list Z) :=
  match unescape encoded false with
  | None => None
  | Some decoded =>
      if decide (length decoded < 3)%nat then None
      else if decide (foldl update_hdlc_fcs HDLC_INITIAL_FCS decoded <> HDLC_GOOD_FCS)
      then None
      else Some (firstn (length decoded - 2) decoded)
  end.

(** ** Encoding *)

Definition encode_ppp_frame (e : PppEncapsulation) (payload : list Z)
    (async_map : Z) : result PppFrameError (list Z) :=
  if decide (payload = [] \/ PPP_MAXIMUM_PAYLOAD_LENGTH < len payload)
  then Err (InvalidPayloadLength (len payload))
  else
    match e with
    | F5 =>
        Ok (to_be_bytes 2 F5_MAGIC ++ to_be_bytes 2 (wrap16 (len payload)) ++ payload)
    | F5Hdlc => Ok (encode_ppp_hdlc_frame payload async_map)
    | Fortinet =>
        if decide (PPP_MAXIMUM_PAYLOAD_LENGTH - 6 < len payload)
        then Err FrameLengthOverflow
        else
          Ok (to_be_bytes 2 (wrap16 (len payload + 6)) ++ to_be_bytes 2 FORTINET_MAGIC
                ++ to_be_bytes 2 (wrap16 (len payload)) ++ payload)
    end.

(** ** Decoding

    Each loop takes the slice from [consumed] on and yields the frames and the
    slice that stays pending; every round consumes a byte, so the length of the
    slice is enough fuel. *)

Definition be16 (l : list Z) (at_ : nat) : Z := from_be_bytes (firstn 2 (skipn at_ l)).

Fixpoint decode_f5 (fuel : nat) (frame : list Z) :
    result PppFrameError (list (list Z)) * list Z :=
  match fuel with
  | O => (Ok [], frame)
  | S fuel =>
      if decide (length frame < 4)%nat then (Ok [], frame)
      else if decide (be16 frame 0 <> F5_MAGIC)
      then (Err (InvalidF5Magic (preview frame)), frame)
      else
        let payload_length := Z.to_nat (be16 frame 2) in
        let frame_length := (4 + payload_length)%nat in
        if decide (length frame < frame_length)%nat then (Ok [], frame)
        else
          let '(r, rest) := decode_f5 fuel (skipn frame_length frame) in
          (frames ← r;
           Ok (if decide (payload_length <> 0%nat)
               then firstn payload_length (skipn 4 frame) :: frames else frames),
           rest)
  end.

Fixpoint decode_fortinet (fuel : nat) (frame : list Z) :
    result PppFrameError (list (list Z)) * list Z :=
  match fuel with
  | O => (Ok [], frame)
  | S fuel =>
      if decide (length frame < 6)%nat then (Ok [], frame)
      else
        let total_length := Z.to_nat (be16 frame 0) in
        if decide (be16 frame 2 <> FORTINET_MAGIC)
        then (Err (InvalidFortinetMagic (preview frame)), frame)
        else
          let payload_length := Z.to_nat (be16 frame 4) in
          if decide (total_length <> payload_length + 6)%nat
          then (Err (InvalidFortinetLength (preview frame)), frame)
          else if decide (length frame < total_length)%nat then (Ok [], frame)
          else
            let '(r, rest) := decode_fortinet fuel (skipn total_length frame) in
            (frames ← r;
             Ok (if decide (payload_length <> 0%nat)
                 then firstn payload_length (skipn 6 frame) :: frames else frames),
             rest)
  end.

Fixpoint skip_flags (l : list Z) : list Z :=
  match l with
  | x :: l' => if decide (x = HDLC_FLAG) then skip_flags l' else l
  | [] => []
  end.

(** The bytes before the next flag and those from it on. *)
Fixpoint until_flag (l : list Z) : option (list Z * list Z) :=
  match l with
  | [] => None
  | x :: l' =>
      if decide (x = HDLC_FLAG) then Some ([], l)
      else
        match until_flag l' with
        | Some (a, b) => Some (x :: a, b)
        | None => None
        end
  end.

Fixpoint decode_hdlc (fuel : nat) (slice : list Z) : list (list Z) * list Z :=
  match fuel with
  | O => ([], slice)
  | S fuel =>
      match slice with
      | [] => ([], [])
      | _ =>
          let body := skip_flags slice in
          match body with
          | [] => ([], skipn (length slice - 1) slice)
          | _ =>
              match until_flag body with
              | None => ([], slice)
              | Some (encoded, rest) =>
                  let '(frames, rest) := decode_hdlc fuel rest in
                  (match decode_ppp_hdlc_frame encoded with
                   | Some frame => frame :: frames
                   | None => frames
                   end, rest)
              end
          end
      end
  end.

(** The frames of a slice, and what stays pending. *)
Definition decode (e : PppEncapsulation) (slice : list Z) :
    result PppFrameError (list (list Z)) * list Z :=
  match e with
  | F5 => decode_f5 (length slice) slice
  | F5Hdlc => let '(frames, rest) := decode_hdlc (length slice) slice in (Ok frames, rest)
  | Fortinet => decode_fortinet (length slice) slice
  end.

Definition push (d : PppFrameDecoder) (content : list Z) :
    result PppFrameError (list (list Z)) * PppFrameDecoder :=
  if decide (content = []) then (Ok [], d)
  else if decide (PPP_MAXIMUM_WIRE_FRAME_SIZE
                    < saturating_add U64_MAX (len (pending d)) (len content))
  then (Err ReceiveBufferTooLarge, d)
  else
    let '(r, rest) := decode (encapsulation d) (pending d ++ content) in
    (r, mkDecoder (encapsulation d) rest).

Definition discard (d : PppFrameDecoder) : Z * PppFrameDecoder :=
  (len (pending d), mkDecoder (encapsulation d) []).

(** A run of reads from the carrier. *)
Fixpoint push_all (d : PppFrameDecoder) (chunks : list (list Z)) :
    result PppFrameError (list (list Z)) * PppFrameDecoder :=
  match chunks with
  | [] => (Ok [], d)
  | c :: chunks =>
      match push d c with
      | (Err e, d) => (Err e, d)
      | (Ok frames, d) =>
          let '(r, d) := push_all d chunks in (app frames <$> r, d)
      end
  end.

(** ** The check sequence of a frame is good

    One step of the register is linear, so the two check bytes cancel the state
    and leave a constant. *)

Lemma odd_land x : Z.land x 1 <> 0 <-> Z.testbit x 0 = true.
Proof.
  change 1 with (Z.ones 1). rewrite Z.land_ones by lia. change (2 ^ 1) with 2.
  rewrite <- Z.bit0_mod. by destruct (Z.testbit x 0).
Qed.

Lemma fcs_step_bit x :
  fcs_step x = Z.lxor (Z.shiftr x 1) (if Z.testbit x 0 then 33800 else 0).
Proof.
  unfold fcs_step. pose proof (odd_land x) as Hx.
  destruct (Z.testbit x 0).
  - by rewrite decide_True by (by apply Hx).
  - rewrite decide_False by (intros E; by apply Hx in E). by rewrite Z.lxor_0_r.
Qed.

Lemma fcs_step_lxor a b : fcs_step (Z.lxor a b) = Z.lxor (fcs_step a) (fcs_step b).
Proof.
  rewrite !fcs_step_bit, Z.lxor_spec, Z.shiftr_lxor.
  set (x := Z.shiftr a 1). set (y := Z.shiftr b 1). clearbody x y.
  rewrite !Z.lxor_assoc. f_equal. rewrite <- Z.lxor_assoc, (Z.lxor_comm _ y), Z.lxor_assoc.
  f_equal. by destruct (Z.testbit a 0), (Z.testbit b 0).
Qed.

Lemma fcs_steps_lxor n a b :
  Nat.iter n fcs_step (Z.lxor a b)
  = Z.lxor (Nat.iter n fcs_step a) (Nat.iter n fcs_step b).
Proof.
  induction n as [|n IH]; [done|]. rewrite !Nat.iter_succ, IH. apply fcs_step_lxor.
Qed.

(** A register whose low bits are zero only shifts. *)
Lemma fcs_steps_shift n h : Nat.iter n fcs_step (Z.shiftl h (Z.of_nat n)) = h.
Proof.
  revert h. induction n as [|n IH]; intros h; [by rewrite Z.shiftl_0_r|].
  rewrite Nat.iter_succ_r.
  assert (fcs_step (Z.shiftl h (Z.of_nat (S n))) = Z.shiftl h (Z.of_nat n)) as ->;
    [|apply IH].
  unfold fcs_step. rewrite decide_False.
  - rewrite Z.shiftr_shiftl_l by lia. f_equal. lia.
  - rewrite odd_land, Z.shiftl_spec_low by lia. done.
Qed.

Lemma lxor_bound n a b :
  0 <= n -> 0 <= a < 2 ^ n -> 0 <= b < 2 ^ n -> 0 <= Z.lxor a b < 2 ^ n.
Proof.
  intros Hn Ha Hb. assert (Z.lxor a b = Z.lxor a b mod 2 ^ n) as ->;
    [|apply Z.mod_pos_bound, Z.pow_pos_nonneg; lia].
  apply Z.bits_inj'. intros k Hk. destruct (decide (k < n)).
  - by rewrite Z.mod_pow2_bits_low by lia.
  - rewrite Z.mod_pow2_bits_high, Z.lxor_spec by lia.
    by rewrite (testbit_above n a k), (testbit_above n b k) by lia.
Qed.

Lemma fcs_step_u16 x : is_u16 x -> is_u16 (fcs_step x).
Proof.
  intros Hx. rewrite fcs_step_bit.
  enough (0 <= Z.lxor (Z.shiftr x 1) (if Z.testbit x 0 then 33800 else 0) < 2 ^ 16) by ilia.
  apply lxor_bound; [lia| |by destruct (Z.testbit x 0)].
  rewrite Z.shiftr_div_pow2 by lia. change (2 ^ 1) with 2. change (2 ^ 16) with 65536.
  split; [apply Z.div_pos; ilia|apply Z.div_lt_upper_bound; ilia].
Qed.

Lemma update_hdlc_fcs_u16 f v : is_u16 f -> is_u8 v -> is_u16 (update_hdlc_fcs f v).
Proof.
  intros Hf Hv. unfold update_hdlc_fcs.
  assert (is_u16 (Z.lxor f v)) as Hx.
  { enough (0 <= Z.lxor f v < 2 ^ 16) by ilia. apply lxor_bound; ilia. }
  revert Hx. generalize (Z.lxor f v). intros x Hx.
  do 8 apply fcs_step_u16. done.
Qed.

Lemma fcs_u16 l f : is_u16 f -> bytes_ok l -> is_u16 (foldl update_hdlc_fcs f l).
Proof.
  intros Hf Hl. revert f Hf. induction Hl as [|v l Hv _ IH]; intros f Hf; [done|].
  simpl. apply IH. by apply update_hdlc_fcs_u16.
Qed.

Lemma testbit_ones n k : 0 <= n -> 0 <= k -> Z.testbit (Z.ones n) k = bool_decide (k < n).
Proof.
  intros Hn Hk. case_bool_decide; [by apply Z.ones_spec_low|apply Z.ones_spec_high; lia].
Qed.

Lemma check_bytes f :
  is_u16 f ->
  Z.lxor f (wrap8 (Z.lxor f U16_MAX)) = Z.lxor (Z.shiftl (Z.shiftr f 8) 8) 255
  /\ wrap8 (Z.shiftr (Z.lxor f U16_MAX) 8) = Z.lxor (Z.shiftr f 8) 255.
Proof.
  intros Hf. unfold wrap8. change U16_MAX with (Z.ones 16). change 255 with (Z.ones 8).
  split; apply Z.bits_inj'; intros k Hk; rewrite !Z.lxor_spec.
  - destruct (decide (k < 8)).
    + rewrite Z.mod_pow2_bits_low, Z.lxor_spec, Z.shiftl_spec_low, !testbit_ones by lia.
      rewrite !bool_decide_true by lia. by destruct (Z.testbit f k).
    + rewrite Z.mod_pow2_bits_high, Z.shiftl_spec, Z.shiftr_spec, testbit_ones by lia.
      rewrite bool_decide_false by lia. replace (k - 8 + 8) with k by lia.
      by destruct (Z.testbit f k).
  - destruct (decide (k < 8)).
    + rewrite Z.mod_pow2_bits_low, Z.shiftr_spec, Z.lxor_spec, Z.shiftr_spec, !testbit_ones by lia.
      by rewrite !bool_decide_true by lia.
    + rewrite Z.mod_pow2_bits_high, Z.shiftr_spec, testbit_ones, bool_decide_false by lia.
      rewrite xorb_false_r. by rewrite (testbit_above 16 f) by ilia.
Qed.

Lemma fcs_good f :
  is_u16 f ->
  update_hdlc_fcs (update_hdlc_fcs f (wrap8 (Z.lxor f U16_MAX)))
    (wrap8 (Z.shiftr (Z.lxor f U16_MAX) 8)) = HDLC_GOOD_FCS.
Proof.
  intros Hf. destruct (check_bytes f Hf) as [E1 E2]. rewrite E2.
  unfold update_hdlc_fcs at 2. rewrite E1, fcs_steps_lxor.
  pose proof (fcs_steps_shift 8 (Z.shiftr f 8)) as E. change (Z.of_nat 8) with 8 in E.
  rewrite E. unfold update_hdlc_fcs.
  set (h := Z.shiftr f 8). rewrite (Z.lxor_comm h), Z.lxor_assoc, <- (Z.lxor_assoc h h).
  rewrite Z.lxor_nilpotent, Z.lxor_0_l. reflexivity.
Qed.

(** ** Byte stuffing is transparent *)

Lemma lxor_32_ne v :
  is_u8 v -> (v = HDLC_ESCAPE \/ v = HDLC_FLAG \/ v < 32) -> Z.lxor v 32 <> HDLC_FLAG.
Proof.
  intros Hv Hc E. assert (v = 94) as ->.
  { rewrite <- (Z.lxor_0_r v), <- (Z.lxor_nilpotent 32), <- Z.lxor_assoc, E. done. }
  unfold HDLC_ESCAPE, HDLC_FLAG in Hc. lia.
Qed.

Lemma hdlc_escapes_true m v :
  hdlc_escapes m v = true -> v = HDLC_ESCAPE \/ v = HDLC_FLAG \/ v < 32.
Proof.
  unfold hdlc_escapes. rewrite orb_true_iff, andb_true_iff, !bool_decide_eq_true. tauto.
Qed.

Lemma hdlc_escapes_false m v :
  hdlc_escapes m v = false -> v <> HDLC_ESCAPE /\ v <> HDLC_FLAG.
Proof.
  unfold hdlc_escapes. rewrite orb_false_iff, bool_decide_eq_false. tauto.
Qed.

Lemma append_no_flag l m : bytes_ok l -> HDLC_FLAG ∉ append_hdlc_byte l m.
Proof.
  induction 1 as [|v l Hv _ IH]; [apply not_elem_of_nil|].
  unfold append_hdlc_byte. cbn [flat_map]. fold (append_hdlc_byte l m).
  rewrite not_elem_of_app. split; [|done].
  destruct (hdlc_escapes m v) eqn:He.
  - apply hdlc_escapes_true in He. rewrite !not_elem_of_cons.
    split_and!; [done| |apply not_elem_of_nil]. intros E. by apply (lxor_32_ne v).
  - apply hdlc_escapes_false in He as [_ He]. rewrite not_elem_of_cons.
    split; [congruence|apply not_elem_of_nil].
Qed.

Lemma unescape_append l m rest :
  unescape (append_hdlc_byte l m ++ rest) false = app l <$> unescape rest false.
Proof.
  induction l as [|v l IH].
  - simpl. by destruct (unescape rest false).
  - unfold append_hdlc_byte in *. cbn [flat_map]. rewrite <- (assoc_L (++)).
    destruct (hdlc_escapes m v) eqn:He; cbn [app unescape].
    + rewrite decide_True by done. rewrite IH, Z.lxor_assoc, Z.lxor_nilpotent, Z.lxor_0_r.
      by destruct (unescape rest false).
    + apply hdlc_escapes_false in He as [He _]. rewrite decide_False by done. rewrite IH.
      by destruct (unescape rest false).
Qed.

(** The stuffed bytes between the two flags of a frame. *)
Definition stuffed (payload : list Z) (m : Z) : list Z :=
  let fcs := Z.lxor (foldl update_hdlc_fcs HDLC_INITIAL_FCS payload) U16_MAX in
  append_hdlc_byte payload m ++ append_hdlc_byte [wrap8 fcs; wrap8 (Z.shiftr fcs 8)] m.

Lemma encode_hdlc_stuffed payload m :
  encode_ppp_hdlc_frame payload m = HDLC_FLAG :: stuffed payload m ++ [HDLC_FLAG].
Proof. unfold encode_ppp_hdlc_frame, stuffed. cbn [app]. f_equal. by rewrite (assoc_L (++)). Qed.

Lemma wrap8_u8 x : is_u8 (wrap8 x).
Proof. unfold wrap8. pose proof (Z.mod_pos_bound x (2 ^ 8)). ilia. Qed.

Lemma stuffed_no_flag payload m : bytes_ok payload -> HDLC_FLAG ∉ stuffed payload m.
Proof.
  intros Hp. apply not_elem_of_app. split; apply append_no_flag; [done|].
  repeat constructor; apply wrap8_u8.
Qed.

Lemma decode_stuffed payload m :
  bytes_ok payload -> payload <> [] ->
  decode_ppp_hdlc_frame (stuffed payload m) = Some payload.
Proof.
  intros Hb Hne. unfold decode_ppp_hdlc_frame, stuffed.
  rewrite unescape_append, <- (app_nil_r (append_hdlc_byte [_; _] m)), unescape_append.
  cbn [unescape fmap option_fmap option_map]. rewrite app_nil_r.
  set (f := foldl update_hdlc_fcs HDLC_INITIAL_FCS payload).
  assert (is_u16 f) as Hf by (apply fcs_u16; [by vm_compute|done]).
  rewrite length_app. cbn [length].
  rewrite decide_False by (destruct payload; [done|simpl; lia]).
  rewrite foldl_app. cbn [foldl]. fold f. rewrite fcs_good by done.
  rewrite decide_False by (by intros []).
  f_equal. replace (length payload + 2 - 2)%nat with (length payload) by lia.
  apply take_app_length.
Qed.

Lemma stuffed_nonempty payload m : payload <> [] -> stuffed payload m <> [].
Proof.
  intros Hp E. apply app_eq_nil in E as [E _]. destruct payload as [|v p]; [done|].
  unfold append_hdlc_byte in E. cbn [flat_map] in E. by destruct (hdlc_escapes m v).
Qed.

(** ** Length-prefixed frames *)

Lemma be16_at l1 x l2 at_ :
  length l1 = at_ -> is_u16 x -> be16 (l1 ++ to_be_bytes 2 x ++ l2) at_ = x.
Proof.
  intros <- Hx. unfold be16. rewrite drop_app_length, take_app_length' by done.
  apply from_to_be_bytes. simpl. ilia.
Qed.

Lemma be16_prefix q more at_ :
  (at_ + 2 <= length q)%nat -> be16 q at_ = be16 (q ++ more) at_.
Proof.
  intros Hl. unfold be16. rewrite drop_app_le by lia.
  by rewrite take_app_le by (rewrite length_drop; lia).
Qed.

Definition payload_ok (p : list Z) : Prop := p <> [] /\ len p <= PPP_MAXIMUM_PAYLOAD_LENGTH.

Definition f5_frame (p : list Z) : list Z :=
  to_be_bytes 2 F5_MAGIC ++ to_be_bytes 2 (len p) ++ p.

Definition fortinet_frame (p : list Z) : list Z :=
  to_be_bytes 2 (len p + 6) ++ to_be_bytes 2 FORTINET_MAGIC ++ to_be_bytes 2 (len p) ++ p.

Lemma encode_frames_eq e p m enc :
  encode_ppp_frame e p m = Ok enc ->
  payload_ok p
  /\ match e with
     | F5 => enc = f5_frame p
     | F5Hdlc => enc = HDLC_FLAG :: stuffed p m ++ [HDLC_FLAG]
     | Fortinet => enc = fortinet_frame p /\ len p + 6 <= U16_MAX
     end.
Proof.
  unfold encode_ppp_frame, payload_ok, len, PPP_MAXIMUM_PAYLOAD_LENGTH.
  case_decide as Hp; [done|]. destruct e.
  - intros <-%Ok_inj. unfold f5_frame, wrap16, len. rewrite Z.mod_small by ilia.
    split; [|done]. split; [tauto|lia].
  - intros <-%Ok_inj. rewrite encode_hdlc_stuffed. split; [|done]. split; [tauto|lia].
  - case_decide; [done|]. intros <-%Ok_inj. unfold fortinet_frame, wrap16, len.
    rewrite !Z.mod_small by ilia. split; [split; [tauto|lia]|]. split; [done|lia].
Qed.

Lemma f5_header p more :
  payload_ok p ->
  be16 (f5_frame p ++ more) 0 = F5_MAGIC /\ be16 (f5_frame p ++ more) 2 = len p
  /\ length (f5_frame p) = (4 + length p)%nat.
Proof.
  intros [Hne Hp]. unfold f5_frame, len, PPP_MAXIMUM_PAYLOAD_LENGTH in *.
  rewrite <- !(assoc_L (++)). split_and!.
  - by apply (be16_at []).
  - apply (be16_at (to_be_bytes 2 F5_MAGIC)); [done|ilia].
  - by rewrite !length_app, !length_to_be_bytes.
Qed.

Lemma decode_f5_frame fuel p rest :
  payload_ok p ->
  decode_f5 (S fuel) (f5_frame p ++ rest)
  = let '(r, rest') := decode_f5 fuel rest in (frames ← r; Ok (p :: frames), rest').
Proof.
  intros Hp. destruct (f5_header p rest Hp) as (H0 & H2 & Hl). cbn [decode_f5].
  rewrite decide_False by (rewrite length_app; lia).
  rewrite H0, decide_False by (by intros []).
  rewrite H2. unfold len. rewrite Nat2Z.id.
  rewrite decide_False by (rewrite length_app; lia).
  rewrite (drop_app_length' (f5_frame p)) by lia.
  destruct (decode_f5 fuel rest) as [[frames|e] rest']; [|done]. rbind.
  rewrite decide_True by (destruct Hp as [Hp _]; by destruct p).
  do 3 f_equal. unfold f5_frame. rewrite <- !(assoc_L (++)), (assoc_L (++) (to_be_bytes 2 _)).
  rewrite (drop_app_length' _ _ 4) by (by rewrite length_app, !length_to_be_bytes).
  apply take_app_length.
Qed.

Lemma decode_f5_partial fuel p q more :
  payload_ok p -> f5_frame p = q ++ more -> more <> [] -> decode_f5 fuel q = (Ok [], q).
Proof.
  intros Hp Hq Hm. destruct fuel as [|fuel]; [done|]. cbn [decode_f5].
  case_decide; [done|]. destruct (f5_header p [] Hp) as (H0 & H2 & Hl).
  rewrite app_nil_r in H0, H2. rewrite Hq in H0, H2.
  rewrite !(be16_prefix q more), H0, H2, decide_False by (lia || by intros []).
  unfold len. rewrite Nat2Z.id, decide_True; [done|].
  apply (f_equal length) in Hq. rewrite length_app in Hq.
  destruct more; [done|simpl in Hq; lia].
Qed.

Lemma fortinet_header p more :
  payload_ok p -> len p + 6 <= U16_MAX ->
  be16 (fortinet_frame p ++ more) 0 = len p + 6
  /\ be16 (fortinet_frame p ++ more) 2 = FORTINET_MAGIC
  /\ be16 (fortinet_frame p ++ more) 4 = len p
  /\ length (fortinet_frame p) = (6 + length p)%nat.
Proof.
  intros _ Hp. unfold fortinet_frame, len in *.
  rewrite <- !(assoc_L (++)). split_and!.
  - apply (be16_at []); [done|ilia].
  - by apply (be16_at (to_be_bytes 2 _)).
  - rewrite (assoc_L (++) (to_be_bytes 2 _)). apply be16_at; [done|ilia].
  - by rewrite !length_app, !length_to_be_bytes.
Qed.

Lemma decode_fortinet_frame fuel p rest :
  payload_ok p -> len p + 6 <= U16_MAX ->
  decode_fortinet (S fuel) (fortinet_frame p ++ rest)
  = let '(r, rest') := decode_fortinet fuel rest in (frames ← r; Ok (p :: frames), rest').
Proof.
  intros Hp Hm. destruct (fortinet_header p rest Hp Hm) as (H0 & H2 & H4 & Hl).
  cbn [decode_fortinet]. rewrite decide_False by (rewrite length_app; lia).
  rewrite H2, decide_False by (by intros []).
  rewrite H0, H4. unfold len in *. rewrite decide_False by lia.
  replace (Z.to_nat (Z.of_nat (length p) + 6)) with (6 + length p)%nat by lia.
  rewrite Nat2Z.id, decide_False by (rewrite length_app; lia).
  rewrite (drop_app_length' (fortinet_frame p)) by lia.
  destruct (decode_fortinet fuel rest) as [[frames|e] rest']; [|done]. rbind.
  rewrite decide_True by (destruct Hp as [Hp _]; by destruct p).
  do 3 f_equal. unfold fortinet_frame.
  rewrite <- !(assoc_L (++)), (assoc_L (++) (to_be_bytes 2 FORTINET_MAGIC)),
    (assoc_L (++) (to_be_bytes 2 _)).
  rewrite (drop_app_length' _ _ 6) by (by rewrite !length_app, !length_to_be_bytes).
  apply take_app_length.
Qed.

Lemma decode_fortinet_partial fuel p q more :
  payload_ok p -> len p + 6 <= U16_MAX ->
  fortinet_frame p = q ++ more -> more <> [] -> decode_fortinet fuel q = (Ok [], q).
Proof.
  intros Hp Hb Hq Hm. destruct fuel as [|fuel]; [done|]. cbn [decode_fortinet].
  case_decide; [done|]. destruct (fortinet_header p [] Hp Hb) as (H0 & H2 & H4 & Hl).
  rewrite app_nil_r in H0, H2, H4. rewrite Hq in H0, H2, H4.
  rewrite !(be16_prefix q more), H0, H2, H4, decide_False by (lia || by intros []).
  unfold len. rewrite decide_False by lia. rewrite decide_True; [done|].
  apply (f_equal length) in Hq. rewrite length_app in Hq.
  destruct more; [done|simpl in Hq; lia].
Qed.

(** ** HDLC frames *)

Lemma skip_flags_replicate k l :
  skip_flags (replicate k HDLC_FLAG ++ l) = skip_flags l.
Proof. induction k as [|k IH]; [done|exact IH]. Qed.

Lemma skip_flags_other s l : HDLC_FLAG ∉ s -> s <> [] -> skip_flags (s ++ l) = s ++ l.
Proof.
  destruct s as [|x s]; [done|]. rewrite not_elem_of_cons. intros [Hx _] _. simpl.
  by rewrite decide_False.
Qed.

Lemma until_flag_Some s l :
  HDLC_FLAG ∉ s -> until_flag (s ++ HDLC_FLAG :: l) = Some (s, HDLC_FLAG :: l).
Proof.
  induction s as [|x s IH]; intros Hs; [done|]. simpl.
  apply not_elem_of_cons in Hs as [Hx Hs]. by rewrite decide_False, IH by done.
Qed.

Lemma until_flag_None s : HDLC_FLAG ∉ s -> until_flag s = None.
Proof.
  induction s as [|x s IH]; intros Hs; simpl; [done|].
  apply not_elem_of_cons in Hs as [Hx Hs]. by rewrite decide_False, IH by done.
Qed.

Lemma decode_hdlc_frame fuel k s rest :
  HDLC_FLAG ∉ s -> s <> [] ->
  decode_hdlc (S fuel) (replicate k HDLC_FLAG ++ HDLC_FLAG :: s ++ HDLC_FLAG :: rest)
  = let '(frames, rest') := decode_hdlc fuel (HDLC_FLAG :: rest) in
    (match decode_ppp_hdlc_frame s with Some f => f :: frames | None => frames end, rest').
Proof.
  intros Hs Hne.
  change (HDLC_FLAG :: s ++ HDLC_FLAG :: rest)
    with (replicate 1 HDLC_FLAG ++ s ++ HDLC_FLAG :: rest).
  rewrite (assoc_L (++)), <- replicate_add. replace (k + 1)%nat with (S k) by lia.
  cbn [decode_hdlc replicate app].
  change (HDLC_FLAG :: replicate k HDLC_FLAG ++ s ++ HDLC_FLAG :: rest)
    with (replicate (S k) HDLC_FLAG ++ s ++ HDLC_FLAG :: rest).
  rewrite skip_flags_replicate, skip_flags_other, until_flag_Some by done.
  destruct s as [|x s]; [done|]. done.
Qed.

(** An unfinished frame stays pending; of flags alone the last one stays. *)
Lemma decode_hdlc_partial fuel k s :
  HDLC_FLAG ∉ s ->
  decode_hdlc (S fuel) (replicate k HDLC_FLAG ++ HDLC_FLAG :: s)
  = ([], if decide (s = []) then [HDLC_FLAG]
         else replicate k HDLC_FLAG ++ HDLC_FLAG :: s).
Proof.
  intros Hs.
  change (HDLC_FLAG :: s) with (replicate 1 HDLC_FLAG ++ s).
  rewrite (assoc_L (++)), <- replicate_add. replace (k + 1)%nat with (S k) by lia.
  cbn [decode_hdlc replicate app].
  change (HDLC_FLAG :: replicate k HDLC_FLAG ++ s)
    with (replicate (S k) HDLC_FLAG ++ s).
  rewrite skip_flags_replicate. case_decide as E.
  - subst s. rewrite app_nil_r. cbn [skip_flags]. f_equal.
    rewrite length_replicate, drop_replicate. by replace (S k - (S k - 1))%nat with 1%nat by lia.
  - assert (skip_flags s = s) as ->
      by (rewrite <- (app_nil_r s); by rewrite skip_flags_other, app_nil_r by done).
    rewrite until_flag_None by done. by destruct s.
Qed.

(** ** A stream of frames *)

Definition sent (e : PppEncapsulation) (m : Z) (p enc : list Z) : Prop :=
  encode_ppp_frame e p m = Ok enc /\ bytes_ok p.

(** The part of the next frame that has arrived. *)
Definition partial (e : PppEncapsulation) (m : Z) (q : list Z) : Prop :=
  q = [] \/ exists p enc more, sent e m p enc /\ enc = q ++ more /\ more <> [].

(** What the decoder holds of it: HDLC keeps the flag that closed the last frame. *)
Definition holds (e : PppEncapsulation) (held q : list Z) : Prop :=
  held = q \/ (e = F5Hdlc /\ held = HDLC_FLAG :: q).

Lemma sent_length e m p enc : sent e m p enc -> (2 <= length enc)%nat.
Proof.
  intros [[[Hne _] He]%encode_frames_eq _].
  destruct e; [subst|subst|destruct He as [-> _]].
  - unfold f5_frame. rewrite !length_app, !length_to_be_bytes. lia.
  - simpl. rewrite length_app. simpl. lia.
  - unfold fortinet_frame. rewrite !length_app, !length_to_be_bytes. lia.
Qed.

Lemma concat_length e m ps encs :
  Forall2 (sent e m) ps encs -> (2 * length ps <= length (concat encs))%nat.
Proof.
  induction 1 as [|p enc ps encs Hs _ IH]; simpl; [lia|].
  rewrite length_app. apply sent_length in Hs. lia.
Qed.

Lemma decode_f5_run m ps encs q fuel :
  Forall2 (sent F5 m) ps encs -> partial F5 m q -> (length ps <= fuel)%nat ->
  decode_f5 fuel (concat encs ++ q) = (Ok ps, q).
Proof.
  intros Hs Hq. revert fuel. induction Hs as [|p enc ps encs [Hp%encode_frames_eq _] _ IH];
    intros fuel Hf; simpl in *.
  - destruct Hq as [->|(p & enc & more & [[Hp He]%encode_frames_eq _] & E & Hm)].
    + by destruct fuel.
    + subst enc. by apply (decode_f5_partial fuel p q more).
  - destruct Hp as [Hp ->]. destruct fuel as [|fuel]; [lia|].
    rewrite <- (assoc_L (++)), decode_f5_frame, IH by (done || lia). done.
Qed.

Lemma decode_fortinet_run m ps encs q fuel :
  Forall2 (sent Fortinet m) ps encs -> partial Fortinet m q -> (length ps <= fuel)%nat ->
  decode_fortinet fuel (concat encs ++ q) = (Ok ps, q).
Proof.
  intros Hs Hq. revert fuel. induction Hs as [|p enc ps encs [Hp%encode_frames_eq _] _ IH];
    intros fuel Hf; simpl in *.
  - destruct Hq as [->|(p & enc & more & [(Hp & He & Hb)%encode_frames_eq _] & E & Hm)].
    + by destruct fuel.
    + subst enc. by apply (decode_fortinet_partial fuel p q more).
  - destruct Hp as (Hp & -> & Hb). destruct fuel as [|fuel]; [lia|].
    rewrite <- (assoc_L (++)), decode_fortinet_frame, IH by (done || lia). done.
Qed.

(** A proper prefix of an HDLC frame has no flag but the first byte. *)
Lemma hdlc_partial m q :
  partial F5Hdlc m q -> q = [] \/ exists s, q = HDLC_FLAG :: s /\ HDLC_FLAG ∉ s.
Proof.
  intros [->|(p & enc & more & [[Hp He]%encode_frames_eq Hb] & E & Hm)]; [by left|].
  destruct q as [|x s]; [by left|]. right. rewrite He in E. injection E as <- E.
  exists s. split; [done|]. pose proof (stuffed_no_flag p m Hb) as Hn.
  destruct more as [|y more _] using rev_ind; [done|].
  rewrite (assoc_L (++)) in E. apply app_inj_tail in E as [E _]. rewrite E in Hn.
  by apply not_elem_of_app in Hn as [? _].
Qed.

Lemma decode_hdlc_run m ps encs q fuel b :
  Forall2 (sent F5Hdlc m) ps encs -> partial F5Hdlc m q -> (b <= 1)%nat ->
  (length ps < fuel)%nat ->
  exists held, decode_hdlc fuel (replicate b HDLC_FLAG ++ concat encs ++ q) = (ps, held)
  /\ holds F5Hdlc held q.
Proof.
  intros Hs Hq. revert fuel b. induction Hs as [|p enc ps encs [Hp%encode_frames_eq Hbp] _ IH];
    intros fuel b Hb Hf; simpl in *; (destruct fuel as [|fuel]; [lia|]).
  - destruct (hdlc_partial m q Hq) as [->|(s & -> & Hs)].
    + rewrite app_nil_r. destruct b as [|[|b]]; [by exists []; split; [|left]| |lia].
      exists [HDLC_FLAG]. split; [done|by right].
    + rewrite decode_hdlc_partial by done. eexists. split; [reflexivity|].
      case_decide as E; [subst; by left|]. destruct b as [|[|b]]; [by left|by right|lia].
  - destruct Hp as [[Hne Hp] ->].
    replace (replicate b HDLC_FLAG ++ ((HDLC_FLAG :: stuffed p m ++ [HDLC_FLAG]) ++ concat encs) ++ q)
      with (replicate b HDLC_FLAG ++ HDLC_FLAG :: stuffed p m ++ HDLC_FLAG :: (concat encs ++ q))
      by (f_equal; simpl; f_equal; by rewrite <- !(assoc_L (++))).
    rewrite decode_hdlc_frame by (by apply stuffed_no_flag || by apply stuffed_nonempty).
    destruct (IH fuel 1%nat) as (held & Hd & Hh); [lia|lia|].
    change (replicate 1 HDLC_FLAG ++ concat encs ++ q)
      with (HDLC_FLAG :: concat encs ++ q) in Hd.
    rewrite Hd, decode_stuffed by done. by exists held.
Qed.

Lemma frame_decode_step e m held q0 chunk ps encs q :
  holds e held q0 -> q0 ++ chunk = concat encs ++ q -> chunk <> [] ->
  Forall2 (sent e m) ps encs -> partial e m q ->
  exists held', decode e (held ++ chunk) = (Ok ps, held') /\ holds e held' q.
Proof.
  intros Hh Hq Hc Hs Hp.
  assert (exists b, (b <= 1)%nat /\ held ++ chunk = replicate b HDLC_FLAG ++ concat encs ++ q
    /\ (e <> F5Hdlc -> b = 0%nat)) as (b & Hb & Hl & Hbe).
  { destruct Hh as [->|[-> ->]].
    - exists 0%nat. split; [lia|]. by rewrite Hq.
    - exists 1%nat. split; [lia|]. split; [|done]. simpl. by rewrite Hq. }
  pose proof (concat_length e m ps encs Hs) as Hlen.
  assert (length (held ++ chunk) <> 0)%nat
    by (rewrite length_app; destruct chunk; [done|simpl; lia]).
  assert (length ps <= length (held ++ chunk) /\ (ps <> [] -> length ps < length (held ++ chunk)))%nat
    as [Hf1 Hf2].
  { rewrite Hl, !length_app. split; [lia|]. destruct ps; [done|]. simpl in *. lia. }
  unfold decode. destruct e.
  - rewrite Hl, (Hbe ltac:(done)) in *. exists q.
    split; [by eapply decode_f5_run|by left].
  - destruct (decode_hdlc_run m ps encs q (length (held ++ chunk)) b Hs Hp Hb)
      as (held' & Hd & Hh'); [destruct ps; [simpl; lia|by apply Hf2]|].
    rewrite <- Hl in Hd. rewrite Hd. by exists held'.
  - rewrite Hl, (Hbe ltac:(done)) in *. exists q.
    split; [by eapply decode_fortinet_run|by left].
Qed.

(** Less than the first of the frames that are still to come. *)
Definition before (q : list Z) (encs : list (list Z)) : Prop :=
  q = [] \/ exists enc encs', encs = enc :: encs' /\ (length q < length enc)%nat.

(** What has arrived of a stream: whole frames, and part of the next. *)
Lemma split_stream e m ps encs x more :
  Forall2 (sent e m) ps encs -> x ++ more = concat encs ->
  exists ps1 ps2 encs1 encs2 q, ps = ps1 ++ ps2 /\ encs = encs1 ++ encs2
  /\ Forall2 (sent e m) ps1 encs1 /\ Forall2 (sent e m) ps2 encs2
  /\ x = concat encs1 ++ q /\ q ++ more = concat encs2 /\ partial e m q
  /\ before q encs2.
Proof.
  intros Hs. revert x. induction Hs as [|p enc ps encs Hp Hs IH]; intros x Hx; simpl in Hx.
  - apply app_eq_nil in Hx as [-> ->]. exists [], [], [], [], []. split_and!; try done; by left.
  - destruct (decide (length x < length enc)%nat) as [Hlt|Hge].
    + exists [], (p :: ps), [], (enc :: encs), x.
      assert (enc = x ++ drop (length x) enc) as He.
      { apply (f_equal (take (length x))) in Hx as Ht.
        rewrite take_app_length, take_app_le in Ht by lia. rewrite Ht at 1. by rewrite take_drop. }
      split_and!; try done; [by constructor| |right; by exists enc, encs].
      right. exists p, enc, (drop (length x) enc). split_and!; [done|done|].
      intros E. apply (f_equal length) in E. rewrite length_drop in E. simpl in E. lia.
    + assert (x = enc ++ drop (length enc) x) as Hd.
      { apply (f_equal (take (length enc))) in Hx as Ht.
        rewrite take_app_length, take_app_le in Ht by lia. rewrite <- Ht at 1. by rewrite take_drop. }
      rewrite Hd, <- (assoc_L (++)) in Hx. apply app_inv_head in Hx.
      destruct (IH _ Hx) as (ps1 & ps2 & encs1 & encs2 & q & -> & -> & H1 & H2 & Hq & Hm & Hpq & Hlq).
      exists (p :: ps1), ps2, (enc :: encs1), encs2, q.
      split_and!; try done; [by constructor|simpl; rewrite <- (assoc_L (++)); congruence].
Qed.

Lemma push_all_stream e m bound chunks held q ps encs :
  holds e held q -> before q encs ->
  Forall2 (sent e m) ps encs -> q ++ concat chunks = concat encs ->
  0 <= bound -> Forall (fun enc => len enc <= bound) encs ->
  Forall (fun c => bound + 1 + len c <= PPP_MAXIMUM_WIRE_FRAME_SIZE) chunks ->
  exists d', push_all (mkDecoder e held) chunks = (Ok ps, d') /\ holds e (pending d') [].
Proof.
  intros Hh Hq Hs Hx Hb He Hc. revert held q ps encs Hh Hq Hs Hx He.
  induction Hc as [|c chunks Hc _ IH]; intros held q ps encs Hh Hq Hs Hx He; simpl in *.
  - rewrite app_nil_r in Hx. subst q. exists (mkDecoder e held).
    destruct Hs as [|p enc ps encs Hp Hs]; [by split|]. exfalso. simpl in Hq.
    pose proof (sent_length _ _ _ _ Hp).
    destruct Hq as [[-> _]%app_eq_nil|(enc' & encs' & [= <- <-] & Hl)]; [simpl in *; lia|].
    rewrite length_app in Hl. lia.
  - unfold push. case_decide as Ec.
    { subst c. destruct (IH held q ps encs) as (d' & Hd & Hh'); try done.
      rewrite Hd. by exists d'. }
    rewrite (assoc_L (++)) in Hx.
    destruct (split_stream e m ps encs (q ++ c) (concat chunks) Hs Hx)
      as (ps1 & ps2 & encs1 & encs2 & q' & -> & -> & H1 & H2 & Hqc & Hm & Hp & Hbef).
    destruct (frame_decode_step e m held q c ps1 encs1 q' Hh Hqc Ec H1 Hp) as (held' & Hd & Hh').
    apply Forall_app in He as [He1 He2].
    assert (len held <= bound + 1) as Hhl.
    { assert (len q <= bound).
      { unfold len in *. destruct Hq as [->|(enc & encs' & E & Hl)]; [simpl; lia|].
        assert (Forall (fun enc => Z.of_nat (length enc) <= bound) (encs1 ++ encs2)) as Hall
          by (by apply Forall_app).
        rewrite E in Hall. apply Forall_cons in Hall as [? _]. lia. }
      unfold len in *. destruct Hh as [->|[_ ->]]; simpl; lia. }
    cbn [pending encapsulation]. rewrite decide_False by (unfold saturating_add; lia).
    rewrite Hd. destruct (IH held' q' ps2 encs2) as (d' & Hd' & Hh''); try done.
    rewrite Hd'. by exists d'.
Qed.

(** C29: Framing is transparent, for every encapsulation and every async map:
    however the bytes of a run of encoded payloads are cut into reads, the
    decoder yields exactly the payloads, in order, and is left with nothing (or
    the flag that closed the last frame), as long as a read and a frame fit in
    its buffer together. *)
Theorem ppp_stream_transparent (e : PppEncapsulation) (async_map bound : Z)
    (payloads encoded chunks : list (list Z)) :
  Forall2 (fun p enc => encode_ppp_frame e p async_map = Ok enc) payloads encoded ->
  Forall bytes_ok payloads -> concat chunks = concat encoded ->
  0 <= bound -> Forall (fun enc => len enc <= bound) encoded ->
  Forall (fun c => bound + 1 + len c <= PPP_MAXIMUM_WIRE_FRAME_SIZE) chunks ->
  exists d', push_all (new e) chunks = (Ok payloads, d')
  /\ (pending d' = [] \/ (e = F5Hdlc /\ pending d' = [HDLC_FLAG])).
Proof.
  intros He Hb Hc Hbound Hs Hch.
  apply (push_all_stream e async_map bound chunks [] [] payloads encoded); try done; [by left..|].
  clear -He Hb. induction He; constructor; apply Forall_cons in Hb as [? ?]; [by split|auto].
Qed.

(** Two HDLC frames with escaped bytes, cut inside an escape and at a flag. *)
Definition encoded_example : list (list Z) :=
  Eval vm_compute in
    map (fun p => match encode_ppp_frame F5Hdlc p U32_MAX with Ok enc => enc | Err _ => [] end)
      [[255; 3; 126; 125; 17]; [192; 33; 1]].

Definition chunks_example : list (list Z) :=
  Eval vm_compute in
    let all := concat encoded_example in [take 5 all; []; take 9 (drop 5 all); drop 14 all].

Lemma ppp_stream_transparent_witness :
  exists d', push_all (new F5Hdlc) chunks_example
             = (Ok [[255; 3; 126; 125; 17]; [192; 33; 1]], d')
  /\ (pending d' = [] \/ (F5Hdlc = F5Hdlc /\ pending d' = [HDLC_FLAG])).
Proof.
  apply (ppp_stream_transparent F5Hdlc U32_MAX 100 _ encoded_example chunks_example).
  - do 2 (apply Forall2_cons_2; [by vm_compute|]). by apply Forall2_nil_2.
  - do 2 (apply Forall_cons_2; [by apply bytes_okb_true|]). by apply Forall_nil_2.
  - by vm_compute.
  - lia.
  - do 2 (apply Forall_cons_2; [by vm_compute|]). by apply Forall_nil_2.
  - do 4 (apply Forall_cons_2; [by vm_compute|]). by apply Forall_nil_2.
Defined.

End PppFrame.
