(* ===== verification/PppControl.v ===== *)
(** * PPP headers, control packets and options ([protocol/openconnect_ppp_control.rs])

    An IPv4 address is a [u32] and an IPv6 address a [u128], as in the prelude.
    The system's random source is the list of the four-byte draws it will make;
    it fails when the list is used up. *)

From stdpp Require Import base numbers list list_numbers.
From Stdlib Require Import ZArith Lia.
From S2P Require Import Prelude PppFrame.

Local Open Scope Z_scope.

Definition PPP_PROTOCOL_IPV4 : Z := 33.
Definition PPP_PROTOCOL_IPV6 : Z := 87.
Definition PPP_PROTOCOL_LCP : Z := 49185.
Definition PPP_PROTOCOL_IPCP : Z := 32801.
Definition PPP_PROTOCOL_IP6CP : Z := 32855.
Definition PPP_PROTOCOL_CCP : Z := 33021.

Definition PPP_CODE_CONFIGURE_REQUEST : Z := 1.
Definition PPP_CODE_CONFIGURE_ACKNOWLEDGEMENT : Z := 2.
Definition PPP_CODE_CONFIGURE_NEGATIVE_ACKNOWLEDGEMENT : Z := 3.
Definition PPP_CODE_CONFIGURE_REJECTION : Z := 4.
Definition PPP_CODE_TERMINATE_REQUEST : Z := 5.
Definition PPP_CODE_TERMINATE_ACKNOWLEDGEMENT : Z := 6.
Definition PPP_CODE_CODE_REJECTION : Z := 7.
Definition PPP_CODE_PROTOCOL_REJECTION : Z := 8.
Definition PPP_CODE_ECHO_REQUEST : Z := 9.
Definition PPP_CODE_ECHO_REPLY : Z := 10.
Definition PPP_CODE_DISCARD_REQUEST : Z := 11.

Definition PPP_LCP_OPTION_MRU : Z := 1.
Definition PPP_LCP_OPTION_ASYNC_MAP : Z := 2.
Definition PPP_LCP_OPTION_AUTHENTICATION : Z := 3.
Definition PPP_LCP_OPTION_MAGIC : Z := 5.
Definition PPP_LCP_OPTION_PROTOCOL_COMPRESSION : Z := 7.
Definition PPP_LCP_OPTION_ADDRESS_COMPRESSION : Z := 8.
Definition PPP_IPCP_OPTION_ADDRESSES : Z := 1.
Definition PPP_IPCP_OPTION_COMPRESSION : Z := 2.
Definition PPP_IPCP_OPTION_ADDRESS : Z := 3.
Definition PPP_IPCP_OPTION_PRIMARY_DNS : Z := 129.
Definition PPP_IPCP_OPTION_PRIMARY_NBNS : Z := 130.
Definition PPP_IPCP_OPTION_SECONDARY_DNS : Z := 131.
Definition PPP_IPCP_OPTION_SECONDARY_NBNS : Z := 132.
Definition PPP_IP6CP_OPTION_INTERFACE_ID : Z := 1.

Definition PPP_DEFAULT_MRU : Z := 1500.
Definition PPP_MINIMUM_MRU : Z := 128.

Record PppOption : Type := mkOption {
  kind : Z;
  value : list Z;
  raw : list Z;
}.

Record PppControlPacket : Type := mkControlPacket {
  code : Z;
  identifier : Z;
  control_payload : list Z;
}.

Record PppPacket : Type := mkPppPacket {
  protocol : Z;
  payload : list Z;
}.

Inductive PppControlError : Type :=
| TruncatedOptionHeader
| InvalidOptionLength (length : Z)
| OptionTooLarge
| ControlPacketTooLarge
| ControlPacketTooShort
| InvalidControlPacketLength (length : Z)
| EmptyPacket
| MissingProtocol
| TruncatedProtocol
| InvalidProtocolLowBit
| InvalidIpv4OptionLength (length : Z)
| InvalidIpv6InterfaceIdLength (length : Z).

Module PppControl.

Definition len (l : list Z) : Z := Z.of_nat (length l).

(** ** Options *)

(** The loop of [parse_ppp_options]; an iteration consumes at least two bytes. *)
Fixpoint parse_options (fuel : nat) (payload : list Z) : result PppControlError (list PppOption) :=
  match fuel, payload with
  | _, [] => Ok []
  | O, _ => Ok []
  | S _, [_] => Err TruncatedOptionHeader
  | S fuel, k :: length :: _ =>
      if decide (length < 2 \/ length > len payload) then Err (InvalidOptionLength length)
      else
        let n := Z.to_nat length in
        rest ← parse_options fuel (drop n payload);
        Ok (mkOption k (drop 2 (take n payload)) (take n payload) :: rest)
  end.

Definition parse_ppp_options (payload : list Z) : result PppControlError (list PppOption) :=
  parse_options (length payload) payload.

(** The vector [destination] is returned with the option appended. *)
Definition append_ppp_option (destination : list Z) (kind : Z) (value : list Z)
    : result PppControlError (list Z) :=
  if decide (len value + 2 <= U8_MAX)
  then Ok (destination ++ [kind; len value + 2] ++ value)
  else Err OptionTooLarge.

Definition append_ppp_option_u16 (destination : list Z) (kind value : Z) :=
  append_ppp_option destination kind (to_be_bytes 2 value).

Definition append_ppp_option_u32 (destination : list Z) (kind value : Z) :=
  append_ppp_option destination kind (to_be_bytes 4 value).

(** ** Control packets *)

Definition build_ppp_control_packet (code identifier : Z) (payload : list Z)
    : result PppControlError (list Z) :=
  let packet_length := len payload + 4 in
  if decide (packet_length > PPP_MAXIMUM_PAYLOAD_LENGTH) then Err ControlPacketTooLarge
  else Ok ([code; identifier] ++ to_be_bytes 2 packet_length ++ payload).

Definition parse_ppp_control_packet (packet : list Z)
    : result PppControlError PppControlPacket :=
  match packet with
  | code :: identifier :: b2 :: b3 :: _ =>
      let packet_length := from_be_bytes [b2; b3] in
      if decide (packet_length < 4 \/ packet_length > len packet)
      then Err (InvalidControlPacketLength packet_length)
      else Ok (mkControlPacket code identifier (drop 4 (take (Z.to_nat packet_length) packet)))
  | _ => Err ControlPacketTooShort
  end.

(** ** Packet headers *)

Definition build_ppp_packet_header (protocol : Z)
    (protocol_compression address_compression : bool) : list Z :=
  (if decide (protocol = PPP_PROTOCOL_LCP) then [255; 3]
   else if address_compression then [] else [255; 3])
  ++ (if bool_decide (protocol <= U8_MAX) && protocol_compression then [protocol]
      else to_be_bytes 2 protocol).

Definition parse_ppp_packet (packet : list Z) : result PppControlError PppPacket :=
  match packet with
  | [] => Err EmptyPacket
  | _ =>
      let rest := match packet with 255 :: 3 :: rest => rest | _ => packet end in
      match rest with
      | [] => Err MissingProtocol
      | first :: rest =>
          if decide (Z.land first 1 <> 0) then Ok (mkPppPacket first rest)
          else match rest with
               | [] => Err TruncatedProtocol
               | second :: rest =>
                   let protocol := from_be_bytes [first; second] in
                   if decide (Z.land protocol 1 = 0) then Err InvalidProtocolLowBit
                   else Ok (mkPppPacket protocol rest)
               end
      end
  end.

(** ** Magic numbers and addresses *)

(** Draws are repeated until one is not zero; the first component says whether
    the source was used up before. *)
Fixpoint random_ppp_magic (entropy : list (list Z)) : option (list Z) * list (list Z) :=
  match entropy with
  | [] => (None, [])
  | magic :: entropy =>
      if decide (magic <> [0; 0; 0; 0]) then (Some magic, entropy)
      else random_ppp_magic entropy
  end.

Definition ppp_ipv4_from_bytes (value : list Z) : result PppControlError Z :=
  if decide (length value = 4%nat) then Ok (from_be_bytes value)
  else Err (InvalidIpv4OptionLength (len value)).

Definition ppp_ipv6_from_interface_id (value : list Z) : result PppControlError Z :=
  if decide (length value = 8%nat)
  then Ok (from_be_bytes ([254; 128; 0; 0; 0; 0; 0; 0] ++ value))
  else Err (InvalidIpv6InterfaceIdLength (len value)).

Definition ppp_interface_id (address : IpAddr) : list Z :=
  match address with
  | IpV4 _ => [0; 0; 0; 0; 0; 0; 0; 0]
  | IpV6 address => drop 8 (to_be_bytes 16 address)
  end.

Global Arguments ppp_interface_id : simpl never.
Global Arguments ppp_ipv6_from_interface_id : simpl never.

(** ** Options round trip *)

Definition option_of (kv : Z * list Z) : PppOption :=
  mkOption kv.1 kv.2 ([kv.1; len kv.2 + 2] ++ kv.2).

Definition option_bytes (kvs : list (Z * list Z)) : list Z :=
  concat (map (fun kv => raw (option_of kv)) kvs).

Definition option_fits (kv : Z * list Z) : Prop := len kv.2 + 2 <= U8_MAX.

Lemma append_ppp_option_fits destination k v :
  option_fits (k, v) -> append_ppp_option destination k v = Ok (destination ++ raw (option_of (k, v))).
Proof. intros Hf. unfold append_ppp_option. by rewrite decide_True. Qed.

Lemma option_bytes_app kvs kvs' : option_bytes (kvs ++ kvs') = option_bytes kvs ++ option_bytes kvs'.
Proof. unfold option_bytes. by rewrite map_app, concat_app. Qed.

Lemma append_option_bytes kvs k v :
  option_fits (k, v) ->
  append_ppp_option (option_bytes kvs) k v = Ok (option_bytes (kvs ++ [(k, v)])).
Proof.
  intros Hf. rewrite append_ppp_option_fits by done. rewrite option_bytes_app.
  change (option_bytes [(k, v)]) with (raw (option_of (k, v)) ++ []). by rewrite app_nil_r.
Qed.

Lemma parse_options_bytes kvs fuel :
  Forall option_fits kvs -> (length (option_bytes kvs) <= fuel)%nat ->
  parse_options fuel (option_bytes kvs) = Ok (map option_of kvs).
Proof.
  intros Hk. revert fuel. induction Hk as [|[k v] kvs Hf _ IH]; intros fuel Hl; [by destruct fuel|].
  unfold option_bytes in *. cbn [map concat option_of raw fst snd app length] in *.
  rewrite length_app in Hl. destruct fuel as [|fuel]; [lia|]. cbn [parse_options].
  unfold option_fits in Hf. cbn [snd] in Hf.
  rewrite decide_False by (unfold len in *; simpl length; rewrite length_app; lia).
  replace (Z.to_nat (len v + 2)) with (S (S (length v))) by (unfold len; lia).
  cbn [drop take]. rewrite drop_app_length, take_app_length, IH by lia. done.
Qed.

Lemma parse_ppp_options_bytes kvs :
  Forall option_fits kvs -> parse_ppp_options (option_bytes kvs) = Ok (map option_of kvs).
Proof. intros Hk. by apply parse_options_bytes. Qed.

(** Conversely, what parses is the concatenation of the options it parses to:
    rejecting an option echoes its bytes. *)
Lemma parse_options_raw fuel payload opts :
  parse_options fuel payload = Ok opts -> (length payload <= fuel)%nat ->
  concat (map raw opts) = payload
  /\ Forall (fun o => raw o = [kind o; len (value o) + 2] ++ value o) opts.
Proof.
  revert payload opts. induction fuel as [|fuel IH]; intros payload opts Hp Hl.
  { destruct payload; [|simpl in Hl; lia]. injection Hp as <-. by split. }
  destruct payload as [|k [|n rest]]; [injection Hp as <-; by split|done|].
  cbn [parse_options] in Hp. case_decide as Hn; [done|].
  apply bind_Ok in Hp as (opts' & Hp & [= <-]).
  assert (exists m, Z.to_nat n = S (S m)) as [m Hm]
    by (exists (Z.to_nat n - 2)%nat; lia).
  rewrite Hm in Hp. rewrite Hm. cbn [drop take] in *.
  apply IH in Hp as [Hc Hr]; [|simpl in Hl; rewrite length_drop; lia]. split.
  - cbn [map concat raw app]. by rewrite Hc, take_drop.
  - constructor; [|done]. cbn [raw kind value app]. do 2 f_equal.
    unfold len in *. simpl length in Hn. rewrite drop_0, length_take. lia.
Qed.

Lemma parse_ppp_options_raw payload opts :
  parse_ppp_options payload = Ok opts ->
  concat (map raw opts) = payload
  /\ Forall (fun o => raw o = [kind o; len (value o) + 2] ++ value o) opts.
Proof. intros Hp. by eapply parse_options_raw. Qed.

(** ** Control packets and headers round trip *)

Lemma parse_build_control code identifier payload packet :
  build_ppp_control_packet code identifier payload = Ok packet ->
  parse_ppp_control_packet packet = Ok (mkControlPacket code identifier payload).
Proof.
  unfold build_ppp_control_packet. case_decide as Hl; [done|]. intros <-%Ok_inj.
  destruct (to_be_bytes 2 (len payload + 4)) as [|b2 [|b3 [|]]] eqn:E;
    try (apply (f_equal length) in E; rewrite length_to_be_bytes in E; done).
  cbn [app parse_ppp_control_packet]. rewrite <- E.
  unfold PPP_MAXIMUM_PAYLOAD_LENGTH, len in *.
  rewrite from_to_be_bytes by (change (2 ^ (8 * Z.of_nat 2)) with 65536; ilia).
  rewrite decide_False by (simpl length; lia).
  replace (Z.to_nat (Z.of_nat (length payload) + 4)) with (4 + length payload)%nat by lia.
  cbn [Nat.add take drop]. by rewrite firstn_all.
Qed.

Definition packet_bytes (code identifier : Z) (payload : list Z) : list Z :=
  [code; identifier] ++ to_be_bytes 2 (len payload + 4) ++ payload.

Lemma build_control_fits code identifier payload :
  len payload + 4 <= PPP_MAXIMUM_PAYLOAD_LENGTH ->
  build_ppp_control_packet code identifier payload = Ok (packet_bytes code identifier payload).
Proof. intros Hl. unfold build_ppp_control_packet. by rewrite decide_False by lia. Qed.

Lemma parse_packet_bytes_eq code identifier payload :
  len payload + 4 <= PPP_MAXIMUM_PAYLOAD_LENGTH ->
  parse_ppp_control_packet (packet_bytes code identifier payload)
  = Ok (mkControlPacket code identifier payload).
Proof. intros Hl. by apply parse_build_control, build_control_fits. Qed.

(** A protocol number as PPP assigns them: the low bit of the low byte is set,
    that of the high byte is not.  The number 255 is excluded: compressed, it
    is the first byte of an uncompressed address field. *)
Definition protocol_ok (protocol : Z) : Prop :=
  is_u16 protocol /\ Z.land protocol 1 = 1 /\ Z.land (Z.shiftr protocol 8) 1 = 0
  /\ protocol <> 255.

Lemma to_be_bytes_2 x : to_be_bytes 2 x = [Z.land (Z.shiftr x 8) 255; Z.land x 255].
Proof. done. Qed.

Lemma land_255_1 x : Z.land (Z.land x 255) 1 = Z.land x 1.
Proof. by rewrite <- Z.land_assoc. Qed.

Lemma parse_ppp_rest (packet : list Z) first rest :
  (match packet with 255 :: 3 :: rest => rest | _ => packet end) = first :: rest ->
  parse_ppp_packet packet
  = if decide (Z.land first 1 <> 0) then Ok (mkPppPacket first rest)
    else match rest with
         | [] => Err TruncatedProtocol
         | second :: rest =>
             if decide (Z.land (from_be_bytes [first; second]) 1 = 0)
             then Err InvalidProtocolLowBit
             else Ok (mkPppPacket (from_be_bytes [first; second]) rest)
         end.
Proof. intros E. destruct packet as [|x packet]; [done|]. unfold parse_ppp_packet. by rewrite E. Qed.

Lemma parse_two_bytes protocol payload :
  protocol_ok protocol -> protocol <> 65283 ->
  parse_ppp_packet (to_be_bytes 2 protocol ++ payload) = Ok (mkPppPacket protocol payload).
Proof.
  intros (Hu & Hl & Hh & _) Hff. pose proof (from_to_be_bytes 2 protocol) as Hft.
  change (2 ^ (8 * Z.of_nat 2)) with 65536 in Hft. specialize (Hft ltac:(ilia)).
  rewrite to_be_bytes_2 in *. cbn [app].
  set (first := Z.land (Z.shiftr protocol 8) 255) in *.
  assert (Z.land first 1 = 0) as Hf by (unfold first; by rewrite land_255_1).
  rewrite (parse_ppp_rest _ first (Z.land protocol 255 :: payload)).
  - rewrite decide_False by (intros Hn; lia). rewrite Hft, decide_False by lia. done.
  - clearbody first. destruct (decide (first = 255)) as [->|]; [done|].
    by repeat (case_match; subst; try done).
Qed.

Lemma parse_build_header protocol pc ac payload :
  protocol_ok protocol ->
  parse_ppp_packet (build_ppp_packet_header protocol pc ac ++ payload)
  = Ok (mkPppPacket protocol payload).
Proof.
  intros Hp. destruct (Hp) as (Hu & Hl & Hh & H255).
  set (field := if bool_decide (protocol <= U8_MAX) && pc then [protocol] else to_be_bytes 2 protocol).
  assert (protocol <> 65283) as Hff by (intros ->; done).
  assert (parse_ppp_packet (field ++ payload) = Ok (mkPppPacket protocol payload)
    /\ field <> [] /\ (forall l, field ++ payload <> 255 :: 3 :: l)) as (Hf & Hne & Hn).
  { destruct (bool_decide (protocol <= U8_MAX) && pc) eqn:E; unfold field; clear field.
    - cbn [app]. rewrite (parse_ppp_rest _ protocol payload).
      + rewrite decide_True by lia. split; [done|]. split; [done|]. intros l [= ? ?]. done.
      + by repeat (case_match; subst; try done).
    - split; [by apply parse_two_bytes|]. rewrite to_be_bytes_2. split; [done|].
      intros l [= E1 _]. rewrite <- land_255_1, E1 in Hh. done. }
  unfold build_ppp_packet_header. fold field. rewrite <- (assoc_L (++)).
  assert (parse_ppp_packet ([255; 3] ++ field ++ payload) = Ok (mkPppPacket protocol payload)).
  { rewrite <- Hf. destruct field as [|x field]; [done|]. cbn [app].
    rewrite (parse_ppp_rest _ x (field ++ payload)) by done.
    rewrite (parse_ppp_rest (x :: field ++ payload) x (field ++ payload)); [done|].
    cbn [app] in Hn. by repeat (case_match; subst; try done; try by edestruct Hn). }
  case_decide; [done|]. by destruct ac.
Qed.

(** ** Values *)

Lemma random_ppp_magic_spec entropy magic entropy' :
  random_ppp_magic entropy = (Some magic, entropy') ->
  magic ∈ entropy /\ magic <> [0; 0; 0; 0] /\ (exists used, entropy = used ++ entropy').
Proof.
  induction entropy as [|m entropy IH]; simpl; [done|]. case_decide as Hm.
  - intros [= -> ->]. split; [left|]. split; [done|]. by exists [magic].
  - intros (Hin & Hne & used & ->)%IH. split; [by right|]. split; [done|]. by exists (m :: used).
Qed.

Lemma interface_id_from value address :
  bytes_ok value -> ppp_ipv6_from_interface_id value = Ok address ->
  ppp_interface_id (IpV6 address) = value.
Proof.
  intros Hv. unfold ppp_ipv6_from_interface_id. case_decide as Hl; [|done]. intros <-%Ok_inj.
  unfold ppp_interface_id. rewrite to_from_be_bytes_len; [by rewrite drop_app_length' | |].
  - apply Forall_app. split; [by apply bytes_okb_true|done].
  - by rewrite length_app, Hl.
Qed.

(** ** Bytes stay bytes *)

Lemma parse_packet_bytes packet p :
  bytes_ok packet -> parse_ppp_packet packet = Ok p -> bytes_ok (payload p).
Proof.
  intros Hb. unfold parse_ppp_packet. destruct packet as [|x packet]; [done|].
  set (rest := match x :: packet with 255 :: 3 :: rest => rest | _ => x :: packet end).
  assert (bytes_ok rest) as Hr.
  { unfold rest. repeat case_match; try done; subst.
    by do 2 (apply Forall_cons in Hb as [_ Hb]). }
  clearbody rest. destruct rest as [|first rest]; [done|]. apply Forall_cons in Hr as [_ Hr].
  case_decide; [by intros <-%Ok_inj|]. destruct rest as [|second rest]; [done|].
  apply Forall_cons in Hr as [_ Hr]. case_decide; [done|]. by intros <-%Ok_inj.
Qed.

Lemma parse_control_bytes packet p :
  bytes_ok packet -> parse_ppp_control_packet packet = Ok p -> bytes_ok (control_payload p).
Proof.
  intros Hb. unfold parse_ppp_control_packet. do 4 (destruct packet as [|? packet]; [done|]).
  case_decide; [done|]. intros <-%Ok_inj. cbn [control_payload].
  by apply Forall_drop, Forall_take.
Qed.

Lemma parse_options_ok payload opts :
  bytes_ok payload -> parse_ppp_options payload = Ok opts ->
  Forall (fun o => bytes_ok (value o)) opts.
Proof.
  intros Hb [<- Hr]%parse_ppp_options_raw. induction Hr as [|o opts Ho _ IH]; [done|].
  cbn [map concat] in Hb. apply Forall_app in Hb as [Hb Hbs]. constructor; [|auto].
  rewrite Ho in Hb. by apply Forall_app in Hb as [_ Hb].
Qed.

End PppControl.
