(* ===== verification/PppNegotiation.v ===== *)
(** * PPP negotiation ([protocol/openconnect_ppp_negotiation.rs])

    The state machine that negotiates LCP, IPCP and IP6CP with the peer and then
    carries IP packets.  Every method is a [method] of the prelude on the
    negotiator: what it has written before it fails stays written.  The record
    has one field the code does not have, [entropy], the draws the system's
    random source will make.  Of a tunnel configuration it has the fields the
    negotiation fills in; the others are empty. *)

From stdpp Require Import base numbers list list_numbers gmap.
From Stdlib Require Import ZArith Lia.
From S2P Require Import Prelude PppFrame PppControl.

Local Open Scope Z_scope.
Local Open Scope record_scope.

Definition PPP_DEFAULT_TUNNEL_MTU : Z := 1400.
Definition PPP_DEFAULT_BASE_MTU : Z := 1406.
Definition PPP_DEFAULT_NEGOTIATION_PERIOD : Z := from_secs 3.
Definition PPP_DEFAULT_NEGOTIATION_ATTEMPTS : Z := 10.
Definition PPP_DEFAULT_ECHO_FAILURES : Z := 3.
Definition PPP_MINIMUM_IPV6_MTU : Z := 1280.
Definition PPP_HDLC_CONTROL_ESCAPE_MASK : Z := U32_MAX.

(** A prefix is an address with its length. *)
Record PppNegotiatorOptions : Type := mkOptions {
  opt_encapsulation : PppEncapsulation;
  opt_want_ipv4 : bool;
  opt_want_ipv6 : bool;
  ipv4_address : option (Z * Z);
  ipv6_address : option (Z * Z);
  lock_addresses : bool;
  mtu : Z;
  request_ipv4_name_servers : bool;
  negotiation_period : Z;
  negotiation_attempts : Z;
  echo_interval : Z;
  echo_failures : Z;
}.

Global Instance options_eta : Settable PppNegotiatorOptions := fun o =>
  mkOptions (opt_encapsulation o) (opt_want_ipv4 o) (opt_want_ipv6 o) (ipv4_address o)
    (ipv6_address o) (lock_addresses o) (mtu o) (request_ipv4_name_servers o)
    (negotiation_period o) (negotiation_attempts o) (echo_interval o) (echo_failures o).

Definition default_options : PppNegotiatorOptions :=
  mkOptions Fortinet true true None None false PPP_DEFAULT_TUNNEL_MTU false
    PPP_DEFAULT_NEGOTIATION_PERIOD PPP_DEFAULT_NEGOTIATION_ATTEMPTS 0
    PPP_DEFAULT_ECHO_FAILURES.

Inductive PppNegotiationPhase : Type := Establishing | Network | Terminating.

Global Instance phase_eq_dec : EqDecision PppNegotiationPhase.
Proof. solve_decision. Defined.

Record PppOutboundPacket : Type := mkOutbound {
  out_protocol : Z;
  out_payload : list Z;
  protocol_compression : bool;
  address_compression : bool;
  async_map : Z;
}.

Record PppNegotiationEvent : Type := mkEvent {
  outbound : list PppOutboundPacket;
  delivered : option (list Z);
  network_ready : bool;
  peer_terminated : bool;
  termination_acknowledged : bool;
}.

Global Instance event_eta : Settable PppNegotiationEvent := fun e =>
  mkEvent (outbound e) (delivered e) (network_ready e) (peer_terminated e)
    (termination_acknowledged e).

Definition default_event : PppNegotiationEvent := mkEvent [] None false false false.

(** The text of an [InvalidNak] names the option; here it is the option kind. *)
Inductive PppNegotiationError : Type :=
| Random
| Control (e : PppControlError)
| Frame (e : PppFrameError)
| NoNetworkFamily
| InvalidMtu (mtu : Z)
| UnsupportedControlProtocol (protocol : Z)
| NoNetworkProtocol
| Ipv4Rejected
| Ipv4AddressChanged (old new : Z)
| Ipv6AddressChanged
| InvalidNameServer (kind : Z)
| UnknownLcpOption (kind : Z)
| UnknownIpcpOption (kind : Z)
| UnknownIp6cpOption (kind : Z)
| InvalidNak (option : Z)
| AttemptsExhausted (protocol : Z)
| NegotiationTimedOut (protocol : Z)
| MissingIpv4Address
| MissingIpv6Address
| EchoOnNonLcp
| InvalidProtocolReject
| CodeRejected
| UnsupportedControlCode (code : Z)
| PeerDead
| DataChannelNotReady
| DataPacketTooLarge (length mtu : Z)
| InvalidDataPacket
| DisabledNetworkFamily
| InvalidOutboundPacket.

Record ControlState : Type := mkControl {
  next_identifier : Z;
  request_identifier : Z;
  request_sent : bool;
  request_acknowledged : bool;
  peer_request_acknowledged : bool;
  request_attempts : Z;
  last_request : option Z;
}.

Global Instance control_eta : Settable ControlState := fun c =>
  mkControl (next_identifier c) (request_identifier c) (request_sent c)
    (request_acknowledged c) (peer_request_acknowledged c) (request_attempts c)
    (last_request c).

Definition default_control : ControlState := mkControl 0 0 false false false 0 None.

Record TunnelConfiguration : Type := mkConfiguration {
  configured_mtu : Z;
  addresses : list (IpAddr * Z);
  dns : list IpAddr;
  nbns : list IpAddr;
}.

Record PppNegotiator : Type := mkNegotiator {
  options : PppNegotiatorOptions;
  phase : PppNegotiationPhase;
  lcp : ControlState;
  ipcp : ControlState;
  ip6cp : ControlState;
  local_mru : Z;
  peer_mru : Z;
  local_magic : list Z;
  local_magic_enabled : bool;
  request_async_map : bool;
  request_protocol_compression : bool;
  request_address_compression : bool;
  local_async_map : Z;
  outbound_protocol_compression : bool;
  outbound_address_compression : bool;
  request_mru : bool;
  addresses_locked : bool;
  want_ipv4 : bool;
  want_ipv6 : bool;
  local_ipv4 : option Z;
  peer_ipv4 : option Z;
  local_ipv6 : option Z;
  peer_ipv6 : option Z;
  name_server_requests : gmap Z Z;
  configuration : option TunnelConfiguration;
  last_received : Z;
  pending_echo : bool;
  pending_echo_identifier : Z;
  pending_echo_sent : Z;
  missed_echo_replies : Z;
  entropy : list (list Z);
}.

Global Instance negotiator_eta : Settable PppNegotiator := fun n =>
  mkNegotiator (options n) (phase n) (lcp n) (ipcp n) (ip6cp n) (local_mru n) (peer_mru n)
    (local_magic n) (local_magic_enabled n) (request_async_map n)
    (request_protocol_compression n) (request_address_compression n) (local_async_map n)
    (outbound_protocol_compression n) (outbound_address_compression n) (request_mru n)
    (addresses_locked n) (want_ipv4 n) (want_ipv6 n) (local_ipv4 n) (peer_ipv4 n)
    (local_ipv6 n) (peer_ipv6 n) (name_server_requests n) (configuration n)
    (last_received n) (pending_echo n) (pending_echo_identifier n) (pending_echo_sent n)
    (missed_echo_replies n) (entropy n).

Module Negotiator.

Definition len (l : list Z) : Z := Z.of_nat (length l).

Definition N (A : Type) : Type := method PppNegotiator PppNegotiationError A.

Definition control {A} (r : result PppControlError A) : N A := lift (map_err Control r).

(** ** Link parameters *)

Definition ppp_maximum_tunnel_mtu (e : PppEncapsulation) : Z :=
  let maximum := PPP_MAXIMUM_PAYLOAD_LENGTH - 4 in
  match e with Fortinet => maximum - 6 | _ => maximum end.

Definition calculate_ppp_tunnel_mtu (requested_mtu base_mtu : Z) (outer_ipv6 : bool)
    (e : PppEncapsulation) : Z :=
  let base_mtu := if decide (base_mtu = 0) then PPP_DEFAULT_BASE_MTU else base_mtu in
  let base_mtu := Z.max base_mtu PPP_MINIMUM_IPV6_MTU in
  let mtu := if decide (requested_mtu = 0)
             then base_mtu - (if outer_ipv6 then 40 else 20) - 20 else requested_mtu in
  let mtu := mtu - match e with F5 | F5Hdlc => 10 | Fortinet => 15 end in
  let mtu := match e with F5Hdlc => mtu - Z.shiftr mtu 5 | _ => mtu end in
  wrap32 mtu.

(** [PppOutboundPacket::encode]. *)
Definition encode (p : PppOutboundPacket) (e : PppEncapsulation)
    : result PppNegotiationError (list Z) :=
  if decide (out_protocol p = 0 \/ out_payload p = []) then Err InvalidOutboundPacket
  else map_err Frame
    (PppFrame.encode_ppp_frame e
       (PppControl.build_ppp_packet_header (out_protocol p) (protocol_compression p)
          (address_compression p) ++ out_payload p)
       (async_map p)).

(** ** Construction *)

Definition name_server_kinds : list Z :=
  [PPP_IPCP_OPTION_PRIMARY_DNS; PPP_IPCP_OPTION_PRIMARY_NBNS;
   PPP_IPCP_OPTION_SECONDARY_DNS; PPP_IPCP_OPTION_SECONDARY_NBNS].

(** Options that are zero are replaced by their defaults. *)
Definition with_defaults (o : PppNegotiatorOptions) : PppNegotiatorOptions :=
  let o := if decide (negotiation_period o = 0)
           then o <| negotiation_period := PPP_DEFAULT_NEGOTIATION_PERIOD |> else o in
  let o := if decide (negotiation_attempts o = 0)
           then o <| negotiation_attempts := PPP_DEFAULT_NEGOTIATION_ATTEMPTS |> else o in
  if decide (echo_failures o = 0)
  then o <| echo_failures := PPP_DEFAULT_ECHO_FAILURES |> else o.

Definition fresh (o : PppNegotiatorOptions) (magic : list Z) (entropy : list (list Z)) (now : Z)
    : PppNegotiator :=
  let fortinet := match opt_encapsulation o with Fortinet => true | _ => false end in
  mkNegotiator o Establishing default_control default_control default_control
    (wrap16 (mtu o)) PPP_DEFAULT_MRU magic true
    (match opt_encapsulation o with F5Hdlc => true | _ => false end)
    (negb fortinet) (negb fortinet) 0 false false true (lock_addresses o)
    (opt_want_ipv4 o) (opt_want_ipv6 o) (fst <$> ipv4_address o) None
    (fst <$> ipv6_address o) None
    (if request_ipv4_name_servers o then list_to_map (map (fun k => (k, 0)) name_server_kinds)
     else ∅)
    None now false 0 now 0 entropy.

Definition new (o : PppNegotiatorOptions) (entropy : list (list Z)) (now : Z)
    : result PppNegotiationError PppNegotiator :=
  if negb (opt_want_ipv4 o) && negb (opt_want_ipv6 o) then Err NoNetworkFamily
  else
    let o := if decide (mtu o = 0) then o <| mtu := PPP_DEFAULT_TUNNEL_MTU |> else o in
    if decide (mtu o < PPP_MINIMUM_MRU \/ mtu o > ppp_maximum_tunnel_mtu (opt_encapsulation o))
    then Err (InvalidMtu (mtu o))
    else match PppControl.random_ppp_magic entropy with
         | (Some magic, entropy) => Ok (fresh (with_defaults o) magic entropy now)
         | (None, _) => Err Random
         end.

(** ** Sending *)

Definition draw_magic : N (list Z) := fun n =>
  match PppControl.random_ppp_magic (entropy n) with
  | (Some magic, rest) => (Ok magic, n <| entropy := rest |>)
  | (None, rest) => (Err Random, n <| entropy := rest |>)
  end.

Definition redraw_magic : N (list Z) :=
  magic ← draw_magic;
  _ ← modify (fun n => n <| local_magic := magic |>);
  mret magic.

Definition outbound_packet (n : PppNegotiator) (protocol : Z) (payload : list Z)
    : PppOutboundPacket :=
  mkOutbound protocol payload (outbound_protocol_compression n) (outbound_address_compression n)
    (if decide (protocol = PPP_PROTOCOL_LCP) then PPP_HDLC_CONTROL_ESCAPE_MASK
     else local_async_map n).

(** Build a control packet and address it to the peer. *)
Definition control_packet (protocol code identifier : Z) (payload : list Z)
    : N PppOutboundPacket :=
  packet ← control (PppControl.build_ppp_control_packet code identifier payload);
  gets (fun n => outbound_packet n protocol packet).

Definition control_state (protocol : Z) (n : PppNegotiator)
    : result PppNegotiationError ControlState :=
  if decide (protocol = PPP_PROTOCOL_LCP) then Ok (lcp n)
  else if decide (protocol = PPP_PROTOCOL_IPCP) then Ok (ipcp n)
  else if decide (protocol = PPP_PROTOCOL_IP6CP) then Ok (ip6cp n)
  else Err (UnsupportedControlProtocol protocol).

(** [control_state_mut], with what is done to the state it returns. *)
Definition control_state_mut (protocol : Z) (f : ControlState -> ControlState) : N unit :=
  if decide (protocol = PPP_PROTOCOL_LCP) then modify (fun n => n <| lcp ::= f |>)
  else if decide (protocol = PPP_PROTOCOL_IPCP) then modify (fun n => n <| ipcp ::= f |>)
  else if decide (protocol = PPP_PROTOCOL_IP6CP) then modify (fun n => n <| ip6cp ::= f |>)
  else throw (UnsupportedControlProtocol protocol).

Definition lcp_request_options : N (list Z) :=
  n ← gets id;
  payload ← (if request_mru n
             then control (PppControl.append_ppp_option_u16 [] PPP_LCP_OPTION_MRU (local_mru n))
             else mret []);
  payload ← (if request_async_map n
             then control (PppControl.append_ppp_option_u32 payload PPP_LCP_OPTION_ASYNC_MAP
                             (local_async_map n))
             else mret payload);
  payload ← (if local_magic_enabled n
             then magic ← redraw_magic;
                  control (PppControl.append_ppp_option payload PPP_LCP_OPTION_MAGIC magic)
             else mret payload);
  payload ← (if request_protocol_compression n
             then control (PppControl.append_ppp_option payload
                             PPP_LCP_OPTION_PROTOCOL_COMPRESSION [])
             else mret payload);
  if request_address_compression n
  then control (PppControl.append_ppp_option payload PPP_LCP_OPTION_ADDRESS_COMPRESSION [])
  else mret payload.

Definition ipcp_request_options : N (list Z) :=
  n ← gets id;
  payload ← control (PppControl.append_ppp_option [] PPP_IPCP_OPTION_ADDRESS
                       (to_be_bytes 4 (default 0 (local_ipv4 n))));
  for_each (fun payload '(kind, address) =>
              control (PppControl.append_ppp_option payload kind (to_be_bytes 4 address)))
    (entries (name_server_requests n)) payload.

Definition ip6cp_request_options : N (list Z) :=
  n ← gets id;
  control (PppControl.append_ppp_option [] PPP_IP6CP_OPTION_INTERFACE_ID
             (match local_ipv6 n with
              | Some address => PppControl.ppp_interface_id (IpV6 address)
              | None => replicate 8 0
              end)).

(** The options of a request; only those of LCP draw a magic number. *)
Definition request_options (p : Z) : N (list Z) :=
  if decide (p = PPP_PROTOCOL_LCP) then lcp_request_options
  else if decide (p = PPP_PROTOCOL_IPCP) then ipcp_request_options
  else if decide (p = PPP_PROTOCOL_IP6CP) then ip6cp_request_options
  else throw (UnsupportedControlProtocol p).

(** A new request: the next identifier, one more attempt, sent now. *)
Definition new_request (now : Z) (c : ControlState) : ControlState :=
  let identifier := wrap8 (next_identifier c + 1) in
  mkControl identifier identifier true false (peer_request_acknowledged c)
    (request_attempts c + 1) (Some now).

Definition build_configuration_request (protocol now : Z) : N PppOutboundPacket :=
  payload ← request_options protocol;
  _ ← control_state_mut protocol (new_request now);
  n ← gets id;
  state ← lift (control_state protocol n);
  control_packet protocol PPP_CODE_CONFIGURE_REQUEST (request_identifier state) payload.

Definition start (now : Z) : N (list PppOutboundPacket) :=
  request ← build_configuration_request PPP_PROTOCOL_LCP now;
  mret [request].

(** The next identifier of LCP, for packets other than requests. *)
Definition next_lcp_identifier : N Z :=
  _ ← modify (fun n => n <| lcp ::= fun c =>
        c <| next_identifier := wrap8 (next_identifier c + 1) |> |>);
  gets (fun n => next_identifier (lcp n)).

Definition terminate_request : N PppOutboundPacket :=
  _ ← modify (fun n => n <| phase := Terminating |>);
  identifier ← next_lcp_identifier;
  control_packet PPP_PROTOCOL_LCP PPP_CODE_TERMINATE_REQUEST identifier [].

Definition protocol_rejection (protocol : Z) (payload : list Z) : N (list PppOutboundPacket) :=
  n ← gets id;
  let maximum := Z.min (len payload + 2) (Z.max (saturating_sub (peer_mru n) 10) 2) in
  identifier ← next_lcp_identifier;
  packet ← control_packet PPP_PROTOCOL_LCP PPP_CODE_PROTOCOL_REJECTION identifier
             (to_be_bytes 2 protocol ++ take (Z.to_nat (maximum - 2)) payload);
  mret [packet].

Definition build_data_packet (n : PppNegotiator) (payload : list Z)
    : result PppNegotiationError PppOutboundPacket :=
  if decide (phase n <> Network) then Err DataChannelNotReady
  else match payload with
       | [] => Err InvalidDataPacket
       | first :: _ =>
           let mtu := Z.min (local_mru n) (peer_mru n) in
           if decide (len payload > mtu) then Err (DataPacketTooLarge (len payload) mtu)
           else
             let version := Z.shiftr first 4 in
             if bool_decide (version = 4) && want_ipv4 n
             then Ok (outbound_packet n PPP_PROTOCOL_IPV4 payload)
             else if bool_decide (version = 6) && want_ipv6 n
             then Ok (outbound_packet n PPP_PROTOCOL_IPV6 payload)
             else if decide (version = 4 \/ version = 6) then Err DisabledNetworkFamily
             else Err InvalidDataPacket
       end.

(** ** Completing the negotiation *)

Definition servers (n : PppNegotiator) (kinds : list Z) : list IpAddr :=
  omap (fun kind =>
          match name_server_requests n !! kind with
          | Some address => if decide (address = 0) then None else Some (IpV4 address)
          | None => None
          end) kinds.

(** [None] is the panic of an address that was not validated. *)
Definition build_configuration (n : PppNegotiator) : option TunnelConfiguration :=
  v4 ← (if want_ipv4 n
        then address ← local_ipv4 n;
             Some [(IpV4 address, from_option snd 32 (ipv4_address (options n)))]
        else Some []);
  v6 ← (if want_ipv6 n
        then address ← local_ipv6 n;
             Some [(IpV6 address, from_option snd 64 (ipv6_address (options n)))]
        else Some []);
  Some (mkConfiguration (Z.min (local_mru n) (peer_mru n)) (v4 ++ v6)
          (servers n [PPP_IPCP_OPTION_PRIMARY_DNS; PPP_IPCP_OPTION_SECONDARY_DNS])
          (servers n [PPP_IPCP_OPTION_PRIMARY_NBNS; PPP_IPCP_OPTION_SECONDARY_NBNS])).

Definition both_acknowledged (c : ControlState) : bool :=
  request_acknowledged c && peer_request_acknowledged c.

Definition ipv4_missing (n : PppNegotiator) : bool :=
  match local_ipv4 n with Some address => bool_decide (address = 0) | None => true end.

Definition ipv6_missing (n : PppNegotiator) : bool :=
  match local_ipv6 n with
  | Some address =>
      bool_decide (PppControl.ppp_interface_id (IpV6 address) = replicate 8 0)
  | None => true
  end.

Definition request_unless_sent (wanted : bool) (state : ControlState) (protocol now : Z)
    (outbound : list PppOutboundPacket) : N (list PppOutboundPacket) :=
  if wanted && negb (request_sent state)
  then request ← build_configuration_request protocol now; mret (outbound ++ [request])
  else mret outbound.

Definition complete_negotiation (outbound : list PppOutboundPacket)
    : N (list PppOutboundPacket) :=
  n ← gets id;
  if want_ipv4 n && negb (both_acknowledged (ipcp n)) then mret outbound
  else if want_ipv6 n && negb (both_acknowledged (ip6cp n)) then mret outbound
  else if want_ipv4 n && ipv4_missing n then throw MissingIpv4Address
  else if want_ipv6 n && ipv6_missing n then throw MissingIpv6Address
  else
    _ ← modify (fun n => n <| configuration := build_configuration n |>);
    mret outbound.

Definition advance_negotiation (now : Z) : N (list PppOutboundPacket) :=
  n ← gets id;
  if negb (both_acknowledged (lcp n)) then mret []
  else if negb (want_ipv4 n) && negb (want_ipv6 n) then throw NoNetworkProtocol
  else
    outbound ← request_unless_sent (want_ipv4 n) (ipcp n) PPP_PROTOCOL_IPCP now [];
    n ← gets id;
    outbound ← request_unless_sent (want_ipv6 n) (ip6cp n) PPP_PROTOCOL_IP6CP now outbound;
    complete_negotiation outbound.

(** ** A configuration request of the peer *)

(** The local variables of [handle_configuration_request]'s loop. *)
Record Reply : Type := mkReply {
  rejected : list Z;
  nak : list Z;
  reply_mru : Z;
  reply_ipv4 : option Z;
  reply_ipv6 : option Z;
}.

#[export] Instance reply_eta : Settable Reply := fun r =>
  mkReply (rejected r) (nak r) (reply_mru r) (reply_ipv4 r) (reply_ipv6 r).

Definition reject (r : Reply) (o : PppOption) : Reply := r <| rejected ::= fun l => l ++ raw o |>.

Definition lcp_request_option (r : Reply) (o : PppOption) : N Reply :=
  if bool_decide (kind o = PPP_LCP_OPTION_MRU) && bool_decide (len (value o) = 2) then
    let mru := from_be_bytes (value o) in
    if decide (mru < PPP_MINIMUM_MRU)
    then l ← control (PppControl.append_ppp_option_u16 (nak r) (kind o) PPP_MINIMUM_MRU);
         mret (r <| nak := l |>)
    else mret (r <| reply_mru := mru |>)
  else if bool_decide (kind o = PPP_LCP_OPTION_ASYNC_MAP) && bool_decide (len (value o) = 4)
  then mret r
  else if bool_decide (kind o = PPP_LCP_OPTION_MAGIC) && bool_decide (len (value o) = 4) then
    n ← gets id;
    if local_magic_enabled n && bool_decide (value o = local_magic n)
    then magic ← draw_magic;
         l ← control (PppControl.append_ppp_option (nak r) (kind o) magic);
         mret (r <| nak := l |>)
    else mret r
  else if bool_decide (kind o = PPP_LCP_OPTION_PROTOCOL_COMPRESSION
                       \/ kind o = PPP_LCP_OPTION_ADDRESS_COMPRESSION)
          && bool_decide (value o = [])
  then mret r
  else mret (reject r o).

Definition ipcp_request_option (r : Reply) (o : PppOption) : Reply :=
  if bool_decide (kind o = PPP_IPCP_OPTION_ADDRESSES) && bool_decide (len (value o) = 8) then r
  else if decide (kind o = PPP_IPCP_OPTION_ADDRESS)
  then match PppControl.ppp_ipv4_from_bytes (value o) with
       | Ok address => r <| reply_ipv4 := Some address |>
       | Err _ => reject r o
       end
  else reject r o.

Definition ip6cp_request_option (r : Reply) (o : PppOption) : Reply :=
  if decide (kind o <> PPP_IP6CP_OPTION_INTERFACE_ID) then reject r o
  else match PppControl.ppp_ipv6_from_interface_id (value o) with
       | Ok address => r <| reply_ipv6 := Some address |>
       | Err _ => reject r o
       end.

Definition request_option (protocol : Z) (r : Reply) (o : PppOption) : N Reply :=
  if decide (protocol = PPP_PROTOCOL_LCP) then lcp_request_option r o
  else if decide (protocol = PPP_PROTOCOL_IPCP) then mret (ipcp_request_option r o)
  else if decide (protocol = PPP_PROTOCOL_IP6CP) then mret (ip6cp_request_option r o)
  else throw (UnsupportedControlProtocol protocol).

(** What an acknowledged request tells about the peer. *)
Definition accept_reply (protocol : Z) (r : Reply) (n : PppNegotiator) : PppNegotiator :=
  if decide (protocol = PPP_PROTOCOL_LCP) then n <| peer_mru := reply_mru r |>
  else if decide (protocol = PPP_PROTOCOL_IPCP) then n <| peer_ipv4 := reply_ipv4 r |>
  else n <| peer_ipv6 := reply_ipv6 r |>.

Definition handle_configuration_request (protocol identifier : Z) (payload : list Z) (now : Z)
    : N (list PppOutboundPacket) :=
  opts ← control (PppControl.parse_ppp_options payload);
  r ← for_each (request_option protocol) opts (mkReply [] [] PPP_DEFAULT_MRU None None);
  rejection ← (if decide (rejected r <> [])
               then p ← control_packet protocol PPP_CODE_CONFIGURE_REJECTION identifier (rejected r);
                    mret [p]
               else mret []);
  negative ← (if decide (nak r <> [])
              then p ← control_packet protocol PPP_CODE_CONFIGURE_NEGATIVE_ACKNOWLEDGEMENT
                         identifier (nak r);
                   mret [p]
              else mret []);
  if decide (rejected r = [] /\ nak r = []) then
    ack ← control_packet protocol PPP_CODE_CONFIGURE_ACKNOWLEDGEMENT identifier payload;
    _ ← control_state_mut protocol (fun c => c <| peer_request_acknowledged := true |>);
    _ ← modify (accept_reply protocol r);
    more ← advance_negotiation now;
    mret (ack :: more)
  else mret (rejection ++ negative).

(** ** A refusal of a request of ours *)

Definition lcp_refused_option (code : Z) (o : PppOption) : N unit :=
  if decide (kind o = PPP_LCP_OPTION_MRU) then
    if decide (len (value o) = 2) then modify (fun n => n <| request_mru := false |>)
    else throw (InvalidNak (kind o))
  else if decide (kind o = PPP_LCP_OPTION_ASYNC_MAP) then
    if decide (len (value o) = 4)
    then modify (fun n => n <| local_async_map := PPP_HDLC_CONTROL_ESCAPE_MASK |>
                            <| request_async_map := false |>)
    else throw (InvalidNak (kind o))
  else if decide (kind o = PPP_LCP_OPTION_MAGIC) then
    if decide (len (value o) = 4)
    then when (bool_decide (code = PPP_CODE_CONFIGURE_REJECTION))
           (modify (fun n => n <| local_magic_enabled := false |>))
    else throw (InvalidNak (kind o))
  else if decide (kind o = PPP_LCP_OPTION_PROTOCOL_COMPRESSION) then
    if decide (value o = [])
    then modify (fun n => n <| request_protocol_compression := false |>
                            <| outbound_protocol_compression := false |>)
    else throw (InvalidNak (kind o))
  else if decide (kind o = PPP_LCP_OPTION_ADDRESS_COMPRESSION) then
    if decide (value o = [])
    then modify (fun n => n <| request_address_compression := false |>
                            <| outbound_address_compression := false |>)
    else throw (InvalidNak (kind o))
  else throw (UnknownLcpOption (kind o)).

Definition ipcp_refused_option (code : Z) (o : PppOption) : N unit :=
  if decide (kind o = PPP_IPCP_OPTION_ADDRESS) then
    address ← control (PppControl.ppp_ipv4_from_bytes (value o));
    if decide (code = PPP_CODE_CONFIGURE_REJECTION \/ address = 0) then throw Ipv4Rejected
    else
      n ← gets id;
      match local_ipv4 n with
      | Some old =>
          if addresses_locked n && bool_decide (old <> address)
          then throw (Ipv4AddressChanged old address)
          else modify (fun n => n <| local_ipv4 := Some address |>)
      | None => modify (fun n => n <| local_ipv4 := Some address |>)
      end
  else if decide (kind o ∈ name_server_kinds) then
    if decide (code = PPP_CODE_CONFIGURE_REJECTION)
    then modify (fun n => n <| name_server_requests ::= delete (kind o) |>)
    else
      address ← control (PppControl.ppp_ipv4_from_bytes (value o));
      if decide (address = 0) then throw (InvalidNameServer (kind o))
      else modify (fun n => n <| name_server_requests ::= <[kind o := address]> |>)
  else throw (UnknownIpcpOption (kind o)).

(** Replaces the interface identifier of an address. *)
Definition with_interface_id (address : Z) (identifier : list Z) : Z :=
  from_be_bytes (take 8 (to_be_bytes 16 address) ++ identifier).

(** The result says whether the protocol is disabled by the option. *)
Definition ip6cp_refused_option (code : Z) (o : PppOption) : N bool :=
  if decide (kind o <> PPP_IP6CP_OPTION_INTERFACE_ID) then throw (UnknownIp6cpOption (kind o))
  else if decide (code = PPP_CODE_CONFIGURE_REJECTION)
  then _ ← modify (fun n => n <| want_ipv6 := false |>); mret true
  else
    address ← control (PppControl.ppp_ipv6_from_interface_id (value o));
    let offered := PppControl.ppp_interface_id (IpV6 address) in
    if decide (offered = replicate 8 0)
    then _ ← modify (fun n => n <| want_ipv6 := false |>); mret true
    else
      n ← gets id;
      if addresses_locked n
         && match local_ipv6 n with
            | Some current =>
                bool_decide (PppControl.ppp_interface_id (IpV6 current) <> offered)
            | None => false
            end
      then throw Ipv6AddressChanged
      else
        _ ← modify (fun n => n <| local_ipv6 :=
               Some (with_interface_id (default address (local_ipv6 n)) offered) |>);
        mret false.

Definition refused_option (protocol code : Z) (disabled : bool) (o : PppOption) : N bool :=
  if decide (protocol = PPP_PROTOCOL_LCP) then _ ← lcp_refused_option code o; mret disabled
  else if decide (protocol = PPP_PROTOCOL_IPCP) then _ ← ipcp_refused_option code o; mret disabled
  else if decide (protocol = PPP_PROTOCOL_IP6CP)
  then d ← ip6cp_refused_option code o; mret (disabled || d)
  else throw (UnsupportedControlProtocol protocol).

Definition handle_configuration_nak_or_reject (protocol identifier code : Z) (payload : list Z)
    (now : Z) : N (list PppOutboundPacket) :=
  n ← gets id;
  state ← lift (control_state protocol n);
  if decide (identifier <> request_identifier state) then mret []
  else
    opts ← control (PppControl.parse_ppp_options payload);
    disabled ← for_each (refused_option protocol code) opts false;
    if disabled : bool then advance_negotiation now
    else
      n ← gets id;
      state ← lift (control_state protocol n);
      if decide (request_attempts state >= negotiation_attempts (options n))
      then throw (AttemptsExhausted protocol)
      else request ← build_configuration_request protocol now; mret [request].

(** ** Control packets *)

Definition handle_configuration_acknowledgement (protocol now : Z) : N PppNegotiationEvent :=
  _ ← control_state_mut protocol (fun c => c <| request_acknowledged := true |>);
  _ ← when (bool_decide (protocol = PPP_PROTOCOL_LCP))
        (modify (fun n => n <| outbound_protocol_compression := request_protocol_compression n |>
                            <| outbound_address_compression := request_address_compression n |>));
  out ← advance_negotiation now;
  mret (default_event <| outbound := out |>).

Definition handle_terminate_request (protocol identifier : Z) : N PppNegotiationEvent :=
  p ← control_packet protocol PPP_CODE_TERMINATE_ACKNOWLEDGEMENT identifier [];
  _ ← modify (fun n => n <| phase := Terminating |>);
  mret (default_event <| outbound := [p] |> <| peer_terminated := true |>).

(** The reply has the payload of the request with the local magic number, or
    zeros, in its first four bytes. *)
Definition echo_reply (n : PppNegotiator) (payload : list Z) : list Z :=
  (if local_magic_enabled n then local_magic n else replicate 4 0) ++ drop 4 payload.

Definition handle_echo_request (protocol identifier : Z) (payload : list Z)
    : N PppNegotiationEvent :=
  if decide (protocol <> PPP_PROTOCOL_LCP) then throw EchoOnNonLcp
  else
    n ← gets id;
    if negb (both_acknowledged (lcp n)) then mret default_event
    else
      p ← control_packet protocol PPP_CODE_ECHO_REPLY identifier (echo_reply n payload);
      mret (default_event <| outbound := [p] |>).

Definition handle_echo_reply (protocol identifier : Z) : N PppNegotiationEvent :=
  if decide (protocol <> PPP_PROTOCOL_LCP) then throw EchoOnNonLcp
  else
    n ← gets id;
    _ ← when (pending_echo n && bool_decide (identifier = pending_echo_identifier n))
          (modify (fun n => n <| pending_echo := false |> <| missed_echo_replies := 0 |>));
    mret default_event.

Definition handle_protocol_rejection (protocol : Z) (payload : list Z) (now : Z)
    : N PppNegotiationEvent :=
  if decide (protocol <> PPP_PROTOCOL_LCP \/ len payload < 2) then throw InvalidProtocolReject
  else
    let rejected := from_be_bytes (take 2 payload) in
    if decide (rejected = PPP_PROTOCOL_IPCP \/ rejected = PPP_PROTOCOL_IP6CP) then
      _ ← (if decide (rejected = PPP_PROTOCOL_IPCP)
           then modify (fun n => n <| want_ipv4 := false |>)
           else modify (fun n => n <| want_ipv6 := false |>));
      out ← advance_negotiation now;
      mret (default_event <| outbound := out |>)
    else mret default_event.

Definition handle_control_packet (protocol : Z) (packet : list Z) (now : Z)
    : N PppNegotiationEvent :=
  p ← control (PppControl.parse_ppp_control_packet packet);
  let code := code p in
  let identifier := identifier p in
  let payload := control_payload p in
  if decide (code = PPP_CODE_CONFIGURE_REQUEST) then
    out ← handle_configuration_request protocol identifier payload now;
    mret (default_event <| outbound := out |>)
  else if decide (code = PPP_CODE_CONFIGURE_ACKNOWLEDGEMENT) then
    handle_configuration_acknowledgement protocol now
  else if decide (code = PPP_CODE_CONFIGURE_NEGATIVE_ACKNOWLEDGEMENT
                  \/ code = PPP_CODE_CONFIGURE_REJECTION) then
    out ← handle_configuration_nak_or_reject protocol identifier code payload now;
    mret (default_event <| outbound := out |>)
  else if decide (code = PPP_CODE_TERMINATE_REQUEST) then
    handle_terminate_request protocol identifier
  else if decide (code = PPP_CODE_TERMINATE_ACKNOWLEDGEMENT) then
    gets (fun n => default_event <| termination_acknowledged :=
                     bool_decide (phase n = Terminating) |>)
  else if decide (code = PPP_CODE_ECHO_REQUEST) then
    handle_echo_request protocol identifier payload
  else if decide (code = PPP_CODE_ECHO_REPLY) then handle_echo_reply protocol identifier
  else if decide (code = PPP_CODE_DISCARD_REQUEST) then mret default_event
  else if decide (code = PPP_CODE_PROTOCOL_REJECTION) then
    handle_protocol_rejection protocol payload now
  else if decide (code = PPP_CODE_CODE_REJECTION) then throw CodeRejected
  else throw (UnsupportedControlCode code).

(** ** Frames *)

Definition reject_protocol (protocol : Z) (payload : list Z) : N PppNegotiationEvent :=
  out ← protocol_rejection protocol payload;
  mret (default_event <| outbound := out |>).

Definition handle_packet (p : PppPacket) (now : Z) : N PppNegotiationEvent :=
  let proto := protocol p in
  n ← gets id;
  if decide (proto = PPP_PROTOCOL_LCP \/ proto = PPP_PROTOCOL_IPCP \/ proto = PPP_PROTOCOL_IP6CP)
  then
    if (bool_decide (proto = PPP_PROTOCOL_IPCP) && negb (want_ipv4 n))
       || (bool_decide (proto = PPP_PROTOCOL_IP6CP) && negb (want_ipv6 n))
    then reject_protocol proto (payload p)
    else handle_control_packet proto (payload p) now
  else if decide (proto = PPP_PROTOCOL_IPV4 \/ proto = PPP_PROTOCOL_IPV6) then
    let allowed := (bool_decide (proto = PPP_PROTOCOL_IPV4) && want_ipv4 n)
                   || (bool_decide (proto = PPP_PROTOCOL_IPV6) && want_ipv6 n) in
    mret (default_event <| delivered :=
            if bool_decide (phase n = Network) && allowed then Some (payload p) else None |>)
  else reject_protocol proto (payload p).

(** The negotiation becomes ready with the configuration. *)
Definition enter_network (event : PppNegotiationEvent) : N PppNegotiationEvent :=
  n ← gets id;
  if bool_decide (is_Some (configuration n)) && bool_decide (phase n = Establishing) then
    _ ← modify (fun n => n <| phase := Network |> <| addresses_locked := true |>);
    mret (event <| network_ready := true |>)
  else mret event.

Definition handle_frame (frame : list Z) (now : Z) : N PppNegotiationEvent :=
  p ← control (PppControl.parse_ppp_packet frame);
  _ ← modify (fun n => n <| last_received := now |> <| pending_echo := false |>
                         <| missed_echo_replies := 0 |>);
  event ← handle_packet p now;
  enter_network event.

(** ** Timers *)

Definition request_timer (now : Z) (outbound : list PppOutboundPacket) (protocol : Z)
    : N (list PppOutboundPacket) :=
  n ← gets id;
  if (bool_decide (protocol = PPP_PROTOCOL_IPCP) && negb (want_ipv4 n))
     || (bool_decide (protocol = PPP_PROTOCOL_IP6CP) && negb (want_ipv6 n))
  then mret outbound
  else
    state ← lift (control_state protocol n);
    if negb (request_sent state) || request_acknowledged state then mret outbound
    else match last_request state with
         | None => mret outbound
         | Some last =>
             if decide (duration_since now last < negotiation_period (options n))
             then mret outbound
             else if decide (request_attempts state >= negotiation_attempts (options n))
             then throw (NegotiationTimedOut protocol)
             else request ← build_configuration_request protocol now;
                  mret (outbound ++ [request])
         end.

Definition send_echo (now : Z) (outbound : list PppOutboundPacket)
    : N (list PppOutboundPacket) :=
  identifier ← next_lcp_identifier;
  _ ← modify (fun n => n <| pending_echo_identifier := identifier |> <| pending_echo := true |>
                         <| pending_echo_sent := now |>);
  n ← gets id;
  p ← control_packet PPP_PROTOCOL_LCP PPP_CODE_ECHO_REQUEST identifier
        (if local_magic_enabled n then local_magic n else replicate 4 0);
  mret (outbound ++ [p]).

Definition echo_timer (now : Z) (outbound : list PppOutboundPacket)
    : N (list PppOutboundPacket) :=
  n ← gets id;
  if negb (bool_decide (phase n = Network)) || bool_decide (echo_interval (options n) = 0)
  then mret outbound
  else if pending_echo n then
    if decide (duration_since now (pending_echo_sent n) < echo_interval (options n))
    then mret outbound
    else
      _ ← modify (fun n => n <| missed_echo_replies := missed_echo_replies n + 1 |>);
      n ← gets id;
      if decide (missed_echo_replies n >= echo_failures (options n)) then throw PeerDead
      else send_echo now outbound
  else if decide (duration_since now (last_received n) < echo_interval (options n))
  then mret outbound
  else send_echo now outbound.

Definition handle_timer (now : Z) : N (list PppOutboundPacket) :=
  n ← gets id;
  if decide (phase n = Terminating) then mret []
  else
    outbound ← for_each (request_timer now)
                 [PPP_PROTOCOL_LCP; PPP_PROTOCOL_IPCP; PPP_PROTOCOL_IP6CP] [];
    echo_timer now outbound.

(** ** What no method changes

    The options and the local MRU are fixed, a network protocol that was given up
    is not taken up again, and an address that is locked does not change. *)

Record stable (n n' : PppNegotiator) : Prop := {
  stable_options : options n' = options n;
  stable_mru : local_mru n' = local_mru n;
  stable_want_ipv4 : want_ipv4 n = false -> want_ipv4 n' = false;
  stable_want_ipv6 : want_ipv6 n = false -> want_ipv6 n' = false;
  stable_locked : addresses_locked n = true -> addresses_locked n' = true;
  stable_ipv4 : forall a, addresses_locked n = true ->
    local_ipv4 n = Some a -> local_ipv4 n' = Some a;
  stable_ipv6 : forall a, addresses_locked n = true -> 0 <= a < 2 ^ 128 ->
    local_ipv6 n = Some a -> local_ipv6 n' = Some a;
}.

#[export] Instance stable_preorder : PreOrder stable.
Proof.
  split; [by intros n; split|]. intros n1 n2 n3 H12 H23.
  destruct H12, H23. split; intros; try congruence; eauto.
Qed.

Ltac stable := try (apply respects_modify; by split).

Lemma stable_control_mut p f n : respects stable (control_state_mut p f) n.
Proof. unfold control_state_mut. respects; stable. Qed.

Lemma stable_draw n : respects stable draw_magic n.
Proof. unfold respects, draw_magic. by destruct (PppControl.random_ppp_magic _) as [[]]. Qed.

Lemma stable_build p now n : respects stable (build_configuration_request p now) n.
Proof.
  unfold build_configuration_request, request_options, lcp_request_options, redraw_magic, ipcp_request_options,
    ip6cp_request_options, control_packet, control.
  respects; stable; try apply stable_draw; try apply stable_control_mut.
  apply respects_for_each; [typeclasses eauto|]. intros acc [k x] n' _. respects.
Qed.

Lemma stable_advance now n : respects stable (advance_negotiation now) n.
Proof.
  unfold advance_negotiation, request_unless_sent, complete_negotiation.
  respects; stable; apply stable_build.
Qed.

Lemma stable_request p id payload now n :
  respects stable (handle_configuration_request p id payload now) n.
Proof.
  unfold handle_configuration_request, control_packet, control. respects; stable;
    try apply stable_advance; try apply stable_control_mut.
  - apply respects_for_each; [typeclasses eauto|]. intros r o n' _.
    unfold request_option, lcp_request_option, control. respects. apply stable_draw.
  - apply respects_modify. unfold accept_reply. repeat case_decide; by split.
Qed.

Lemma with_interface_id_same a :
  0 <= a < 2 ^ 128 -> with_interface_id a (PppControl.ppp_interface_id (IpV6 a)) = a.
Proof.
  intros Ha. unfold with_interface_id, PppControl.ppp_interface_id.
  rewrite take_drop. by apply from_to_be_bytes.
Qed.

Lemma stable_refused p code d o n : respects stable (refused_option p code d o) n.
Proof.
  unfold refused_option, lcp_refused_option, ipcp_refused_option, ip6cp_refused_option, control.
  respects; stable; apply respects_modify.
  all: split; try done; unfold id in *; simpl; intros b Hl; try rewrite Hl in *; cbn [andb] in *.
  - intros E. apply bool_decide_eq_false in Heqb. destruct (decide (z = a)); [congruence|done].
  - congruence.
  - intros Hb E. rewrite E in *. cbn [default from_option] in *. f_equal.
    apply bool_decide_eq_false in Heqb. apply dec_stable in Heqb. rewrite <- Heqb.
    by apply with_interface_id_same.
Qed.

Lemma stable_nak p id code payload now n :
  respects stable (handle_configuration_nak_or_reject p id code payload now) n.
Proof.
  unfold handle_configuration_nak_or_reject, control. respects;
    try apply stable_advance; try apply stable_build.
  apply respects_for_each; [typeclasses eauto|]. intros. apply stable_refused.
Qed.

Lemma stable_next_identifier n : respects stable next_lcp_identifier n.
Proof. unfold next_lcp_identifier. respects; stable. Qed.

Lemma stable_protocol_rejection p payload n : respects stable (protocol_rejection p payload) n.
Proof.
  unfold protocol_rejection, control_packet, control. respects. apply stable_next_identifier.
Qed.

Lemma stable_control_packet p packet now n :
  respects stable (handle_control_packet p packet now) n.
Proof.
  unfold handle_control_packet, handle_configuration_acknowledgement, handle_terminate_request,
    handle_echo_request, handle_echo_reply, handle_protocol_rejection, control_packet, control.
  respects; stable; eauto using stable_request, stable_control_mut, stable_advance, stable_nak.
Qed.

Lemma stable_frame frame now n : respects stable (handle_frame frame now) n.
Proof.
  unfold handle_frame, handle_packet, reject_protocol, enter_network, control.
  respects; stable; eauto using stable_protocol_rejection, stable_control_packet.
Qed.

Lemma stable_timer now n : respects stable (handle_timer now) n.
Proof.
  unfold handle_timer, echo_timer, send_echo, control_packet, control.
  respects; stable; eauto using stable_next_identifier.
  apply respects_for_each; [typeclasses eauto|]. intros acc p n' _.
  unfold request_timer. respects. apply stable_build.
Qed.

Lemma stable_terminate n : respects stable terminate_request n.
Proof.
  unfold terminate_request, control_packet, control. respects; stable. apply stable_next_identifier.
Qed.

Lemma stable_start now n : respects stable (start now) n.
Proof. unfold start. respects. apply stable_build. Qed.

(** ** The invariant *)

Definition magic_ok (m : list Z) : Prop := length m = 4%nat /\ bytes_ok m.

(** Identifiers are bytes and no protocol uses more than its attempts. *)
Record control_ok (maximum : Z) (c : ControlState) : Prop := {
  next_identifier_ok : is_u8 (next_identifier c);
  request_identifier_ok : is_u8 (request_identifier c);
  attempts_ok : 0 <= request_attempts c <= maximum;
  unsent_ok : request_sent c = false -> request_attempts c = 0;
}.

Definition usable (address : IpAddr) : Prop :=
  match address with
  | IpV4 a => a <> 0
  | IpV6 _ => PppControl.ppp_interface_id address <> replicate 8 0
  end.

(** A configuration the tunnel can be set up with. *)
Record configuration_ok (c : TunnelConfiguration) : Prop := {
  configured_mtu_ok : PPP_MINIMUM_MRU <= configured_mtu c <= U16_MAX;
  some_address : addresses c <> [];
  addresses_usable : Forall (fun a => usable a.1) (addresses c);
  servers_usable : Forall usable (dns c ++ nbns c);
}.

Definition maximum_attempts (n : PppNegotiator) : Z := negotiation_attempts (options n).

Record ok (n : PppNegotiator) : Prop := {
  local_mru_ok : PPP_MINIMUM_MRU <= local_mru n <= ppp_maximum_tunnel_mtu (opt_encapsulation (options n));
  peer_mru_ok : PPP_MINIMUM_MRU <= peer_mru n <= U16_MAX;
  maximum_ok : 1 <= maximum_attempts n;
  async_map_ok : is_u32 (local_async_map n);
  magic_is_ok : magic_ok (local_magic n);
  entropy_ok : Forall magic_ok (entropy n);
  lcp_ok : control_ok (maximum_attempts n) (lcp n);
  ipcp_ok : control_ok (maximum_attempts n) (ipcp n);
  ip6cp_ok : control_ok (maximum_attempts n) (ip6cp n);
  configuration_is_ok : forall c, configuration n = Some c -> configuration_ok c;
  network_ok : phase n = Network -> is_Some (configuration n) /\ addresses_locked n = true;
}.

Definition keeps (n n' : PppNegotiator) : Prop :=
  ok n -> ok n' /\ (is_Some (configuration n) -> is_Some (configuration n')).

#[export] Instance keeps_preorder : PreOrder keeps.
Proof.
  unfold keeps. split; [by intros n|]. intros n1 n2 n3 H12 H23 H1.
  destruct (H12 H1) as [H2 ?]. destruct (H23 H2). auto.
Qed.

Lemma keeps_intro n n' : configuration n' = configuration n -> (ok n -> ok n') -> keeps n n'.
Proof. intros Hc Hk Hok. rewrite Hc. auto. Qed.

(** A write that touches no field with a condition. *)
Ltac keeps :=
  try (apply respects_modify, keeps_intro;
       [done|let H := fresh in intros H; destruct H; split; done]).

Lemma maximum_mtu_bound e : ppp_maximum_tunnel_mtu e <= U16_MAX.
Proof. by destruct e. Qed.

Lemma random_magic_ok entropy magic rest :
  Forall magic_ok entropy -> PppControl.random_ppp_magic entropy = (Some magic, rest) ->
  magic_ok magic /\ Forall magic_ok rest.
Proof.
  intros He (Hin & _ & used & ->)%PppControl.random_ppp_magic_spec. split.
  - by eapply Forall_forall in He.
  - by apply Forall_app in He as [_ ?].
Qed.

(** Building the options of a request changes at most the magic number. *)
Definition redraws (n n' : PppNegotiator) : Prop :=
  exists magic rest, n' = n <| local_magic := magic |> <| entropy := rest |>
  /\ (magic_ok (local_magic n) -> Forall magic_ok (entropy n) -> magic_ok magic /\ Forall magic_ok rest).

#[export] Instance redraws_preorder : PreOrder redraws.
Proof.
  split.
  - intros n. exists (local_magic n), (entropy n). split; [by destruct n|done].
  - intros n1 n2 n3 (m2 & e2 & -> & H12) (m3 & e3 & -> & H23). exists m3, e3.
    split; [done|]. intros Hm He. destruct (H12 Hm He). by apply H23.
Qed.

Lemma random_magic_none entropy rest :
  PppControl.random_ppp_magic entropy = (None, rest) -> rest = [].
Proof.
  induction entropy as [|m l IH]; simpl; [by intros [= <-]|]. case_decide; [done|exact IH].
Qed.

Lemma draw_redraws n : respects redraws draw_magic n.
Proof.
  unfold respects, draw_magic.
  destruct (PppControl.random_ppp_magic (entropy n)) as [[magic|] rest] eqn:E; simpl;
    exists (local_magic n), rest; (split; [by destruct n|]); intros Hm He; (split; [done|]).
  - by eapply random_magic_ok.
  - by rewrite (random_magic_none _ _ E).
Qed.

Lemma redraw_redraws n : respects redraws redraw_magic n.
Proof.
  unfold respects, redraw_magic, draw_magic, mbind, method_bind.
  destruct (PppControl.random_ppp_magic (entropy n)) as [[magic|] rest] eqn:E; simpl.
  - exists magic, rest. split; [done|]. intros _ He. by eapply random_magic_ok.
  - exists (local_magic n), rest. split; [by destruct n|]. intros Hm _.
    by rewrite (random_magic_none _ _ E).
Qed.

Lemma redraws_keeps n n' : redraws n n' -> keeps n n'.
Proof.
  intros (m & e & -> & Hm). apply keeps_intro; [done|]. intros [].
  destruct (Hm ltac:(done) ltac:(done)). by split.
Qed.

Lemma request_options_redraws p n : respects redraws (request_options p) n.
Proof.
  unfold request_options, lcp_request_options, ipcp_request_options, ip6cp_request_options, control.
  respects; try apply redraw_redraws.
  apply respects_for_each; [typeclasses eauto|]. intros acc [k x] n' _. respects.
Qed.

Lemma keeps_control_mut p f n :
  (forall c, control_state p n = Ok c -> control_ok (maximum_attempts n) c ->
             control_ok (maximum_attempts n) (f c)) ->
  respects keeps (control_state_mut p f) n.
Proof.
  unfold control_state_mut, control_state. intros Hf.
  repeat case_decide; try (apply respects_throw; typeclasses eauto);
    apply respects_modify, keeps_intro; try done; intros []; split; try done; by apply Hf.
Qed.

Lemma new_request_ok maximum now c :
  control_ok maximum c -> request_attempts c < maximum -> control_ok maximum (new_request now c).
Proof.
  intros [] Hm. assert (is_u8 (wrap8 (next_identifier c + 1)))
    by (unfold_ints; pose proof (Z.mod_pos_bound (next_identifier c + 1) (2 ^ 8)); lia).
  split; simpl; [done|done|lia|done].
Qed.

Lemma control_state_redraws p n n' : redraws n n' ->
  control_state p n' = control_state p n /\ maximum_attempts n' = maximum_attempts n.
Proof. by intros (m & e & -> & _). Qed.

Lemma keeps_build p now n :
  (forall c, control_state p n = Ok c -> request_attempts c < maximum_attempts n) ->
  respects keeps (build_configuration_request p now) n.
Proof.
  intros Hc. unfold build_configuration_request. pose proof (request_options_redraws p n) as Hr.
  unfold respects in Hr. apply respects_bind; [typeclasses eauto|by apply redraws_keeps|].
  intros payload n1 E. rewrite E in Hr. simpl in Hr.
  destruct (control_state_redraws p _ _ Hr) as [Es Em].
  unfold control_packet, control. respects. apply keeps_control_mut.
  intros c Ec Hok. apply new_request_ok; [done|]. rewrite Em. apply Hc. by rewrite <- Es.
Qed.

Lemma build_configuration_ok n :
  ok n -> want_ipv4 n || want_ipv6 n = true ->
  want_ipv4 n && ipv4_missing n = false -> want_ipv6 n && ipv6_missing n = false ->
  exists c, build_configuration n = Some c /\ configuration_ok c.
Proof.
  intros Hok Hw H4 H6. unfold build_configuration, ipv4_missing, ipv6_missing in *.
  pose proof (maximum_mtu_bound (opt_encapsulation (options n))).
  assert (forall kinds, Forall usable (servers n kinds)) as Hs.
  { intros kinds. unfold servers. apply Forall_forall. intros a (k & _ & Ha)%list_elem_of_omap.
    destruct (name_server_requests n !! k); [|done]. case_decide; [done|]. by injection Ha as <-. }
  assert (exists v4, (if want_ipv4 n
      then address ← local_ipv4 n;
           Some [(IpV4 address, from_option snd 32 (ipv4_address (options n)))]
      else Some []) = Some v4 /\ Forall (fun a => usable a.1) v4
      /\ (v4 = [] -> want_ipv4 n = false)) as (v4 & -> & Hv4 & He4).
  { destruct (want_ipv4 n); [|by exists []]. destruct (local_ipv4 n) as [a|]; [|done].
    apply bool_decide_eq_false in H4. eexists. split; [reflexivity|].
    split; [by apply Forall_singleton|done]. }
  assert (exists v6, (if want_ipv6 n
      then address ← local_ipv6 n;
           Some [(IpV6 address, from_option snd 64 (ipv6_address (options n)))]
      else Some []) = Some v6 /\ Forall (fun a => usable a.1) v6
      /\ (v6 = [] -> want_ipv6 n = false)) as (v6 & -> & Hv6 & He6).
  { destruct (want_ipv6 n); [|by exists []]. destruct (local_ipv6 n) as [a|]; [|done].
    apply bool_decide_eq_false in H6. eexists. split; [reflexivity|].
    split; [by apply Forall_singleton|done]. }
  eexists. split; [reflexivity|]. destruct Hok. split; cbn [configured_mtu addresses dns nbns].
  - lia.
  - intros [E4 E6]%app_eq_nil. by rewrite He4, He6 in Hw.
  - by apply Forall_app.
  - apply Forall_app. split; apply Hs.
Qed.

(** A request changes no decision about the network protocols. *)
Definition same_wants (n n' : PppNegotiator) : Prop :=
  want_ipv4 n' = want_ipv4 n /\ want_ipv6 n' = want_ipv6 n.

#[export] Instance same_wants_preorder : PreOrder same_wants.
Proof.
  unfold same_wants. split; [by intros n|]. intros n1 n2 n3 [? ?] [? ?]. split; congruence.
Qed.

Lemma same_wants_build p now n : respects same_wants (build_configuration_request p now) n.
Proof.
  unfold build_configuration_request, control_state_mut, control_packet, control.
  respects; try done.
  pose proof (request_options_redraws p n) as (m & e & E & _). unfold respects. by rewrite E.
Qed.

Lemma control_state_ok p n c :
  ok n -> control_state p n = Ok c -> control_ok (maximum_attempts n) c.
Proof.
  intros [] Hc. unfold control_state in Hc.
  repeat (destruct (decide _); [apply Ok_inj in Hc as <-; done|]). done.
Qed.

(** The first request of a protocol is always possible. *)
Lemma keeps_first_request p now n c :
  control_state p n = Ok c -> request_sent c = false ->
  respects keeps (build_configuration_request p now) n.
Proof.
  intros Hc Hs Hok. refine (keeps_build p now n _ Hok). intros c' Hc'.
  rewrite Hc in Hc'. apply Ok_inj in Hc' as <-.
  rewrite (unsent_ok _ _ (control_state_ok _ _ _ Hok Hc)) by done. destruct Hok. lia.
Qed.

Lemma keeps_retry p now n c :
  control_state p n = Ok c -> request_attempts c < maximum_attempts n ->
  respects keeps (build_configuration_request p now) n.
Proof. intros Hc Ha. apply keeps_build. intros c' Hc'. rewrite Hc in Hc'. by apply Ok_inj in Hc' as <-. Qed.

Lemma request_unless_sent_keeps (b : bool) p now n c outbound :
  control_state p n = Ok c ->
  respects keeps (request_unless_sent b c p now outbound) n
  /\ respects same_wants (request_unless_sent b c p now outbound) n.
Proof.
  intros Hc. unfold request_unless_sent. destruct (b && negb _) eqn:E; [|split; respects].
  apply andb_prop in E as [_ E%negb_true_iff].
  split; respects; [by eapply keeps_first_request|apply same_wants_build].
Qed.

Lemma keeps_finish (n : PppNegotiator) :
  want_ipv4 n || want_ipv6 n = true -> want_ipv4 n && ipv4_missing n = false ->
  want_ipv6 n && ipv6_missing n = false ->
  respects (E := PppNegotiationError) keeps
    (modify (fun n => n <| configuration := build_configuration n |>)) n.
Proof.
  intros Hw H4 H6. apply respects_modify. intros Hok.
  destruct (build_configuration_ok n Hok Hw H4 H6) as (c & Hc & Hcok).
  split; [|simpl; rewrite Hc; eauto].
  destruct Hok. split; try done; simpl; rewrite Hc; [by intros c' [= <-]|].
  intros Hp. destruct (network_ok0 Hp). eauto.
Qed.

Lemma keeps_advance now n : respects keeps (advance_negotiation now) n.
Proof.
  unfold advance_negotiation. apply respects_gets_bind. unfold id.
  case_match; [apply respects_ret, _|]. destruct (negb _ && negb _) eqn:Hw; [apply respects_throw, _|].
  assert (want_ipv4 n || want_ipv6 n = true) as Hw' by (by destruct (want_ipv4 n), (want_ipv6 n)).
  clear Hw. destruct (request_unless_sent_keeps (want_ipv4 n) PPP_PROTOCOL_IPCP now n _ [] eq_refl)
    as [Hk1 Hs1].
  apply respects_bind; [typeclasses eauto|done|]. intros out n1 E1.
  destruct (respects_result _ _ _ _ _ Hs1 E1) as [E4 E6]. rewrite <- E4, <- E6 in Hw'.
  clear Hk1 Hs1 E1 E4 E6 n H. apply respects_gets_bind.
  destruct (request_unless_sent_keeps (want_ipv6 n1) PPP_PROTOCOL_IP6CP now n1 _ out eq_refl)
    as [Hk Hs].
  apply respects_bind; [typeclasses eauto|done|]. intros out' n E.
  destruct (respects_result _ _ _ _ _ Hs E) as [E4 E6]. rewrite <- E4, <- E6 in Hw'.
  unfold complete_negotiation. respects. by apply keeps_finish.
Qed.

(** The MRU a request is acknowledged with is in range. *)
Definition reply_ok (r : Reply) : Prop := PPP_MINIMUM_MRU <= reply_mru r <= U16_MAX.

Lemma from_be_bytes_u16 l : bytes_ok l -> len l = 2 -> from_be_bytes l <= U16_MAX.
Proof.
  intros Hb Hl. pose proof (from_be_bytes_bound l Hb) as H. unfold len in Hl.
  replace (length l) with 2%nat in H by lia. change (2 ^ (8 * Z.of_nat 2)) with 65536 in H. ilia.
Qed.

Lemma reply_ok_step p r o n r' n' :
  bytes_ok (value o) -> reply_ok r -> request_option p r o n = (Ok r', n') -> reply_ok r'.
Proof.
  intros Hb Hr. unfold request_option.
  case_decide; [|case_decide; [|case_decide; [|done]]].
  - unfold lcp_request_option. destruct (_ && _) eqn:E1.
    + apply andb_prop in E1 as [_ E1%bool_decide_eq_true].
      pose proof (from_be_bytes_u16 _ Hb E1). case_decide.
      * by intros (l & n1 & _ & [<- _]%mret_Ok)%bind_method_Ok.
      * intros [<- _]%mret_Ok. unfold reply_ok. simpl. lia.
    + case_match; [by intros [<- _]%mret_Ok|]. case_match; [|case_match; by intros [<- _]%mret_Ok].
      intros (n0 & n1 & _ & Hx)%bind_method_Ok. case_match; [|by apply mret_Ok in Hx as [<- _]].
      apply bind_method_Ok in Hx as (m & n2 & _ & Hx).
      by apply bind_method_Ok in Hx as (l & n3 & _ & [<- _]%mret_Ok).
  - intros [<- _]%mret_Ok. unfold ipcp_request_option. repeat case_match; done.
  - intros [<- _]%mret_Ok. unfold ip6cp_request_option. repeat case_match; done.
Qed.

Lemma keeps_draw n : respects keeps draw_magic n.
Proof. by apply redraws_keeps, draw_redraws. Qed.

Lemma keeps_accept p r n : reply_ok r -> keeps n (accept_reply p r n).
Proof.
  intros Hr. unfold accept_reply. repeat case_decide; apply keeps_intro; try done; intros []; by split.
Qed.

Lemma keeps_request p id payload now n :
  bytes_ok payload -> respects keeps (handle_configuration_request p id payload now) n.
Proof.
  intros Hb. unfold handle_configuration_request.
  apply respects_lift_bind; [typeclasses eauto|]. intros opts Eo.
  destruct (PppControl.parse_ppp_options payload) as [opts'|] eqn:E; [|done].
  apply Ok_inj in Eo as ->. apply PppControl.parse_options_ok in E as Eo; [|done]. clear E.
  rewrite Forall_forall in Eo.
  apply respects_bind; [typeclasses eauto| |].
  { apply respects_for_each; [typeclasses eauto|]. intros r o n' _.
    unfold request_option, lcp_request_option, control. respects. apply keeps_draw. }
  intros r n2 Er. assert (reply_ok r) as Hr.
  { eapply (for_each_inv reply_ok); [| |exact Er]; [|by vm_compute].
    intros acc x s acc' s' Hx. by apply reply_ok_step, Eo. }
  unfold control_packet, control. respects; eauto using keeps_advance.
  - apply keeps_control_mut. by intros c _ [].
  - by apply respects_modify, keeps_accept.
Qed.

Lemma keeps_refused p code d o n : respects keeps (refused_option p code d o) n.
Proof.
  unfold refused_option, lcp_refused_option, ipcp_refused_option, ip6cp_refused_option, control.
  respects; keeps.
Qed.

Lemma keeps_nak p id code payload now n :
  respects keeps (handle_configuration_nak_or_reject p id code payload now) n.
Proof.
  unfold handle_configuration_nak_or_reject, control. respects; eauto using keeps_advance.
  - apply respects_for_each; [typeclasses eauto|]. intros. apply keeps_refused.
  - eapply keeps_retry; [done|]. unfold maximum_attempts, Datatypes.id in *. lia.
Qed.

Lemma keeps_next_identifier n : respects keeps next_lcp_identifier n.
Proof.
  unfold next_lcp_identifier. respects. apply respects_modify, keeps_intro; [done|].
  intros []. split; try done.
  destruct lcp_ok0. split; try done. cbn [next_identifier lcp set_field].
  unfold_ints. pose proof (Z.mod_pos_bound (next_identifier (lcp n) + 1) (2 ^ 8)). simpl. lia.
Qed.

Lemma keeps_protocol_rejection p payload n : respects keeps (protocol_rejection p payload) n.
Proof.
  unfold protocol_rejection, control_packet, control. respects. apply keeps_next_identifier.
Qed.

Lemma keeps_acknowledged p n :
  respects keeps (control_state_mut p (fun c => c <| request_acknowledged := true |>)) n.
Proof. apply keeps_control_mut. by intros c _ []. Qed.

Lemma keeps_control_packet p packet now n :
  bytes_ok packet -> respects keeps (handle_control_packet p packet now) n.
Proof.
  intros Hb. unfold handle_control_packet, handle_configuration_acknowledgement,
    handle_terminate_request, handle_echo_request, handle_echo_reply, handle_protocol_rejection,
    control_packet, control.
  apply respects_lift_bind; [typeclasses eauto|]. intros q Eq.
  destruct (PppControl.parse_ppp_control_packet packet) as [q'|] eqn:E; [|done].
  apply Ok_inj in Eq as ->. apply PppControl.parse_control_bytes in E as Hq; [|done].
  respects; keeps; eauto using keeps_advance, keeps_request, keeps_nak, keeps_acknowledged.
Qed.

Lemma keeps_frame frame now n :
  bytes_ok frame -> respects keeps (handle_frame frame now) n.
Proof.
  intros Hb. unfold handle_frame, handle_packet, reject_protocol, enter_network, control.
  apply respects_lift_bind; [typeclasses eauto|]. intros q Eq.
  destruct (PppControl.parse_ppp_packet frame) as [q'|] eqn:E; [|done].
  apply Ok_inj in Eq as ->. apply PppControl.parse_packet_bytes in E as Hq; [|done].
  respects; keeps; eauto using keeps_protocol_rejection, keeps_control_packet.
  apply andb_prop in Heqb as [Hc%bool_decide_eq_true _].
  apply respects_modify, keeps_intro; [done|]. intros []. by split.
Qed.

Lemma keeps_timer now n : respects keeps (handle_timer now) n.
Proof.
  unfold handle_timer, echo_timer, send_echo, control_packet, control.
  respects; keeps; eauto using keeps_next_identifier.
  apply respects_for_each; [typeclasses eauto|]. intros acc p n' _.
  unfold request_timer. respects. eapply keeps_retry; [done|].
  unfold maximum_attempts, id in *. lia.
Qed.

Lemma keeps_terminate n : respects keeps terminate_request n.
Proof.
  unfold terminate_request, control_packet, control. respects; keeps. apply keeps_next_identifier.
Qed.

(** The options a negotiator works with. *)
Definition effective (o : PppNegotiatorOptions) : PppNegotiatorOptions :=
  with_defaults (if decide (mtu o = 0) then o <| mtu := PPP_DEFAULT_TUNNEL_MTU |> else o).

Lemma effective_spec o :
  opt_encapsulation (effective o) = opt_encapsulation o
  /\ opt_want_ipv4 (effective o) = opt_want_ipv4 o /\ opt_want_ipv6 (effective o) = opt_want_ipv6 o
  /\ ipv4_address (effective o) = ipv4_address o /\ ipv6_address (effective o) = ipv6_address o
  /\ request_ipv4_name_servers (effective o) = request_ipv4_name_servers o
  /\ mtu (effective o) = (if decide (mtu o = 0) then PPP_DEFAULT_TUNNEL_MTU else mtu o)
  /\ (0 <= negotiation_attempts o -> 1 <= negotiation_attempts (effective o))
  /\ (0 <= negotiation_period o -> 0 <= negotiation_period (effective o)).
Proof.
  unfold effective, with_defaults, PPP_DEFAULT_NEGOTIATION_ATTEMPTS,
    PPP_DEFAULT_NEGOTIATION_PERIOD, from_secs, NANOS_PER_SEC.
  repeat case_decide; simpl in *; repeat (split; [done|]); lia.
Qed.

Lemma negotiator_new_fresh o draws now n :
  new o draws now = Ok n ->
  exists magic rest, PppControl.random_ppp_magic draws = (Some magic, rest)
  /\ n = fresh (effective o) magic rest now
  /\ PPP_MINIMUM_MRU <= mtu (effective o) <= ppp_maximum_tunnel_mtu (opt_encapsulation o).
Proof.
  unfold new. case_match; [done|]. destruct (effective_spec o) as (_ & _ & _ & _ & _ & _ & Em & _).
  rewrite Em. unfold effective. clear Em H.
  destruct (decide (mtu o = 0)); cbn [mtu opt_encapsulation set_field];
    (case_decide as Hm; [done|]);
    (destruct (PppControl.random_ppp_magic draws) as [[m|] rest]; [|done]);
    intros <-%Ok_inj; exists m, rest; (split; [done|]); (split; [done|]); simpl in Hm; lia.
Qed.

Lemma negotiator_new_ok o draws now n :
  Forall magic_ok draws -> new o draws now = Ok n -> 0 <= negotiation_attempts o ->
  ok n /\ lcp n = default_control.
Proof.
  intros Hd (m & rest & Er & -> & Hm)%negotiator_new_fresh Hn. split; [|done].
  destruct (effective_spec o) as (Ee & _ & _ & _ & _ & _ & _ & Ha & _).
  destruct (random_magic_ok _ _ _ Hd Er).
  pose proof (maximum_mtu_bound (opt_encapsulation o)).
  assert (control_ok (negotiation_attempts (effective o)) default_control)
    by (specialize (Ha ltac:(lia)); split; simpl; try done; ilia).
  split; try done; simpl; [|apply Ha; lia].
  rewrite Ee. unfold wrap16. rewrite Z.mod_small; [lia|].
  unfold U16_MAX, PPP_MINIMUM_MRU in *. simpl. lia.
Qed.

Lemma keeps_start now n : lcp n = default_control -> respects keeps (start now) n.
Proof.
  intros Hl. unfold start. respects.
  apply (keeps_first_request _ _ _ (lcp n)); [done|by rewrite Hl].
Qed.

(** ** Runs *)

(** What happens to a negotiator that was started. *)
Inductive step : PppNegotiator -> PppNegotiator -> Prop :=
| step_frame n frame now : bytes_ok frame -> step n (handle_frame frame now n).2
| step_timer n now : step n (handle_timer now n).2
| step_terminate n : step n (terminate_request n).2.

Definition started (o : PppNegotiatorOptions) (draws : list (list Z)) (n : PppNegotiator) : Prop :=
  exists now n0, new o draws now = Ok n0 /\ n = (start now n0).2.

Lemma step_keeps n n' : step n n' -> keeps n n'.
Proof.
  destruct 1; [by apply keeps_frame|apply keeps_timer|apply keeps_terminate].
Qed.

Lemma step_stable n n' : step n n' -> stable n n'.
Proof. destruct 1; [apply stable_frame|apply stable_timer|apply stable_terminate]. Qed.

Lemma steps_stable n n' : rtc step n n' -> stable n n'.
Proof. induction 1; [reflexivity|]. etransitivity; [by apply step_stable|done]. Qed.

Lemma steps_keep n n' : rtc step n n' -> keeps n n'.
Proof. induction 1; [reflexivity|]. etransitivity; [by apply step_keeps|done]. Qed.

Lemma started_ok o draws n :
  Forall magic_ok draws -> 0 <= negotiation_attempts o -> started o draws n -> ok n.
Proof.
  intros Hd Ha (now & n0 & Hn & ->). destruct (negotiator_new_ok _ _ _ _ Hd Hn Ha) as [Hok Hl].
  by apply keeps_start.
Qed.

(** C30: A link that reports itself ready is configured, and stays so: in every
    state the negotiator reaches from its start, whatever frames the peer sends
    and whenever the timers fire, readiness implies a configuration with an MTU
    of at least the minimum MRU, at least one address and only usable addresses
    and name servers; no protocol has used more than its attempts; and from then
    on the local addresses never change and a network protocol that was given up
    is not taken up again. *)
Theorem ready_configuration (o : PppNegotiatorOptions) (draws : list (list Z))
    (n0 n1 n2 : PppNegotiator) :
  Forall magic_ok draws -> 0 <= negotiation_attempts o -> started o draws n0 ->
  rtc step n0 n1 -> phase n1 = Network -> rtc step n1 n2 ->
  (exists c, configuration n2 = Some c /\ configuration_ok c)
  /\ Forall (fun c => request_attempts c <= maximum_attempts n2) [lcp n2; ipcp n2; ip6cp n2]
  /\ (forall a, local_ipv4 n1 = Some a -> local_ipv4 n2 = Some a)
  /\ (forall a, 0 <= a < 2 ^ 128 -> local_ipv6 n1 = Some a -> local_ipv6 n2 = Some a)
  /\ (want_ipv4 n1 = false -> want_ipv4 n2 = false)
  /\ (want_ipv6 n1 = false -> want_ipv6 n2 = false).
Proof.
  intros Hd Ha Hs H01 Hn H12.
  destruct (steps_keep _ _ H01) as [Hok1 _]; [by eapply started_ok|].
  destruct (steps_keep _ _ H12 Hok1) as [Hok2 Hc2].
  destruct (network_ok _ Hok1 Hn) as [Hc1 Hl]. destruct (Hc2 Hc1) as [c Hc].
  pose proof (steps_stable _ _ H12) as []. destruct Hok2.
  split; [by exists c; eauto|]. split; [|by eauto 10].
  repeat (apply Forall_cons_2; [by apply (attempts_ok (maximum_attempts n2))|]). done.
Qed.

(** ** The requests, exactly *)

Definition optional (b : bool) (k : Z) (v : list Z) : list (Z * list Z) :=
  if b then [(k, v)] else [].

(** The options of an LCP request with the magic number [m]. *)
Definition lcp_options (n : PppNegotiator) (m : list Z) : list (Z * list Z) :=
  optional (request_mru n) PPP_LCP_OPTION_MRU (to_be_bytes 2 (local_mru n))
  ++ optional (request_async_map n) PPP_LCP_OPTION_ASYNC_MAP (to_be_bytes 4 (local_async_map n))
  ++ optional (local_magic_enabled n) PPP_LCP_OPTION_MAGIC m
  ++ optional (request_protocol_compression n) PPP_LCP_OPTION_PROTOCOL_COMPRESSION []
  ++ optional (request_address_compression n) PPP_LCP_OPTION_ADDRESS_COMPRESSION [].

Lemma optional_length b k v :
  len (PppControl.option_bytes (optional b k v)) <= len v + 2.
Proof.
  unfold len. destruct b; [|simpl; lia].
  change (PppControl.option_bytes (optional true k v))
    with ([k; PppControl.len v + 2] ++ v ++ []). rewrite app_nil_r, length_app. simpl length. lia.
Qed.

Lemma option_bytes_len kvs kvs' :
  len (PppControl.option_bytes (kvs ++ kvs'))
  = len (PppControl.option_bytes kvs) + len (PppControl.option_bytes kvs').
Proof. rewrite PppControl.option_bytes_app. unfold len. rewrite length_app. lia. Qed.

(** The size of a request: at most five options of at most six bytes. *)
Lemma lcp_options_length n m :
  length m = 4%nat -> len (PppControl.option_bytes (lcp_options n m)) <= 30.
Proof.
  intros Hm. unfold lcp_options. rewrite !option_bytes_len.
  repeat match goal with |- context [len (PppControl.option_bytes (optional ?b ?k ?v))] =>
    let H := fresh in pose proof (optional_length b k v) as H;
    generalize dependent (len (PppControl.option_bytes (optional b k v))); intros end.
  unfold len in *. rewrite ?length_to_be_bytes, ?Hm in *. simpl in *. lia.
Qed.

Lemma optional_append (b : bool) kvs k v n :
  PppControl.option_fits (k, v) ->
  (if b then control (PppControl.append_ppp_option (PppControl.option_bytes kvs) k v)
   else mret (PppControl.option_bytes kvs)) n
  = (Ok (PppControl.option_bytes (kvs ++ optional b k v)), n).
Proof.
  intros Hf. destruct b; cbn [optional]; [|by rewrite app_nil_r].
  unfold control, lift. by rewrite PppControl.append_option_bytes.
Qed.

Lemma bind_eq {A B} (m : N A) (f : A -> N B) n a n' :
  m n = (Ok a, n') -> (m ≫= f) n = f a n'.
Proof. unfold mbind, method_bind. by intros ->. Qed.

Lemma redraw_eq n m rest :
  PppControl.random_ppp_magic (entropy n) = (Some m, rest) ->
  redraw_magic n = (Ok m, n <| entropy := rest |> <| local_magic := m |>).
Proof. intros E. unfold redraw_magic, draw_magic, mbind, method_bind. by rewrite E. Qed.

Lemma lcp_request_eq n m rest :
  local_magic_enabled n = true -> PppControl.random_ppp_magic (entropy n) = (Some m, rest) ->
  length m = 4%nat ->
  lcp_request_options n
  = (Ok (PppControl.option_bytes (lcp_options n m)), n <| entropy := rest |> <| local_magic := m |>).
Proof.
  intros Hm Er Hl. unfold lcp_request_options. erewrite bind_eq by reflexivity. unfold id.
  unfold PppControl.append_ppp_option_u16, PppControl.append_ppp_option_u32.
  erewrite bind_eq by (by apply (optional_append _ [])).
  erewrite bind_eq by (by apply optional_append).
  rewrite Hm. erewrite bind_eq; cycle 1.
  { erewrite bind_eq by (by apply redraw_eq). unfold control, lift.
    rewrite PppControl.append_option_bytes; [reflexivity|].
    unfold PppControl.option_fits, PppControl.len. simpl. rewrite Hl. done. }
  erewrite bind_eq by (by apply optional_append).
  rewrite optional_append by done.
  unfold lcp_options. rewrite Hm. by rewrite <- !(assoc_L (++)).
Qed.

Lemma build_lcp_eq n m rest now :
  local_magic_enabled n = true -> PppControl.random_ppp_magic (entropy n) = (Some m, rest) ->
  length m = 4%nat ->
  let n' := n <| entropy := rest |> <| local_magic := m |> <| lcp ::= new_request now |> in
  build_configuration_request PPP_PROTOCOL_LCP now n
  = (Ok (outbound_packet n' PPP_PROTOCOL_LCP
           (PppControl.packet_bytes PPP_CODE_CONFIGURE_REQUEST (wrap8 (next_identifier (lcp n) + 1))
              (PppControl.option_bytes (lcp_options n m)))), n').
Proof.
  intros Hm Er Hl n'. unfold build_configuration_request, request_options.
  rewrite decide_True by done. erewrite bind_eq by (by apply lcp_request_eq).
  erewrite bind_eq by reflexivity. erewrite bind_eq by reflexivity. unfold id.
  erewrite bind_eq by reflexivity. unfold control_packet, control, lift.
  rewrite PppControl.build_control_fits; [reflexivity|].
  pose proof (lcp_options_length n m Hl). unfold len, PppControl.len in *.
  unfold PPP_MAXIMUM_PAYLOAD_LENGTH, U16_MAX. lia.
Qed.

(** ** A peer that never answers *)

(** The timer is called at each of the times. *)
Fixpoint run_timers (times : list Z) (n : PppNegotiator)
    : list (result PppNegotiationError (list PppOutboundPacket)) * PppNegotiator :=
  match times with
  | [] => ([], n)
  | now :: times =>
      let '(r, n) := handle_timer now n in
      let '(rs, n) := run_timers times n in (r :: rs, n)
  end.

(** Each time is at least a period after the one before. *)
Fixpoint spaced (period last : Z) (times : list Z) : Prop :=
  match times with
  | [] => True
  | now :: times => last + period <= now /\ spaced period now times
  end.

(** Only LCP requests have been sent, the last one at [last], and none was
    answered. *)
Record unanswered (n : PppNegotiator) (last : Z) : Prop := {
  unanswered_phase : phase n = Establishing;
  unanswered_magic : local_magic_enabled n = true;
  unanswered_sent : request_sent (lcp n) = true;
  unanswered_not : request_acknowledged (lcp n) = false;
  unanswered_last : last_request (lcp n) = Some last;
  unanswered_ipcp : request_sent (ipcp n) = false;
  unanswered_ip6cp : request_sent (ip6cp n) = false;
  unanswered_period : 0 <= negotiation_period (options n);
}.

Definition usable_draw (m : list Z) : Prop := length m = 4%nat /\ m <> [0; 0; 0; 0].

Lemma random_usable m rest :
  usable_draw m -> PppControl.random_ppp_magic (m :: rest) = (Some m, rest).
Proof. intros [_ Hm]. simpl. by rewrite decide_True. Qed.

(** The timers of the network protocols do nothing. *)
Lemma unanswered_rest n last now out :
  unanswered n last ->
  (out ← for_each (request_timer now) [PPP_PROTOCOL_IPCP; PPP_PROTOCOL_IP6CP] out;
   echo_timer now out) n = (Ok out, n).
Proof.
  intros []. assert (request_timer now out PPP_PROTOCOL_IPCP n = (Ok out, n)) as E4.
  { unfold request_timer. erewrite bind_eq by reflexivity. case_match; [done|].
    erewrite bind_eq by reflexivity. unfold id. by rewrite unanswered_ipcp0. }
  assert (request_timer now out PPP_PROTOCOL_IP6CP n = (Ok out, n)) as E6.
  { unfold request_timer. erewrite bind_eq by reflexivity. case_match; [done|].
    erewrite bind_eq by reflexivity. unfold id. by rewrite unanswered_ip6cp0. }
  assert (for_each (request_timer now) [PPP_PROTOCOL_IPCP; PPP_PROTOCOL_IP6CP] out n = (Ok out, n)) as E.
  { cbn [for_each]. by rewrite (bind_eq _ _ _ _ _ E4), (bind_eq _ _ _ _ _ E6). }
  rewrite (bind_eq _ _ _ _ _ E). unfold echo_timer. erewrite bind_eq by reflexivity.
  unfold id. by rewrite unanswered_phase0.
Qed.

Lemma for_each_cons {A B} (body : B -> A -> N B) x l acc {C} (k : B -> N C) n acc' n' :
  body acc x n = (Ok acc', n') ->
  (r ← for_each body (x :: l) acc; k r) n = (r ← for_each body l acc'; k r) n'.
Proof. intros E. cbn [for_each]. unfold mbind, method_bind. by rewrite E. Qed.

Lemma unanswered_retry n last now m rest :
  unanswered n last -> last + negotiation_period (options n) <= now ->
  request_attempts (lcp n) < maximum_attempts n -> entropy n = m :: rest -> usable_draw m ->
  exists p n', handle_timer now n = (Ok [p], n') /\ out_protocol p = PPP_PROTOCOL_LCP
  /\ unanswered n' now /\ options n' = options n /\ entropy n' = rest
  /\ request_attempts (lcp n') = request_attempts (lcp n) + 1.
Proof.
  intros Hu Ht Ha He Hm. destruct (Hu). unfold handle_timer. erewrite bind_eq by reflexivity.
  unfold id. rewrite unanswered_phase0, decide_False by done.
  assert (PppControl.random_ppp_magic (entropy n) = (Some m, rest)) as Er
    by (rewrite He; by apply random_usable).
  pose proof (build_lcp_eq n m rest now unanswered_magic0 Er ltac:(apply Hm)) as Eb. simpl in Eb.
  erewrite for_each_cons; cycle 1.
  { unfold request_timer. erewrite bind_eq by reflexivity. rewrite bool_decide_false by done.
    rewrite bool_decide_false by done. cbn [andb orb]. erewrite bind_eq by reflexivity. unfold id.
    rewrite unanswered_sent0, unanswered_not0, unanswered_last0. cbn [negb orb].
    unfold duration_since. rewrite decide_False by lia.
    rewrite decide_False by (unfold maximum_attempts in Ha; lia).
    erewrite bind_eq by exact Eb. reflexivity. }
  rewrite (unanswered_rest _ now) by (by split).
  do 2 eexists. split; [reflexivity|]. by repeat (split; [by split|]).
Qed.

Lemma unanswered_timeout n last now :
  unanswered n last -> last + negotiation_period (options n) <= now ->
  maximum_attempts n <= request_attempts (lcp n) ->
  handle_timer now n = (Err (NegotiationTimedOut PPP_PROTOCOL_LCP), n).
Proof.
  intros [] Ht Ha. unfold handle_timer. erewrite bind_eq by reflexivity.
  unfold id. rewrite unanswered_phase0, decide_False by done. cbn [for_each].
  assert (request_timer now [] PPP_PROTOCOL_LCP n = (Err (NegotiationTimedOut PPP_PROTOCOL_LCP), n)) as E.
  { unfold request_timer. erewrite bind_eq by reflexivity. rewrite bool_decide_false by done.
    rewrite bool_decide_false by done. cbn [andb orb]. erewrite bind_eq by reflexivity. unfold id.
    rewrite unanswered_sent0, unanswered_not0, unanswered_last0. cbn [negb orb].
    unfold duration_since. rewrite decide_False by lia.
    by rewrite decide_True by (unfold maximum_attempts in Ha; lia). }
  unfold mbind, method_bind. by rewrite E.
Qed.

Lemma run_unanswered k n last times draws more :
  unanswered n last -> spaced (negotiation_period (options n)) last times ->
  request_attempts (lcp n) + Z.of_nat k = maximum_attempts n ->
  length times = S k -> entropy n = draws ++ more -> length draws = k -> Forall usable_draw draws ->
  exists requests n',
  run_timers times n = (map Ok requests ++ [Err (NegotiationTimedOut PPP_PROTOCOL_LCP)], n')
  /\ length requests = k
  /\ Forall (fun out => exists p, out = [p] /\ out_protocol p = PPP_PROTOCOL_LCP) requests.
Proof.
  revert n last times draws. induction k as [|k IH]; intros n last times draws Hu Hs Ha Hl He Hd Hf.
  - destruct times as [|now [|]]; try done. destruct Hs as [Hs _]. simpl.
    rewrite (unanswered_timeout n last now) by (done || lia). by exists [], n.
  - destruct times as [|now times]; [done|]. destruct Hs as [Hs Hs']. injection Hl as Hl.
    destruct draws as [|m draws]; [done|]. injection Hd as Hd. apply Forall_cons in Hf as [Hm Hf].
    destruct (unanswered_retry n last now m (draws ++ more)) as (p & n1 & E & Hp & Hu1 & Ho & He1 & Ha1);
      try done; [lia|].
    destruct (IH n1 now times draws) as (requests & n' & Er & Hlr & Hfr); try done.
    { by rewrite Ho. } { unfold maximum_attempts in *. rewrite Ho. lia. }
    exists ([p] :: requests), n'. cbn [run_timers]. rewrite E, Er. split; [done|].
    split; [by rewrite <- Hlr|]. constructor; [by exists p|done].
Qed.

(** C31: A peer that never answers does not hold the link for ever: when the timer
    is called a negotiation period apart, exactly the configured number of
    requests is sent in all, each call but the last repeats the LCP request, and
    the last call reports that LCP timed out. *)
Theorem silent_peer_gives_up (o : PppNegotiatorOptions) (draws : list (list Z)) (now : Z)
    (n0 n1 : PppNegotiator) (first : list PppOutboundPacket) (times : list Z) :
  new o draws now = Ok n0 -> start now n0 = (Ok first, n1) ->
  0 <= negotiation_period o -> 0 <= negotiation_attempts o ->
  Forall usable_draw draws -> negotiation_attempts (options n0) < Z.of_nat (length draws) ->
  spaced (negotiation_period (options n0)) now times ->
  Z.of_nat (length times) = negotiation_attempts (options n0) ->
  exists requests n',
  run_timers times n1 = (map Ok requests ++ [Err (NegotiationTimedOut PPP_PROTOCOL_LCP)], n')
  /\ Z.of_nat (length (first :: requests)) = negotiation_attempts (options n0)
  /\ Forall (fun out => exists p, out = [p] /\ out_protocol p = PPP_PROTOCOL_LCP) (first :: requests).
Proof.
  intros Hn Hs Hp Ha Hd Hl Ht Hlt. apply negotiator_new_fresh in Hn as (m & rest & Er & -> & _).
  destruct (effective_spec o) as (_ & _ & _ & _ & _ & _ & _ & Ha' & Hp').
  specialize (Ha' Ha). specialize (Hp' Hp). cbn [options fresh] in *.
  destruct draws as [|m0 [|m1 draws]]; [simpl in *; lia..|].
  apply Forall_cons in Hd as [Hm0 [Hm1 Hd]%Forall_cons].
  rewrite random_usable in Er by done. injection Er as <- <-.
  unfold start in Hs. erewrite bind_eq in Hs
    by (apply build_lcp_eq; [done|by apply random_usable|apply Hm1]).
  injection Hs as <- <-.
  set (k := Z.to_nat (negotiation_attempts (effective o) - 1)).
  match goal with |- context [run_timers times ?n] =>
    destruct (run_unanswered k n now times (take k draws) (drop k draws))
      as (requests & n' & E & Hr & Hf) end.
  - by split.
  - done.
  - unfold maximum_attempts. simpl. lia.
  - lia.
  - simpl. by rewrite take_drop.
  - rewrite length_take. simpl in Hl. lia.
  - by apply Forall_take.
  - exists requests, n'. split; [exact E|]. split; [simpl; lia|].
    constructor; [by eexists|done].
Qed.

(** ** Examples *)

(** Frames handled at one time. *)
Definition run_frames (frames : list (list Z)) (n : PppNegotiator) : PppNegotiator :=
  foldl (fun n frame => (handle_frame frame 0 n).2) n frames.

Lemma run_frames_steps frames n : Forall bytes_ok frames -> rtc step n (run_frames frames n).
Proof.
  intros Hb. revert n. induction Hb as [|f frames Hf _ IH]; intros n; [done|].
  eapply rtc_l; [by apply (step_frame n f 0)|]. apply IH.
Qed.

(** An IPv4 end with address 10.0.0.1 that makes two attempts. *)
Definition example_options : PppNegotiatorOptions :=
  mkOptions F5Hdlc true false (Some (167772161, 24)) None false 1400 false 0 2 0 0.

Definition example_draws : list (list Z) :=
  [[1; 2; 3; 4]; [0; 0; 0; 1]; [5; 6; 7; 8]; [9; 9; 9; 9]].

Definition example_new : PppNegotiator :=
  fresh (effective example_options) [1; 2; 3; 4] (drop 1 example_draws) 0.

Definition example_started : PppNegotiator := (start 0 example_new).2.

(** The peer's LCP request (an MRU of 1300) and acknowledgement, and its IPCP
    request (address 10.0.0.2) and acknowledgement. *)
Definition example_frames : list (list Z) :=
  [[255; 3; 192; 33; 1; 1; 0; 8; 1; 4; 5; 20]; [255; 3; 192; 33; 2; 1; 0; 4];
   [128; 33; 1; 1; 0; 10; 3; 6; 10; 0; 0; 2]; [128; 33; 2; 1; 0; 4]].

Definition example_ready : PppNegotiator := run_frames example_frames example_started.

Lemma example_draws_ok : Forall magic_ok example_draws.
Proof. repeat (apply Forall_cons_2; [by split; [|apply bytes_okb_true]|]). done. Qed.

Lemma example_frames_ok : Forall bytes_ok example_frames.
Proof. repeat (apply Forall_cons_2; [by apply bytes_okb_true|]). done. Qed.

Lemma example_is_started : started example_options example_draws example_started.
Proof. exists 0, example_new. by split; vm_compute. Qed.

Lemma ready_configuration_witness :
  exists c, configuration (run_frames example_frames example_ready) = Some c /\ configuration_ok c.
Proof.
  destruct (ready_configuration example_options example_draws example_started example_ready
    (run_frames example_frames example_ready)) as [Hc _].
  - apply example_draws_ok.
  - done.
  - apply example_is_started.
  - apply run_frames_steps, example_frames_ok.
  - by vm_compute.
  - apply run_frames_steps, example_frames_ok.
  - exact Hc.
Defined.

Lemma silent_peer_gives_up_witness :
  exists requests n',
  run_timers [3000000000; 7000000000] example_started
  = (map Ok requests ++ [Err (NegotiationTimedOut PPP_PROTOCOL_LCP)], n')
  /\ Z.of_nat (length ([] :: requests)) = 2.
Proof.
  destruct (silent_peer_gives_up example_options example_draws 0 example_new example_started
    (match (start 0 example_new).1 with Ok l => l | Err _ => [] end) [3000000000; 7000000000])
    as (requests & n' & E & Hl & _).
  - by vm_compute.
  - by vm_compute.
  - done.
  - done.
  - repeat (apply Forall_cons_2; [by split|]). done.
  - by vm_compute.
  - by vm_compute.
  - by vm_compute.
  - exists requests, n'. split; [exact E|exact Hl].
Defined.

End Negotiator.
