(* ===== verification/PppLink.v ===== *)
(** * Two ends of a PPP link

    The composition of the framing, the packet headers and the negotiation: IP
    packets cross a link whose two ends are ready, and two negotiators that talk
    to each other become ready. *)

From stdpp Require Import base numbers list list_numbers gmap.
From Stdlib Require Import ZArith Lia.
From S2P Require Import Prelude PppFrame PppControl PppNegotiation.

Local Open Scope Z_scope.
Local Open Scope record_scope.

Module Link.
Import Negotiator.

(** ** IP packets *)

(** The packet an outbound packet is framed from. *)
Definition frame_of (p : PppOutboundPacket) : list Z :=
  PppControl.build_ppp_packet_header (out_protocol p) (protocol_compression p)
    (address_compression p) ++ out_payload p.

(** The receiver handles the frames one after another. *)
Definition handle_frames (frames : list (list Z)) (now : Z) : N (list (option (list Z))) :=
  for_each (fun received frame =>
              event ← handle_frame frame now; mret (received ++ [delivered event])) frames [].

Lemma header_length p pc ac :
  (length (PppControl.build_ppp_packet_header p pc ac) <= 4)%nat
  /\ PppControl.build_ppp_packet_header p pc ac <> [].
Proof.
  unfold PppControl.build_ppp_packet_header.
  repeat case_match; rewrite ?length_app, ?length_to_be_bytes; (split; [simpl; lia|]);
    by intros [? E]%app_eq_nil || done.
Qed.

Lemma ipv4_protocol_ok : PppControl.protocol_ok PPP_PROTOCOL_IPV4.
Proof. by repeat split. Qed.

Lemma ipv6_protocol_ok : PppControl.protocol_ok PPP_PROTOCOL_IPV6.
Proof. by repeat split. Qed.

(** What [build_data_packet] accepts. *)
Lemma build_data_inv n p out :
  build_data_packet n p = Ok out ->
  p <> [] /\ len p <= local_mru n /\ phase n = Network
  /\ ((out = outbound_packet n PPP_PROTOCOL_IPV4 p /\ want_ipv4 n = true)
      \/ (out = outbound_packet n PPP_PROTOCOL_IPV6 p /\ want_ipv6 n = true)).
Proof.
  unfold build_data_packet. case_decide as Hp; [done|].
  destruct p as [|b p]; [done|]. case_decide; [done|].
  destruct (_ && want_ipv4 n) eqn:E4.
  - apply andb_prop in E4 as [_ E4]. intros <-%Ok_inj.
    split; [done|]. split; [lia|]. split; [done|]. by left.
  - destruct (_ && want_ipv6 n) eqn:E6; [|by destruct (decide (_ ∨ _))].
    apply andb_prop in E6 as [_ E6]. intros <-%Ok_inj.
    split; [done|]. split; [lia|]. split; [done|]. by right.
Qed.

(** A packet within the local MRU can always be framed. *)
Lemma encode_fits n p out :
  ok n -> build_data_packet n p = Ok out ->
  exists enc, encode out (opt_encapsulation (options n)) = Ok enc
  /\ PppFrame.encode_ppp_frame (opt_encapsulation (options n)) (frame_of out) (local_async_map n) = Ok enc.
Proof.
  intros [] (Hne & Hl & _ & Ho)%build_data_inv.
  assert (out_payload out = p /\ async_map out = local_async_map n /\ out_protocol out <> 0)
    as (Ep & Em & Ez) by (destruct Ho as [[-> _]|[-> _]]; done).
  unfold encode. rewrite decide_False by (intros []; congruence). rewrite Em. fold (frame_of out).
  assert (exists enc, PppFrame.encode_ppp_frame (opt_encapsulation (options n)) (frame_of out)
    (local_async_map n) = Ok enc) as [enc ->]; [|by exists enc].
  destruct (header_length (out_protocol out) (protocol_compression out) (address_compression out))
    as [Hh Hhn].
  assert (frame_of out <> []) by (unfold frame_of; by intros [? _]%app_eq_nil).
  assert (PppFrame.len (frame_of out) <= len p + 4) as Hf
    by (unfold frame_of, PppFrame.len, len; rewrite Ep, length_app; lia).
  unfold PppFrame.encode_ppp_frame. rewrite decide_False.
  - destruct (opt_encapsulation (options n)) eqn:Ee; [by eexists..|].
    rewrite decide_False; [by eexists|].
    unfold ppp_maximum_tunnel_mtu, PPP_MAXIMUM_PAYLOAD_LENGTH in *. ilia.
  - intros [?|Hbig]; [done|]. unfold ppp_maximum_tunnel_mtu, PPP_MAXIMUM_PAYLOAD_LENGTH in *.
    destruct (opt_encapsulation (options n)); ilia.
Qed.

Lemma frame_bytes n p out :
  build_data_packet n p = Ok out -> bytes_ok p -> bytes_ok (frame_of out).
Proof.
  intros (_ & _ & _ & Ho)%build_data_inv Hb. unfold frame_of. apply Forall_app.
  assert (out_payload out = p /\ is_u8 (out_protocol out)) as [-> Hu]
    by (destruct Ho as [[-> _]|[-> _]]; by split; [|vm_compute]).
  split; [|done]. unfold PppControl.build_ppp_packet_header. apply Forall_app.
  split; repeat case_match; try apply to_be_bytes_ok;
    first [by apply Forall_singleton|by apply bytes_okb_true].
Qed.

(** A data frame is handed over, and nothing is answered. *)
Lemma handle_data_frame n r p out now :
  build_data_packet n p = Ok out -> phase r = Network ->
  (want_ipv4 n = true -> want_ipv4 r = true) -> (want_ipv6 n = true -> want_ipv6 r = true) ->
  handle_frame (frame_of out) now r
  = (Ok (default_event <| delivered := Some p |>),
     r <| last_received := now |> <| pending_echo := false |> <| missed_echo_replies := 0 |>).
Proof.
  intros (_ & _ & _ & Ho)%build_data_inv Hr H4 H6. unfold handle_frame.
  rewrite (bind_eq _ _ _ (mkPppPacket (out_protocol out) (out_payload out)) r); cycle 1.
  { unfold control, lift, frame_of. rewrite PppControl.parse_build_header; [done|].
    destruct Ho as [[-> _]|[-> _]]; [apply ipv4_protocol_ok|apply ipv6_protocol_ok]. }
  erewrite bind_eq by reflexivity. unfold handle_packet.
  assert (forall e n, phase n = Network -> enter_network e n = (Ok e, n)) as He.
  { intros e n' Hn. unfold enter_network. erewrite bind_eq by reflexivity. unfold id.
    by rewrite Hn, andb_false_r. }
  destruct Ho as [[-> Hw]|[-> Hw]]; cbn [outbound_packet out_protocol out_payload protocol payload];
    (erewrite bind_eq by reflexivity); unfold id; cbn [phase want_ipv4 want_ipv6 set_field];
    rewrite Hr, ?(H4 Hw), ?(H6 Hw); by rewrite He.
Qed.

Lemma handle_data_frames n r ps outs now before :
  Forall2 (fun p out => build_data_packet n p = Ok out) ps outs -> phase r = Network ->
  (want_ipv4 n = true -> want_ipv4 r = true) -> (want_ipv6 n = true -> want_ipv6 r = true) ->
  exists r',
  for_each (fun received frame =>
      event ← handle_frame frame now; mret (received ++ [delivered event]))
    (map frame_of outs) before r = (Ok (before ++ map Some ps), r')
  /\ phase r' = Network.
Proof.
  intros Hp. revert r before. induction Hp as [|p out ps outs Hp _ IH]; intros r before Hr H4 H6.
  { exists r. split; [|done]. simpl. by rewrite app_nil_r. }
  cbn [map for_each]. erewrite bind_eq; cycle 1.
  { erewrite bind_eq by (by eapply handle_data_frame). reflexivity. }
  match goal with |- context [for_each _ _ ?l ?r1] =>
    destruct (IH r1 l) as (r' & E & Hr'); [done..|] end.
  exists r'. split; [|done]. rewrite E. cbn [delivered set_field map default_event].
  by rewrite <- (assoc_L (++)).
Qed.

Lemma encode_all_fit n ps outs :
  ok n -> Forall2 (fun p out => build_data_packet n p = Ok out) ps outs ->
  exists encoded, Forall2 (fun out enc => encode out (opt_encapsulation (options n)) = Ok enc) outs encoded.
Proof.
  intros Hok Hp. induction Hp as [|p out ps outs Hp _ (encoded & IH)]; [by exists []|].
  destruct (encode_fits n p out Hok Hp) as (enc & E & _). exists (enc :: encoded). by constructor.
Qed.

Lemma encoded_sent n ps outs encoded :
  ok n -> Forall2 (fun p out => build_data_packet n p = Ok out) ps outs -> Forall bytes_ok ps ->
  Forall2 (fun out enc => encode out (opt_encapsulation (options n)) = Ok enc) outs encoded ->
  Forall2 (PppFrame.sent (opt_encapsulation (options n)) (local_async_map n))
    (map frame_of outs) encoded.
Proof.
  intros Hok Hp. revert encoded. induction Hp as [|p out ps outs Hp _ IH]; intros encoded Hb He.
  { apply Forall2_nil_inv_l in He as ->. constructor. }
  apply Forall2_cons_inv_l in He as (enc & encoded' & He & Hes & ->).
  apply Forall_cons in Hb as [Hbp Hb]. constructor; [|by apply IH].
  destruct (encode_fits n p out Hok Hp) as (enc' & E & E'). rewrite He in E.
  apply Ok_inj in E as ->. split; [done|]. by eapply frame_bytes.
Qed.

(** C28: IP packets cross a ready link unchanged, for each of the three
    encapsulations and whatever header compression and escaping were
    negotiated.  Every packet a negotiated sender accepts can be framed.  And
    however the carrier cuts the resulting bytes into reads, as long as a read
    and a frame (and one byte) fit together in the receive buffer of the
    decoder, a receiver that is in the network phase and wants the network
    protocols of the sender is handed exactly these packets, in order. *)
Theorem link_carries_packets (o : PppNegotiatorOptions) (draws : list (list Z))
    (n0 n r : PppNegotiator) (packets chunks : list (list Z)) (outs : list PppOutboundPacket)
    (bound now : Z) :
  Forall magic_ok draws -> 0 <= negotiation_attempts o -> started o draws n0 -> rtc step n0 n ->
  Forall2 (fun p out => build_data_packet n p = Ok out) packets outs -> Forall bytes_ok packets ->
  phase r = Network ->
  (want_ipv4 n = true -> want_ipv4 r = true) -> (want_ipv6 n = true -> want_ipv6 r = true) ->
  let e := opt_encapsulation (options n) in
  (exists encoded, Forall2 (fun out enc => encode out e = Ok enc) outs encoded)
  /\ forall encoded, Forall2 (fun out enc => encode out e = Ok enc) outs encoded ->
     concat chunks = concat encoded -> 0 <= bound -> Forall (fun enc => len enc <= bound) encoded ->
     Forall (fun c => bound + 1 + len c <= PPP_MAXIMUM_WIRE_FRAME_SIZE) chunks ->
     exists frames d' r', PppFrame.push_all (PppFrame.new e) chunks = (Ok frames, d')
     /\ handle_frames frames now r = (Ok (map Some packets), r').
Proof.
  intros Hd Ha Hs Hst Hp Hb Hr H4 H6 e.
  destruct (steps_keep _ _ Hst) as [Hok _]; [by eapply started_ok|].
  split; [by eapply encode_all_fit|]. intros encoded He Hc Hbound Hle Hch.
  destruct (PppFrame.push_all_stream e (local_async_map n) bound chunks [] []
    (map frame_of outs) encoded) as (d' & E & _); try done; [by left..|by eapply encoded_sent|].
  destruct (handle_data_frames n r packets outs now []) as (r' & E' & _); try done.
  by exists (map frame_of outs), d', r'.
Qed.

(** Two packets with bytes that HDLC escapes, cut in the middle. *)
Definition example_packets : list (list Z) := [[69; 126; 0; 125]; [64; 17]].

Definition example_outs : list PppOutboundPacket :=
  map (outbound_packet example_ready PPP_PROTOCOL_IPV4) example_packets.

Definition example_encoded : list (list Z) :=
  Eval vm_compute in
    map (fun p => match encode p F5Hdlc with Ok enc => enc | Err _ => [] end) example_outs.

Lemma link_carries_packets_witness :
  exists frames d' r',
  PppFrame.push_all (PppFrame.new F5Hdlc)
    [take 5 (concat example_encoded); drop 5 (concat example_encoded)] = (Ok frames, d')
  /\ handle_frames frames 0 example_ready = (Ok (map Some example_packets), r').
Proof.
  destruct (link_carries_packets example_options example_draws example_started example_ready
    example_ready example_packets
    [take 5 (concat example_encoded); drop 5 (concat example_encoded)] example_outs 100 0) as [_ H].
  - apply example_draws_ok.
  - done.
  - apply example_is_started.
  - apply run_frames_steps, example_frames_ok.
  - do 2 (apply Forall2_cons_2; [by vm_compute|]). by apply Forall2_nil_2.
  - do 2 (apply Forall_cons_2; [by apply bytes_okb_true|]). by apply Forall_nil_2.
  - by vm_compute.
  - done.
  - done.
  - apply (H example_encoded).
    + do 2 (apply Forall2_cons_2; [by vm_compute|]). by apply Forall2_nil_2.
    + by vm_compute.
    + lia.
    + do 2 (apply Forall_cons_2; [by vm_compute|]). by apply Forall_nil_2.
    + do 2 (apply Forall_cons_2; [by vm_compute|]). by apply Forall_nil_2.
Defined.

(** ** Two negotiators

    What an end puts into its requests: the MRU and the magic number, whether it
    asks for an async map and for header compression, and its addresses. *)
Record Side : Type := mkSide {
  side_mru : Z;
  side_magic : list Z;
  side_hdlc : bool;
  side_compress : bool;
  side_ipv4 : Z;
  side_ipv6 : Z;
}.

Definition side_lcp (s : Side) : list (Z * list Z) :=
  optional true PPP_LCP_OPTION_MRU (to_be_bytes 2 (side_mru s))
  ++ optional (side_hdlc s) PPP_LCP_OPTION_ASYNC_MAP (to_be_bytes 4 0)
  ++ optional true PPP_LCP_OPTION_MAGIC (side_magic s)
  ++ optional (side_compress s) PPP_LCP_OPTION_PROTOCOL_COMPRESSION []
  ++ optional (side_compress s) PPP_LCP_OPTION_ADDRESS_COMPRESSION [].

Definition side_ipcp (s : Side) : list (Z * list Z) :=
  [(PPP_IPCP_OPTION_ADDRESS, to_be_bytes 4 (side_ipv4 s))].

Definition side_ip6cp (s : Side) : list (Z * list Z) :=
  [(PPP_IP6CP_OPTION_INTERFACE_ID, PppControl.ppp_interface_id (IpV6 (side_ipv6 s)))].

(** A control packet on the link: its protocol and its bytes. *)
Definition message : Type := Z * list Z.

Definition message_of (p : PppOutboundPacket) : message := (out_protocol p, out_payload p).

(** First requests have identifier one; an acknowledgement repeats it. *)
Definition request (proto : Z) (opts : list (Z * list Z)) : message :=
  (proto, PppControl.packet_bytes PPP_CODE_CONFIGURE_REQUEST 1 (PppControl.option_bytes opts)).

Definition acknowledgement (proto : Z) (opts : list (Z * list Z)) : message :=
  (proto, PppControl.packet_bytes PPP_CODE_CONFIGURE_ACKNOWLEDGEMENT 1 (PppControl.option_bytes opts)).

Record side_ok (s : Side) : Prop := {
  side_mru_ok : PPP_MINIMUM_MRU <= side_mru s <= U16_MAX;
  side_magic_ok : length (side_magic s) = 4%nat;
  side_ipv4_ok : 0 < side_ipv4 s <= U32_MAX;
  side_ipv6_ok : PppControl.ppp_interface_id (IpV6 (side_ipv6 s)) <> replicate 8 0;
}.

Definition empty_reply : Reply := mkReply [] [] PPP_DEFAULT_MRU None None.

Lemma option_accepted p r o r' n l :
  request_option p r o n = (Ok r', n) ->
  for_each (request_option p) (o :: l) r n = for_each (request_option p) l r' n.
Proof. intros E. cbn [for_each]. by rewrite (bind_eq _ _ _ _ _ E). Qed.

Lemma optional_accepted p (b : bool) k v r r' n kvs :
  (b = true -> request_option p r (PppControl.option_of (k, v)) n = (Ok r', n)) ->
  (b = false -> r' = r) ->
  for_each (request_option p) (map PppControl.option_of (optional b k v ++ kvs)) r n
  = for_each (request_option p) (map PppControl.option_of kvs) r' n.
Proof.
  intros Ht Hf. destruct b; [|by rewrite (Hf eq_refl)]. by apply option_accepted, Ht.
Qed.

(** The other end accepts every option of an LCP request, as long as the two
    magic numbers differ. *)
Lemma lcp_accepted s n :
  side_ok s -> side_magic s <> local_magic n ->
  for_each (request_option PPP_PROTOCOL_LCP) (map PppControl.option_of (side_lcp s)) empty_reply n
  = (Ok (empty_reply <| reply_mru := side_mru s |>), n).
Proof.
  intros [] Hm. unfold side_lcp. set (r := empty_reply <| reply_mru := side_mru s |>).
  rewrite (optional_accepted _ _ _ _ _ r); [| |done]; cycle 1.
  { intros _. unfold request_option, lcp_request_option. cbn [kind value PppControl.option_of fst snd].
    rewrite decide_True by done. unfold len. rewrite length_to_be_bytes. cbn [andb bool_decide].
    rewrite from_to_be_bytes by (change (2 ^ (8 * Z.of_nat 2)) with 65536; unfold PPP_MINIMUM_MRU in *; ilia).
    simpl. rewrite decide_False by lia. done. }
  rewrite (optional_accepted _ _ _ _ _ r); [| |done]; cycle 1.
  { done. }
  rewrite (optional_accepted _ _ _ _ _ r); [| |done]; cycle 1.
  { intros _. unfold request_option, lcp_request_option. cbn [kind value PppControl.option_of fst snd].
    rewrite decide_True by done. unfold len. rewrite side_magic_ok0. simpl.
    erewrite bind_eq by reflexivity. unfold id.
    by rewrite (bool_decide_false (side_magic s = local_magic n)), andb_false_r. }
  rewrite (optional_accepted _ _ _ _ _ r) by done.
  rewrite <- (app_nil_r (optional (side_compress s) PPP_LCP_OPTION_ADDRESS_COMPRESSION [])).
  by rewrite (optional_accepted _ _ _ _ _ r).
Qed.

Lemma ipcp_accepted s n :
  side_ok s ->
  for_each (request_option PPP_PROTOCOL_IPCP) (map PppControl.option_of (side_ipcp s)) empty_reply n
  = (Ok (empty_reply <| reply_ipv4 := Some (side_ipv4 s) |>), n).
Proof.
  intros []. unfold side_ipcp. cbn [map]. erewrite option_accepted; [reflexivity|].
  unfold request_option, ipcp_request_option, PppControl.ppp_ipv4_from_bytes.
  cbn [kind value PppControl.option_of fst snd]. simpl.
  by rewrite from_to_be_bytes by (change (2 ^ (8 * Z.of_nat 4)) with 4294967296; ilia).
Qed.

(** The link-local address the other end derives from the interface identifier
    of an address, its lower 64 bits. *)
Definition as_link_local (a : Z) : Z :=
  from_be_bytes ([254; 128; 0; 0; 0; 0; 0; 0] ++ PppControl.ppp_interface_id (IpV6 a)).

Definition link_local (s : Side) : Z := as_link_local (side_ipv6 s).

Lemma interface_id_length a : length (PppControl.ppp_interface_id (IpV6 a)) = 8%nat.
Proof. unfold PppControl.ppp_interface_id. by rewrite length_drop, length_to_be_bytes. Qed.

Lemma ip6cp_accepted s n :
  for_each (request_option PPP_PROTOCOL_IP6CP) (map PppControl.option_of (side_ip6cp s)) empty_reply n
  = (Ok (empty_reply <| reply_ipv6 := Some (link_local s) |>), n).
Proof.
  unfold side_ip6cp. cbn [map]. erewrite option_accepted; [reflexivity|].
  unfold request_option, ip6cp_request_option, PppControl.ppp_ipv6_from_interface_id.
  cbn [kind value PppControl.option_of fst snd]. rewrite interface_id_length. done.
Qed.

(** Requests are small. *)
Lemma side_lcp_length s :
  side_ok s -> len (PppControl.option_bytes (side_lcp s)) + 4 <= PPP_MAXIMUM_PAYLOAD_LENGTH
  /\ Forall PppControl.option_fits (side_lcp s).
Proof.
  intros []. unfold side_lcp. rewrite !option_bytes_len. split.
  - repeat match goal with |- context [len (PppControl.option_bytes (optional ?b ?k ?v))] =>
      let H := fresh in pose proof (optional_length b k v) as H;
      generalize dependent (len (PppControl.option_bytes (optional b k v))); intros end.
    unfold len, PPP_MAXIMUM_PAYLOAD_LENGTH, U16_MAX in *.
    rewrite ?length_to_be_bytes, ?side_magic_ok0 in *. simpl in *. lia.
  - assert (forall b k v, (length v <= 200)%nat -> Forall PppControl.option_fits (optional b k v)) as Ho.
    { intros [] k v Hv; constructor; [|done]. unfold PppControl.option_fits, PppControl.len. simpl. ilia. }
    rewrite !Forall_app. repeat split; apply Ho; rewrite ?length_to_be_bytes; simpl; lia.
Qed.

Lemma side_ipcp_length s :
  len (PppControl.option_bytes (side_ipcp s)) + 4 <= PPP_MAXIMUM_PAYLOAD_LENGTH
  /\ Forall PppControl.option_fits (side_ipcp s).
Proof. by split; [vm_compute|repeat constructor]. Qed.

Lemma side_ip6cp_length s :
  len (PppControl.option_bytes (side_ip6cp s)) + 4 <= PPP_MAXIMUM_PAYLOAD_LENGTH
  /\ Forall PppControl.option_fits (side_ip6cp s).
Proof. by split; [vm_compute|repeat constructor]. Qed.

(** A request all of whose options are accepted is acknowledged as it is. *)
Lemma request_acknowledged_eq p id kvs r now n more n' :
  p ∈ [PPP_PROTOCOL_LCP; PPP_PROTOCOL_IPCP; PPP_PROTOCOL_IP6CP] ->
  len (PppControl.option_bytes kvs) + 4 <= PPP_MAXIMUM_PAYLOAD_LENGTH ->
  Forall PppControl.option_fits kvs ->
  for_each (request_option p) (map PppControl.option_of kvs) empty_reply n = (Ok r, n) ->
  rejected r = [] -> nak r = [] ->
  (_ ← control_state_mut p (fun c => c <| peer_request_acknowledged := true |>);
   _ ← modify (accept_reply p r); advance_negotiation now) n = (Ok more, n') ->
  handle_configuration_request p id (PppControl.option_bytes kvs) now n
  = (Ok (outbound_packet n p
           (PppControl.packet_bytes PPP_CODE_CONFIGURE_ACKNOWLEDGEMENT id (PppControl.option_bytes kvs))
         :: more), n').
Proof.
  intros Hp Hl Hf Hr Hj Hn Ha. unfold handle_configuration_request.
  erewrite bind_eq by (unfold control, lift; rewrite PppControl.parse_ppp_options_bytes by done; reflexivity).
  rewrite (bind_eq _ _ _ _ _ Hr), Hj, Hn. simpl.
  erewrite bind_eq by reflexivity. erewrite bind_eq by reflexivity.
  erewrite bind_eq by (unfold control_packet, control, lift;
    rewrite PppControl.build_control_fits by done; reflexivity).
  revert Ha. unfold mbind, method_bind.
  destruct (control_state_mut _ _ n) as [[[]|] n1]; [|done]. simpl.
  destruct (advance_negotiation now _) as [[more'|] n2]; [|done]. by intros [= -> ->].
Qed.

Lemma build_ipcp_eq n now a :
  name_server_requests n = ∅ -> local_ipv4 n = Some a ->
  let n' := n <| ipcp ::= new_request now |> in
  build_configuration_request PPP_PROTOCOL_IPCP now n
  = (Ok (outbound_packet n' PPP_PROTOCOL_IPCP
           (PppControl.packet_bytes PPP_CODE_CONFIGURE_REQUEST (wrap8 (next_identifier (ipcp n) + 1))
              (PppControl.option_bytes [(PPP_IPCP_OPTION_ADDRESS, to_be_bytes 4 a)]))), n').
Proof.
  intros Hn Ha n'. unfold build_configuration_request, request_options, ipcp_request_options.
  rewrite decide_False, decide_True by done.
  erewrite bind_eq; cycle 1.
  { erewrite bind_eq by reflexivity. unfold id. rewrite Hn, Ha.
    change (entries (∅ : gmap Z Z)) with (@nil (Z * Z)).
    erewrite bind_eq by reflexivity. reflexivity. }
  do 3 (erewrite bind_eq by reflexivity). done.
Qed.

Lemma build_ip6cp_eq n now a :
  local_ipv6 n = Some a ->
  let n' := n <| ip6cp ::= new_request now |> in
  build_configuration_request PPP_PROTOCOL_IP6CP now n
  = (Ok (outbound_packet n' PPP_PROTOCOL_IP6CP
           (PppControl.packet_bytes PPP_CODE_CONFIGURE_REQUEST (wrap8 (next_identifier (ip6cp n) + 1))
              (PppControl.option_bytes
                 [(PPP_IP6CP_OPTION_INTERFACE_ID, PppControl.ppp_interface_id (IpV6 a))]))), n').
Proof.
  intros Ha n'. unfold build_configuration_request, request_options, ip6cp_request_options.
  rewrite decide_False, decide_False, decide_True by done.
  erewrite bind_eq; cycle 1.
  { erewrite bind_eq by reflexivity. unfold id. rewrite Ha. reflexivity. }
  do 3 (erewrite bind_eq by reflexivity). done.
Qed.

(** Handling a frame first notes that the peer is alive. *)
Definition touch (n : PppNegotiator) (now : Z) : PppNegotiator :=
  n <| last_received := now |> <| pending_echo := false |> <| missed_echo_replies := 0 |>.

Lemma protocols_ok p :
  p ∈ [PPP_PROTOCOL_LCP; PPP_PROTOCOL_IPCP; PPP_PROTOCOL_IP6CP] -> PppControl.protocol_ok p.
Proof. set_unfold. intros [->|[->|[->|[]]]]; by repeat split. Qed.

(** A control packet of a wanted protocol goes to its handler. *)
Lemma handle_control_frame n pkt now p code kvs :
  message_of pkt = (p, PppControl.packet_bytes code 1 (PppControl.option_bytes kvs)) ->
  p ∈ [PPP_PROTOCOL_LCP; PPP_PROTOCOL_IPCP; PPP_PROTOCOL_IP6CP] ->
  (p = PPP_PROTOCOL_IPCP -> want_ipv4 n = true) -> (p = PPP_PROTOCOL_IP6CP -> want_ipv6 n = true) ->
  handle_frame (frame_of pkt) now n
  = (event ← handle_control_packet p (PppControl.packet_bytes code 1 (PppControl.option_bytes kvs)) now;
     enter_network event) (touch n now).
Proof.
  intros [= Hp Hl] Hin H4 H6. unfold handle_frame.
  rewrite (bind_eq _ _ _ (mkPppPacket (out_protocol pkt) (out_payload pkt)) n); cycle 1.
  { unfold control, lift, frame_of. rewrite PppControl.parse_build_header; [done|].
    rewrite Hp. by apply protocols_ok. }
  erewrite bind_eq by reflexivity. fold (touch n now).
  assert (forall m1 m2 : N PppNegotiationEvent, m1 (touch n now) = m2 (touch n now) ->
    (m1 ≫= enter_network) (touch n now) = (m2 ≫= enter_network) (touch n now)) as Hb.
  { intros m1 m2 E. unfold mbind, method_bind. by rewrite E. }
  apply Hb. unfold handle_packet. erewrite bind_eq by reflexivity. cbn [protocol payload].
  rewrite Hp, Hl. unfold id.
  change (want_ipv4 (touch n now)) with (want_ipv4 n).
  change (want_ipv6 (touch n now)) with (want_ipv6 n).
  revert Hin H4 H6. set_unfold. intros [->|[->|[->|[]]]] H4 H6;
    [done|by rewrite H4|by rewrite H6].
Qed.

Lemma handle_request_frame n pkt now p kvs out n' :
  message_of pkt = request p kvs ->
  p ∈ [PPP_PROTOCOL_LCP; PPP_PROTOCOL_IPCP; PPP_PROTOCOL_IP6CP] ->
  (p = PPP_PROTOCOL_IPCP -> want_ipv4 n = true) -> (p = PPP_PROTOCOL_IP6CP -> want_ipv6 n = true) ->
  len (PppControl.option_bytes kvs) + 4 <= PPP_MAXIMUM_PAYLOAD_LENGTH ->
  handle_configuration_request p 1 (PppControl.option_bytes kvs) now (touch n now) = (Ok out, n') ->
  handle_frame (frame_of pkt) now n = enter_network (default_event <| outbound := out |>) n'.
Proof.
  intros Hm Hp H4 H6 Hl E. rewrite (handle_control_frame _ _ _ _ _ _ Hm) by done.
  apply bind_eq. unfold handle_control_packet.
  erewrite bind_eq by (unfold control, lift; rewrite PppControl.parse_packet_bytes_eq by done; reflexivity).
  cbn [code identifier control_payload]. rewrite decide_True by done.
  by rewrite (bind_eq _ _ _ _ _ E).
Qed.

Lemma handle_acknowledgement_frame n pkt now p kvs event n' :
  message_of pkt = acknowledgement p kvs ->
  p ∈ [PPP_PROTOCOL_LCP; PPP_PROTOCOL_IPCP; PPP_PROTOCOL_IP6CP] ->
  (p = PPP_PROTOCOL_IPCP -> want_ipv4 n = true) -> (p = PPP_PROTOCOL_IP6CP -> want_ipv6 n = true) ->
  len (PppControl.option_bytes kvs) + 4 <= PPP_MAXIMUM_PAYLOAD_LENGTH ->
  handle_configuration_acknowledgement p now (touch n now) = (Ok event, n') ->
  handle_frame (frame_of pkt) now n = enter_network event n'.
Proof.
  intros Hm Hp H4 H6 Hl E. rewrite (handle_control_frame _ _ _ _ _ _ Hm) by done.
  apply bind_eq. unfold handle_control_packet.
  erewrite bind_eq by (unfold control, lift; rewrite PppControl.parse_packet_bytes_eq by done; reflexivity).
  cbn [code identifier control_payload]. rewrite decide_False, decide_True by done. exact E.
Qed.

(** *** The state of one end

    [w4] and [w6] are the network protocols both ends want. *)

Section ends.
Context (w4 w6 : bool) (me peer : Side).

(** What this end has received: the LCP request and acknowledgement of the other
    end, and its IPCP and IP6CP requests and acknowledgements. *)
Record Received : Type := mkReceived {
  rl : bool; al : bool;
  r4 : bool; r6 : bool;
  a4 : bool; a6 : bool;
}.

#[local] Instance received_eta : Settable Received := fun f =>
  mkReceived (rl f) (al f) (r4 f) (r6 f) (a4 f) (a6 f).

Definition complete (f : Received) : bool :=
  al f && implb w4 (r4 f && a4 f) && implb w6 (r6 f && a6 f).

(** All but the phase and the configuration; [s4] and [s6] tell whether this
    end has sent its requests of the network protocols. *)
Record core_sent (s4 s6 : bool) (f : Received) (n : PppNegotiator) : Prop := {
  core_v4want : want_ipv4 n = w4;
  core_v6want : want_ipv6 n = w6;
  core_enabled : local_magic_enabled n = true;
  core_magic : local_magic n = side_magic me;
  core_names : name_server_requests n = ∅;
  core_v4local : w4 = true -> local_ipv4 n = Some (side_ipv4 me);
  core_v6local : w6 = true -> local_ipv6 n = Some (side_ipv6 me);
  core_mru : local_mru n = side_mru me;
  core_peer_mru : rl f = true -> peer_mru n = side_mru peer;
  core_v4peer : r4 f = true -> peer_ipv4 n = Some (side_ipv4 peer);
  core_v6peer : r6 f = true -> peer_ipv6 n = Some (link_local peer);
  core_lcp : request_acknowledged (lcp n) = al f /\ peer_request_acknowledged (lcp n) = rl f;
  core_ipcp : request_sent (ipcp n) = s4
    /\ request_acknowledged (ipcp n) = a4 f /\ peer_request_acknowledged (ipcp n) = r4 f;
  core_ip6cp : request_sent (ip6cp n) = s6
    /\ request_acknowledged (ip6cp n) = a6 f /\ peer_request_acknowledged (ip6cp n) = r6 f;
  core_v4next : s4 = false -> next_identifier (ipcp n) = 0;
  core_v6next : s6 = false -> next_identifier (ip6cp n) = 0;
}.

(** They are sent when the LCP request is acknowledged. *)
Definition core (f : Received) : PppNegotiator -> Prop := core_sent (al f && w4) (al f && w6) f.

Record at_stage (f : Received) (n : PppNegotiator) : Prop := {
  stage_core : core f n;
  stage_phase : phase n = if complete f then Network else Establishing;
  stage_configuration : configuration n = if complete f then build_configuration n else None;
}.

Context (Hme : side_ok me) (Hpeer : side_ok peer).
Context (Hdiff : side_magic peer <> side_magic me) (Hwant : w4 || w6 = true).

Lemma core_usable s4 s6 f n :
  core_sent s4 s6 f n -> want_ipv4 n && ipv4_missing n = false /\ want_ipv6 n && ipv6_missing n = false.
Proof.
  intros []. destruct Hme. unfold ipv4_missing, ipv6_missing. rewrite core_v4want0, core_v6want0. split.
  - destruct w4; [|done]. rewrite core_v4local0 by done. cbn [andb]. apply bool_decide_false. lia.
  - destruct w6; [|done]. rewrite core_v6local0 by done. cbn [andb].
    apply bool_decide_false. assumption.
Qed.

Lemma complete_eq f n out :
  core_sent w4 w6 f n -> al f = true ->
  complete_negotiation out n
  = (Ok out, if complete f then n <| configuration := build_configuration n |> else n).
Proof.
  intros Hc Hal. destruct (core_usable _ _ f n Hc) as [Hu4 Hu6].
  destruct Hc. destruct core_ipcp0 as (_ & E42 & E43), core_ip6cp0 as (_ & E62 & E63).
  unfold complete_negotiation. erewrite bind_eq by reflexivity. unfold id, both_acknowledged.
  rewrite Hu4, Hu6, core_v4want0, core_v6want0, E42, E43, E62, E63.
  unfold complete. rewrite Hal. clear -Hal.
  destruct (r4 f && a4 f) eqn:E4, (r6 f && a6 f) eqn:E6;
    rewrite (andb_comm (a4 f)), (andb_comm (a6 f)), E4, E6; by destruct w4, w6.
Qed.

Lemma no_request (b : bool) c p now out n :
  (b = true -> request_sent c = true) -> request_unless_sent b c p now out n = (Ok out, n).
Proof. intros Hs. unfold request_unless_sent. destruct b; [|done]. by rewrite (Hs eq_refl). Qed.

(** With every request sent, [advance_negotiation] waits or completes. *)
Lemma advance_sent f n now :
  core_sent w4 w6 f n -> rl f = true -> al f = true ->
  advance_negotiation now n
  = (Ok [], if complete f then n <| configuration := build_configuration n |> else n).
Proof.
  intros Hc Hrl Hal. pose proof (complete_eq f n [] Hc Hal) as Hcomplete.
  destruct Hc. destruct core_lcp0 as [El1 El2], core_ipcp0 as (E41 & _), core_ip6cp0 as (E61 & _).
  assert (negb w4 && negb w6 = false) as Hw by (by destruct w4, w6).
  unfold advance_negotiation. erewrite bind_eq by reflexivity. unfold id, both_acknowledged.
  rewrite El1, El2, Hal, Hrl, core_v4want0, core_v6want0, Hw. cbn [andb negb].
  erewrite bind_eq by (apply no_request; intros ->; by rewrite E41).
  erewrite bind_eq by reflexivity. rewrite core_v6want0.
  erewrite bind_eq by (apply no_request; intros ->; by rewrite E61).
  exact Hcomplete.
Qed.

(** The first advance sends a request for each network protocol. *)
Definition first_requests : list message :=
  (if w4 then [request PPP_PROTOCOL_IPCP (side_ipcp me)] else [])
  ++ (if w6 then [request PPP_PROTOCOL_IP6CP (side_ip6cp me)] else []).

Lemma request_ipcp s6 f n now out :
  core_sent false s6 f n -> a4 f = false ->
  exists reqs n', request_unless_sent w4 (ipcp n) PPP_PROTOCOL_IPCP now out n = (Ok (out ++ reqs), n')
  /\ map message_of reqs = (if w4 then [request PPP_PROTOCOL_IPCP (side_ipcp me)] else [])
  /\ core_sent w4 s6 f n' /\ phase n' = phase n /\ configuration n' = configuration n.
Proof.
  intros Hc Ha. destruct (Hc). destruct core_ipcp0 as (E1 & E2 & E3).
  unfold request_unless_sent. rewrite E1, andb_true_r. destruct w4 eqn:Ew.
  - erewrite bind_eq by (apply build_ipcp_eq; [done|by apply core_v4local0]).
    rewrite core_v4next0 by done. do 2 eexists. split; [reflexivity|]. split; [done|].
    split; [|done]. split; try done; simpl; rewrite ?Ew; auto.
  - exists [], n. by rewrite app_nil_r.
Qed.

Lemma request_ip6cp s4 f n now out :
  core_sent s4 false f n -> a6 f = false ->
  exists reqs n', request_unless_sent w6 (ip6cp n) PPP_PROTOCOL_IP6CP now out n = (Ok (out ++ reqs), n')
  /\ map message_of reqs = (if w6 then [request PPP_PROTOCOL_IP6CP (side_ip6cp me)] else [])
  /\ core_sent s4 w6 f n' /\ phase n' = phase n /\ configuration n' = configuration n.
Proof.
  intros Hc Ha. destruct (Hc). destruct core_ip6cp0 as (E1 & E2 & E3).
  unfold request_unless_sent. rewrite E1, andb_true_r. destruct w6 eqn:Ew.
  - erewrite bind_eq by (apply build_ip6cp_eq; by apply core_v6local0).
    rewrite core_v6next0 by done. do 2 eexists. split; [reflexivity|]. split; [done|].
    split; [|done]. split; try done; simpl; rewrite ?Ew; auto.
  - exists [], n. by rewrite app_nil_r.
Qed.

Lemma advance_first f n now :
  core_sent false false f n -> rl f = true -> al f = true -> a4 f = false -> a6 f = false ->
  exists out n', advance_negotiation now n = (Ok out, n') /\ map message_of out = first_requests
  /\ core_sent w4 w6 f n' /\ phase n' = phase n /\ configuration n' = configuration n.
Proof.
  intros Hc Hrl Hal Ha4 Ha6. destruct (request_ipcp _ f n now [] Hc Ha4)
    as (q4 & n4 & E4 & M4 & Hc4 & P4 & C4).
  destruct (request_ip6cp _ f n4 now q4 Hc4 Ha6) as (q6 & n6 & E6 & M6 & Hc6 & P6 & C6).
  assert (negb w4 && negb w6 = false) as Hw by (by destruct w4, w6).
  destruct (Hc). destruct core_lcp0 as [El1 El2].
  exists (q4 ++ q6), n6. split; [|split; [by rewrite map_app, M4, M6|split; [done|split; congruence]]].
  unfold advance_negotiation. erewrite bind_eq by reflexivity. unfold id, both_acknowledged.
  rewrite El1, El2, Hal, Hrl, core_v4want0, core_v6want0, Hw. cbn [andb negb].
  rewrite (bind_eq _ _ _ _ _ E4). erewrite bind_eq by reflexivity. unfold id.
  rewrite (core_v6want _ _ _ _ Hc4), (bind_eq _ _ _ _ _ E6), (complete_eq f n6 _ Hc6 Hal).
  unfold complete. rewrite Hal, Ha4, Ha6, !andb_false_r. by destruct w4, w6.
Qed.

Lemma core_touch s4 s6 f n now : core_sent s4 s6 f n -> core_sent s4 s6 f (touch n now).
Proof. by intros []. Qed.

Lemma build_configuration_Some s4 s6 f n :
  core_sent s4 s6 f n -> is_Some (build_configuration n).
Proof.
  intros []. unfold build_configuration. rewrite core_v4want0, core_v6want0.
  destruct w4, w6; rewrite ?core_v4local0, ?core_v6local0 by done; by eexists.
Qed.

(** Entering the network phase exactly when the negotiation is complete. *)
Lemma enter_stage f n event :
  core f n -> phase n = Establishing ->
  configuration n = (if complete f then build_configuration n else None) ->
  exists event' n', enter_network event n = (Ok event', n')
  /\ outbound event' = outbound event /\ at_stage f n'.
Proof.
  intros Hc Hp Hcfg. destruct (build_configuration_Some _ _ _ _ Hc) as [c Eb].
  unfold enter_network. erewrite bind_eq by reflexivity. unfold id.
  rewrite Hp, (bool_decide_true (Establishing = Establishing)), andb_true_r by done.
  destruct (complete f) eqn:Ec.
  - rewrite bool_decide_true by (rewrite Hcfg, Eb; by eexists).
    do 2 eexists. split; [reflexivity|]. split; [done|]. split; [by destruct Hc|by rewrite Ec|].
    by rewrite Ec.
  - rewrite bool_decide_false by (rewrite Hcfg; by intros []).
    do 2 eexists. split; [reflexivity|]. split; [done|]. split; [done|by rewrite Ec|by rewrite Ec].
Qed.

Lemma advance_waiting s4 s6 f n now :
  core_sent s4 s6 f n -> al f = false -> advance_negotiation now n = (Ok [], n).
Proof.
  intros [] Hal. destruct core_lcp0 as [El _]. unfold advance_negotiation.
  erewrite bind_eq by reflexivity. unfold id, both_acknowledged. by rewrite El, Hal.
Qed.

Lemma incomplete f : al f = false -> complete f = false.
Proof. unfold complete. by intros ->. Qed.

Lemma receive_lcp_request n pkt now :
  at_stage (mkReceived false false false false false false) n ->
  message_of pkt = request PPP_PROTOCOL_LCP (side_lcp peer) ->
  exists event n', handle_frame (frame_of pkt) now n = (Ok event, n')
  /\ map message_of (outbound event) = [acknowledgement PPP_PROTOCOL_LCP (side_lcp peer)]
  /\ at_stage (mkReceived true false false false false false) n'.
Proof.
  intros [Hc Hp Hcfg] Hm. set (f := mkReceived true false false false false false).
  destruct (side_lcp_length peer Hpeer) as [Hl Hf].
  set (r := empty_reply <| reply_mru := side_mru peer |>).
  set (n1 := accept_reply PPP_PROTOCOL_LCP r
    ((touch n now) <| lcp ::= fun c => c <| peer_request_acknowledged := true |> |>)).
  assert (core f n1) as Hc1 by (destruct Hc, core_lcp0; by split).
  erewrite (handle_request_frame n pkt now _ _ _ n1 Hm); [|by left|done|done|done|].
  - destruct (enter_stage f n1 (default_event <| outbound :=
      [outbound_packet (touch n now) PPP_PROTOCOL_LCP
         (PppControl.packet_bytes PPP_CODE_CONFIGURE_ACKNOWLEDGEMENT 1
            (PppControl.option_bytes (side_lcp peer)))] |>)) as (ev & n' & E & Ho & Hs);
      [done..|]. exists ev, n'. split; [exact E|]. split; [by rewrite Ho|done].
  - apply (request_acknowledged_eq _ _ _ r); try done; [by left| |].
    + apply lcp_accepted; [done|]. destruct Hc. simpl. by rewrite core_magic0.
    + do 2 (erewrite bind_eq by reflexivity). exact (advance_waiting _ _ f n1 now Hc1 eq_refl).
Qed.

Lemma receive_lcp_acknowledgement n pkt now :
  at_stage (mkReceived true false false false false false) n ->
  message_of pkt = acknowledgement PPP_PROTOCOL_LCP (side_lcp me) ->
  exists event n', handle_frame (frame_of pkt) now n = (Ok event, n')
  /\ map message_of (outbound event) = first_requests
  /\ at_stage (mkReceived true true false false false false) n'.
Proof.
  intros [Hc Hp Hcfg] Hm. set (f := mkReceived true true false false false false).
  destruct (side_lcp_length me Hme) as [Hl _].
  set (n1 := (touch n now) <| lcp ::= fun c => c <| request_acknowledged := true |> |>
    <| outbound_protocol_compression := request_protocol_compression n |>
    <| outbound_address_compression := request_address_compression n |>).
  assert (core_sent false false f n1) as Hc1 by (destruct Hc, core_lcp0; by split).
  destruct (advance_first f n1 now Hc1) as (out & n2 & E2 & M2 & Hc2 & P2 & C2); [done..|].
  erewrite (handle_acknowledgement_frame n pkt now _ _ _ n2 Hm); [|by left|done|done|done|].
  - destruct (enter_stage f n2 (default_event <| outbound := out |>)) as (ev & n' & E & Ho & Hs).
    + exact Hc2.
    + by rewrite P2.
    + rewrite C2. simpl. rewrite Hcfg. unfold complete. simpl.
      by destruct w4, w6.
    + exists ev, n'. split; [exact E|]. split; [by rewrite Ho|done].
  - unfold handle_configuration_acknowledgement.
    do 2 (erewrite bind_eq by reflexivity). by erewrite bind_eq by exact E2.
Qed.

(** The messages of the network protocols: the receiver is past LCP, so it
    answers and, with the last one, enters the network phase. *)
Lemma advance_enter f f' n n1 now event :
  at_stage f n -> complete f = false -> core f' n1 -> rl f' = true -> al f' = true ->
  phase n1 = phase n -> configuration n1 = configuration n ->
  exists n2, advance_negotiation now n1 = (Ok [], n2)
  /\ exists event' n', enter_network event n2 = (Ok event', n')
     /\ outbound event' = outbound event /\ at_stage f' n'.
Proof.
  intros [Hc Hp Hcfg] Hi Hc1 Hrl Hal Ep Ec. rewrite Hi in Hp, Hcfg.
  assert (core_sent w4 w6 f' n1) as Hc1' by (unfold core in Hc1; by rewrite Hal in Hc1).
  eexists. split; [by eapply advance_sent|]. destruct (complete f') eqn:E.
  - apply enter_stage; [by destruct Hc1|simpl; congruence|by rewrite E].
  - apply enter_stage; [done|congruence|]. rewrite E. congruence.
Qed.

Lemma incomplete_ipv4 f : w4 = true -> r4 f && a4 f = false -> complete f = false.
Proof. unfold complete. intros -> ->. by rewrite andb_false_r. Qed.

Lemma incomplete_ipv6 f : w6 = true -> r6 f && a6 f = false -> complete f = false.
Proof. unfold complete. intros -> ->. by rewrite andb_false_r. Qed.

Lemma receive_ipcp_request f n pkt now :
  at_stage f n -> rl f = true -> al f = true -> w4 = true -> r4 f = false ->
  message_of pkt = request PPP_PROTOCOL_IPCP (side_ipcp peer) ->
  exists event n', handle_frame (frame_of pkt) now n = (Ok event, n')
  /\ map message_of (outbound event) = [acknowledgement PPP_PROTOCOL_IPCP (side_ipcp peer)]
  /\ at_stage (f <| r4 := true |>) n'.
Proof.
  intros Hs Hrl Hal Hw Hr4 Hm. pose proof (stage_core _ _ Hs) as Hc.
  destruct (side_ipcp_length peer) as [Hl Hf].
  set (r := empty_reply <| reply_ipv4 := Some (side_ipv4 peer) |>).
  set (n1 := accept_reply PPP_PROTOCOL_IPCP r
    ((touch n now) <| ipcp ::= fun c => c <| peer_request_acknowledged := true |> |>)).
  set (ack := outbound_packet (touch n now) PPP_PROTOCOL_IPCP
    (PppControl.packet_bytes PPP_CODE_CONFIGURE_ACKNOWLEDGEMENT 1
       (PppControl.option_bytes (side_ipcp peer)))).
  destruct (advance_enter f (f <| r4 := true |>) n n1 now (default_event <| outbound := [ack] |>))
    as (n2 & E2 & ev & n' & E & Ho & Hs'); try done.
  { apply incomplete_ipv4; [done|by rewrite Hr4]. }
  { destruct Hc, core_ipcp0 as (? & ? & ?). by split. }
  exists ev, n'. split; [|by rewrite Ho].
  rewrite (handle_request_frame n pkt now PPP_PROTOCOL_IPCP (side_ipcp peer) [ack] n2); try done.
  - by right; left.
  - intros _. by rewrite (core_v4want _ _ _ _ Hc).
  - apply (request_acknowledged_eq _ _ _ r); try done;
      [by right; left|by apply ipcp_accepted].
Qed.

Lemma receive_ip6cp_request f n pkt now :
  at_stage f n -> rl f = true -> al f = true -> w6 = true -> r6 f = false ->
  message_of pkt = request PPP_PROTOCOL_IP6CP (side_ip6cp peer) ->
  exists event n', handle_frame (frame_of pkt) now n = (Ok event, n')
  /\ map message_of (outbound event) = [acknowledgement PPP_PROTOCOL_IP6CP (side_ip6cp peer)]
  /\ at_stage (f <| r6 := true |>) n'.
Proof.
  intros Hs Hrl Hal Hw Hr6 Hm. pose proof (stage_core _ _ Hs) as Hc.
  destruct (side_ip6cp_length peer) as [Hl Hf].
  set (r := empty_reply <| reply_ipv6 := Some (link_local peer) |>).
  set (n1 := accept_reply PPP_PROTOCOL_IP6CP r
    ((touch n now) <| ip6cp ::= fun c => c <| peer_request_acknowledged := true |> |>)).
  set (ack := outbound_packet (touch n now) PPP_PROTOCOL_IP6CP
    (PppControl.packet_bytes PPP_CODE_CONFIGURE_ACKNOWLEDGEMENT 1
       (PppControl.option_bytes (side_ip6cp peer)))).
  destruct (advance_enter f (f <| r6 := true |>) n n1 now (default_event <| outbound := [ack] |>))
    as (n2 & E2 & ev & n' & E & Ho & Hs'); try done.
  { apply incomplete_ipv6; [done|by rewrite Hr6]. }
  { destruct Hc, core_ip6cp0 as (? & ? & ?). by split. }
  exists ev, n'. split; [|by rewrite Ho].
  rewrite (handle_request_frame n pkt now PPP_PROTOCOL_IP6CP (side_ip6cp peer) [ack] n2); try done.
  - by right; right; left.
  - intros _. by rewrite (core_v6want _ _ _ _ Hc).
  - apply (request_acknowledged_eq _ _ _ r); try done.
    by right; right; left.
Qed.

Lemma receive_ipcp_acknowledgement f n pkt now :
  at_stage f n -> rl f = true -> al f = true -> w4 = true -> a4 f = false ->
  message_of pkt = acknowledgement PPP_PROTOCOL_IPCP (side_ipcp me) ->
  exists event n', handle_frame (frame_of pkt) now n = (Ok event, n')
  /\ map message_of (outbound event) = [] /\ at_stage (f <| a4 := true |>) n'.
Proof.
  intros Hs Hrl Hal Hw Ha4 Hm. pose proof (stage_core _ _ Hs) as Hc.
  destruct (side_ipcp_length me) as [Hl _].
  set (n1 := (touch n now) <| ipcp ::= fun c => c <| request_acknowledged := true |> |>).
  destruct (advance_enter f (f <| a4 := true |>) n n1 now (default_event <| outbound := [] |>))
    as (n2 & E2 & ev & n' & E & Ho & Hs'); try done.
  { apply incomplete_ipv4; [done|by rewrite Ha4, andb_false_r]. }
  { destruct Hc, core_ipcp0 as (? & ? & ?). by split. }
  exists ev, n'. split; [|by rewrite Ho]. rewrite <- E.
  apply (handle_acknowledgement_frame _ _ _ _ _ _ _ Hm); try done; [by right; left| |].
  - intros _. by rewrite (core_v4want _ _ _ _ Hc).
  - unfold handle_configuration_acknowledgement. do 2 (erewrite bind_eq by reflexivity).
    by rewrite (bind_eq _ _ _ _ _ E2).
Qed.

Lemma receive_ip6cp_acknowledgement f n pkt now :
  at_stage f n -> rl f = true -> al f = true -> w6 = true -> a6 f = false ->
  message_of pkt = acknowledgement PPP_PROTOCOL_IP6CP (side_ip6cp me) ->
  exists event n', handle_frame (frame_of pkt) now n = (Ok event, n')
  /\ map message_of (outbound event) = [] /\ at_stage (f <| a6 := true |>) n'.
Proof.
  intros Hs Hrl Hal Hw Ha6 Hm. pose proof (stage_core _ _ Hs) as Hc.
  destruct (side_ip6cp_length me) as [Hl _].
  set (n1 := (touch n now) <| ip6cp ::= fun c => c <| request_acknowledged := true |> |>).
  destruct (advance_enter f (f <| a6 := true |>) n n1 now (default_event <| outbound := [] |>))
    as (n2 & E2 & ev & n' & E & Ho & Hs'); try done.
  { apply incomplete_ipv6; [done|by rewrite Ha6, andb_false_r]. }
  { destruct Hc, core_ip6cp0 as (? & ? & ?). by split. }
  exists ev, n'. split; [|by rewrite Ho]. rewrite <- E.
  apply (handle_acknowledgement_frame _ _ _ _ _ _ _ Hm); try done; [by right; right; left| |].
  - intros _. by rewrite (core_v6want _ _ _ _ Hc).
  - unfold handle_configuration_acknowledgement. do 2 (erewrite bind_eq by reflexivity).
    by rewrite (bind_eq _ _ _ _ _ E2).
Qed.

End ends.

(** *** The exchange

    What an end sends is a function of what it has received: its request, and one
    batch of answers for each message of the other end. *)

Section exchange.
Context (w4 w6 : bool).

Definition only_if {A} (b : bool) (x : A) : list A := if b then [x] else [].

Definition responses (me peer : Side) : list (list message) :=
  [[acknowledgement PPP_PROTOCOL_LCP (side_lcp peer)]; first_requests w4 w6 me]
  ++ only_if w4 [acknowledgement PPP_PROTOCOL_IPCP (side_ipcp peer)]
  ++ only_if w6 [acknowledgement PPP_PROTOCOL_IP6CP (side_ip6cp peer)]
  ++ only_if w4 [] ++ only_if w6 [].

(** Everything an end has sent after [k] messages. *)
Definition sent_after (me peer : Side) (k : nat) : list message :=
  request PPP_PROTOCOL_LCP (side_lcp me) :: concat (take k (responses me peer)).

(** What it has received after 0, 1, 2, ... messages. *)
Definition stages : list Received :=
  [mkReceived false false false false false false; mkReceived true false false false false false;
   mkReceived true true false false false false]
  ++ only_if w4 (mkReceived true true w4 false false false)
  ++ only_if w6 (mkReceived true true w4 w6 false false)
  ++ only_if w4 (mkReceived true true w4 w6 w4 false)
  ++ only_if w6 (mkReceived true true w4 w6 w4 w6).

(** Everything an end sends. *)
Definition script (me peer : Side) : list message :=
  request PPP_PROTOCOL_LCP (side_lcp me) :: concat (responses me peer).

Lemma sent_script me peer k :
  script me peer = sent_after me peer k ++ concat (drop k (responses me peer)).
Proof.
  unfold script, sent_after. cbn [app]. by rewrite <- concat_app, take_drop.
Qed.

End exchange.

(** One message, in any of the stages. *)
Lemma side_step w4 w6 me peer k f n pkt now :
  side_ok me -> side_ok peer -> side_magic peer <> side_magic me -> w4 || w6 = true ->
  stages w4 w6 !! k = Some f -> script w4 w6 peer me !! k = Some (message_of pkt) ->
  at_stage w4 w6 me peer f n ->
  exists event n' f', handle_frame (frame_of pkt) now n = (Ok event, n')
  /\ sent_after w4 w6 me peer (S k) = sent_after w4 w6 me peer k ++ map message_of (outbound event)
  /\ stages w4 w6 !! S k = Some f' /\ at_stage w4 w6 me peer f' n'.
Proof.
  intros Hme Hpeer Hd Hw Hf Hm Hs.
  assert (forall resp f', stages w4 w6 !! S k = Some f' ->
    sent_after w4 w6 me peer (S k) = sent_after w4 w6 me peer k ++ resp ->
    (exists event n', handle_frame (frame_of pkt) now n = (Ok event, n')
     /\ map message_of (outbound event) = resp /\ at_stage w4 w6 me peer f' n') ->
    exists event n' f', handle_frame (frame_of pkt) now n = (Ok event, n')
    /\ sent_after w4 w6 me peer (S k) = sent_after w4 w6 me peer k ++ map message_of (outbound event)
    /\ stages w4 w6 !! S k = Some f' /\ at_stage w4 w6 me peer f' n') as Hgo.
  { intros resp f' Hk Hr (ev & n' & E & Hout & Hst). exists ev, n', f'. by rewrite Hout. }
  destruct w4, w6; try done;
    do 6 (destruct k as [|k]; [
      apply (inj Some) in Hf as <-; apply (inj Some) in Hm; symmetry in Hm;
      first
        [refine (Hgo _ _ _ _ (receive_lcp_request _ _ me peer Hpeer Hd Hw n pkt now Hs Hm))
        |refine (Hgo _ _ _ _ (receive_lcp_acknowledgement _ _ me peer Hme Hw n pkt now Hs Hm))
        |refine (Hgo _ _ _ _ (receive_ipcp_request _ _ me peer Hme Hpeer Hw _ n pkt now Hs
                                eq_refl eq_refl eq_refl eq_refl Hm))
        |refine (Hgo _ _ _ _ (receive_ip6cp_request _ _ me peer Hme Hw _ n pkt now Hs
                                eq_refl eq_refl eq_refl eq_refl Hm))
        |refine (Hgo _ _ _ _ (receive_ipcp_acknowledgement _ _ me peer Hme Hw _ n pkt now Hs
                                eq_refl eq_refl eq_refl eq_refl Hm))
        |refine (Hgo _ _ _ _ (receive_ip6cp_acknowledgement _ _ me peer Hme Hw _ n pkt now Hs
                                eq_refl eq_refl eq_refl eq_refl Hm))]; reflexivity|]; try done).
Qed.

(** *** Every interleaving

    The two ends with the packets on their way; a delivery hands the oldest
    packet of one direction to its receiver, at any time. *)
Record Pair : Type := mkPair {
  end_a : PppNegotiator;
  end_b : PppNegotiator;
  to_a : list PppOutboundPacket;
  to_b : list PppOutboundPacket;
}.

Inductive deliver : Pair -> Pair -> Prop :=
| deliver_a a b p qa qb now event a' :
    handle_frame (frame_of p) now a = (Ok event, a') ->
    deliver (mkPair a b (p :: qa) qb) (mkPair a' b qa (qb ++ outbound event))
| deliver_b a b qa p qb now event b' :
    handle_frame (frame_of p) now b = (Ok event, b') ->
    deliver (mkPair a b qa (p :: qb)) (mkPair a b' (qa ++ outbound event) qb).

Section pair.
Context (w4 w6 : bool) (A B : Side).
Context (HA : side_ok A) (HB : side_ok B) (Hd : side_magic A <> side_magic B).
Context (Hw : w4 || w6 = true).

(** One end has taken [i] of the messages of the other and its answers up to the
    [j]th were taken. *)
Definition half (me peer : Side) (i j : nat) (n : PppNegotiator) (queue : list PppOutboundPacket)
    : Prop :=
  (exists f, stages w4 w6 !! i = Some f /\ at_stage w4 w6 me peer f n)
  /\ (j <= length (sent_after w4 w6 me peer i))%nat
  /\ map message_of queue = drop j (sent_after w4 w6 me peer i).

Definition pair_ok (i j : nat) (s : Pair) : Prop :=
  half A B i j (end_a s) (to_b s) /\ half B A j i (end_b s) (to_a s).

Lemma half_take me peer i j n queue p :
  half me peer i j n (p :: queue) ->
  script w4 w6 me peer !! j = Some (message_of p) /\ half me peer i (S j) n queue.
Proof.
  intros (Hs & Hj & Hq). cbn [map] in Hq.
  assert (sent_after w4 w6 me peer i !! j = Some (message_of p)) as Hl
    by (by rewrite <- (Nat.add_0_r j), <- lookup_drop, <- Hq).
  split; [by rewrite (sent_script w4 w6 me peer i); apply lookup_app_l_Some|].
  split; [done|]. split; [by apply lookup_lt_Some in Hl|].
  by rewrite <- Nat.add_1_r, <- drop_drop, <- Hq.
Qed.

Lemma half_step me peer i j n queue p now :
  side_ok me -> side_ok peer -> side_magic peer <> side_magic me ->
  half me peer i j n queue -> script w4 w6 peer me !! i = Some (message_of p) ->
  exists event n', handle_frame (frame_of p) now n = (Ok event, n')
  /\ half me peer (S i) j n' (queue ++ outbound event).
Proof.
  intros Hme Hpeer Hne ((f & Hf & Hs) & Hj & Hq) Hm.
  destruct (side_step w4 w6 me peer i f n p now) as (ev & n' & f' & E & Hsent & Hf' & Hs'); try done.
  exists ev, n'. split; [done|]. split; [by exists f'|]. rewrite Hsent. split.
  - rewrite length_app. lia.
  - rewrite map_app, Hq. by rewrite drop_app_le.
Qed.

(** The oldest packet of each direction can be delivered, and nothing else
    happens. *)
Lemma pair_can i j s :
  pair_ok i j s -> to_a s <> [] \/ to_b s <> [] -> exists s', deliver s s'.
Proof.
  destruct s as [a b qa qb]. intros [Ha Hb] Hq. simpl in *.
  destruct qa as [|p qa].
  - destruct qb as [|p qb]; [by destruct Hq|].
    apply half_take in Ha as [Hm _].
    destruct (half_step B A j i b [] p 0 HB HA Hd Hb Hm) as (ev & b' & E & _).
    eexists. by eapply deliver_b.
  - apply half_take in Hb as [Hm _].
    destruct (half_step A B i j a qb p 0 HA HB ltac:(done) Ha Hm) as (ev & a' & E & _).
    eexists. by eapply deliver_a.
Qed.

Lemma pair_step i j s s' :
  pair_ok i j s -> deliver s s' -> exists i' j', pair_ok i' j' s' /\ (i' + j' = S (i + j))%nat.
Proof.
  intros [Ha Hb] Hst. destruct Hst as [a b p qa qb now ev a' E|a b qa p qb now ev b' E]; simpl in *.
  - apply half_take in Hb as [Hm Hb]. exists (S i), j. split; [|lia].
    destruct (half_step A B i j a qb p now HA HB ltac:(done) Ha Hm) as (ev' & n' & E' & Hh).
    rewrite E in E'. injection E' as <- <-. by split.
  - apply half_take in Ha as [Hm Ha]. exists i, (S j). split; [|lia].
    destruct (half_step B A j i b qa p now HB HA Hd Hb Hm) as (ev' & n' & E' & Hh).
    rewrite E in E'. injection E' as <- <-. by split.
Qed.

Lemma pair_steps k s s' :
  nsteps deliver k s s' -> forall i j, pair_ok i j s ->
  exists i' j', pair_ok i' j' s' /\ (i' + j' = k + (i + j))%nat.
Proof.
  induction 1 as [s|k s s1 s' Hst _ IH]; intros i j Hok; [by exists i, j|].
  destruct (pair_step i j s s1 Hok Hst) as (i1 & j1 & Hok1 & E1).
  destruct (IH i1 j1 Hok1) as (i' & j' & Hok' & E'). exists i', j'. split; [done|lia].
Qed.

End pair.

Lemma stages_bound w4 w6 k f : stages w4 w6 !! k = Some f -> (k <= 6)%nat.
Proof. intros Hl%lookup_lt_Some. destruct w4, w6; simpl in Hl; lia. Qed.

(** When no packet is on its way both ends have taken everything. *)
Lemma pair_quiescent w4 w6 A B i j a b :
  w4 || w6 = true -> pair_ok w4 w6 A B i j (mkPair a b [] []) ->
  exists f, complete w4 w6 f = true /\ rl f = true /\ r4 f = w4 /\ r6 f = w6
  /\ at_stage w4 w6 A B f a /\ at_stage w4 w6 B A f b.
Proof.
  intros Hw [((fa & Hfa & Ha) & Hj & Hqa) ((fb & Hfb & Hb) & Hi & Hqb)].
  cbn [end_a end_b to_a to_b map] in Ha, Hb, Hqa, Hqb.
  apply (f_equal length) in Hqa, Hqb. rewrite length_drop in Hqa, Hqb. cbn [length] in Hqa, Hqb.
  assert (length (sent_after w4 w6 A B i) = j) as E1 by lia.
  assert (length (sent_after w4 w6 B A j) = i) as E2 by lia.
  clear Hqa Hqb Hi Hj. pose proof (stages_bound _ _ _ _ Hfa).
  assert (i = 0 \/ i = 1 \/ i = 2 \/ i = 3 \/ i = 4 \/ i = 5 \/ i = 6)%nat as Hi by lia.
  exists (mkReceived true true w4 w6 w4 w6).
  assert (fa = mkReceived true true w4 w6 w4 w6 /\ fb = fa) as [-> ->].
  { clear Ha Hb. destruct w4, w6; try done;
      destruct Hi as [->|[->|[->|[->|[->|[-> | ->]]]]]]; try done;
      lazy in E1; subst j; lazy in E2; try done;
      apply (inj Some) in Hfa as <-; by apply (inj Some) in Hfb as <-. }
  unfold complete. simpl. by destruct w4, w6.
Qed.

(** ** The theorem *)

(** Options of an end that has its addresses and asks for no name servers. *)
Record statically_configured (w4 w6 : bool) (o : PppNegotiatorOptions) : Prop := {
  static_v4want : opt_want_ipv4 o = w4;
  static_v6want : opt_want_ipv6 o = w6;
  static_v4some : w4 = true -> is_Some (ipv4_address o);
  static_v6some : w6 = true -> is_Some (ipv6_address o);
  static_v4usable : forall a l, ipv4_address o = Some (a, l) -> 0 < a <= U32_MAX;
  static_v6usable : forall a l, ipv6_address o = Some (a, l) ->
    PppControl.ppp_interface_id (IpV6 a) <> replicate 8 0;
  static_names : request_ipv4_name_servers o = false;
}.

(** An address that is not configured is not used; any valid one stands for it. *)
Definition side_of (n : PppNegotiator) : Side :=
  mkSide (local_mru n) (local_magic n) (request_async_map n) (request_protocol_compression n)
    (default 1 (local_ipv4 n)) (default 1 (local_ipv6 n)).

Lemma start_draws n now first n' :
  local_magic_enabled n = true -> start now n = (Ok first, n') ->
  exists m rest, PppControl.random_ppp_magic (entropy n) = (Some m, rest).
Proof.
  intros Hm Hs. apply bind_method_Ok in Hs as (p & n1 & Hb & _).
  apply bind_method_Ok in Hb as (payload & n2 & Ho & _).
  unfold request_options in Ho. rewrite decide_True in Ho by done.
  apply bind_method_Ok in Ho as (n3 & n4 & [= <- <-] & Ho).
  apply bind_method_Ok in Ho as (p1 & n5 & E5 & Ho).
  apply bind_method_Ok in Ho as (p2 & n6 & E6 & Ho). rewrite Hm in Ho.
  assert (n5 = n) as -> by (destruct (request_mru n); by injection E5).
  assert (n6 = n) as -> by (destruct (request_async_map n); revert E6;
    [unfold control, lift; by intros [= _ <-]|by intros [= _ <-]]).
  apply bind_method_Ok in Ho as (p3 & n7 & Hr & _).
  apply bind_method_Ok in Hr as (m & n8 & Hr & _). unfold redraw_magic in Hr.
  apply bind_method_Ok in Hr as (m' & n9 & Hr & _). unfold draw_magic in Hr.
  destruct (PppControl.random_ppp_magic (entropy n)) as [[m1|] rest]; [by exists m1, rest|done].
Qed.

Lemma started_stage w4 w6 o draws now n0 first n peer :
  statically_configured w4 w6 o -> Forall magic_ok draws ->
  new o draws now = Ok n0 -> start now n0 = (Ok first, n) ->
  side_ok (side_of n) /\ half w4 w6 (side_of n) peer 0 0 n first
  /\ side_mru (side_of n) = mtu (effective o)
  /\ (w4 = true -> fst <$> ipv4_address o = Some (side_ipv4 (side_of n)))
  /\ (w6 = true -> fst <$> ipv6_address o = Some (side_ipv6 (side_of n))).
Proof.
  intros Hst Hd Hn Hs. destruct (negotiator_new_fresh _ _ _ _ Hn) as (m0 & rest & Er & -> & Hmtu).
  destruct (effective_spec o) as (Ee & Ew4 & Ew6 & Ea4 & Ea6 & En & _).
  destruct (random_magic_ok _ _ _ Hd Er) as [_ Hrest].
  destruct (start_draws (fresh (effective o) m0 rest now) _ _ _ eq_refl Hs) as (m & rest' & Er'). cbn [entropy fresh] in Er'.
  destruct (random_magic_ok _ _ _ Hrest Er') as [[Hm _] _].
  unfold start in Hs. erewrite bind_eq in Hs by (by apply build_lcp_eq).
  injection Hs as <- <-. destruct Hst.
  pose proof (maximum_mtu_bound (opt_encapsulation o)).
  assert (wrap16 (mtu (effective o)) = mtu (effective o)) as Ewrap.
  { unfold wrap16. apply Z.mod_small. unfold PPP_MINIMUM_MRU, U16_MAX in *. simpl. lia. }
  split; [split|split; [|split; [done|split; simpl; rewrite ?Ea4, ?Ea6]]].
  - simpl. rewrite Ewrap. lia.
  - done.
  - simpl. rewrite Ea4. destruct (ipv4_address o) as [[a l]|] eqn:E; simpl; [by eapply static_v4usable0|done].
  - simpl. rewrite Ea6. destruct (ipv6_address o) as [[a l]|] eqn:E; simpl; [by eapply static_v6usable0|by vm_compute].
  - split; [|by split; [simpl; lia|]].
    eexists. split; [reflexivity|]. split; [|done|done].
    split; simpl; rewrite ?Ew4, ?Ew6, ?Ea4, ?Ea6, ?En, ?static_names0; try done.
    + intros [[a l] ->]%static_v4some0. done.
    + intros [[a l] ->]%static_v6some0. done.
  - intros [[a l] ->]%static_v4some0. done.
  - intros [[a l] ->]%static_v6some0. done.
Qed.

Lemma stage_agreement w4 w6 me peer f n :
  w4 || w6 = true -> complete w4 w6 f = true -> rl f = true -> r4 f = w4 -> r6 f = w6 ->
  at_stage w4 w6 me peer f n ->
  phase n = Network
  /\ (exists c, configuration n = Some c
      /\ configured_mtu c = Z.min (side_mru me) (side_mru peer))
  /\ (w4 = true -> local_ipv4 n = Some (side_ipv4 me) /\ peer_ipv4 n = Some (side_ipv4 peer))
  /\ (w6 = true -> local_ipv6 n = Some (side_ipv6 me) /\ peer_ipv6 n = Some (link_local peer)).
Proof.
  intros Hw Hc Hrl Hr4 Hr6 [Hcore Hp Hcfg]. rewrite Hc in Hp, Hcfg.
  assert (is_Some (build_configuration n)) as [c Eb] by (by eapply build_configuration_Some).
  destruct (Hcore).
  split; [done|]. split; [exists c; split; [congruence|]|split].
  - rewrite <- core_mru0, <- core_peer_mru0 by done. unfold build_configuration in Eb.
    destruct (if want_ipv4 n then _ else _); [|done]. simpl in Eb.
    destruct (if want_ipv6 n then _ else _); [|done]. by injection Eb as <-.
  - intros E. split; [auto|]. apply core_v4peer0. congruence.
  - intros E. split; [auto|]. apply core_v6peer0. congruence.
Qed.

(** C11: Two negotiators that talk to each other over a link that loses nothing
    and keeps the order of each direction become ready, however the deliveries
    of the two directions interleave.  Both want the same network protocols and
    have a usable address of each (a non-zero IPv4 address, an IPv6 address
    whose interface identifier is not zero), neither asks for IPv4 name
    servers, their magic numbers differ, and every packet arrives before a
    retransmission timer fires.  Then no delivery ever fails, there are at most
    twelve of them, and when no packet is left both ends are in the network
    phase, the MTU of both is the smaller of the two that are configured, and
    each end has kept its configured addresses and learnt those of the other:
    its IPv4 address as it is, its IPv6 address as the link-local one with the
    same interface identifier. *)
Theorem negotiation_completes (w4 w6 : bool) (oa ob : PppNegotiatorOptions)
    (da db : list (list Z)) (ta tb : Z) (a0 b0 a b : PppNegotiator)
    (fa fb : list PppOutboundPacket) (k : nat) (s : Pair) :
  w4 || w6 = true -> statically_configured w4 w6 oa -> statically_configured w4 w6 ob ->
  Forall magic_ok da -> Forall magic_ok db ->
  new oa da ta = Ok a0 -> start ta a0 = (Ok fa, a) ->
  new ob db tb = Ok b0 -> start tb b0 = (Ok fb, b) ->
  local_magic a <> local_magic b ->
  nsteps deliver k (mkPair a b fb fa) s ->
  (k <= 12)%nat
  /\ (to_a s <> [] \/ to_b s <> [] -> exists s', deliver s s')
  /\ (to_a s = [] -> to_b s = [] ->
      phase (end_a s) = Network /\ phase (end_b s) = Network
      /\ (exists ca cb, configuration (end_a s) = Some ca /\ configuration (end_b s) = Some cb
          /\ configured_mtu ca = Z.min (mtu (effective oa)) (mtu (effective ob))
          /\ configured_mtu cb = configured_mtu ca)
      /\ (w4 = true ->
          (local_ipv4 (end_a s) = fst <$> ipv4_address oa /\ local_ipv4 (end_b s) = fst <$> ipv4_address ob)
          /\ peer_ipv4 (end_a s) = local_ipv4 (end_b s) /\ peer_ipv4 (end_b s) = local_ipv4 (end_a s))
      /\ (w6 = true ->
          (local_ipv6 (end_a s) = fst <$> ipv6_address oa /\ local_ipv6 (end_b s) = fst <$> ipv6_address ob)
          /\ is_Some (peer_ipv6 (end_a s)) /\ is_Some (peer_ipv6 (end_b s))
          /\ peer_ipv6 (end_a s) = as_link_local <$> local_ipv6 (end_b s)
          /\ peer_ipv6 (end_b s) = as_link_local <$> local_ipv6 (end_a s))).
Proof.
  intros Hw Hsa Hsb Hda Hdb Hna Hfa Hnb Hfb Hm Hst. set (A := side_of a). set (B := side_of b).
  destruct (started_stage w4 w6 _ _ _ _ _ _ B Hsa Hda Hna Hfa) as (HA & Ha & Ma0 & Ia4 & Ia6).
  destruct (started_stage w4 w6 _ _ _ _ _ _ A Hsb Hdb Hnb Hfb) as (HB & Hb & Mb0 & Ib4 & Ib6).
  fold A in Ma0, Ia4, Ia6. fold B in Mb0, Ib4, Ib6.
  assert (side_magic A <> side_magic B) as Hd by done.
  destruct (pair_steps w4 w6 A B HA HB Hd Hw k _ _ Hst 0 0) as (i & j & Hok & Eij); [done|].
  assert (i <= 6 /\ j <= 6)%nat as [Hi Hj].
  { destruct Hok as [((f1 & H1 & _) & _) ((f2 & H2 & _) & _)]. split; by eapply stages_bound. }
  split; [lia|]. split; [by apply (pair_can w4 w6 A B HA HB Hd Hw i j)|].
  destruct s as [a' b' qa qb]. simpl. intros -> ->.
  destruct (pair_quiescent w4 w6 A B i j a' b' Hw Hok) as (f & Hc & Hrl & Hr4 & Hr6 & Sa & Sb).
  destruct (stage_agreement _ _ _ _ _ _ Hw Hc Hrl Hr4 Hr6 Sa) as (Pa & (ca & Ca & Ma) & A4 & A6).
  destruct (stage_agreement _ _ _ _ _ _ Hw Hc Hrl Hr4 Hr6 Sb) as (Pb & (cb & Cb & Mb) & B4 & B6).
  split; [done|]. split; [done|].
  split; [exists ca, cb; repeat split; [done|done|congruence|rewrite Ma, Mb; lia]|].
  split; intros E.
  - destruct (A4 E) as [-> ->], (B4 E) as [-> ->]. by rewrite Ia4, Ib4.
  - destruct (A6 E) as [-> ->], (B6 E) as [-> ->]. by rewrite Ia6, Ib6.
Qed.

(** A schedule that empties the direction towards the first end first. *)
Fixpoint drain (fuel : nat) (s : Pair) : nat * Pair :=
  match fuel with
  | O => (0%nat, s)
  | S fuel =>
      match s with
      | mkPair a b (p :: qa) qb =>
          match handle_frame (frame_of p) 0 a with
          | (Ok event, a') => let '(k, s') := drain fuel (mkPair a' b qa (qb ++ outbound event)) in (S k, s')
          | (Err _, _) => (0%nat, s)
          end
      | mkPair a b [] (p :: qb) =>
          match handle_frame (frame_of p) 0 b with
          | (Ok event, b') => let '(k, s') := drain fuel (mkPair a b' (outbound event) qb) in (S k, s')
          | (Err _, _) => (0%nat, s)
          end
      | _ => (0%nat, s)
      end
  end.

Lemma drain_steps fuel s : nsteps deliver (drain fuel s).1 s (drain fuel s).2.
Proof.
  revert s. induction fuel as [|fuel IH]; intros [a b qa qb]; [by constructor|]. cbn [drain].
  destruct qa as [|p qa]; [destruct qb as [|p qb]; [by constructor|]|].
  - destruct (handle_frame (frame_of p) 0 b) as [[ev|e] b'] eqn:E; [|by constructor].
    specialize (IH (mkPair a b' (outbound ev) qb)).
    destruct (drain fuel (mkPair a b' (outbound ev) qb)) as [k s'].
    econstructor; [by eapply (deliver_b _ _ [])|exact IH].
  - destruct (handle_frame (frame_of p) 0 a) as [[ev|e] a'] eqn:E; [|by constructor].
    specialize (IH (mkPair a' b qa (qb ++ outbound ev))).
    destruct (drain fuel (mkPair a' b qa (qb ++ outbound ev))) as [k s'].
    econstructor; [by eapply deliver_a|exact IH].
Qed.

(** The other end: address 10.0.0.2, an MTU of 1300, and no HDLC. *)
Definition other_options : PppNegotiatorOptions :=
  mkOptions Fortinet true false (Some (167772162, 24)) None false 1300 false 0 2 0 0.

Definition other_draws : list (list Z) := [[7; 7; 7; 7]; [8; 8; 8; 8]].

Definition other_new : PppNegotiator :=
  fresh (effective other_options) [7; 7; 7; 7] [[8; 8; 8; 8]] 0.

Definition first_of (n : PppNegotiator) : list PppOutboundPacket :=
  match (start 0 n).1 with Ok l => l | Err _ => [] end.

Definition example_pair : Pair :=
  mkPair example_started (start 0 other_new).2 (first_of other_new) (first_of example_new).

Lemma example_static : statically_configured true false example_options.
Proof. split; try done. by intros a l [= <- <-]. Qed.

Lemma other_static : statically_configured true false other_options.
Proof. split; try done. by intros a l [= <- <-]. Qed.

Lemma negotiation_completes_witness :
  phase (end_a (drain 12 example_pair).2) = Network
  /\ phase (end_b (drain 12 example_pair).2) = Network.
Proof.
  destruct (negotiation_completes true false example_options other_options example_draws other_draws
    0 0 example_new other_new example_started (start 0 other_new).2 (first_of example_new)
    (first_of other_new) (drain 12 example_pair).1 (drain 12 example_pair).2) as (_ & _ & Hend).
  - done.
  - apply example_static.
  - apply other_static.
  - apply example_draws_ok.
  - repeat (apply Forall_cons_2; [by split; [|apply bytes_okb_true]|]). done.
  - by vm_compute.
  - by vm_compute.
  - by vm_compute.
  - by vm_compute.
  - by vm_compute.
  - apply drain_steps.
  - destruct Hend as (Ha & Hb & _); [by vm_compute|by vm_compute|]. by split.
Defined.

End Link.
