(* ===== verification/IpText.v ===== *)
(** * Addresses as text

    The text of [std::net] addresses: [Display] and [FromStr] of [Ipv4Addr],
    [Ipv6Addr] and [IpAddr], which the configuration formats of the router
    use.  A parser takes the bytes it is given and returns the value and the
    bytes left, or nothing; a parser that fails consumes nothing. *)

From stdpp Require Import base numbers list sets.
From Stdlib Require Import ZArith Lia.
From S2P Require Import Prelude Text.

Local Open Scope Z_scope.

Module IpText.

Definition COLON : Z := 58.
Definition SLASH : Z := 47.

(** ** Printing *)

Definition digit (d : Z) : Z := if decide (d < 10) then 48 + d else 87 + d.

(** The digits of [x] in the base [radix]; [fuel] bounds their number. *)
Fixpoint digits (fuel : nat) (radix x : Z) : text :=
  match fuel with
  | O => []
  | S fuel => if decide (x < radix) then [digit x] else digits fuel radix (x / radix) ++ [digit (x mod radix)]
  end.

Definition decimal (x : Z) : text := digits 20 10 x.
Definition hexadecimal (x : Z) : text := digits 20 16 x.

Fixpoint join (separator : text) (l : list text) : text :=
  match l with
  | [] => []
  | [x] => x
  | x :: l => x ++ separator ++ join separator l
  end.

Definition octets (n : nat) (x : Z) : list Z := to_be_bytes n x.

Definition display_v4 (a : Z) : text := join [DOT] (decimal <$> octets 4 a).

(** The eight groups of an IPv6 address. *)
Definition segments (a : Z) : list Z :=
  (fun i => Z.land (Z.shiftr a (16 * (7 - i))) 65535) <$> seqZ 0 8.

(** The longest run of zero groups, the first of them when several have the
    same length: its start and its length. *)
Definition zero_run (groups : list Z) : nat * nat :=
  let step (st : nat * (nat * nat) * (nat * nat)) (g : Z) :=
    let '(i, current, longest) := st in
    if decide (g = 0) then
      let current := if decide (current.2 = 0)%nat then (i, 1%nat) else (current.1, S current.2) in
      (S i, current, if decide (longest.2 < current.2)%nat then current else longest)
    else (S i, (0%nat, 0%nat), longest) in
  (foldl step (0%nat, (0%nat, 0%nat), (0%nat, 0%nat)) groups).2.

Definition display_v6 (a : Z) : text :=
  let groups := segments a in
  if decide (Z.shiftr a 32 = 65535) then
    [COLON; COLON; 102; 102; 102; 102; COLON] ++ display_v4 (wrap32 a)
  else
    let '(start, len) := zero_run groups in
    let plain l := join [COLON] (hexadecimal <$> l) in
    if decide (1 < len)%nat then plain (take start groups) ++ [COLON; COLON] ++ plain (drop (start + len) groups)
    else plain groups.

Definition display_ip (a : IpAddr) : text :=
  match a with
  | IpV4 a => display_v4 a
  | IpV6 a => display_v6 a
  end.

(** ** Parsing *)

Definition parser (A : Type) : Type := text -> option (A * text).

Definition read_given_char (c : Z) : parser unit := fun s =>
  match s with
  | b :: s => if decide (b = c) then Some ((), s) else None
  | [] => None
  end.

(** [char::to_digit]. *)
Definition to_digit (radix b : Z) : option Z :=
  let d := if decide (48 <= b <= 57) then b - 48
           else if decide (97 <= b <= 122) then b - 87
           else if decide (65 <= b <= 90) then b - 55 else radix in
  if decide (d < radix) then Some d else None.

(** The digits at the head of the text: their value and their number. *)
Fixpoint read_digits (radix result : Z) (count : nat) (s : text) : Z * nat * text :=
  match s with
  | b :: s' =>
      match to_digit radix b with
      | Some d => read_digits radix (result * radix + d) (S count) s'
      | None => (result, count, s)
      end
  | [] => (result, count, s)
  end.

(** [read_number] with a bound on the number of digits, for a value up to [max]. *)
Definition read_number (radix : Z) (max_digits : nat) (allow_zero_prefix : bool) (max : Z) : parser Z := fun s =>
  let '(result, count, rest) := read_digits radix 0 0 s in
  if decide (max_digits < count)%nat then None
  else if decide (count = 0)%nat then None
  else if negb allow_zero_prefix && bool_decide (head s = Some 48) && bool_decide (1 < count)%nat then None
  else if decide (result <= max) then Some (result, rest) else None.

Definition read_separator {A} (c : Z) (index : nat) (p : parser A) : parser A := fun s =>
  match index with
  | O => p s
  | S _ => '(_, s) ← read_given_char c s; p s
  end.

Fixpoint read_octets (steps : nat) (index : nat) : parser (list Z) := fun s =>
  match steps with
  | O => Some ([], s)
  | S steps =>
      '(x, s) ← read_separator DOT index (read_number 10 3 false 255) s;
      '(l, s) ← read_octets steps (S index) s;
      Some (x :: l, s)
  end.

Definition read_ipv4_addr : parser Z := fun s =>
  '(l, s) ← read_octets 4 0 s; Some (from_be_bytes l, s).

(** [read_groups] from the group [index], with [steps] groups up to the limit:
    the groups, and whether an IPv4 address was the last of them. *)
Fixpoint read_groups (steps index : nat) (s : text) : list Z * bool * text :=
  match steps with
  | O => ([], false, s)
  | S steps =>
      let v4 := match steps with
                | O => None
                | S _ => read_separator COLON index read_ipv4_addr s
                end in
      match v4 with
      | Some (a, s) => ([Z.shiftr a 16; Z.land a 65535], true, s)
      | None =>
          match read_separator COLON index (read_number 16 4 true 65535) s with
          | Some (g, s) => let '(l, v4, s) := read_groups steps (S index) s in (g :: l, v4, s)
          | None => ([], false, s)
          end
      end
  end.

Definition of_segments (l : list Z) : Z := foldl (fun a g => Z.lor (Z.shiftl a 16) g) 0 l.

Definition read_ipv6_addr : parser Z := fun s =>
  let '(front, front_ipv4, s) := read_groups 8 0 s in
  if decide (length front = 8)%nat then Some (of_segments front, s)
  else if front_ipv4 then None
  else
    '(_, s) ← read_given_char COLON s;
    '(_, s) ← read_given_char COLON s;
    let '(back, _, s) := read_groups (8 - (length front + 1)) 0 s in
    Some (of_segments (front ++ replicate (8 - length front - length back) 0 ++ back), s).

(** [str::parse]: the whole text is read. *)
Definition parse_with {A} (p : parser A) (s : text) : option A :=
  '(a, rest) ← p s; if decide (rest = []) then Some a else None.

Definition parse_ipv4 (s : text) : option Z :=
  if decide (15 < length s)%nat then None else parse_with read_ipv4_addr s.
Definition parse_ipv6 (s : text) : option Z := parse_with read_ipv6_addr s.

Definition read_ip_addr : parser IpAddr := fun s =>
  match read_ipv4_addr s with
  | Some (a, s) => Some (IpV4 a, s)
  | None => '(a, s) ← read_ipv6_addr s; Some (IpV6 a, s)
  end.

Definition parse_ip (s : text) : option IpAddr := parse_with read_ip_addr s.

(** ** Numbers *)

(** The text [s] does not go on with a digit. *)
Definition number_end (radix : Z) (s : text) : Prop := forall b, head s = Some b -> to_digit radix b = None.

Lemma to_digit_digit radix d : 0 <= d < radix -> radix <= 36 -> to_digit radix (digit d) = Some d.
Proof.
  intros Hd Hr. unfold to_digit, digit. destruct (decide (d < 10)).
  - rewrite (decide_True (P := 48 <= _ <= _)) by lia. rewrite decide_True by lia. f_equal. lia.
  - rewrite (decide_False (P := 48 <= _ <= _)) by lia. rewrite (decide_True (P := 97 <= _ <= _)) by lia.
    rewrite decide_True by lia. f_equal. lia.
Qed.

Lemma read_digits_app radix s t acc count value n :
  read_digits radix acc count s = (value, n, []) ->
  read_digits radix acc count (s ++ t) = read_digits radix value n t.
Proof.
  revert acc count. induction s as [|b s IH]; intros acc count; cbn [read_digits app].
  - by intros [= -> ->].
  - destruct (to_digit radix b); [apply IH|done].
Qed.

Lemma read_digits_end radix acc count t :
  number_end radix t -> read_digits radix acc count t = (acc, count, t).
Proof. intros Ht. destruct t as [|b t]; [done|]. cbn. by rewrite Ht. Qed.

(** Printing gives at most [k] digits for a number below [radix ^ k], which
    read back as the number. *)
Lemma read_digits_digits radix fuel x k :
  2 <= radix <= 36 -> 0 <= x < radix ^ Z.of_nat k -> (0 < k <= fuel)%nat ->
  exists n, read_digits radix 0 0 (digits fuel radix x) = (x, n, []) /\ (0 < n <= k)%nat.
Proof.
  intros Hr. revert x k. induction fuel as [|fuel IH]; intros x k Hx Hk; [lia|].
  cbn [digits]. case_decide as E.
  - exists 1%nat. cbn [read_digits]. rewrite to_digit_digit by lia. split; [f_equal; f_equal; lia|lia].
  - destruct k as [|k]; [lia|]. rewrite Nat2Z.inj_succ, Z.pow_succ_r in Hx by lia.
    assert (0 < x / radix) by (apply Z.div_str_pos; lia).
    assert (x / radix < radix ^ Z.of_nat k) by (apply Z.div_lt_upper_bound; lia).
    assert (0 < k)%nat by (destruct k; [change (radix ^ Z.of_nat 0) with 1 in *; lia|lia]).
    destruct (IH (x / radix) k) as (n & En & Hn); [lia..|].
    pose proof (Z.mod_pos_bound x radix ltac:(lia)) as Hm. pose proof (Z.div_mod x radix ltac:(lia)) as Hd.
    exists (S n). split; [|lia].
    rewrite (read_digits_app _ _ _ _ _ _ _ En). cbn [read_digits]. rewrite to_digit_digit by lia.
    f_equal. f_equal. lia.
Qed.

(** A number other than zero is printed without a leading zero. *)
Lemma digits_head radix fuel x :
  2 <= radix <= 36 -> 0 < x < radix ^ Z.of_nat fuel ->
  exists b l, digits fuel radix x = b :: l /\ b <> 48.
Proof.
  intros Hr. revert x. induction fuel as [|fuel IH]; intros x Hx; [cbn in Hx; lia|]. cbn [digits].
  case_decide as E.
  - eexists _, []. split; [done|]. unfold digit. case_decide; lia.
  - rewrite Nat2Z.inj_succ, Z.pow_succ_r in Hx by lia.
    assert (0 < x / radix) by (apply Z.div_str_pos; lia).
    assert (x / radix < radix ^ Z.of_nat fuel) by (apply Z.div_lt_upper_bound; lia).
    destruct (IH (x / radix)) as (b & l & -> & Hb); [lia|]. by eexists b, _.
Qed.

(** Digits are neither separators nor brackets. *)
Definition is_alnum (b : Z) : Prop := 48 <= b <= 57 \/ 97 <= b <= 122.

Lemma digits_alnum radix fuel x : 2 <= radix <= 36 -> 0 <= x -> Forall is_alnum (digits fuel radix x).
Proof.
  intros Hr. revert x. induction fuel as [|fuel IH]; intros x Hx; cbn [digits]; [constructor|].
  assert (forall d, 0 <= d < radix -> is_alnum (digit d)) as Hd
    by (intros d Hd; unfold digit, is_alnum; case_decide; lia).
  case_decide; [constructor; [apply Hd; lia|constructor]|]. apply Forall_app. split; [apply IH, Z.div_pos; lia|].
  constructor; [|constructor]. apply Hd, Z.mod_pos_bound. lia.
Qed.

Lemma read_number_printed radix max_digits allow max x rest :
  2 <= radix <= 36 -> 0 <= x < radix ^ Z.of_nat max_digits -> x <= max -> (0 < max_digits <= 20)%nat ->
  number_end radix rest ->
  read_number radix max_digits allow max (digits 20 radix x ++ rest) = Some (x, rest).
Proof.
  intros Hr Hx Hmax Hd Hrest. unfold read_number.
  destruct (read_digits_digits radix 20 x max_digits) as (n & En & Hn); [done..|].
  rewrite (read_digits_app _ _ _ _ _ _ _ En), read_digits_end by done.
  rewrite !decide_False by lia. rewrite decide_True by done.
  destruct (decide (x = 0)) as [->|Hnz].
  - destruct (read_digits_digits radix 20 0 1) as (n' & En' & Hn'); [lia..|].
    rewrite En in En'. simplify_eq. rewrite (bool_decide_eq_false_2 (1 < n')%nat) by lia.
    by rewrite andb_false_r.
  - destruct (digits_head radix 20 x) as (b & l & -> & Hb); [done| |].
    { split; [lia|]. eapply Z.lt_le_trans; [apply Hx|]. apply Z.pow_le_mono_r; lia. }
    cbn [app head]. rewrite (bool_decide_eq_false_2 (Some b = _)) by (by intros [= ->]).
    by rewrite andb_false_r.
Qed.

(** ** Printing and parsing an IPv4 address *)

Lemma read_octet_printed x rest :
  is_u8 x -> number_end 10 rest -> read_number 10 3 false 255 (decimal x ++ rest) = Some (x, rest).
Proof. intros Hx Hr. apply read_number_printed; [lia|ilia|ilia|lia|done]. Qed.

Lemma read_given_char_same c s : read_given_char c (c :: s) = Some ((), s).
Proof. cbn. by rewrite decide_True. Qed.

Lemma number_end_dot s : number_end 10 (DOT :: s).
Proof. by intros b [= <-]. Qed.

Lemma number_end_colon radix s : radix <= 36 -> number_end radix (COLON :: s).
Proof.
  intros Hr b [= <-]. unfold to_digit, COLON. rewrite !(decide_False (P := _ <= 58 <= _)) by lia.
  rewrite decide_False; [done|]. lia.
Qed.

Lemma number_end_nil radix : number_end radix [].
Proof. done. Qed.

Lemma read_ipv4_addr_display a rest :
  0 <= a < 2 ^ 32 -> number_end 10 rest -> read_ipv4_addr (display_v4 a ++ rest) = Some (a, rest).
Proof.
  intros Ha Hr. unfold read_ipv4_addr, display_v4, octets.
  pose proof (length_to_be_bytes 4 a) as Hl. pose proof (to_be_bytes_ok 4 a) as Hb.
  rewrite <-(from_to_be_bytes 4 a) at 2 by done.
  destruct (to_be_bytes 4 a) as [|x0 [|x1 [|x2 [|x3 [|]]]]]; try done.
  repeat (apply Forall_cons in Hb as [? Hb]).
  cbn [fmap list_fmap join read_octets read_separator].
  rewrite <-!app_assoc.
  repeat (rewrite ?read_given_char_same; cbn [mbind option_bind app];
          rewrite read_octet_printed by (done || apply number_end_dot); cbn [mbind option_bind app]).
  done.
Qed.

(** ** Printing and parsing an IPv6 address *)

(** A dotted address has a dot. *)
Lemma read_digits_suffix radix acc count s : (read_digits radix acc count s).2 `suffix_of` s.
Proof.
  revert acc count. induction s as [|b s IH]; intros acc count; cbn; [done|].
  destruct (to_digit radix b); [|done]. apply suffix_cons_r, IH.
Qed.

Lemma read_number_suffix radix max_digits allow max s x rest :
  read_number radix max_digits allow max s = Some (x, rest) -> rest `suffix_of` s.
Proof.
  unfold read_number. pose proof (read_digits_suffix radix 0 0 s) as Hs.
  destruct (read_digits radix 0 0 s) as [[v n] r]. cbn in Hs.
  repeat case_decide; try done; destruct (_ && _); try done; by intros [= _ <-].
Qed.

Lemma read_ipv4_addr_dotless s : DOT ∉ s -> read_ipv4_addr s = None.
Proof.
  intros Hs. unfold read_ipv4_addr. cbn [read_octets read_separator].
  destruct (read_number 10 3 false 255 s) as [[x r]|] eqn:E; [|done]. cbn [mbind option_bind].
  apply read_number_suffix in E as [p ->]. destruct r as [|b r]; [done|].
  assert (read_given_char DOT (b :: r) = None) as ->; [|done].
  cbn. case_decide; [|done]. subst b. exfalso. apply Hs. apply elem_of_app. right. left.
Qed.

Definition group_ok (g : Z) : Prop := 0 <= g <= 65535.

Definition groups_text (l : list Z) : text := join [COLON] (hexadecimal <$> l).

Lemma join_cons sep x l :
  join sep (x :: l) = x ++ match l with [] => [] | _ => sep ++ join sep l end.
Proof. destruct l; cbn; [by rewrite app_nil_r|done]. Qed.

Lemma join_dotless l : Forall group_ok l -> DOT ∉ groups_text l.
Proof.
  unfold groups_text. induction 1 as [|g l Hg Hl IH]; [by apply not_elem_of_nil|].
  cbn [fmap list_fmap]. rewrite join_cons, not_elem_of_app. split.
  - intros Hd. pose proof (digits_alnum 16 20 g ltac:(lia) ltac:(apply Hg)) as Ha.
    rewrite Forall_forall in Ha. specialize (Ha _ Hd). unfold is_alnum, DOT in Ha. lia.
  - destruct (hexadecimal <$> l); [by apply not_elem_of_nil|]. rewrite not_elem_of_app. split; [|done].
    by rewrite list_elem_of_singleton.
Qed.

Lemma read_group_printed g rest :
  group_ok g -> number_end 16 rest -> read_number 16 4 true 65535 (hexadecimal g ++ rest) = Some (g, rest).
Proof. intros [? ?] Hr. apply read_number_printed; [lia|change (16 ^ Z.of_nat 4) with 65536; lia|lia|lia|done]. Qed.

(** The text after an address, and after its groups. *)
Definition address_end (s : text) : Prop := number_end 16 s /\ head s <> Some COLON.
Definition groups_end (s : text) : Prop := address_end s \/ exists s', s = COLON :: COLON :: s'.

Lemma number_end_10 s : number_end 16 s -> number_end 10 s.
Proof.
  intros Hs b Hb. specialize (Hs b Hb). unfold to_digit in *. repeat case_decide; try done; lia.
Qed.

Lemma read_number_end radix n allow max s : number_end radix s -> read_number radix n allow max s = None.
Proof.
  intros Hs. unfold read_number. rewrite read_digits_end by done. rewrite decide_False by lia.
  by rewrite decide_True.
Qed.

Lemma read_ipv4_addr_end s : number_end 10 s -> read_ipv4_addr s = None.
Proof. intros Hs. unfold read_ipv4_addr. cbn [read_octets read_separator]. by rewrite read_number_end. Qed.

Lemma read_groups_stop steps index s : groups_end s -> read_groups steps index s = ([], false, s).
Proof.
  intros [[Hn Hc]|[s' ->]]; [|destruct steps as [|[|steps]], index; done].
  destruct steps as [|steps]; [done|]. cbn [read_groups].
  assert (forall A (p : parser A), p s = None -> read_separator COLON index p s = None) as Hp.
  { intros A p Hp. destruct index; [done|]. cbn. destruct s as [|b s]; [done|]. cbn.
    rewrite decide_False; [done|]. by intros ->. }
  rewrite !Hp by (apply read_number_end || apply read_ipv4_addr_end, number_end_10; done).
  by destruct steps.
Qed.

Lemma separator_dotless index s : DOT ∉ s -> read_separator COLON index read_ipv4_addr s = None.
Proof.
  intros Hs. destruct index; cbn [read_separator]; [by apply read_ipv4_addr_dotless|].
  destruct s as [|b s]; [done|]. unfold read_given_char. case_decide; [|done]. cbn [mbind option_bind].
  apply read_ipv4_addr_dotless. set_solver.
Qed.

Lemma read_groups_printed l steps index rest :
  Forall group_ok l -> (length l <= steps)%nat -> groups_end rest -> DOT ∉ rest ->
  read_groups steps index
    (match l with [] => [] | _ => match index with O => [] | S _ => [COLON] end ++ groups_text l end ++ rest)
  = (l, false, rest).
Proof.
  intros Hl Hlen Hend Hdot. revert steps index Hlen. induction Hl as [|g l Hg Hl IH]; intros steps index Hlen.
  { by apply read_groups_stop. }
  destruct steps as [|steps]; [cbn in Hlen; lia|].
  set (tail := match l with [] => [] | _ => [COLON] ++ groups_text l end ++ rest).
  assert (groups_text (g :: l) ++ rest = hexadecimal g ++ tail) as Et.
  { unfold groups_text, tail. cbn [fmap list_fmap]. rewrite join_cons. destruct l; cbn;
      by rewrite <-app_assoc. }
  assert (DOT ∉ groups_text (g :: l) ++ rest) as Hnd.
  { apply not_elem_of_app. split; [apply join_dotless; by constructor|done]. }
  assert (number_end 16 tail) as Ht.
  { unfold tail. destruct l as [|g' l']; [|apply number_end_colon; lia].
    destruct Hend as [[He _]|[s' ->]]; [done|apply number_end_colon; lia]. }
  cbn [read_groups]. rewrite <-app_assoc.
  assert (forall s, s = match index with O => [] | S _ => [COLON] end ++ groups_text (g :: l) ++ rest ->
    match steps with O => None | S _ => read_separator COLON index read_ipv4_addr s end = None
    /\ read_separator COLON index (read_number 16 4 true 65535) s = Some (g, tail)) as Hs.
  { intros s ->. split.
    - destruct steps; [done|]. apply separator_dotless. destruct index; [done|]. set_solver.
    - rewrite Et. destruct index; cbn [app read_separator];
        rewrite ?read_given_char_same; cbn [mbind option_bind]; by apply read_group_printed. }
  destruct (Hs _ eq_refl) as [-> ->]. cbn [length] in Hlen.
  specialize (IH steps (S index) ltac:(lia)). cbn [app] in IH. unfold tail. cbn [app]. by rewrite IH.
Qed.

Lemma read_groups_text l steps rest :
  Forall group_ok l -> (length l <= steps)%nat -> groups_end rest -> DOT ∉ rest ->
  read_groups steps 0 (groups_text l ++ rest) = (l, false, rest).
Proof.
  intros Hl Hlen Hend Hdot. pose proof (read_groups_printed l steps 0 rest Hl Hlen Hend Hdot) as H.
  by destruct l.
Qed.

(** The run of zeros found in the groups. *)
Lemma zero_run_spec l :
  let '(start, len) := zero_run l in
  exists a b, l = a ++ replicate len 0 ++ b /\ length a = start.
Proof.
  unfold zero_run. set (step := fun st g => _).
  assert (let '(i, current, longest) := foldl step (0, (0, 0), (0, 0))%nat l in
    i = length l
    /\ (exists a, l = a ++ replicate current.2 0 /\ ((0 < current.2)%nat -> length a = current.1))
    /\ (exists a b, l = a ++ replicate longest.2 0 ++ b /\ length a = longest.1)) as H.
  { induction l as [|g l IH] using rev_ind.
    - split; [done|]. split; [by exists []|]. by exists [], [].
    - rewrite foldl_app. cbn [foldl]. destruct (foldl step _ l) as [[i [cs cl]] [ls ll]]. cbn in IH |- *.
      destruct IH as (-> & (a & Ea & Ha) & (a' & b & Eb & Hb)). rewrite length_app. cbn [length].
      assert (exists a0 b0, l ++ [g] = a0 ++ replicate ll 0 ++ b0 /\ length a0 = ls) as Hlong.
      { exists a', (b ++ [g]). split; [|done]. rewrite Eb at 1. by rewrite <-!app_assoc. }
      destruct (decide (g = 0)) as [->|Hg].
      + set (c := if decide (cl = 0)%nat then _ else _).
        assert (exists a0, l ++ [0] = a0 ++ replicate c.2 0 /\ length a0 = c.1) as (a0 & Ea0 & Ha0).
        { unfold c. case_decide; cbn.
          - by exists l.
          - exists a. split; [|apply Ha; lia]. rewrite Ea at 1. rewrite <-app_assoc. f_equal.
            change [0] with (replicate 1 0). by rewrite <-replicate_add, Nat.add_comm. }
        split; [lia|]. split; [by exists a0|].
        case_decide; [|done]. exists a0, []. by rewrite app_nil_r.
      + split; [lia|]. split; [|done]. exists (l ++ [g]). cbn. split; [by rewrite app_nil_r|lia]. }
  destruct (foldl step _ l) as [[i c] [ls ll]]. destruct H as (_ & _ & H). exact H.
Qed.

Lemma segments_ok a : Forall group_ok (segments a) /\ length (segments a) = 8%nat.
Proof.
  split; [|done]. apply Forall_fmap, Forall_forall. intros i _. unfold group_ok. cbn beta.
  cbn [compose]. rewrite (Z.land_ones _ 16) by lia.
  pose proof (Z.mod_pos_bound (Z.shiftr a (16 * (7 - i))) (2 ^ 16)). lia.
Qed.

Lemma shiftr_group a k k' :
  0 <= a -> 0 <= k -> k' = k + 16 ->
  Z.lor (Z.shiftl (Z.shiftr a k') 16) (Z.land (Z.shiftr a k) 65535) = Z.shiftr a k.
Proof.
  intros Ha Hk ->. rewrite <-Z.shiftr_shiftr by lia. set (x := Z.shiftr a k).
  assert (0 <= x) by (by apply Z.shiftr_nonneg).
  rewrite (Z.land_ones _ 16), lor_shiftl_add by (try lia; apply Z.mod_pos_bound; lia).
  rewrite Z.shiftr_div_pow2 by lia. pose proof (Z.div_mod x (2 ^ 16)). lia.
Qed.

Lemma of_segments_segments a : 0 <= a < 2 ^ 128 -> of_segments (segments a) = a.
Proof.
  intros Ha. unfold of_segments, segments. cbn [seqZ Z.to_nat Pos.to_nat Pos.iter_op seq fmap list_fmap].
  change (fmap _ (seqZ 0 8)) with
    ((fun k => Z.land (Z.shiftr a k) 65535) <$> [112; 96; 80; 64; 48; 32; 16; 0]).
  cbn [fmap list_fmap foldl].
  assert (0 = Z.shiftr a 128) as E0.
  { rewrite Z.shiftr_div_pow2 by lia. symmetry. apply Z.div_small. lia. }
  rewrite E0 at 1.
  rewrite (shiftr_group a 112), (shiftr_group a 96), (shiftr_group a 80), (shiftr_group a 64),
    (shiftr_group a 48), (shiftr_group a 32), (shiftr_group a 16), (shiftr_group a 0) by (done || lia).
  by rewrite Z.shiftr_0_r.
Qed.

Lemma read_ipv6_addr_plain a rest :
  0 <= a < 2 ^ 128 -> Z.shiftr a 32 <> 65535 -> address_end rest -> DOT ∉ rest ->
  read_ipv6_addr (display_v6 a ++ rest) = Some (a, rest) /\ DOT ∉ display_v6 a.
Proof.
  intros Ha Hm Hend Hdot. unfold display_v6. rewrite decide_False by done.
  destruct (segments_ok a) as [Hok Hlen]. pose proof (of_segments_segments a Ha) as Ea.
  pose proof (zero_run_spec (segments a)) as Hz. destruct (zero_run (segments a)) as [start len].
  destruct Hz as (l & r & E & Hl). case_decide as Hlen1.
  - rewrite E. rewrite <-Hl, take_app_length, drop_app_ge, Nat.add_comm, Nat.add_sub by lia.
    rewrite drop_app_length' by by rewrite length_replicate.
    fold (groups_text l) (groups_text r). rewrite E in Hok, Hlen.
    apply Forall_app in Hok as [Hokl [_ Hokr]%Forall_app].
    rewrite !length_app, length_replicate in Hlen.
    pose proof (join_dotless l Hokl). pose proof (join_dotless r Hokr).
    assert (DOT ∉ [COLON; COLON]) by (by intros [?|[?|?%not_elem_of_nil]%elem_of_cons]%elem_of_cons).
    split; [|by rewrite !not_elem_of_app]. unfold read_ipv6_addr. rewrite <-!app_assoc.
    rewrite (read_groups_text l) by (done || lia || (right; by eexists) || by rewrite !not_elem_of_app).
    rewrite decide_False by lia. cbn [app]. rewrite !read_given_char_same. cbn [mbind option_bind].
    rewrite read_given_char_same. cbn [mbind option_bind].
    rewrite (read_groups_text r) by (done || lia || by left).
    replace (8 - length l - length r)%nat with len by lia. by rewrite <-E, Ea.
  - fold (groups_text (segments a)). split; [|by apply join_dotless]. unfold read_ipv6_addr.
    rewrite (read_groups_text (segments a)) by (done || lia || by left).
    rewrite decide_True by done. by rewrite Ea.
Qed.

(** An IPv4-mapped address is printed with a dotted end. *)
Lemma read_ipv6_addr_mapped a rest :
  0 <= a < 2 ^ 128 -> Z.shiftr a 32 = 65535 -> address_end rest ->
  read_ipv6_addr (display_v6 a ++ rest) = Some (a, rest) /\ read_ipv4_addr (display_v6 a ++ rest) = None.
Proof.
  intros Ha Hm [Hend _]. unfold display_v6. rewrite decide_True by done. split; [|done].
  set (x := wrap32 a). assert (0 <= x < 2 ^ 32) as Hx by (apply Z.mod_pos_bound; lia).
  assert (read_groups 7 0 ([102; 102; 102; 102; COLON] ++ display_v4 x ++ rest)
    = ([65535; Z.shiftr x 16; Z.land x 65535], true, rest)) as Eg.
  { cbn [app]. cbn [read_groups].
    assert (read_separator COLON 0 read_ipv4_addr (102 :: 102 :: 102 :: 102 :: COLON :: display_v4 x ++ rest) = None)
      as -> by done.
    assert (read_separator COLON 0 (read_number 16 4 true 65535)
      (102 :: 102 :: 102 :: 102 :: COLON :: display_v4 x ++ rest) = Some (65535, COLON :: display_v4 x ++ rest))
      as -> by done.
    unfold read_separator at 1. rewrite read_given_char_same. cbn [mbind option_bind].
    rewrite read_ipv4_addr_display by (done || by apply number_end_10). done. }
  unfold read_ipv6_addr. rewrite <-app_assoc. cbn [app]. cbn [app] in Eg.
  assert (forall s, read_groups 8 0 (COLON :: COLON :: s) = ([], false, COLON :: COLON :: s)) as E8 by done.
  rewrite E8. rewrite decide_False by done. rewrite read_given_char_same. cbn [mbind option_bind].
  rewrite read_given_char_same. cbn [mbind option_bind]. change (8 - (length (@nil Z) + 1))%nat with 7%nat.
  rewrite Eg. do 2 f_equal. unfold of_segments. cbn [app length Nat.sub replicate foldl].
  change (Z.lor (Z.shiftl _ 16) 65535) with 65535.
  rewrite Z.shiftr_div_pow2 in Hm by lia.
  assert (a = 65535 * 2 ^ 32 + x) as Ea by (pose proof (Z.div_mod a (2 ^ 32)); unfold x, wrap32; lia).
  rewrite Z.shiftr_div_pow2, (Z.land_ones _ 16) by lia.
  pose proof (Z.div_mod x (2 ^ 16)). pose proof (Z.mod_pos_bound x (2 ^ 16)).
  assert (0 <= x / 2 ^ 16 < 2 ^ 16)
    by (split; [apply Z.div_pos; lia|apply Z.div_lt_upper_bound; lia]).
  rewrite !lor_shiftl_add by lia. lia.
Qed.

Lemma read_ipv6_addr_display a rest :
  0 <= a < 2 ^ 128 -> address_end rest -> DOT ∉ rest -> read_ipv6_addr (display_v6 a ++ rest) = Some (a, rest).
Proof.
  intros Ha Hend Hdot. destruct (decide (Z.shiftr a 32 = 65535)).
  - by apply read_ipv6_addr_mapped.
  - by apply read_ipv6_addr_plain.
Qed.

(** An address survives printing and parsing. *)
Lemma read_ip_addr_display a rest :
  match a with IpV4 x => 0 <= x < 2 ^ 32 | IpV6 x => 0 <= x < 2 ^ 128 end ->
  address_end rest -> DOT ∉ rest -> read_ip_addr (display_ip a ++ rest) = Some (a, rest).
Proof.
  intros Ha He Hn. unfold read_ip_addr. destruct a as [x|x]; cbn [display_ip].
  - by rewrite read_ipv4_addr_display by (done || apply number_end_10, He).
  - assert (read_ipv4_addr (display_v6 x ++ rest) = None) as ->.
    { destruct (decide (Z.shiftr x 32 = 65535)).
      - by destruct (read_ipv6_addr_mapped x rest).
      - destruct (read_ipv6_addr_plain x rest) as [_ Hd]; [done..|]. apply read_ipv4_addr_dotless.
        by rewrite not_elem_of_app. }
    by rewrite read_ipv6_addr_display by done.
Qed.

Lemma parse_ip_display a :
  match a with IpV4 x => 0 <= x < 2 ^ 32 | IpV6 x => 0 <= x < 2 ^ 128 end ->
  parse_ip (display_ip a) = Some a.
Proof.
  intros Ha. unfold parse_ip, parse_with. rewrite <-(app_nil_r (display_ip a)).
  by rewrite read_ip_addr_display by (done || apply not_elem_of_nil).
Qed.

(** [2001:db8::1], [::ffff:192.0.2.1] and [1:0:0:4:0:0:0:8]. *)
Lemma ipv6_examples :
  let a := of_segments [8193; 3512; 0; 0; 0; 0; 0; 1] in
  let m := of_segments [0; 0; 0; 0; 0; 65535; 49152; 513] in
  let z := of_segments [1; 0; 0; 4; 0; 0; 0; 8] in
  display_v6 z = [49; 58; 48; 58; 48; 58; 52; 58; 58; 56]
  /\ parse_ip (display_v6 a) = Some (IpV6 a) /\ parse_ip (display_v6 m) = Some (IpV6 m)
  /\ parse_ip (display_v6 z) = Some (IpV6 z) /\ parse_ip (display_v6 0) = Some (IpV6 0).
Proof. by vm_compute. Qed.

End IpText.
