(* ===== verification/SrsWire.v ===== *)
(** * Primitives of the binary rule-set format

    The integers, slices and addresses of [route/srs.rs].  A reader is the
    list of the bytes it still holds, and a writer the list of the bytes it
    appends.  Every reader undoes its writer, whatever follows. *)

From stdpp Require Import base numbers list.
From Stdlib Require Import ZArith Lia.
From S2P Require Import Prelude.

Local Open Scope Z_scope.

Definition MAX_COLLECTION_LENGTH : Z := 16 * 1024 * 1024.
Definition MAX_LOGICAL_DEPTH : Z := 100.

(** The error messages, without the position they are found at.  [Unfinished]
    stands for a loop of the model that was given too few rounds. *)
Inductive SrsError : Type :=
| UnexpectedEof
| VarintOverflow
| CollectionTooLarge (length : Z)
| InvalidAddressLength (length : Z)
| InvalidPrefix
| InvalidPrefixLength
| InvalidIpSetVersion
| IpSetTooLarge
| MixedFamilies
| DescendingRange
| AddressExceedsFamily
| UnknownFamily (family : Z)
| MalformedSet
| EmptySet
| MalformedKey
| KeyIndexPanic
| EmptySuffix
| EmptyDomain
| EmptyAdGuardRule
| InvalidUtf8
| InvalidMagic
| UnsupportedVersion (version : Z)
| NestedTooDeep
| NotAnObject
| UnknownRuleType
| UnknownLogicalMode
| MissingMode
| MissingRules
| NotAString
| NotAUint16
| InvalidQueryType
| NotABoolean
| RequiresVersion (minimum : Z)
| UnknownInterfaceType
| UnknownItem (item : Z) (last : option Z)
| Unfinished.

Global Instance SrsError_eq_dec : EqDecision SrsError.
Proof. solve_decision. Defined.

Module Wire.

Definition reader (A : Type) : Type := method (list Z) SrsError A.

(** [read_exact] into a buffer of [n] bytes. *)
Definition read_exact (n : nat) : reader (list Z) := fun r =>
  if decide (n <= length r)%nat then (Ok (take n r), drop n r) else (Err UnexpectedEof, []).

Definition read_u8 : reader Z := bytes ← read_exact 1; mret (default 0 (head bytes)).

(** The loop of [read_uvarint], from the byte number [index]. *)
Fixpoint read_uvarint_from (steps : nat) (index value : Z) : reader Z :=
  match steps with
  | O => throw VarintOverflow
  | S steps =>
      byte ← read_u8;
      if decide (index = 9 /\ byte > 1) then throw VarintOverflow
      else
        let value := Z.lor value (Z.shiftl (Z.land byte 127) (index * 7)) in
        if decide (byte < 128) then mret value else read_uvarint_from steps (index + 1) value
  end.

Definition read_uvarint : reader Z := read_uvarint_from 10 0 0.

Definition read_length : reader nat :=
  value ← read_uvarint;
  if decide (value > MAX_COLLECTION_LENGTH) then throw (CollectionTooLarge value)
  else mret (Z.to_nat value).

Definition read_u64_be : reader Z := bytes ← read_exact 8; mret (from_be_bytes bytes).

(** [count] reads in sequence. *)
Fixpoint read_many {A} (count : nat) (read : reader A) : reader (list A) :=
  match count with
  | O => mret []
  | S count => x ← read; xs ← read_many count read; mret (x :: xs)
  end.

Definition read_u16 : reader Z := bytes ← read_exact 2; mret (from_be_bytes bytes).

Definition read_u16_slice : reader (list Z) := count ← read_length; read_many count read_u16.
Definition read_u64_slice : reader (list Z) := count ← read_length; read_many count read_u64_be.
Definition read_byte_slice : reader (list Z) := count ← read_length; read_exact count.
Definition read_u8_slice : reader (list Z) := count ← read_length; read_exact count.

Definition read_ip_addr : reader IpAddr :=
  length ← read_length;
  if decide (length = 4)%nat then bytes ← read_exact 4; mret (IpV4 (from_be_bytes bytes))
  else if decide (length = 16)%nat then bytes ← read_exact 16; mret (IpV6 (from_be_bytes bytes))
  else throw (InvalidAddressLength (Z.of_nat length)).

(** ** Writers *)

(** The loop of [write_uvarint]; ten bytes are enough for a [u64]. *)
Fixpoint write_uvarint_loop (fuel : nat) (value : Z) : list Z :=
  match fuel with
  | O => []
  | S fuel =>
      let byte := Z.land value 127 in
      let value := Z.shiftr value 7 in
      if decide (value = 0) then [byte] else Z.lor byte 128 :: write_uvarint_loop fuel value
  end.

Definition write_uvarint (value : Z) : list Z := write_uvarint_loop 10 value.

Definition write_length {A} (l : list A) : list Z := write_uvarint (Z.of_nat (length l)).

Definition write_u64_slice (values : list Z) : list Z :=
  write_length values ++ concat (to_be_bytes 8 <$> values).

Definition write_u16_slice (values : list Z) : list Z :=
  write_length values ++ concat (to_be_bytes 2 <$> values).

Definition write_ip_address (address : IpAddr) : list Z :=
  match address with
  | IpV4 a => write_uvarint 4 ++ to_be_bytes 4 a
  | IpV6 a => write_uvarint 16 ++ to_be_bytes 16 a
  end.

Definition write_ip_addr (family address : Z) : result SrsError (list Z) :=
  if decide (family = 4) then Ok (write_ip_address (IpV4 (wrap32 address)))
  else if decide (family = 6) then Ok (write_ip_address (IpV6 address))
  else Err (UnknownFamily family).

(** ** Reading what was written *)

(** [m] reads exactly the bytes [w], as the value [a]. *)
Definition reads {A} (m : reader A) (w : list Z) (a : A) : Prop :=
  forall rest, m (w ++ rest) = (Ok a, rest).

Lemma reads_ret {A} (a : A) : reads (mret a) [] a.
Proof. by intros rest. Qed.

Lemma reads_bind {A B} (m : reader A) (f : A -> reader B) w1 w2 a b :
  reads m w1 a -> reads (f a) w2 b -> reads (m ≫= f) (w1 ++ w2) b.
Proof.
  intros Hm Hf rest. rewrite <-app_assoc. unfold mbind, method_bind.
  rewrite Hm. apply Hf.
Qed.

Lemma reads_bind_ret {A B} (m : reader A) (f : A -> B) w a :
  reads m w a -> reads (x ← m; mret (f x)) w (f a).
Proof.
  intros Hm. rewrite <-(app_nil_r w). eapply reads_bind; [done|]. apply reads_ret.
Qed.

Lemma reads_exact n w : length w = n -> reads (read_exact n) w w.
Proof.
  intros <- rest. unfold read_exact. rewrite decide_True by (rewrite length_app; lia).
  by rewrite take_app_length, drop_app_length.
Qed.

Lemma reads_u8 b : reads read_u8 [b] b.
Proof. by apply (reads_bind_ret (read_exact 1) (fun l => default 0 (head l)) [b] [b]), reads_exact. Qed.

(** One step of the loops of the variable length integers: the low seven bits
    of [v] join the [7 * i] bits read before. *)
Lemma uvarint_step v i acc :
  0 <= v -> 0 <= i -> 0 <= acc < 2 ^ (7 * i) ->
  let acc' := Z.lor acc (Z.shiftl (Z.land (Z.land v 127) 127) (i * 7)) in
  acc' = acc + 2 ^ (7 * i) * (v mod 128) /\ 0 <= acc' < 2 ^ (7 * (i + 1)).
Proof.
  intros Hv Hi Ha acc'.
  assert (Z.land (Z.land v 127) 127 = v mod 128) as El.
  { rewrite <-Z.land_assoc. change (Z.land 127 127) with (Z.ones 7). by rewrite Z.land_ones. }
  assert (acc' = acc + 2 ^ (7 * i) * (v mod 128)) as E.
  { unfold acc'. rewrite El, Z.lor_comm, lor_shiftl_add by (try lia; rewrite Z.mul_comm; lia).
    rewrite (Z.mul_comm i 7). lia. }
  split; [done|]. rewrite E.
  replace (7 * (i + 1)) with (7 * i + 7) by lia. rewrite Z.pow_add_r by lia.
  change (2 ^ 7) with 128. pose proof (Z.mod_pos_bound v 128). nia.
Qed.

Lemma lor_128 x : 0 <= x < 128 -> Z.lor x 128 = x + 128.
Proof.
  intros Hx. change (Z.lor x 128) with (Z.lor x (Z.shiftl 1 7)).
  rewrite Z.lor_comm, lor_shiftl_add by lia. change (2 ^ 7) with 128. lia.
Qed.

Lemma shiftr_7 v : Z.shiftr v 7 = v / 128.
Proof. by rewrite Z.shiftr_div_pow2. Qed.

Lemma land_127 v : Z.land v 127 = v mod 128.
Proof. change 127 with (Z.ones 7). by rewrite Z.land_ones. Qed.

(** Reading the bytes of a variable length integer, [i] bytes into it. *)
Lemma reads_uvarint_from fuel v i acc :
  0 <= v < 2 ^ (7 * Z.of_nat fuel) -> i + Z.of_nat fuel = 10 -> 0 <= i -> (0 < fuel)%nat ->
  0 <= acc < 2 ^ (7 * i) -> v * 2 ^ (7 * i) < 2 ^ 64 ->
  reads (read_uvarint_from fuel i acc) (write_uvarint_loop fuel v) (acc + 2 ^ (7 * i) * v).
Proof.
  revert v i acc. induction fuel as [|fuel IH]; intros v i acc Hv Hf Hi Hp Ha Hb; [lia|].
  cbn [read_uvarint_from write_uvarint_loop].
  destruct (uvarint_step v i acc) as [E Hr]; [lia..|].
  pose proof (Z.div_mod v 128 ltac:(lia)) as Ev. pose proof (Z.mod_pos_bound v 128 ltac:(lia)).
  rewrite shiftr_7. destruct (decide (v / 128 = 0)) as [Ed|Ed].
  - change [Z.land v 127] with ([Z.land v 127] ++ []). eapply reads_bind; [apply reads_u8|].
    rewrite decide_False.
    2:{ intros [-> Hb1]. rewrite land_127 in Hb1.
        change (2 ^ (7 * 9)) with (2 ^ 63) in Hb. lia. }
    rewrite E, decide_True by (rewrite land_127; lia).
    replace (v mod 128) with v by lia. apply reads_ret.
  - change (?a :: ?l) with ([a] ++ l). eapply reads_bind; [apply reads_u8|].
    rewrite land_127, lor_128 by lia.
    assert (i <> 9) by (intros ->; change (2 ^ (7 * 9)) with (2 ^ 63) in Hb; lia).
    rewrite decide_False by lia. rewrite decide_False by lia.
    rewrite land_127, Z.add_mod, Z.mod_same, Z.add_0_r, !Z.mod_mod by lia.
    rewrite land_127, land_127, Z.mod_mod in E by lia. rewrite land_127, land_127, Z.mod_mod in Hr by lia.
    assert (2 ^ (7 * (i + 1)) = 2 ^ (7 * i) * 128) as Ep
      by (replace (7 * (i + 1)) with (7 * i + 7) by lia; by rewrite Z.pow_add_r by lia).
    rewrite Ep in Hr.
    replace (acc + 2 ^ (7 * i) * v)
      with ((acc + 2 ^ (7 * i) * (v mod 128)) + 2 ^ (7 * (i + 1)) * (v / 128)) by nia.
    rewrite <-E. apply IH; [| lia | lia | lia | by rewrite Ep | rewrite Ep; nia].
    split; [apply Z.div_pos; lia|]. apply Z.div_lt_upper_bound; [lia|].
    replace (7 * Z.of_nat (S fuel)) with (7 * Z.of_nat fuel + 7) in Hv by lia.
    rewrite Z.pow_add_r in Hv by lia. lia.
Qed.

(** [read_uvarint] undoes [write_uvarint] on every [u64]. *)
Lemma reads_uvarint v : is_u64 v -> reads read_uvarint (write_uvarint v) v.
Proof.
  intros Hv. unfold read_uvarint, write_uvarint.
  replace v with (0 + 2 ^ (7 * 0) * v) at 2 by (cbn; lia).
  apply reads_uvarint_from; unfold_ints; cbn in *; lia.
Qed.

Lemma reads_length {A} (l : list A) :
  Z.of_nat (length l) <= MAX_COLLECTION_LENGTH -> reads read_length (write_length l) (length l).
Proof.
  intros Hl. unfold write_length, read_length. unfold MAX_COLLECTION_LENGTH in *.
  rewrite <-(app_nil_r (write_uvarint _)).
  eapply reads_bind; [apply reads_uvarint; ilia|].
  rewrite decide_False by lia. rewrite Nat2Z.id. apply reads_ret.
Qed.

Lemma reads_many_map {A B} (read : reader B) (write : A -> list Z) (f : A -> B) l :
  Forall (fun x => reads read (write x) (f x)) l ->
  reads (read_many (length l) read) (concat (write <$> l)) (f <$> l).
Proof.
  induction 1 as [|x l Hx Hl IH]; cbn; [apply reads_ret|].
  eapply reads_bind; [apply Hx|]. by apply reads_bind_ret.
Qed.

Lemma reads_many {A} (read : reader A) (write : A -> list Z) l :
  Forall (fun x => reads read (write x) x) l ->
  reads (read_many (length l) read) (concat (write <$> l)) l.
Proof. intros H. rewrite <-(list_fmap_id l) at 3. by apply reads_many_map. Qed.

Lemma reads_be n x :
  0 <= x < 2 ^ (8 * Z.of_nat n) ->
  reads (bytes ← read_exact n; mret (from_be_bytes bytes)) (to_be_bytes n x) x.
Proof.
  intros Hx. rewrite <-(from_to_be_bytes n x) at 2 by done.
  apply (reads_bind_ret (read_exact n) from_be_bytes), reads_exact, length_to_be_bytes.
Qed.

Lemma reads_u64_slice l :
  Z.of_nat (length l) <= MAX_COLLECTION_LENGTH -> Forall is_u64 l ->
  reads read_u64_slice (write_u64_slice l) l.
Proof.
  intros Hl Hu. eapply reads_bind; [by apply reads_length|]. apply reads_many.
  eapply Forall_impl; [done|]. intros x Hx. apply (reads_be 8). unfold_ints. cbn. lia.
Qed.

Lemma reads_u16_slice l :
  Z.of_nat (length l) <= MAX_COLLECTION_LENGTH -> Forall is_u16 l ->
  reads read_u16_slice (write_u16_slice l) l.
Proof.
  intros Hl Hu. eapply reads_bind; [by apply reads_length|]. apply reads_many.
  eapply Forall_impl; [done|]. intros x Hx. apply (reads_be 2). unfold_ints. cbn. lia.
Qed.

Lemma reads_byte_slice l :
  Z.of_nat (length l) <= MAX_COLLECTION_LENGTH ->
  reads read_byte_slice (write_length l ++ l) l.
Proof. intros Hl. eapply reads_bind; [by apply reads_length|]. by apply reads_exact. Qed.

(** An address of its width. *)
Definition ip_ok (a : IpAddr) : Prop :=
  match a with
  | IpV4 x => 0 <= x < 2 ^ 32
  | IpV6 x => 0 <= x < 2 ^ 128
  end.

Lemma reads_ip_addr a : ip_ok a -> reads read_ip_addr (write_ip_address a) a.
Proof.
  unfold read_ip_addr. intros Ha. destruct a as [x|x]; cbn in Ha |- *.
  - eapply reads_bind; [apply (reads_length (replicate 4 tt)); cbn; unfold MAX_COLLECTION_LENGTH; lia|].
    rewrite decide_True by done. rewrite <-(from_to_be_bytes 4 x) at 2 by done.
    apply (reads_bind_ret (read_exact 4) (fun b => IpV4 (from_be_bytes b))), reads_exact,
      length_to_be_bytes.
  - eapply reads_bind; [apply (reads_length (replicate 16 tt)); cbn; unfold MAX_COLLECTION_LENGTH; lia|].
    rewrite decide_False, decide_True by done. rewrite <-(from_to_be_bytes 16 x) at 2 by done.
    apply (reads_bind_ret (read_exact 16) (fun b => IpV6 (from_be_bytes b))), reads_exact,
      length_to_be_bytes.
Qed.

End Wire.
