(* ===== verification/SrsIpSet.v ===== *)
(** * Address sets of the binary rule-set format

    A rule-set names addresses as prefixes ([10.0.0.0/8]).  The writer of
    [route/srs.rs] turns them into sorted and merged ranges, and the reader
    splits every range into prefixes again.  Merging and splitting keep
    exactly the addresses of the source. *)

From stdpp Require Import base numbers list sorting sets.
From Stdlib Require Import ZArith Lia.
From S2P Require Import Prelude Text IpText SrsWire.

Local Open Scope Z_scope.

(** The number of bits of an address. *)
Definition width (a : IpAddr) : Z := if is_ipv4 a then 32 else 128.

Definition ip_value (a : IpAddr) : Z := match a with IpV4 x => x | IpV6 x => x end.

(** The crate [ipnet]: a prefix has an address and a prefix length, and is
    parsed from the text [address/length]. *)
Class IpNetOps := {
  IpNet : Type;
  net_parse : text -> option IpNet;
  net_new : IpAddr -> Z -> option IpNet;
  net_addr : IpNet -> IpAddr;
  net_prefix_len : IpNet -> Z;
  net_network : IpNet -> IpAddr;
  net_broadcast : IpNet -> IpAddr;
  net_contains : IpNet -> IpAddr -> bool;
}.

(** What its documentation says: the length is at most the width, the network
    is the address without its host bits, and the broadcast address the one
    with all of them. *)
Class IpNetLaws `{!IpNetOps} : Prop := {
  net_addr_ok n : Wire.ip_ok (net_addr n);
  net_len_ok n : 0 <= net_prefix_len n <= width (net_addr n);
  net_network_spec n :
    is_ipv4 (net_network n) = is_ipv4 (net_addr n)
    /\ ip_value (net_network n)
       = ip_value (net_addr n) - ip_value (net_addr n) mod 2 ^ (width (net_addr n) - net_prefix_len n);
  net_broadcast_spec n :
    is_ipv4 (net_broadcast n) = is_ipv4 (net_addr n)
    /\ ip_value (net_broadcast n)
       = ip_value (net_network n) + 2 ^ (width (net_addr n) - net_prefix_len n) - 1;
  net_new_spec a len : Wire.ip_ok a -> 0 <= len <= width a ->
    exists n, net_new a len = Some n /\ net_addr n = a /\ net_prefix_len n = len;
  net_contains_spec n a : Wire.ip_ok a ->
    net_contains n a = bool_decide (is_ipv4 a = is_ipv4 (net_addr n)
      /\ ip_value (net_network n) <= ip_value a <= ip_value (net_broadcast n));
}.

(** A prefix is also parsed from its text. *)
Class IpNetTextLaws `{!IpNetOps} : Prop :=
  net_parse_text a len : Wire.ip_ok a -> 0 <= len <= width a ->
    exists n, net_parse (IpText.display_ip a ++ [IpText.SLASH] ++ IpText.decimal len) = Some n
      /\ net_addr n = a /\ net_prefix_len n = len.

Record IpRange : Type := { family : Z; from : Z; to : Z }.

Global Instance IpRange_eq_dec : EqDecision IpRange.
Proof. solve_decision. Defined.

Definition U128_MAX : Z := 2 ^ 128 - 1.

Module IpSet.

(** ** Splitting a range into prefixes *)

(** [u128::trailing_zeros] of a number other than zero. *)
Fixpoint pos_trailing_zeros (p : positive) : Z :=
  match p with
  | xO p => 1 + pos_trailing_zeros p
  | _ => 0
  end.

Definition trailing_zeros (x : Z) : Z :=
  match x with
  | Zpos p => pos_trailing_zeros p
  | _ => 128
  end.

(** The loop, [fuel] times at most. *)
Fixpoint split_loop {A} (fuel : nat) (start end_ bits maximum : Z) (render : Z -> Z -> A) : option (list A) :=
  match fuel with
  | O => None
  | S fuel =>
      let alignment := if decide (start = 0) then bits else trailing_zeros start `min` bits in
      let capacity := if decide (start = 0 /\ end_ = maximum) then bits else Z.log2 (end_ - start + 1) in
      let host_bits := alignment `min` capacity in
      let prefix := render start (bits - host_bits) in
      if decide (host_bits = bits) then Some [prefix]
      else
        let block := Z.shiftl 1 host_bits in
        if decide (block - 1 = end_ - start) then Some [prefix]
        else rest ← split_loop fuel (start + block) end_ bits maximum render; Some (prefix :: rest)
  end.

(** A range has at most [2 * bits] prefixes, so the loop ends within its fuel;
    [Unfinished] is the value of a loop that does not. *)
Definition range_to_prefixes_inner {A} (start end_ bits : Z) (render : Z -> Z -> A) : result SrsError (list A) :=
  if decide (start > end_) then Err DescendingRange
  else
    let maximum := if decide (bits = 128) then U128_MAX else Z.shiftl 1 bits - 1 in
    if decide (end_ > maximum) then Err AddressExceedsFamily
    else match split_loop (Z.to_nat (2 * bits + 2)) start end_ bits maximum render with
         | Some prefixes => Ok prefixes
         | None => Err Unfinished
         end.

(** [format!("{}/{}", ...)]. *)
Definition render_prefix (address : IpAddr) (prefix : Z) : text :=
  IpText.display_ip address ++ [IpText.SLASH] ++ IpText.decimal prefix.

Definition range_to_prefixes (from to : IpAddr) : result SrsError (list text) :=
  match from, to with
  | IpV4 from, IpV4 to =>
      range_to_prefixes_inner from to 32 (fun value prefix => render_prefix (IpV4 (wrap32 value)) prefix)
  | IpV6 from, IpV6 to =>
      range_to_prefixes_inner from to 128 (fun value prefix => render_prefix (IpV6 value) prefix)
  | _, _ => Err MixedFamilies
  end.

Definition lift {A} (r : result SrsError A) : Wire.reader A :=
  match r with Ok a => mret a | Err e => throw e end.

Definition read_range : Wire.reader (list text) :=
  from ← Wire.read_ip_addr; to ← Wire.read_ip_addr; lift (range_to_prefixes from to).

Definition read_ip_set : Wire.reader (list text) :=
  version ← Wire.read_u8;
  if decide (version <> 1) then throw InvalidIpSetVersion
  else
    count ← Wire.read_u64_be;
    if decide (count > MAX_COLLECTION_LENGTH) then throw IpSetTooLarge
    else prefixes ← Wire.read_many (Z.to_nat count) read_range; mret (concat prefixes).

Definition read_prefix : Wire.reader text :=
  address ← Wire.read_ip_addr;
  bits ← Wire.read_u8;
  if decide (bits <= width address) then mret (render_prefix address bits) else throw InvalidPrefixLength.

(** ** Writing prefixes as ranges *)

Section write.
Context `{!IpNetOps}.

Definition parse_prefix (value : text) : option IpNet :=
  match net_parse value with
  | Some prefix => Some prefix
  | None =>
      address ← IpText.parse_ip value;
      net_new address (if is_ipv4 address then 32 else 128)
  end.

Definition parse_ip_range (value : text) : option IpRange :=
  prefix ← parse_prefix value;
  Some match net_addr prefix with
       | IpV4 _ => {| family := 4; from := ip_value (net_network prefix); to := ip_value (net_broadcast prefix) |}
       | IpV6 _ =>
           let from := ip_value (net_network prefix) in
           let host_bits := 128 - net_prefix_len prefix in
           let to := if decide (host_bits = 128) then U128_MAX else Z.lor from (Z.shiftl 1 host_bits - 1) in
           {| family := 6; from := from; to := to |}
       end.

(** The order of the key [(family, from, to)]. *)
Definition range_leb (a b : IpRange) : bool :=
  bool_decide (a.(family) < b.(family))
  || (bool_decide (a.(family) = b.(family))
      && (bool_decide (a.(from) < b.(from))
          || (bool_decide (a.(from) = b.(from)) && bool_decide (a.(to) <= b.(to))))).

Definition range_le (a b : IpRange) : Prop := range_leb a b = true.
#[global] Instance range_le_dec : RelDecision range_le.
Proof. intros a b. unfold range_le. apply _. Defined.

Definition saturating_add_1 (x : Z) : Z := (x + 1) `min` U128_MAX.

(** One step of the loop: [merged] is the vector, last element first. *)
Definition merge_step (merged : list IpRange) (range : IpRange) : list IpRange :=
  match merged with
  | previous :: rest =>
      if decide (previous.(family) = range.(family) /\ range.(from) <= saturating_add_1 previous.(to))
      then {| family := previous.(family); from := previous.(from); to := previous.(to) `max` range.(to) |} :: rest
      else range :: merged
  | [] => [range]
  end.

Definition merge_ranges (ranges : list IpRange) : list IpRange :=
  rev (foldl merge_step [] (merge_sort range_le ranges)).

Definition write_range (range : IpRange) : result SrsError (list Z) :=
  a ← Wire.write_ip_addr range.(family) range.(from);
  b ← Wire.write_ip_addr range.(family) range.(to);
  Ok (a ++ b).

Fixpoint write_ranges (ranges : list IpRange) : result SrsError (list Z) :=
  match ranges with
  | [] => Ok []
  | range :: ranges => a ← write_range range; b ← write_ranges ranges; Ok (a ++ b)
  end.

(** The bytes of a field with the number [item]; nothing for an empty field. *)
Definition write_optional_ip_set (item : Z) (prefixes : list text) : result SrsError (list Z) :=
  if decide (prefixes = []) then Ok []
  else match mapM parse_ip_range prefixes with
       | None => Err InvalidPrefix
       | Some ranges =>
           let merged := merge_ranges ranges in
           body ← write_ranges merged;
           Ok ([item; 1] ++ to_be_bytes 8 (Z.of_nat (length merged)) ++ body)
       end.

Definition write_prefix (value : text) : result SrsError (list Z) :=
  match parse_prefix value with
  | None => Err InvalidPrefix
  | Some prefix => Ok (Wire.write_ip_address (net_addr prefix) ++ [net_prefix_len prefix])
  end.
End write.

(** ** The prefixes of a range *)

(** Consecutive aligned blocks from [start] to [end_]: a block is its first
    address and its prefix length. *)
Fixpoint chain (bits start end_ : Z) (blocks : list (Z * Z)) : Prop :=
  match blocks with
  | [] => start = end_ + 1
  | (a, p) :: blocks =>
      a = start /\ 0 <= p <= bits /\ (2 ^ (bits - p) | a)
      /\ start + 2 ^ (bits - p) - 1 <= end_ /\ chain bits (start + 2 ^ (bits - p)) end_ blocks
  end.

Lemma pos_trailing_zeros_spec p :
  0 <= pos_trailing_zeros p
  /\ exists m, 0 <= m /\ Z.pos p = 2 ^ pos_trailing_zeros p * (2 * m + 1).
Proof.
  induction p as [p IH|p IH|]; cbn [pos_trailing_zeros].
  - split; [lia|]. exists (Z.pos p). lia.
  - destruct IH as (? & m & ? & E). split; [lia|]. exists m. split; [done|].
    rewrite Z.pow_add_r by lia. change (2 ^ 1) with 2. lia.
  - split; [lia|]. by exists 0.
Qed.

Lemma trailing_zeros_spec x :
  0 < x -> 0 <= trailing_zeros x /\ exists m, 0 <= m /\ x = 2 ^ trailing_zeros x * (2 * m + 1).
Proof. destruct x as [|p|p]; try lia. intros _. apply pos_trailing_zeros_spec. Qed.

Lemma trailing_zeros_divide x k : 0 < x -> 0 <= k -> (2 ^ k | x) -> k <= trailing_zeros x.
Proof.
  intros Hx Hk [q Eq]. destruct (trailing_zeros_spec x Hx) as (Ht & m & Hm & E).
  destruct (Z.le_gt_cases k (trailing_zeros x)) as [|Hlt]; [done|exfalso].
  set (t := trailing_zeros x) in *. replace k with (t + 1 + (k - t - 1)) in Eq by lia.
  rewrite !Z.pow_add_r in Eq by lia. change (2 ^ 1) with 2 in Eq.
  assert (2 ^ t * (2 * (q * 2 ^ (k - t - 1))) = 2 ^ t * (2 * m + 1)) as Ee by lia.
  apply Z.mul_cancel_l in Ee; [lia|]. apply Z.pow_nonzero; lia.
Qed.

Lemma trailing_zeros_lt x bits : 0 < x < 2 ^ bits -> 0 <= bits -> trailing_zeros x < bits.
Proof.
  intros Hx Hb. destruct (trailing_zeros_spec x) as (Ht & m & Hm & E); [lia|].
  apply (Z.pow_lt_mono_r_iff 2); [lia..|]. nia.
Qed.

Section split.
Context (bits : Z) (Hbits : 0 < bits).

Definition alignment (start : Z) : Z := if decide (start = 0) then bits else trailing_zeros start `min` bits.

Lemma alignment_spec start :
  0 <= start < 2 ^ bits -> 0 <= alignment start <= bits /\ (2 ^ alignment start | start).
Proof.
  intros Hs. unfold alignment. case_decide as E; [subst; split; [lia|apply Z.divide_0_r]|].
  destruct (trailing_zeros_spec start) as (Ht & m & Hm & Em); [lia|].
  pose proof (trailing_zeros_lt start bits ltac:(lia) ltac:(lia)).
  rewrite Z.min_l by lia. split; [lia|]. rewrite Em at 2. apply Z.divide_factor_l.
Qed.

Lemma alignment_ge start k : 0 <= start -> 0 <= k <= bits -> (2 ^ k | start) -> k <= alignment start.
Proof.
  intros Hs Hk Hd. unfold alignment. case_decide; [lia|].
  pose proof (trailing_zeros_divide start k ltac:(lia) ltac:(lia) Hd). lia.
Qed.

(** An odd multiple of a block, plus the block, has a larger alignment. *)
Lemma alignment_next start :
  0 < start < 2 ^ bits -> (2 ^ (alignment start + 1) | start + 2 ^ alignment start).
Proof.
  intros Hs. unfold alignment. rewrite decide_False by lia.
  destruct (trailing_zeros_spec start) as (Ht & m & Hm & Em); [lia|].
  pose proof (trailing_zeros_lt start bits ltac:(lia) ltac:(lia)).
  rewrite Z.min_l by lia. exists (m + 1). rewrite Z.pow_add_r by lia. change (2 ^ 1) with 2. lia.
Qed.

(** The rounds the loop has left: it first climbs to larger blocks, then
    descends to smaller ones. *)
Definition rounds (start end_ : Z) : Z :=
  let cap := Z.log2 (end_ - start + 1) in
  if decide (cap < alignment start) then cap + 1 else bits - alignment start + cap + 2.

Lemma capacity_spec start end_ :
  0 <= start <= end_ -> end_ < 2 ^ bits ->
  let cap := Z.log2 (end_ - start + 1) in
  0 <= cap <= bits /\ 2 ^ cap <= end_ - start + 1 < 2 ^ (cap + 1).
Proof.
  intros Hs He cap. pose proof (Z.log2_spec (end_ - start + 1) ltac:(lia)) as Hl.
  fold cap in Hl. rewrite <-Z.add_1_r in Hl.
  assert (0 <= cap) by apply Z.log2_nonneg. split; [|done]. split; [done|].
  apply (Z.pow_le_mono_r_iff 2); lia.
Qed.

Lemma rounds_bound start end_ :
  0 <= start <= end_ -> end_ < 2 ^ bits -> 0 < rounds start end_ <= 2 * bits + 2.
Proof.
  intros Hs He. destruct (capacity_spec start end_) as [Hc _]; [done..|].
  destruct (alignment_spec start) as [Ha _]; [lia|]. unfold rounds. case_decide; lia.
Qed.

Lemma rounds_decrease start end_ :
  0 <= start <= end_ -> end_ < 2 ^ bits ->
  let h := alignment start `min` Z.log2 (end_ - start + 1) in
  h <> bits -> start + 2 ^ h <= end_ -> rounds (start + 2 ^ h) end_ < rounds start end_.
Proof.
  intros Hs He h Hh Hle.
  destruct (capacity_spec start end_) as [Hc Hc2]; [done..|].
  destruct (alignment_spec start) as [Ha Hd]; [lia|].
  assert (0 < 2 ^ h) by (apply Z.pow_pos_nonneg; lia).
  destruct (capacity_spec (start + 2 ^ h) end_) as [Hc' Hc2']; [lia..|].
  set (cap := Z.log2 (end_ - start + 1)) in *.
  set (cap' := Z.log2 (end_ - (start + 2 ^ h) + 1)) in *.
  assert (cap' <= cap) by (apply Z.log2_le_mono; lia).
  unfold rounds. fold cap cap'. destruct (decide (cap < alignment start)) as [Hlt|Hge].
  - assert (h = cap) as Eh by lia. rewrite Eh in *.
    assert (cap' < cap).
    { apply (Z.pow_lt_mono_r_iff 2); [lia..|]. rewrite Z.pow_add_r in Hc2 by lia. lia. }
    assert (cap <= alignment (start + 2 ^ cap)).
    { apply alignment_ge; [lia..|]. apply Z.divide_add_r; [|apply Z.divide_refl].
      eapply Z.divide_trans; [|exact Hd]. exists (2 ^ (alignment start - cap)).
      rewrite <-Z.pow_add_r by lia. f_equal. lia. }
    rewrite decide_True by lia. lia.
  - assert (h = alignment start) as Eh by lia. rewrite Eh in *.
    assert (start <> 0) by (intros ->; unfold alignment in *; rewrite decide_True in * by done; lia).
    assert (alignment start + 1 <= alignment (start + 2 ^ alignment start)).
    { apply alignment_ge; [lia..|]. apply alignment_next. lia. }
    case_decide; lia.
Qed.

Lemma split_loop_spec {A} (render : Z -> Z -> A) fuel start end_ :
  0 <= start <= end_ -> end_ < 2 ^ bits -> rounds start end_ <= Z.of_nat fuel ->
  exists blocks, split_loop fuel start end_ bits (2 ^ bits - 1) render = Some (uncurry render <$> blocks)
    /\ chain bits start end_ blocks.
Proof.
  revert start. induction fuel as [|fuel IH]; intros start Hs He Hf.
  { pose proof (rounds_bound start end_ Hs He). lia. }
  cbn [split_loop]. fold (alignment start).
  replace (if decide (start = 0 /\ end_ = 2 ^ bits - 1) then bits else Z.log2 (end_ - start + 1))
    with (Z.log2 (end_ - start + 1)).
  2:{ case_decide as E; [|done]. destruct E as [-> ->]. replace (_ - 0 + 1) with (2 ^ bits) by lia.
      apply Z.log2_pow2. lia. }
  destruct (capacity_spec start end_) as [Hc Hc2]; [done..|].
  destruct (alignment_spec start) as [Ha Hd]; [lia|].
  set (h := alignment start `min` Z.log2 (end_ - start + 1)) in *.
  assert (2 ^ h <= end_ - start + 1) as Hfit.
  { etransitivity; [|apply Hc2]. apply Z.pow_le_mono_r; lia. }
  assert (2 ^ h | start) as Hal.
  { eapply Z.divide_trans; [|exact Hd]. exists (2 ^ (alignment start - h)).
    rewrite <-Z.pow_add_r by lia. f_equal. lia. }
  assert (0 < 2 ^ h) by (apply Z.pow_pos_nonneg; lia).
  assert (forall blocks, chain bits (start + 2 ^ h) end_ blocks ->
    chain bits start end_ ((start, bits - h) :: blocks)) as Hcons.
  { intros blocks Hb. cbn [chain]. replace (bits - (bits - h)) with h by lia.
    split; [done|]. split; [lia|]. split; [done|]. split; [lia|done]. }
  rewrite Z.shiftl_1_l. case_decide as Eh; [|case_decide as Eb].
  - exists [(start, bits - h)]. split; [done|]. apply Hcons. cbn [chain]. rewrite Eh in Hfit |- *. lia.
  - exists [(start, bits - h)]. split; [done|]. apply Hcons. cbn [chain]. lia.
  - assert (start + 2 ^ h <= end_) by lia.
    pose proof (rounds_decrease start end_ Hs He ltac:(done) ltac:(done)) as Hr. fold h in Hr.
    destruct (IH (start + 2 ^ h)) as (blocks & E & Hb); [lia..|].
    exists ((start, bits - h) :: blocks). rewrite E. split; [done|]. by apply Hcons.
Qed.
End split.

Lemma range_to_prefixes_inner_spec {A} (render : Z -> Z -> A) bits start end_ :
  bits = 32 \/ bits = 128 -> 0 <= start <= end_ -> end_ < 2 ^ bits ->
  exists blocks, range_to_prefixes_inner start end_ bits render = Ok (uncurry render <$> blocks)
    /\ chain bits start end_ blocks.
Proof.
  intros Hbits Hs He. assert (0 < bits) as Hb by lia. unfold range_to_prefixes_inner.
  rewrite decide_False by lia.
  replace (if decide (bits = 128) then U128_MAX else Z.shiftl 1 bits - 1) with (2 ^ bits - 1).
  2:{ rewrite Z.shiftl_1_l. case_decide; [by subst|done]. }
  rewrite decide_False by lia.
  destruct (split_loop_spec bits Hb render (Z.to_nat (2 * bits + 2)) start end_) as (blocks & -> & Hc);
    [done..| |by exists blocks].
  pose proof (rounds_bound bits Hb start end_ Hs He). lia.
Qed.

(** ** Ranges and blocks of addresses *)

Definition family_of (a : IpAddr) : Z := if is_ipv4 a then 4 else 6.
Definition ip_of (fam x : Z) : IpAddr := if decide (fam = 4) then IpV4 x else IpV6 x.
Definition bits_of (fam : Z) : Z := if decide (fam = 4) then 32 else 128.

Definition in_range (r : IpRange) (a : IpAddr) : Prop :=
  r.(family) = family_of a /\ r.(from) <= ip_value a <= r.(to).

Definition range_ok (r : IpRange) : Prop :=
  (r.(family) = 4 \/ r.(family) = 6) /\ 0 <= r.(from) <= r.(to) /\ r.(to) < 2 ^ bits_of r.(family).

(** An address and a prefix length: the addresses that share the first bits. *)
Definition in_block (b : IpAddr * Z) (a : IpAddr) : Prop :=
  is_ipv4 b.1 = is_ipv4 a
  /\ ip_value a / 2 ^ (width a - b.2) = ip_value b.1 / 2 ^ (width a - b.2).

(** A block that starts at its network address. *)
Definition block_ok (b : IpAddr * Z) : Prop :=
  Wire.ip_ok b.1 /\ 0 <= b.2 <= width b.1 /\ (2 ^ (width b.1 - b.2) | ip_value b.1).

(** [b] is before [c], with no address in common. *)
Definition before (b c : IpAddr * Z) : Prop :=
  family_of b.1 < family_of c.1
  \/ (is_ipv4 b.1 = is_ipv4 c.1 /\ ip_value b.1 + 2 ^ (width b.1 - b.2) <= ip_value c.1).

Definition separated (r q : IpRange) : Prop :=
  r.(family) < q.(family) \/ (r.(family) = q.(family) /\ r.(to) + 1 < q.(from)).

Lemma div_block x q k : 0 <= k -> (2 ^ k | q) -> x / 2 ^ k = q / 2 ^ k <-> q <= x < q + 2 ^ k.
Proof.
  intros Hk [m ->]. assert (0 < 2 ^ k) by (apply Z.pow_pos_nonneg; lia).
  rewrite Z.div_mul by lia. split.
  - intros E. pose proof (Z.div_mod x (2 ^ k)). pose proof (Z.mod_pos_bound x (2 ^ k)). nia.
  - intros Hx. symmetry. apply (Z.div_unique _ _ _ (x - m * 2 ^ k)); lia.
Qed.

(** ** Merging *)

Lemma exists_app {A} (P : A -> Prop) l k :
  (exists x, x ∈ l ++ k /\ P x) <-> (exists x, x ∈ l /\ P x) \/ (exists x, x ∈ k /\ P x).
Proof. setoid_rewrite elem_of_app. naive_solver. Qed.

Lemma exists_nil {A} (P : A -> Prop) : (exists x, x ∈ [] /\ P x) <-> False.
Proof. split; [by intros (? & ?%not_elem_of_nil & _)|done]. Qed.

Lemma exists_cons {A} (P : A -> Prop) y l :
  (exists x, x ∈ y :: l /\ P x) <-> P y \/ (exists x, x ∈ l /\ P x).
Proof. setoid_rewrite elem_of_cons. naive_solver. Qed.

Lemma range_le_total a b : range_le a b \/ range_le b a.
Proof.
  unfold range_le, range_leb. rewrite !orb_true_iff, !andb_true_iff, !orb_true_iff, !andb_true_iff, !bool_decide_eq_true. lia.
Qed.

Global Instance range_le_total' : Total range_le.
Proof. intros a b. apply range_le_total. Qed.

Lemma range_le_spec a b : range_le a b ->
  a.(family) < b.(family) \/ (a.(family) = b.(family) /\ a.(from) <= b.(from)).
Proof.
  unfold range_le, range_leb. rewrite orb_true_iff, andb_true_iff, orb_true_iff, andb_true_iff, !bool_decide_eq_true. lia.
Qed.

Global Instance range_le_trans : Transitive range_le.
Proof.
  intros a b c. unfold range_le, range_leb.
  rewrite !orb_true_iff, !andb_true_iff, !orb_true_iff, !andb_true_iff, !bool_decide_eq_true. lia.
Qed.

(** The ranges merged so far, last first, after the ranges [done_]. *)
Record merging (done_ acc : list IpRange) : Prop := {
  merging_ok : Forall range_ok acc;
  merging_sep : StronglySorted (fun q r => separated r q) acc;
  merging_in : forall a, (exists r, r ∈ acc /\ in_range r a) <-> (exists r, r ∈ done_ /\ in_range r a);
  merging_len : (length acc <= length done_)%nat;
}.

(** The ranges still to come start at or after the last range merged. *)
Definition ahead (acc : list IpRange) (r : IpRange) : Prop :=
  forall p, head acc = Some p ->
    p.(family) < r.(family) \/ (p.(family) = r.(family) /\ p.(from) <= r.(from)).

Lemma separated_from r p q : separated r p -> range_ok p -> ahead [p] q -> separated r q.
Proof. intros Hr [_ Hp] Ha. specialize (Ha p eq_refl). unfold separated in *. lia. Qed.

Lemma merge_step_spec done_ acc r :
  range_ok r -> ahead acc r -> merging done_ acc -> merging (done_ ++ [r]) (merge_step acc r).
Proof.
  intros Hr Ha [Hok Hsep Hin Hlen]. unfold merge_step. destruct acc as [|p acc].
  - split; [by constructor|by repeat constructor| |rewrite length_app; cbn; lia].
    intros a. specialize (Hin a). set_solver.
  - apply Forall_cons in Hok as [Hp Hok]. apply StronglySorted_inv in Hsep as [Hsep Hps].
    specialize (Ha p eq_refl). cbn [length] in Hlen. pose proof Hr as (Hfam & Hfr & Hto).
    pose proof Hp as (Hfamp & Hfrp & Htop).
    assert (2 ^ bits_of r.(family) <= 2 ^ 128) as Hmax
      by (apply Z.pow_le_mono_r; [lia|]; unfold bits_of; case_decide; lia).
    case_decide as E.
    + destruct E as [Ef El]. unfold saturating_add_1 in El.
      set (m := {| family := _; from := _; to := _ |}).
      assert (forall a, in_range m a <-> in_range p a \/ in_range r a) as Hm.
      { intros a. unfold in_range, m. cbn. rewrite <-Ef. lia. }
      split.
      * constructor; [|done]. split; [done|]. cbn. rewrite Ef in *. split; lia.
      * constructor; [done|]. eapply Forall_impl; [done|]. intros q Hq. unfold separated, m in *. cbn. lia.
      * intros a. specialize (Hin a). rewrite exists_cons in Hin.
        rewrite exists_app, <-Hin, !exists_cons, Hm, exists_nil. tauto.
      * rewrite length_app. cbn. lia.
    + assert (separated p r) as Hpr.
      { unfold saturating_add_1, U128_MAX in E. unfold separated. lia. }
      split.
      * constructor; [done|by constructor].
      * constructor; [by constructor|]. constructor; [done|]. eapply Forall_impl; [done|].
        intros q Hq. unfold separated in *. lia.
      * intros a. rewrite exists_app, <-Hin, !exists_cons, exists_nil. tauto.
      * rewrite length_app. cbn. lia.
Qed.

Lemma merge_step_ahead acc r q :
  range_ok r -> range_le r q -> ahead acc q -> ahead (merge_step acc r) q.
Proof.
  intros Hr Hq Ha p. unfold merge_step. destruct acc as [|p0 acc]; [|case_decide]; cbn; intros [= <-].
  - by apply range_le_spec.
  - apply (Ha p0 eq_refl).
  - by apply range_le_spec.
Qed.

Lemma merge_fold l done_ acc :
  Forall range_ok l -> StronglySorted range_le l -> Forall (ahead acc) l -> merging done_ acc ->
  merging (done_ ++ l) (foldl merge_step acc l).
Proof.
  revert done_ acc. induction l as [|r l IH]; intros done_ acc Hok Hs Ha Hm; [by rewrite app_nil_r|].
  apply Forall_cons in Hok as [Hr Hok]. apply StronglySorted_inv in Hs as [Hs Hrl].
  apply Forall_cons in Ha as [Har Ha]. cbn [foldl].
  replace (done_ ++ r :: l) with ((done_ ++ [r]) ++ l) by by rewrite <-app_assoc.
  apply IH; [done..| |by apply merge_step_spec].
  rewrite Forall_forall in Ha, Hrl |- *. intros q Hq. apply merge_step_ahead; auto.
Qed.

Lemma elem_of_rev {A} (x : A) l : x ∈ rev l <-> x ∈ l.
Proof. by rewrite !list_elem_of_In, <-in_rev. Qed.

Lemma StronglySorted_rev {A} (R : A -> A -> Prop) l :
  StronglySorted R l -> StronglySorted (fun x y => R y x) (rev l).
Proof.
  induction 1 as [|x l Hl IH Hx]; cbn; [constructor|].
  apply StronglySorted_app_2; [|done|by repeat constructor].
  intros a b Ha Hb. rewrite elem_of_rev in Ha. apply list_elem_of_singleton in Hb as ->.
  rewrite Forall_forall in Hx. by apply Hx.
Qed.

Lemma merge_ranges_spec ranges :
  Forall range_ok ranges ->
  let merged := merge_ranges ranges in
  Forall range_ok merged /\ StronglySorted separated merged /\ (length merged <= length ranges)%nat
  /\ forall a, (exists r, r ∈ merged /\ in_range r a) <-> (exists r, r ∈ ranges /\ in_range r a).
Proof.
  intros Hok merged. pose proof (merge_sort_Permutation range_le ranges) as Hp.
  destruct (merge_fold (merge_sort range_le ranges) [] []) as [Ho Hs Hi Hl].
  - by rewrite Hp.
  - apply StronglySorted_merge_sort; apply _.
  - apply Forall_forall. intros r _ p. done.
  - split; [constructor|constructor|done|done].
  - cbn [app] in *. unfold merged, merge_ranges. split; [by apply List.Forall_rev|].
    split; [by apply StronglySorted_rev in Hs|]. split; [rewrite length_rev; pose proof (Permutation_length Hp); lia|].
    intros a. setoid_rewrite elem_of_rev. rewrite Hi. by setoid_rewrite Hp.
Qed.

(** ** Blocks of a chain *)

Definition block_of (fam : Z) (b : Z * Z) : IpAddr * Z := (ip_of fam b.1, b.2).

Lemma ip_of_family fam x : fam = 4 \/ fam = 6 ->
  family_of (ip_of fam x) = fam /\ ip_value (ip_of fam x) = x /\ width (ip_of fam x) = bits_of fam.
Proof. by intros [-> | ->]. Qed.

Lemma family_is_ipv4 a b : is_ipv4 a = is_ipv4 b <-> family_of a = family_of b.
Proof. unfold family_of. by destruct (is_ipv4 a), (is_ipv4 b). Qed.

Lemma width_family a b : family_of a = family_of b -> width a = width b.
Proof. rewrite <-family_is_ipv4. unfold width. by intros ->. Qed.

Lemma bits_of_ip_ok fam x : fam = 4 \/ fam = 6 -> 0 <= x < 2 ^ bits_of fam -> Wire.ip_ok (ip_of fam x).
Proof. by intros [-> | ->]. Qed.

Section chain_blocks.
Context (fam end_ : Z) (Hfam : fam = 4 \/ fam = 6) (Hend : end_ < 2 ^ bits_of fam).

Lemma chain_start blocks start b :
  chain (bits_of fam) start end_ blocks -> b ∈ blocks ->
  start <= b.1 /\ b.1 + 2 ^ (bits_of fam - b.2) - 1 <= end_.
Proof.
  revert start. induction blocks as [|[a p] blocks IH]; intros start; [by intros _ ?%not_elem_of_nil|].
  cbn [chain]. intros (-> & Hp & Hd & He & Hc) [->|Hb]%elem_of_cons; [cbn; lia|].
  assert (0 < 2 ^ (bits_of fam - p)) by (apply Z.pow_pos_nonneg; lia).
  specialize (IH _ Hc Hb). lia.
Qed.

Lemma chain_blocks_ok blocks start :
  0 <= start -> chain (bits_of fam) start end_ blocks -> Forall block_ok (block_of fam <$> blocks).
Proof.
  revert start. induction blocks as [|[a p] blocks IH]; intros start Hs; cbn [chain fmap list_fmap]; [constructor|].
  intros (-> & Hp & Hd & He & Hc). assert (0 < 2 ^ (bits_of fam - p)) by (apply Z.pow_pos_nonneg; lia).
  constructor; [|apply (IH (start + 2 ^ (bits_of fam - p))); [lia|done]].
  destruct (ip_of_family fam start Hfam) as (_ & Ev & Ew). unfold block_ok, block_of. cbn [fst snd].
  rewrite Ew, Ev. split; [apply bits_of_ip_ok; [done|lia]|done].
Qed.

Lemma chain_sorted blocks start :
  chain (bits_of fam) start end_ blocks -> StronglySorted before (block_of fam <$> blocks).
Proof.
  revert start. induction blocks as [|[a p] blocks IH]; intros start; cbn [chain fmap list_fmap]; [constructor|].
  intros (-> & Hp & Hd & He & Hc). constructor; [by eapply IH|]. apply Forall_fmap, Forall_forall.
  intros b Hb. destruct (chain_start _ _ _ Hc Hb) as [Hl _]. right.
  destruct (ip_of_family fam start Hfam) as (Ef & Ev & Ew).
  destruct (ip_of_family fam b.1 Hfam) as (Ef' & Ev' & Ew'). unfold block_of. cbn.
  rewrite family_is_ipv4, Ef, Ef', Ev, Ev', Ew. done.
Qed.

Lemma in_block_of a x p : 0 <= p <= bits_of fam -> (2 ^ (bits_of fam - p) | x) ->
  in_block (block_of fam (x, p)) a
  <-> family_of a = fam /\ x <= ip_value a < x + 2 ^ (bits_of fam - p).
Proof.
  intros Hp Hd. destruct (ip_of_family fam x Hfam) as (Ef & Ev & Ew).
  unfold in_block, block_of. cbn. rewrite family_is_ipv4, Ef, Ev. split.
  - intros [Ea E]. rewrite (width_family a (ip_of fam x)), Ew, div_block in E by (congruence || lia || done).
    done.
  - intros [Ea E]. rewrite (width_family a (ip_of fam x)), Ew, div_block by (congruence || lia || done).
    done.
Qed.

Lemma chain_covers blocks start a :
  chain (bits_of fam) start end_ blocks -> start <= end_ + 1 ->
  (exists b, b ∈ block_of fam <$> blocks /\ in_block b a)
  <-> family_of a = fam /\ start <= ip_value a <= end_.
Proof.
  revert start. induction blocks as [|[x p] blocks IH]; intros start; cbn [chain fmap list_fmap].
  - intros -> _. split; [|lia]. by intros (b & ?%not_elem_of_nil & _).
  - intros (-> & Hp & Hd & He & Hc) Hs. setoid_rewrite elem_of_cons.
    specialize (IH _ Hc ltac:(lia)). pose proof (in_block_of a start p Hp Hd) as Hb.
    assert (0 < 2 ^ (bits_of fam - p)) by (apply Z.pow_pos_nonneg; lia). split.
    + intros (b & [->|Hin] & Hab); [apply Hb in Hab; lia|].
      destruct IH as [IH _]. destruct IH as [? ?]; [by exists b|]. lia.
    + intros [Ea Hr]. destruct (Z.lt_ge_cases (ip_value a) (start + 2 ^ (bits_of fam - p))) as [Hl|Hg].
      * eexists. split; [by left|]. apply Hb. lia.
      * destruct IH as [_ IH]. destruct IH as (b & Hin & Hab); [lia|]. exists b. auto.
Qed.
End chain_blocks.

(** ** Writing and reading a set *)


Definition render_block (b : IpAddr * Z) : text := render_prefix b.1 b.2.

Lemma range_to_prefixes_spec r :
  range_ok r ->
  exists blocks,
    range_to_prefixes (ip_of r.(family) r.(from)) (ip_of r.(family) r.(to))
      = Ok (render_block <$> (block_of r.(family) <$> blocks))
    /\ chain (bits_of r.(family)) r.(from) r.(to) blocks.
Proof.
  intros ([Ef|Ef] & Hr & Ht); rewrite Ef in *;
    change (bits_of 4) with 32 in *; change (bits_of 6) with 128 in *.
  - destruct (range_to_prefixes_inner_spec
      (fun value prefix => render_prefix (IpV4 (wrap32 value)) prefix) 32 r.(from) r.(to))
      as (blocks & E & Hc); [auto|done|done|].
    exists blocks. split; [|done]. unfold ip_of at 1 2. rewrite !decide_True by done. cbn [range_to_prefixes]. rewrite E. f_equal.
    rewrite <-list_fmap_compose. apply list_fmap_ext. intros i [x p] Hb.
    unfold render_block, block_of, ip_of, wrap32. cbn.
    pose proof (chain_start 4 r.(to) blocks r.(from) (x, p) Hc (list_elem_of_lookup_2 _ _ _ Hb)) as [Hx Hx'].
    pose proof (chain_blocks_ok 4 r.(to) ltac:(auto) Ht blocks r.(from) ltac:(lia) Hc) as Hok.
    rewrite Forall_fmap, Forall_forall in Hok.
    destruct (Hok (x, p) (list_elem_of_lookup_2 _ _ _ Hb)) as (Ho & _ & _). cbn in Ho.
    by rewrite Z.mod_small.
  - destruct (range_to_prefixes_inner_spec
      (fun value prefix => render_prefix (IpV6 value) prefix) 128 r.(from) r.(to))
      as (blocks & E & Hc); [auto|done|done|].
    exists blocks. split; [|done]. unfold ip_of at 1 2. rewrite !decide_False by done. cbn [range_to_prefixes]. rewrite E. f_equal.
    rewrite <-list_fmap_compose. apply list_fmap_ext. intros i [x p] Hb. done.
Qed.

(** A range of addresses of their width is split or refused; the loop ends. *)
Lemma range_to_prefixes_finishes a b :
  Wire.ip_ok a -> Wire.ip_ok b -> range_to_prefixes a b <> Err Unfinished.
Proof.
  intros Ha Hb. destruct a as [a|a], b as [b|b]; cbn [range_to_prefixes]; try discriminate.
  all: cbn in Ha, Hb; match goal with |- range_to_prefixes_inner _ _ ?bits ?render <> _ =>
         destruct (decide (a <= b)) as [Hle|Hgt];
         [destruct (range_to_prefixes_inner_spec render bits a b) as (blocks & -> & _); [auto|lia|lia|discriminate]
         |unfold range_to_prefixes_inner; rewrite decide_True by lia; discriminate]
       end.
Qed.

Lemma write_range_ok r :
  range_ok r ->
  write_range r = Ok (Wire.write_ip_address (ip_of r.(family) r.(from))
                      ++ Wire.write_ip_address (ip_of r.(family) r.(to))).
Proof.
  intros ([Ef|Ef] & Hr & Ht); unfold write_range, Wire.write_ip_addr; rewrite Ef in *.
  - rewrite !(decide_True (P := 4 = 4)) by done. rbind. unfold wrap32.
    change (bits_of 4) with 32 in Ht. by rewrite !Z.mod_small by lia.
  - rewrite !(decide_False (P := 6 = 4)), !(decide_True (P := 6 = 6)) by done. by rbind.
Qed.

Lemma reads_range r blocks :
  range_ok r ->
  range_to_prefixes (ip_of r.(family) r.(from)) (ip_of r.(family) r.(to)) = Ok blocks ->
  Wire.reads read_range (Wire.write_ip_address (ip_of r.(family) r.(from))
                         ++ Wire.write_ip_address (ip_of r.(family) r.(to))) blocks.
Proof.
  intros (Hf & Hr & Ht) E. unfold read_range.
  eapply Wire.reads_bind; [apply Wire.reads_ip_addr, bits_of_ip_ok; [done|lia]|].
  rewrite <-(app_nil_r (Wire.write_ip_address _)).
  eapply Wire.reads_bind; [apply Wire.reads_ip_addr, bits_of_ip_ok; [done|lia]|].
  rewrite E. apply Wire.reads_ret.
Qed.

(** Every range of a merged list is written, and read back as its blocks. *)
Lemma write_read_ranges ranges :
  Forall range_ok ranges -> StronglySorted separated ranges ->
  exists (w : list Z) (blocks : list (list (IpAddr * Z))), write_ranges ranges = Ok w
    /\ Wire.reads (Wire.read_many (length ranges) read_range) w ((fun l : list (IpAddr * Z) => render_block <$> l) <$> blocks)
    /\ Forall block_ok (concat blocks) /\ StronglySorted before (concat blocks)
    /\ (forall b, b ∈ concat blocks -> exists r, r ∈ ranges /\ r.(family) = family_of b.1
          /\ r.(from) <= ip_value b.1 /\ ip_value b.1 + 2 ^ (width b.1 - b.2) - 1 <= r.(to))
    /\ (forall a, (exists b, b ∈ concat blocks /\ in_block b a) <-> (exists r, r ∈ ranges /\ in_range r a)).
Proof.
  induction ranges as [|r ranges IH]; intros Hok Hs.
  - exists [], []. split; [done|]. split; [apply Wire.reads_ret|]. split; [constructor|].
    split; [constructor|]. split; [by intros b ?%not_elem_of_nil|]. intros a. set_solver.
  - apply Forall_cons in Hok as [Hr Hok]. apply StronglySorted_inv in Hs as [Hs Hsep].
    destruct (IH Hok Hs) as (w & blocks & Ew & Er & Hb & Hbs & Hin & Hcov).
    destruct (range_to_prefixes_spec r Hr) as (bs & E & Hc).
    pose proof Hr as (Hf & Hfr & Hto). cbn [write_ranges length Wire.read_many].
    rewrite write_range_ok by done. rbind. rewrite Ew. rbind.
    do 2 eexists. split; [done|]. split.
    { eapply Wire.reads_bind; [by apply reads_range|]. instantiate (1 := (_ :: blocks)).
      apply (Wire.reads_bind_ret _ (fun xs => (render_block <$> (block_of r.(family) <$> bs)) :: xs)), Er. }
    cbn [concat].
    assert (forall b, b ∈ block_of r.(family) <$> bs -> r.(family) = family_of b.1
      /\ r.(from) <= ip_value b.1 /\ ip_value b.1 + 2 ^ (width b.1 - b.2) - 1 <= r.(to)) as Hbs1.
    { intros b ([x p] & -> & Hxp)%list_elem_of_fmap. unfold block_of. cbn.
      destruct (ip_of_family r.(family) x Hf) as (-> & -> & ->).
      pose proof (chain_start _ _ _ _ _ Hc Hxp). done. }
    split; [apply Forall_app; split; [by eapply chain_blocks_ok; [..|exact Hc]; lia|done]|].
    split; [|split].
    + apply StronglySorted_app_2; [|by eapply chain_sorted|done].
      intros b c Hb1 Hc1. destruct (Hbs1 _ Hb1) as (Ef & _ & He).
      destruct (Hin _ Hc1) as (q & Hq & Eq & Hq1 & _). rewrite Forall_forall in Hsep.
      specialize (Hsep _ Hq). unfold separated in Hsep. unfold before. rewrite family_is_ipv4. lia.
    + intros b [Hb1|Hb1]%elem_of_app; [exists r; split; [by left|auto]|].
      destruct (Hin _ Hb1) as (q & Hq & ?). exists q. split; [by right|done].
    + intros a. specialize (Hcov a).
      pose proof (chain_covers r.(family) r.(to) Hf bs r.(from) a Hc ltac:(lia)) as Hca.
      assert ((exists b, b ∈ block_of r.(family) <$> bs /\ in_block b a) <-> in_range r a) as Hra
        by (rewrite Hca; unfold in_range; intuition congruence).
      rewrite exists_app, exists_cons. by rewrite Hra, Hcov.
Qed.

Section round_trip.
Context `{!IpNetOps} `{!IpNetLaws}.

(** The addresses of a prefix: those that share its first bits. *)
Definition in_net (n : IpNet) (a : IpAddr) : Prop := in_block (net_addr n, net_prefix_len n) a.

Lemma net_contains_in n a : Wire.ip_ok a -> net_contains n a = true <-> in_net n a.
Proof.
  intros Ha. rewrite net_contains_spec, bool_decide_eq_true by done.
  pose proof (net_network_spec n) as [_ Ev]. pose proof (net_broadcast_spec n) as [_ Evb].
  pose proof (net_len_ok n). unfold in_net, in_block. cbn [fst snd].
  set (k := width (net_addr n) - net_prefix_len n) in *. set (x := ip_value (net_addr n)) in *.
  set (q := ip_value (net_network n)) in *.
  assert (0 < 2 ^ k) by (apply Z.pow_pos_nonneg; lia).
  assert (2 ^ k | q) as Hd by (exists (x / 2 ^ k); pose proof (Z.div_mod x (2 ^ k)); lia).
  assert (x / 2 ^ k = q / 2 ^ k) as Ex
    by (apply div_block; [lia|done|]; pose proof (Z.mod_pos_bound x (2 ^ k)); lia).
  split; intros [Ef Hr]; (split; [done|]).
  - assert (width a = width (net_addr n)) as -> by (unfold width; by rewrite Ef). fold k. rewrite Ex.
    apply div_block; [lia|done|lia].
  - assert (width a = width (net_addr n)) as Ew by (unfold width; by rewrite Ef).
    rewrite Ew in Hr. fold k in Hr. rewrite Ex in Hr. apply div_block in Hr; [lia|lia|done].
Qed.

Lemma parse_ip_range_spec value n :
  parse_prefix value = Some n ->
  exists r, parse_ip_range value = Some r /\ range_ok r /\ forall a, in_range r a <-> in_net n a.
Proof.
  intros E. unfold parse_ip_range. rewrite E. cbn [mbind option_bind].
  pose proof (net_addr_ok n) as Ha. pose proof (net_len_ok n) as Hl.
  pose proof (net_network_spec n) as [En Ev]. pose proof (net_broadcast_spec n) as [Eb Evb].
  set (k := width (net_addr n) - net_prefix_len n) in *.
  set (x := ip_value (net_addr n)) in *. set (q := ip_value (net_network n)) in *.
  assert (0 < 2 ^ k) by (apply Z.pow_pos_nonneg; lia).
  assert (2 ^ k | q) as Hd.
  { exists (x / 2 ^ k). pose proof (Z.div_mod x (2 ^ k)). lia. }
  assert (x / 2 ^ k = q / 2 ^ k) as Ex.
  { apply div_block; [lia|done|]. pose proof (Z.mod_pos_bound x (2 ^ k)). lia. }
  assert (0 <= x < 2 ^ width (net_addr n)) as Hx by (unfold x; by destruct (net_addr n)).
  assert (0 <= q /\ q + 2 ^ k <= 2 ^ width (net_addr n)) as [Hq Hq2].
  { assert (2 ^ width (net_addr n) = 2 ^ net_prefix_len n * 2 ^ k) as Ew
      by (rewrite <-Z.pow_add_r by lia; f_equal; lia).
    destruct Hd as [m Em]. rewrite Ew in *. pose proof (Z.mod_pos_bound x (2 ^ k) ltac:(done)).
    pose proof (Z.mod_le x (2 ^ k) ltac:(lia) ltac:(done)).
    assert (m < 2 ^ net_prefix_len n) by (apply (Z.mul_lt_mono_pos_r (2 ^ k)); lia).
    pose proof (Z.mul_le_mono_nonneg_r (m + 1) (2 ^ net_prefix_len n) (2 ^ k)). lia. }
  exists {| family := family_of (net_addr n); from := q; to := q + 2 ^ k - 1 |}.
  split; [|split].
  - f_equal. destruct (net_addr n) as [y|y] eqn:Ey; unfold family_of; cbn [is_ipv4]; f_equal; [lia|].
    change (width (IpV6 y)) with 128 in *. replace (128 - net_prefix_len n) with k by lia.
    case_decide as Ek.
    + rewrite Ek in *. unfold U128_MAX. lia.
    + rewrite Z.shiftl_1_l. destruct Hd as [m Em]. rewrite Em, <-Z.shiftl_mul_pow2 by lia.
      rewrite lor_shiftl_add by lia. rewrite Z.shiftl_mul_pow2 by lia. lia.
  - unfold range_ok. cbn [family from to]. split; [unfold family_of; destruct (is_ipv4 (net_addr n)); auto|].
    assert (bits_of (family_of (net_addr n)) = width (net_addr n)) as ->
      by (unfold family_of, width; by destruct (is_ipv4 (net_addr n))). lia.
  - intros a. unfold in_range, in_net, in_block. cbn. rewrite family_is_ipv4. split.
    + intros [Ef Hr]. split; [done|]. rewrite (width_family a (net_addr n)) by done. fold k x. rewrite Ex.
      apply div_block; [lia|done|lia].
    + intros [Ef Hr]. split; [done|]. rewrite (width_family a (net_addr n)) in Hr by done. fold k x in Hr.
      rewrite Ex in Hr. apply div_block in Hr; [lia|lia|done].
Qed.

Lemma parse_ranges prefixes nets :
  mapM parse_prefix prefixes = Some nets ->
  exists ranges, mapM parse_ip_range prefixes = Some ranges /\ Forall range_ok ranges
    /\ length ranges = length prefixes
    /\ forall a, (exists r, r ∈ ranges /\ in_range r a) <-> (exists n, n ∈ nets /\ in_net n a).
Proof.
  revert nets. induction prefixes as [|p prefixes IH]; intros nets; cbn.
  - intros [= <-]. exists []. repeat split; [constructor| |]; intros (? & ?%not_elem_of_nil & _); done.
  - intros (n & En & (nets' & Em & [= <-])%bind_Some)%bind_Some.
    destruct (parse_ip_range_spec p n En) as (r & -> & Hr & Hin).
    destruct (IH nets' Em) as (ranges & E & Hok & Hlen & Hcov). cbn. rewrite E. cbn.
    exists (r :: ranges). split; [done|]. split; [by constructor|]. split; [cbn; lia|].
    intros a. rewrite !exists_cons. by rewrite Hin, Hcov.
Qed.

Lemma write_read_ip_set (item : Z) (prefixes : list text) (nets : list IpNet) :
  prefixes <> [] -> mapM parse_prefix prefixes = Some nets ->
  Z.of_nat (length prefixes) <= MAX_COLLECTION_LENGTH ->
  exists body blocks, write_optional_ip_set item prefixes = Ok (item :: body)
    /\ Wire.reads read_ip_set body (render_block <$> blocks)
    /\ Forall block_ok blocks /\ StronglySorted before blocks
    /\ forall a, (exists b, b ∈ blocks /\ in_block b a) <-> (exists n, n ∈ nets /\ in_net n a).
Proof.
  intros Hne Hp Hlen. destruct (parse_ranges _ _ Hp) as (ranges & Er & Hok & Hl & Hcov).
  destruct (merge_ranges_spec ranges Hok) as (Hmok & Hms & Hml & Hmi).
  destruct (write_read_ranges _ Hmok Hms) as (w & blocks & Ew & Hr & Hb & Hs & _ & Hbc).
  unfold MAX_COLLECTION_LENGTH in Hlen.
  exists ([1] ++ to_be_bytes 8 (Z.of_nat (length (merge_ranges ranges))) ++ w), (concat blocks).
  split; [|split; [|split; [done|split; [done|]]]].
  - unfold write_optional_ip_set. rewrite decide_False by done. rewrite Er, Ew. done.
  - unfold read_ip_set. eapply Wire.reads_bind; [apply Wire.reads_u8|]. rewrite decide_False by lia.
    eapply Wire.reads_bind; [apply (Wire.reads_be 8); cbn; lia|].
    unfold MAX_COLLECTION_LENGTH. rewrite decide_False by lia. rewrite Nat2Z.id.
    replace (render_block <$> concat blocks)
      with (concat ((fun l : list (IpAddr * Z) => render_block <$> l) <$> blocks))
      by (symmetry; apply concat_map).
    by apply (Wire.reads_bind_ret _ (@concat text)).
  - intros a. by rewrite Hbc, Hmi, Hcov.
Qed.

(** C24: The address set of a compiled rule-set holds exactly the addresses of
    the source.  Every prefix of a field is parsed, the ranges are written
    after the number of the field, and reading them back gives prefixes that
    start at their network address, are sorted and share no address, and
    cover an address exactly when a prefix of the source does. *)
Theorem ip_set_covers (item : Z) (prefixes : list text) (nets : list IpNet) :
  prefixes <> [] -> mapM parse_prefix prefixes = Some nets ->
  Z.of_nat (length prefixes) <= MAX_COLLECTION_LENGTH ->
  exists body blocks, write_optional_ip_set item prefixes = Ok (item :: body)
    /\ Wire.reads read_ip_set body (render_block <$> blocks)
    /\ Forall block_ok blocks /\ StronglySorted before blocks
    /\ forall a, (exists b, b ∈ blocks /\ in_block b a) <-> (exists n, n ∈ nets /\ in_net n a).
Proof. apply write_read_ip_set. Qed.

End round_trip.

(** A library of prefixes: a pair of an address and a length, both cut to
    their ranges; the parser reads [address/length]. *)
Module Example.

Definition cut (a : IpAddr) : IpAddr :=
  match a with IpV4 x => IpV4 (x mod 2 ^ 32) | IpV6 x => IpV6 (x mod 2 ^ 128) end.
Definition len (n : IpAddr * Z) : Z := 0 `max` (n.2 `min` width n.1).
Definition net (n : IpAddr * Z) : Z := ip_value (cut n.1) - ip_value (cut n.1) mod 2 ^ (width n.1 - len n).

#[global] Instance ops : IpNetOps := {|
  IpNet := IpAddr * Z;
  net_parse s :=
    '(a, s) ← IpText.read_ip_addr s;
    '(_, s) ← IpText.read_given_char IpText.SLASH s;
    '(p, s) ← IpText.read_number 10 3 false (width a) s;
    if decide (s = []) then Some (a, p) else None;
  net_new a p := Some (a, p);
  net_addr n := cut n.1;
  net_prefix_len := len;
  net_network n := ip_of (family_of n.1) (net n);
  net_broadcast n := ip_of (family_of n.1) (net n + 2 ^ (width n.1 - len n) - 1);
  net_contains n a := bool_decide (is_ipv4 a = is_ipv4 n.1
    /\ net n <= ip_value a <= net n + 2 ^ (width n.1 - len n) - 1);
|}.

#[global] Instance laws : IpNetLaws.
Proof.
  split; cbn.
  - intros [[x|x] p]; apply Z.mod_pos_bound; lia.
  - intros [[x|x] p]; unfold len; cbn [fst snd width is_ipv4]; unfold width; cbn; lia.
  - by intros [[x|x] p].
  - by intros [[x|x] p].
  - intros a p Ha Hp. exists (a, p). cbn. split; [done|]. split; [|unfold len; cbn [fst snd]; lia].
    destruct a; cbn in *; by rewrite Z.mod_small.
  - by intros [[x|x] p].
Qed.

Lemma cut_ok a : Wire.ip_ok a -> cut a = a.
Proof. destruct a; cbn; intros; f_equal; by apply Z.mod_small. Qed.

#[global] Instance text_laws : IpNetTextLaws.
Proof.
  intros a p Ha Hp. assert (0 <= p <= 128) by (destruct a; cbn in Hp; lia).
  exists (a, p). cbn [net_addr net_prefix_len ops fst]. rewrite cut_ok by done.
  split; [|split; [done|unfold len; cbn [fst snd]; lia]].
  cbn [net_parse ops]. rewrite IpText.read_ip_addr_display; [|by destruct a| |].
  - cbn [mbind option_bind app]. rewrite IpText.read_given_char_same. cbn [mbind option_bind].
    rewrite <-(app_nil_r (IpText.decimal p)).
    rewrite (IpText.read_number_printed 10) by (done || lia || (cbn; lia)). done.
  - split; [by intros b [= <-]|]. by intros [= ?].
  - cbn. intros [?|Hd]%elem_of_cons; [done|].
    assert (Forall IpText.is_alnum (IpText.decimal p)) as Hf by (apply IpText.digits_alnum; lia).
    rewrite Forall_forall in Hf. specialize (Hf _ Hd). unfold IpText.is_alnum, DOT in Hf. lia.
Qed.

(** [10.0.0.1/9], [10.128.0.0/9] and [192.0.2.7]. *)
Definition prefixes : list text :=
  [[49;48;46;48;46;48;46;49;47;57]; [49;48;46;49;50;56;46;48;46;48;47;57];
   [49;57;50;46;48;46;50;46;55]].

End Example.

Lemma ip_set_covers_witness :
  exists body blocks, write_optional_ip_set 4 Example.prefixes = Ok (4 :: body)
    /\ Wire.reads read_ip_set body (render_block <$> blocks)
    /\ (exists b, b ∈ blocks /\ in_block b (IpV4 (10 * 2 ^ 24 + 5))).
Proof.
  destruct (@ip_set_covers Example.ops Example.laws 4 Example.prefixes
    [(IpV4 (10 * 2 ^ 24 + 1), 9); (IpV4 (10 * 2 ^ 24 + 2 ^ 23), 9); (IpV4 (192 * 2 ^ 24 + 519), 32)])
    as (body & blocks & Ew & Er & _ & _ & Hc).
  - done.
  - by vm_compute.
  - by vm_compute.
  - exists body, blocks. split; [done|]. split; [done|]. apply Hc. eexists. split; [left|].
    split; reflexivity.
Defined.

End IpSet.
