(* ===== verification/SocksAddr.v ===== *)
(** * Destinations

    [SocksAddr] of [common/network.rs]: the destination of a connection, an
    address or a domain with a port, with its text form. *)

From stdpp Require Import base numbers list sets.
From Stdlib Require Import ZArith Lia.
From S2P Require Import Prelude Text IpText SrsWire.

Local Open Scope Z_scope.

Inductive Network : Type := Tcp | Udp | Icmp.

Global Instance Network_eq_dec : EqDecision Network.
Proof. solve_decision. Defined.

(** [std::net::SocketAddr] without the flow label of an IPv6 address, which
    no text and no constructor of the program sets. *)
Record SocketAddr : Type := { ip : IpAddr; sa_port : Z; scope_id : Z }.

Global Instance SocketAddr_eq_dec : EqDecision SocketAddr.
Proof. solve_decision. Defined.

Inductive SocksAddr : Type :=
| Ip (address : SocketAddr)
| Domain (host : text) (port : Z).

Global Instance SocksAddr_eq_dec : EqDecision SocksAddr.
Proof. solve_decision. Defined.

Inductive SocksError : Type := MissingPort | EmptyHost | InvalidPort.

Module Socks.

Definition as_str (n : Network) : text :=
  match n with
  | Tcp => [116; 99; 112]
  | Udp => [117; 100; 112]
  | Icmp => [105; 99; 109; 112]
  end.

(** The classes of addresses of [std::net]. *)
Definition v4_in (a network bits : Z) : bool :=
  bool_decide (Z.shiftr a (32 - bits) = Z.shiftr network (32 - bits)).
Definition v6_in (a network bits : Z) : bool :=
  bool_decide (Z.shiftr a (128 - bits) = Z.shiftr network (128 - bits)).

Definition v4 (a b c d : Z) : Z := from_be_bytes [a; b; c; d].

Definition is_private_v4 (a : Z) : bool :=
  v4_in a (v4 10 0 0 0) 8 || v4_in a (v4 172 16 0 0) 12 || v4_in a (v4 192 168 0 0) 16.
Definition is_loopback_v4 (a : Z) : bool := v4_in a (v4 127 0 0 0) 8.
Definition is_multicast_v4 (a : Z) : bool := v4_in a (v4 224 0 0 0) 4.
Definition is_link_local_v4 (a : Z) : bool := v4_in a (v4 169 254 0 0) 16.
Definition is_unspecified (a : Z) : bool := bool_decide (a = 0).

Definition is_unique_local_v6 (a : Z) : bool := v6_in a (Z.shiftl 64512 112) 7.
Definition is_loopback_v6 (a : Z) : bool := bool_decide (a = 1).
Definition is_multicast_v6 (a : Z) : bool := v6_in a (Z.shiftl 65280 112) 8.
Definition is_unicast_link_local_v6 (a : Z) : bool := v6_in a (Z.shiftl 65152 112) 10.

Definition is_private_address (address : IpAddr) : bool :=
  match address with
  | IpV4 a => is_private_v4 a || is_loopback_v4 a || is_multicast_v4 a || is_link_local_v4 a || is_unspecified a
  | IpV6 a => is_unique_local_v6 a || is_loopback_v6 a || is_multicast_v6 a
              || is_unicast_link_local_v6 a || is_unspecified a
  end.

Definition new (host : text) (port : Z) : SocksAddr :=
  match IpText.parse_ip host with
  | Some address => Ip {| ip := address; sa_port := port; scope_id := 0 |}
  | None => Domain host port
  end.

Definition host (a : SocksAddr) : text :=
  match a with
  | Ip address => IpText.display_ip address.(ip)
  | Domain host _ => host
  end.

Definition port (a : SocksAddr) : Z :=
  match a with
  | Ip address => address.(sa_port)
  | Domain _ port => port
  end.

Definition is_domain (a : SocksAddr) : bool :=
  match a with Ip _ => false | Domain _ _ => true end.

(** ** Text *)

Definition OPEN : Z := 91.
Definition CLOSE : Z := 93.
Definition PERCENT : Z := 37.
Definition PLUS : Z := 43.

Definition display_socket (a : SocketAddr) : text :=
  match a.(ip) with
  | IpV4 x => IpText.display_v4 x ++ [IpText.COLON] ++ IpText.decimal a.(sa_port)
  | IpV6 x =>
      [OPEN] ++ IpText.display_v6 x
      ++ (if decide (a.(scope_id) = 0) then [] else [PERCENT] ++ IpText.decimal a.(scope_id))
      ++ [CLOSE; IpText.COLON] ++ IpText.decimal a.(sa_port)
  end.

Definition display (a : SocksAddr) : text :=
  match a with
  | Ip address => display_socket address
  | Domain host port => host ++ [IpText.COLON] ++ IpText.decimal port
  end.

(** [read_number] of the parser of [std::net] without a bound on the digits:
    a number up to [max], leading zeros included. *)
Definition read_unbounded (max : Z) : IpText.parser Z := fun s =>
  let '(result, count, rest) := IpText.read_digits 10 0 0 s in
  if decide (count = 0)%nat then None
  else if decide (result <= max) then Some (result, rest) else None.

Definition read_port : IpText.parser Z := fun s =>
  '(_, s) ← IpText.read_given_char IpText.COLON s; read_unbounded 65535 s.

Definition read_scope_id : IpText.parser Z := fun s =>
  '(_, s) ← IpText.read_given_char PERCENT s; read_unbounded (2 ^ 32 - 1) s.

Definition read_socket_addr_v4 : IpText.parser SocketAddr := fun s =>
  '(a, s) ← IpText.read_ipv4_addr s;
  '(p, s) ← read_port s;
  Some ({| ip := IpV4 a; sa_port := p; scope_id := 0 |}, s).

Definition read_socket_addr_v6 : IpText.parser SocketAddr := fun s =>
  '(_, s) ← IpText.read_given_char OPEN s;
  '(a, s) ← IpText.read_ipv6_addr s;
  let '(scope, s) := default (0, s) (read_scope_id s) in
  '(_, s) ← IpText.read_given_char CLOSE s;
  '(p, s) ← read_port s;
  Some ({| ip := IpV6 a; sa_port := p; scope_id := scope |}, s).

Definition parse_socket (s : text) : option SocketAddr :=
  IpText.parse_with (fun s => match read_socket_addr_v4 s with
                              | Some r => Some r
                              | None => read_socket_addr_v6 s
                              end) s.

(** [u16::from_str]: digits after an optional sign. *)
Definition parse_u16 (s : text) : option Z :=
  let s := match s with b :: s' => if decide (b = PLUS) then s' else s | [] => s end in
  '(x, rest) ← read_unbounded 65535 s;
  if decide (rest = []) then Some x else None.

(** [str::rsplit_once]: the text before and after the last byte [c]. *)
Fixpoint rsplit_once (c : Z) (s : text) : option (text * text) :=
  match s with
  | [] => None
  | b :: s =>
      match rsplit_once c s with
      | Some (x, y) => Some (b :: x, y)
      | None => if decide (b = c) then Some ([], s) else None
      end
  end.

Definition unbracket (host : text) : text :=
  default host (inner ← strip_prefix [OPEN] host; strip_suffix [CLOSE] inner).

Definition from_str (value : text) : result SocksError SocksAddr :=
  match parse_socket value with
  | Some address => Ok (Ip address)
  | None =>
      match rsplit_once IpText.COLON value with
      | None => Err MissingPort
      | Some (host, port) =>
          let host := unbracket host in
          if decide (host = []) then Err EmptyHost
          else match parse_u16 port with
               | None => Err InvalidPort
               | Some port => Ok (new host port)
               end
      end
  end.

(** ** The parsers *)

Import IpText.

Lemma read_digits_nonneg radix acc count s :
  2 <= radix -> 0 <= acc -> 0 <= (read_digits radix acc count s).1.1.
Proof.
  intros Hr. revert acc count. induction s as [|b s IH]; intros acc count Ha; cbn; [done|].
  destruct (to_digit radix b) as [d|] eqn:E; [|done]. apply IH.
  assert (0 <= d); [|nia]. unfold to_digit in E. repeat case_decide; simplify_eq; lia.
Qed.

Lemma read_number_bound radix max_digits allow max s x rest :
  2 <= radix -> read_number radix max_digits allow max s = Some (x, rest) -> 0 <= x <= max.
Proof.
  intros Hr. unfold read_number. pose proof (read_digits_nonneg radix 0 0 s Hr ltac:(done)) as Hn.
  destruct (read_digits radix 0 0 s) as [[v n] r]. cbn in Hn.
  repeat case_decide; try done; destruct (_ && _); try done; intros [= <- _]; lia.
Qed.

Lemma read_separator_inv {A} c index (p : parser A) s x :
  read_separator c index p s = Some x -> exists s', s' `suffix_of` s /\ p s' = Some x.
Proof.
  destruct index; cbn; [by exists s|]. destruct s as [|b s]; [done|]. cbn. case_decide; [|done].
  cbn. intros E. exists s. split; [by apply suffix_cons_r|done].
Qed.

Lemma read_octets_ok steps index s l rest :
  read_octets steps index s = Some (l, rest) -> bytes_ok l /\ length l = steps.
Proof.
  revert index s l. induction steps as [|steps IH]; intros index s l; cbn [read_octets].
  { intros [= <- _]. by split; [constructor|]. }
  intros ([x s1] & Ex & ([l1 s2] & El & [= <- <-])%bind_Some)%bind_Some.
  apply read_separator_inv in Ex as (s' & _ & Ex). apply read_number_bound in Ex; [|lia].
  apply IH in El as [Hl Hn]. split; [constructor; [ilia|done]|cbn; lia].
Qed.

Lemma read_ipv4_addr_ok s a rest : read_ipv4_addr s = Some (a, rest) -> 0 <= a < 2 ^ 32.
Proof.
  unfold read_ipv4_addr. intros ([l s1] & (Hl & Hn)%read_octets_ok & [= <- _])%bind_Some.
  pose proof (from_be_bytes_bound l Hl) as Hb. by rewrite Hn in Hb.
Qed.

Lemma read_groups_ok steps index s : Forall group_ok (read_groups steps index s).1.1.
Proof.
  revert index s. induction steps as [|steps IH]; intros index s; cbn [read_groups]; [constructor|].
  destruct (match steps with O => None | S _ => read_separator COLON index read_ipv4_addr s end)
    as [[a r]|] eqn:E.
  - destruct steps; [done|]. apply read_separator_inv in E as (s' & _ & E). apply read_ipv4_addr_ok in E.
    cbn. unfold group_ok. rewrite Z.shiftr_div_pow2, (Z.land_ones _ 16) by lia.
    pose proof (Z.mod_pos_bound a (2 ^ 16)). pose proof (Z.div_pos a (2 ^ 16)).
    pose proof (Z.div_lt_upper_bound a (2 ^ 16) (2 ^ 16)). repeat constructor; lia.
  - destruct (read_separator COLON index (read_number 16 4 true 65535) s) as [[g r]|] eqn:Eg; [|constructor].
    apply read_separator_inv in Eg as (s' & _ & Eg). apply read_number_bound in Eg; [|lia].
    specialize (IH (S index) r). destruct (read_groups steps (S index) r) as [[l v] r']. by constructor.
Qed.

Lemma read_groups_length steps index s : (length (read_groups steps index s).1.1 <= steps)%nat.
Proof.
  revert index s. induction steps as [|steps IH]; intros index s; cbn [read_groups]; [done|].
  destruct (match steps with O => None | S _ => read_separator COLON index read_ipv4_addr s end)
    as [[a r]|] eqn:E.
  - destruct steps; [done|]. cbn. lia.
  - destruct (read_separator COLON index (read_number 16 4 true 65535) s) as [[g r]|]; [|cbn; lia].
    specialize (IH (S index) r). destruct (read_groups steps (S index) r) as [[l v] r']. cbn in *. lia.
Qed.

Lemma of_segments_bound l :
  Forall group_ok l -> 0 <= of_segments l < 2 ^ (16 * Z.of_nat (length l)).
Proof.
  unfold of_segments. induction l as [|g l IH] using rev_ind; [done|].
  intros [Hl [Hg _]%Forall_cons]%Forall_app. specialize (IH Hl). rewrite foldl_app, length_app. cbn [foldl length].
  set (x := foldl _ 0 l) in *. unfold group_ok in Hg. rewrite lor_shiftl_add by lia.
  replace (16 * Z.of_nat (length l + 1)) with (16 * Z.of_nat (length l) + 16) by lia.
  rewrite Z.pow_add_r by lia. lia.
Qed.

Lemma read_ipv6_addr_ok s a rest : read_ipv6_addr s = Some (a, rest) -> 0 <= a < 2 ^ 128.
Proof.
  unfold read_ipv6_addr. pose proof (read_groups_ok 8 0 s) as Hf. pose proof (read_groups_length 8 0 s) as Hlf.
  destruct (read_groups 8 0 s) as [[front v] s1]. cbn in Hf, Hlf. case_decide as E8.
  - intros [= <- _]. pose proof (of_segments_bound front Hf) as Hb. by rewrite E8 in Hb.
  - destruct v; [done|]. intros ([[] s2] & _ & ([[] s3] & _ & E)%bind_Some)%bind_Some.
    pose proof (read_groups_ok (8 - (length front + 1)) 0 s3) as Hb.
    pose proof (read_groups_length (8 - (length front + 1)) 0 s3) as Hlb.
    destruct (read_groups _ 0 s3) as [[back v] s4]. cbn in Hb, Hlb. injection E as <- <-.
    pose proof (of_segments_bound (front ++ replicate (8 - length front - length back) 0 ++ back)) as Ho.
    rewrite !length_app, length_replicate in Ho.
    replace (length front + (8 - length front - length back + length back))%nat with 8%nat in Ho by lia.
    apply Ho. rewrite !Forall_app. split; [done|]. split; [|done]. apply Forall_replicate. unfold group_ok. lia.
Qed.

Lemma parse_ip_ok s a : parse_ip s = Some a -> Wire.ip_ok a.
Proof.
  unfold parse_ip, parse_with, read_ip_addr. destruct (read_ipv4_addr s) as [[x r]|] eqn:E.
  - cbn. case_decide; [|done]. intros [= <-]. by apply read_ipv4_addr_ok in E.
  - destruct (read_ipv6_addr s) as [[x r]|] eqn:E6; [|done]. cbn. case_decide; [|done].
    intros [= <-]. by apply read_ipv6_addr_ok in E6.
Qed.

Lemma parse_display a : Wire.ip_ok a -> parse_ip (display_ip a) = Some a.
Proof. intros Ha. apply parse_ip_display. by destruct a. Qed.

(** A destination built from the host of another one is that one, with the new port. *)
Lemma new_host_new h p q : new (host (new h p)) q = new h q.
Proof.
  unfold new. destruct (parse_ip h) as [a|] eqn:E; cbn; [|by rewrite E].
  by rewrite parse_display by by eapply parse_ip_ok.
Qed.

Lemma port_new h p : port (new h p) = p.
Proof. unfold new. by destruct (parse_ip h). Qed.

(** ** Texts of destinations *)

Lemma read_unbounded_printed max x rest :
  0 <= x <= max -> max < 10 ^ 19 -> number_end 10 rest -> read_unbounded max (decimal x ++ rest) = Some (x, rest).
Proof.
  intros Hx Hmax Hr. unfold read_unbounded, decimal.
  destruct (read_digits_digits 10 20 x 20) as (n & En & Hn); [lia|split; [lia|]|lia|].
  { change (Z.of_nat 20) with 20. lia. }
  rewrite (read_digits_app _ _ _ _ _ _ _ En), read_digits_end by done.
  rewrite decide_False, decide_True by lia. done.
Qed.

Lemma read_port_printed p : is_u16 p -> read_port (COLON :: decimal p) = Some (p, []).
Proof.
  intros Hp. unfold read_port. rewrite read_given_char_same. cbn [mbind option_bind].
  rewrite <-(app_nil_r (decimal p)). apply read_unbounded_printed; [ilia|lia|done].
Qed.

(** The digits at the head of a text. *)
Lemma read_digits_local radix acc count s v n r :
  read_digits radix acc count s = (v, n, r) ->
  exists pre, s = pre ++ r /\ Forall (fun b => to_digit radix b <> None) pre /\ (n = count + length pre)%nat
    /\ forall t, number_end radix t -> read_digits radix acc count (pre ++ t) = (v, n, t).
Proof.
  revert acc count. induction s as [|b s IH]; intros acc count; cbn [read_digits].
  - intros [= <- <- <-]. exists []. split; [done|]. split; [constructor|]. split; [cbn; lia|].
    intros t Ht. by apply read_digits_end.
  - destruct (to_digit radix b) as [d|] eqn:E.
    + intros (pre & -> & Hp & Hn & Ht)%IH. exists (b :: pre). split; [done|].
      split; [constructor; [by rewrite E|done]|]. split; [cbn; lia|].
      intros t Hend. cbn [app read_digits]. rewrite E. auto.
    + intros [= <- <- <-]. exists []. split; [done|]. split; [constructor|]. split; [cbn; lia|].
      intros t Ht. by apply read_digits_end.
Qed.

Lemma digit_colon l : Forall (fun b => to_digit 10 b <> None) l -> COLON ∉ l.
Proof. intros Hl Hin. rewrite Forall_forall in Hl. by apply (Hl _ Hin). Qed.

Lemma read_octet_local s x r :
  read_number 10 3 false 255 s = Some (x, r) ->
  exists pre, s = pre ++ r /\ COLON ∉ pre
    /\ forall t, number_end 10 t -> read_number 10 3 false 255 (pre ++ t) = Some (x, t).
Proof.
  unfold read_number. destruct (read_digits 10 0 0 s) as [[v n] r'] eqn:E.
  apply read_digits_local in E as (pre & -> & Hp & -> & Ht). cbn [Nat.add].
  destruct (decide (3 < length pre)%nat); [done|]. destruct (decide (length pre = 0)%nat); [done|].
  destruct pre as [|b pre]; [done|]. cbn [app head]. intros E.
  assert (r' = r) as -> by (destruct (_ && _); [done|]; case_decide; by simplify_eq).
  exists (b :: pre). split; [done|]. split; [by apply digit_colon|]. intros t Hend. cbn [app].
  specialize (Ht t Hend). cbn [app] in Ht. rewrite Ht. rewrite !decide_False by done.
  cbn [head]. destruct (_ && _); [done|]. case_decide; by simplify_eq.
Qed.

Lemma read_octets_local steps index s l r :
  read_octets steps index s = Some (l, r) ->
  exists pre, s = pre ++ r /\ COLON ∉ pre
    /\ ((0 < index)%nat -> forall t, number_end 10 t -> number_end 10 (pre ++ t))
    /\ forall t, number_end 10 t -> read_octets steps index (pre ++ t) = Some (l, t).
Proof.
  revert index s l. induction steps as [|steps IH]; intros index s l; cbn [read_octets].
  { intros [= <- <-]. exists []. split; [done|]. split; [apply not_elem_of_nil|]. done. }
  intros ([x s1] & Ex & ([l1 s2] & El & [= <- <-])%bind_Some)%bind_Some.
  apply IH in El as (pre2 & -> & Hc2 & Hn2 & Ht2). specialize (Hn2 ltac:(lia)).
  destruct index as [|index]; cbn [read_separator] in Ex |- *.
  - apply read_octet_local in Ex as (pre1 & -> & Hc1 & Ht1). exists (pre1 ++ pre2).
    rewrite <-app_assoc. split; [done|]. split; [by rewrite not_elem_of_app|]. split; [lia|].
    intros t Ht. rewrite <-app_assoc, Ht1 by auto. cbn [mbind option_bind]. by rewrite Ht2.
  - destruct s as [|b s]; [done|]. cbn in Ex. case_decide; [|done]. subst b. cbn in Ex.
    apply read_octet_local in Ex as (pre1 & -> & Hc1 & Ht1). exists (DOT :: pre1 ++ pre2).
    cbn [app]. rewrite <-app_assoc. split; [done|].
    split; [rewrite not_elem_of_cons, not_elem_of_app; done|]. split; [intros; apply number_end_dot|].
    intros t Ht. rewrite read_given_char_same. cbn [mbind option_bind].
    rewrite <-app_assoc, Ht1 by auto. cbn [mbind option_bind]. by rewrite Ht2.
Qed.

Lemma colon_split (a b c d : text) :
  COLON ∉ b -> COLON ∉ d -> a ++ COLON :: b = c ++ COLON :: d -> a = c.
Proof.
  intros Hb Hd. revert c. induction a as [|x a IH]; intros [|y c] E; simplify_eq/=; [done| | |].
  - exfalso. apply Hb. set_solver.
  - exfalso. apply Hd. set_solver.
  - f_equal. by apply IH.
Qed.

Lemma decimal_colon x : 0 <= x -> COLON ∉ decimal x.
Proof.
  intros Hx Hin. pose proof (digits_alnum 10 20 x ltac:(lia) Hx) as Ha. rewrite Forall_forall in Ha.
  specialize (Ha _ Hin). unfold is_alnum, COLON in Ha. lia.
Qed.

(** A host that is no address is not read as one before its port. *)
Lemma parse_socket_domain h p :
  parse_ip h = None -> h <> [] -> head h <> Some OPEN -> is_u16 p -> parse_socket (h ++ [COLON] ++ decimal p) = None.
Proof.
  intros Hh Hne Ho Hp. unfold parse_socket, parse_with.
  assert (read_socket_addr_v6 (h ++ [COLON] ++ decimal p) = None) as ->.
  { destruct h as [|b h]; [done|]. unfold read_socket_addr_v6. cbn. rewrite decide_False; [done|].
    by intros ->. }
  destruct (read_socket_addr_v4 _) as [[a rest]|] eqn:E; [|done]. cbn. case_decide; [|done]. subst rest.
  exfalso. unfold read_socket_addr_v4 in E.
  apply bind_Some in E as ([x s1] & Ex & ([q s2] & Eq & [= _ ->])%bind_Some).
  unfold read_ipv4_addr in Ex. apply bind_Some in Ex as ([l s1'] & El & [= _ ->]).
  apply read_octets_local in El as (pre & Es & Hc & _ & Ht).
  destruct s1 as [|b s1]; [done|]. unfold read_port in Eq. cbn in Eq. case_decide; [|done]. subst b.
  cbn in Eq. unfold read_unbounded in Eq. destruct (read_digits 10 0 0 s1) as [[v n] r] eqn:Ed.
  repeat case_decide; try done. injection Eq as -> ->.
  apply read_digits_local in Ed as (ds & -> & Hds & _ & _). rewrite app_nil_r in Es.
  apply colon_split in Es as ->; [|by apply decimal_colon; apply Hp|by apply digit_colon].
  specialize (Ht [] (number_end_nil 10)). rewrite app_nil_r in Ht.
  unfold parse_ip, parse_with, read_ip_addr, read_ipv4_addr in Hh. rewrite Ht in Hh. done.
Qed.

Lemma rsplit_once_last a b : COLON ∉ b -> rsplit_once COLON (a ++ COLON :: b) = Some (a, b).
Proof.
  intros Hb. induction a as [|x a IH]; cbn [app rsplit_once]; [|by rewrite IH].
  assert (rsplit_once COLON b = None) as ->; [|by rewrite decide_True].
  induction b as [|y b IH]; [done|]. cbn. rewrite not_elem_of_cons in Hb. destruct Hb as [Hy Hb].
  rewrite IH by done. by rewrite decide_False.
Qed.

(** A destination that has a text form: an address, or a host that is not
    itself an address and does not start with a bracket. *)
Definition addr_ok (a : SocksAddr) : Prop :=
  match a with
  | Ip sa => Wire.ip_ok sa.(ip) /\ is_u16 sa.(sa_port)
             /\ (if is_ipv4 sa.(ip) then sa.(scope_id) = 0 else is_u32 sa.(scope_id))
  | Domain h p => parse_ip h = None /\ h <> [] /\ head h <> Some OPEN /\ is_u16 p
  end.

Lemma parse_socket_v6 x p scope :
  0 <= x < 2 ^ 128 -> is_u16 p -> is_u32 scope ->
  parse_socket (display_socket {| ip := IpV6 x; sa_port := p; scope_id := scope |})
  = Some {| ip := IpV6 x; sa_port := p; scope_id := scope |}.
Proof.
  intros Hx Hp Hs. unfold parse_socket, parse_with, display_socket. cbn [ip sa_port scope_id].
  set (tail := [CLOSE; COLON] ++ decimal p).
  set (sc := if decide (scope = 0) then [] else [PERCENT] ++ decimal scope).
  assert (forall s, read_socket_addr_v4 ([OPEN] ++ s) = None) as E4 by done.
  rewrite E4. unfold read_socket_addr_v6. cbn [app]. rewrite read_given_char_same. cbn [mbind option_bind].
  assert (DOT ∉ decimal p /\ DOT ∉ decimal scope) as [Hdp Hds].
  { split; intros Hin; [pose proof (digits_alnum 10 20 p ltac:(lia) ltac:(apply Hp)) as Ha
                       |pose proof (digits_alnum 10 20 scope ltac:(lia) ltac:(apply Hs)) as Ha];
      rewrite Forall_forall in Ha; specialize (Ha _ Hin); unfold is_alnum, DOT in Ha; lia. }
  assert (address_end (sc ++ tail) /\ DOT ∉ sc ++ tail) as [He Hd].
  { unfold sc, tail. split.
    - split; case_decide; cbn; try done; by intros b [= <-].
    - rewrite !not_elem_of_app. case_decide; rewrite ?not_elem_of_app; set_solver. }
  rewrite read_ipv6_addr_display by done. cbn [mbind option_bind].
  assert (default (@pair Z text 0 (sc ++ tail)) (read_scope_id (sc ++ tail)) = (scope, tail)) as ->.
  { unfold sc. case_decide as E; [by subst|]. unfold read_scope_id. cbn [app].
    rewrite read_given_char_same. cbn [mbind option_bind].
    rewrite read_unbounded_printed by (by intros b [= <-] || ilia). done. }
  unfold tail. cbn [app]. rewrite read_given_char_same. cbn [mbind option_bind].
  rewrite read_port_printed by done. done.
Qed.

(** C39: A destination survives being written as text and parsed again: IPv4
    and IPv6 addresses, with a scope or an embedded IPv4 address, and
    domains, each with its port. *)
Theorem socks_addr_round_trip (a : SocksAddr) : addr_ok a -> from_str (display a) = Ok a.
Proof.
  destruct a as [[[x|x] p sc]|h p]; cbn [addr_ok ip sa_port scope_id is_ipv4].
  - intros (Hx & Hp & ->). unfold from_str, display, parse_socket, parse_with, display_socket. cbn [ip sa_port].
    unfold read_socket_addr_v4. cbn [app].
    rewrite read_ipv4_addr_display by (done || by apply number_end_colon). cbn [mbind option_bind].
    rewrite read_port_printed by done. done.
  - intros (Hx & Hp & Hs). unfold from_str, display. by rewrite parse_socket_v6.
  - intros (Hh & Hne & Ho & Hp). unfold from_str, display. rewrite parse_socket_domain by done. cbn [app].
    rewrite rsplit_once_last by (apply decimal_colon; apply Hp).
    assert (unbracket h = h) as ->.
    { unfold unbracket. destruct (strip_prefix [OPEN] h) as [r|] eqn:E; [|done].
      apply strip_prefix_spec in E as ->. done. }
    rewrite decide_False by done.
    assert (parse_u16 (decimal p) = Some p) as ->; [|unfold new; by rewrite Hh].
    unfold parse_u16. destruct (decimal p) as [|b l] eqn:E.
    { unfold decimal in E. cbn [digits] in E. case_decide; [done|]. by apply app_nil in E as [_ ?]. }
    pose proof (digits_alnum 10 20 p ltac:(lia) ltac:(apply Hp)) as Ha. fold (decimal p) in Ha. rewrite E in Ha.
    apply Forall_cons in Ha as [Hb _]. rewrite decide_False by (unfold is_alnum, PLUS in *; lia).
    rewrite <-E, <-(app_nil_r (decimal p)), read_unbounded_printed by (done || ilia). done.
Qed.

(** [[fe80::1%3]:53] and [a.b:443]. *)
Lemma socks_addr_round_trip_witness :
  from_str (display (Ip {| ip := IpV6 (Z.shiftl 65152 112 + 1); sa_port := 53; scope_id := 3 |}))
    = Ok (Ip {| ip := IpV6 (Z.shiftl 65152 112 + 1); sa_port := 53; scope_id := 3 |})
  /\ from_str (display (Domain [97; 46; 98] 443)) = Ok (Domain [97; 46; 98] 443).
Proof.
  split; apply socks_addr_round_trip.
  - repeat split; vm_compute; done.
  - repeat split; vm_compute; done.
Defined.

End Socks.
