(* ===== verification/OvpnControlMessage.v ===== *)
(** * Messages of the TLS control channel ([control.rs], [auth.rs])

    After the TLS handshake the two ends exchange commands as text, ended by
    a null byte: the push request and its reply, authentication failures and
    their parameters, restarts.  This file reads and writes them; the base64
    crate is a parameter.  Durations are nanoseconds. *)

From stdpp Require Import base numbers list strings.
From Stdlib Require Import ZArith Lia.
From S2P Require Import Prelude OvpnText Text IpText SocksAddr.

Local Open Scope Z_scope.

Definition COMMA : Z := 44.

(** [FromStr] of the integer types: digits after an optional sign. *)
Definition parse_unsigned (max : Z) (s : text) : option Z :=
  let s := default s (strip_prefix [Socks.PLUS] s) in
  '(x, rest) ← Socks.read_unbounded max s;
  if decide (rest = []) then Some x else None.

Definition MINUS : Z := 45.

Definition parse_signed (min max : Z) (s : text) : option Z :=
  match strip_prefix [MINUS] s with
  | Some s =>
      '(x, rest) ← Socks.read_unbounded (- min) s;
      if decide (rest = []) then Some (- x) else None
  | None => parse_unsigned max s
  end.

Definition parse_u8 : text -> option Z := parse_unsigned U8_MAX.
Definition parse_u32 : text -> option Z := parse_unsigned U32_MAX.
Definition I32_MAX : Z := 2147483647.
Definition parse_i32 : text -> option Z := parse_signed (- 2147483648) I32_MAX.

(** [Iterator::find_map]. *)
Fixpoint find_map {A B} (f : A -> option B) (l : list A) : option B :=
  match l with
  | [] => None
  | x :: l => match f x with Some y => Some y | None => find_map f l end
  end.

(** [str::trim_matches] of one ASCII character. *)
Definition trim_matches (c : Z) (s : text) : text := trim_end_matches c (trim_start_matches c s).

Module Control.

Definition TLS_PROTOCOL_FLAG_CC_EXIT : text := txt "cc-exit".
Definition TLS_PROTOCOL_FLAG_KEY_MATERIAL_EXPORT : text := txt "tls-ekm".
Definition PUSH_REQUEST_PAYLOAD : text := txt "PUSH_REQUEST".
Definition LEGACY_PULL_REQUEST_PAYLOAD : text := txt "PULL_REQUEST".
Definition PUSH_REPLY_PAYLOAD_PREFIX : text := txt "PUSH_REPLY".
Definition PUSH_UPDATE_PAYLOAD_PREFIX : text := txt "PUSH_UPDATE".

Inductive TlsControlDirective : Type :=
| Unknown | AuthFailed | AuthPending | PushReply | Restart | Halt | Exit | InfoPre | Info
| ChallengeResponse.

Global Instance TlsControlDirective_eq_dec : EqDecision TlsControlDirective.
Proof. solve_decision. Defined.

Definition NUL : Z := 0.

(** The bytes before the first [c]. *)
Fixpoint until (c : Z) (s : text) : text :=
  match s with
  | [] => []
  | b :: s => if decide (b = c) then [] else b :: until c s
  end.

Definition normalize_tls_control_message (payload : list Z) : text :=
  trim (from_utf8_lossy (until NUL payload)).

Definition normalize_control_payload (payload : list Z) : text :=
  trim (trim_matches NUL (from_utf8_lossy payload)).

Definition exact_or_parameter (input command : text) : bool :=
  bool_decide (input = command)
  || match strip_prefix command input with
     | Some remaining => starts_with_byte COMMA remaining
     | None => false
     end.

Definition classify_tls_control_directive (payload : list Z) : TlsControlDirective :=
  let normalized := normalize_tls_control_message payload in
  if decide (normalized = []) then Unknown
  else
    let upper := to_ascii_uppercase normalized in
    if exact_or_parameter upper (txt "AUTH_FAILED") then AuthFailed
    else if exact_or_parameter upper (txt "AUTH_PENDING") then AuthPending
    else if decide (txt "PUSH_" `prefix_of` upper) then PushReply
    else if exact_or_parameter upper (txt "RESTART") then Restart
    else if exact_or_parameter upper (txt "HALT") then Halt
    else if exact_or_parameter upper (txt "INFO_PRE") then InfoPre
    else if exact_or_parameter upper (txt "INFO") then Info
    else if exact_or_parameter upper (txt "CR_RESPONSE") then ChallengeResponse
    else if exact_or_parameter upper (txt "EXIT") then Exit
    else Unknown.

Definition tls_control_string_payload (payload : list Z) : list Z :=
  if decide (last payload = Some NUL) then payload else payload ++ [NUL].

Definition contains_flag (flags : list text) (expected : text) : bool :=
  existsb (fun flag => eq_ignore_ascii_case (trim flag) expected) flags.

Definition should_send_control_channel_exit (protocol_flags : list text) : bool :=
  contains_flag protocol_flags TLS_PROTOCOL_FLAG_CC_EXIT.

Definition tunnel_uses_key_material_export (key_derivation : text) (protocol_flags : list text) : bool :=
  eq_ignore_ascii_case (trim key_derivation) TLS_PROTOCOL_FLAG_KEY_MATERIAL_EXPORT
  || contains_flag protocol_flags TLS_PROTOCOL_FLAG_KEY_MATERIAL_EXPORT.

(** *** What the normalisations keep *)

Lemma until_none c s : c ∉ s -> until c s = s.
Proof.
  induction s as [|b s IH]; [done|]. intros [? ?]%not_elem_of_cons. cbn.
  rewrite decide_False by done. by rewrite IH.
Qed.

Lemma until_app c s t : c ∉ s -> until c (s ++ c :: t) = s.
Proof.
  induction s as [|b s IH]; cbn; [by rewrite decide_True|]. intros [? ?]%not_elem_of_cons.
  rewrite decide_False by done. by rewrite IH.
Qed.

End Control.

(** ** Authentication ([auth.rs]) *)

(** The crate [base64], with its standard alphabet. *)
Class Base64 := {
  base64_encode : list Z -> text;
  base64_decode : text -> option (list Z);
}.

Module Auth.
Import Control.

Definition AUTH_FAILED_PAYLOAD : text := txt "AUTH_FAILED".
Definition AUTH_PENDING_PAYLOAD : text := txt "AUTH_PENDING".

Record StagedCredentials : Type := mkStaged {
  staged_defined : bool;
  staged_interactive : bool;
  staged_username : text;
  staged_password : text;
}.

Definition no_credentials : StagedCredentials := mkStaged false false [] [].

Record AuthenticationState : Type := mkAuthenticationState {
  staged : StagedCredentials;
  sent_interactive_credentials : bool;
}.

Definition stage (s : AuthenticationState) (username password : text) (interactive : bool)
    : AuthenticationState :=
  mkAuthenticationState (mkStaged true interactive username password)
    (sent_interactive_credentials s).

Definition purge (s : AuthenticationState) : AuthenticationState :=
  mkAuthenticationState no_credentials (sent_interactive_credentials s).

Definition note_sent (s : AuthenticationState) (username password : text) (interactive : bool)
    : (text * text) * AuthenticationState :=
  ((username, password), mkAuthenticationState (staged s) interactive).

Definition decode_auth_token_username `{Base64} (encoded : text) : option text :=
  decoded ← base64_decode encoded;
  if decide (decoded = []) then None
  else Some (from_utf8_lossy (until NUL decoded)).

Definition resolve_auth_token_credentials `{Base64}
    (configured_username auth_token encoded_auth_token_user staged_username : text)
    : option (text * text) :=
  if decide (auth_token = []) then None
  else if decide (encoded_auth_token_user <> []) then
    username ← decode_auth_token_username encoded_auth_token_user;
    Some (username, auth_token)
  else
    let username := if decide (configured_username = []) then staged_username else configured_username in
    if decide (username <> []) then Some (username, auth_token) else None.

Definition is_auth_failed_payload (payload : list Z) : bool :=
  let payload := normalize_control_payload payload in
  negb (bool_decide (payload = []))
  && (eq_ignore_ascii_case payload AUTH_FAILED_PAYLOAD
      || bool_decide (txt "AUTH_FAILED," `prefix_of` to_ascii_uppercase payload)).

Definition build_auth_failed_payload (reason : text) : list Z :=
  let reason := trim reason in
  if decide (reason = []) then AUTH_FAILED_PAYLOAD
  else AUTH_FAILED_PAYLOAD ++ [COMMA] ++ reason.

Inductive AuthFailedAdvance : Type := NextAddress | NextRemote | Stay.

Record AuthFailedInfo : Type := mkAuthFailedInfo {
  failed : bool;
  temporary : bool;
  reason : text;
  backoff_seconds : Z;
  advance : AuthFailedAdvance;
}.

Definition no_failure : AuthFailedInfo := mkAuthFailedInfo false false [] 0 NextAddress.

Definition SPACE : Z := 32.

(** One flag of a temporary failure. *)
Definition apply_flag (info : AuthFailedInfo) (entry : text) : AuthFailedInfo :=
  let entry := trim entry in
  match split_once SPACE entry with
  | None => info
  | Some (keyword, value) =>
      let value := trim value in
      let keyword := to_ascii_lowercase keyword in
      if decide (keyword = txt "backoff") then
        match parse_u32 value with
        | Some backoff => mkAuthFailedInfo (failed info) (temporary info) (reason info) backoff (advance info)
        | None => info
        end
      else if decide (keyword = txt "advance") then
        let value := to_ascii_lowercase value in
        let advance :=
          if decide (value = txt "no") then Stay
          else if decide (value = txt "remote") then NextRemote
          else if decide (value = txt "addr") then NextAddress
          else advance info in
        mkAuthFailedInfo (failed info) (temporary info) (reason info) (backoff_seconds info) advance
      else info
  end.

Definition apply_auth_failed_temporary_flags (info : AuthFailedInfo) (content : text) : AuthFailedInfo :=
  foldl apply_flag info (split_on COMMA content).

Definition parse_auth_failed_payload (payload : list Z) : AuthFailedInfo :=
  let normalized := normalize_control_payload payload in
  if decide (normalized = [] \/ ~ AUTH_FAILED_PAYLOAD `prefix_of` to_ascii_uppercase normalized)
  then no_failure
  else
    let suffix := default normalized (strip_prefix AUTH_FAILED_PAYLOAD normalized) in
    if decide (suffix = []) then mkAuthFailedInfo true false [] 0 NextAddress
    else
      match strip_prefix [COMMA] suffix with
      | None => no_failure
      | Some suffix =>
          if decide (~ txt "TEMP" `prefix_of` to_ascii_uppercase suffix) then
            mkAuthFailedInfo true false (trim suffix) 0 NextAddress
          else
            let info := mkAuthFailedInfo true true [] 0 NextAddress in
            let suffix := default suffix (strip_prefix (txt "TEMP") suffix) in
            let '(info, suffix) :=
              match strip_prefix (txt "[") suffix ≫= split_once Socks.CLOSE with
              | Some (flags, rest) => (apply_auth_failed_temporary_flags info flags, rest)
              | None => (info, suffix)
              end in
            let suffix := default suffix (strip_prefix (txt ":") suffix) in
            mkAuthFailedInfo (failed info) (temporary info) (trim suffix) (backoff_seconds info) (advance info)
      end.

(** The timeout of one entry. *)
Definition timeout_entry (entry : text) : option Z :=
  let entry := trim entry in
  if decide (txt "timeout" `prefix_of` to_ascii_lowercase entry) then
    let value := trim (default entry (strip_prefix (txt "timeout") entry)) in
    parse_u32 (trim (default value (strip_prefix (txt "=") value)))
  else None.

Definition parse_auth_pending_timeout (payload : list Z) : option Z :=
  let normalized := normalize_control_payload payload in
  if decide (normalized = [] \/ ~ AUTH_PENDING_PAYLOAD `prefix_of` to_ascii_uppercase normalized)
  then None
  else
    suffix ← strip_prefix [COMMA] (default normalized (strip_prefix AUTH_PENDING_PAYLOAD normalized));
    find_map timeout_entry (split_on COMMA suffix).

Definition auth_pending_extension (hand_window renegotiation_interval : Z) (control_record : list Z) : Z :=
  let maximum := Z.max hand_window (renegotiation_interval / 2) in
  let extension := from_option from_secs hand_window (parse_auth_pending_timeout control_record) in
  Z.min extension maximum.

End Auth.
