(* ===== verification/OvpnKeyMethod.v ===== *)
(** * Key method 2 and the choice of the cipher ([key_method.rs], [negotiation.rs])

    Inside the TLS session each end sends one message with its random key
    material, its options and what it supports.  This file models the message
    and its parser, the lists of what an end supports, the choice of the data
    cipher by the server and its validation by the client, and the derivation
    of the data keys. *)

From stdpp Require Import base numbers list strings.
From Stdlib Require Import ZArith Lia.
From S2P Require Import Prelude OvpnText Text IpText SocksAddr OvpnCompression OvpnCrypto OvpnControlMessage.

Local Open Scope Z_scope.

Inductive KeyMethodError : Type :=
| TooShort
| UnsupportedMethod (method : Z)
| InvalidLength (name : text) (expected actual : Z)
| StringTooLong
| InvalidUtf8
| NegotiatedCipherNotAllowed (cipher : text).

Record TlsKeySource : Type := mkKeySource {
  pre_master : list Z;
  random1 : list Z;
  random2 : list Z;
}.

Record TlsKeyMethodMessage : Type := mkKeyMethod {
  options_string : text;
  username : text;
  password : text;
  peer_info : text;
  key_source : TlsKeySource;
}.

Module KeyMethod.

Definition TLS_KEY_METHOD_2 : Z := 2.

(** [TlsKeySource::generate], where [random] is the source of random bytes. *)
Definition generate {E} (random : nat -> result E (list Z)) (is_client : bool)
    : result E TlsKeySource :=
  pre ← if is_client then random 48%nat else Ok [];
  r1 ← random 32%nat;
  r2 ← random 32%nat;
  Ok (mkKeySource pre r1 r2).

Definition require_length (name : text) (value : list Z) (expected : Z) : result KeyMethodError unit :=
  if decide (Z.of_nat (length value) = expected) then Ok tt
  else Err (InvalidLength name expected (Z.of_nat (length value))).

Definition write_string (output : list Z) (value : text) : result KeyMethodError (list Z) :=
  let length := Z.of_nat (length value) + 1 in
  if decide (length <= U16_MAX) then Ok (output ++ to_be_bytes 2 length ++ value ++ [0])
  else Err StringTooLong.

Definition encode (m : TlsKeyMethodMessage) (server_message : bool) : result KeyMethodError (list Z) :=
  let output := to_be_bytes 4 0 ++ [TLS_KEY_METHOD_2] in
  output ← (if server_message then Ok output
            else _ ← require_length (txt "client pre-master") (pre_master (key_source m)) 48;
                 Ok (output ++ pre_master (key_source m)));
  _ ← require_length (txt "random1") (random1 (key_source m)) 32;
  _ ← require_length (txt "random2") (random2 (key_source m)) 32;
  let output := output ++ random1 (key_source m) ++ random2 (key_source m) in
  output ← write_string output (options_string m);
  output ← write_string output (username m);
  output ← write_string output (password m);
  write_string output (peer_info m).

(** [take]: the first bytes of the input, and the bytes left. *)
Definition take_bytes (length' : nat) (input : list Z) : result KeyMethodError (list Z * list Z) :=
  if decide (length input < length')%nat then Err TooShort
  else Ok (take length' input, drop length' input).

Definition read_string (input : list Z) : result KeyMethodError (text * list Z) :=
  '(prefix, input) ← take_bytes 2 input;
  let length := from_be_bytes prefix in
  if decide (length = 0) then Ok ([], input)
  else
    '(value, input) ← take_bytes (Z.to_nat length) input;
    let value := default value (strip_suffix [0] value) in
    if utf8_valid value then Ok (value, input) else Err InvalidUtf8.

Definition parse (input : list Z) (server_message : bool) : result KeyMethodError TlsKeyMethodMessage :=
  '(_, input) ← take_bytes 4 input;
  '(method, input) ← take_bytes 1 input;
  let method := nth 0 method 0 in
  if decide (Z.land method 15 <> TLS_KEY_METHOD_2) then Err (UnsupportedMethod method)
  else
    '(pre, input) ← if server_message then Ok ([], input) else take_bytes 48 input;
    '(r1, input) ← take_bytes 32 input;
    '(r2, input) ← take_bytes 32 input;
    '(options, input) ← read_string input;
    '(user, input) ← read_string input;
    '(pass, input) ← read_string input;
    '(info, input) ← read_string input;
    Ok (mkKeyMethod options user pass info (mkKeySource pre r1 r2)).

(** ** Round trip *)

Lemma take_bytes_app n a b : length a = n -> take_bytes n (a ++ b) = Ok (a, b).
Proof.
  intros <-. unfold take_bytes. rewrite decide_False by (rewrite length_app; lia).
  by rewrite take_app_length, drop_app_length.
Qed.

Lemma read_write_string output value output' rest :
  utf8_valid value = true -> write_string output value = Ok output' ->
  exists field, output' = output ++ field /\ read_string (field ++ rest) = Ok (value, rest).
Proof.
  intros Hv. unfold write_string. case_decide as Hl; [|done]. intros <-%Ok_inj.
  eexists. split; [done|]. unfold read_string. rewrite <-!app_assoc.
  rewrite take_bytes_app by apply length_to_be_bytes. rbind.
  rewrite from_to_be_bytes by (change (2 ^ (8 * Z.of_nat 2)) with 65536; ilia).
  rewrite decide_False by lia. rewrite (app_assoc value).
  rewrite take_bytes_app by (rewrite length_app; cbn; lia). rbind.
  assert (strip_suffix [0] (value ++ [0]) = Some value) as -> by by apply strip_suffix_spec.
  cbn. by rewrite Hv.
Qed.

(** The strings of a message are Rust strings. *)
Definition message_ok (m : TlsKeyMethodMessage) : Prop :=
  utf8_valid (options_string m) = true /\ utf8_valid (username m) = true
  /\ utf8_valid (password m) = true /\ utf8_valid (peer_info m) = true.

(** What a message tells its receiver: a server sends no pre-master secret. *)
Definition received (m : TlsKeyMethodMessage) (server_message : bool) : TlsKeyMethodMessage :=
  mkKeyMethod (options_string m) (username m) (password m) (peer_info m)
    (mkKeySource (if server_message then [] else pre_master (key_source m))
       (random1 (key_source m)) (random2 (key_source m))).

Lemma require_length_Ok name value n :
  require_length name value (Z.of_nat n) = Ok tt -> length value = n.
Proof. unfold require_length. case_decide; [lia|done]. Qed.

Lemma encode_parsed m server bytes rest :
  message_ok m -> encode m server = Ok bytes -> parse (bytes ++ rest) server = Ok (received m server).
Proof.
  intros (Ho & Hu & Hp & Hi) He. unfold encode in He.
  apply bind_Ok in He as (out & Hout & He).
  apply bind_Ok in He as ([] & H1%(require_length_Ok _ _ 32) & He).
  apply bind_Ok in He as ([] & H2%(require_length_Ok _ _ 32) & He).
  apply bind_Ok in He as (o1 & W1 & He). apply bind_Ok in He as (o2 & W2 & He).
  apply bind_Ok in He as (o3 & W3 & W4).
  eapply (read_write_string _ _ _ rest) in W4 as (f4 & -> & R4); [|done].
  eapply (read_write_string _ _ _ (f4 ++ rest)) in W3 as (f3 & -> & R3); [|done].
  eapply (read_write_string _ _ _ (f3 ++ f4 ++ rest)) in W2 as (f2 & -> & R2); [|done].
  eapply (read_write_string _ _ _ (f2 ++ f3 ++ f4 ++ rest)) in W1 as (f1 & -> & R1); [|done].
  assert (exists pre, out = to_be_bytes 4 0 ++ [TLS_KEY_METHOD_2] ++ pre
    /\ forall tail, (if server then Ok ([], pre ++ tail) else take_bytes 48 (pre ++ tail))
          = Ok (if server then [] else pre_master (key_source m), tail)) as (pre & -> & Hpre).
  { destruct server.
    - apply Ok_inj in Hout as <-. exists []. by rewrite app_nil_r.
    - apply bind_Ok in Hout as ([] & Hl%(require_length_Ok _ _ 48) & <-%Ok_inj).
      exists (pre_master (key_source m)). split; [by rewrite app_assoc|].
      intros tail. by rewrite take_bytes_app. }
  unfold parse. rewrite <-!app_assoc.
  rewrite take_bytes_app by done. rbind. rewrite (take_bytes_app 1) by done. rbind.
  rewrite decide_False by (intros Hn; by apply Hn).
  rewrite Hpre. rbind. rewrite take_bytes_app by done. rbind. rewrite take_bytes_app by done. rbind.
  rewrite R1. rbind. rewrite R2. rbind. rewrite R3. rbind. rewrite R4. rbind. done.
Qed.

End KeyMethod.

(** ** What an end supports *)

Inductive CipherNegotiationError : Type :=
| NoSharedCipher (local remote : list text)
| MissingPeerCipher
| UnsupportedCipherName (cipher : text)
| InvalidPushFields
| PushOptionTooLong (field : text).

Module Negotiation.
Import Control.

Definition TLS_IV_PROTO_DATA_V2 : Z := Z.shiftl 1 1.
Definition TLS_IV_PROTO_REQUEST_PUSH : Z := Z.shiftl 1 2.
Definition TLS_IV_PROTO_TLS_KEY_EXPORT : Z := Z.shiftl 1 3.
Definition TLS_IV_PROTO_AUTH_PENDING_KW : Z := Z.shiftl 1 4.
Definition TLS_IV_PROTO_NCP_P2P : Z := Z.shiftl 1 5.
Definition TLS_IV_PROTO_CC_EXIT_NOTIFY : Z := Z.shiftl 1 7.
Definition TLS_IV_PROTO_AUTH_FAIL_TEMP : Z := Z.shiftl 1 8.
Definition TLS_ADVERTISED_VERSION : text := txt "2.6.14".

(** The value of the first line with this prefix that [read] accepts. *)
Definition line_value {A} (prefix : text) (read : text -> option A) (line : text) : option A :=
  strip_prefix prefix (trim_end_matches RETURN line) ≫= read.

Definition peer_info_iv_proto (peer_info : text) : option Z :=
  find_map (line_value (txt "IV_PROTO=") parse_u32) (lines peer_info).

Definition peer_supports_iv_proto_flag (peer_info : text) (flag : Z) : bool :=
  match peer_info_iv_proto peer_info with
  | Some value => negb (Z.land value flag =? 0)
  | None => false
  end.

Definition peer_info_mtu (peer_info : text) : option Z :=
  find_map
    (line_value (txt "IV_MTU=")
       (fun value => value ← parse_u32 value; if decide (value = 0) then None else Some value))
    (lines peer_info).

Definition peer_info_ncp_version (peer_info : text) : Z :=
  default 0 (find_map (line_value (txt "IV_NCP=") parse_i32) (lines peer_info)).

Definition peer_info_cipher_list (peer_info : text) : list text * bool :=
  match find_map (strip_prefix (txt "IV_CIPHERS=")) (split_on NEWLINE peer_info) with
  | Some value => (filter (fun v => v <> []) (trim <$> split_on IpText.COLON value), true)
  | None =>
      if decide (2 <= peer_info_ncp_version peer_info) then ([txt "AES-256-GCM"; txt "AES-128-GCM"], true)
      else ([], false)
  end.

Definition advertised_data_ciphers (configured : list text) : list text :=
  match configured with
  | [] => [txt "AES-256-GCM"; txt "AES-128-GCM"; txt "CHACHA20-POLY1305"]
  | _ => configured
  end.

Definition supports_ncp_v2 (ciphers : list text) : bool :=
  bool_decide (txt "AES-128-GCM" ∈ ciphers) && bool_decide (txt "AES-256-GCM" ∈ ciphers).

Definition advertised_platform (operating_system : text) : text :=
  let os := to_ascii_lowercase (trim operating_system) in
  if decide (os ∈ [txt "linux"; txt "android"]) then txt "linux"
  else if decide (os ∈ [txt "darwin"; txt "ios"]) then txt "mac"
  else if decide (os = txt "windows") then txt "win"
  else if decide (os = txt "freebsd") then txt "freebsd"
  else if decide (os = txt "netbsd") then txt "netbsd"
  else if decide (os = txt "openbsd") then txt "openbsd"
  else if decide (os = txt "solaris") then txt "solaris"
  else txt "linux".

Definition client_iv_proto (request_push : bool) : Z :=
  let iv_proto := Z.lor (Z.lor TLS_IV_PROTO_DATA_V2 TLS_IV_PROTO_TLS_KEY_EXPORT) TLS_IV_PROTO_CC_EXIT_NOTIFY in
  if request_push then
    Z.lor iv_proto (Z.lor (Z.lor TLS_IV_PROTO_REQUEST_PUSH TLS_IV_PROTO_AUTH_PENDING_KW) TLS_IV_PROTO_AUTH_FAIL_TEMP)
  else Z.lor iv_proto TLS_IV_PROTO_NCP_P2P.

(** A line of the list: the bytes and the newline after them. *)
Definition line (s : text) : text := s ++ [NEWLINE].

Definition build_tls_client_peer_info (data_ciphers : list text) (request_push : bool) (tun_mtu : Z)
    (allow_compression : AllowCompressionPolicy) (operating_system : text) : text :=
  let data_ciphers := advertised_data_ciphers data_ciphers in
  line (txt "IV_VER=" ++ TLS_ADVERTISED_VERSION)
  ++ line (txt "IV_PLAT=" ++ advertised_platform operating_system)
  ++ (if supports_ncp_v2 data_ciphers then line (txt "IV_NCP=2") else [])
  ++ line (txt "IV_CIPHERS=" ++ IpText.join [IpText.COLON] data_ciphers)
  ++ line (txt "IV_PROTO=" ++ IpText.decimal (client_iv_proto request_push))
  ++ (if request_push then
        line (txt "IV_SSO=webauth,openurl,crtext")
        ++ line (txt "IV_MTU=" ++ IpText.decimal (if decide (tun_mtu = 0) then 1500 else tun_mtu))
      else [])
  ++ line (txt "IV_LZ4=1") ++ line (txt "IV_LZ4v2=1")
  ++ (if decide (allow_compression <> StubOnly) then line (txt "IV_LZO=1") else line (txt "IV_LZO_STUB=1"))
  ++ line (txt "IV_COMP_STUB=1") ++ line (txt "IV_COMP_STUBv2=1") ++ line (txt "IV_TCPNL=1").

Definition server_iv_proto : Z :=
  Z.lor (Z.lor TLS_IV_PROTO_DATA_V2 TLS_IV_PROTO_TLS_KEY_EXPORT) TLS_IV_PROTO_CC_EXIT_NOTIFY.

Definition build_tls_server_peer_info (data_ciphers : list text) : text :=
  let data_ciphers := advertised_data_ciphers data_ciphers in
  line (txt "IV_PROTO=" ++ IpText.decimal server_iv_proto)
  ++ (if supports_ncp_v2 data_ciphers then line (txt "IV_NCP=2") else [])
  ++ (if decide (data_ciphers <> []) then
        line (txt "IV_CIPHERS=" ++ IpText.join [IpText.COLON] data_ciphers) else []).

(** *** Options *)

Definition tls_protocol_name (protocol : text) (is_client : bool) : text :=
  if decide (protocol ∈ [txt "udp"; txt "udp4"]) then txt "UDPv4"
  else if decide (protocol = txt "udp6") then txt "UDPv6"
  else if decide (protocol ∈ [txt "tcp"; txt "tcp4"]) then
    if is_client then txt "TCPv4_CLIENT" else txt "TCPv4_SERVER"
  else if decide (protocol = txt "tcp6") then
    if is_client then txt "TCPv6_CLIENT" else txt "TCPv6_SERVER"
  else txt "UDPv4".

Definition ciphers_of (bits : Z) : list text :=
  txt <$>
  match bits with
  | 128 => ["AES-128-GCM"; "AES-128-CBC"; "AES-128-CFB"; "AES-128-OFB"; "ARIA-128-CBC"; "ARIA-128-CFB";
            "ARIA-128-OFB"; "CAMELLIA-128-CBC"; "CAMELLIA-128-CFB"; "CAMELLIA-128-OFB"; "SEED-CBC";
            "SEED-CFB"; "SEED-OFB"; "SM4-CBC"; "SM4-CFB"; "SM4-OFB"; "BF-CBC"; "BF-CFB"; "BF-OFB";
            "CAST5-CBC"; "CAST5-CFB"; "CAST5-OFB"; "DES-EDE-CBC"; "DES-EDE-CFB"; "DES-EDE-OFB"]
  | 192 => ["AES-192-GCM"; "AES-192-CBC"; "AES-192-CFB"; "AES-192-OFB"; "ARIA-192-CBC"; "ARIA-192-CFB";
            "ARIA-192-OFB"; "CAMELLIA-192-CBC"; "CAMELLIA-192-CFB"; "CAMELLIA-192-OFB"; "DES-EDE3-CBC";
            "DES-EDE3-CFB"; "DES-EDE3-OFB"]
  | 256 => ["AES-256-GCM"; "AES-256-CBC"; "AES-256-CFB"; "AES-256-OFB"; "ARIA-256-CBC"; "ARIA-256-CFB";
            "ARIA-256-OFB"; "CAMELLIA-256-CBC"; "CAMELLIA-256-CFB"; "CAMELLIA-256-OFB"; "CHACHA20-POLY1305"]
  | 64 => ["DES-CBC"; "DES-CFB"; "DES-OFB"]
  | 0 => ["NONE"]
  | _ => []
  end%string.

Definition tls_cipher_key_bits (cipher : text) : result CipherNegotiationError Z :=
  match filter (fun bits => cipher ∈ ciphers_of bits) [128; 192; 256; 64; 0] with
  | bits :: _ => Ok bits
  | [] => Err (UnsupportedCipherName cipher)
  end.

(** [tun_mtu + 50] is the arithmetic of a release build. *)
Definition build_tls_options_string (protocol : text) (is_client tls_auth_enabled : bool)
    (compression : Compression.CompressionSettings) (cipher_name auth_name : text) (tun_mtu : Z) : text :=
  let tun_mtu := if decide (tun_mtu = 0) then 1500 else tun_mtu in
  let cipher := if decide (cipher_name = []) then txt "AES-256-GCM" else cipher_name in
  let auth := if decide (auth_name = []) then txt "SHA1" else auth_name in
  txt "V4,dev-type tun,link-mtu " ++ IpText.decimal (wrap32 (tun_mtu + 50))
  ++ txt ",tun-mtu " ++ IpText.decimal tun_mtu ++ txt ",proto " ++ tls_protocol_name protocol is_client
  ++ (if Compression.framing_enabled compression then txt ",comp-lzo" else [])
  ++ txt ",cipher " ++ cipher ++ txt ",auth " ++ auth
  ++ match tls_cipher_key_bits cipher with Ok bits => txt ",keysize " ++ IpText.decimal bits | Err _ => [] end
  ++ (if tls_auth_enabled then txt ",tls-auth" else [])
  ++ txt ",key-method 2," ++ (if is_client then txt "tls-client" else txt "tls-server").

Definition extract_remote_cipher_name (options_string : text) : option text :=
  find_map
    (fun token =>
       value ← strip_prefix (txt "cipher ") (trim token);
       let value := trim value in
       Some (if decide (value = txt "[null-cipher]") then txt "none" else value))
    (split_on COMMA options_string).

(** *** The choice of the cipher *)

Definition find (f : text -> bool) (l : list text) : option text :=
  find_map (fun x => if f x then Some x else None) l.

Definition select_pulled_cipher (configured : list text) (fallback remote_cipher : text)
    : result CipherNegotiationError text :=
  let advertised := advertised_data_ciphers configured in
  let remote := trim remote_cipher in
  if decide (remote <> []) then
    ok_or (NoSharedCipher advertised [remote])
      (find (fun candidate => eq_ignore_ascii_case candidate remote) advertised)
  else if decide (fallback <> []) then Ok fallback
  else Err MissingPeerCipher.

Definition select_p2p_cipher (configured : list text) (fallback peer_info : text)
    : result CipherNegotiationError text :=
  let local := advertised_data_ciphers configured in
  let '(peer, _) := peer_info_cipher_list peer_info in
  match find_map (fun p => find (fun cipher => eq_ignore_ascii_case cipher p) local) peer with
  | Some cipher => Ok cipher
  | None => if decide (fallback <> []) then Ok fallback else Err (NoSharedCipher local peer)
  end.

Definition select_server_cipher (configured : list text) (fallback peer_info options_string : text)
    : result CipherNegotiationError text :=
  let local := advertised_data_ciphers configured in
  let '(peer, peer_list_known) := peer_info_cipher_list peer_info in
  let remote_options_cipher :=
    if peer_list_known then None else extract_remote_cipher_name options_string in
  let usable local_cipher :=
    existsb (fun cipher => eq_ignore_ascii_case cipher local_cipher) peer
    || match remote_options_cipher with
       | Some cipher => eq_ignore_ascii_case cipher local_cipher
       | None => false
       end in
  match find usable local with
  | Some cipher => Ok cipher
  | None =>
      if decide (peer_list_known = false /\ remote_options_cipher = None /\ fallback <> []) then Ok fallback
      else Err (NoSharedCipher local peer)
  end.

Definition validate_server_pushed_cipher (configured : list text) (fallback pushed : text)
    : result KeyMethodError (option text) :=
  let pushed := trim pushed in
  if decide (pushed = []) then Ok None
  else if bool_decide (fallback <> []) && eq_ignore_ascii_case fallback pushed then Ok (Some fallback)
  else
    match find (fun cipher => eq_ignore_ascii_case cipher pushed) (advertised_data_ciphers configured) with
    | Some cipher => Ok (Some cipher)
    | None => Err (NegotiatedCipherNotAllowed pushed)
    end.

(** *** The lists are read back *)

(** Names that can be put in the list. *)
Definition name_ok (cipher : text) : Prop :=
  cipher <> [] /\ trim cipher = cipher /\ NEWLINE ∉ cipher /\ IpText.COLON ∉ cipher.

Lemma find_map_Some {A B} (f : A -> option B) l y :
  find_map f l = Some y -> exists x, x ∈ l /\ f x = Some y.
Proof.
  induction l as [|x l IH]; [done|]. cbn. destruct (f x) eqn:E.
  - intros [= ->]. exists x. split; [left|done].
  - intros (x' & ? & ?)%IH. exists x'. split; [by right|done].
Qed.

Lemma find_Some f l x : find f l = Some x -> x ∈ l /\ f x = true.
Proof.
  intros (y & Hy & E)%find_map_Some. destruct (f y) eqn:Ef; [|done]. by simplify_eq.
Qed.

Lemma find_complete f l x : x ∈ l -> f x = true -> exists y, find f l = Some y.
Proof.
  unfold find. induction l as [|z l IH]; [by intros ?%elem_of_nil|].
  cbn. destruct (f z) eqn:Ef; [by eexists|]. intros [->|Hx]%elem_of_cons Hf; [congruence|by apply IH].
Qed.

Lemma join_not_elem c sep l : c ∉ sep -> Forall (fun s => c ∉ s) l -> c ∉ IpText.join sep l.
Proof.
  intros Hc. induction 1 as [|s l Hs Hf IH]; [apply not_elem_of_nil|].
  rewrite IpText.join_cons, not_elem_of_app. split; [done|].
  destruct l; [apply not_elem_of_nil|]. by apply not_elem_of_app.
Qed.

Lemma split_on_join c l :
  l <> [] -> Forall (fun s => c ∉ s) l -> split_on c (IpText.join [c] l) = l.
Proof.
  intros Hl. induction 1 as [|s l Hs Hf IH]; [done|]. rewrite IpText.join_cons.
  destruct l as [|t l]; [by rewrite app_nil_r; apply split_on_none|].
  cbn [app]. rewrite split_on_app, IH by done. by rewrite split_on_none.
Qed.

Lemma split_on_lines l :
  Forall (fun s => NEWLINE ∉ s) l -> split_on NEWLINE (concat (line <$> l)) = l ++ [[]].
Proof.
  induction 1 as [|s l Hs Hf IH]; [done|]. cbn [fmap list_fmap concat]. unfold line at 1.
  rewrite <-app_assoc. cbn [app]. rewrite split_on_app, IH. by rewrite split_on_none.
Qed.

Lemma lines_concat l :
  Forall (fun s => NEWLINE ∉ s) l ->
  lines (concat (line <$> l)) = (fun s => default s (strip_suffix [RETURN] s)) <$> l.
Proof.
  intros Hl. unfold lines. rewrite split_on_lines by done. clear Hl.
  induction l as [|s l IH]; [done|]. cbn. rewrite IH. by destruct l.
Qed.

(** Two texts that differ at a byte both have. *)
Fixpoint disagree (p q : text) : bool :=
  match p, q with
  | a :: p, b :: q => negb (a =? b) || disagree p q
  | _, _ => false
  end.

Lemma strip_prefix_disagree p q s : disagree p q = true -> strip_prefix p (q ++ s) = None.
Proof.
  intros Hd. destruct (strip_prefix p (q ++ s)) as [r|] eqn:E; [|done].
  apply strip_prefix_spec in E. revert q Hd E. induction p as [|a p IH]; intros [|b q]; try done.
  cbn. intros [Hab|Hd]%orb_true_iff [= -> E]; [by rewrite Z.eqb_refl in Hab|by eapply IH].
Qed.

Definition client_lines (data_ciphers : list text) (request_push : bool) (tun_mtu : Z)
    (allow_compression : AllowCompressionPolicy) (operating_system : text) : list text :=
  [txt "IV_VER=" ++ TLS_ADVERTISED_VERSION; txt "IV_PLAT=" ++ advertised_platform operating_system]
  ++ (if supports_ncp_v2 data_ciphers then [txt "IV_NCP=2"] else [])
  ++ [txt "IV_CIPHERS=" ++ IpText.join [IpText.COLON] data_ciphers;
      txt "IV_PROTO=" ++ IpText.decimal (client_iv_proto request_push)]
  ++ (if request_push then
        [txt "IV_SSO=webauth,openurl,crtext";
         txt "IV_MTU=" ++ IpText.decimal (if decide (tun_mtu = 0) then 1500 else tun_mtu)]
      else [])
  ++ [txt "IV_LZ4=1"; txt "IV_LZ4v2=1";
      if decide (allow_compression <> StubOnly) then txt "IV_LZO=1" else txt "IV_LZO_STUB=1";
      txt "IV_COMP_STUB=1"; txt "IV_COMP_STUBv2=1"; txt "IV_TCPNL=1"].

Lemma client_peer_info_lines ciphers push mtu compression os :
  build_tls_client_peer_info ciphers push mtu compression os
  = concat (line <$> client_lines (advertised_data_ciphers ciphers) push mtu compression os).
Proof.
  unfold build_tls_client_peer_info, client_lines.
  repeat rewrite fmap_app, concat_app. cbn [fmap list_fmap concat]. rewrite !app_nil_r.
  rewrite <-!app_assoc. repeat f_equal; try by destruct (supports_ncp_v2 _).
  - destruct push; cbn [fmap list_fmap concat]; [by rewrite app_nil_r|done].
  - by destruct (decide _).
Qed.

Lemma not_in (c : Z) (s : text) : bool_decide (c ∈ s) = false -> c ∉ s.
Proof. apply bool_decide_eq_false_1. Qed.

Lemma decimal_not_elem c x : ~ IpText.is_alnum c -> 0 <= x -> c ∉ IpText.decimal x.
Proof.
  intros Hc Hx Hin. pose proof (IpText.digits_alnum 10 20 x ltac:(lia) Hx) as Ha.
  rewrite Forall_forall in Ha. by apply Hc, Ha.
Qed.

Lemma advertised_platform_newline os : NEWLINE ∉ advertised_platform os.
Proof. unfold advertised_platform. repeat case_decide; by apply not_in. Qed.

Lemma client_lines_newline ciphers push mtu compression os :
  Forall name_ok ciphers -> 0 <= mtu ->
  Forall (fun s => NEWLINE ∉ s) (client_lines ciphers push mtu compression os).
Proof.
  intros Hc Hm.
  assert (forall p s, (NEWLINE ∉ txt p) -> NEWLINE ∉ s -> NEWLINE ∉ txt p ++ s) as Happ
    by (intros; by apply not_elem_of_app).
  assert (forall x, 0 <= x -> NEWLINE ∉ IpText.decimal x) as Hd
    by (intros; apply decimal_not_elem; [unfold IpText.is_alnum, NEWLINE; lia|done]).
  unfold client_lines. repeat apply Forall_app_2.
  - repeat constructor; [by apply not_in|].
    apply Happ; [by apply not_in|apply advertised_platform_newline].
  - destruct (supports_ncp_v2 _); repeat constructor. by apply not_in.
  - repeat constructor; (apply Happ; [by apply not_in|]).
    + apply join_not_elem; [by apply not_in|].
      eapply Forall_impl; [done|]. by intros s (? & ? & ? & ?).
    + apply Hd. by destruct push.
  - destruct push; repeat constructor; [by apply not_in|]. apply Happ; [by apply not_in|].
    apply Hd. case_decide; lia.
  - repeat constructor; try case_decide; by apply not_in.
Qed.

(** The server reads the ciphers of the client. *)
Lemma client_cipher_list ciphers push mtu compression os :
  Forall name_ok (advertised_data_ciphers ciphers) -> 0 <= mtu ->
  peer_info_cipher_list (build_tls_client_peer_info ciphers push mtu compression os)
  = (advertised_data_ciphers ciphers, true).
Proof.
  intros Hc Hm. rewrite client_peer_info_lines. unfold peer_info_cipher_list.
  rewrite split_on_lines by by apply client_lines_newline.
  match goal with |- context [find_map ?f ?l] =>
    assert (find_map f l = Some (IpText.join [IpText.COLON] (advertised_data_ciphers ciphers))) as -> end.
  { unfold client_lines. cbn [app find_map]. rewrite !strip_prefix_disagree by done.
    assert (forall s, strip_prefix (txt "IV_CIPHERS=") (txt "IV_CIPHERS=" ++ s) = Some s) as Hs
      by (intros; by apply strip_prefix_spec).
    destruct (supports_ncp_v2 _); cbn [app find_map]; [|by rewrite Hs].
    change (strip_prefix (txt "IV_CIPHERS=") (txt "IV_NCP=2")) with (@None text). by rewrite Hs. }
  rewrite split_on_join.
  - f_equal. revert Hc. generalize (advertised_data_ciphers ciphers). induction 1 as [|s l (Hs & Ht & _) Hl IH]; [done|].
    cbn [fmap list_fmap]. rewrite Ht. rewrite filter_cons_True by done. f_equal. exact IH.
  - by destruct ciphers.
  - eapply Forall_impl; [done|]. by intros s (? & ? & ? & ?).
Qed.

Lemma trim_start_suffix c s : trim_start_matches c s `suffix_of` s.
Proof. induction s as [|b s IH]; cbn; [done|]. case_decide; [by apply suffix_cons_r|done]. Qed.

Lemma trim_end_prefix c s : trim_end_matches c s `prefix_of` s.
Proof.
  unfold trim_end_matches. destruct (trim_start_suffix c (rev s)) as [t E].
  exists (rev t). rewrite <-rev_app_distr, <-E. by rewrite rev_involutive.
Qed.

(** The end of a line, as [lines] and [trim_end_matches] see it. *)
Definition line_text (s : text) : text := default s (strip_suffix [RETURN] s).

Lemma line_text_prefix s : line_text s `prefix_of` s.
Proof.
  unfold line_text. destruct (strip_suffix [RETURN] s) eqn:E; [|done].
  apply strip_suffix_spec in E as ->. by apply prefix_app_r.
Qed.

Lemma line_value_other {A} p (read : text -> option A) s :
  strip_prefix p s = None -> line_value p read (line_text s) = None.
Proof.
  intros Hs. unfold line_value. destruct (strip_prefix p (trim_end_matches _ _)) as [r|] eqn:E; [|done].
  apply strip_prefix_spec in E. exfalso.
  assert (p `prefix_of` s) as [t ->].
  { etrans; [|apply line_text_prefix]. etrans; [|apply (trim_end_prefix RETURN)]. rewrite E. by apply prefix_app_r. }
  revert Hs. assert (strip_prefix p (p ++ t) = Some t) as -> by by apply strip_prefix_spec. done.
Qed.

Lemma decimal_last x : 0 <= x -> IpText.decimal x <> [] /\ last (IpText.decimal x) <> Some RETURN.
Proof.
  intros Hx. split.
  - unfold IpText.decimal. cbn [IpText.digits]. case_decide; [done|]. by intros [? ?]%app_nil.
  - intros Hl. apply (decimal_not_elem RETURN x); [unfold IpText.is_alnum, RETURN; lia|done|].
    apply last_Some in Hl as [l ->]. apply elem_of_app. right. left.
Qed.

Lemma line_value_decimal {A} p (read : text -> option A) x :
  0 <= x -> line_value p read (line_text (p ++ IpText.decimal x)) = read (IpText.decimal x).
Proof.
  intros Hx. destruct (decimal_last x Hx) as [Hne Hl]. unfold line_value.
  assert (last (p ++ IpText.decimal x) <> Some RETURN) as Hlast.
  { rewrite last_app. destruct (last (IpText.decimal x)) eqn:E; [congruence|].
    apply last_None in E. done. }
  assert (line_text (p ++ IpText.decimal x) = p ++ IpText.decimal x) as ->.
  { unfold line_text. destruct (strip_suffix _ _) eqn:E; [|done]. apply strip_suffix_spec in E.
    rewrite E, last_snoc in Hlast. done. }
  rewrite trim_end_matches_id by done.
  assert (strip_prefix p (p ++ IpText.decimal x) = Some (IpText.decimal x)) as ->
    by by apply strip_prefix_spec. done.
Qed.

Lemma parse_u32_decimal x : is_u32 x -> parse_u32 (IpText.decimal x) = Some x.
Proof.
  intros Hx. unfold parse_u32, parse_unsigned.
  assert (strip_prefix [Socks.PLUS] (IpText.decimal x) = None) as ->.
  { destruct (strip_prefix _ _) as [r|] eqn:E; [|done]. apply strip_prefix_spec in E. exfalso.
    apply (decimal_not_elem Socks.PLUS x); [unfold IpText.is_alnum, Socks.PLUS; lia|ilia|]. rewrite E. left. }
  cbn [default from_option]. rewrite <-(app_nil_r (IpText.decimal x)).
  rewrite Socks.read_unbounded_printed; [done|ilia|ilia|done].
Qed.

(** The server reads the protocol flags of the client. *)
Lemma client_iv_proto_read ciphers push mtu compression os :
  Forall name_ok (advertised_data_ciphers ciphers) -> 0 <= mtu ->
  peer_info_iv_proto (build_tls_client_peer_info ciphers push mtu compression os)
  = Some (client_iv_proto push).
Proof.
  intros Hc Hm. rewrite client_peer_info_lines. unfold peer_info_iv_proto.
  rewrite lines_concat by by apply client_lines_newline. fold line_text.
  change (fun s => default s (strip_suffix [RETURN] s)) with line_text.
  unfold client_lines. rewrite !fmap_app. cbn [fmap list_fmap app find_map].
  rewrite !line_value_other by by apply strip_prefix_disagree.
  assert (forall l r, find_map (line_value (txt "IV_PROTO=") parse_u32)
      (line_text (txt "IV_CIPHERS=" ++ l)
       :: line_text (txt "IV_PROTO=" ++ IpText.decimal (client_iv_proto push)) :: r)
      = Some (client_iv_proto push)) as Hrest.
  { intros l r. cbn [find_map]. rewrite line_value_other by by apply strip_prefix_disagree.
    rewrite line_value_decimal by by destruct push.
    by rewrite parse_u32_decimal by by destruct push. }
  destruct (supports_ncp_v2 _); cbn [fmap list_fmap app find_map]; [|apply Hrest].
  rewrite line_value_other by done. apply Hrest.
Qed.

Lemma client_supports ciphers push mtu compression os flag :
  Forall name_ok (advertised_data_ciphers ciphers) -> 0 <= mtu ->
  flag ∈ [TLS_IV_PROTO_DATA_V2; TLS_IV_PROTO_TLS_KEY_EXPORT; TLS_IV_PROTO_CC_EXIT_NOTIFY] ->
  peer_supports_iv_proto_flag (build_tls_client_peer_info ciphers push mtu compression os) flag = true.
Proof.
  intros Hc Hm Hf. unfold peer_supports_iv_proto_flag. rewrite client_iv_proto_read by done.
  repeat (apply elem_of_cons in Hf as [->|Hf]); [by destruct push..|by apply elem_of_nil in Hf].
Qed.

Definition server_lines (data_ciphers : list text) : list text :=
  [txt "IV_PROTO=" ++ IpText.decimal server_iv_proto]
  ++ (if supports_ncp_v2 data_ciphers then [txt "IV_NCP=2"] else [])
  ++ (if decide (data_ciphers <> []) then
        [txt "IV_CIPHERS=" ++ IpText.join [IpText.COLON] data_ciphers] else []).

(** The client reads the protocol flags of the server. *)
Lemma server_supports_export ciphers :
  Forall name_ok (advertised_data_ciphers ciphers) ->
  peer_supports_iv_proto_flag (build_tls_server_peer_info ciphers) TLS_IV_PROTO_TLS_KEY_EXPORT = true.
Proof.
  intros Hc. unfold peer_supports_iv_proto_flag, peer_info_iv_proto.
  assert (build_tls_server_peer_info ciphers
          = concat (line <$> server_lines (advertised_data_ciphers ciphers))) as ->.
  { unfold build_tls_server_peer_info, server_lines. repeat rewrite fmap_app, concat_app.
    cbn [fmap list_fmap concat]. rewrite app_nil_r. f_equal. f_equal; [by destruct (supports_ncp_v2 _)|].
    case_decide; [|done]. cbn [fmap list_fmap concat]. by rewrite app_nil_r. }
  rewrite lines_concat.
  - change (fun s => default s (strip_suffix [RETURN] s)) with line_text.
    unfold server_lines. cbn [fmap list_fmap app find_map].
    rewrite line_value_decimal by done. by rewrite parse_u32_decimal by done.
  - unfold server_lines. repeat apply Forall_app_2.
    + repeat constructor. by apply not_in.
    + destruct (supports_ncp_v2 _); repeat constructor. by apply not_in.
    + case_decide; repeat constructor. apply not_elem_of_app. split; [by apply not_in|].
      apply join_not_elem; [by apply not_in|]. eapply Forall_impl; [done|]. by intros s (? & ? & ? & ?).
Qed.

(** *** Agreement on the cipher *)

Lemma eq_ignore_ascii_case_spec a b :
  eq_ignore_ascii_case a b = true <-> to_ascii_lowercase a = to_ascii_lowercase b.
Proof. apply bool_decide_eq_true. Qed.

Lemma selected_in configured fallback ciphers push mtu compression os options c :
  Forall name_ok (advertised_data_ciphers ciphers) -> 0 <= mtu ->
  select_server_cipher configured fallback
    (build_tls_client_peer_info ciphers push mtu compression os) options = Ok c <->
  find (fun local => existsb (fun cipher => eq_ignore_ascii_case cipher local) (advertised_data_ciphers ciphers))
    (advertised_data_ciphers configured) = Some c.
Proof.
  intros Hc Hm. unfold select_server_cipher. rewrite client_cipher_list by done.
  assert (forall (f g : text -> bool) l, (forall x, f x = g x) -> find f l = find g l) as Hext.
  { intros f g l Hfg. unfold find. induction l as [|x l IH]; [done|]. cbn. by rewrite Hfg, IH. }
  erewrite (Hext _ _ (advertised_data_ciphers configured)) by (intros x; apply orb_false_r).
  destruct (find _ _) as [x|] eqn:E; [split; [by intros <-%Ok_inj|by intros [= <-]]|].
  rewrite decide_False by (by intros [? ?]). done.
Qed.

(** The client accepts what the server chose among its ciphers. *)
Lemma selected_validated configured fallback ciphers push mtu compression os options client_fallback c :
  Forall name_ok (advertised_data_ciphers ciphers) -> Forall name_ok (advertised_data_ciphers configured) ->
  0 <= mtu ->
  select_server_cipher configured fallback
    (build_tls_client_peer_info ciphers push mtu compression os) options = Ok c ->
  exists c', validate_server_pushed_cipher ciphers client_fallback c = Ok (Some c')
             /\ eq_ignore_ascii_case c' c = true.
Proof.
  intros Hc Hs Hm [Hin He]%selected_in%find_Some; [|done..].
  rewrite Forall_forall in Hs. apply Hs in Hin as (Hne & Ht & _).
  apply existsb_exists in He as (x & Hx%list_elem_of_In & Hxc).
  unfold validate_server_pushed_cipher. rewrite Ht, decide_False by done.
  destruct (_ && _) eqn:Ef; [apply andb_true_iff in Ef as [_ Ef]; eauto|].
  destruct (find_complete (fun cipher => eq_ignore_ascii_case cipher c) _ x Hx Hxc) as [y Ey].
  rewrite Ey. exists y. split; [done|]. by apply find_Some in Ey as [_ ?].
Qed.

End Negotiation.

(** ** Data keys *)

Inductive TlsSessionError : Type :=
| Io
| OpenSslStack
| KeyMethodFailed (error : KeyMethodError)
| RandomSource
| IncompleteKeySource.

Module KeyDerivation.
Section KeyDerivation.
Context `{Crypto}.

Definition TLS_PRF_MASTER_SECRET_LABEL : text := txt "OpenVPN master secret".
Definition TLS_PRF_KEY_EXPANSION_LABEL : text := txt "OpenVPN key expansion".
Definition TLS_PRF_MASTER_SECRET_LENGTH : nat := 48.
Definition TLS_PRF_KEY_MATERIAL_LENGTH : nat := 256.

(** The loop of [p_hash]; every round adds a digest. *)
Fixpoint p_hash_loop (fuel : nat) (d : OpenVpnAuthDigest) (secret seed : list Z) (wanted : nat)
    (a output : list Z) : list Z :=
  match fuel with
  | O => output
  | S fuel =>
      if decide (length output < wanted)%nat then
        p_hash_loop fuel d secret seed wanted (hmac d secret a) (output ++ hmac d secret (a ++ seed))
      else output
  end.

Definition p_hash (d : OpenVpnAuthDigest) (secret seed : list Z) (wanted : nat) : list Z :=
  take wanted (p_hash_loop wanted d secret seed wanted (hmac d secret seed) []).

Definition openvpn_tls1_prf (secret seed : list Z) (wanted : nat) : list Z :=
  let half := (length secret / 2)%nat in
  let split := (half + length secret mod 2)%nat in
  let md5 := p_hash Md5 (take split secret) seed wanted in
  let sha1 := p_hash Sha1 (take split (drop half secret)) seed wanted in
  zip_with Z.lxor md5 sha1.

Definition derive_tls_key_material_prf
    (client_pre_master client_random1 server_random1 client_random2 server_random2
     client_session_id server_session_id : list Z) : list Z :=
  let master_seed := TLS_PRF_MASTER_SECRET_LABEL ++ client_random1 ++ server_random1 in
  let master := openvpn_tls1_prf client_pre_master master_seed TLS_PRF_MASTER_SECRET_LENGTH in
  let expansion_seed :=
    TLS_PRF_KEY_EXPANSION_LABEL ++ client_random2 ++ server_random2 ++ client_session_id ++ server_session_id in
  openvpn_tls1_prf master expansion_seed TLS_PRF_KEY_MATERIAL_LENGTH.

(** [derive_session_key_material]; [export] is the exporter of the TLS session. *)
Definition derive_session_key_material (export : text -> nat -> option (list Z))
    (client_key_source server_key_source : TlsKeySource) (client_session_id server_session_id : list Z)
    (use_exporter : bool) : result TlsSessionError (list Z) :=
  if use_exporter then
    ok_or OpenSslStack (export (txt "EXPORTER-OpenVPN-datakeys") TLS_PRF_KEY_MATERIAL_LENGTH)
  else if decide (length (pre_master client_key_source) <> 48 \/ length (random1 client_key_source) <> 32
                  \/ length (random2 client_key_source) <> 32 \/ length (random1 server_key_source) <> 32
                  \/ length (random2 server_key_source) <> 32)%nat
  then Err IncompleteKeySource
  else
    Ok (derive_tls_key_material_prf (pre_master client_key_source) (random1 client_key_source)
          (random1 server_key_source) (random2 client_key_source) (random2 server_key_source)
          client_session_id server_session_id).

Context `{!CryptoLaws}.

Lemma p_hash_loop_length fuel d secret seed wanted a output :
  d <> DigestNone -> (wanted - length output <= fuel)%nat ->
  (wanted <= length (p_hash_loop fuel d secret seed wanted a output))%nat.
Proof.
  intros Hd. revert a output. induction fuel as [|fuel IH]; intros a output Hf; cbn; [lia|].
  case_decide; [|lia]. apply IH. rewrite length_app, hmac_length by done.
  destruct d; try done; cbn; lia.
Qed.

Lemma length_p_hash d secret seed wanted : d <> DigestNone -> length (p_hash d secret seed wanted) = wanted.
Proof.
  intros Hd. unfold p_hash. rewrite length_take.
  pose proof (p_hash_loop_length wanted d secret seed wanted (hmac d secret seed) [] Hd). cbn in *. lia.
Qed.

(** The keys have the length that the data codecs need. *)
Lemma length_openvpn_tls1_prf secret seed wanted : length (openvpn_tls1_prf secret seed wanted) = wanted.
Proof.
  unfold openvpn_tls1_prf. rewrite length_zip_with, !length_p_hash by done. lia.
Qed.

End KeyDerivation.
End KeyDerivation.
