(* ===== verification/OvpnRoute.v ===== *)
(** * Pushed addresses and routes ([route.rs])

    The parsers of the address, route and gateway options that a server
    pushes.  A row is the value of an option: words separated by spaces. *)

From stdpp Require Import base numbers list strings.
From Stdlib Require Import ZArith Lia.
From S2P Require Import Prelude OvpnText Text IpText SocksAddr OvpnIpPool OvpnControlMessage.

Local Open Scope Z_scope.

Import IpPrefix.

Global Instance OpenVpnIpPrefix_eq_dec : EqDecision OpenVpnIpPrefix.
Proof. solve_decision. Defined.

Record PushedRoute : Type := mkRoute {
  prefix : OpenVpnIpPrefix;
  gateway : option IpAddr;
  metric : Z;
  excluded : bool;
}.

Global Instance PushedRoute_eq_dec : EqDecision PushedRoute.
Proof. solve_decision. Defined.

Inductive RouteOptionError : Type :=
| EmptyIfconfig
| InvalidIfconfig (value : text)
| SubnetRequiresMask (value : text)
| UnknownTopology (value : text)
| ExpectedIpv4 (value : text)
| ExpectedIpv6 (value : text)
| InvalidPrefix (value : text)
| InvalidPrefixBits (value : text)
| InvalidIfconfigIpv6 (value : text)
| IfconfigIpv6Prefix (bits : Z)
| EmptyRoute
| EmptyRouteIpv6
| InvalidGateway (value : text)
| WrongGatewayFamily (value : text)
| InvalidMetric (value : text).

Module Route.

Definition is_ipv4 (a : IpAddr) : bool := match a with IpV4 _ => true | IpV6 _ => false end.
Definition is_ipv6 (a : IpAddr) : bool := negb (is_ipv4 a).

(** The message of an error. *)
Definition display_error (e : RouteOptionError) : text :=
  match e with
  | EmptyIfconfig => txt "empty ifconfig"
  | InvalidIfconfig v => txt "invalid ifconfig: " ++ v
  | SubnetRequiresMask v => txt "ifconfig subnet topology requires a dotted-quad netmask: " ++ v
  | UnknownTopology v => txt "unsupported OpenVPN topology: " ++ v
  | ExpectedIpv4 v => txt "expected an IPv4 address: " ++ v
  | ExpectedIpv6 v => txt "expected an IPv6 address without a zone: " ++ v
  | InvalidPrefix v => txt "invalid IP prefix: " ++ v
  | InvalidPrefixBits v => txt "invalid IP prefix length: " ++ v
  | InvalidIfconfigIpv6 v => txt "ifconfig-ipv6 expects local and remote endpoints: " ++ v
  | IfconfigIpv6Prefix bits =>
      txt "ifconfig-ipv6 prefix must be between 64 and 124, got " ++ IpText.decimal bits
  | EmptyRoute => txt "empty route"
  | EmptyRouteIpv6 => txt "empty route-ipv6"
  | InvalidGateway v => txt "invalid route gateway: " ++ v
  | WrongGatewayFamily v => txt "route gateway uses the wrong address family: " ++ v
  | InvalidMetric v => txt "invalid route metric: " ++ v
  end.

(** [u32::count_ones]. *)
Definition count_ones (x : Z) : Z := Z.of_nat (length (filter (fun i => Z.testbit x i = true) (seqZ 0 32))).

Definition dotted_ipv4_mask_bits (token : text) : option Z :=
  mask ← IpText.parse_ipv4 token;
  let inverted := U32_MAX - mask in
  if decide (Z.land inverted (wrap32 (inverted + 1)) = 0) then Some (count_ones mask) else None.

Definition is_ipv4_mask_gateway (a : Z) : bool :=
  match dotted_ipv4_mask_bits (IpText.display_v4 a) with
  | Some bits => bool_decide (bits < 32)
  | None => false
  end.

Definition parse_ifconfig_vpn_gateway (values : list text) (topology : text) : option Z :=
  if eq_ignore_ascii_case (trim topology) (txt "subnet") then None
  else
    find_map
      (fun value =>
         token ← split_whitespace value !! 1%nat;
         gateway ← IpText.parse_ipv4 token;
         if is_ipv4_mask_gateway gateway then None else Some gateway)
      values.

Definition is_net_gateway_token (value : text) : bool :=
  bool_decide (to_ascii_lowercase (trim value) ∈ [txt "net_gateway"; txt "dhcp"]).

Definition parse_prefix (token : text) : result RouteOptionError OpenVpnIpPrefix :=
  '(address, prefix) ← ok_or (InvalidPrefix token) (split_once IpText.SLASH token);
  address ← ok_or (InvalidPrefix token) (IpText.parse_ip address);
  prefix_len ← ok_or (InvalidPrefixBits prefix) (parse_u8 prefix);
  if decide ((is_ipv4 address = true /\ 32 < prefix_len) \/ 128 < prefix_len)
  then Err (InvalidPrefixBits prefix)
  else Ok (mkPrefix address prefix_len).

Definition parse_ipv6_address (token : text) : result RouteOptionError Z :=
  if decide (Socks.PERCENT ∈ token) then Err (ExpectedIpv6 token)
  else ok_or (ExpectedIpv6 token) (IpText.parse_ipv6 token).

Definition parse_ifconfig_prefix (value topology : text) : result RouteOptionError OpenVpnIpPrefix :=
  let value := trim value in
  if decide (value = []) then Err EmptyIfconfig
  else if decide (IpText.SLASH ∈ value) then parse_prefix value
  else
    match split_whitespace value with
    | [first; second] =>
        local ← ok_or (ExpectedIpv4 first) (IpText.parse_ipv4 first);
        let mask_bits := dotted_ipv4_mask_bits second in
        let topology :=
          if decide (trim topology = []) then
            match mask_bits with Some _ => txt "subnet" | None => txt "net30" end
          else trim topology in
        let lower := to_ascii_lowercase topology in
        prefix_len ←
          (if decide (lower = txt "subnet") then ok_or (SubnetRequiresMask value) mask_bits
           else if decide (lower = txt "p2p") then
             _ ← ok_or (ExpectedIpv4 second) (IpText.parse_ipv4 second); Ok 32
           else if decide (lower = txt "net30") then
             _ ← ok_or (ExpectedIpv4 second) (IpText.parse_ipv4 second); Ok 30
           else Err (UnknownTopology topology));
        Ok (mkPrefix (IpV4 local) prefix_len)
    | _ => Err (InvalidIfconfig value)
    end.

Definition parse_ipv6_address_prefix (token : text) : result RouteOptionError OpenVpnIpPrefix :=
  '(address, bits) ←
    match split_once IpText.SLASH token with
    | None => Ok (token, 64)
    | Some (address, []) => Ok (address, 0)
    | Some (address, bits) =>
        value ← ok_or (InvalidPrefixBits bits) (parse_u8 bits);
        if decide (128 < value) then Err (InvalidPrefixBits (IpText.decimal value)) else Ok (address, value)
    end;
  address ← parse_ipv6_address address;
  Ok (mkPrefix (IpV6 address) bits).

Definition parse_ifconfig_ipv6 (row : text) : result RouteOptionError (OpenVpnIpPrefix * Z) :=
  match split_whitespace row with
  | [first; second] =>
      prefix ← parse_ipv6_address_prefix first;
      remote ← parse_ipv6_address second;
      if decide (64 <= prefix_len prefix <= 124) then Ok (prefix, remote)
      else Err (IfconfigIpv6Prefix (prefix_len prefix))
  | _ => Err (InvalidIfconfigIpv6 row)
  end.

(** [Option::filter] by the family of the address. *)
Definition of_family (ipv4 : bool) (a : option IpAddr) : option IpAddr :=
  a ← a; if decide (is_ipv4 a = ipv4) then Some a else None.

Definition parse_route_gateway (token : text) (remote_host : option IpAddr) (ipv4 : bool)
    : result RouteOptionError (option IpAddr * bool) :=
  let token := trim token in
  if bool_decide (token = []) || eq_ignore_ascii_case token (txt "vpn_gateway") then Ok (None, false)
  else if eq_ignore_ascii_case token (txt "remote_host") then
    Ok (of_family ipv4 remote_host, false)
  else if is_net_gateway_token token then Ok (None, true)
  else
    gateway ← ok_or (InvalidGateway token) (IpText.parse_ip token);
    if decide (is_ipv4 gateway <> ipv4) then Err (WrongGatewayFamily token)
    else Ok (Some gateway, false).

(** The gateway and the metric after the destination: the words from [fields]
    on, the first of which is a metric when it is a number. *)
Definition parse_gateway_and_metric (fields : list text) (remote_host : option IpAddr) (ipv4 : bool)
    : result RouteOptionError (option IpAddr * Z * bool) :=
  '(gateway, metric, excluded, fields) ←
    match fields with
    | [] => Ok (None, 0, false, [])
    | value :: fields =>
        match parse_i32 value with
        | Some metric => Ok (None, metric, false, fields)
        | None =>
            '(gateway, excluded) ← parse_route_gateway value remote_host ipv4;
            Ok (gateway, 0, excluded, fields)
        end
    end;
  metric ← match fields with
           | [] => Ok metric
           | value :: _ => ok_or (InvalidMetric value) (parse_i32 value)
           end;
  Ok (gateway, metric, excluded).

Definition parse_pushed_route (row : text) (remote_host : option IpAddr)
    : result RouteOptionError PushedRoute :=
  match split_whitespace row with
  | [] => Err EmptyRoute
  | destination :: fields =>
      '(address, prefix_len, fields) ←
        (if decide (IpText.SLASH ∈ destination) then
           prefix ← parse_prefix destination;
           if is_ipv4 (address prefix) then Ok (address prefix, prefix_len prefix, fields)
           else Err (ExpectedIpv4 destination)
         else
           address ← ok_or (ExpectedIpv4 destination) (IpText.parse_ipv4 destination);
           match fields with
           | value :: rest =>
               match dotted_ipv4_mask_bits value with
               | Some mask => Ok (IpV4 address, mask, rest)
               | None => Ok (IpV4 address, 32, fields)
               end
           | [] => Ok (IpV4 address, 32, fields)
           end);
      '(gateway, metric, excluded) ← parse_gateway_and_metric fields remote_host true;
      Ok (mkRoute (mkPrefix address prefix_len) gateway metric excluded)
  end.

Definition parse_pushed_route_ipv6 (row : text) (remote_host : option IpAddr)
    : result RouteOptionError PushedRoute :=
  match split_whitespace row with
  | [] => Err EmptyRouteIpv6
  | destination :: fields =>
      prefix ← parse_ipv6_address_prefix destination;
      '(gateway, metric, excluded) ← parse_gateway_and_metric fields remote_host false;
      Ok (mkRoute (masked prefix) gateway metric excluded)
  end.

End Route.

(** ** What the parsers accept *)

Module RouteFacts.
Import Route.

(** The length of a prefix fits the family of its address. *)
Definition prefix_ok (p : OpenVpnIpPrefix) : Prop :=
  match address p with
  | IpV4 _ => 0 <= prefix_len p <= 32
  | IpV6 _ => 0 <= prefix_len p <= 128
  end.

Lemma parse_unsigned_range max s x : parse_unsigned max s = Some x -> 0 <= x <= max.
Proof.
  unfold parse_unsigned, Socks.read_unbounded. generalize (default s (strip_prefix [Socks.PLUS] s)). intros t.
  pose proof (Socks.read_digits_nonneg 10 0 0 t ltac:(lia) ltac:(lia)) as Hn.
  destruct (IpText.read_digits 10 0 0 t) as [[v n] r]. cbn in Hn.
  case_decide; [done|]. case_decide; [|done]. cbn. case_decide; [|done]. intros [= <-]. lia.
Qed.

Lemma mask_bits_range token bits : dotted_ipv4_mask_bits token = Some bits -> 0 <= bits <= 32.
Proof.
  unfold dotted_ipv4_mask_bits. destruct (IpText.parse_ipv4 token) as [m|]; [|done]. cbn [mbind option_bind].
  case_decide; [|done]. intros [= <-]. unfold count_ones.
  pose proof (length_filter (fun i => Z.testbit m i = true) (seqZ 0 32)) as Hl.
  rewrite length_seqZ in Hl. lia.
Qed.

Lemma parse_prefix_ok token p : parse_prefix token = Ok p -> prefix_ok p.
Proof.
  unfold parse_prefix. intros ([a b] & _ & Hp)%bind_Ok. apply bind_Ok in Hp as (addr & _ & Hp).
  apply bind_Ok in Hp as (len & Hlen & Hp). destruct (parse_u8 b) eqn:Eb; [|done]. apply Ok_inj in Hlen as ->.
  apply parse_unsigned_range in Eb. case_decide as Hd; [done|]. apply Ok_inj in Hp as <-.
  unfold prefix_ok. cbn. destruct addr; cbn in Hd; [|lia]. split; [lia|].
  destruct (decide (len <= 32)); [done|]. exfalso. apply Hd. left. split; [done|lia].
Qed.

Lemma parse_ipv6_prefix_ok token p :
  parse_ipv6_address_prefix token = Ok p -> prefix_ok p /\ is_ipv4 (address p) = false.
Proof.
  unfold parse_ipv6_address_prefix. intros ([a bits] & Hb & Hp)%bind_Ok.
  apply bind_Ok in Hp as (addr & _ & <-%Ok_inj). split; [|done]. unfold prefix_ok. cbn.
  destruct (split_once IpText.SLASH token) as [[x [|c y]]|]; [by apply Ok_inj in Hb as [= _ <-]| |by apply Ok_inj in Hb as [= _ <-]].
  apply bind_Ok in Hb as (v & Hv & Hb). destruct (parse_u8 (c :: y)) eqn:Eb; [|done]. apply Ok_inj in Hv as ->.
  apply parse_unsigned_range in Eb. case_decide; [done|]. apply Ok_inj in Hb as [= _ <-]. lia.
Qed.

Lemma parse_ifconfig_ok value topology p : parse_ifconfig_prefix value topology = Ok p -> prefix_ok p.
Proof.
  unfold parse_ifconfig_prefix. cbv zeta. case_decide; [done|]. case_decide; [apply parse_prefix_ok|].
  destruct (split_whitespace (trim value)) as [|a [|b [|]]]; [done|done| |done].
  intros (local & _ & Hp)%bind_Ok. apply bind_Ok in Hp as (len & Hlen & <-%Ok_inj). unfold prefix_ok. cbn.
  revert Hlen. match goal with |- context [to_ascii_lowercase ?t] => generalize t end. intros t. case_decide.
  - destruct (dotted_ipv4_mask_bits b) as [bits|] eqn:Eb; [|done]. intros <-%Ok_inj. by apply mask_bits_range in Eb.
  - case_decide; [intros (? & _ & <-%Ok_inj)%bind_Ok; lia|].
    case_decide; [intros (? & _ & <-%Ok_inj)%bind_Ok; lia|done].
Qed.

Lemma parse_ifconfig_ipv6_ok row p peer : parse_ifconfig_ipv6 row = Ok (p, peer) -> prefix_ok p.
Proof.
  unfold parse_ifconfig_ipv6. destruct (split_whitespace row) as [|a [|b [|]]]; [done|done| |done].
  intros (q & Hq & Hp)%bind_Ok. apply bind_Ok in Hp as (r & _ & Hp). case_decide; [|done].
  apply Ok_inj in Hp as [= <- _]. by apply parse_ipv6_prefix_ok in Hq as [? _].
Qed.

Lemma parse_route_ok row host route : parse_pushed_route row host = Ok route -> prefix_ok (prefix route).
Proof.
  unfold parse_pushed_route. destruct (split_whitespace row) as [|d fields]; [done|].
  intros ([[a len] rest] & Hd & Hr)%bind_Ok. apply bind_Ok in Hr as ([[g m] e] & _ & <-%Ok_inj).
  cbn [prefix]. revert Hd. case_decide.
  - intros (p & Hp & Hd)%bind_Ok. destruct (is_ipv4 (address p)); [|done]. apply Ok_inj in Hd as [= <- <- _].
    apply parse_prefix_ok in Hp. by destruct p.
  - intros (v & _ & Hd)%bind_Ok. destruct fields as [|f fields]; [by apply Ok_inj in Hd as [= <- <- _]|].
    destruct (dotted_ipv4_mask_bits f) eqn:Em; apply Ok_inj in Hd as [= <- <- _]; [|done].
    by apply mask_bits_range in Em.
Qed.

Lemma parse_route_ipv6_ok row host route : parse_pushed_route_ipv6 row host = Ok route -> prefix_ok (prefix route).
Proof.
  unfold parse_pushed_route_ipv6. destruct (split_whitespace row) as [|d fields]; [done|].
  intros (p & [Hp H6]%parse_ipv6_prefix_ok & Hr)%bind_Ok. apply bind_Ok in Hr as ([[g m] e] & _ & <-%Ok_inj).
  cbn [prefix]. unfold prefix_ok, masked in *. by destruct p as [[] len].
Qed.

End RouteFacts.
