(* ===== verification/OvpnPushOptions.v ===== *)
(** * Pushed options ([pull_options.rs], [push_options.rs])

    The options that a server pushes: the lexer of an option line, the reading
    of the lines into options on the client, with its pull filters, and the
    writing of the options as lines on the server.  Durations are
    nanoseconds. *)

From stdpp Require Import base numbers list strings.
From Stdlib Require Import ZArith Lia.
From S2P Require Import Prelude OvpnText Text IpText SocksAddr OvpnIpPool OvpnControlMessage OvpnKeyMethod OvpnRoute.

Local Open Scope Z_scope.
Local Open Scope record_scope.
Import IpPrefix.

Inductive PushOptionsKind : Type := Reply | Update.

Record PullFilter : Type := mkFilter { filter_action : text; filter_text : text }.

Record PushedOptionParseError : Type := mkParseError {
  error_name : text;
  error_value : text;
  error_message : text;
}.

Record PushedExcludedRoute : Type := mkExcluded {
  excluded_name : text;
  excluded_value : text;
  excluded_route : PushedRoute;
}.

Record PushedLocalAddress : Type := mkLocalAddress {
  local_prefix : OpenVpnIpPrefix;
  local_peer : option IpAddr;
  local_raw : text;
}.

Record PushedRouteEntry : Type := mkRouteEntry { entry_route : PushedRoute; entry_raw : text }.

Record PushedAddress : Type := mkPushedAddress {
  pushed_address : IpAddr;
  pushed_raw : text;
  option_name : text;
}.

Record TunnelDnsServer : Type := mkDnsServer {
  priority : Z;
  addresses : list SocketAddr;
  resolve_domains : list text;
  dnssec : text;
  transport : text;
  sni : text;
}.

Global Instance TunnelDnsServer_settable : Settable TunnelDnsServer :=
  fun s => mkDnsServer (priority s) (addresses s) (resolve_domains s) (dnssec s) (transport s) (sni s).

Record PushedCompressionDirective : Type := mkDirective {
  directive_name : text;
  directive_value : text;
}.

Record PushedOptions : Type := mkPushedOptions {
  kind : PushOptionsKind;
  modern_dns : bool;
  modern_dns_addresses : list PushedAddress;
  modern_search_domains : list text;
  pull_filter_rejection : text;
  topology : text;
  tun_mtu : Z;
  local_address : list PushedLocalAddress;
  route_gateway : option IpAddr;
  route_gateway_vpn : bool;
  route_gateway_raw : text;
  routes : list PushedRouteEntry;
  dns : list PushedAddress;
  dns_servers : list TunnelDnsServer;
  dhcp_options : list text;
  search_domains : list text;
  dns_routes : list text;
  block_ipv6 : bool;
  block_outside_dns : bool;
  redirect_gateway : bool;
  redirect_gateway_flags : list text;
  redirect_private : bool;
  route_metric : Z;
  route_metric_set : bool;
  ping_interval : Z;
  ping_interval_enabled : bool;
  ping_restart : Z;
  ping_restart_enabled : bool;
  auth_token : text;
  auth_token_user : text;
  peer_id : option Z;
  selected_cipher : text;
  selected_auth : text;
  protocol_flags : list text;
  key_derivation : text;
  explicit_exit_notify : Z;
  explicit_exit_notify_set : bool;
  compression_directives : list PushedCompressionDirective;
  inactive_timeout : Z;
  inactive_minimum_bytes : Z;
  inactive_timeout_set : bool;
  session_timeout : Z;
  session_timeout_set : bool;
  ping_exit : Z;
  ping_exit_set : bool;
  ping_timer_remote : bool;
  parse_errors : list PushedOptionParseError;
  excluded_routes : list PushedExcludedRoute;
}.

Global Instance PushedOptions_settable : Settable PushedOptions :=
  fun o =>
    mkPushedOptions (kind o) (modern_dns o) (modern_dns_addresses o) (modern_search_domains o)
      (pull_filter_rejection o) (topology o) (tun_mtu o) (local_address o) (route_gateway o)
      (route_gateway_vpn o) (route_gateway_raw o) (routes o) (dns o) (dns_servers o) (dhcp_options
      o) (search_domains o) (dns_routes o) (block_ipv6 o) (block_outside_dns o) (redirect_gateway o)
      (redirect_gateway_flags o) (redirect_private o) (route_metric o) (route_metric_set o)
      (ping_interval o) (ping_interval_enabled o) (ping_restart o) (ping_restart_enabled o)
      (auth_token o) (auth_token_user o) (peer_id o) (selected_cipher o) (selected_auth o)
      (protocol_flags o) (key_derivation o) (explicit_exit_notify o) (explicit_exit_notify_set o)
      (compression_directives o) (inactive_timeout o) (inactive_minimum_bytes o)
      (inactive_timeout_set o) (session_timeout o) (session_timeout_set o) (ping_exit o)
      (ping_exit_set o) (ping_timer_remote o) (parse_errors o) (excluded_routes o).

Definition pushed_options_default : PushedOptions :=
  mkPushedOptions Reply false [] [] [] [] 0 [] None false [] [] [] [] [] [] [] false false false []
    false 0 false 0 false 0 false [] [] None [] [] [] [] 0 false [] 0 0 false 0 false 0 false false
    [] [].

Inductive PingTimeoutAction : Type := NoAction | RestartAction | ExitAction.

(** The options as they are on the wire. *)
Record WirePushedOptions : Type := mkWire {
  w_topology : text;
  w_tun_mtu : Z;
  w_ifconfig : text;
  w_ifconfig_ipv6 : text;
  w_route_gateway : text;
  w_route : list text;
  w_route_ipv6 : list text;
  w_dns : list text;
  w_dhcp_options : list text;
  w_block_ipv6 : bool;
  w_block_outside_dns : bool;
  w_redirect_gateway : bool;
  w_redirect_gateway_flags : list text;
  w_redirect_private : bool;
  w_route_metric : Z;
  w_route_metric_set : bool;
  w_ping_interval : Z;
  w_ping_interval_enabled : bool;
  w_ping_restart : Z;
  w_ping_restart_enabled : bool;
  w_auth_token : text;
  w_auth_token_user : text;
  w_peer_id : option Z;
  w_selected_cipher : text;
  w_selected_auth : text;
  w_protocol_flags : list text;
  w_key_derivation : text;
  w_explicit_exit_notify : Z;
  w_explicit_exit_notify_set : bool;
  w_compression_directives : list PushedCompressionDirective;
  w_inactive_timeout : Z;
  w_inactive_minimum_bytes : Z;
  w_inactive_timeout_set : bool;
  w_session_timeout : Z;
  w_session_timeout_set : bool;
  w_ping_exit : Z;
  w_ping_exit_set : bool;
  w_ping_timeout_action : PingTimeoutAction;
  w_ping_timer_remote : bool;
}.

Global Instance WirePushedOptions_settable : Settable WirePushedOptions :=
  fun o =>
    mkWire (w_topology o) (w_tun_mtu o) (w_ifconfig o) (w_ifconfig_ipv6 o) (w_route_gateway o)
      (w_route o) (w_route_ipv6 o) (w_dns o) (w_dhcp_options o) (w_block_ipv6 o)
      (w_block_outside_dns o) (w_redirect_gateway o) (w_redirect_gateway_flags o)
      (w_redirect_private o) (w_route_metric o) (w_route_metric_set o) (w_ping_interval o)
      (w_ping_interval_enabled o) (w_ping_restart o) (w_ping_restart_enabled o) (w_auth_token o)
      (w_auth_token_user o) (w_peer_id o) (w_selected_cipher o) (w_selected_auth o)
      (w_protocol_flags o) (w_key_derivation o) (w_explicit_exit_notify o)
      (w_explicit_exit_notify_set o) (w_compression_directives o) (w_inactive_timeout o)
      (w_inactive_minimum_bytes o) (w_inactive_timeout_set o) (w_session_timeout o)
      (w_session_timeout_set o) (w_ping_exit o) (w_ping_exit_set o) (w_ping_timeout_action o)
      (w_ping_timer_remote o).

Definition wire_default : WirePushedOptions :=
  mkWire [] 0 [] [] [] [] [] [] [] false false false [] false 0 false 0 false 0 false [] [] None []
    [] [] [] 0 false [] 0 0 false 0 false 0 false NoAction false.

Module Pull.
Import Control.

Definition PUSHED_OPTION_LINE_MAX_PARAMETERS : nat := 16.
Definition PEER_ID_MAX_VALUE : Z := Z.shiftl 1 24 - 1.
Definition MAX_TUNNEL_DNS_SERVER_ADDRESSES : nat := 8.

(** ** Option lines *)

Inductive LexState : Type := Initial | Quoted | SingleQuoted | Unquoted | Done.

Global Instance LexState_eq_dec : EqDecision LexState.
Proof. solve_decision. Defined.

Record Lexer : Type := mkLexer {
  parameters : list text;
  parameter : text;
  lex_state : LexState;
  backslash : bool;
}.

Definition space (c : Z) : bool := bool_decide (c ∈ [0; 32; 9; 10; 11; 12; 13]).

Definition BACKSLASH : Z := 92.
Definition QUOTE : Z := 34.
Definition APOSTROPHE : Z := 39.

Inductive LexOutcome : Type :=
| LexNext (l : Lexer)
| LexBreak (l : Lexer)
| LexInvalid.

(** The state after a character and the character it stores; nothing when the
    rest of the line is a comment. *)
Definition lex_transition (state : LexState) (backslash : bool) (c : Z) : option (LexState * option Z) :=
  match state with
  | Initial =>
      if space c then Some (Initial, None)
      else if decide (c = 59 \/ c = 35) then None
      else if negb backslash && bool_decide (c = QUOTE) then Some (Quoted, None)
      else if negb backslash && bool_decide (c = APOSTROPHE) then Some (SingleQuoted, None)
      else Some (Unquoted, Some c)
  | Unquoted => if negb backslash && space c then Some (Done, None) else Some (Unquoted, Some c)
  | Quoted =>
      if negb backslash && bool_decide (c = QUOTE) then Some (Done, None) else Some (Quoted, Some c)
  | SingleQuoted => if decide (c = APOSTROPHE) then Some (Done, None) else Some (SingleQuoted, Some c)
  | Done => Some (Done, None)
  end.

Definition lex_step (l : Lexer) (c : Z) : LexOutcome :=
  if negb (backslash l) && bool_decide (c = BACKSLASH) && bool_decide (lex_state l <> SingleQuoted) then
    LexNext (mkLexer (parameters l) (parameter l) (lex_state l) true)
  else if backslash l && bool_decide (c <> BACKSLASH) && bool_decide (c <> QUOTE) && negb (space c) then
    LexInvalid
  else
    match lex_transition (lex_state l) (backslash l) c with
    | None => LexBreak l
    | Some (Done, stored) =>
        if utf8_valid (parameter l) then
          let parameters := parameters l ++ [parameter l] in
          if decide (PUSHED_OPTION_LINE_MAX_PARAMETERS <= length parameters)%nat then
            LexBreak (mkLexer parameters [] Initial (backslash l))
          else LexNext (mkLexer parameters [] Initial false)
        else LexInvalid
    | Some (state, stored) =>
        LexNext (mkLexer (parameters l)
          (parameter l ++ match stored with Some c => if decide (c = 0) then [] else [c] | None => [] end)
          state false)
    end.

Fixpoint lex (l : Lexer) (line : text) : option Lexer :=
  match line with
  | [] => Some l
  | c :: line =>
      match lex_step l c with
      | LexNext l => lex l line
      | LexBreak l => Some l
      | LexInvalid => None
      end
  end.

(** The line is read up to a null byte after its end. *)
Definition parse_pushed_option_line (line : text) : option (list text) :=
  l ← lex (mkLexer [] [] Initial false) (line ++ [0]);
  if decide (lex_state l = Initial /\ parameters l <> []) then Some (parameters l) else None.

(** ** Numbers *)

Fixpoint trim_start_spaces (s : text) : text :=
  match s with
  | [] => []
  | b :: s' => if decide (b ∈ [32; 9; 10; 11; 12; 13]) then trim_start_spaces s' else s
  end.

(** [i64 as i32]. *)
Definition as_i32 (x : Z) : Z := (x + 2 ^ 31) mod 2 ^ 32 - 2 ^ 31.

Definition I64_MIN : Z := - 2 ^ 63.
Definition I64_MAX : Z := 2 ^ 63 - 1.

Definition parse_pushed_positive_integer (value : text) : Z :=
  let s := trim_start_spaces value in
  let '(negative, digits) :=
    match s with
    | b :: s' => if decide (b = MINUS) then (true, s') else if decide (b = Socks.PLUS) then (false, s') else (false, s)
    | [] => (false, s)
    end in
  let '(x, count, _) := IpText.read_digits 10 0 0 digits in
  if decide (count = 0%nat) then 0
  else
    let parsed := if negative then Z.max I64_MIN (- x) else Z.min I64_MAX x in
    Z.max 0 (as_i32 parsed).

Definition parse_pushed_second_count (value : text) : Z := from_secs (parse_pushed_positive_integer value).

Definition fields (value : text) : list text := split_whitespace value.

Definition append_unique (values : list text) (value : text) : list text :=
  if decide (value ∈ values) then values else values ++ [value].

(** ** Filters *)

Fixpoint apply_pull_filters (filters : list PullFilter) (option_line : text) : bool * bool :=
  match filters with
  | [] => (true, false)
  | f :: filters =>
      if decide (filter_text f `prefix_of` option_line) then
        if decide (filter_action f = txt "accept") then (true, false)
        else if decide (filter_action f = txt "ignore") then (false, false)
        else if decide (filter_action f = txt "reject") then (false, true)
        else apply_pull_filters filters option_line
      else apply_pull_filters filters option_line
  end.

(** ** Reading the lines *)

Definition set_peer_id (wire : WirePushedOptions) (value : text) : WirePushedOptions :=
  match parse_u32 (trim value) with
  | Some id => if decide (id <= PEER_ID_MAX_VALUE) then wire <| w_peer_id := Some id |> else wire
  | None => wire
  end.

Definition set_inactive (wire : WirePushedOptions) (value : text) : WirePushedOptions :=
  match split_whitespace value with
  | [] => wire
  | timeout :: rest =>
      let wire := wire <| w_inactive_timeout := parse_pushed_second_count timeout |>
                       <| w_inactive_timeout_set := true |> in
      match rest with
      | minimum :: _ =>
          match parse_signed I64_MIN I64_MAX minimum with
          | Some minimum => if decide (0 < minimum) then wire <| w_inactive_minimum_bytes := minimum |> else wire
          | None => wire
          end
      | [] => wire
      end
  end.

Definition continuation_value (value : text) : option Z :=
  value ← parse_u8 value; if decide (value <= 2) then Some value else None.

(** One option; [given] is true when it has a value. *)
Definition apply_option (wire : WirePushedOptions) (name value : text) : WirePushedOptions :=
  let given := bool_decide (value <> []) in
  let opt (s : string) := bool_decide (to_ascii_lowercase name = txt s) in
  if opt "topology" && given then wire <| w_topology := value |>
  else if opt "tun-mtu" then
    let value := parse_pushed_positive_integer value in
    if decide (0 < value) then wire <| w_tun_mtu := value |> else wire
  else if opt "ifconfig" && given then wire <| w_ifconfig := value |>
  else if opt "ifconfig-ipv6" && given then wire <| w_ifconfig_ipv6 := value |>
  else if opt "route" && given then wire <| w_route ::= fun l => l ++ [value] |>
  else if opt "route-gateway" && given then wire <| w_route_gateway := value |>
  else if opt "route-ipv6" && given then wire <| w_route_ipv6 ::= fun l => l ++ [value] |>
  else if opt "dns" && given then wire <| w_dns ::= fun l => l ++ [value] |>
  else if opt "dhcp-option" && given then wire <| w_dhcp_options ::= fun l => l ++ [value] |>
  else if opt "block-ipv6" then wire <| w_block_ipv6 := true |>
  else if opt "block-outside-dns" then wire <| w_block_outside_dns := true |>
  else if opt "redirect-gateway" then
    let wire := wire <| w_redirect_gateway := true |> in
    if given then wire <| w_redirect_gateway_flags := fields value |> else wire
  else if opt "redirect-private" then
    let wire := wire <| w_redirect_private := true |> in
    if given then wire <| w_redirect_gateway_flags := fields value |> else wire
  else if opt "route-metric" && given then
    wire <| w_route_metric := parse_pushed_positive_integer value |> <| w_route_metric_set := true |>
  else if opt "ping" && given then
    wire <| w_ping_interval := parse_pushed_second_count value |> <| w_ping_interval_enabled := true |>
  else if opt "ping-restart" && given then
    wire <| w_ping_restart := parse_pushed_second_count value |> <| w_ping_restart_enabled := true |>
         <| w_ping_timeout_action := RestartAction |>
  else if opt "auth-token" then wire <| w_auth_token := value |>
  else if opt "auth-token-user" then wire <| w_auth_token_user := value |>
  else if opt "peer-id" then set_peer_id wire value
  else if opt "cipher" && given then wire <| w_selected_cipher := value |>
  else if opt "auth" && given then wire <| w_selected_auth := value |>
  else if opt "protocol-flags" && given then wire <| w_protocol_flags := fields value |>
  else if opt "key-derivation" && given then wire <| w_key_derivation := to_ascii_lowercase (trim value) |>
  else if opt "explicit-exit-notify" then
    wire <| w_explicit_exit_notify := if given then parse_pushed_positive_integer value else 1 |>
         <| w_explicit_exit_notify_set := true |>
  else if opt "compress" || opt "comp-lzo" then
    wire <| w_compression_directives ::= fun l => l ++ [mkDirective (to_ascii_lowercase name) (trim value)] |>
  else if opt "inactive" then set_inactive wire value
  else if opt "session-timeout" && given then
    wire <| w_session_timeout := parse_pushed_second_count value |> <| w_session_timeout_set := true |>
  else if opt "ping-exit" && given then
    wire <| w_ping_exit := parse_pushed_second_count value |> <| w_ping_exit_set := true |>
         <| w_ping_timeout_action := ExitAction |>
  else if opt "ping-timer-rem" then wire <| w_ping_timer_remote := true |>
  else wire.

Definition SPACE : Z := 32.

Definition next_continuation (continuation : Z) (name value : text) : Z :=
  if decide (to_ascii_lowercase name = txt "push-continuation") then
    default continuation (continuation_value value)
  else continuation.

(** The loop over the lines: the options read, the continuation, and the line
    that a filter rejects, after which no line is read. *)
Fixpoint decode_lines (filters : list PullFilter) (lines : list text) (wire : WirePushedOptions)
    (continuation : Z) : WirePushedOptions * Z * text :=
  match lines with
  | [] => (wire, continuation, [])
  | payload_line :: lines =>
      let option_line := trim_start_spaces payload_line in
      let '(allowed, rejected) := apply_pull_filters filters option_line in
      if rejected then (wire, continuation, option_line)
      else if negb allowed then decode_lines filters lines wire continuation
      else
        match parse_pushed_option_line payload_line with
        | Some (name :: values) =>
            let value := IpText.join [SPACE] values in
            decode_lines filters lines (apply_option wire name value) (next_continuation continuation name value)
        | _ => decode_lines filters lines wire continuation
        end
  end.

(** ** From the wire to the options *)

Definition add_parse_error (o : PushedOptions) (name value message : text) : PushedOptions :=
  o <| parse_errors ::= fun l => l ++ [mkParseError name value message] |>.

Definition add_wire_ifconfig (o : PushedOptions) (value topology : text) : PushedOptions :=
  let raw := trim value in
  if decide (raw = []) then o
  else
    match Route.parse_ifconfig_prefix raw topology with
    | Ok prefix =>
        o <| local_address ::= fun l =>
          l ++ [mkLocalAddress prefix (IpV4 <$> Route.parse_ifconfig_vpn_gateway [raw] topology) raw] |>
    | Err error => add_parse_error o (txt "ifconfig") raw (Route.display_error error)
    end.

Definition add_wire_ifconfig_ipv6 (o : PushedOptions) (value : text) : PushedOptions :=
  let raw := trim value in
  if decide (raw = []) then o
  else
    match Route.parse_ifconfig_ipv6 raw with
    | Ok (prefix, peer) => o <| local_address ::= fun l => l ++ [mkLocalAddress prefix (Some (IpV6 peer)) raw] |>
    | Err error => add_parse_error o (txt "ifconfig-ipv6") raw (Route.display_error error)
    end.

Definition set_wire_route_gateway (o : PushedOptions) (value : text) : PushedOptions :=
  let raw := trim value in
  if decide (raw = []) then o
  else
    let o := o <| route_gateway_raw := raw |> in
    match split_whitespace raw with
    | [] => o
    | value :: _ =>
        if eq_ignore_ascii_case value (txt "vpn_gateway") then o <| route_gateway_vpn := true |>
        else
          match IpText.parse_ip value with
          | Some address => o <| route_gateway := Some address |>
          | None => add_parse_error o (txt "route-gateway") raw (txt "invalid pushed route gateway")
          end
    end.

Definition add_wire_route_inner (o : PushedOptions) (name value : text)
    (r : result RouteOptionError PushedRoute) : PushedOptions :=
  let raw := trim value in
  if decide (raw = []) then o
  else
    match r with
    | Ok route =>
        if excluded route then o <| excluded_routes ::= fun l => l ++ [mkExcluded name raw route] |>
        else o <| routes ::= fun l => l ++ [mkRouteEntry route raw] |>
    | Err error => add_parse_error o name raw (Route.display_error error)
    end.

Definition add_wire_route (remote_host : option IpAddr) (o : PushedOptions) (value : text) : PushedOptions :=
  add_wire_route_inner o (txt "route") value (Route.parse_pushed_route value remote_host).

Definition add_wire_route_ipv6 (remote_host : option IpAddr) (o : PushedOptions) (value : text) : PushedOptions :=
  add_wire_route_inner o (txt "route-ipv6") value (Route.parse_pushed_route_ipv6 value remote_host).

Definition parse_tunnel_dns_address (value : text) : result text SocketAddr :=
  match IpText.parse_ip value with
  | Some address => Ok {| ip := address; sa_port := 0; scope_id := 0 |}
  | None =>
      address ← ok_or (txt "invalid socket address syntax") (Socks.parse_socket value);
      if decide (sa_port address = 0) then Err (txt "dns server port must not be zero") else Ok address
  end.

Definition domain_byte (b : Z) : bool :=
  bool_decide (48 <= b <= 57 \/ 65 <= b <= 90 \/ 97 <= b <= 122 \/ b ∈ [46; 45; 95] \/ 128 <= b).

Definition validate_tunnel_dns_domain (domain : text) : bool :=
  bool_decide (domain <> []) && forallb domain_byte domain.

(** The position of the server with this priority; a new one goes to the end. *)
Definition tunnel_dns_server_index (o : PushedOptions) (p : Z) : nat * PushedOptions :=
  match list_find (fun server => priority server = p) (dns_servers o) with
  | Some (index, _) => (index, o)
  | None =>
      (length (dns_servers o), o <| dns_servers ::= fun l => l ++ [mkDnsServer p [] [] [] [] []] |>)
  end.

Definition update_server (o : PushedOptions) (index : nat) (f : TunnelDnsServer -> TunnelDnsServer) : PushedOptions :=
  o <| dns_servers ::= alter f index |>.

Definition server_addresses (o : PushedOptions) (index : nat) : nat :=
  from_option (fun server => length (addresses server)) 0%nat (dns_servers o !! index).

(** The addresses of a server, up to eight. *)
Fixpoint add_server_addresses (o : PushedOptions) (index : nat) (raw : text) (values : list text) : PushedOptions :=
  match values with
  | [] => o
  | value :: values =>
      if decide (MAX_TUNNEL_DNS_SERVER_ADDRESSES <= server_addresses o index)%nat then
        add_parse_error o (txt "dns") raw (txt "dns server address maximum exceeded: " ++ value)
      else
        match parse_tunnel_dns_address value with
        | Ok a =>
            let pushed := mkPushedAddress (ip a) raw (txt "dns") in
            let o := update_server o index (fun server => server <| addresses ::= fun l => l ++ [a] |>) in
            let o := o <| dns ::= fun l => l ++ [pushed] |> <| modern_dns_addresses ::= fun l => l ++ [pushed] |> in
            add_server_addresses o index raw values
        | Err message =>
            add_server_addresses
              (add_parse_error o (txt "dns") raw (txt "parse dns server address: " ++ value ++ txt ": " ++ message))
              index raw values
        end
  end.

Definition add_resolve_domain (index : nat) (raw : text) (o : PushedOptions) (domain : text) : PushedOptions :=
  if validate_tunnel_dns_domain domain then
    update_server o index (fun server => server <| resolve_domains ::= fun l => append_unique l domain |>)
  else add_parse_error o (txt "dns") raw (txt "dns resolve domain contains invalid characters: " ++ domain).

Definition add_search_domain (raw : text) (o : PushedOptions) (domain : text) : PushedOptions :=
  if validate_tunnel_dns_domain domain then
    o <| search_domains ::= fun l => append_unique l domain |>
      <| modern_search_domains ::= fun l => append_unique l domain |>
  else add_parse_error o (txt "dns") raw (txt "dns search domain contains invalid characters: " ++ domain).

(** An option of the server at [index]; [values] are the words after its name. *)
Definition set_server_option (o : PushedOptions) (index : nat) (raw name : text) (values : list text)
    : PushedOptions :=
  let lower := to_ascii_lowercase name in
  let error message := add_parse_error o (txt "dns") raw message in
  if decide (lower = txt "address") then
    if decide (values = []) then error (txt "dns server address requires address value")
    else add_server_addresses o index raw values
  else if decide (lower = txt "resolve-domains") then
    if decide (values = []) then error (txt "dns server resolve-domains requires domain value")
    else foldl (add_resolve_domain index raw) o values
  else if decide (lower = txt "dnssec") then
    match values with
    | [value] =>
        let mode := to_ascii_lowercase value in
        if decide (mode ∈ [txt "yes"; txt "optional"; txt "no"]) then
          update_server o index (fun server => server <| dnssec := mode |>)
        else error (txt "invalid dnssec mode: " ++ value)
    | _ => error (txt "dns server dnssec requires one value")
    end
  else if decide (lower = txt "transport") then
    match values with
    | [value] =>
        let set t := update_server o index (fun server => server <| transport := t |>) in
        if decide (value = txt "plain") then set (txt "plain")
        else if decide (value = txt "DoT") then set (txt "dot")
        else if decide (value = txt "DoH") then set (txt "doh")
        else error (txt "invalid dns transport: " ++ value)
    | _ => error (txt "dns server transport requires one value")
    end
  else if decide (lower = txt "sni") then
    match values with
    | [value] =>
        if validate_tunnel_dns_domain value then update_server o index (fun server => server <| sni := value |>)
        else error (txt "dns server sni contains invalid characters: " ++ value)
    | _ => error (txt "dns server sni requires one value")
    end
  else error (txt "unsupported dns server option: " ++ name).

Definition add_wire_dns_option_v2 (o : PushedOptions) (value : text) : PushedOptions :=
  let raw := trim value in
  match split_whitespace raw with
  | [] => o
  | first :: values =>
      if eq_ignore_ascii_case first (txt "search-domains") then
        if decide (values = []) then add_parse_error o (txt "dns") raw (txt "dns search-domains requires domain value")
        else foldl (add_search_domain raw) o values
      else if negb (eq_ignore_ascii_case first (txt "server")) then o
      else
        match values with
        | number :: name :: values =>
            match parse_i32 number with
            | None => add_parse_error o (txt "dns") raw (txt "parse dns server priority: " ++ number)
            | Some p =>
                if decide (0 <= p <= 127) then
                  let '(index, o) := tunnel_dns_server_index o p in
                  set_server_option o index raw name values
                else
                  add_parse_error o (txt "dns") raw (txt "pushed dns server priority must be between 0 and 127")
            end
        | _ => add_parse_error o (txt "dns") raw (txt "invalid dns server option: " ++ raw)
        end
  end.

Definition add_dhcp_domains (o : PushedOptions) (name raw : text) (domains : list text) (route : bool)
    : PushedOptions :=
  if decide (domains = []) then
    add_parse_error o (txt "dhcp-option") raw (txt "dhcp-option " ++ name ++ txt " requires domain value")
  else
    foldl
      (fun o domain =>
         if negb (validate_tunnel_dns_domain domain) then
           add_parse_error o (txt "dhcp-option") raw
             (txt "dhcp-option " ++ name ++ txt " contains invalid domain: " ++ domain)
         else if route then o <| dns_routes ::= fun l => append_unique l domain |>
         else o <| search_domains ::= fun l => append_unique l domain |>)
      o domains.

(** One address of a [DNS] or [DNS6] option. *)
Definition add_dhcp_address (name raw : text) (o : PushedOptions) (value : text) : PushedOptions :=
  let error message := add_parse_error o (txt "dhcp-option") raw message in
  match IpText.parse_ip value with
  | Some a =>
      if decide ((name = txt "DNS" /\ Route.is_ipv4 a = true) \/ (name = txt "DNS6" /\ Route.is_ipv6 a = true))
      then o <| dns ::= fun l => l ++ [mkPushedAddress a raw (txt "dhcp-option")] |>
      else error (txt "dhcp-option " ++ name ++ txt " expected matching address family: " ++ value)
  | None =>
      error (txt "parse dhcp-option " ++ name ++ txt " address: " ++ value ++ txt ": invalid IP address syntax")
  end.

Definition add_wire_dhcp_option_dns (o : PushedOptions) (value : text) : PushedOptions :=
  let raw := trim value in
  match split_whitespace raw with
  | [] => o
  | first :: values =>
      let name := to_ascii_uppercase first in
      if decide (name ∈ [txt "DOMAIN"; txt "ADAPTER_DOMAIN_SUFFIX"; txt "DOMAIN-SEARCH"]) then
        add_dhcp_domains o name raw values false
      else if decide (name = txt "DOMAIN-ROUTE") then add_dhcp_domains o name raw values true
      else if decide (name <> txt "DNS" /\ name <> txt "DNS6") then o
      else if decide (values = []) then
        add_parse_error o (txt "dhcp-option") raw (txt "dhcp-option " ++ name ++ txt " requires address value")
      else foldl (add_dhcp_address name raw) o values
  end.

Definition is_dns_dhcp_option (value : text) : bool :=
  match split_whitespace value with
  | [] => false
  | name :: _ =>
      bool_decide (to_ascii_uppercase name ∈
        [txt "DNS"; txt "DNS6"; txt "DOMAIN"; txt "ADAPTER_DOMAIN_SUFFIX"; txt "DOMAIN-SEARCH"; txt "DOMAIN-ROUTE"])
  end.

Definition filter_openvpn_non_dns_dhcp_options (values : list text) : list text :=
  filter (fun value => is_dns_dhcp_option value = false) values.

(** The options that are taken over as they are. *)
Definition copy_wire (w : WirePushedOptions) : PushedOptions :=
  pushed_options_default
    <| topology := w_topology w |> <| tun_mtu := w_tun_mtu w |> <| dhcp_options := w_dhcp_options w |>
    <| block_ipv6 := w_block_ipv6 w |> <| block_outside_dns := w_block_outside_dns w |>
    <| redirect_gateway := w_redirect_gateway w |> <| redirect_gateway_flags := w_redirect_gateway_flags w |>
    <| redirect_private := w_redirect_private w |>
    <| route_metric := w_route_metric w |> <| route_metric_set := w_route_metric_set w |>
    <| ping_interval := w_ping_interval w |> <| ping_interval_enabled := w_ping_interval_enabled w |>
    <| ping_restart := w_ping_restart w |> <| ping_restart_enabled := w_ping_restart_enabled w |>
    <| auth_token := w_auth_token w |> <| auth_token_user := w_auth_token_user w |>
    <| peer_id := w_peer_id w |> <| selected_cipher := w_selected_cipher w |> <| selected_auth := w_selected_auth w |>
    <| protocol_flags := w_protocol_flags w |> <| key_derivation := w_key_derivation w |>
    <| explicit_exit_notify := w_explicit_exit_notify w |>
    <| explicit_exit_notify_set := w_explicit_exit_notify_set w |>
    <| compression_directives := w_compression_directives w |>
    <| inactive_timeout := w_inactive_timeout w |> <| inactive_minimum_bytes := w_inactive_minimum_bytes w |>
    <| inactive_timeout_set := w_inactive_timeout_set w |>
    <| session_timeout := w_session_timeout w |> <| session_timeout_set := w_session_timeout_set w |>
    <| ping_exit := w_ping_exit w |> <| ping_exit_set := w_ping_exit_set w |>
    <| ping_timer_remote := w_ping_timer_remote w |>.

(** Of a restart and an exit after missing pings, the last one pushed counts. *)
Definition choose_ping_action (w : WirePushedOptions) (o : PushedOptions) : PushedOptions :=
  match w_ping_timeout_action w with
  | RestartAction => o <| ping_exit := 0 |> <| ping_exit_set := false |>
  | ExitAction => o <| ping_restart := 0 |> <| ping_restart_enabled := false |>
  | NoAction => o
  end.

(** The addresses, the gateway and the routes. *)
Definition add_wire_network (w : WirePushedOptions) (remote_host : option IpAddr) (o : PushedOptions)
    : PushedOptions :=
  let o := if decide (w_ifconfig w <> []) then add_wire_ifconfig o (w_ifconfig w) (w_topology w) else o in
  let o := if decide (w_ifconfig_ipv6 w <> []) then add_wire_ifconfig_ipv6 o (w_ifconfig_ipv6 w) else o in
  let o := set_wire_route_gateway o (w_route_gateway w) in
  let o := foldl (add_wire_route remote_host) o (w_route w) in
  foldl (add_wire_route_ipv6 remote_host) o (w_route_ipv6 w).

(** The text of a signed number. *)
Definition display_i32 (x : Z) : text := if decide (x < 0) then MINUS :: IpText.decimal (- x) else IpText.decimal x.

(** The DNS servers: those without an address are dropped, and the DHCP options
    count when no server is left. *)
Definition add_wire_dns (w : WirePushedOptions) (o : PushedOptions) : PushedOptions :=
  let o := foldl add_wire_dns_option_v2 o (w_dns w) in
  let empty_priorities := priority <$> filter (fun server => addresses server = []) (dns_servers o) in
  let o := o <| dns_servers ::= filter (fun server => addresses server <> []) |> in
  let o :=
    foldl (fun o p => add_parse_error o (txt "dns") (txt "server " ++ display_i32 p)
                        (txt "dns server has no address assigned"))
      o empty_priorities in
  let o := o <| modern_dns := bool_decide (dns_servers o <> []) |> in
  if modern_dns o then o <| dhcp_options ::= filter_openvpn_non_dns_dhcp_options |>
  else foldl add_wire_dhcp_option_dns o (w_dhcp_options w).

Definition pushed_options_from_wire (w : WirePushedOptions) (remote_host : option IpAddr) : PushedOptions :=
  add_wire_dns w (add_wire_network w remote_host (choose_ping_action w (copy_wire w))).

Definition decode_push_reply_option_lines (command : text) (lines : list text) (remote_host : option IpAddr)
    (filters : list PullFilter) : PushedOptions * Z :=
  let k := if eq_ignore_ascii_case command PUSH_UPDATE_PAYLOAD_PREFIX then Update else Reply in
  let '(wire, continuation, rejection) := decode_lines filters lines wire_default 0 in
  ((pushed_options_from_wire wire remote_host) <| kind := k |> <| pull_filter_rejection := rejection |>,
   continuation).

(** ** Payloads *)

Definition split_push_reply_payload_lines (payload : list Z) : option (text * list text) :=
  let payload := normalize_control_payload payload in
  if decide (payload = []) then None
  else
    match split_on COMMA payload with
    | [] => None
    | first :: lines =>
        let command := trim first in
        if eq_ignore_ascii_case command PUSH_REPLY_PAYLOAD_PREFIX
           || eq_ignore_ascii_case command PUSH_UPDATE_PAYLOAD_PREFIX
        then Some (command, lines) else None
    end.

(** The continuation that a line announces. *)
Definition line_continuation (line : text) : option Z :=
  match parse_pushed_option_line line with
  | Some (name :: value :: _) =>
      if eq_ignore_ascii_case name (txt "push-continuation") then continuation_value value else None
  | _ => None
  end.

Definition append_push_reply_payload_segment (accumulated_lines : list text) (payload : list Z)
    : option (list text * Z) :=
  '(command, lines) ← split_push_reply_payload_lines payload;
  let accumulated_lines := match accumulated_lines with [] => [command] | _ => accumulated_lines end in
  Some (accumulated_lines ++ lines,
        foldl (fun continuation line => default continuation (line_continuation line)) 0 lines).

Definition decode_push_reply_payload_with_filters (payload : list Z) (remote_host : option IpAddr)
    (filters : list PullFilter) : option (PushedOptions * Z) :=
  '(command, lines) ← split_push_reply_payload_lines payload;
  Some (decode_push_reply_option_lines command lines remote_host filters).

End Pull.

(** ** The server's reply ([push_options.rs], [negotiation.rs]) *)

Record ServerPushAssignment : Type := mkAssignment {
  local_address_ipv4 : option PushedLocalAddress;
  local_address_ipv6 : option PushedLocalAddress;
  ipv4_topology : text;
  server_ipv4 : option Z;
  assigned_peer_id : option Z;
}.

Module Push.
Import Control Negotiation.

Definition SERVER_PUSH_BUNDLE_SIZE : nat := 1024.
Definition SERVER_PUSH_BUNDLE_OVERHEAD : nat := 84.
Definition SERVER_PUSH_SAFE_CAPACITY : nat := SERVER_PUSH_BUNDLE_SIZE - SERVER_PUSH_BUNDLE_OVERHEAD.

Definition is_valid_prefix (p : OpenVpnIpPrefix) : bool :=
  match address p with
  | IpV4 _ => bool_decide (prefix_len p <= 32)
  | IpV6 _ => bool_decide (prefix_len p <= 128)
  end.

Definition ipv4_mask (bits : Z) : option Z :=
  if decide (bits <= 32) then Some (mask 32 U32_MAX bits) else None.

Definition format_ifconfig_prefix (p : OpenVpnIpPrefix) : text :=
  if is_valid_prefix p && Route.is_ipv4 (address p) then
    IpText.display_ip (address p) ++ [Pull.SPACE] ++ from_option IpText.display_v4 [] (ipv4_mask (prefix_len p))
  else [].

Definition format_ipv4_route_prefix (p : OpenVpnIpPrefix) : text :=
  if is_valid_prefix p && Route.is_ipv4 (address p) then
    let p := masked p in
    IpText.display_ip (address p) ++ [Pull.SPACE] ++ from_option IpText.display_v4 [] (ipv4_mask (prefix_len p))
  else [].

Definition format_pushed_ifconfig (value : PushedLocalAddress) (topology : text) : text :=
  if negb (is_valid_prefix (local_prefix value)) || negb (Route.is_ipv4 (address (local_prefix value))) then []
  else
    let topology := to_ascii_lowercase (trim topology) in
    match Route.of_family true (local_peer value) with
    | Some peer =>
        if decide (topology <> txt "subnet") then
          IpText.display_ip (address (local_prefix value)) ++ [Pull.SPACE] ++ IpText.display_ip peer
        else format_ifconfig_prefix (local_prefix value)
    | None =>
        if decide (topology ∈ [txt "p2p"; txt "net30"]) then []
        else format_ifconfig_prefix (local_prefix value)
    end.

(** An address and the length of its prefix. *)
Definition display_prefix (p : OpenVpnIpPrefix) : text :=
  IpText.display_ip (address p) ++ [IpText.SLASH] ++ IpText.decimal (prefix_len p).

Definition format_pushed_ifconfig_ipv6 (value : PushedLocalAddress) : text :=
  if negb (is_valid_prefix (local_prefix value)) || negb (Route.is_ipv6 (address (local_prefix value))) then []
  else
    match Route.of_family false (local_peer value) with
    | Some peer => display_prefix (local_prefix value) ++ [Pull.SPACE] ++ IpText.display_ip peer
    | None => []
    end.

Definition format_pushed_route_gateway (o : PushedOptions) : text :=
  if decide (route_gateway_raw o <> []) then route_gateway_raw o
  else if route_gateway_vpn o then txt "vpn_gateway"
  else from_option IpText.display_ip [] (route_gateway o).

Definition format_pushed_route (entry : PushedRouteEntry) : text :=
  if decide (entry_raw entry <> []) then entry_raw entry
  else if negb (is_valid_prefix (prefix (entry_route entry))) then []
  else
    let p := masked (prefix (entry_route entry)) in
    (if Route.is_ipv4 (address p) then format_ipv4_route_prefix p else display_prefix p)
    ++ match gateway (entry_route entry) with
       | Some gateway =>
           [Pull.SPACE] ++ IpText.display_ip gateway
           ++ (if decide (metric (entry_route entry) <> 0) then
                 [Pull.SPACE] ++ Pull.display_i32 (metric (entry_route entry)) else [])
       | None => []
       end.

Definition replace_pushed_local_address_by_family (values : list PushedLocalAddress)
    (replacement : PushedLocalAddress) : list PushedLocalAddress :=
  let ipv4 := Route.is_ipv4 (address (local_prefix replacement)) in
  filter (fun value => Route.is_ipv4 (address (local_prefix value)) <> ipv4) values ++ [replacement].

Definition push_trimmed (name value : text) : list text :=
  let value := trim value in
  if decide (value <> []) then [name ++ [Pull.SPACE] ++ value] else [].

(** [slice::sort_by_key], which keeps the order of equal keys. *)
Fixpoint insert_server (s : TunnelDnsServer) (l : list TunnelDnsServer) : list TunnelDnsServer :=
  match l with
  | [] => [s]
  | t :: l' => if decide (priority s <= priority t) then s :: l else t :: insert_server s l'
  end.

Definition sort_servers (l : list TunnelDnsServer) : list TunnelDnsServer := foldr insert_server [] l.

Definition display_dns_address (a : SocketAddr) : text :=
  if decide (sa_port a = 0) then IpText.display_ip (ip a) else Socks.display_socket a.

Definition words (l : list text) : text := IpText.join [Pull.SPACE] l.

(** The lines of a DNS server. *)
Definition server_fields (server : TunnelDnsServer) : list text :=
  let field name value := txt "dns server " ++ Pull.display_i32 (priority server) ++ [Pull.SPACE] ++ txt name ++ [Pull.SPACE] ++ value in
  (if decide (addresses server <> []) then [field "address" (words (display_dns_address <$> addresses server))] else [])
  ++ (if decide (resolve_domains server <> []) then [field "resolve-domains" (words (resolve_domains server))] else [])
  ++ (if decide (dnssec server <> []) then [field "dnssec" (dnssec server)] else [])
  ++ (if decide (transport server <> []) then
        [field "transport"
           (if decide (transport server = txt "doh") then txt "DoH"
            else if decide (transport server = txt "dot") then txt "DoT" else transport server)] else [])
  ++ (if decide (sni server <> []) then [field "sni" (sni server)] else []).

Definition as_secs (d : Z) : Z := d / NANOS_PER_SEC.

(** A line with a number. *)
Definition number_field (name : string) (x : Z) : text := txt name ++ [Pull.SPACE] ++ IpText.decimal x.

Definition local_address_fields (o : PushedOptions) (a : PushedLocalAddress) : list text :=
  let '(name, value) :=
    if Route.is_ipv4 (address (local_prefix a)) then (txt "ifconfig", format_pushed_ifconfig a (topology o))
    else (txt "ifconfig-ipv6", format_pushed_ifconfig_ipv6 a) in
  if decide (value <> []) then [name ++ [Pull.SPACE] ++ value] else [].

Definition route_fields (r : PushedRouteEntry) : list text :=
  let value := format_pushed_route r in
  if decide (value = []) then []
  else [(if Route.is_ipv4 (address (prefix (entry_route r))) then txt "route" else txt "route-ipv6")
        ++ [Pull.SPACE] ++ value].

Definition directive_fields (d : PushedCompressionDirective) : list text :=
  let name := trim (directive_name d) in
  let value := trim (directive_value d) in
  if decide (name <> []) then [if decide (value = []) then name else name ++ [Pull.SPACE] ++ value] else [].

Definition build_push_reply_option_fields (o : PushedOptions) : list text :=
  [PUSH_REPLY_PAYLOAD_PREFIX]
  ++ push_trimmed (txt "topology") (topology o)
  ++ (if decide (0 < tun_mtu o) then [number_field "tun-mtu" (tun_mtu o)] else [])
  ++ (local_address o ≫= local_address_fields o)
  ++ (let route_gateway := format_pushed_route_gateway o in
      if decide (route_gateway <> []) then [txt "route-gateway " ++ route_gateway] else [])
  ++ (routes o ≫= route_fields)
  ++ ((fun a => txt "dhcp-option " ++ (if Route.is_ipv4 (pushed_address a) then txt "DNS" else txt "DNS6")
                ++ [Pull.SPACE] ++ IpText.display_ip (pushed_address a)) <$> dns o)
  ++ (if decide (search_domains o <> []) then [txt "dns search-domains " ++ words (search_domains o)] else [])
  ++ (sort_servers (dns_servers o) ≫= server_fields)
  ++ (dhcp_options o ≫= push_trimmed (txt "dhcp-option"))
  ++ (if block_ipv6 o then [txt "block-ipv6"] else [])
  ++ (if block_outside_dns o then [txt "block-outside-dns"] else [])
  ++ (if redirect_gateway o then
        let flags := trim (words (redirect_gateway_flags o)) in
        [if decide (flags = []) then txt "redirect-gateway" else txt "redirect-gateway " ++ flags] else [])
  ++ (if redirect_private o then [txt "redirect-private"] else [])
  ++ (if decide (route_metric o <> 0) then [txt "route-metric " ++ Pull.display_i32 (route_metric o)] else [])
  ++ (if ping_interval_enabled o then [number_field "ping" (as_secs (ping_interval o))] else [])
  ++ (if ping_restart_enabled o then [number_field "ping-restart" (as_secs (ping_restart o))] else [])
  ++ push_trimmed (txt "auth-token") (auth_token o)
  ++ push_trimmed (txt "auth-token-user") (auth_token_user o)
  ++ (match peer_id o with Some id => [number_field "peer-id" id] | None => [] end)
  ++ push_trimmed (txt "cipher") (selected_cipher o)
  ++ push_trimmed (txt "auth") (selected_auth o)
  ++ (if decide (protocol_flags o <> []) then [txt "protocol-flags " ++ words (protocol_flags o)] else [])
  ++ push_trimmed (txt "key-derivation") (key_derivation o)
  ++ (if decide (0 < explicit_exit_notify o) then [number_field "explicit-exit-notify" (explicit_exit_notify o)] else [])
  ++ (compression_directives o ≫= directive_fields)
  ++ (if decide (inactive_timeout o <> 0) then
        [number_field "inactive" (as_secs (inactive_timeout o))
         ++ (if decide (0 < inactive_minimum_bytes o) then [Pull.SPACE] ++ IpText.decimal (inactive_minimum_bytes o) else [])]
      else [])
  ++ (if decide (session_timeout o <> 0) then [number_field "session-timeout" (as_secs (session_timeout o))] else [])
  ++ (if decide (ping_exit o <> 0) then [number_field "ping-exit" (as_secs (ping_exit o))] else [])
  ++ (if ping_timer_remote o then [txt "ping-timer-rem"] else []).

(** The loop of [split_server_push_reply_fields]: the payload being written,
    whether there is more than one, and the payloads that are complete. *)
Fixpoint split_loop (fields : list text) (current : text) (multiple : bool) (payloads : list (list Z))
    : result CipherNegotiationError (list (list Z)) :=
  match fields with
  | [] =>
      let current := if multiple then current ++ txt ",push-continuation 1" else current in
      Ok (payloads ++ [current])
  | field :: fields =>
      let addition := [COMMA] ++ field in
      '(current, multiple, payloads) ←
        (if decide (SERVER_PUSH_SAFE_CAPACITY <= length current + length addition)%nat then
           if decide (current = PUSH_REPLY_PAYLOAD_PREFIX) then Err (PushOptionTooLong field)
           else Ok (PUSH_REPLY_PAYLOAD_PREFIX, true, payloads ++ [current ++ txt ",push-continuation 2"])
         else Ok (current, multiple, payloads));
      if decide (SERVER_PUSH_SAFE_CAPACITY <= length current + length addition)%nat then
        Err (PushOptionTooLong field)
      else split_loop fields (current ++ addition) multiple payloads
  end.

Definition split_server_push_reply_fields (fields : list text) : result CipherNegotiationError (list (list Z)) :=
  match fields with
  | first :: fields =>
      if decide (first = PUSH_REPLY_PAYLOAD_PREFIX) then split_loop fields PUSH_REPLY_PAYLOAD_PREFIX false []
      else Err InvalidPushFields
  | [] => Err InvalidPushFields
  end.

(** The options of a client: what is negotiated is taken out, and the addresses
    it was assigned are put in. *)
Definition assigned_options (configured : PushedOptions) (peer_info : text) (assignment : ServerPushAssignment)
    : PushedOptions :=
  let o := configured <| selected_cipher := [] |> <| peer_id := None |> <| protocol_flags := [] |>
                      <| key_derivation := [] |> in
  let o := match peer_info_mtu peer_info with None => o <| tun_mtu := 0 |> | Some _ => o end in
  let replace o a :=
    match a with
    | Some a => o <| local_address ::= fun l => replace_pushed_local_address_by_family l a |>
    | None => o
    end in
  let o := replace (replace o (local_address_ipv4 assignment)) (local_address_ipv6 assignment) in
  if decide (ipv4_topology assignment = []) then o
  else
    let o := o <| topology := ipv4_topology assignment |> in
    if decide (ipv4_topology assignment = txt "subnet" /\ route_gateway o = None
               /\ route_gateway_vpn o = false /\ route_gateway_raw o = [])
    then o <| route_gateway := IpV4 <$> server_ipv4 assignment |>
    else if decide (ipv4_topology assignment = txt "net30") then
      match server_ipv4 assignment with
      | Some server =>
          let route := mkRoute (mkPrefix (IpV4 server) 32) None 0 false in
          if existsb (fun existing => bool_decide (entry_route existing = route)) (routes o) then o
          else o <| routes ::= fun l => l ++ [mkRouteEntry route []] |>
      | None => o
      end
    else o.

(** The lines of what was negotiated. *)
Definition negotiated_fields (peer_info selected_cipher : text) (assignment : ServerPushAssignment) : list text :=
  let '(_, client_cipher_list_known) := peer_info_cipher_list peer_info in
  let supports_cc_exit := peer_supports_iv_proto_flag peer_info TLS_IV_PROTO_CC_EXIT_NOTIFY in
  let supports_tls_export := peer_supports_iv_proto_flag peer_info TLS_IV_PROTO_TLS_KEY_EXPORT in
  (if bool_decide (selected_cipher <> []) && client_cipher_list_known then [txt "cipher " ++ selected_cipher] else [])
  ++ (match assigned_peer_id assignment with
      | Some id =>
          if peer_supports_iv_proto_flag peer_info TLS_IV_PROTO_DATA_V2 then [number_field "peer-id" id] else []
      | None => []
      end)
  ++ (if supports_cc_exit then
        [if supports_tls_export then txt "protocol-flags cc-exit tls-ekm" else txt "protocol-flags cc-exit"]
      else if supports_tls_export then [txt "key-derivation tls-ekm"] else []).

Definition build_server_push_reply_payloads (configured : PushedOptions) (peer_info selected_cipher : text)
    (assignment : ServerPushAssignment) : result CipherNegotiationError (list (list Z)) :=
  split_server_push_reply_fields
    (build_push_reply_option_fields (assigned_options configured peer_info assignment)
     ++ negotiated_fields peer_info selected_cipher assignment).

End Push.

(** ** Lines of plain words *)

Module OptionLines.

(** Bytes without a meaning for the lexer, the separators and the lists. *)
Definition plain (b : Z) : bool :=
  bool_decide (33 <= b < 127 /\ b ∉ [Pull.QUOTE; 35; Pull.APOSTROPHE; COMMA; IpText.COLON; 59; Pull.BACKSLASH]).

Definition plain_word (w : text) : Prop := w <> [] /\ forallb plain w = true.

Lemma plain_spec b : plain b = true ->
  33 <= b < 127 /\ b <> 34 /\ b <> 35 /\ b <> 39 /\ b <> 44 /\ b <> 58 /\ b <> 59 /\ b <> 92.
Proof.
  intros [Hr Hn]%bool_decide_eq_true. split; [done|].
  repeat (apply not_elem_of_cons in Hn as [? Hn]). done.
Qed.

Lemma plain_ascii w : forallb plain w = true -> ascii w.
Proof.
  intros Hw. apply Forall_forall. intros b Hb.
  rewrite forallb_forall in Hw. apply list_elem_of_In, Hw, plain_spec in Hb. lia.
Qed.

Lemma plain_not_elem w c : plain c = false -> forallb plain w = true -> c ∉ w.
Proof. intros Hc Hw Hin. rewrite forallb_forall in Hw. apply list_elem_of_In, Hw in Hin. congruence. Qed.

Lemma plain_space b : plain b = true -> Pull.space b = false /\ Text.is_space1 b = false.
Proof.
  intros Hb%plain_spec. split; [|apply bool_decide_eq_false_2; lia].
  apply bool_decide_eq_false_2. intros Hin. repeat (apply elem_of_cons in Hin as [?|Hin]; [lia|]).
  by apply elem_of_nil in Hin.
Qed.

Lemma plain_trim w : plain_word w -> trim w = w.
Proof.
  intros [Hne Hw]. destruct w as [|b w]; [done|].
  destruct (last (b :: w)) as [c|] eqn:El; [|by apply last_None in El].
  assert (plain b = true /\ plain c = true) as [Hb Hc].
  { rewrite forallb_forall in Hw. split; apply Hw; [by left|].
    apply list_elem_of_In. apply last_Some in El as [l ->]. apply elem_of_app. right. left. }
  eapply (trim_between b _ c w); [done|done|..|by apply plain_space|by apply plain_space].
  - apply plain_spec in Hb. lia.
  - apply plain_spec in Hc. lia.
Qed.

Lemma lex_unquoted ps p w rest :
  forallb plain w = true ->
  Pull.lex (Pull.mkLexer ps p Pull.Unquoted false) (w ++ rest)
  = Pull.lex (Pull.mkLexer ps (p ++ w) Pull.Unquoted false) rest.
Proof.
  revert p. induction w as [|b w IH]; intros p; [by rewrite app_nil_r|].
  intros [Hb Hw]%andb_true_iff. cbn [app Pull.lex].
  pose proof (plain_space b Hb) as [Hs _]. apply plain_spec in Hb.
  unfold Pull.lex_step. cbn [Pull.backslash Pull.lex_state Pull.parameters Pull.parameter negb andb].
  rewrite (bool_decide_eq_false_2 (b = Pull.BACKSLASH)) by (unfold Pull.BACKSLASH; lia).
  cbn [andb Pull.lex_transition negb]. rewrite Hs. rewrite decide_False by lia.
  rewrite IH by done. by rewrite <-app_assoc.
Qed.

Lemma lex_word ps w rest :
  plain_word w ->
  Pull.lex (Pull.mkLexer ps [] Pull.Initial false) (w ++ rest)
  = Pull.lex (Pull.mkLexer ps w Pull.Unquoted false) rest.
Proof.
  intros [Hne Hw]. destruct w as [|b w]; [done|]. apply andb_true_iff in Hw as [Hb Hw]. cbn [app Pull.lex].
  pose proof (plain_space b Hb) as [Hs _]. apply plain_spec in Hb.
  unfold Pull.lex_step. cbn [Pull.backslash Pull.lex_state Pull.parameters Pull.parameter negb andb].
  rewrite (bool_decide_eq_false_2 (b = Pull.BACKSLASH)) by (unfold Pull.BACKSLASH; lia).
  cbn [andb Pull.lex_transition negb]. rewrite Hs, decide_False by lia.
  rewrite (bool_decide_eq_false_2 (b = Pull.QUOTE)) by (unfold Pull.QUOTE; lia).
  rewrite (bool_decide_eq_false_2 (b = Pull.APOSTROPHE)) by (unfold Pull.APOSTROPHE; lia).
  cbn [app]. rewrite decide_False by lia. by apply (lex_unquoted ps [b]).
Qed.

(** A blank ends a word. *)
Lemma lex_blank ps w b rest :
  plain_word w -> Pull.space b = true -> (S (length ps) < 16)%nat ->
  Pull.lex (Pull.mkLexer ps w Pull.Unquoted false) (b :: rest)
  = Pull.lex (Pull.mkLexer (ps ++ [w]) [] Pull.Initial false) rest.
Proof.
  intros [_ Hw] Hb Hl. cbn [Pull.lex]. unfold Pull.lex_step.
  cbn [Pull.backslash Pull.lex_state Pull.parameters Pull.parameter negb andb].
  rewrite (bool_decide_eq_false_2 (b = Pull.BACKSLASH)) by (by intros ->).
  cbn [andb Pull.lex_transition negb]. rewrite Hb.
  rewrite utf8_valid_ascii by by apply plain_ascii.
  rewrite decide_False; [done|]. rewrite length_app. cbn. unfold Pull.PUSHED_OPTION_LINE_MAX_PARAMETERS. lia.
Qed.

Lemma lex_words ps ws :
  Forall plain_word ws -> ws <> [] -> (length ps + length ws < 16)%nat ->
  Pull.lex (Pull.mkLexer ps [] Pull.Initial false) (IpText.join [Pull.SPACE] ws ++ [0])
  = Some (Pull.mkLexer (ps ++ ws) [] Pull.Initial false).
Proof.
  intros Hw. revert ps. induction Hw as [|w ws Hw Hws IH]; intros ps; [done|]. intros _ Hl. cbn [length] in Hl.
  rewrite IpText.join_cons, <-app_assoc, lex_word by done.
  destruct ws as [|w' ws]; cbn [app].
  - by rewrite lex_blank by (done || lia).
  - rewrite lex_blank by (done || lia). rewrite IH; [by rewrite <-app_assoc|done|rewrite length_app; cbn [length] in *; lia].
Qed.

(** The words of a line are its parameters. *)
Lemma parse_words ws :
  Forall plain_word ws -> ws <> [] -> (length ws < 16)%nat ->
  Pull.parse_pushed_option_line (IpText.join [Pull.SPACE] ws) = Some ws.
Proof.
  intros Hw Hne Hl. unfold Pull.parse_pushed_option_line. rewrite lex_words by (done || cbn; lia).
  cbn. by rewrite decide_True.
Qed.

End OptionLines.

(** ** What the conversion keeps *)

Module Conversion.
Import Pull.

(** The options that the negotiation reads. *)
Definition negotiated (o : PushedOptions) : text * text * option Z * list text * text :=
  (selected_cipher o, selected_auth o, peer_id o, protocol_flags o, key_derivation o).

Definition keeps {A} (f : PushedOptions -> A -> PushedOptions) : Prop :=
  forall o x, negotiated (f o x) = negotiated o.

Lemma keeps_foldl {A} (f : PushedOptions -> A -> PushedOptions) o l :
  keeps f -> negotiated (foldl f o l) = negotiated o.
Proof. intros Hf. revert o. induction l as [|x l IH]; intros o; [done|]. cbn. rewrite IH. apply Hf. Qed.

Lemma keeps_add_server_addresses o index raw values :
  negotiated (add_server_addresses o index raw values) = negotiated o.
Proof.
  revert o. induction values as [|value values IH]; intros o; cbn [add_server_addresses]; [done|].
  case_decide; [done|]. destruct (parse_tunnel_dns_address value); by rewrite IH.
Qed.

Lemma keeps_resolve index raw : keeps (add_resolve_domain index raw).
Proof. intros o x. unfold add_resolve_domain. by case_match. Qed.

Lemma keeps_search raw : keeps (add_search_domain raw).
Proof. intros o x. unfold add_search_domain. by case_match. Qed.

Lemma keeps_server_option o index raw name values :
  negotiated (set_server_option o index raw name values) = negotiated o.
Proof.
  unfold set_server_option. cbv zeta.
  repeat case_decide; repeat case_match; try done;
    rewrite ?keeps_add_server_addresses, ?(keeps_foldl (add_resolve_domain index raw)) by apply keeps_resolve; done.
Qed.

Lemma keeps_dns_v2 : keeps add_wire_dns_option_v2.
Proof.
  intros o x. unfold add_wire_dns_option_v2. cbv zeta. destruct (split_whitespace _) as [|first values]; [done|].
  case_match; [case_decide; [done|apply keeps_foldl, keeps_search]|]. case_match; [done|].
  destruct values as [|number [|name values]]; [done..|]. destruct (parse_i32 number); [|done].
  case_decide; [|done]. unfold tunnel_dns_server_index.
  destruct (list_find _ _) as [[index server]|]; by rewrite keeps_server_option.
Qed.

Lemma keeps_dhcp : keeps add_wire_dhcp_option_dns.
Proof.
  assert (forall o name raw domains route, negotiated (add_dhcp_domains o name raw domains route) = negotiated o) as Hd.
  { intros o name raw domains route. unfold add_dhcp_domains. case_decide; [done|]. apply keeps_foldl.
    intros o' d. by repeat case_match. }
  intros o x. unfold add_wire_dhcp_option_dns. cbv zeta. destruct (split_whitespace _) as [|first values]; [done|].
  repeat case_decide; rewrite ?Hd; try done. apply keeps_foldl. intros o' v. unfold add_dhcp_address. cbv zeta.
  by repeat case_match.
Qed.

Lemma keeps_route_inner o name value r : negotiated (add_wire_route_inner o name value r) = negotiated o.
Proof. unfold add_wire_route_inner. cbv zeta. by repeat case_match. Qed.

Lemma keeps_network w host o : negotiated (add_wire_network w host o) = negotiated o.
Proof.
  unfold add_wire_network. cbv zeta.
  rewrite keeps_foldl by (intros ? ?; apply keeps_route_inner).
  rewrite keeps_foldl by (intros ? ?; apply keeps_route_inner).
  assert (forall o v, negotiated (set_wire_route_gateway o v) = negotiated o) as ->
    by (intros ? ?; unfold set_wire_route_gateway; cbv zeta; by repeat case_match).
  assert (forall o v, negotiated (add_wire_ifconfig_ipv6 o v) = negotiated o) as H6
    by (intros ? ?; unfold add_wire_ifconfig_ipv6; cbv zeta; by repeat case_match).
  assert (forall o v t, negotiated (add_wire_ifconfig o v t) = negotiated o) as H4
    by (intros ? ? ?; unfold add_wire_ifconfig; cbv zeta; by repeat case_match).
  repeat case_decide; by rewrite ?H6, ?H4.
Qed.

Lemma keeps_dns w o : negotiated (add_wire_dns w o) = negotiated o.
Proof.
  unfold add_wire_dns. cbv zeta.
  assert (forall o, negotiated (o <| dhcp_options ::= filter_openvpn_non_dns_dhcp_options |>) = negotiated o) as H1
    by done.
  case_match; rewrite ?H1, ?(keeps_foldl _ _ _ keeps_dhcp);
    etrans; [|apply (keeps_foldl _ o (w_dns w) keeps_dns_v2)| |apply (keeps_foldl _ o (w_dns w) keeps_dns_v2)];
    (etrans; [apply (keeps_foldl (fun o p => add_parse_error o _ _ _)); by intros ? ?|done]).
Qed.

(** What was negotiated is taken over from the wire. *)
Lemma from_wire_negotiated w host :
  negotiated (pushed_options_from_wire w host)
  = (w_selected_cipher w, w_selected_auth w, w_peer_id w, w_protocol_flags w, w_key_derivation w).
Proof.
  unfold pushed_options_from_wire. rewrite keeps_dns, keeps_network. unfold choose_ping_action.
  by destruct (w_ping_timeout_action w).
Qed.

End Conversion.

(** ** What the client accepts *)

Module Accepted.
Import Pull RouteFacts.

Definition servers_ok (l : list TunnelDnsServer) : Prop :=
  NoDup (priority <$> l)
  /\ Forall (fun s => 0 <= priority s <= 127 /\ (length (addresses s) <= MAX_TUNNEL_DNS_SERVER_ADDRESSES)%nat) l.

(** The options taken over as they are: the peer id is one of 24 bits, and a
    restart and an exit after missing pings are not both on. *)
Definition scalars_ok (o : PushedOptions) : Prop :=
  (forall id, peer_id o = Some id -> 0 <= id <= PEER_ID_MAX_VALUE)
  /\ ping_restart_enabled o && ping_exit_set o = false.

(** What every step of the conversion keeps. *)
Definition lists_ok (o : PushedOptions) : Prop :=
  servers_ok (dns_servers o)
  /\ Forall (fun a => prefix_ok (local_prefix a)) (local_address o)
  /\ Forall (fun r => prefix_ok (prefix (entry_route r)) /\ excluded (entry_route r) = false) (routes o)
  /\ Forall (fun r => prefix_ok (prefix (excluded_route r)) /\ excluded (excluded_route r) = true) (excluded_routes o)
  /\ NoDup (search_domains o) /\ NoDup (dns_routes o) /\ scalars_ok o.

Definition preserves {A} (f : PushedOptions -> A -> PushedOptions) : Prop :=
  forall o x, lists_ok o -> lists_ok (f o x).

Lemma preserves_foldl {A} (f : PushedOptions -> A -> PushedOptions) o l :
  preserves f -> lists_ok o -> lists_ok (foldl f o l).
Proof. intros Hf. revert o. induction l as [|x l IH]; intros o Ho; [done|]. cbn. by apply IH, Hf. Qed.

Lemma append_unique_NoDup l x : NoDup l -> NoDup (append_unique l x).
Proof.
  intros Hl. unfold append_unique. case_decide as Hx; [done|]. apply NoDup_app. split_and!; [done| |].
  - intros y Hy ->%list_elem_of_singleton. done.
  - apply NoDup_singleton.
Qed.

(** Changing a server at its place. *)
Lemma update_server_ok o index f :
  (forall s, priority (f s) = priority s) ->
  (forall s, dns_servers o !! index = Some s -> length (addresses s) <= MAX_TUNNEL_DNS_SERVER_ADDRESSES ->
     length (addresses (f s)) <= MAX_TUNNEL_DNS_SERVER_ADDRESSES)%nat ->
  lists_ok o -> lists_ok (update_server o index f).
Proof.
  intros Hp Ha [[Hn Hs] Hr]. split; [|done]. split.
  - change (NoDup (priority <$> alter f index (dns_servers o))).
    rewrite (list_fmap_alter _ _ id) by (apply Forall_true, Hp). by rewrite list_alter_id.
  - change (Forall (fun s => 0 <= priority s <= 127
      /\ (length (addresses s) <= MAX_TUNNEL_DNS_SERVER_ADDRESSES)%nat) (alter f index (dns_servers o))).
    apply Forall_alter; [done|]. intros s Es [Hs1 Hs2]. rewrite Hp. split; [done|by apply Ha].
Qed.

Lemma server_addresses_ok o index raw values :
  lists_ok o -> lists_ok (add_server_addresses o index raw values).
Proof.
  revert o. induction values as [|value values IH]; intros o Ho; cbn [add_server_addresses]; [done|].
  case_decide as Hd; [done|]. destruct (parse_tunnel_dns_address value) as [a|message]; apply IH; [|done].
  assert (lists_ok (update_server o index (fun server => server <| addresses ::= fun l => l ++ [a] |>))) as Hu; [|exact Hu].
  apply update_server_ok; [done| |done]. intros s Es _. cbn. rewrite length_app. cbn.
  unfold server_addresses in Hd. rewrite Es in Hd. cbn in Hd. lia.
Qed.

Lemma server_option_ok o index raw name values :
  lists_ok o -> lists_ok (set_server_option o index raw name values).
Proof.
  intros Ho. unfold set_server_option. cbv zeta.
  assert (forall f, (forall s, priority (f s) = priority s) -> (forall s, addresses (f s) = addresses s) ->
    lists_ok (update_server o index f)) as Hu
    by (intros f H1 H2; apply update_server_ok; [done| |done]; intros s _; by rewrite H2).
  case_decide; [case_decide; [done|by apply server_addresses_ok]|].
  case_decide.
  { case_decide; [done|]. apply preserves_foldl; [|done]. intros o' d Ho'. unfold add_resolve_domain.
    case_match; [|done]. by apply update_server_ok. }
  case_decide; [destruct values as [|v [|]]; [done| |done]; case_decide; [by apply Hu|done]|].
  case_decide; [destruct values as [|v [|]]; [done| |done]; repeat case_decide; [by apply Hu..|done]|].
  case_decide; [destruct values as [|v [|]]; [done| |done]; case_match; [by apply Hu|done]|done].
Qed.

Lemma dns_v2_ok : preserves add_wire_dns_option_v2.
Proof.
  intros o x Ho. unfold add_wire_dns_option_v2. cbv zeta. destruct (split_whitespace _) as [|first values]; [done|].
  case_match.
  { case_decide; [done|]. apply preserves_foldl; [|done]. intros o' d (H1 & H2 & H3 & H4 & H5 & H6 & H7).
    unfold add_search_domain. case_match; [|done]. split_and!; try done. by apply append_unique_NoDup. }
  case_match; [done|]. destruct values as [|number [|name values]]; [done..|].
  destruct (parse_i32 number) as [p|]; [|done]. case_decide as Hp; [|done]. unfold tunnel_dns_server_index.
  destruct (list_find _ _) as [[index server]|] eqn:Ef; [by apply server_option_ok|].
  apply server_option_ok. apply list_find_None in Ef. destruct Ho as [[Hn Hs] Hr]. split; [|done]. split.
  - change (NoDup (priority <$> (dns_servers o ++ [mkDnsServer p [] [] [] [] []]))). rewrite fmap_app.
    apply NoDup_app. split_and!; [done| |apply NoDup_singleton].
    intros q (s & -> & Hin)%list_elem_of_fmap Hq%list_elem_of_singleton. rewrite Forall_forall in Ef.
    by apply (Ef s Hin).
  - apply Forall_app_2; [done|]. constructor; [|done]. cbn. split; [lia|]. unfold MAX_TUNNEL_DNS_SERVER_ADDRESSES. lia.
Qed.

Lemma dhcp_ok : preserves add_wire_dhcp_option_dns.
Proof.
  assert (forall o name raw domains route, lists_ok o -> lists_ok (add_dhcp_domains o name raw domains route)) as Hd.
  { intros o name raw domains route Ho. unfold add_dhcp_domains. case_decide; [done|]. apply preserves_foldl; [|done].
    intros o' d (H1 & H2 & H3 & H4 & H5 & H6 & H7). case_match; [done|].
    case_match; split_and!; try done; by apply append_unique_NoDup. }
  intros o x Ho. unfold add_wire_dhcp_option_dns. cbv zeta. destruct (split_whitespace _) as [|first values]; [done|].
  case_decide; [by apply Hd|]. case_decide; [by apply Hd|]. case_decide; [done|]. case_decide; [done|].
  apply preserves_foldl; [|done]. intros o' v Ho'. unfold add_dhcp_address. cbv zeta. by repeat case_match.
Qed.

Lemma route_inner_ok o name value r :
  (forall route, r = Ok route -> prefix_ok (prefix route)) -> lists_ok o ->
  lists_ok (add_wire_route_inner o name value r).
Proof.
  intros Hr (H1 & H2 & H3 & H4 & H5). unfold add_wire_route_inner. cbv zeta. case_decide; [done|].
  destruct r as [route|]; [|done]. specialize (Hr route eq_refl). destruct (excluded route) eqn:Ee.
  - split_and!; try apply H5; try done. apply Forall_app_2; [done|]. by repeat constructor.
  - split_and!; try apply H5; try done. apply Forall_app_2; [done|]. by repeat constructor.
Qed.

Lemma network_ok w host o : lists_ok o -> lists_ok (add_wire_network w host o).
Proof.
  intros Ho. unfold add_wire_network. cbv zeta.
  apply preserves_foldl; [intros ? v ?; apply route_inner_ok; [intros ?; apply parse_route_ipv6_ok|done]|].
  apply preserves_foldl; [intros ? v ?; apply route_inner_ok; [intros ?; apply parse_route_ok|done]|].
  assert (forall o v, lists_ok o -> lists_ok (set_wire_route_gateway o v)) as Hg
    by (intros ? ? ?; unfold set_wire_route_gateway; cbv zeta; by repeat case_match).
  apply Hg.
  assert (forall o v t, lists_ok o -> lists_ok (add_wire_ifconfig o v t)) as H4.
  { intros o' v t (H1 & H2 & H3). unfold add_wire_ifconfig. cbv zeta. case_decide; [done|].
    destruct (Route.parse_ifconfig_prefix _ _) eqn:Ep; [|done]. split_and!; try apply H3; try done.
    apply Forall_app_2; [done|]. constructor; [by eapply parse_ifconfig_ok|done]. }
  assert (forall o v, lists_ok o -> lists_ok (add_wire_ifconfig_ipv6 o v)) as H6.
  { intros o' v (H1 & H2 & H3). unfold add_wire_ifconfig_ipv6. cbv zeta. case_decide; [done|].
    destruct (Route.parse_ifconfig_ipv6 _) as [[p q]|] eqn:Ep; [|done]. split_and!; try apply H3; try done.
    apply Forall_app_2; [done|]. constructor; [by eapply parse_ifconfig_ipv6_ok|done]. }
  repeat case_decide; auto.
Qed.

(** The DNS servers of the result: each has an address, and with one of them no
    DNS option is left among the DHCP options. *)
Definition dns_ok (o : PushedOptions) : Prop :=
  Forall (fun server => addresses server <> []) (dns_servers o)
  /\ modern_dns o = bool_decide (dns_servers o <> [])
  /\ (modern_dns o = true -> Forall (fun v => is_dns_dhcp_option v = false) (dhcp_options o)).

(** A DHCP option changes neither the servers nor the mode. *)
Lemma dhcp_keeps_servers o x :
  let o' := add_wire_dhcp_option_dns o x in
  dns_servers o' = dns_servers o /\ modern_dns o' = modern_dns o.
Proof.
  set (P := fun (o o' : PushedOptions) => dns_servers o' = dns_servers o /\ modern_dns o' = modern_dns o).
  assert (forall A (f : PushedOptions -> A -> PushedOptions) l o, (forall o x, P o (f o x)) -> P o (foldl f o l)) as Hf.
  { intros A f l. induction l as [|y l IH]; intros o1 H; [done|]. cbn.
    destruct (IH (f o1 y) H) as [E1 E2], (H o1 y) as [E3 E4]. split; congruence. }
  assert (forall o name raw domains route, P o (add_dhcp_domains o name raw domains route)) as Hd.
  { intros. unfold add_dhcp_domains. case_decide; [done|]. apply Hf. intros. by repeat case_match. }
  change (P o (add_wire_dhcp_option_dns o x)). unfold add_wire_dhcp_option_dns. cbv zeta.
  destruct (split_whitespace _) as [|first values]; [done|]. repeat (case_decide; [auto; done|]).
  apply Hf. intros. unfold add_dhcp_address. cbv zeta. by repeat case_match.
Qed.

Lemma dhcp_options_keep_servers o l :
  let o' := foldl add_wire_dhcp_option_dns o l in
  dns_servers o' = dns_servers o /\ modern_dns o' = modern_dns o.
Proof.
  cbv zeta. revert o. induction l as [|x l IH]; intros o; [done|]. cbn.
  destruct (IH (add_wire_dhcp_option_dns o x)) as [-> ->]. apply dhcp_keeps_servers.
Qed.

Lemma foldl_servers A (f : PushedOptions -> A -> PushedOptions) o l :
  (forall o x, dns_servers (f o x) = dns_servers o) -> dns_servers (foldl f o l) = dns_servers o.
Proof. intros Hf. revert o. induction l as [|x l IH]; intros o; [done|]. cbn. by rewrite IH, Hf. Qed.

Lemma servers_ok_filter P `{forall s, Decision (P s)} l : servers_ok l -> servers_ok (filter P l).
Proof.
  intros [Hn Hs]. split.
  - eapply sublist_NoDup; [done|]. apply fmap_sublist, sublist_filter.
  - apply Forall_forall. intros s [_ Hin]%list_elem_of_filter. by eapply Forall_forall in Hs.
Qed.

Lemma dns_stage_ok w o : lists_ok o -> lists_ok (add_wire_dns w o) /\ dns_ok (add_wire_dns w o).
Proof.
  intros Ho. apply (preserves_foldl add_wire_dns_option_v2 _ (w_dns w) dns_v2_ok) in Ho. unfold add_wire_dns. cbv zeta.
  set (o1 := foldl add_wire_dns_option_v2 o (w_dns w)) in *.
  set (o2 := o1 <| dns_servers ::= filter (fun server => addresses server <> []) |>).
  assert (lists_ok o2) as H2 by (destruct Ho as [Hs Hr]; split; [by apply servers_ok_filter|done]).
  set (errors := priority <$> _). set (o3 := foldl _ o2 errors).
  assert (lists_ok o3) as H3 by (apply preserves_foldl; [by intros ? ? ?|done]).
  assert (dns_servers o3 = dns_servers o2) as E3 by (apply foldl_servers; by intros ? ?).
  assert (Forall (fun server => addresses server <> []) (dns_servers o3)) as Ha.
  { rewrite E3. apply Forall_forall. by intros s [Hs _]%list_elem_of_filter. }
  set (o4 := o3 <| modern_dns := bool_decide (dns_servers o3 <> []) |>).
  assert (lists_ok o4) as H4 by done.
  destruct (modern_dns o4) eqn:Em.
  - split; [done|]. split_and!; [done|done|]. intros _. apply Forall_forall.
    by intros v [Hv _]%list_elem_of_filter.
  - split; [apply preserves_foldl; [apply dhcp_ok|done]|].
    destruct (dhcp_options_keep_servers o4 (w_dhcp_options w)) as [E5 E6]. unfold dns_ok. rewrite E5, E6.
    split_and!; [done|done|]. by rewrite Em.
Qed.

(** ** The lines *)

Definition wire_ok (w : WirePushedOptions) : Prop :=
  (forall id, w_peer_id w = Some id -> 0 <= id <= PEER_ID_MAX_VALUE)
  /\ (w_ping_timeout_action w = NoAction -> w_ping_restart_enabled w = false /\ w_ping_exit_set w = false).

Lemma peer_id_step_ok w value : wire_ok w -> wire_ok (set_peer_id w value).
Proof.
  intros [H1 H2]. unfold set_peer_id. destruct (parse_u32 (trim value)) as [id|] eqn:Ep; [|done].
  case_decide; [|done]. split; [|exact H2]. intros i [= <-]. split; [|done].
  apply parse_unsigned_range in Ep. lia.
Qed.

Lemma inactive_step_ok w value : wire_ok w -> wire_ok (set_inactive w value).
Proof. intros Hw. unfold set_inactive. by repeat case_match. Qed.

Lemma apply_option_ok w name value : wire_ok w -> wire_ok (apply_option w name value).
Proof.
  intros Hw. unfold apply_option. cbv zeta.
  repeat match goal with
  | |- wire_ok (if ?b then _ else _) => destruct b
  | |- wire_ok (set_peer_id _ _) => by apply peer_id_step_ok
  | |- wire_ok (set_inactive _ _) => by apply inactive_step_ok
  | |- wire_ok _ => exact Hw
  | |- wire_ok _ => split; [exact (proj1 Hw)|discriminate]
  end.
Qed.

Lemma decode_lines_ok filters lines w continuation :
  wire_ok w -> wire_ok (decode_lines filters lines w continuation).1.1.
Proof.
  revert w continuation. induction lines as [|line lines IH]; intros w continuation Hw; [done|].
  cbn [decode_lines]. destruct (apply_pull_filters _ _) as [allowed []]; [done|].
  destruct allowed; cbn [negb]; [|by apply IH].
  destruct (parse_pushed_option_line line) as [[|name values]|]; try by apply IH.
  apply IH, apply_option_ok, Hw.
Qed.

Lemma copied_ok w : wire_ok w -> lists_ok (choose_ping_action w (copy_wire w)).
Proof.
  intros [H1 H2]. unfold choose_ping_action.
  destruct (w_ping_timeout_action w); 
    (split_and!; [split; [exact (NoDup_nil_2)|exact (Forall_nil_2 _)]|exact (Forall_nil_2 _)..
                 |exact NoDup_nil_2|exact NoDup_nil_2|]); (split; [exact H1|]).
  - change (w_ping_restart_enabled w && w_ping_exit_set w = false). by destruct (H2 eq_refl) as [-> ->].
  - apply andb_false_r.
  - done.
Qed.

(** C21: the options a client accepts are well formed, whatever lines the
    server sends. The DNS servers have distinct priorities between 0 and
    127, and each has between one and eight addresses; the tunnel addresses and
    the routes have a prefix length of their family; a route is among the
    excluded ones exactly when it is marked so; search domains and DNS routes
    are listed once; the peer id fits its 24 bits; a restart and an exit after
    missing pings are never both on; and with a DNS server no DNS option is
    left among the DHCP options. *)
Theorem pushed_options_ok command lines host filters :
  let o := (decode_push_reply_option_lines command lines host filters).1 in lists_ok o /\ dns_ok o.
Proof.
  cbv zeta. unfold decode_push_reply_option_lines.
  pose proof (decode_lines_ok filters lines wire_default 0) as Hw.
  destruct (decode_lines filters lines wire_default 0) as [[w continuation] rejection]. cbn in Hw |- *.
  assert (wire_ok w) as Hw' by (by apply Hw). clear Hw. unfold pushed_options_from_wire.
  destruct (dns_stage_ok w _ (network_ok w host _ (copied_ok w Hw'))) as [Hl Hd].
  split; [exact Hl|exact Hd].
Qed.

End Accepted.
