(* ===== verification/OvpnPull.v ===== *)
(** * The push exchange ([client_pull.rs], [server_control.rs])

    The client asks for its configuration and the server replies with the
    options, in several records when they do not fit in one.  The theorems
    show that the client gets what the server pushed, however it was split. *)

From stdpp Require Import base numbers list strings.
From Stdlib Require Import ZArith Lia.
From S2P Require Import Prelude OvpnText Text IpText SocksAddr OvpnControlMessage OvpnKeyMethod OvpnPushOptions.

Local Open Scope Z_scope.
Local Open Scope record_scope.

Record ClientPullOptions : Type := mkPullOptions {
  configured_ciphers : list text;
  fallback_cipher : text;
  remote_cipher : text;
  configured_auth : text;
  remote_host : option IpAddr;
  filters : list PullFilter;
  hand_window : Z;
  renegotiation_interval : Z;
  pre_pull_ping_restart : Z;
}.

Record ClientPullResult : Type := mkPullResult {
  pulled : PushedOptions;
  pulled_cipher : text;
  pulled_auth : text;
  pulled_info : list text;
}.

Inductive ClientRemoteAdvance : Type := StayRemote | NextRemoteAddress | NextRemoteHost.

Inductive ClientPullEvent : Type :=
| Ignored
| AuthenticationPending (extension : Z)
| InfoPreReceived (record : text)
| Complete (r : ClientPullResult).

Inductive ClientPullStateError : Type :=
| AuthenticationFailed (info : Auth.AuthFailedInfo)
| ServerRestart (advance : ClientRemoteAdvance)
| ServerHalt
| ServerExit
| PullFilterRejected (line : text)
| CipherError (error : CipherNegotiationError)
| KeyMethodPullError (error : KeyMethodError)
| AuthenticationPendingTimeout
| IncompletePushContinuation
| NoPushReply
| PingRestartTimeout.

Record ClientPullMachine : Type := mkPullMachine {
  pull_options : ClientPullOptions;
  machine_cipher : text;
  machine_auth : text;
  accumulated_push_reply_lines : list text;
  push_continuation_pending : bool;
  authentication_pending : bool;
  info_pre_records : list text;
}.

Global Instance ClientPullMachine_settable : Settable ClientPullMachine :=
  fun m => mkPullMachine (pull_options m) (machine_cipher m) (machine_auth m)
    (accumulated_push_reply_lines m) (push_continuation_pending m) (authentication_pending m)
    (info_pre_records m).

Module ClientPull.
Import Control.

Definition machine_new (options : ClientPullOptions) : ClientPullMachine :=
  mkPullMachine options []
    (if decide (configured_auth options = []) then txt "SHA1" else configured_auth options)
    [] false false [].

Definition request_payload : list Z := tls_control_string_payload PUSH_REQUEST_PAYLOAD.

Definition parse_server_restart_advance (payload : list Z) : ClientRemoteAdvance :=
  match
    '(_, flags) ← split_once COMMA (normalize_control_payload payload);
    flags ← strip_prefix (txt "[") (trim flags);
    '(flags, _) ← split_once Socks.CLOSE flags;
    Some (to_ascii_uppercase flags)
  with
  | Some flags => if decide (78 ∈ flags) then NextRemoteAddress else StayRemote
  | None => StayRemote
  end.

(** What is done with the options of a complete reply. *)
Definition finish_pull (options : PushedOptions)
    : method ClientPullMachine ClientPullStateError ClientPullEvent :=
  if decide (pull_filter_rejection options <> []) then
    throw (PullFilterRejected (pull_filter_rejection options))
  else
    _ ← when (bool_decide (selected_cipher options <> []))
          (modify (fun m => m <| machine_cipher := selected_cipher options |>));
    _ ← when (bool_decide (selected_auth options <> []))
          (modify (fun m => m <| machine_auth := selected_auth options |>));
    m ← gets id;
    cipher ← lift
      (if decide (machine_cipher m = []) then
         map_err CipherError
           (Negotiation.select_pulled_cipher (configured_ciphers (pull_options m))
              (fallback_cipher (pull_options m)) (remote_cipher (pull_options m)))
       else Ok (machine_cipher m));
    _ ← modify (fun m => m <| machine_cipher := cipher |>);
    valid ← lift
      (map_err KeyMethodPullError
         (Negotiation.validate_server_pushed_cipher (configured_ciphers (pull_options m))
            (fallback_cipher (pull_options m)) cipher));
    cipher ← lift (ok_or (CipherError MissingPeerCipher) valid);
    _ ← modify (fun m => m <| machine_cipher := cipher |>);
    m ← gets id;
    _ ← modify (fun m => m <| info_pre_records := [] |>);
    mret (Complete (mkPullResult options cipher (machine_auth m) (info_pre_records m))).

Definition accept_push_reply (control_record : list Z)
    : method ClientPullMachine ClientPullStateError ClientPullEvent :=
  m ← gets id;
  _ ← modify (fun m => m <| accumulated_push_reply_lines := [] |>);
  match Pull.append_push_reply_payload_segment (accumulated_push_reply_lines m) control_record with
  | None => mret Ignored
  | Some (lines, continuation) =>
      _ ← modify (fun m => m <| accumulated_push_reply_lines := lines |>
                             <| push_continuation_pending := bool_decide (continuation = 2) |>);
      if decide (continuation = 2) then mret Ignored
      else
        let '(options, _) :=
          Pull.decode_push_reply_option_lines (nth 0 lines []) (tail lines)
            (remote_host (pull_options m)) (filters (pull_options m)) in
        _ ← modify (fun m => m <| accumulated_push_reply_lines := [] |>);
        finish_pull options
  end.

Definition accept_record (control_record : list Z)
    : method ClientPullMachine ClientPullStateError ClientPullEvent :=
  match classify_tls_control_directive control_record with
  | AuthFailed => throw (AuthenticationFailed (Auth.parse_auth_failed_payload control_record))
  | AuthPending =>
      _ ← modify (fun m => m <| authentication_pending := true |>);
      o ← gets pull_options;
      mret (AuthenticationPending
              (Auth.auth_pending_extension (hand_window o) (renegotiation_interval o) control_record))
  | Restart => throw (ServerRestart (parse_server_restart_advance control_record))
  | Halt => throw ServerHalt
  | Exit => throw ServerExit
  | InfoPre =>
      let record := normalize_control_payload control_record in
      _ ← modify (fun m => m <| info_pre_records ::= fun l => l ++ [record] |>);
      mret (InfoPreReceived record)
  | PushReply => accept_push_reply control_record
  | Unknown | Info | ChallengeResponse => mret Ignored
  end.

Definition timeout_error (m : ClientPullMachine) : ClientPullStateError :=
  if authentication_pending m then AuthenticationPendingTimeout
  else if push_continuation_pending m then IncompletePushContinuation
  else NoPushReply.

(** The loop of [pull_client_configuration] over the records that arrive in
    time; nothing when they end before the reply does. *)
Fixpoint pull_loop (records : list (list Z)) (m : ClientPullMachine)
    : option (result ClientPullStateError ClientPullResult) :=
  match records with
  | [] => None
  | record :: records =>
      match accept_record record m with
      | (Ok (Complete r), _) => Some (Ok r)
      | (Ok _, m) => pull_loop records m
      | (Err e, _) => Some (Err e)
      end
  end.

End ClientPull.

(** ** The server *)

Record ServerControlOptions : Type := mkControlOptions {
  control_peer_info : text;
  control_cipher : text;
  pushed_options : PushedOptions;
  assignment : ServerPushAssignment;
  authentication_failure : option text;
}.

Inductive ServerControlEvent : Type :=
| RecordIgnored
| PushReplied (payloads : list (list Z)) (first_connection : bool)
| AuthenticationRejected (payload : list Z).

Inductive ServerControlError : Type :=
| PeerExit
| PushReplyError (error : CipherNegotiationError).

Record ServerControlMachine : Type := mkServerControl {
  control_options : ServerControlOptions;
  connected : bool;
}.

Module ServerControl.
Import Control.

Definition machine_new (options : ServerControlOptions) : ServerControlMachine := mkServerControl options false.

Definition accept_record (control_record : list Z)
    : method ServerControlMachine ServerControlError ServerControlEvent := fun m =>
  if decide (classify_tls_control_directive control_record = Exit) then (Err PeerExit, m)
  else
    let message := normalize_tls_control_message control_record in
    if negb (eq_ignore_ascii_case message PUSH_REQUEST_PAYLOAD)
       && negb (eq_ignore_ascii_case message LEGACY_PULL_REQUEST_PAYLOAD)
    then (Ok RecordIgnored, m)
    else
      match authentication_failure (control_options m) with
      | Some reason =>
          (Ok (AuthenticationRejected (tls_control_string_payload (Auth.build_auth_failed_payload reason))), m)
      | None =>
          match Push.build_server_push_reply_payloads (pushed_options (control_options m))
                  (control_peer_info (control_options m)) (control_cipher (control_options m))
                  (assignment (control_options m)) with
          | Err e => (Err (PushReplyError e), m)
          | Ok payloads =>
              (Ok (PushReplied (tls_control_string_payload <$> payloads) (negb (connected m))),
               mkServerControl (control_options m) true)
          end
      end.

End ServerControl.

(** ** Delivery *)

Module PushDelivery.
Import Control ClientPull.

(** A payload: the command and its fields, each after a comma. *)
Definition joined (fields : list text) : text := PUSH_REPLY_PAYLOAD_PREFIX ++ (fields ≫= cons COMMA).

Definition more : text := txt "push-continuation 2".
Definition finished : text := txt "push-continuation 1".

Lemma joined_snoc fields f : joined (fields ++ [f]) = joined fields ++ COMMA :: f.
Proof. unfold joined. rewrite bind_app, app_assoc. f_equal. apply app_nil_r. Qed.

Lemma joined_nil_inv fields : joined fields = PUSH_REPLY_PAYLOAD_PREFIX -> fields = [].
Proof.
  unfold joined. destruct fields as [|f fields]; [done|]. intros E%(f_equal length).
  rewrite length_app in E. cbn in E. lia.
Qed.

(** How the fields are grouped into payloads. *)
Lemma split_loop_groups fs done multiple payloads out :
  (length (joined done) < Push.SERVER_PUSH_SAFE_CAPACITY)%nat ->
  Push.split_loop fs (joined done) multiple payloads = Ok out ->
  exists groups rest,
    done ++ fs = concat groups ++ rest
    /\ out = payloads ++ ((fun g => joined (g ++ [more])) <$> groups)
              ++ [joined (rest ++ if multiple || bool_decide (groups <> []) then [finished] else [])]
    /\ Forall (fun g => length (joined g) < Push.SERVER_PUSH_SAFE_CAPACITY)%nat (groups ++ [rest]).
Proof.
  revert done multiple payloads. induction fs as [|f fs IH]; intros done multiple payloads Hl.
  - cbn [Push.split_loop]. intros <-%Ok_inj. exists [], done. split_and!; [apply app_nil_r| |by constructor].
    change (bool_decide ([] <> [])) with false. rewrite orb_false_r.
    destruct multiple; [by rewrite joined_snoc|by rewrite app_nil_r].
  - cbn [Push.split_loop]. case_decide as Hbig.
    + case_decide as Hne; [done|]. rbind. case_decide as Hbig'; [done|].
      change PUSH_REPLY_PAYLOAD_PREFIX with (joined []) in *.
      change ([COMMA] ++ f) with (COMMA :: f) in *. rewrite <-joined_snoc.
      intros Hs. apply IH in Hs as (groups & rest & E1 & -> & Hf);
        [|rewrite joined_snoc, length_app; lia].
      exists (done :: groups), rest. cbn [concat]. rewrite <-app_assoc, <-E1. split_and!; [done| |].
      * rewrite <-app_assoc. cbn [fmap list_fmap app]. rewrite joined_snoc.
        rewrite (bool_decide_eq_true_2 (done :: groups <> [])) by done. rewrite orb_true_r. done.
      * cbn [app]. by constructor.
    + rbind. rewrite decide_False by done. change ([COMMA] ++ f) with (COMMA :: f) in *.
      rewrite <-joined_snoc. intros Hs.
      apply IH in Hs as (groups & rest & E1 & -> & Hf).
      * exists groups, rest. split_and!; [|done..]. by rewrite <-E1, <-app_assoc.
      * rewrite joined_snoc, length_app. lia.
Qed.

Lemma split_groups fs out :
  Push.split_server_push_reply_fields (PUSH_REPLY_PAYLOAD_PREFIX :: fs) = Ok out ->
  exists groups rest,
    fs = concat groups ++ rest
    /\ out = ((fun g => joined (g ++ [more])) <$> groups)
             ++ [joined (rest ++ if bool_decide (groups <> []) then [finished] else [])]
    /\ Forall (fun g => length (joined g) < Push.SERVER_PUSH_SAFE_CAPACITY)%nat (groups ++ [rest]).
Proof.
  cbn [Push.split_server_push_reply_fields]. rewrite decide_True by done.
  change PUSH_REPLY_PAYLOAD_PREFIX with (joined []). intros (groups & rest & E & -> & H)%split_loop_groups;
    [|cbn; unfold Push.SERVER_PUSH_SAFE_CAPACITY; cbn; lia].
  by exists groups, rest.
Qed.

(** Every record fits in a bundle. *)
Lemma split_fits fs out :
  Push.split_server_push_reply_fields (PUSH_REPLY_PAYLOAD_PREFIX :: fs) = Ok out ->
  Forall (fun p => length (tls_control_string_payload p) < Push.SERVER_PUSH_BUNDLE_SIZE)%nat out.
Proof.
  intros (groups & rest & -> & -> & H)%split_groups.
  assert (forall p, length (tls_control_string_payload p) <= S (length p))%nat as Hn.
  { intros p. unfold tls_control_string_payload. case_decide; [lia|]. rewrite length_app. cbn. lia. }
  assert (forall g m, length (joined g) < Push.SERVER_PUSH_SAFE_CAPACITY -> length m = 19 ->
    length (tls_control_string_payload (joined (g ++ [m]))) < Push.SERVER_PUSH_BUNDLE_SIZE)%nat as Hg.
  { intros g m Hl Hm. specialize (Hn (joined (g ++ [m]))). rewrite joined_snoc in Hn |- *. rewrite length_app in Hn.
    cbn [length] in Hn. change Push.SERVER_PUSH_SAFE_CAPACITY with 940%nat in Hl.
    change Push.SERVER_PUSH_BUNDLE_SIZE with 1024%nat. lia. }
  apply Forall_app in H as [Hgs Hr]. rewrite Forall_singleton in Hr. apply Forall_app_2.
  - apply Forall_fmap. eapply Forall_impl; [exact Hgs|]. intros g Hl. exact (Hg g more Hl eq_refl).
  - constructor; [|done]. case_bool_decide; [exact (Hg rest finished Hr eq_refl)|]. rewrite app_nil_r.
    specialize (Hn (joined rest)). change Push.SERVER_PUSH_SAFE_CAPACITY with 940%nat in Hr.
    change Push.SERVER_PUSH_BUNDLE_SIZE with 1024%nat. lia.
Qed.

(** *** What the client reads *)

(** A byte that no normalisation removes. *)
Definition plain_end (s : text) : Prop :=
  exists b, last s = Some b /\ 0 < b < 128 /\ Text.is_space1 b = false.

Lemma joined_valid fields : Forall (fun f => utf8_valid f = true) fields -> utf8_valid (joined fields) = true.
Proof.
  intros Hf. unfold joined. rewrite utf8_valid_app by done.
  induction Hf as [|f fields Hv Hf IH]; [done|]. cbn [mbind list_bind].
  change (utf8_valid ([COMMA] ++ f ++ (fields ≫= cons COMMA)) = true).
  rewrite !utf8_valid_app by done. done.
Qed.

Lemma joined_not_nul fields : Forall (fun f => NUL ∉ f) fields -> NUL ∉ joined fields.
Proof.
  intros Hf. unfold joined. apply not_elem_of_app. split; [by apply Negotiation.not_in|].
  induction Hf as [|f fields Hv Hf IH]; [apply not_elem_of_nil|]. cbn [mbind list_bind].
  apply not_elem_of_app. split; [|done]. apply not_elem_of_cons. by split.
Qed.

(** Both normalisations give the text of a payload back. *)
Lemma payload_normalized s t :
  s = PUSH_REPLY_PAYLOAD_PREFIX ++ t -> utf8_valid s = true -> NUL ∉ s -> plain_end s ->
  normalize_tls_control_message (tls_control_string_payload s) = s
  /\ normalize_control_payload (tls_control_string_payload s) = s.
Proof.
  intros Hs Hv Hn (b & Hl & Hb & Hsp).
  assert (tls_control_string_payload s = s ++ [NUL]) as ->.
  { unfold tls_control_string_payload. rewrite decide_False; [done|]. rewrite Hl. intros [= ->]. unfold NUL in Hb. lia. }
  assert (trim s = s) as Ht.
  { subst s. by apply (trim_between 80 _ b (tail PUSH_REPLY_PAYLOAD_PREFIX ++ t)); try lia. }
  unfold normalize_tls_control_message, normalize_control_payload. split.
  - by rewrite until_app, from_utf8_lossy_valid.
  - rewrite from_utf8_lossy_valid by by rewrite utf8_valid_app.
    unfold trim_matches. rewrite trim_start_matches_id by (subst s; done).
    unfold trim_end_matches. rewrite rev_app_distr. cbn [rev app trim_start_matches].
    rewrite decide_True by done. fold (trim_end_matches NUL s). rewrite trim_end_matches_id; [done|].
    rewrite Hl. intros [= ->]. unfold NUL in Hb. lia.
Qed.

Lemma exact_or_parameter_push command rest :
  Negotiation.disagree command PUSH_REPLY_PAYLOAD_PREFIX = true ->
  exact_or_parameter (PUSH_REPLY_PAYLOAD_PREFIX ++ rest) command = false.
Proof.
  intros Hd. unfold exact_or_parameter. rewrite Negotiation.strip_prefix_disagree by done.
  rewrite orb_false_r. apply bool_decide_eq_false_2. intros E.
  pose proof (Negotiation.strip_prefix_disagree command PUSH_REPLY_PAYLOAD_PREFIX rest Hd) as Hp.
  rewrite E in Hp. assert (strip_prefix command command = Some []) as E'
    by (apply strip_prefix_spec; by rewrite app_nil_r). congruence.
Qed.

Lemma payload_classified s t :
  s = PUSH_REPLY_PAYLOAD_PREFIX ++ t -> utf8_valid s = true -> NUL ∉ s -> plain_end s ->
  classify_tls_control_directive (tls_control_string_payload s) = PushReply.
Proof.
  intros Hs Hv Hn He. unfold classify_tls_control_directive.
  destruct (payload_normalized s t Hs Hv Hn He) as [-> _]. subst s.
  rewrite decide_False by done. unfold to_ascii_uppercase. rewrite fmap_app.
  change (upper_byte <$> PUSH_REPLY_PAYLOAD_PREFIX) with PUSH_REPLY_PAYLOAD_PREFIX.
  rewrite !exact_or_parameter_push by done. rewrite decide_True; [done|].
  apply prefix_app_r. by exists (txt "REPLY").
Qed.

Lemma split_joined fields :
  split_on COMMA (joined fields) = PUSH_REPLY_PAYLOAD_PREFIX :: (fields ≫= split_on COMMA).
Proof.
  induction fields as [|f fields IH] using rev_ind; [done|].
  rewrite joined_snoc, split_on_app, IH, bind_app. cbn [app mbind list_bind]. by rewrite app_nil_r.
Qed.

(** The lines of a record of the reply. *)
Lemma payload_lines fields :
  Forall (fun f => utf8_valid f = true /\ NUL ∉ f) fields -> plain_end (joined fields) ->
  Pull.split_push_reply_payload_lines (tls_control_string_payload (joined fields))
  = Some (PUSH_REPLY_PAYLOAD_PREFIX, fields ≫= split_on COMMA).
Proof.
  intros Hf He. unfold Pull.split_push_reply_payload_lines.
  apply Forall_and in Hf as [Hv Hn].
  destruct (payload_normalized (joined fields) _ eq_refl (joined_valid _ Hv) (joined_not_nul _ Hn) He) as [_ ->].
  rewrite decide_False by done. rewrite split_joined.
  change (trim PUSH_REPLY_PAYLOAD_PREFIX) with PUSH_REPLY_PAYLOAD_PREFIX. done.
Qed.

(** *** Markers *)

Definition pieces (fields : list text) : list text := fields ≫= split_on COMMA.

(** The options and the rejected line, without the continuation. *)
Definition read_lines (filters : list PullFilter) (lines : list text) (w : WirePushedOptions) (c : Z)
    : WirePushedOptions * text :=
  let '(w, _, r) := Pull.decode_lines filters lines w c in (w, r).

Definition marker (line : text) : Prop := line = more \/ line = finished.

Lemma read_lines_continuation filters lines w c c' : read_lines filters lines w c = read_lines filters lines w c'.
Proof.
  unfold read_lines. revert w c c'. induction lines as [|line lines IH]; intros w c c'; [done|].
  cbn [Pull.decode_lines]. destruct (Pull.apply_pull_filters _ _) as [allowed rejected].
  destruct rejected; [done|]. destruct allowed; cbn [negb]; [|apply IH].
  destruct (Pull.parse_pushed_option_line line) as [[|name values]|]; apply IH.
Qed.

Lemma read_lines_marker filters l1 mark l2 w c :
  marker mark -> (Pull.apply_pull_filters filters mark).2 = false ->
  read_lines filters (l1 ++ mark :: l2) w c = read_lines filters (l1 ++ l2) w c.
Proof.
  intros Hm Hf. revert w c. induction l1 as [|line l1 IH]; intros w c.
  - cbn [app]. unfold read_lines at 1. cbn [Pull.decode_lines].
    assert (Pull.trim_start_spaces mark = mark) as -> by by destruct Hm as [->| ->].
    destruct (Pull.apply_pull_filters filters mark) as [allowed rejected]. cbn in Hf. subst rejected.
    destruct allowed; cbn [negb]; [|done].
    assert (Pull.parse_pushed_option_line mark = Some [txt "push-continuation"; drop 18 mark]) as ->
      by (by destruct Hm as [->| ->]; vm_compute).
    change (IpText.join [Pull.SPACE] [drop 18 mark]) with (drop 18 mark).
    assert (Pull.apply_option w (txt "push-continuation") (drop 18 mark) = w) as ->
      by (by destruct Hm as [->| ->]).
    apply read_lines_continuation.
  - unfold read_lines in *. cbn [app Pull.decode_lines].
    destruct (Pull.apply_pull_filters filters (Pull.trim_start_spaces line)) as [allowed rejected].
    destruct rejected; [done|]. destruct allowed; cbn [negb]; [|apply IH].
    destruct (Pull.parse_pushed_option_line line) as [[|name values]|]; apply IH.
Qed.

(** The filters let the markers pass. *)
Definition filters_ok (filters : list PullFilter) : Prop :=
  (Pull.apply_pull_filters filters more).2 = false /\ (Pull.apply_pull_filters filters finished).2 = false.

Lemma read_lines_groups filters l1 groups l2 w c :
  filters_ok filters ->
  read_lines filters (l1 ++ (groups ≫= fun g => pieces (g ++ [more])) ++ l2) w c
  = read_lines filters (l1 ++ pieces (concat groups) ++ l2) w c.
Proof.
  intros [Hf _]. revert l1. induction groups as [|g groups IH]; intros l1; [done|].
  cbn [mbind list_bind concat]. unfold pieces at 1 3. rewrite !bind_app. fold (pieces g) (pieces (concat groups)).
  change ([more] ≫= split_on COMMA) with [more]. rewrite <-!app_assoc. cbn [app].
  rewrite (app_assoc l1). rewrite read_lines_marker by (by (left + done)).
  rewrite IH. by rewrite <-app_assoc.
Qed.

(** *** The records of a reply *)

(** A field of a reply: a string without a null byte whose lines are no markers. *)
Definition field_ok (f : text) : Prop :=
  utf8_valid f = true /\ NUL ∉ f /\ Forall (fun line => Pull.line_continuation line = None) (split_on COMMA f).

Definition start (accumulated : list text) : list text :=
  match accumulated with [] => [PUSH_REPLY_PAYLOAD_PREFIX] | _ => accumulated end.

(** The continuation that a record announces. *)
Definition continuation_of (c : Z) (lines : list text) : Z :=
  foldl (fun continuation line => default continuation (Pull.line_continuation line)) c lines.

Lemma pieces_app a b : pieces (a ++ b) = pieces a ++ pieces b.
Proof. apply bind_app. Qed.

Lemma continuation_app c a b : continuation_of c (a ++ b) = continuation_of (continuation_of c a) b.
Proof. apply foldl_app. Qed.

Lemma continuation_pieces fields c : Forall field_ok fields -> continuation_of c (pieces fields) = c.
Proof.
  intros Hf. unfold pieces, continuation_of. revert c. induction Hf as [|f fields (_ & _ & Hl) Hf IH]; intros c; [done|].
  cbn [mbind list_bind]. rewrite foldl_app, IH. clear Hf IH.
  induction Hl as [|line l Hl _ IH]; [done|]. cbn [foldl]. by rewrite Hl.
Qed.

Lemma continuation_marked fields mark c :
  Forall field_ok fields -> marker mark ->
  continuation_of c (pieces (fields ++ [mark])) = if decide (mark = more) then 2 else 1.
Proof.
  intros Hf Hm. rewrite pieces_app, continuation_app, (continuation_pieces fields) by done.
  by destruct Hm as [->| ->].
Qed.

Lemma marker_field mark : marker mark -> utf8_valid mark = true /\ NUL ∉ mark.
Proof. intros [->| ->]; (split; [done|by apply Negotiation.not_in]). Qed.

Lemma marked_end fields mark : marker mark -> plain_end (joined (fields ++ [mark])).
Proof.
  intros Hm. unfold plain_end. rewrite joined_snoc.
  change (COMMA :: mark) with ([COMMA] ++ mark). rewrite app_assoc, last_app.
  destruct Hm as [->| ->]; [exists 50|exists 49]; (split_and!; [done|lia|lia|done]).
Qed.

Lemma accepted_segment fields acc :
  Forall (fun f => utf8_valid f = true /\ NUL ∉ f) fields -> plain_end (joined fields) ->
  Pull.append_push_reply_payload_segment acc (tls_control_string_payload (joined fields))
  = Some (start acc ++ pieces fields, continuation_of 0 (pieces fields)).
Proof. intros Hf He. unfold Pull.append_push_reply_payload_segment. by rewrite payload_lines. Qed.

Lemma accepted_reply fields m :
  Forall (fun f => utf8_valid f = true /\ NUL ∉ f) fields -> plain_end (joined fields) ->
  accept_record (tls_control_string_payload (joined fields)) m
  = accept_push_reply (tls_control_string_payload (joined fields)) m.
Proof.
  intros Hf He. unfold accept_record. apply Forall_and in Hf as [Hv Hn].
  by rewrite (payload_classified (joined fields) _ eq_refl (joined_valid _ Hv) (joined_not_nul _ Hn) He).
Qed.

Lemma fields_text g l :
  Forall field_ok g -> Forall marker l -> Forall (fun f => utf8_valid f = true /\ NUL ∉ f) (g ++ l).
Proof.
  intros Hg Hl. apply Forall_app_2; (eapply Forall_impl; [eassumption|]).
  - by intros f (? & ? & _).
  - intros f Hf. by apply marker_field.
Qed.

(** A record that announces another one is kept. *)
Lemma group_accepted g m :
  Forall field_ok g ->
  accept_record (tls_control_string_payload (joined (g ++ [more]))) m
  = (Ok Ignored,
     m <| accumulated_push_reply_lines := start (accumulated_push_reply_lines m) ++ pieces (g ++ [more]) |>
       <| push_continuation_pending := true |>).
Proof.
  intros Hg. assert (Forall marker [more]) as Hm by (constructor; [by left|done]).
  pose proof (fields_text g [more] Hg Hm) as Ht.
  pose proof (marked_end g more (or_introl eq_refl)) as He.
  rewrite accepted_reply by done.
  unfold accept_push_reply, mbind, method_bind, gets, modify, id. cbn beta iota.
  rewrite accepted_segment by done.
  by rewrite continuation_marked by (done || by left).
Qed.

(** The last record gives the options of all of them. *)
Lemma last_accepted rest marks m :
  Forall field_ok rest -> marks = [] \/ marks = [finished] -> plain_end (joined (rest ++ marks)) ->
  let lines := start (accumulated_push_reply_lines m) ++ pieces (rest ++ marks) in
  accept_record (tls_control_string_payload (joined (rest ++ marks))) m
  = finish_pull
      (Pull.decode_push_reply_option_lines (nth 0 lines []) (tail lines)
         (remote_host (pull_options m)) (filters (pull_options m))).1
      (m <| accumulated_push_reply_lines := [] |> <| push_continuation_pending := false |>).
Proof.
  intros Hr Hm He lines.
  assert (Forall marker marks) as Hms by (destruct Hm as [->| ->]; repeat constructor; by right).
  rewrite accepted_reply by (by apply fields_text || done).
  unfold accept_push_reply, mbind, method_bind, gets, modify, id. cbn beta iota.
  rewrite accepted_segment by (by apply fields_text || done). fold lines.
  assert (continuation_of 0 (pieces (rest ++ marks)) <> 2 ) as Hc.
  { destruct Hm as [->| ->]; [by rewrite app_nil_r, continuation_pieces|].
    by rewrite continuation_marked by (done || by right). }
  rewrite decide_False, bool_decide_eq_false_2 by done.
  by destruct (Pull.decode_push_reply_option_lines _ _ _ _).
Qed.

(** The lines that were kept and the flag of the continuation change nothing
    else. *)
Definition receiving (m : ClientPullMachine) (lines : list text) (pending : bool) : ClientPullMachine :=
  m <| accumulated_push_reply_lines := lines |> <| push_continuation_pending := pending |>.

Definition pull_outcome (r : result ClientPullStateError ClientPullEvent)
    : option (result ClientPullStateError ClientPullResult) :=
  match r with
  | Ok (Complete r) => Some (Ok r)
  | Ok _ => None
  | Err e => Some (Err e)
  end.

Lemma pull_loop_last r m : pull_loop [r] m = pull_outcome (accept_record r m).1.
Proof. cbn [pull_loop]. destruct (accept_record r m) as [[[| | |]|] m']; done. Qed.

Lemma pull_loop_groups groups r m :
  Forall (Forall field_ok) groups ->
  exists lines pending,
    pull_loop (((fun g => tls_control_string_payload (joined (g ++ [more]))) <$> groups) ++ [r]) m
    = pull_loop [r] (receiving m lines pending)
    /\ start lines = start (accumulated_push_reply_lines m) ++ (groups ≫= fun g => pieces (g ++ [more])).
Proof.
  intros Hg. revert m. induction Hg as [|g groups Hg Hgs IH]; intros m.
  - exists (accumulated_push_reply_lines m), (push_continuation_pending m). split; [by destruct m|].
    by rewrite app_nil_r.
  - cbn [fmap list_fmap app]. cbn [pull_loop]. rewrite group_accepted by done.
    edestruct IH as (lines & pending & E & El). rewrite E.
    exists lines, pending. split; [by destruct m|]. rewrite El.
    cbn [mbind list_bind]. rewrite app_assoc. f_equal.
    destruct m as [? ? ? acc ? ? ?]. cbn. by destruct acc.
Qed.

Lemma decode_same command host filters l1 l2 :
  read_lines filters l1 wire_default 0 = read_lines filters l2 wire_default 0 ->
  (Pull.decode_push_reply_option_lines command l1 host filters).1
  = (Pull.decode_push_reply_option_lines command l2 host filters).1.
Proof.
  unfold read_lines, Pull.decode_push_reply_option_lines.
  destruct (Pull.decode_lines filters l1 _ _) as [[w1 c1] r1], (Pull.decode_lines filters l2 _ _) as [[w2 c2] r2].
  by intros [= -> ->].
Qed.

(** The result of the client when the lines of the fields are decoded at once. *)
Definition pull_fields (o : ClientPullOptions) (fields : list text)
    : option (result ClientPullStateError ClientPullResult) :=
  pull_outcome
    (finish_pull
       (Pull.decode_push_reply_option_lines PUSH_REPLY_PAYLOAD_PREFIX (pieces fields)
          (remote_host o) (filters o)).1 (machine_new o)).1.

(** The client gets the fields that the server split. *)
Lemma fields_delivered fs payloads o :
  Push.split_server_push_reply_fields (PUSH_REPLY_PAYLOAD_PREFIX :: fs) = Ok payloads ->
  Forall field_ok fs -> plain_end (joined fs) -> filters_ok (filters o) ->
  pull_loop (tls_control_string_payload <$> payloads) (machine_new o) = pull_fields o fs.
Proof.
  intros (groups & rest & -> & -> & _)%split_groups Hf He Hflt.
  apply Forall_app in Hf as [Hgs Hr]. rewrite fmap_app. cbn [fmap list_fmap].
  rewrite <-list_fmap_compose. set (marks := if bool_decide (groups <> []) then [finished] else []).
  destruct (pull_loop_groups groups (tls_control_string_payload (joined (rest ++ marks))) (machine_new o))
    as (lines & pending & E & El); [by apply Forall_concat|].
  unfold compose. rewrite E, pull_loop_last. clear E.
  assert (marks = [] \/ marks = [finished]) as Hm by (unfold marks; case_bool_decide; auto).
  rewrite last_accepted; [|done..|].
  - cbv zeta. change (accumulated_push_reply_lines (receiving (machine_new o) lines pending)) with lines.
    rewrite El. cbn [start machine_new accumulated_push_reply_lines app nth tail].
    change (pull_options (receiving _ _ _)) with o. unfold pull_fields.
    rewrite (decode_same _ _ _ _ (pieces (concat groups ++ rest))).
    + done.
    + etrans; [exact (read_lines_groups (filters o) [] groups (pieces (rest ++ marks)) wire_default 0 Hflt)|].
      cbn [app]. rewrite !pieces_app. destruct Hm as [->| ->]; [by rewrite app_nil_r|].
      rewrite (app_assoc (pieces (concat groups))).
      change (pieces [finished]) with [finished].
      rewrite (read_lines_marker _ _ finished []) by (by right || apply Hflt). by rewrite app_nil_r.
  - unfold marks. case_bool_decide as Hne; [by apply marked_end; right|].
    subst groups. by rewrite app_nil_r.
Qed.

End PushDelivery.

(** ** The negotiated options *)

Module NegotiatedLines.
Import Control Negotiation OptionLines PushDelivery.

Definition not_rejected (filters : list PullFilter) (line : text) : Prop :=
  (Pull.apply_pull_filters filters (Pull.trim_start_spaces line)).2 = false.

Definition passed (filters : list PullFilter) (line : text) : Prop :=
  Pull.apply_pull_filters filters (Pull.trim_start_spaces line) = (true, false).

Lemma read_lines_app filters a b w c :
  Forall (not_rejected filters) a ->
  exists w', read_lines filters (a ++ b) w c = read_lines filters b w' c.
Proof.
  intros Ha. revert w c. induction Ha as [|line a Hl Ha IH]; intros w c; [by exists w|].
  unfold not_rejected in Hl. cbn [app]. unfold read_lines at 1. cbn [Pull.decode_lines].
  destruct (Pull.apply_pull_filters filters (Pull.trim_start_spaces line)) as [allowed rejected].
  cbn in Hl. subst rejected. destruct allowed; cbn [negb]; [|apply IH].
  destruct (Pull.parse_pushed_option_line line) as [[|name values]|]; [apply IH| |apply IH].
  edestruct IH as [w' E]. exists w'. etrans; [exact E|]. apply read_lines_continuation.
Qed.

(** One line that passes the filters. *)
Lemma read_lines_passed filters line name values lines w c :
  passed filters line -> Pull.parse_pushed_option_line line = Some (name :: values) ->
  read_lines filters (line :: lines) w c
  = read_lines filters lines (Pull.apply_option w name (IpText.join [Pull.SPACE] values)) c.
Proof.
  intros Hp Hl. unfold read_lines at 1. cbn [Pull.decode_lines]. rewrite Hp, Hl. cbn [negb].
  apply read_lines_continuation.
Qed.

Definition cipher_name (cipher : text) : Prop := plain_word cipher.

Lemma cipher_name_ok cipher : cipher_name cipher -> name_ok cipher.
Proof.
  intros Hc. split_and!; [apply Hc|by apply plain_trim|..]; (eapply plain_not_elem; [done|apply Hc]).
Qed.

Lemma cipher_line cipher :
  cipher_name cipher ->
  Pull.parse_pushed_option_line (txt "cipher " ++ cipher) = Some [txt "cipher"; cipher].
Proof.
  intros Hc. apply (parse_words [txt "cipher"; cipher]); [|done|cbn; lia].
  constructor; [by split|]. constructor; [done|constructor].
Qed.

Lemma decimal_word x : 0 <= x -> plain_word (IpText.decimal x).
Proof.
  intros Hx. split; [by apply decimal_last|]. apply forallb_forall. intros b Hb%list_elem_of_In.
  assert (IpText.is_alnum b) as Ha.
  { pose proof (IpText.digits_alnum 10 20 x ltac:(lia) Hx) as Hd. rewrite Forall_forall in Hd. by apply Hd. }
  unfold plain. unfold IpText.is_alnum in Ha. apply bool_decide_eq_true_2. split; [lia|].
  unfold Pull.QUOTE, Pull.APOSTROPHE, COMMA, IpText.COLON, Pull.BACKSLASH.
  repeat (apply not_elem_of_cons; split; [lia|]). apply not_elem_of_nil.
Qed.

Lemma peer_id_line id :
  0 <= id -> Pull.parse_pushed_option_line (Push.number_field "peer-id" id) = Some [txt "peer-id"; IpText.decimal id].
Proof.
  intros Hid. apply (parse_words [txt "peer-id"; IpText.decimal id]); [|done|cbn; lia].
  constructor; [by split|]. constructor; [by apply decimal_word|constructor].
Qed.

(** A peer id that the client accepts. *)
Definition peer_id_ok (id : Z) : Prop := 0 <= id <= Pull.PEER_ID_MAX_VALUE.

Lemma apply_peer_id w id :
  peer_id_ok id ->
  Pull.apply_option w (txt "peer-id") (IpText.decimal id) = w <| w_peer_id := Some id |>.
Proof.
  intros Hid. change (Pull.set_peer_id w (IpText.decimal id) = w <| w_peer_id := Some id |>).
  unfold Pull.set_peer_id. rewrite plain_trim by (apply decimal_word; apply Hid).
  assert (id <= U32_MAX) by (etrans; [apply Hid|]; by vm_compute).
  rewrite parse_u32_decimal by (split; [apply Hid|lia]). by rewrite decide_True by apply Hid.
Qed.

Lemma apply_cipher w cipher :
  cipher <> [] -> Pull.apply_option w (txt "cipher") cipher = w <| w_selected_cipher := cipher |>.
Proof. by destruct cipher. Qed.

(** The lines of what was negotiated with a client that announces what this
    program announces. *)
Definition negotiated_lines (cipher : text) (id : option Z) : list text :=
  [txt "cipher " ++ cipher]
  ++ (match id with Some id => [Push.number_field "peer-id" id] | None => [] end)
  ++ [txt "protocol-flags cc-exit tls-ekm"].

Lemma negotiated_fields_lines ciphers mtu compression os cipher assigned :
  Forall cipher_name (advertised_data_ciphers ciphers) -> 0 <= mtu -> cipher <> [] ->
  Push.negotiated_fields (build_tls_client_peer_info ciphers true mtu compression os) cipher assigned
  = negotiated_lines cipher (assigned_peer_id assigned).
Proof.
  intros Hc Hm Hne.
  assert (Forall name_ok (advertised_data_ciphers ciphers)) as Hn
    by (eapply Forall_impl; [done|]; apply cipher_name_ok).
  unfold Push.negotiated_fields, negotiated_lines. rewrite client_cipher_list by done.
  rewrite !client_supports by (done || by repeat (left || right)).
  destruct cipher; [done|]. by destruct (assigned_peer_id assigned).
Qed.

(** The last lines decide what was negotiated. *)
Lemma read_negotiated filters lines cipher id w c :
  Forall (not_rejected filters) lines -> Forall (passed filters) (negotiated_lines cipher id) ->
  cipher_name cipher -> from_option peer_id_ok True id ->
  exists w', read_lines filters (lines ++ negotiated_lines cipher id) w c = (w', [])
    /\ w_selected_cipher w' = cipher /\ (is_Some id -> w_peer_id w' = id)
    /\ w_protocol_flags w' = [txt "cc-exit"; txt "tls-ekm"].
Proof.
  intros Hl Hp Hc Hid. destruct (read_lines_app filters lines (negotiated_lines cipher id) w c Hl) as [w0 ->].
  unfold negotiated_lines in *. apply Forall_app in Hp as [Hp1 Hp]. apply Forall_app in Hp as [Hp2 Hp3].
  apply Forall_cons in Hp1 as [Hp1 _]. apply Forall_cons in Hp3 as [Hp3 _]. cbn [app].
  rewrite (read_lines_passed _ _ _ _ _ _ _ Hp1 (cipher_line _ Hc)).
  cbn [IpText.join]. rewrite apply_cipher by apply Hc.
  assert (forall w, read_lines filters [txt "protocol-flags cc-exit tls-ekm"] w c
            = (w <| w_protocol_flags := [txt "cc-exit"; txt "tls-ekm"] |>, [])) as Hlast.
  { intros w1. rewrite (read_lines_passed _ _ (txt "protocol-flags") [txt "cc-exit"; txt "tls-ekm"] _ _ _ Hp3);
      [done|by vm_compute]. }
  destruct id as [id|]; cbn [app] in *.
  - apply Forall_cons in Hp2 as [Hp2 _].
    rewrite (read_lines_passed _ _ _ _ _ _ _ Hp2 (peer_id_line id ltac:(apply Hid))).
    cbn [IpText.join]. rewrite apply_peer_id by done. rewrite Hlast. by eexists.
  - rewrite Hlast. eexists. split_and!; [done|done|by intros [? ?]|done].
Qed.

Lemma line_field name value :
  plain_word (txt name) -> plain_word value -> txt name <> txt "push-continuation" ->
  to_ascii_lowercase (txt name) = txt name ->
  field_ok (txt name ++ [Pull.SPACE] ++ value) /\ split_on COMMA (txt name ++ [Pull.SPACE] ++ value)
    = [txt name ++ [Pull.SPACE] ++ value].
Proof.
  intros Hn Hv Hname Hlow. assert (Forall plain_word [txt name; value]) as Hw by (constructor; [done|constructor; [done|constructor]]).
  assert (forall c, plain c = false -> c <> Pull.SPACE -> c ∉ txt name ++ [Pull.SPACE] ++ value) as Hnot.
  { intros c Hc Hs. rewrite !not_elem_of_app. split_and!; [eapply plain_not_elem; [done|apply Hn]| |
      eapply plain_not_elem; [done|apply Hv]]. apply not_elem_of_cons. split; [done|apply not_elem_of_nil]. }
  assert (split_on COMMA (txt name ++ [Pull.SPACE] ++ value) = [txt name ++ [Pull.SPACE] ++ value]) as Hs
    by (apply split_on_none, Hnot; done).
  split; [|done]. split_and!; [|by apply Hnot|].
  - rewrite !utf8_valid_app; [|done|]; apply utf8_valid_ascii, plain_ascii; [apply Hv|apply Hn].
  - rewrite Hs. constructor; [|done]. unfold Pull.line_continuation.
    assert (Pull.parse_pushed_option_line (txt name ++ [Pull.SPACE] ++ value) = Some [txt name; value]) as ->
      by (apply (parse_words [txt name; value] Hw); [done|cbn; lia]).
    assert (eq_ignore_ascii_case (txt name) (txt "push-continuation") = false) as ->; [|done].
    apply bool_decide_eq_false_2. by rewrite Hlow.
Qed.

Lemma negotiated_lines_ok cipher id :
  cipher_name cipher -> from_option peer_id_ok True id ->
  Forall field_ok (negotiated_lines cipher id) /\ pieces (negotiated_lines cipher id) = negotiated_lines cipher id.
Proof.
  intros Hc Hid.
  destruct (line_field "cipher" cipher) as [H1 S1]; [by split|done|done|done|].
  assert (field_ok (txt "protocol-flags cc-exit tls-ekm")) as H3.
  { split_and!; [done|by apply not_in|]. by repeat constructor. }
  unfold negotiated_lines, pieces. change (txt "cipher " ++ cipher) with (txt "cipher" ++ [Pull.SPACE] ++ cipher).
  destruct id as [id|].
  - destruct (line_field "peer-id" (IpText.decimal id)) as [H2 S2];
      [by split|apply decimal_word; apply Hid|done|done|].
    split; [repeat (apply Forall_cons; split; [done|]); constructor|].
    rewrite !bind_app. cbn [mbind list_bind]. unfold Push.number_field. by rewrite S1, S2.
  - split; [repeat (apply Forall_cons; split; [done|]); constructor|].
    rewrite !bind_app. cbn [mbind list_bind]. by rewrite S1.
Qed.

Lemma negotiated_end fs cipher id : plain_end (joined (fs ++ negotiated_lines cipher id)).
Proof.
  unfold negotiated_lines. rewrite !app_assoc, joined_snoc. exists 109.
  change (COMMA :: txt "protocol-flags cc-exit tls-ekm") with (txt ",protocol-flags cc-exit tls-ekm").
  rewrite last_app. split_and!; [done|lia|lia|done].
Qed.

(** A reply that selects a cipher which the client accepts completes the pull. *)
Lemma finish_selected options m c :
  pull_filter_rejection options = [] -> selected_cipher options <> [] ->
  validate_server_pushed_cipher (configured_ciphers (pull_options m)) (fallback_cipher (pull_options m))
    (selected_cipher options) = Ok (Some c) ->
  exists auth info, (ClientPull.finish_pull options m).1 = Ok (Complete (mkPullResult options c auth info)).
Proof.
  intros Hr Hc Hv. destruct m as [o cipher auth acc p a info]. cbn [pull_options] in Hv.
  unfold ClientPull.finish_pull. rewrite Hr, decide_False by (by intros []).
  destruct (selected_cipher options) as [|b l] eqn:Es; [done|]. clear Hc.
  destruct (bool_decide (selected_auth options <> []));
    unfold mbind, method_bind, mret, method_ret, when, modify, gets, lift, id;
    cbn -[validate_server_pushed_cipher select_pulled_cipher];
    rewrite decide_False by done; (rewrite Hv; cbn; by eexists _, _).
Qed.

(** The client completes with the cipher that the server chose. *)
Lemma negotiated_pulled o fs payloads cipher id c :
  Push.split_server_push_reply_fields (PUSH_REPLY_PAYLOAD_PREFIX :: fs ++ negotiated_lines cipher id) = Ok payloads ->
  Forall field_ok fs -> filters_ok (filters o) -> Forall (not_rejected (filters o)) (pieces fs) ->
  Forall (passed (filters o)) (negotiated_lines cipher id) -> cipher_name cipher ->
  from_option peer_id_ok True id ->
  validate_server_pushed_cipher (configured_ciphers o) (fallback_cipher o) cipher = Ok (Some c) ->
  exists r, ClientPull.pull_loop (tls_control_string_payload <$> payloads) (ClientPull.machine_new o) = Some (Ok r)
    /\ pulled_cipher r = c /\ (is_Some id -> peer_id (pulled r) = id)
    /\ protocol_flags (pulled r) = [txt "cc-exit"; txt "tls-ekm"].
Proof.
  intros Hs Hf Hfl Hn Hp Hc Hid Hv. destruct (negotiated_lines_ok cipher id Hc Hid) as [Hnf Hpc].
  rewrite (fields_delivered _ _ _ Hs) by (apply Forall_app_2 || apply negotiated_end || idtac; done).
  unfold pull_fields. rewrite pieces_app, Hpc.
  destruct (read_negotiated (filters o) (pieces fs) cipher id wire_default 0) as (w & Hw & Ew & Ei & Ep); [done..|].
  unfold Pull.decode_push_reply_option_lines. unfold read_lines in Hw.
  destruct (Pull.decode_lines _ _ _ _) as [[w' k] rej]. simplify_eq Hw. intros -> ->.
  pose proof (Conversion.from_wire_negotiated w (remote_host o)) as Hneg. revert Hneg.
  generalize (Pull.pushed_options_from_wire w (remote_host o)). intros po [= E1 E2 E3 E4 E5]. rewrite Ew in E1.
  set (options := po <| kind := _ |> <| pull_filter_rejection := [] |>).
  destruct (finish_selected options (ClientPull.machine_new o) c) as (auth & info & E); [done|..].
  - change (selected_cipher po <> []). rewrite E1. apply Hc.
  - change (selected_cipher options) with (selected_cipher po). by rewrite E1.
  - cbn [fst]. rewrite E. eexists. split_and!; [done|done|..]; cbn [pulled].
    + intros Hi. change (peer_id po = id). rewrite E3. by apply Ei.
    + change (protocol_flags po = [txt "cc-exit"; txt "tls-ekm"]). by rewrite E4.
Qed.

End NegotiatedLines.

(** ** Deciding the conditions *)

Module PushDecide.
Import PushDelivery NegotiatedLines OptionLines.

Definition field_okb (f : text) : bool :=
  utf8_valid f && bool_decide (Control.NUL ∉ f)
  && forallb (fun line => bool_decide (Pull.line_continuation line = None)) (split_on COMMA f).

Lemma fields_okb fs : forallb field_okb fs = true -> Forall field_ok fs.
Proof.
  intros Hf. apply Forall_forall. intros f Hin. rewrite forallb_forall in Hf.
  apply list_elem_of_In, Hf in Hin. apply andb_true_iff in Hin as [Hin Hl].
  apply andb_true_iff in Hin as [Hv Hn]. split_and!; [done|by apply bool_decide_eq_true_1 in Hn|].
  apply Forall_forall. intros line Hline. rewrite forallb_forall in Hl.
  by apply list_elem_of_In, Hl, bool_decide_eq_true in Hline.
Qed.

Lemma lines_pass f lines :
  forallb (fun line => bool_decide (Pull.apply_pull_filters f (Pull.trim_start_spaces line) = (true, false))) lines
  = true -> Forall (passed f) lines /\ Forall (not_rejected f) lines.
Proof.
  intros Hf. assert (Forall (passed f) lines) as Hp.
  { apply Forall_forall. intros line Hin. rewrite forallb_forall in Hf.
    by apply list_elem_of_In, Hf, bool_decide_eq_true in Hin. }
  split; [done|]. eapply Forall_impl; [exact Hp|]. intros line E. unfold not_rejected. by rewrite E.
Qed.

Lemma words_plain (l : list text) :
  forallb (fun w => bool_decide (w <> []) && forallb plain w) l = true -> Forall cipher_name l.
Proof.
  intros Hf. apply Forall_forall. intros w Hin. rewrite forallb_forall in Hf.
  apply list_elem_of_In, Hf, andb_true_iff in Hin as [Hn Hp]. split; [by apply bool_decide_eq_true_1 in Hn|done].
Qed.

End PushDecide.

(** ** The reply as a whole *)

Module PushReplies.
Import Control ClientPull PushDelivery PushDecide.

(** C7: a configuration of any size reaches the client. When the server
    splits the option fields of a reply into payloads, every payload with its
    terminator fits the bundle of 1024 bytes; and the client, fed the payloads one
    by one, ends as if it had decoded all the fields of one record: with the same
    options, or with the same error. The markers between the payloads leave no
    trace in the options. The fields are text without a zero byte and without a
    marker of their own, the reply does not end in white space, and no filter of
    the client rejects the markers. *)
Theorem push_delivered fs payloads o :
  Push.split_server_push_reply_fields (PUSH_REPLY_PAYLOAD_PREFIX :: fs) = Ok payloads ->
  Forall field_ok fs -> plain_end (joined fs) -> filters_ok (filters o) ->
  Forall (fun p => length (tls_control_string_payload p) < Push.SERVER_PUSH_BUNDLE_SIZE)%nat payloads
  /\ pull_loop (tls_control_string_payload <$> payloads) (machine_new o) = pull_fields o fs.
Proof. intros Hs Hf He Ho. split; [by eapply split_fits|by apply fields_delivered]. Qed.

(** Forty search domains, a route that the client filters out, and a cipher. *)
Definition example_fields : list text :=
  replicate 40 (txt "dhcp-option DOMAIN-SEARCH a-long-name-of-a-zone.example.org")
  ++ [txt "route 10.0.0.0 255.0.0.0"; txt "cipher AES-256-GCM"].

Definition example_options : ClientPullOptions :=
  mkPullOptions [txt "AES-256-GCM"] [] [] (txt "SHA256") None [mkFilter (txt "ignore") (txt "route")]
    (from_secs 60) (from_secs 3600) 0.

Definition example_payloads : list (list Z) :=
  match Push.split_server_push_reply_fields (PUSH_REPLY_PAYLOAD_PREFIX :: example_fields) with
  | Ok l => l
  | Err _ => []
  end.

Definition summary (r : option (result ClientPullStateError ClientPullResult)) : option (text * nat * nat) :=
  match r with
  | Some (Ok r) => Some (pulled_cipher r, length (dhcp_options (pulled r)), length (routes (pulled r)))
  | _ => None
  end.

Lemma push_delivered_witness :
  length example_payloads = 3%nat
  /\ summary (pull_loop (tls_control_string_payload <$> example_payloads) (machine_new example_options))
     = Some (txt "AES-256-GCM", 40%nat, 0%nat).
Proof.
  split; [vm_compute; reflexivity|].
  destruct (push_delivered example_fields example_payloads example_options) as [_ E].
  - vm_compute. reflexivity.
  - apply fields_okb. vm_compute. reflexivity.
  - exists 77. split_and!; vm_compute; reflexivity.
  - split; vm_compute; reflexivity.
  - rewrite E. vm_compute. reflexivity.
Defined.

(** A record whose command begins as a reply's and is not one is ignored, but the
    lines gathered from the payloads before it are lost. *)
Lemma stray_push_record m :
  accept_record (tls_control_string_payload PUSH_REQUEST_PAYLOAD) m
  = (Ok Ignored, m <| accumulated_push_reply_lines := [] |>).
Proof. by destruct m. Qed.

End PushReplies.
