(* ===== verification/OvpnTlsSession.v ===== *)
(** * The negotiation of a TLS session ([tls_session.rs])

    What the two ends do after the TLS handshake: they exchange the messages of
    key method 2, the server authorises the client and chooses the cipher, the
    client pulls its options, and both derive the keys of the data channel.
    The TLS library is a parameter: the records arrive in order, and the
    exporter gives the keying material of the session. *)

From stdpp Require Import base numbers list strings.
From Stdlib Require Import ZArith Lia.
From S2P Require Import Prelude OvpnText Text IpText SocksAddr OvpnReplay OvpnCompression OvpnCrypto OvpnDataCodec OvpnControlMessage OvpnKeyMethod OvpnPushOptions OvpnPull.

Local Open Scope Z_scope.
Local Open Scope record_scope.

(** The parts of the options that the negotiation reads. *)
Record ClientTlsDataChannelOptions : Type := mkClientData {
  client_replay_window_size : Z;
  client_replay_window_time : Z;
  client_peer_id : option Z;
}.

Record ServerTlsDataChannelOptions : Type := mkServerData {
  server_ciphers : list text;
  server_fallback_cipher : text;
  server_auth : text;
  server_protocol : text;
  server_tls_auth_enabled : bool;
  server_compression : Compression.CompressionSettings;
  server_tun_mtu : Z;
  server_peer_info : text;
  server_pushed_options : PushedOptions;
  server_replay_window_size : Z;
  server_replay_window_time : Z;
}.

Inductive NegotiationError : Type :=
| SessionFailed (error : TlsSessionError)
| PullFailed (error : ClientPullStateError)
| ControlFailed (error : ServerControlError)
| CodecFailed (error : OpenVpnDataCodecError)
| Rejected.

(** The end of a negotiation: the keys, the cipher, the codec and the peer id of
    the data channel. *)
Record Negotiated : Type := mkNegotiated {
  data_key_material : list Z;
  data_cipher : text;
  data_auth : text;
  data_codec : Codec.DynDataCodec;
  data_peer_id : option Z;
}.

Global Instance ClientPullOptions_settable : Settable ClientPullOptions :=
  fun o => mkPullOptions (configured_ciphers o) (fallback_cipher o) (remote_cipher o) (configured_auth o)
    (remote_host o) (filters o) (hand_window o) (renegotiation_interval o) (pre_pull_ping_restart o).

Module TlsSession.
Import Negotiation OptionLines PushDelivery NegotiatedLines.

Section TlsSession.
Context `{Crypto} `{DataCiphers}.

(** *** The client *)

(** The first half of [exchange_client_key_method]. *)
Definition client_request (random : nat -> result TlsSessionError (list Z)) (message : TlsKeyMethodMessage)
    : result TlsSessionError (list Z * TlsKeySource) :=
  source ← (if decide (random1 (key_source message) = []) then KeyMethod.generate random true
            else Ok (key_source message));
  let message := mkKeyMethod (options_string message) (username message) (password message)
                   (peer_info message) source in
  request ← map_err KeyMethodFailed (KeyMethod.encode message false);
  Ok (request, source).

(** The rest of [negotiate_tls_client_data_channel]: the answer of the server
    and the records after it, when they complete the exchange. *)
Definition client_negotiate (export : text -> nat -> option (list Z)) (local_id : list Z)
    (remote_id : option (list Z)) (source : TlsKeySource) (pull_options : ClientPullOptions)
    (data_options : ClientTlsDataChannelOptions) (now : Z) (response : list Z) (records : list (list Z))
    : option (result NegotiationError Negotiated) :=
  match KeyMethod.parse response true with
  | Err e => Some (Err (SessionFailed (KeyMethodFailed e)))
  | Ok server_message =>
      let pull_options :=
        if decide (remote_cipher pull_options = []) then
          pull_options <| remote_cipher := default [] (extract_remote_cipher_name (options_string server_message)) |>
        else pull_options in
      pull ← ClientPull.pull_loop records (ClientPull.machine_new pull_options);
      Some (
        pull ← map_err PullFailed pull;
        let use_exporter :=
          Control.tunnel_uses_key_material_export (key_derivation (pulled pull)) (protocol_flags (pulled pull)) in
        remote_id ← ok_or (SessionFailed IncompleteKeySource) remote_id;
        key_material ← map_err SessionFailed
          (KeyDerivation.derive_session_key_material export source (key_source server_message)
             local_id remote_id use_exporter);
        let peer_id := match peer_id (pulled pull) with Some id => Some id | None => client_peer_id data_options end in
        codec ← map_err CodecFailed
          (Codec.new_tls_data_codec key_material false (Text.of_bytes (pulled_cipher pull))
             (Text.of_bytes (pulled_auth pull)) (client_replay_window_size data_options)
             (client_replay_window_time data_options) now);
        Ok (mkNegotiated key_material (pulled_cipher pull) (pulled_auth pull) codec peer_id))
  end.

(** *** The server *)

(** What the server keeps between its answer and the end of the exchange. *)
Record ServerNegotiating : Type := mkNegotiating {
  sn_message : TlsKeyMethodMessage;
  sn_cipher : text;
  sn_auth : text;
  sn_source : TlsKeySource;
  sn_peer_id : option Z;
  sn_control : ServerControlMachine;
}.

Definition no_assignment : ServerPushAssignment := mkAssignment None None [] None None.

(** The part of [negotiate_tls_server_data_channel_with_async_assignment] up to
    the push exchange: the answer to the client's message. *)
Definition server_answer (options : ServerTlsDataChannelOptions)
    (authorize_and_assign : text -> text -> result text ServerPushAssignment)
    (random : nat -> result TlsSessionError (list Z)) (request : list Z)
    : result TlsSessionError (list Z * ServerNegotiating) :=
  client_message ← map_err KeyMethodFailed (KeyMethod.parse request false);
  let '(assigned, failure) :=
    match authorize_and_assign (username client_message) (password client_message) with
    | Ok assigned => (assigned, None)
    | Err error => (no_assignment, Some error)
    end in
  let '(cipher, failure) :=
    match select_server_cipher (server_ciphers options) (server_fallback_cipher options)
            (peer_info client_message) (options_string client_message) with
    | Ok cipher => (cipher, failure)
    | Err _ =>
        (default (txt "AES-256-GCM") (head (advertised_data_ciphers (server_ciphers options))),
         match failure with
         | None => Some (txt "Data channel cipher negotiation failed (no shared cipher)")
         | Some _ => failure
         end)
    end in
  let auth := if decide (server_auth options = []) then txt "SHA1" else server_auth options in
  source ← KeyMethod.generate random false;
  let local_options_string :=
    build_tls_options_string (server_protocol options) false (server_tls_auth_enabled options)
      (server_compression options) cipher auth (server_tun_mtu options) in
  response ← map_err KeyMethodFailed
    (KeyMethod.encode (mkKeyMethod local_options_string [] [] (server_peer_info options) source) true);
  let peer_id :=
    match assigned_peer_id assigned with
    | Some id =>
        if peer_supports_iv_proto_flag (peer_info client_message) TLS_IV_PROTO_DATA_V2 then Some id else None
    | None => None
    end in
  let control :=
    ServerControl.machine_new
      (mkControlOptions (peer_info client_message) cipher (server_pushed_options options) assigned failure) in
  Ok (response, mkNegotiating client_message cipher auth source peer_id control).

(** The push exchange: the records up to the one that is answered, and the
    records of the answer. *)
Fixpoint server_loop (records : list (list Z)) (m : ServerControlMachine)
    : option (result NegotiationError (list (list Z))) :=
  match records with
  | [] => None
  | record :: records =>
      match ServerControl.accept_record record m with
      | (Ok RecordIgnored, m) => server_loop records m
      | (Ok (AuthenticationRejected _), _) => Some (Err Rejected)
      | (Ok (PushReplied payloads _), _) => Some (Ok payloads)
      | (Err e, _) => Some (Err (ControlFailed e))
      end
  end.

(** The rest of it: the keys and the codec. *)
Definition server_finish (export : text -> nat -> option (list Z)) (local_id : list Z)
    (remote_id : option (list Z)) (options : ServerTlsDataChannelOptions) (now : Z) (st : ServerNegotiating)
    : result NegotiationError Negotiated :=
  let use_exporter :=
    peer_supports_iv_proto_flag (peer_info (sn_message st)) TLS_IV_PROTO_TLS_KEY_EXPORT in
  remote_id ← ok_or (SessionFailed IncompleteKeySource) remote_id;
  key_material ← map_err SessionFailed
    (KeyDerivation.derive_session_key_material export (key_source (sn_message st)) (sn_source st)
       remote_id local_id use_exporter);
  codec ← map_err CodecFailed
    (Codec.new_tls_data_codec key_material true (Text.of_bytes (sn_cipher st)) (Text.of_bytes (sn_auth st))
       (server_replay_window_size options) (server_replay_window_time options) now);
  Ok (mkNegotiated key_material (sn_cipher st) (sn_auth st) codec (sn_peer_id st)).

(** *** Renegotiation *)

(** [negotiate_tls_client_renegotiation_data_channel] after the request: the
    cipher and the digest stay. *)
Definition client_renegotiate (export : text -> nat -> option (list Z)) (local_id : list Z)
    (remote_id : option (list Z)) (source : TlsKeySource) (cipher auth : text)
    (data_options : ClientTlsDataChannelOptions) (now : Z) (response : list Z)
    : result NegotiationError Negotiated :=
  server_message ← map_err (SessionFailed ∘ KeyMethodFailed) (KeyMethod.parse response true);
  let use_exporter := peer_supports_iv_proto_flag (peer_info server_message) TLS_IV_PROTO_TLS_KEY_EXPORT in
  remote_id ← ok_or (SessionFailed IncompleteKeySource) remote_id;
  key_material ← map_err SessionFailed
    (KeyDerivation.derive_session_key_material export source (key_source server_message)
       local_id remote_id use_exporter);
  codec ← map_err CodecFailed
    (Codec.new_tls_data_codec key_material false (Text.of_bytes cipher) (Text.of_bytes auth)
       (client_replay_window_size data_options) (client_replay_window_time data_options) now);
  Ok (mkNegotiated key_material cipher auth codec (client_peer_id data_options)).

(** [negotiate_tls_server_renegotiation_data_channel]: the result and the
    record that is sent, which is the refusal when the credentials are wrong. *)
Definition server_renegotiate (export : text -> nat -> option (list Z)) (local_id : list Z)
    (remote_id : option (list Z)) (random : nat -> result TlsSessionError (list Z))
    (verify_credentials : text -> text -> bool) (cipher auth options_string server_peer_info : text)
    (replay_window_size replay_window_time : Z) (peer : option Z) (now : Z) (request : list Z)
    : result NegotiationError Negotiated * option (list Z) :=
  match KeyMethod.parse request false with
  | Err e => (Err (SessionFailed (KeyMethodFailed e)), None)
  | Ok client_message =>
      if negb (verify_credentials (username client_message) (password client_message)) then
        (Err Rejected,
         Some (Control.tls_control_string_payload (Auth.build_auth_failed_payload (txt "invalid credentials"))))
      else
        match
          source ← map_err SessionFailed (KeyMethod.generate random false);
          let use_exporter := peer_supports_iv_proto_flag (peer_info client_message) TLS_IV_PROTO_TLS_KEY_EXPORT in
          remote_id ← ok_or (SessionFailed IncompleteKeySource) remote_id;
          key_material ← map_err SessionFailed
            (KeyDerivation.derive_session_key_material export (key_source client_message) source
               remote_id local_id use_exporter);
          codec ← map_err CodecFailed
            (Codec.new_tls_data_codec key_material true (Text.of_bytes cipher) (Text.of_bytes auth)
               replay_window_size replay_window_time now);
          response ← map_err (SessionFailed ∘ KeyMethodFailed)
            (KeyMethod.encode (mkKeyMethod options_string [] [] server_peer_info source) true);
          Ok (mkNegotiated key_material cipher auth codec peer, response)
        with
        | Ok (negotiated, response) => (Ok negotiated, Some response)
        | Err e => (Err e, None)
        end
  end.

(** ** Agreement *)

(** The data channel of an end that takes its keys from the exporter. *)
Definition data_channel (export : text -> nat -> option (list Z)) (server : bool) (cipher auth : text)
    (window_size window_time now : Z) (peer : option Z) : result NegotiationError Negotiated :=
  key_material ← map_err SessionFailed
    (ok_or OpenSslStack (export (txt "EXPORTER-OpenVPN-datakeys") KeyDerivation.TLS_PRF_KEY_MATERIAL_LENGTH));
  codec ← map_err CodecFailed
    (Codec.new_tls_data_codec key_material server (Text.of_bytes cipher) (Text.of_bytes auth)
       window_size window_time now);
  Ok (mkNegotiated key_material cipher auth codec peer).

Lemma data_channel_fields export server cipher auth ws wt now peer n :
  data_channel export server cipher auth ws wt now peer = Ok n ->
  data_cipher n = cipher /\ data_auth n = auth /\ data_peer_id n = peer.
Proof. intros (km & _ & Hn)%bind_Ok. by apply bind_Ok in Hn as (codec & _ & <-%Ok_inj). Qed.

(** The message that the server receives is the one the client sent. *)
Lemma client_request_received random message request source :
  KeyMethod.message_ok message -> client_request random message = Ok (request, source) ->
  KeyMethod.parse request false
  = Ok (mkKeyMethod (options_string message) (username message) (password message) (peer_info message) source).
Proof.
  intros Hm Hr. unfold client_request in Hr. apply bind_Ok in Hr as (src & _ & Hr).
  apply bind_Ok in Hr as (req & He & [= -> ->]%Ok_inj). apply map_err_Ok in He.
  apply (KeyMethod.encode_parsed _ _ _ []) in He; [|exact Hm]. rewrite app_nil_r in He. rewrite He.
  unfold KeyMethod.received. cbn. by destruct source.
Qed.

(** *** Configurations *)

(** The names of the ciphers are plain words, the strings are strings, and the
    client announces what [build_tls_client_peer_info] builds. *)
Definition client_configured (message : TlsKeyMethodMessage) (o : ClientPullOptions) : Prop :=
  KeyMethod.message_ok message
  /\ Forall cipher_name (advertised_data_ciphers (configured_ciphers o))
  /\ exists mtu compression os, 0 <= mtu
     /\ peer_info message = build_tls_client_peer_info (configured_ciphers o) true mtu compression os.

Definition server_configured (o : ServerTlsDataChannelOptions) : Prop :=
  Forall cipher_name (advertised_data_ciphers (server_ciphers o))
  /\ utf8_valid (server_auth o) = true /\ utf8_valid (server_peer_info o) = true /\ is_u32 (server_tun_mtu o).

Definition server_control (st : ServerNegotiating) : ServerControlOptions := control_options (sn_control st).

(** The lines of the options for this client, without the command. *)
Definition option_fields (st : ServerNegotiating) : list text :=
  tail (Push.build_push_reply_option_fields
          (Push.assigned_options (pushed_options (server_control st)) (control_peer_info (server_control st))
             (assignment (server_control st)))).

(** The options can be pushed: they are strings that contain no marker of a
    continuation, the client's filters reject none of them and let what was
    negotiated pass, and the peer id has 24 bits. *)
Definition pushable (st : ServerNegotiating) (o : ClientPullOptions) : Prop :=
  let id := assigned_peer_id (assignment (server_control st)) in
  Forall field_ok (option_fields st) /\ filters_ok (filters o)
  /\ Forall (not_rejected (filters o)) (pieces (option_fields st))
  /\ Forall (passed (filters o)) (negotiated_lines (sn_cipher st) id)
  /\ from_option peer_id_ok True id.

Lemma decimal_ascii x : 0 <= x -> ascii (IpText.decimal x).
Proof. intros Hx. by apply plain_ascii, decimal_word. Qed.

Lemma options_string_valid protocol is_client tls_auth compression cipher auth mtu :
  cipher_name cipher -> utf8_valid auth = true -> is_u32 mtu ->
  utf8_valid (build_tls_options_string protocol is_client tls_auth compression cipher auth mtu) = true.
Proof.
  intros Hc Ha Hm. unfold build_tls_options_string. cbv zeta.
  assert (forall s t, utf8_valid s = true -> utf8_valid t = true -> utf8_valid (s ++ t) = true) as Happ
    by (intros s t Hs Ht; by rewrite utf8_valid_app).
  assert (utf8_valid cipher = true) by (apply utf8_valid_ascii, plain_ascii, Hc).
  assert (forall x, 0 <= x -> utf8_valid (IpText.decimal x) = true) as Hd
    by (intros; by apply utf8_valid_ascii, decimal_ascii).
  repeat apply Happ; try done.
  - apply Hd. unfold wrap32. apply Z.mod_pos_bound. lia.
  - apply Hd. case_decide; [lia|]. apply Hm.
  - unfold tls_protocol_name. repeat case_decide; by destruct is_client.
  - by destruct (Compression.framing_enabled compression).
  - by case_decide.
  - by case_decide.
  - destruct (tls_cipher_key_bits _) as [bits|] eqn:Eb; [|done]. apply Happ; [done|]. apply Hd.
    unfold tls_cipher_key_bits in Eb. destruct (filter _ _) as [|b l] eqn:Ef; [done|]. apply Ok_inj in Eb as ->.
    assert (bits ∈ filter (fun b => (if decide (cipher = []) then txt "AES-256-GCM" else cipher) ∈ ciphers_of b)
              [128; 192; 256; 64; 0]) as Hin by (rewrite Ef; left).
    apply list_elem_of_filter in Hin as [_ Hin].
    repeat (apply elem_of_cons in Hin as [->|Hin]; [lia|]). by apply elem_of_nil in Hin.
  - by destruct tls_auth.
  - by destruct is_client.
Qed.

Lemma join_ascii sep l : ascii sep -> Forall ascii l -> ascii (IpText.join sep l).
Proof.
  intros Hs. induction 1 as [|x l Hx Hl IH]; [constructor|]. rewrite IpText.join_cons. apply ascii_app.
  split; [done|]. destruct l; [constructor|]. by apply ascii_app.
Qed.

Lemma server_peer_info_valid ciphers :
  Forall cipher_name (advertised_data_ciphers ciphers) -> utf8_valid (build_tls_server_peer_info ciphers) = true.
Proof.
  intros Hc. apply utf8_valid_ascii. unfold build_tls_server_peer_info. cbv zeta.
  assert (forall s, forallb (fun b => bool_decide (0 <= b < 128)) s = true -> ascii s) as Ha.
  { intros s Hs. apply Forall_forall. intros b Hb. rewrite forallb_forall in Hs.
    by apply list_elem_of_In, Hs, bool_decide_eq_true in Hb. }
  unfold line. rewrite !ascii_app. split_and!; try (by apply Ha).
  - by destruct (supports_ncp_v2 _); apply Ha.
  - case_decide; [|by apply Ha]. rewrite !ascii_app. split_and!; try (by apply Ha).
    apply join_ascii; [by apply Ha|]. eapply Forall_impl; [done|]. intros c [_ Hp]. by apply plain_ascii.
Qed.

Lemma server_answer_state options authorize random request message response st :
  KeyMethod.parse request false = Ok message ->
  server_answer options authorize random request = Ok (response, st) ->
  sn_message st = message /\ control_peer_info (server_control st) = peer_info message
  /\ control_cipher (server_control st) = sn_cipher st
  /\ sn_peer_id st = match assigned_peer_id (assignment (server_control st)) with
                     | Some id => if peer_supports_iv_proto_flag (peer_info message) TLS_IV_PROTO_DATA_V2
                                  then Some id else None
                     | None => None
                     end
  /\ (authentication_failure (server_control st) = None ->
      select_server_cipher (server_ciphers options) (server_fallback_cipher options) (peer_info message)
        (options_string message) = Ok (sn_cipher st)).
Proof.
  intros Hp. unfold server_answer. rewrite Hp. cbn [map_err]. rbind.
  destruct (authorize _ _) as [assigned|error], (select_server_cipher _ _ _ _) as [cipher|e];
    cbv zeta; intros Ha; (apply bind_Ok in Ha as (source & _ & Ha));
    (apply bind_Ok in Ha as (resp & _ & [= _ <-]%Ok_inj)); cbn; split_and!; done.
Qed.

(** The client reads the random bytes of the server. *)
Lemma server_answer_received options authorize random request response st :
  server_configured options -> cipher_name (sn_cipher st) ->
  server_answer options authorize random request = Ok (response, st) ->
  exists message, KeyMethod.parse response true = Ok message /\ key_source message = sn_source st.
Proof.
  intros (_ & Ha & Hi & Hm) Hc. unfold server_answer. intros (client & _ & Hs)%bind_Ok. revert Hs.
  destruct (match authorize _ _ with Ok _ => _ | Err _ => _ end) as [assigned failure].
  destruct (match select_server_cipher _ _ _ _ with Ok _ => _ | Err _ => _ end) as [cipher failure'].
  cbv zeta. intros (source & Hg & Hs)%bind_Ok. apply bind_Ok in Hs as (resp & He%map_err_Ok & [= -> <-]%Ok_inj).
  cbn [sn_cipher sn_source] in *. apply (KeyMethod.encode_parsed _ _ _ []) in He.
  - rewrite app_nil_r in He. rewrite He. eexists. split; [done|].
    unfold KeyMethod.generate in Hg. apply bind_Ok in Hg as (pre & <-%Ok_inj & Hg).
    apply bind_Ok in Hg as (r1 & _ & Hg). by apply bind_Ok in Hg as (r2 & _ & <-%Ok_inj).
  - split_and!; [|done..]. apply options_string_valid; [done| |done]. by case_decide.
Qed.

Lemma server_loop_reply m records :
  server_loop [ClientPull.request_payload] m = Some (Ok records) ->
  authentication_failure (control_options m) = None
  /\ exists payloads,
       Push.build_server_push_reply_payloads (pushed_options (control_options m))
         (control_peer_info (control_options m)) (control_cipher (control_options m))
         (assignment (control_options m)) = Ok payloads
       /\ records = Control.tls_control_string_payload <$> payloads.
Proof.
  cbn [server_loop]. unfold ServerControl.accept_record.
  assert (Control.classify_tls_control_directive ClientPull.request_payload = Control.PushReply) as -> by by vm_compute.
  rewrite decide_False by done.
  assert (Control.normalize_tls_control_message ClientPull.request_payload = Control.PUSH_REQUEST_PAYLOAD) as ->
    by by vm_compute.
  cbv zeta. change (negb (eq_ignore_ascii_case Control.PUSH_REQUEST_PAYLOAD Control.PUSH_REQUEST_PAYLOAD) && _) with false.
  destruct (authentication_failure _); [done|]. split; [done|].
  destruct (Push.build_server_push_reply_payloads _ _ _ _) as [payloads|]; [|done].
  exists payloads. split; [done|]. by simplify_eq.
Qed.

Context `{!CryptoLaws} `{!DataCipherLaws}.

(** Two ends with the same keys, cipher and digest carry data. *)
Lemma data_channels_exchange export cipher auth ws wt now now' peer peer' c s :
  is_u32 ws ->
  data_channel export false cipher auth ws wt now peer = Ok c ->
  data_channel export true cipher auth ws wt now' peer' = Ok s ->
  data_key_material c = data_key_material s
  /\ forall random msgs, good_random random -> Codec.increasing 1 msgs ->
     Codec.exchange random (data_codec c) (data_codec s) msgs = map (fun '(id, _, p, _) => Ok (id, p)) msgs
     /\ Codec.exchange random (data_codec s) (data_codec c) msgs = map (fun '(id, _, p, _) => Ok (id, p)) msgs.
Proof.
  intros Hws Hc Hs. unfold data_channel in Hc, Hs.
  destruct (map_err SessionFailed _) as [material|]; [|done]. revert Hc Hs. rbind. intros Hc Hs.
  apply bind_Ok in Hc as (cc & Hcc%map_err_Ok & <-%Ok_inj).
  apply bind_Ok in Hs as (cs & Hcs%map_err_Ok & <-%Ok_inj). cbn. split; [done|].
  intros random msgs Hr Hm. destruct (Codec.tls_session _ _ _ _ _ Hws _ _ _ _ Hcc Hcs).
  split; by apply (Codec.exchange_linked _ _ _ 1).
Qed.

Lemma selected_cipher_name options message pull_o :
  client_configured message pull_o -> server_configured options ->
  forall cipher,
    select_server_cipher (server_ciphers options) (server_fallback_cipher options) (peer_info message)
      (options_string message) = Ok cipher ->
  cipher_name cipher
  /\ forall fallback, exists c, validate_server_pushed_cipher (configured_ciphers pull_o) fallback cipher = Ok (Some c)
                            /\ eq_ignore_ascii_case c cipher = true.
Proof.
  intros (_ & Hc & mtu & compression & os & Hm & ->) (Hs & _) cipher Hsel.
  assert (forall l, Forall cipher_name l -> Forall name_ok l) as Hn
    by (intros; eapply Forall_impl; [done|]; apply cipher_name_ok).
  split; [|intros; eapply selected_validated; [by apply Hn|by apply Hn|done|done]].
  apply selected_in in Hsel as [Hin _]%find_Some; [|by apply Hn|done].
  rewrite Forall_forall in Hs. by apply Hs.
Qed.

Lemma peer_supports_client message pull_o :
  client_configured message pull_o ->
  peer_supports_iv_proto_flag (peer_info message) TLS_IV_PROTO_DATA_V2 = true
  /\ peer_supports_iv_proto_flag (peer_info message) TLS_IV_PROTO_TLS_KEY_EXPORT = true.
Proof.
  intros (_ & Hc & mtu & compression & os & Hm & ->).
  assert (Forall name_ok (advertised_data_ciphers (configured_ciphers pull_o))) as Hn
    by (eapply Forall_impl; [done|]; apply cipher_name_ok).
  split; apply client_supports; (done || by repeat (left || right)).
Qed.

(** The records of the reply complete the pull of the client. *)
Lemma client_pulls options message pull_o st records o :
  client_configured message pull_o -> server_configured options -> sn_message st = message ->
  control_peer_info (server_control st) = peer_info message -> control_cipher (server_control st) = sn_cipher st ->
  select_server_cipher (server_ciphers options) (server_fallback_cipher options) (peer_info message)
    (options_string message) = Ok (sn_cipher st) ->
  server_loop [ClientPull.request_payload] (sn_control st) = Some (Ok records) -> pushable st pull_o ->
  configured_ciphers o = configured_ciphers pull_o -> filters o = filters pull_o ->
  exists r, ClientPull.pull_loop records (ClientPull.machine_new o) = Some (Ok r)
    /\ eq_ignore_ascii_case (pulled_cipher r) (sn_cipher st) = true
    /\ (forall id, assigned_peer_id (assignment (server_control st)) = Some id -> peer_id (pulled r) = Some id)
    /\ Control.tunnel_uses_key_material_export (key_derivation (pulled r)) (protocol_flags (pulled r)) = true.
Proof.
  intros Hcc Hsc _ Hi Hcp Hsel (_ & payloads & Hb & ->)%server_loop_reply (Hf & Hfl & Hnr & Hpa & Hid) Eo Ef.
  destruct (selected_cipher_name _ _ _ Hcc Hsc _ Hsel) as [Hcn Hval].
  destruct (Hval (fallback_cipher o)) as (c & Hv & Hec).
  destruct Hcc as (_ & Hc & mtu & compression & os & Hm & Epi).
  unfold Push.build_server_push_reply_payloads in Hb. fold (server_control st) in Hb. rewrite Hcp, Hi in Hb.
  rewrite Epi in Hb at 2. rewrite negotiated_fields_lines in Hb by (done || apply Hcn).
  rewrite <-Hi in Hb. rewrite <-Ef in *. rewrite <-Eo in Hv.
  destruct (negotiated_pulled o (option_fields st) payloads (sn_cipher st)
              (assigned_peer_id (assignment (server_control st))) c) as (r & Hr & <- & Hp & Hflags); [done..|].
  exists r. split_and!; [done|done| |].
  - intros id Eid. rewrite Eid in Hp. by apply Hp.
  - rewrite Hflags. unfold Control.tunnel_uses_key_material_export.
    assert (forall b, b || true = true) as Hor by (by intros []). apply Hor.
Qed.

(** C6: The two ends of a session agree.  The names of the configured ciphers
    are plain words, the client announces its ciphers as this program does, and
    what the server pushes can be pulled: the options are valid text without a
    zero byte and without a marker of a continuation, the client's pull filters
    reject neither these lines nor the markers and let the negotiated lines
    (the cipher, the peer id and the protocol flags) pass, and the peer id has
    24 bits.  When the client sends its message, and the server answers it and
    replies to its push request, then the client's pull completes, however many
    records the reply has: it takes the cipher that the server chose, in its
    own spelling, and the peer id that the server assigned.  Both ends take the
    keys of the data channel from the exporter of the TLS session, and when
    they spell the cipher alike and use the same digest and window, each opens
    the non-empty payloads that the other seals under increasing packet ids. *)
Theorem negotiation_agrees (message : TlsKeyMethodMessage) (pull_o : ClientPullOptions)
    (data_o : ClientTlsDataChannelOptions) (options : ServerTlsDataChannelOptions)
    (authorize : text -> text -> result text ServerPushAssignment)
    (client_random server_random : nat -> result TlsSessionError (list Z))
    (export : text -> nat -> option (list Z)) (client_id server_id : list Z) (now now' : Z)
    (request response : list Z) (source : TlsKeySource) (st : ServerNegotiating) (records : list (list Z)) :
  client_configured message pull_o -> server_configured options ->
  client_request client_random message = Ok (request, source) ->
  server_answer options authorize server_random request = Ok (response, st) ->
  server_loop [ClientPull.request_payload] (sn_control st) = Some (Ok records) ->
  pushable st pull_o ->
  exists cipher auth peer,
    let client := data_channel export false cipher auth (client_replay_window_size data_o)
                    (client_replay_window_time data_o) now peer in
    let server := data_channel export true (sn_cipher st) (sn_auth st) (server_replay_window_size options)
                    (server_replay_window_time options) now' (sn_peer_id st) in
    client_negotiate export client_id (Some server_id) source pull_o data_o now response records = Some client
    /\ server_finish export server_id (Some client_id) options now' st = server
    /\ eq_ignore_ascii_case cipher (sn_cipher st) = true
    /\ (forall id, assigned_peer_id (assignment (server_control st)) = Some id ->
        peer = Some id /\ sn_peer_id st = Some id)
    /\ (cipher = sn_cipher st -> auth = sn_auth st ->
        client_replay_window_size data_o = server_replay_window_size options ->
        client_replay_window_time data_o = server_replay_window_time options ->
        is_u32 (client_replay_window_size data_o) ->
        forall c s, client = Ok c -> server = Ok s ->
        data_key_material c = data_key_material s
        /\ forall random msgs, good_random random -> Codec.increasing 1 msgs ->
           Codec.exchange random (data_codec c) (data_codec s) msgs = map (fun '(id, _, p, _) => Ok (id, p)) msgs
           /\ Codec.exchange random (data_codec s) (data_codec c) msgs = map (fun '(id, _, p, _) => Ok (id, p)) msgs).
Proof.
  intros Hcc Hsc Hreq Hans Hloop Hpush.
  pose proof (client_request_received _ _ _ _ (proj1 Hcc) Hreq) as Hparse.
  destruct (server_answer_state _ _ _ _ _ _ _ Hparse Hans) as (Hmsg & Hi & Hcp & Hpid & Hsel).
  cbn [peer_info options_string] in *. specialize (Hsel (proj1 (server_loop_reply _ _ Hloop))).
  destruct (selected_cipher_name _ _ _ Hcc Hsc _ Hsel) as [Hcn _].
  destruct (server_answer_received _ _ _ _ _ _ Hsc Hcn Hans) as (sm & Hsm & Hsrc).
  set (o := if decide (remote_cipher pull_o = []) then
              pull_o <| remote_cipher := default [] (extract_remote_cipher_name (options_string sm)) |> else pull_o).
  destruct (client_pulls options message pull_o
              (mkNegotiating message (sn_cipher st) (sn_auth st) (sn_source st) (sn_peer_id st) (sn_control st))
              records o) as (r & Hr & Hec & Hid & Hexp); [done..|by unfold o; case_decide|by unfold o; case_decide|].
  destruct (peer_supports_client message pull_o Hcc) as [Hv2 Hek].
  exists (pulled_cipher r), (pulled_auth r),
    (match peer_id (pulled r) with Some id => Some id | None => client_peer_id data_o end).
  cbv zeta. split_and!.
  - unfold client_negotiate. rewrite Hsm. fold o. cbv zeta. rewrite Hr. cbn [mbind option_bind map_err].
    rbind. rewrite Hexp. done.
  - unfold server_finish. rewrite Hmsg. cbn [peer_info]. rewrite Hek. done.
  - done.
  - intros id Eid. rewrite (Hid id Eid). split; [done|]. by rewrite Hpid, Eid, Hv2.
  - intros -> -> -> -> Hws c s. by apply data_channels_exchange.
Qed.

(** A renegotiation derives new keys on both ends from the exporter, when the
    server announces itself as this program does. *)
Lemma renegotiation_agrees message pull_o data_o client_random server_random verify export client_id server_id
    ciphers cipher auth server_options ws wt peer now now' request response source s :
  client_configured message pull_o -> utf8_valid server_options = true ->
  Forall cipher_name (advertised_data_ciphers ciphers) ->
  client_request client_random message = Ok (request, source) ->
  server_renegotiate export server_id (Some client_id) server_random verify cipher auth server_options
    (build_tls_server_peer_info ciphers) ws wt peer now' request = (Ok s, Some response) ->
  data_channel export true cipher auth ws wt now' peer = Ok s
  /\ client_renegotiate export client_id (Some server_id) source cipher auth data_o now response
     = data_channel export false cipher auth (client_replay_window_size data_o)
         (client_replay_window_time data_o) now (client_peer_id data_o).
Proof.
  intros Hcc Ho Hs Hreq. pose proof (client_request_received _ _ _ _ (proj1 Hcc) Hreq) as Hparse.
  destruct (peer_supports_client message pull_o Hcc) as [_ Hek].
  assert (Forall name_ok (advertised_data_ciphers ciphers)) as Hn
    by (eapply Forall_impl; [done|]; apply cipher_name_ok).
  unfold server_renegotiate. rewrite Hparse. destruct (negb _); [done|]. cbn [peer_info]. rewrite Hek.
  destruct (_ ≫= _) as [[n resp]|] eqn:Hr; [|done]. intros [= -> ->].
  apply bind_Ok in Hr as (src & _ & Hr). apply bind_Ok in Hr as (rid & <-%Ok_inj & Hr).
  apply bind_Ok in Hr as (km & Hkm & Hr). apply bind_Ok in Hr as (codec & Hcodec & Hr).
  apply bind_Ok in Hr as (resp & He%map_err_Ok & [= <- ->]%Ok_inj).
  apply (KeyMethod.encode_parsed _ _ _ []) in He.
  - rewrite app_nil_r in He. split.
    + unfold data_channel. unfold KeyDerivation.derive_session_key_material in Hkm. rewrite Hkm. rbind. rewrite Hcodec. done.
    + unfold client_renegotiate. rewrite He. unfold KeyMethod.received. cbn [map_err]. rbind. cbn [peer_info].
      rewrite server_supports_export by done. done.
  - split_and!; [done..|]. apply server_peer_info_valid, Hs.
Qed.

End TlsSession.
End TlsSession.

(** ** An exchange

    A server that pushes more search domains than fit in a record, and a peer id. *)
Module Example.
Import Negotiation OptionLines PushDelivery NegotiatedLines PushDecide TlsSession.

#[local] Existing Instance ToyCrypto.toy_crypto.
#[local] Existing Instance ToyCrypto.toy_laws.
#[local] Existing Instance Codec.toy_ciphers.
#[local] Existing Instance Codec.toy_cipher_laws.

Definition client_ciphers : list text := [txt "AES-128-GCM"; txt "AES-256-GCM"].

Definition message : TlsKeyMethodMessage :=
  mkKeyMethod (txt "V4,dev-type tun") (txt "alice") (txt "secret")
    (build_tls_client_peer_info client_ciphers true 1400 StubOnly (txt "linux")) (mkKeySource [] [] []).

Definition pull : ClientPullOptions :=
  mkPullOptions client_ciphers [] [] (txt "SHA256") None [mkFilter (txt "ignore") (txt "route")]
    (from_secs 60) (from_secs 3600) 0.

Definition data : ClientTlsDataChannelOptions := mkClientData 64 0 None.

Definition server : ServerTlsDataChannelOptions :=
  mkServerData [txt "AES-256-GCM"] [] (txt "SHA256") (txt "udp") false
    Compression.default_settings 1500
    (build_tls_server_peer_info [txt "AES-256-GCM"])
    (pushed_options_default
       <| dhcp_options := replicate 20 (txt "DOMAIN-SEARCH a-long-name-of-a-zone.example.org") |>
       <| topology := txt "subnet" |>)
    64 0.

Definition authorize (username password : text) : result text ServerPushAssignment :=
  if decide (password = txt "secret") then Ok (mkAssignment None None [] None (Some 5)) else Err (txt "wrong").

Definition client_bytes (n : nat) : result TlsSessionError (list Z) := Ok (replicate n 7).
Definition server_bytes (n : nat) : result TlsSessionError (list Z) := Ok (replicate n 9).
Definition export (_ : text) (n : nat) : option (list Z) := Some (seqZ 0 (Z.of_nat n)).

Definition request : list Z * TlsKeySource :=
  match client_request client_bytes message with Ok r => r | Err _ => ([], mkKeySource [] [] []) end.

Definition answer : list Z * ServerNegotiating :=
  match server_answer server authorize server_bytes request.1 with
  | Ok r => r
  | Err _ =>
      ([], mkNegotiating message [] [] (mkKeySource [] [] []) None
             (ServerControl.machine_new (mkControlOptions [] [] pushed_options_default no_assignment None)))
  end.

Definition reply : list (list Z) :=
  match server_loop [ClientPull.request_payload] (sn_control answer.2) with Some (Ok l) => l | _ => [] end.

Lemma window_ok : is_u32 (client_replay_window_size data).
Proof. change (is_u32 64). ilia. Qed.

Lemma random_ok : good_random Codec.toy_random.
Proof. intros n. exists (replicate n 9). split; [done|apply length_replicate]. Qed.

Lemma messages_ok : Codec.increasing 1 Codec.toy_messages.
Proof. simpl. split_and!; (done || ilia). Qed.

(** The reply takes two records, and the data channel carries packets. *)
Lemma negotiation_agrees_witness :
  length reply = 2%nat
  /\ exists c s,
       client_negotiate export [1] (Some [2]) request.2 pull data 1000 answer.1 reply = Some (Ok c)
       /\ server_finish export [2] (Some [1]) server 1000 answer.2 = Ok s
       /\ data_cipher c = txt "AES-256-GCM" /\ data_peer_id c = Some 5
       /\ Codec.exchange Codec.toy_random (data_codec c) (data_codec s) Codec.toy_messages
          = [Ok (1, [10; 11]); Ok (2, [12]); Ok (7, [13; 14; 15])].
Proof.
  split; [by vm_compute|].
  destruct (negotiation_agrees message pull data server authorize client_bytes server_bytes export [1] [2] 1000 1000
              request.1 answer.1 request.2 answer.2 reply) as (cipher & auth & peer & Hc & Hs & _ & Hp & Hx).
  - split_and!; [by vm_compute..|by apply words_plain|].
    exists 1400, StubOnly, (txt "linux"). split; [lia|done].
  - split_and!; [by apply words_plain|done|by vm_compute..].
  - by vm_compute.
  - by vm_compute.
  - by vm_compute.
  - split_and!.
    + apply fields_okb. by vm_compute.
    + by vm_compute.
    + apply lines_pass. by vm_compute.
    + apply lines_pass. by vm_compute.
    + by vm_compute.
  - cbv zeta in Hc, Hs, Hx. rewrite Hc, Hs.
    assert (from_option (fun r => match r with
              | Ok n => bool_decide (data_cipher n = sn_cipher answer.2 /\ data_auth n = sn_auth answer.2)
              | Err _ => false end) false
            (client_negotiate export [1] (Some [2]) request.2 pull data 1000 answer.1 reply) = true) as Hn
      by (vm_compute; reflexivity).
    assert (is_ok (server_finish export [2] (Some [1]) server 1000 answer.2) = true) as Hok
      by (vm_compute; reflexivity).
    rewrite Hc in Hn. rewrite Hs in Hok. cbn [from_option] in Hn.
    destruct (data_channel export false _ _ _ _ _ _) as [c|] eqn:Ec; [|discriminate Hn].
    destruct (data_channel export true _ _ _ _ _ _) as [s|] eqn:Es; [|discriminate Hok].
    apply data_channel_fields in Ec as (E1 & E2 & E3). apply bool_decide_eq_true in Hn as [E4 E5].
    destruct (Hp 5) as [E6 _]; [by vm_compute|].
    exists c, s. split; [reflexivity|]. split; [reflexivity|]. split; [|split; [congruence|]].
    + rewrite E4. by vm_compute.
    + specialize (Hx (eq_trans (eq_sym E1) E4) (eq_trans (eq_sym E2) E5) eq_refl eq_refl).
      exact (proj1 (proj2 (Hx window_ok c s eq_refl eq_refl) Codec.toy_random Codec.toy_messages random_ok messages_ok)).
Defined.

(** A name in lower case is negotiated, and then refused by the data codec. *)
Lemma lower_case_cipher_refused :
  select_server_cipher [txt "aes-256-gcm"] [] (txt "IV_CIPHERS=AES-256-GCM") [] = Ok (txt "aes-256-gcm")
  /\ Codec.new_tls_data_codec (replicate 256 0) true "aes-256-gcm" "SHA256" 64 0 0
     = Err (UnsupportedCipher "aes-256-gcm").
Proof. split; vm_compute; reflexivity. Qed.

End Example.
