(* ===== verification/SrsTrie.v ===== *)
(** * Succinct sets are sets

    The nodes of a written set are seen through the keys below them: the
    level order of the nodes is the list [Ts] of these key sets, and the
    bitmap, the labels and the leaf bits are functions of it.  Looking up a
    key in the set read from the written bytes is then a statement about
    lists of keys. *)

From stdpp Require Import base numbers list sorting sets.
From Stdlib Require Import ZArith Lia.
From S2P Require Import Prelude OvpnText Text SrsWire SrsSet.

Local Open Scope Z_scope.
Local Arguments Nat.div : simpl never.
Local Arguments Nat.modulo : simpl never.

Module Trie.
Import Succinct.

(** ** Bits *)

Lemma land_bit word i :
  0 <= i -> negb (bool_decide (Z.land word (Z.shiftl 1 i) = 0)) = Z.testbit word i.
Proof.
  intros Hi. destruct (Z.testbit word i) eqn:E.
  - rewrite bool_decide_eq_false_2; [done|]. intros H0.
    assert (Z.testbit (Z.land word (Z.shiftl 1 i)) i = true) as Ht.
    { rewrite Z.land_spec, E, Z.shiftl_spec, Z.sub_diag by lia. done. }
    by rewrite H0, Z.bits_0 in Ht.
  - rewrite bool_decide_eq_true_2; [done|]. apply Z.bits_inj'. intros j Hj.
    rewrite Z.land_spec, Z.bits_0, Z.shiftl_spec by lia.
    destruct (decide (j = i)) as [->|Hne]; [by rewrite E|].
    destruct (decide (j < i)); [by rewrite (Z.testbit_neg_r 1), andb_false_r by lia|].
    by rewrite (testbit_above 1 1), andb_false_r by lia.
Qed.

Lemma word_bit_eq words i :
  word_bit words i = (fun w => Z.testbit w (Z.of_nat (i mod 64))) <$> words !! (i / 64)%nat.
Proof. unfold word_bit. destruct (words !! _); cbn; [|done]. by rewrite land_bit by lia. Qed.

Lemma bit_eq words i :
  bit words i = from_option (fun w => Z.testbit w (Z.of_nat (i mod 64))) false (words !! (i / 64)%nat).
Proof. unfold bit. rewrite word_bit_eq. by destruct (words !! _). Qed.

(** [words] holds the bits [bs], and zeros after them. *)
Definition holds (words : list Z) (bs : list bool) : Prop :=
  forall i, bit words i = default false (bs !! i).

Lemma bit_resize n words i : bit (resize (length words `max` n) 0 words) i = bit words i.
Proof.
  rewrite !bit_eq. set (j := (i / 64)%nat).
  destruct (decide (j < length words)%nat) as [Hj|Hj].
  - rewrite lookup_resize by lia. done.
  - rewrite (lookup_ge_None_2 words) by lia.
    destruct (decide (j < length words `max` n)%nat).
    + rewrite lookup_resize_new by lia. cbn. by rewrite Z.bits_0.
    + by rewrite lookup_resize_old by lia.
Qed.

Lemma set_bit_bit words i j :
  bit (set_bit words j) i = bool_decide (i = j) || bit words i.
Proof.
  set (w := resize (length words `max` (j / 64 + 1)) 0 words).
  assert (bit w i = bit words i) as Hw by apply bit_resize.
  assert (j / 64 < length w)%nat as Hlen by (unfold w; rewrite length_resize; lia).
  rewrite <-Hw, !bit_eq. unfold set_bit. fold w.
  destruct (decide (i / 64 = j / 64)%nat) as [E|E].
  - rewrite E, list_lookup_alter_eq. apply lookup_lt_is_Some_2 in Hlen as [x Hx].
    rewrite Hx. cbn. rewrite Z.lor_spec, Z.shiftl_spec by lia. rewrite orb_comm. f_equal.
    pose proof (Nat.div_mod_eq i 64). pose proof (Nat.div_mod_eq j 64).
    destruct (decide (i = j)) as [->|Hne].
    + rewrite bool_decide_eq_true_2 by done. by rewrite Z.sub_diag.
    + rewrite bool_decide_eq_false_2 by done.
      destruct (decide (Z.of_nat (i mod 64) < Z.of_nat (j mod 64)));
        [by rewrite Z.testbit_neg_r by lia|].
      apply (testbit_above 1); lia.
  - rewrite list_lookup_alter_ne by done.
    rewrite bool_decide_eq_false_2 by (intros ->; done). done.
Qed.

Lemma bit_nil i : bit [] i = false.
Proof. done. Qed.

Lemma holds_nil : holds [] [].
Proof. intros i. by rewrite bit_nil, lookup_nil. Qed.

Lemma holds_zeros words bs n : holds words bs -> holds words (bs ++ replicate n false).
Proof.
  intros H i. rewrite H. destruct (decide (i < length bs)%nat).
  - by rewrite lookup_app_l.
  - rewrite lookup_ge_None_2, lookup_app_r by lia. symmetry.
    destruct (replicate n false !! _) as [b|] eqn:E; [|done].
    by apply lookup_replicate in E as [-> _].
Qed.

Lemma holds_set_bit words bs :
  holds words bs -> holds (set_bit words (length bs)) (bs ++ [true]).
Proof.
  intros H i. rewrite set_bit_bit, H. case_bool_decide as E.
  - subst i. by rewrite lookup_app_r, Nat.sub_diag by lia.
  - destruct (decide (i < length bs)%nat); [by rewrite lookup_app_l|].
    rewrite (lookup_ge_None_2 bs), lookup_ge_None_2 by (rewrite ?length_app; cbn; lia). done.
Qed.

Lemma lor_bound n a b : 0 <= n -> 0 <= a < 2 ^ n -> 0 <= b < 2 ^ n -> 0 <= Z.lor a b < 2 ^ n.
Proof.
  intros Hn Ha Hb. replace (Z.lor a b) with (Z.lor a b mod 2 ^ n); [apply Z.mod_pos_bound; lia|].
  apply Z.bits_inj'. intros i Hi. destruct (decide (i < n)).
  - by rewrite Z.mod_pow2_bits_low by lia.
  - rewrite Z.mod_pow2_bits_high, Z.lor_spec by lia. by rewrite !(testbit_above n) by lia.
Qed.

(** The words of the writer are [u64]s. *)
Lemma set_bit_u64 words i : Forall is_u64 words -> Forall is_u64 (set_bit words i).
Proof.
  intros H. unfold set_bit. apply Forall_alter.
  - apply Forall_resize; [ilia|done].
  - intros w Hw Hb. cut (0 <= Z.lor w (Z.shiftl 1 (Z.of_nat (i mod 64))) < 2 ^ 64); [ilia|].
    apply lor_bound; [lia|unfold_ints; lia|]. rewrite Z.shiftl_1_l. split; [lia|].
    apply Z.pow_lt_mono_r; [lia..|]. pose proof (Nat.mod_upper_bound i 64). lia.
Qed.

(** ** Key sets *)

(** The lexicographic order of [Vec<u8>]. *)
Fixpoint lex_lt (a b : list Z) : Prop :=
  match a, b with
  | _, [] => False
  | [], _ :: _ => True
  | x :: a, y :: b => x < y \/ (x = y /\ lex_lt a b)
  end.

Definition sorted : list (list Z) -> Prop := StronglySorted lex_lt.

(** The children of a node with the keys [T]: adjacent keys with the same
    first byte. *)
Definition add_key (b : Z) (k : list Z) (l : list (Z * list (list Z))) :=
  match l with
  | (b', T') :: rest => if decide (b = b') then (b, k :: T') :: rest else (b, [k]) :: l
  | [] => [(b, [k])]
  end.

Fixpoint kids (T : list (list Z)) : list (Z * list (list Z)) :=
  match T with
  | [] => []
  | [] :: T => kids T
  | (b :: k) :: T => add_key b k (kids T)
  end.

Definition is_leaf (T : list (list Z)) : bool := bool_decide ([] ∈ T).

(** The rests of the keys that begin with [b]. *)
Definition below (b : Z) (T : list (list Z)) : list (list Z) :=
  omap (fun k => match k with x :: k => if decide (x = b) then Some k else None | [] => None end) T.
Global Arguments below : simpl never.

Lemma kids_run b run T :
  run <> [] -> match kids T with (b', _) :: _ => b' <> b | [] => True end ->
  kids ((cons b <$> run) ++ T) = (b, run) :: kids T.
Proof.
  intros Hne Hh. destruct run as [|k run]; [done|]. clear Hne.
  revert k. induction run as [|k' run IH]; intros k.
  - cbn. destruct (kids T) as [|[b' T'] rest]; [done|]. cbn. by rewrite decide_False by congruence.
  - rewrite fmap_cons. cbn [app kids]. rewrite IH. cbn. by rewrite decide_True.
Qed.

Lemma below_cons b k T :
  below b (k :: T)
  = match k with x :: k' => if decide (x = b) then k' :: below b T else below b T | [] => below b T end.
Proof. unfold below. cbn [omap list_omap]. destruct k as [|x k]; [done|]. by case_decide. Qed.

Lemma elem_of_below b k T : k ∈ below b T <-> b :: k ∈ T.
Proof.
  unfold below. rewrite list_elem_of_omap. split.
  - intros ([|x k'] & Hin & E); [done|]. case_decide; by simplify_eq.
  - intros H. exists (b :: k). split; [done|]. by rewrite decide_True.
Qed.

Lemma lex_lt_cons a b x y : lex_lt (x :: a) (y :: b) -> x <= y /\ (x = y -> lex_lt a b).
Proof. cbn. intros [?|[-> ?]]; split; (done || lia). Qed.

Lemma sorted_below b T : sorted T -> sorted (below b T).
Proof.
  induction 1 as [|k T HT IH Hk]; [constructor|]. rewrite below_cons.
  destruct k as [|x k]; [done|]. case_decide as E; [|done]. subst x. constructor; [done|].
  apply Forall_forall. intros k2 Hk2. apply elem_of_below in Hk2.
  rewrite Forall_forall in Hk. apply Hk, lex_lt_cons in Hk2 as [_ Hlt]. by apply Hlt.
Qed.

(** The children of a sorted node, in the order of their labels. *)
Record kids_of (T : list (list Z)) (l : list (Z * list (list Z))) : Prop := {
  kids_labels : StronglySorted Z.lt l.*1;
  kids_below : forall b T', (b, T') ∈ l -> T' = below b T;
  kids_all : forall b, below b T <> [] -> b ∈ l.*1;
  kids_some : forall b, b ∈ l.*1 -> below b T <> [];
}.

Lemma below_other b x k T : x <> b -> below b ((x :: k) :: T) = below b T.
Proof. intros H. rewrite below_cons. by rewrite decide_False. Qed.

Lemma below_same b k T : below b ((b :: k) :: T) = k :: below b T.
Proof. rewrite below_cons. by rewrite decide_True. Qed.

(** The labels after the first key's are not below its first byte. *)
Lemma kids_head_le b k T l c :
  Forall (lex_lt (b :: k)) T -> kids_of T l -> c ∈ l.*1 -> b <= c.
Proof.
  intros Hk HT Hc. apply (kids_some _ _ HT) in Hc.
  destruct (below c T) as [|k' ?] eqn:E; [done|].
  assert (c :: k' ∈ T) as Hin by (apply elem_of_below; rewrite E; left).
  rewrite Forall_forall in Hk. by apply Hk, lex_lt_cons in Hin as [? _].
Qed.

Lemma add_key_of b k T l :
  Forall (lex_lt (b :: k)) T -> kids_of T l -> kids_of ((b :: k) :: T) (add_key b k l).
Proof.
  intros Hk HT. pose proof (kids_head_le b k T l) as Hle.
  assert (b ∉ l.*1 -> below b T = []) as Hnew.
  { intros Hb. destruct (below b T) eqn:E; [done|]. destruct Hb. apply (kids_all _ _ HT). by rewrite E. }
  destruct l as [|[b' T'] rest]; cbn [add_key].
  - assert (below b T = []) as E0 by (apply Hnew; set_solver).
    split; cbn.
    + repeat constructor.
    + intros c S' [= -> ->]%list_elem_of_singleton. by rewrite below_same, E0.
    + intros c Hc. destruct (decide (b = c)) as [->|Hne]; [by left|].
      rewrite below_other in Hc by done. apply (kids_all _ _ HT) in Hc. set_solver.
    + intros c ->%list_elem_of_singleton. by rewrite below_same.
  - destruct (decide (b = b')) as [<-|Hne].
    + assert (b ∉ rest.*1) as Hfresh.
      { intros Hin. pose proof (kids_labels _ _ HT) as Hs. cbn in Hs.
        apply StronglySorted_inv in Hs as [_ Hs]. rewrite Forall_forall in Hs.
        specialize (Hs _ Hin). lia. }
      split; cbn.
      * apply (kids_labels _ _ HT).
      * intros c S' [[= -> ->]|Hin]%elem_of_cons.
        -- rewrite below_same. f_equal. apply (kids_below _ _ HT). by left.
        -- rewrite below_other; [apply (kids_below _ _ HT); by right|].
           intros ->. apply Hfresh. apply list_elem_of_fmap. by exists (c, S').
      * intros c Hc. destruct (decide (b = c)) as [->|Hbc]; [by left|].
        rewrite below_other in Hc by done. by apply (kids_all _ _ HT) in Hc.
      * intros c Hc. destruct (decide (b = c)) as [->|Hbc]; [by rewrite below_same|].
        rewrite below_other by done. by apply (kids_some _ _ HT).
    + assert (b < b') as Hlt by (specialize (Hle b' Hk HT ltac:(by left)); lia).
      assert (Forall (Z.lt b) (b' :: rest.*1)) as Hall.
      { pose proof (kids_labels _ _ HT) as Hs. cbn in Hs. apply StronglySorted_inv in Hs as [_ Hs].
        constructor; [done|]. eapply Forall_impl; [done|]. cbn. lia. }
      assert (below b T = []) as E0.
      { apply Hnew. cbn. intros Hin. rewrite Forall_forall in Hall. specialize (Hall _ Hin). lia. }
      split; cbn.
      * constructor; [apply (kids_labels _ _ HT)|done].
      * intros c S' [[= -> ->]|Hin]%elem_of_cons; [by rewrite below_same, E0|].
        rewrite below_other; [by apply (kids_below _ _ HT)|].
        intros ->. rewrite Forall_forall in Hall. apply (Z.lt_irrefl c), Hall.
        apply (list_elem_of_fmap fst ((b', T') :: rest)). by exists (c, S').
      * intros c Hc. destruct (decide (b = c)) as [->|Hbc]; [by left|]. right.
        rewrite below_other in Hc by done. by apply (kids_all _ _ HT) in Hc.
      * intros c [->|Hin]%elem_of_cons; [by rewrite below_same|].
        rewrite below_other; [by apply (kids_some _ _ HT)|].
        intros ->. rewrite Forall_forall in Hall. by apply (Z.lt_irrefl c), Hall.
Qed.

Lemma kids_of_kids T : sorted T -> kids_of T (kids T).
Proof.
  induction 1 as [|k T HT IH Hk]; cbn.
  - split; cbn; [constructor|set_solver..].
  - destruct k as [|b k]; [|by apply add_key_of].
    assert (forall c, below c ([] :: T) = below c T) as E by (intros c; by rewrite below_cons).
    destruct IH as [H1 H2 H3 H4]. split; [done|..]; setoid_rewrite E; done.
Qed.

(** ** What the writer builds *)

Section build.
Context (keys : list (list Z)).

(** The rests from [column] of [n] keys. *)
Definition rests (start n column : nat) : list (list Z) :=
  drop column <$> take n (drop start keys).

(** A queue entry stands for the rests of its keys. *)
Record represents (e : entry) (T : list (list Z)) : Prop := {
  rep_range : (e.1.1 < e.1.2 <= length keys)%nat;
  rep_rests : rests e.1.1 (e.1.2 - e.1.1) e.2 = T;
  rep_long : Forall (fun k => e.2 <= length k)%nat (take (e.1.2 - e.1.1) (drop e.1.1 keys));
}.

Lemma rests_S start n column k :
  keys !! start = Some k -> rests start (S n) column = drop column k :: rests (S start) n column.
Proof.
  intros Hk. unfold rests. by rewrite (drop_S keys k) by done.
Qed.

Lemma lookup_head (k : list Z) column : k !! column = head (drop column k).
Proof. rewrite head_lookup, lookup_drop. by rewrite Nat.add_0_r. Qed.

Lemma key_in start n i : (start + n <= length keys)%nat -> (i < n)%nat ->
  exists k, keys !! (start + i)%nat = Some k.
Proof. intros Hn Hi. apply lookup_lt_is_Some. lia. Qed.

(** The run of a label, and what follows it. *)
Lemma run_end_spec n cursor column l :
  (cursor + n <= length keys)%nat -> Forall (fun r => r <> []) (rests cursor n column) ->
  exists m run,
    run_end keys n cursor column l = Ok (cursor + m)%nat /\ (m <= n)%nat
    /\ rests cursor m column = cons l <$> run
    /\ match rests (cursor + m) (n - m) column with (b :: _) :: _ => b <> l | _ => True end.
Proof.
  revert cursor. induction n as [|n IH]; intros cursor Hn Hr; cbn [run_end].
  - exists 0%nat, []. by rewrite Nat.add_0_r.
  - destruct (key_in cursor (S n) 0) as [k Hk]; [lia..|]. rewrite Nat.add_0_r in Hk.
    rewrite Hk. cbn [mbind option_bind]. rewrite lookup_head.
    rewrite (rests_S _ _ _ _ Hk) in Hr. apply Forall_cons in Hr as [Hne Hr].
    destruct (drop column k) as [|b r] eqn:Ed; [done|]. cbn.
    destruct (decide (b = l)) as [->|Hb].
    + destruct (IH (S cursor)) as (m & run & E & Hm & Erun & Enext); [lia|done|].
      exists (S m), (r :: run). rewrite (rests_S _ _ _ _ Hk), Ed, Erun.
      rewrite Nat.add_succ_r. split; [done|]. split; [lia|]. done.
    + exists 0%nat, []. rewrite Nat.add_0_r, Nat.sub_0_r, (rests_S _ _ _ _ Hk), Ed.
      split; [done|]. split; [lia|]. done.
Qed.

Lemma rests_split start n m column :
  (m <= n)%nat ->
  rests start n column = rests start m column ++ rests (start + m) (n - m) column.
Proof.
  intros Hm. unfold rests. rewrite <-fmap_app. f_equal.
  rewrite <-drop_drop, take_take_drop. f_equal. lia.
Qed.

Lemma kids_first b r T : match kids ((b :: r) :: T) with (b', _) :: _ => b' = b | [] => False end.
Proof. cbn. unfold add_key. destruct (kids T) as [|[b' T'] rest]; [done|]. by case_decide. Qed.

Lemma kids_differ (l : Z) (T : list (list Z)) :
  Forall (fun r => r <> []) T ->
  match T with (b :: _) :: _ => b <> l | _ => True end ->
  match kids T with (b', _) :: _ => b' <> l | [] => True end.
Proof.
  intros Hne H. destruct T as [|[|b r] T]; [done|by apply Forall_cons in Hne as [? _]|].
  pose proof (kids_first b r T). destruct (kids _) as [|[b' ?] ?]; [done|]. by subst.
Qed.

Lemma rests_drop start n column l run :
  rests start n column = cons l <$> run -> rests start n (S column) = run.
Proof.
  intros E. unfold rests in *. revert run E.
  induction (take n (drop start keys)) as [|k ks IH]; intros [|r run] E; try done.
  rewrite !fmap_cons in *. injection E as Ek E. f_equal; [|by apply IH].
  rewrite <-Nat.add_1_r, <-drop_drop, Ek. done.
Qed.

Lemma rests_long start n column :
  (start + n <= length keys)%nat ->
  Forall (fun r => r <> []) (rests start n column) ->
  Forall (fun k => S column <= length k)%nat (take n (drop start keys)).
Proof.
  intros _. unfold rests. rewrite Forall_fmap. intros H. eapply Forall_impl; [exact H|].
  intros k Hk. cbn in Hk. destruct (decide (S column <= length k)%nat) as [|Hn]; [done|].
  destruct Hk. apply drop_ge. lia.
Qed.

(** [groups] finds the children. *)
Lemma sibling_groups_spec fuel cursor end_ column :
  (end_ - cursor <= fuel)%nat -> (cursor <= end_ <= length keys)%nat ->
  Forall (fun r => r <> []) (rests cursor (end_ - cursor) column) ->
  exists gs,
    groups keys fuel cursor end_ column = Ok gs
    /\ (fst ∘ fst <$> gs) = (kids (rests cursor (end_ - cursor) column)).*1
    /\ Forall2 (fun g T => represents (g.1.2, g.2, S column) T) gs
         (kids (rests cursor (end_ - cursor) column)).*2.
Proof.
  revert cursor. induction fuel as [|fuel IH]; intros cursor Hf Hc Hne; cbn [groups].
  { replace (end_ - cursor)%nat with 0%nat by lia. exists []. done. }
  destruct (decide (cursor < end_)%nat) as [Hlt|Hge].
  2:{ replace (end_ - cursor)%nat with 0%nat by lia. exists []. done. }
  destruct (key_in cursor (end_ - cursor) 0) as [k Hk]; [lia..|]. rewrite Nat.add_0_r in Hk.
  replace (end_ - cursor)%nat with (S (end_ - S cursor)) in Hne |- * by lia.
  rewrite (rests_S _ _ _ _ Hk) in Hne. apply Forall_cons in Hne as [Hk0 Hne].
  destruct (drop column k) as [|l r] eqn:Ed; [done|].
  destruct (run_end_spec (end_ - S cursor) (S cursor) column l) as (m & run & E & Hm & Erun & Enext);
    [lia|done|].
  set (next := (S cursor + m)%nat) in *.
  pose proof (rests_split (S cursor) (end_ - S cursor) m column Hm) as Es.
  replace (end_ - S cursor - m)%nat with (end_ - next)%nat in Es, Enext by lia.
  assert (Forall (fun r => r <> []) (rests next (end_ - next) column)) as Hne'.
  { rewrite Es in Hne. by apply Forall_app in Hne as [_ ?]. }
  destruct (IH next) as (gs & Eg & Elab & Hrep); [lia|lia|done|].
  exists ((l, cursor, next) :: gs).
  assert (kids (rests cursor (S (end_ - S cursor)) column)
          = (l, r :: run) :: kids (rests next (end_ - next) column)) as Ek.
  { rewrite (rests_S _ _ _ _ Hk), Ed, Es, Erun.
    apply (kids_run l (r :: run)); [done|]. by apply kids_differ. }
  rewrite Ek. split; [|split].
  - rewrite Hk. cbn [mbind option_bind]. rewrite lookup_head, Ed. cbn [head ok_or].
    rbind. rewrite E. rbind. by rewrite Eg.
  - by rewrite !fmap_cons, Elab.
  - rewrite fmap_cons. constructor; [|done]. cbn [fst snd].
    assert (rests cursor (next - cursor) column = cons l <$> (r :: run)) as Erests.
    { replace (next - cursor)%nat with (S m) by lia. by rewrite (rests_S _ _ _ _ Hk), Ed, Erun. }
    split; cbn [fst snd]; [lia|by eapply rests_drop|].
    eapply rests_long; [lia|]. rewrite Erests. apply Forall_fmap, Forall_true. by intros ?.
Qed.

(** ** The level order *)

Definition children (Ts : list (list (list Z))) : list (list (list Z)) :=
  concat ((fun T => (kids T).*2) <$> Ts).
Definition all_labels (Ts : list (list (list Z))) : list Z := concat ((fun T => (kids T).*1) <$> Ts).
Definition node_bits (T : list (list Z)) : list bool := replicate (length (kids T)) false ++ [true].
Definition all_bits (Ts : list (list (list Z))) : list bool := concat (node_bits <$> Ts).

(** The builder after the nodes [done], with [pending] in the queue. *)
Record built (done_ pending : list (list (list Z))) (b : Builder) : Prop := {
  built_queue : Forall2 represents (queue b) (done_ ++ pending);
  built_order : done_ ++ pending = keys :: children done_;
  built_labels : b_labels b = all_labels done_;
  built_bitmap : holds (b_bitmap b) (all_bits done_);
  built_leaves : holds (b_leaves b) (is_leaf <$> done_);
  built_index : bitmap_index b = length (all_bits done_);
  built_u64 : Forall is_u64 (b_leaves b) /\ Forall is_u64 (b_bitmap b);
  built_size : (64 * length (b_leaves b) <= length done_ + 63
                /\ 64 * length (b_bitmap b) <= length (all_bits done_) + 63)%nat;
  built_sorted : Forall sorted (done_ ++ pending);
}.

Lemma children_app l1 l2 : children (l1 ++ l2) = children l1 ++ children l2.
Proof. unfold children. by rewrite fmap_app, concat_app. Qed.
Lemma all_labels_app l1 l2 : all_labels (l1 ++ l2) = all_labels l1 ++ all_labels l2.
Proof. unfold all_labels. by rewrite fmap_app, concat_app. Qed.
Lemma all_bits_app l1 l2 : all_bits (l1 ++ l2) = all_bits l1 ++ all_bits l2.
Proof. unfold all_bits. by rewrite fmap_app, concat_app. Qed.

Lemma children_singleton T : children [T] = (kids T).*2.
Proof. unfold children. cbn. by rewrite app_nil_r. Qed.
Lemma all_labels_singleton T : all_labels [T] = (kids T).*1.
Proof. unfold all_labels. cbn. by rewrite app_nil_r. Qed.
Lemma all_bits_singleton T : all_bits [T] = node_bits T.
Proof. unfold all_bits. cbn. by rewrite app_nil_r. Qed.

Lemma sorted_no_nil k T : sorted (k :: T) -> Forall (fun r => r <> []) T.
Proof.
  intros HT. apply StronglySorted_inv in HT as [_ HT]. eapply Forall_impl; [done|].
  intros [|] H; [by destruct k|done].
Qed.

(** The keys of a node, the empty one first. *)
Lemma node_cases start end_ column T :
  represents (start, end_, column) T -> sorted T ->
  let leaf := bool_decide (length <$> keys !! start = Some column) in
  let start' := if leaf then S start else start in
  leaf = is_leaf T /\ (start' <= end_ <= length keys)%nat
  /\ Forall (fun r => r <> []) (rests start' (end_ - start') column)
  /\ kids (rests start' (end_ - start') column) = kids T.
Proof.
  intros [Hr HT Hl] Hs. cbn [fst snd] in *.
  destruct (key_in start (end_ - start) 0) as [k Hk]; [lia..|]. rewrite Nat.add_0_r in Hk.
  replace (end_ - start)%nat with (S (end_ - S start)) in HT, Hl by lia.
  rewrite (rests_S _ _ _ _ Hk) in HT. rewrite (drop_S keys k) in Hl by done. cbn [take] in Hl.
  apply Forall_cons in Hl as [Hk0 _]. rewrite Hk. cbn [fmap option_fmap option_map].
  rewrite <-HT in Hs |- *. pose proof (sorted_no_nil _ _ Hs) as Hnn.
  destruct (decide (length k = column)) as [E|E].
  - rewrite (bool_decide_eq_true_2 _) by by f_equal. cbn zeta.
    rewrite (drop_ge k) by lia. split; [|split; [lia|split; [done|done]]].
    unfold is_leaf. rewrite bool_decide_eq_true_2; [done|]. by left.
  - rewrite (bool_decide_eq_false_2 _) by (intros [=]; done). cbn zeta.
    replace (end_ - start)%nat with (S (end_ - S start)) by lia.
    rewrite (rests_S _ _ _ _ Hk).
    assert (drop column k <> []) as Hd.
    { intros Hd. apply (f_equal length) in Hd. rewrite length_drop in Hd. cbn in Hd. lia. }
    split; [|split; [lia|split; [by constructor|done]]].
    unfold is_leaf. rewrite bool_decide_eq_false_2; [done|].
    intros [Hin|Hin]%elem_of_cons; [done|]. rewrite Forall_forall in Hnn. by apply (Hnn _ Hin).
Qed.

Lemma length_set_bit words i : length (set_bit words i) = (length words `max` (i / 64 + 1))%nat.
Proof. unfold set_bit. by rewrite length_alter, length_resize. Qed.

Lemma size_set_bit words i :
  (64 * length words <= i + 63)%nat -> (64 * length (set_bit words i) <= S i + 63)%nat.
Proof. intros H. rewrite length_set_bit. pose proof (Nat.div_mod_eq i 64). lia. Qed.

Lemma length_node_bits T : length (node_bits T) = S (length (kids T)).
Proof. unfold node_bits. rewrite length_app, length_replicate. cbn. lia. Qed.

Lemma kids_sorted T : sorted T -> Forall sorted (kids T).*2.
Proof.
  intros HT. apply Forall_forall. intros T' ([b S'] & -> & Hin)%list_elem_of_fmap.
  apply (kids_below _ _ (kids_of_kids T HT)) in Hin as ->. by apply sorted_below.
Qed.

(** One turn of the loop visits the next node. *)
Lemma visit_built done_ T pending b e :
  built done_ (T :: pending) b -> queue b !! length done_ = Some e ->
  exists b', visit keys (length done_) e b = Ok b' /\ built (done_ ++ [T]) (pending ++ (kids T).*2) b'.
Proof.
  intros [Hq Ho Hlab Hbm Hlv Hix [Hu1 Hu2] [Hz1 Hz2] Hs] He.
  assert (represents e T) as Hrep.
  { eapply Forall2_lookup_lr in Hq; [exact Hq|exact He|]. by rewrite list_lookup_middle. }
  assert (sorted T) as HT.
  { rewrite Forall_app in Hs. by destruct Hs as [_ [? _]%Forall_cons]. }
  destruct e as [[start end_] column].
  destruct (node_cases _ _ _ _ Hrep HT) as (Eleaf & Hc & Hne & Ek).
  unfold visit. set (leaf := bool_decide _) in *. cbn zeta in *.
  set (start' := if leaf then S start else start) in *.
  destruct (sibling_groups_spec (end_ - start') start' end_ column) as (gs & Eg & Elab & Hg); [lia|done|done|].
  rewrite Ek in Elab, Hg. rewrite Eg. rbind. eexists. split; [done|].
  assert (length gs = length (kids T)) as Elen.
  { apply (f_equal length) in Elab. by rewrite !length_fmap in Elab. }
  assert (holds (b_bitmap b) (all_bits done_ ++ replicate (length gs) false)) as Hbm'
    by by apply holds_zeros.
  assert (length (all_bits done_ ++ replicate (length gs) false) = (bitmap_index b + length gs)%nat)
    as Ebits by (rewrite length_app, length_replicate; lia).
  split; cbn [queue b_leaves b_bitmap b_labels bitmap_index].
  - rewrite <-app_assoc. change ([T] ++ ?l) with (T :: l). rewrite app_comm_cons, app_assoc.
    apply Forall2_app; [done|]. by apply Forall2_fmap_l.
  - rewrite children_app, children_singleton, app_comm_cons, <-Ho.
    by rewrite <-!app_assoc.
  - by rewrite Hlab, all_labels_app, all_labels_singleton, Elab.
  - rewrite all_bits_app, all_bits_singleton. unfold node_bits. rewrite <-Elen, app_assoc, <-Ebits.
    by apply holds_set_bit.
  - rewrite fmap_app, Eleaf. cbn. rewrite <-(length_fmap is_leaf done_).
    destruct (is_leaf T) eqn:El; [by apply holds_set_bit|]. by apply (holds_zeros _ _ 1).
  - rewrite all_bits_app, all_bits_singleton, length_app, length_node_bits. lia.
  - split; [destruct leaf; [by apply set_bit_u64|done]|by apply set_bit_u64].
  - rewrite all_bits_app, all_bits_singleton, !length_app, length_node_bits. cbn [length]. split.
    + destruct leaf; [|lia]. pose proof (size_set_bit (b_leaves b) (length done_)). lia.
    + pose proof (size_set_bit (b_bitmap b) (bitmap_index b + length gs)). lia.
  - rewrite <-app_assoc. cbn. rewrite app_comm_cons, app_assoc. apply Forall_app.
    split; [done|]. by apply kids_sorted.
Qed.

Lemma sum_list_cons x l : sum_list (x :: l) = (x + sum_list l)%nat.
Proof. done. Qed.
Lemma sum_list_app l1 l2 : sum_list (l1 ++ l2) = (sum_list l1 + sum_list l2)%nat.
Proof. induction l1 as [|x l1 IH]; [done|]. cbn [app]. rewrite !sum_list_cons. lia. Qed.

Lemma sum_list_lookup l i x : l !! i = Some x -> (x <= sum_list l)%nat.
Proof.
  revert i. induction l as [|y l IH]; intros i H; [done|]. rewrite sum_list_cons.
  destruct i as [|i]; cbn in H; [injection H as ->; lia|]. apply IH in H. lia.
Qed.

(** Every turn of the loop uses up a byte of the keys, or a node. *)
Definition weight (T : list (list Z)) : nat := S (sum_list (length <$> T)).

Lemma weight_kids T : (sum_list (weight <$> (kids T).*2) <= sum_list (length <$> T))%nat.
Proof.
  induction T as [|[|b k] T IH]; [done|done|]. cbn [kids]. rewrite fmap_cons. cbn [sum_list length].
  unfold add_key. destruct (kids T) as [|[b' T'] rest]; [cbn in *; lia|].
  case_decide; cbn in *; unfold weight in *; cbn in *; lia.
Qed.

(** The number of nodes below a node, itself included. *)
Fixpoint size_in (fuel : nat) (T : list (list Z)) : nat :=
  match fuel with
  | O => O
  | S fuel => S (sum_list (size_in fuel <$> (kids T).*2))
  end.
Definition size (T : list (list Z)) : nat := size_in (weight T) T.

Lemma size_in_enough f1 f2 T : (weight T <= f1)%nat -> (weight T <= f2)%nat -> size_in f1 T = size_in f2 T.
Proof.
  revert f2 T. induction f1 as [|f1 IH]; intros f2 T H1 H2; [unfold weight in H1; lia|].
  destruct f2 as [|f2]; [unfold weight in H2; lia|]. cbn [size_in]. do 2 f_equal.
  apply list_fmap_ext. intros i T' Hi. pose proof (weight_kids T) as Hk.
  assert (weight T' <= sum_list (weight <$> (kids T).*2))%nat.
  { apply (sum_list_lookup _ i). by rewrite list_lookup_fmap, Hi. }
  apply IH; unfold weight in *; lia.
Qed.

Lemma size_eq T : size T = S (sum_list (size <$> (kids T).*2)).
Proof.
  unfold size at 1, weight. cbn [size_in]. do 2 f_equal. apply list_fmap_ext. intros i T' Hi.
  apply size_in_enough; [|done]. pose proof (weight_kids T) as Hk.
  assert (weight T' <= sum_list (weight <$> (kids T).*2))%nat; [|lia].
  apply (sum_list_lookup _ i). by rewrite list_lookup_fmap, Hi.
Qed.

Lemma visit_all_built fuel done_ pending b :
  built done_ pending b -> (sum_list (weight <$> pending) <= fuel)%nat ->
  exists Ts b', visit_all keys fuel (length done_) b = Ok b' /\ built Ts [] b'
    /\ (length Ts <= length done_ + sum_list (weight <$> pending))%nat
    /\ length Ts = (length done_ + sum_list (size <$> pending))%nat.
Proof.
  revert done_ pending b. induction fuel as [|fuel IH]; intros done_ pending b Hb Hw.
  { destruct pending as [|T pending]; [|cbn in Hw; unfold weight in Hw; lia].
    exists done_, b. cbn. split; [done|]. split; [done|]. split; lia. }
  cbn [visit_all]. destruct pending as [|T pending].
  - rewrite lookup_ge_None_2.
    2:{ rewrite (Forall2_length _ _ _ (built_queue _ _ _ Hb)), app_nil_r. done. }
    exists done_, b. split; [done|]. split; [done|]. cbn. split; lia.
  - destruct (queue b !! length done_) as [e|] eqn:He.
    2:{ apply lookup_ge_None in He. rewrite (Forall2_length _ _ _ (built_queue _ _ _ Hb)) in He.
        rewrite length_app in He. cbn in He. lia. }
    destruct (visit_built _ _ _ _ _ Hb He) as (b1 & Ev & Hb1). rewrite Ev. rbind.
    pose proof (weight_kids T) as Hk.
    rewrite fmap_cons, sum_list_cons in Hw |- *. unfold weight at 1 in Hw.
    destruct (IH _ _ _ Hb1) as (Ts & b' & Ea & Hb' & Hl & Hz).
    { rewrite fmap_app, sum_list_app. lia. }
    exists Ts, b'. replace (S (length done_)) with (length (done_ ++ [T])) by (rewrite length_app; cbn; lia).
    split; [done|]. split; [done|].
    rewrite fmap_app, sum_list_app, length_app in Hl, Hz. cbn [length] in Hl, Hz.
    rewrite fmap_cons, sum_list_cons, size_eq. split; [unfold weight at 1|]; lia.
Qed.

Lemma build_built :
  keys <> [] -> sorted keys ->
  exists Ts b, build keys = Ok b /\ built Ts [] b /\ (length Ts <= node_bound keys)%nat
    /\ length Ts = size keys.
Proof.
  intros Hne Hs.
  destruct (visit_all_built (node_bound keys) [] [keys] (mkBuilder [] [] [] 0 [(0%nat, length keys, 0%nat)]))
    as (Ts & b & E & Hb & Hl & Hz).
  - split; cbn; try done; [|apply holds_nil..|lia|].
    + constructor; [|constructor]. split; cbn [fst snd].
      * destruct keys; cbn; [done|lia].
      * unfold rests. rewrite drop_0, Nat.sub_0_r, take_ge by lia.
        rewrite <-(list_fmap_id keys) at 2. apply list_fmap_ext. intros i k _. by rewrite drop_0.
      * apply Forall_true. lia.
    + by repeat constructor.
  - cbn. unfold node_bound, weight. lia.
  - exists Ts, b. split; [done|]. split; [done|].
    rewrite fmap_cons, sum_list_cons in Hl, Hz. change (sum_list (_ <$> [])) with 0%nat in Hl, Hz.
    cbn [length] in Hl, Hz. unfold node_bound, weight in *. split; lia.
Qed.
End build.

(** ** Navigation in the level order *)

Lemma lookup_concat_fmap {A B} (f : A -> list B) (l : list A) i x k :
  l !! i = Some x -> (k < length (f x))%nat ->
  concat (f <$> l) !! (length (concat (f <$> take i l)) + k)%nat = f x !! k.
Proof.
  intros Hi Hk.
  assert (concat (f <$> l) = concat (f <$> take i l) ++ f x ++ concat (f <$> drop (S i) l)) as ->.
  { rewrite <-(take_drop_middle l i x Hi) at 1. by rewrite fmap_app, concat_app, fmap_cons. }
  by rewrite lookup_app_r, Nat.add_comm, Nat.add_sub, lookup_app_l by lia.
Qed.

(** The first bit and the first label of a node. *)
Definition first_bit (Ts : list (list (list Z))) (i : nat) : nat := length (all_bits (take i Ts)).
Definition first_label (Ts : list (list (list Z))) (i : nat) : nat := length (all_labels (take i Ts)).

Lemma length_all_bits Ts : length (all_bits Ts) = (length (all_labels Ts) + length Ts)%nat.
Proof.
  induction Ts as [|T Ts IH]; [done|]. change (T :: Ts) with ([T] ++ Ts).
  rewrite all_bits_app, all_labels_app, all_bits_singleton, all_labels_singleton, !length_app, IH.
  rewrite length_node_bits, length_fmap. cbn. lia.
Qed.

Lemma first_bit_eq Ts i : (i <= length Ts)%nat -> first_bit Ts i = (first_label Ts i + i)%nat.
Proof.
  intros Hi. unfold first_bit, first_label. rewrite length_all_bits, length_take. lia.
Qed.

Lemma first_bit_S Ts i T :
  Ts !! i = Some T -> first_bit Ts (S i) = (first_bit Ts i + S (length (kids T)))%nat.
Proof.
  intros Hi. unfold first_bit. rewrite (take_S_r _ _ _ Hi), all_bits_app, all_bits_singleton.
  by rewrite length_app, length_node_bits.
Qed.

Lemma length_children Ts : length (children Ts) = length (all_labels Ts).
Proof.
  unfold children, all_labels. induction Ts as [|T Ts IH]; [done|].
  rewrite !fmap_cons. cbn [concat]. by rewrite !length_app, IH, !length_fmap.
Qed.

Section level_order.
Context (root : list (list Z)) (Ts : list (list (list Z))).
Context (order : Ts = root :: children Ts).

(** The child number [k] of the node [i]. *)
Lemma lookup_label i T k : Ts !! i = Some T -> (k < length (kids T))%nat ->
  all_labels Ts !! (first_label Ts i + k)%nat = (kids T).*1 !! k.
Proof.
  intros Hi Hk. unfold all_labels, first_label, all_labels.
  rewrite (lookup_concat_fmap (fun T => (kids T).*1) _ _ T); [done|done|]. by rewrite length_fmap.
Qed.

Lemma lookup_child i T k : Ts !! i = Some T -> (k < length (kids T))%nat ->
  Ts !! S (first_label Ts i + k) = (kids T).*2 !! k.
Proof.
  intros Hi Hk. transitivity ((root :: children Ts) !! S (first_label Ts i + k)); [by rewrite <-order|].
  cbn [lookup list_lookup]. unfold first_label.
  rewrite <-length_children. unfold children.
  rewrite (lookup_concat_fmap (fun T => (kids T).*2) _ _ T); [done|done|]. by rewrite length_fmap.
Qed.

Lemma lookup_bit i T k : Ts !! i = Some T -> (k <= length (kids T))%nat ->
  all_bits Ts !! (first_bit Ts i + k)%nat = Some (bool_decide (k = length (kids T))).
Proof.
  intros Hi Hk. unfold all_bits, first_bit, all_bits.
  rewrite (lookup_concat_fmap node_bits _ _ T); [|done|rewrite length_node_bits; lia].
  unfold node_bits. case_bool_decide as E.
  - by rewrite lookup_app_r, length_replicate, E, Nat.sub_diag by (rewrite length_replicate; lia).
  - rewrite lookup_app_l by (rewrite length_replicate; lia). apply lookup_replicate_2. lia.
Qed.
End level_order.

(** ** The reader's index of the ones *)

Lemma filter_ext_in {A} (P Q : A -> Prop) `{!forall x, Decision (P x), !forall x, Decision (Q x)} (l : list A) :
  Forall (fun x => P x <-> Q x) l -> filter P l = filter Q l.
Proof.
  induction 1 as [|x l Hx Hl IH]; [done|]. rewrite !filter_cons, IH.
  destruct (decide (P x)), (decide (Q x)); tauto.
Qed.

Lemma filter_none {A} (P : A -> Prop) `{!forall x, Decision (P x)} (l : list A) :
  Forall (fun x => ~ P x) l -> filter P l = [].
Proof. induction 1; [done|]. by rewrite filter_cons_False. Qed.

Lemma filter_fmap {A B} (f : A -> B) (P : B -> Prop) `{!forall x, Decision (P x)} (l : list A) :
  filter P (f <$> l) = f <$> filter (fun x => P (f x)) l.
Proof.
  induction l as [|x l IH]; [done|]. rewrite fmap_cons, !filter_cons, IH. by case_decide.
Qed.

Definition is_one (words : list Z) (i : nat) : Prop := bit words i = true.
Global Instance is_one_dec words i : Decision (is_one words i).
Proof. unfold is_one. apply _. Defined.

Definition positions (words : list Z) : list nat := filter (is_one words) (seq 0 (64 * length words)).

(** What a one at [position] adds to the index. *)
Definition push_one (st : list Z * nat) (position : nat) : list Z * nat :=
  (if decide (st.2 mod 32 = 0)%nat then st.1 ++ [wrap32 (Z.of_nat position)] else st.1, S st.2).

Lemma foldl_scan_bit i word st l :
  foldl (scan_bit i word) st l
  = foldl push_one st ((fun b => i * 64 + b)%nat
                         <$> filter (fun b => Z.testbit word (Z.of_nat b) = true) l).
Proof.
  revert st. induction l as [|b l IH]; intros st; [done|]. cbn [foldl]. rewrite IH, filter_cons.
  unfold scan_bit. destruct st as [blocks ones].
  pose proof (land_bit word (Z.of_nat b) ltac:(lia)) as Hb.
  destruct (decide (Z.land word (Z.shiftl 1 (Z.of_nat b)) <> 0)) as [Hn|Hn].
  - rewrite bool_decide_eq_false_2 in Hb by done. by rewrite (decide_True (P := Z.testbit _ _ = true)).
  - apply dec_stable in Hn. rewrite bool_decide_eq_true_2 in Hb by done.
    by rewrite (decide_False (P := Z.testbit _ _ = true)) by by rewrite <-Hb.
Qed.

(** The ones of the last word. *)
Lemma positions_snoc words word :
  positions (words ++ [word])
  = positions words
      ++ ((fun b => length words * 64 + b)%nat
            <$> filter (fun b => Z.testbit word (Z.of_nat b) = true) (seq 0 64)).
Proof.
  unfold positions. rewrite length_app. cbn [length].
  replace (64 * (length words + 1))%nat with (64 * length words + 64)%nat by lia.
  rewrite seq_app, filter_app. f_equal.
  - apply filter_ext_in, Forall_seq. intros j Hj. unfold is_one. rewrite !bit_eq.
    rewrite lookup_app_l; [done|]. apply Nat.Div0.div_lt_upper_bound. lia.
  - rewrite Nat.add_0_l, (Nat.mul_comm 64). 
    replace (seq (length words * 64) 64) with (Nat.add (length words * 64) <$> seq 0 64)
      by (by rewrite fmap_add_seq, Nat.add_0_r).
    rewrite filter_fmap. f_equal. apply filter_ext_in, Forall_seq. intros j Hj.
    unfold is_one. rewrite bit_eq.
    replace ((length words * 64 + j) / 64)%nat with (length words)
      by (rewrite Nat.div_add_l, (Nat.div_small j) by lia; lia).
    replace ((length words * 64 + j) mod 64)%nat with j
      by (rewrite Nat.add_comm, Nat.Div0.mod_add, Nat.mod_small by lia; done).
    by rewrite lookup_app_r, Nat.sub_diag by lia.
Qed.

Lemma last_bit word :
  is_u64 word -> word <> 0 ->
  last (filter (fun b => Z.testbit word (Z.of_nat b) = true) (seq 0 64)) = Some (Z.to_nat (Z.log2 word)).
Proof.
  intros Hu Hn. set (L := Z.to_nat (Z.log2 word)). pose proof (Z.log2_nonneg word).
  assert (0 < word) by (unfold_ints; lia).
  assert (Z.log2 word < 64) by (apply Z.log2_lt_pow2; unfold_ints; lia).
  replace 64%nat with (L + 1 + (63 - L))%nat by lia. rewrite seq_app, filter_app.
  rewrite (filter_none _ (seq _ (63 - L))).
  - rewrite app_nil_r, seq_app, filter_app, Nat.add_0_l. cbn [seq]. rewrite filter_cons_True, last_app.
    + done.
    + unfold L. rewrite Z2Nat.id by done. by apply Z.bit_log2.
  - apply Forall_seq. intros j Hj. rewrite Z.bits_above_log2; [done|lia|]. lia.
Qed.

Lemma imap_pair_snoc {A} (l : list A) x : imap pair (l ++ [x]) = imap pair l ++ [(length l, x)].
Proof. rewrite imap_app. cbn. by rewrite Nat.add_0_r. Qed.

(** The loops of [read_set] see the ones in order. *)
Lemma scan_words words :
  Forall is_u64 words ->
  foldl scan_word ([], 0%nat, None) (imap pair words)
  = (foldl push_one ([], 0%nat) (positions words), last (positions words)).
Proof.
  induction words as [|word words IH] using rev_ind; intros Hu; [done|].
  apply Forall_app in Hu as [Hu [Hw _]%Forall_cons].
  rewrite imap_pair_snoc, foldl_app, IH by done. cbn [foldl].
  rewrite positions_snoc, foldl_app. unfold scan_word.
  destruct (foldl push_one _ (positions words)) as [blocks ones] eqn:E.
  rewrite foldl_scan_bit. f_equal. rewrite last_app, fmap_last.
  destruct (decide (word <> 0)) as [Hn|Hn].
  - by rewrite last_bit.
  - apply dec_stable in Hn as ->. rewrite filter_none; [done|].
    apply Forall_seq. intros j _. by rewrite Z.bits_0.
Qed.

Lemma holds_length words bs b : holds words (bs ++ [true]) -> b = (length bs + 1)%nat ->
  (b <= 64 * length words)%nat.
Proof.
  intros H ->. specialize (H (length bs)). rewrite lookup_app_r, Nat.sub_diag in H by lia.
  rewrite bit_eq in H. destruct (words !! (length bs / 64)%nat) eqn:E; [|done].
  apply lookup_lt_Some in E. pose proof (Nat.div_mod_eq (length bs) 64).
  pose proof (Nat.mod_upper_bound (length bs) 64). lia.
Qed.

Lemma positions_holds words bs :
  holds words (bs ++ [true]) ->
  positions words = filter (fun i => (bs ++ [true]) !! i = Some true) (seq 0 (length bs + 1)).
Proof.
  intros H. pose proof (holds_length _ _ _ H eq_refl) as Hl. unfold positions.
  replace (64 * length words)%nat with ((length bs + 1) + (64 * length words - (length bs + 1)))%nat by lia.
  rewrite seq_app, filter_app. rewrite (filter_none _ (seq (0 + _) _)), app_nil_r.
  - apply filter_ext_in, Forall_seq. intros j Hj. unfold is_one. rewrite H.
    destruct (_ !! j) as [[]|]; naive_solver.
  - apply Forall_seq. intros j Hj. unfold is_one. rewrite H, lookup_ge_None_2; [done|].
    rewrite length_app. cbn. lia.
Qed.

Lemma all_bits_last Ts T : all_bits (Ts ++ [T]) = (all_bits Ts ++ replicate (length (kids T)) false) ++ [true].
Proof. rewrite all_bits_app, all_bits_singleton. unfold node_bits. by rewrite app_assoc. Qed.

(** The one number [i] closes the node [i]. *)
Lemma ones_of_bits Ts :
  filter (fun i => all_bits Ts !! i = Some true) (seq 0 (length (all_bits Ts)))
  = (fun i => first_bit Ts (S i) - 1)%nat <$> seq 0 (length Ts).
Proof.
  induction Ts as [|T Ts IH] using rev_ind; [done|].
  rewrite all_bits_last, !length_app, length_replicate. cbn [length].
  set (B := all_bits Ts) in *. set (n := length (kids T)).
  rewrite <-Nat.add_assoc, seq_app, filter_app, seq_app, filter_app, Nat.add_0_l.
  rewrite (seq_app _ 1), fmap_app, Nat.add_0_l. cbn [seq fmap list_fmap]. f_equal.
  - etransitivity; [|etransitivity; [exact IH|]].
    + apply filter_ext_in, Forall_seq. intros j Hj. rewrite <-app_assoc, lookup_app_l by lia. done.
    + apply list_fmap_ext. intros i j [-> Hj]%lookup_seq. unfold first_bit.
      by rewrite take_app_le by lia.
  - rewrite filter_none.
    2:{ apply Forall_seq. intros j Hj. rewrite lookup_app_l by (rewrite length_app, length_replicate; lia).
        rewrite lookup_app_r by lia. rewrite lookup_replicate_2 by lia. done. }
    rewrite filter_cons_True.
    2:{ rewrite lookup_app_r by (rewrite length_app, length_replicate; lia).
        by rewrite length_app, length_replicate, Nat.sub_diag. }
    cbn. f_equal. unfold first_bit. rewrite take_ge by (rewrite length_app; cbn; lia).
    rewrite all_bits_last, !length_app, length_replicate. cbn. unfold B, n. lia.
Qed.

(** The index holds the position of every 32nd one. *)
Lemma push_ones (P : list nat) :
  let st := foldl push_one ([], 0%nat) P in
  st.2 = length P
  /\ (length P <= 32 * length st.1 < length P + 32)%nat
  /\ forall j p, P !! (32 * j)%nat = Some p -> st.1 !! j = Some (wrap32 (Z.of_nat p)).
Proof.
  induction P as [|p P IH] using rev_ind; cbn zeta; [cbn; split; [done|split; [lia|done]]|].
  rewrite foldl_app. cbn [foldl]. destruct (foldl push_one _ P) as [blocks ones].
  cbn in IH. destruct IH as (-> & Hl & Hb). unfold push_one. cbn [fst snd].
  rewrite length_app. cbn [length]. split; [lia|].
  pose proof (Nat.div_mod_eq (length P) 32). pose proof (Nat.mod_upper_bound (length P) 32).
  case_decide as Hm.
  - rewrite length_app. cbn [length]. split; [lia|]. intros j q Hq.
    destruct (decide (32 * j < length P)%nat).
    + rewrite lookup_app_l in Hq by done. apply Hb in Hq. by apply lookup_app_l_Some.
    + pose proof (lookup_lt_Some _ _ _ Hq) as Hlt. rewrite length_app in Hlt. cbn in Hlt.
      rewrite lookup_app_r in Hq by lia. replace (32 * j - length P)%nat with 0%nat in Hq by lia.
      cbn in Hq. simplify_eq. rewrite lookup_app_r by lia. by replace (j - length blocks)%nat with 0%nat by lia.
  - split; [lia|]. intros j q Hq. apply Hb. pose proof (lookup_lt_Some _ _ _ Hq) as Hlt.
    rewrite length_app in Hlt. cbn in Hlt. rewrite lookup_app_l in Hq; [done|]. lia.
Qed.

(** ** The set read back *)

(** A set laid out in the level order [Ts] of a trie for the keys [root]. *)
Record louds (root : list (list Z)) (Ts : list (list (list Z))) (s : SuccinctSet) : Prop := {
  louds_order : Ts = root :: children Ts;
  louds_sorted : Forall sorted Ts;
  louds_labels : labels s = all_labels Ts;
  louds_bitmap : holds (bitmap s) (all_bits Ts);
  louds_leaves : holds (leaves s) (is_leaf <$> Ts);
  louds_count : node_count s = length Ts;
  louds_size : length Ts = size root;
  louds_words : (length Ts <= 64 * length (leaves s))%nat;
  louds_select : forall i, (i < length Ts)%nat -> select_one s i = Some (first_bit Ts (S i) - 1)%nat;
}.

(** The last bit of the node [i]. *)
Definition closing (Ts : list (list (list Z))) (i : nat) : nat := (first_bit Ts (S i) - 1)%nat.

Lemma closing_eq Ts i T :
  Ts !! i = Some T -> closing Ts i = (first_bit Ts i + length (kids T))%nat.
Proof. intros Hi. unfold closing. rewrite (first_bit_S _ _ _ Hi). lia. Qed.

Lemma next_one_spec s fuel p q :
  (p <= q)%nat -> (q - p < fuel)%nat -> bit (bitmap s) q = true ->
  (forall j, (p <= j < q)%nat -> bit (bitmap s) j = false) -> next_one s fuel p = q.
Proof.
  intros Hp Hf Hq Hz. revert p Hp Hf Hz. induction fuel as [|fuel IH]; intros p Hp Hf Hz; [lia|].
  cbn. destruct (decide (p = q)) as [->|Hne]; [by rewrite Hq|].
  rewrite Hz by lia. apply IH; [lia|lia|]. intros j Hj. apply Hz. lia.
Qed.

Section select.
Context (s : SuccinctSet) (Ts : list (list (list Z))).
Context (Hbits : holds (bitmap s) (all_bits Ts)).

Lemma node_bit i T k : Ts !! i = Some T -> (k <= length (kids T))%nat ->
  bit (bitmap s) (first_bit Ts i + k) = bool_decide (k = length (kids T)).
Proof. intros Hi Hk. rewrite Hbits, (lookup_bit Ts i T k) by done. done. Qed.

Lemma closing_in i : (i < length Ts)%nat -> (closing Ts i < 64 * length (bitmap s))%nat.
Proof.
  intros [T Hi]%lookup_lt_is_Some.
  pose proof (node_bit i T (length (kids T)) Hi ltac:(lia)) as Hb.
  rewrite bool_decide_eq_true_2, <-(closing_eq _ _ _ Hi), bit_eq in Hb by done.
  destruct (bitmap s !! _) eqn:E; [|done]. apply lookup_lt_Some in E.
  pose proof (Nat.div_mod_eq (closing Ts i) 64). pose proof (Nat.mod_upper_bound (closing Ts i) 64). lia.
Qed.

Lemma skip_ones_spec r m :
  (m + r < length Ts)%nat -> skip_ones s r (closing Ts m) = closing Ts (m + r).
Proof.
  revert m. induction r as [|r IH]; intros m Hm; cbn [skip_ones]; [by rewrite Nat.add_0_r|].
  destruct (lookup_lt_is_Some_2 Ts m ltac:(lia)) as [T Hi].
  destruct (lookup_lt_is_Some_2 Ts (S m) ltac:(lia)) as [T' Hi'].
  pose proof (first_bit_S _ _ _ Hi) as Ef. pose proof (closing_eq _ _ _ Hi).
  pose proof (closing_eq _ _ _ Hi').
  rewrite (next_one_spec s _ _ (closing Ts (S m))).
  - rewrite IH by lia. f_equal. lia.
  - lia.
  - pose proof (closing_in (S m) ltac:(lia)). lia.
  - rewrite (closing_eq _ _ _ Hi'), (node_bit _ T') by (done || lia). by rewrite bool_decide_eq_true_2.
  - intros j Hj. replace j with (first_bit Ts (S m) + (j - first_bit Ts (S m)))%nat by lia.
    rewrite (node_bit _ T') by (done || lia). rewrite bool_decide_eq_false_2; [done|]. lia.
Qed.
End select.

Lemma read_select words Ts :
  Forall is_u64 words -> holds words (all_bits Ts) -> Ts <> [] ->
  Z.of_nat (length (all_bits Ts)) < 2 ^ 32 ->
  exists blocks,
    foldl scan_word ([], 0%nat, None) (imap pair words)
    = (blocks, length Ts, Some (length (all_bits Ts) - 1)%nat)
    /\ forall s, bitmap s = words -> select_blocks s = blocks -> node_count s = length Ts ->
         forall i, (i < length Ts)%nat -> select_one s i = Some (closing Ts i).
Proof.
  intros Hu Hb Hne Hsize.
  assert (exists bs, all_bits Ts = bs ++ [true]) as [bs Ebs].
  { destruct Ts as [|T Ts _] using rev_ind; [done|]. rewrite all_bits_last. by eexists. }
  assert (positions words = closing Ts <$> seq 0 (length Ts)) as Hpos.
  { rewrite Ebs in Hb. rewrite (positions_holds _ _ Hb), <-Ebs.
    replace (length bs + 1)%nat with (length (all_bits Ts)) by (rewrite Ebs, length_app; done).
    apply ones_of_bits. }
  rewrite scan_words, Hpos by done. set (P := closing Ts <$> seq 0 (length Ts)).
  destruct (push_ones P) as (Hones & Hlen & Hblocks).
  destruct (foldl push_one _ P) as [blocks ones]. cbn [fst snd] in *. subst ones.
  assert (length P = length Ts) as Elen by (unfold P; by rewrite length_fmap, length_seq).
  exists blocks. rewrite Elen. split.
  - f_equal. unfold P. rewrite fmap_last.
    destruct (length Ts) as [|n] eqn:En; [by destruct Ts|].
    rewrite seq_S, last_snoc. cbn. f_equal. unfold closing, first_bit.
    by rewrite take_ge by lia.
  - intros s <- <- Ec i Hi. unfold select_one. rewrite decide_False by lia.
    pose proof (Nat.div_mod_eq i 32). pose proof (Nat.mod_upper_bound i 32).
    rewrite (Hblocks (i / 32)%nat (closing Ts (32 * (i / 32)))).
    2:{ unfold P. rewrite list_lookup_fmap, lookup_seq_lt by lia. done. }
    cbn [fmap option_fmap option_map]. f_equal.
    assert (closing Ts (32 * (i / 32)) < length (all_bits Ts))%nat as Hc.
    { destruct (lookup_lt_is_Some_2 Ts (32 * (i / 32)) ltac:(lia)) as [T HT].
      rewrite (closing_eq _ _ _ HT).
      pose proof (lookup_bit Ts _ T (length (kids T)) HT ltac:(lia)) as E. by apply lookup_lt_Some in E. }
    unfold wrap32. rewrite Z.mod_small, Nat2Z.id by lia.
    rewrite (skip_ones_spec s Ts Hb) by lia. f_equal. lia.
Qed.

(** The bytes of a written set read back as its level order. *)
Lemma write_read keys :
  keys <> [] -> sorted keys -> Z.of_nat (sum_list (length <$> keys)) <= MAX_COLLECTION_LENGTH ->
  exists w s Ts, write_succinct_set keys = Ok w /\ Wire.reads read_set w s /\ louds keys Ts s.
Proof.
  intros Hne Hs Hsize.
  destruct (build_built keys Hne Hs) as (Ts & b & Eb & [Hq Ho Hlab Hbm Hlv Hix [Hu1 Hu2] [Hz1 Hz2] HTs] & Hn & Hsz).
  rewrite app_nil_r in Ho, HTs.
  assert (length Ts = S (length (all_labels Ts))) as Hcount.
  { rewrite Ho at 1. cbn. by rewrite length_children. }
  pose proof (length_all_bits Ts) as Hbits. unfold node_bound, MAX_COLLECTION_LENGTH in *.
  destruct (read_select (b_bitmap b) Ts) as (blocks & Escan & Hsel); [done|done| |lia|].
  { intros ->. done. }
  exists ([0] ++ Wire.write_u64_slice (b_leaves b) ++ Wire.write_u64_slice (b_bitmap b)
           ++ Wire.write_length (b_labels b) ++ b_labels b).
  set (words := ((length Ts + 63) / 64)%nat).
  exists (mkSet (resize (length (b_leaves b) `max` words) 0 (b_leaves b)) (b_bitmap b) (b_labels b)
       blocks (length Ts)), Ts.
  split; [|split].
  - unfold write_succinct_set. rewrite decide_False by done. rewrite Eb. done.
  - eapply Wire.reads_bind; [apply Wire.reads_u8|].
    eapply Wire.reads_bind; [apply Wire.reads_u64_slice; [unfold MAX_COLLECTION_LENGTH; lia|done]|].
    eapply Wire.reads_bind; [apply Wire.reads_u64_slice; [unfold MAX_COLLECTION_LENGTH; lia|done]|].
    rewrite <-(app_nil_r (_ ++ b_labels b)).
    eapply Wire.reads_bind.
    { apply Wire.reads_byte_slice. rewrite Hlab. unfold MAX_COLLECTION_LENGTH. lia. }
    rewrite Escan. rewrite decide_False; [apply Wire.reads_ret|].
    rewrite Hlab. lia.
  - split; cbn [labels bitmap leaves node_count]; [done|done|done|done| |done|done| |].
    + intros i. by rewrite bit_resize.
    + rewrite length_resize. unfold words. pose proof (Nat.div_mod_eq (length Ts + 63) 64).
      pose proof (Nat.mod_upper_bound (length Ts + 63) 64). lia.
    + intros i Hi. by apply Hsel.
Qed.

(** ** The lookup *)

(** The lookup on the keys themselves. *)
Fixpoint find_key (T : list (list Z)) (d : list Z) : bool :=
  match d with
  | [] => is_leaf T || bool_decide (below CR T <> []) || bool_decide (below LF T <> [])
  | b :: d =>
      bool_decide (below CR T <> []) || (bool_decide (b = DOT) && bool_decide ([LF] ∈ T))
      || find_key (below b T) d
  end.

Fixpoint scan_kids (current : Z) (l : list (Z * list (list Z))) (c : nat) : scanned :=
  match l with
  | [] => Decided false
  | (x, T) :: l =>
      if decide (x = CR) then Decided true
      else if bool_decide (x = LF) && bool_decide (current = DOT) && is_leaf T then Decided true
      else if decide (x = current) then Descend c
      else scan_kids current l (S c)
  end.

(** With the labels in order, the scan sees the special labels before it
    descends. *)
Lemma scan_kids_spec current l c :
  StronglySorted Z.lt l.*1 -> CR < current ->
  scan_kids current l c
  = if bool_decide (CR ∈ l.*1)
       || (bool_decide (current = DOT) && existsb (fun p => bool_decide (p.1 = LF) && is_leaf p.2) l)
    then Decided true
    else match list_find (fun p => p.1 = current) l with
         | Some (j, _) => Descend (c + j)
         | None => Decided false
         end.
Proof.
  intros Hl Hc. revert c. induction l as [|[x T] l IH]; intros c.
  { cbn. rewrite bool_decide_eq_false_2 by set_solver. by rewrite andb_false_r. }
  rewrite fmap_cons in Hl. apply StronglySorted_inv in Hl as [Hl Hx]. cbn [fst] in Hx.
  rewrite fmap_cons. cbn [scan_kids existsb fst snd list_find].
  assert (forall y, y <= x -> y ∉ l.*1) as Hfresh.
  { intros y Hy Hin. rewrite Forall_forall in Hx. specialize (Hx _ Hin). lia. }
  destruct (decide (x = CR)) as [->|Hcr]; [by rewrite bool_decide_eq_true_2 by by left|].
  assert (bool_decide (CR ∈ x :: l.*1) = bool_decide (CR ∈ l.*1)) as ->.
  { apply bool_decide_ext. rewrite elem_of_cons. naive_solver. }
  rewrite (andb_comm (bool_decide (x = LF))), <-andb_assoc.
  destruct (bool_decide (current = DOT)) eqn:Ed; cbn [andb].
  - destruct (bool_decide (x = LF) && is_leaf T) eqn:El; cbn [orb].
    { by rewrite orb_true_r. }
    destruct (decide (x = current)) as [->|Hne].
    + rewrite bool_decide_eq_false_2 by (apply Hfresh; lia).
      assert (existsb (fun p => bool_decide (p.1 = LF) && is_leaf p.2) l = false) as ->.
      { apply not_true_iff_false. intros (p & Hin & [Hp _]%andb_true_iff)%existsb_exists.
        apply bool_decide_eq_true in Hp. apply (Hfresh LF); [unfold CR, LF in *; lia|].
        rewrite <-Hp. apply list_elem_of_fmap. exists p. split; [done|]. by apply list_elem_of_In. }
      cbn. by rewrite Nat.add_0_r.
    + rewrite IH by done. cbn [andb]. destruct (_ || _); [done|].
      destruct (list_find _ l) as [[j q]|]; cbn; [by rewrite Nat.add_succ_r|done].
  - rewrite orb_false_r. destruct (decide (x = current)) as [->|Hne].
    + rewrite bool_decide_eq_false_2 by (apply Hfresh; lia). by rewrite Nat.add_0_r.
    + rewrite IH by done. cbn [andb]. rewrite orb_false_r. destruct (bool_decide _); [done|].
      destruct (list_find _ l) as [[j q]|]; cbn; [by rewrite Nat.add_succ_r|done].
Qed.

Lemma find_key_nil d : find_key [] d = false.
Proof.
  assert (forall b, below b [] = []) as Hb by done.
  induction d as [|b d IH]; cbn; rewrite ?Hb, ?(bool_decide_eq_false_2 ([] <> [])) by (intros H; by apply H).
  - unfold is_leaf. by rewrite bool_decide_eq_false_2 by set_solver.
  - rewrite IH, (bool_decide_eq_false_2 (_ ∈ _)) by set_solver. by rewrite andb_false_r.
Qed.

Section lookups.
Context (root : list (list Z)) (Ts : list (list (list Z))) (s : SuccinctSet).
Context (Hs : louds root Ts s).

Lemma node_label i T k x T' : Ts !! i = Some T -> kids T !! k = Some (x, T') ->
  label s i (first_bit Ts i + k) = Some x.
Proof.
  intros Hi Hk. pose proof (lookup_lt_Some _ _ _ Hi). pose proof (lookup_lt_Some _ _ _ Hk).
  unfold label, checked_sub. rewrite first_bit_eq by lia. rewrite decide_True by lia.
  cbn [mbind option_bind]. rewrite (louds_labels _ _ _ Hs).
  replace (first_label Ts i + i + k - i)%nat with (first_label Ts i + k)%nat by lia.
  rewrite (lookup_label Ts i T) by (done || lia). by rewrite list_lookup_fmap, Hk.
Qed.

Lemma node_child i T k x T' : Ts !! i = Some T -> kids T !! k = Some (x, T') ->
  child s i (first_bit Ts i + k) = Some (S (first_label Ts i + k))
  /\ Ts !! S (first_label Ts i + k) = Some T'.
Proof.
  intros Hi Hk. pose proof (lookup_lt_Some _ _ _ Hi). pose proof (lookup_lt_Some _ _ _ Hk).
  assert (Ts !! S (first_label Ts i + k) = Some T') as Hc.
  { rewrite (lookup_child root Ts (louds_order _ _ _ Hs) i T) by (done || lia).
    by rewrite list_lookup_fmap, Hk. }
  split; [|done]. unfold child, checked_sub. rewrite first_bit_eq by lia. rewrite decide_True by lia.
  cbn [mbind option_bind fmap option_fmap option_map]. rewrite (louds_count _ _ _ Hs).
  replace (first_label Ts i + i + k - i)%nat with (first_label Ts i + k)%nat by lia.
  apply lookup_lt_Some in Hc. by rewrite decide_True.
Qed.

Lemma node_leaf i T : Ts !! i = Some T -> bit (leaves s) i = is_leaf T.
Proof. intros Hi. rewrite (louds_leaves _ _ _ Hs), list_lookup_fmap, Hi. done. Qed.

Lemma scan_labels_kids fuel current i T k :
  Ts !! i = Some T -> (length (kids T) - k < fuel)%nat -> (k <= length (kids T))%nat ->
  scan_labels s fuel current i (first_bit Ts i + k)
  = scan_kids current (drop k (kids T)) (S (first_label Ts i + k)).
Proof.
  intros Hi. revert k. induction fuel as [|fuel IH]; intros k Hf Hk; [lia|]. cbn [scan_labels].
  rewrite (node_bit s Ts (louds_bitmap _ _ _ Hs) i T k Hi Hk). case_bool_decide as E.
  { by rewrite drop_ge by lia. }
  destruct (lookup_lt_is_Some_2 (kids T) k ltac:(lia)) as [[x T'] Hx].
  rewrite (drop_S _ _ _ Hx). cbn [scan_kids].
  rewrite (node_label _ _ _ _ _ Hi Hx). destruct (node_child _ _ _ _ _ Hi Hx) as [Ec Hc]. rewrite Ec.
  case_decide; [done|]. rewrite (node_leaf _ _ Hc). destruct (_ && is_leaf T'); [done|].
  destruct (decide (x = current)); [done|].
  specialize (IH (S k) ltac:(lia) ltac:(lia)). by rewrite !Nat.add_succ_r in IH.
Qed.

Lemma scan_end_kids fuel i T k :
  Ts !! i = Some T -> (length (kids T) - k < fuel)%nat -> (k <= length (kids T))%nat ->
  scan_end s fuel i (first_bit Ts i + k)
  = existsb (fun x => bool_decide (x = CR \/ x = LF)) (drop k (kids T)).*1.
Proof.
  intros Hi. revert k. induction fuel as [|fuel IH]; intros k Hf Hk; [lia|]. cbn [scan_end].
  rewrite (node_bit s Ts (louds_bitmap _ _ _ Hs) i T k Hi Hk). case_bool_decide as E.
  { by rewrite drop_ge by lia. }
  destruct (lookup_lt_is_Some_2 (kids T) k ltac:(lia)) as [[x T'] Hx].
  rewrite (drop_S _ _ _ Hx), fmap_cons. cbn [existsb fst].
  rewrite (node_label _ _ _ _ _ Hi Hx). case_decide as Hd.
  - by rewrite bool_decide_eq_true_2.
  - rewrite bool_decide_eq_false_2 by done.
    specialize (IH (S k) ltac:(lia) ltac:(lia)). by rewrite !Nat.add_succ_r in IH.
Qed.

Lemma kids_bound i T : Ts !! i = Some T -> (length (kids T) <= length (labels s))%nat.
Proof.
  intros Hi. rewrite (louds_labels _ _ _ Hs). unfold all_labels.
  rewrite <-(take_drop_middle Ts i T Hi), fmap_app, concat_app, fmap_cons. cbn [concat].
  rewrite !length_app, length_fmap. lia.
Qed.

Lemma node_start_eq i : (i < length Ts)%nat -> node_start s i = first_bit Ts i.
Proof.
  intros Hi. destruct i as [|i]; [done|]. cbn [node_start].
  rewrite (louds_select _ _ _ Hs) by lia. cbn.
  destruct (lookup_lt_is_Some_2 Ts i ltac:(lia)) as [T HT].
  rewrite (first_bit_S _ _ _ HT). lia.
Qed.

(** The special labels of a node, on its keys. *)
Lemma kids_label T x : sorted T -> bool_decide (x ∈ (kids T).*1) = bool_decide (below x T <> []).
Proof.
  intros HT. pose proof (kids_of_kids T HT) as Hk. apply bool_decide_ext.
  split; [apply (kids_some _ _ Hk)|apply (kids_all _ _ Hk)].
Qed.

Lemma kids_leaf T : sorted T ->
  existsb (fun p => bool_decide (p.1 = LF) && is_leaf p.2) (kids T) = bool_decide ([LF] ∈ T).
Proof.
  intros HT. pose proof (kids_of_kids T HT) as Hk. apply eq_true_iff_eq.
  rewrite existsb_exists, bool_decide_eq_true. split.
  - intros ([x T'] & Hin & [Hx Hl]%andb_true_iff). apply bool_decide_eq_true in Hx, Hl. cbn in *. subst x.
    apply list_elem_of_In, (kids_below _ _ Hk) in Hin as ->. by apply elem_of_below.
  - intros Hin%elem_of_below.
    assert (LF ∈ (kids T).*1) as ([x T'] & E & Hx)%list_elem_of_fmap.
    { apply (kids_all _ _ Hk). intros E. rewrite E in Hin. set_solver. }
    cbn in E. subst x. exists (LF, T'). split; [by apply list_elem_of_In|]. cbn.
    apply (kids_below _ _ Hk) in Hx as ->. unfold is_leaf. by rewrite !bool_decide_eq_true_2.
Qed.

(** Following a key in the bits is following it in the key set. *)
Lemma follow_find d i T :
  Ts !! i = Some T -> Forall (fun b => CR < b) d -> follow s d i (first_bit Ts i) = find_key T d.
Proof.
  revert i T. induction d as [|b d IH]; intros i T Hi Hd.
  all: assert (sorted T) as HT by (eapply Forall_lookup_1; [apply (louds_sorted _ _ _ Hs)|done]).
  all: pose proof (kids_bound _ _ Hi); cbn [follow find_key]; rewrite <-(Nat.add_0_r (first_bit Ts i)).
  - rewrite (scan_end_kids _ _ T), (node_leaf _ _ Hi) by (done || unfold label_fuel; lia).
    rewrite drop_0, <-orb_assoc, <-!kids_label by done. f_equal.
    apply eq_true_iff_eq. rewrite existsb_exists, orb_true_iff, !bool_decide_eq_true. split.
    + intros (x & Hx%list_elem_of_In & [->| ->]%bool_decide_eq_true); auto.
    + intros [Hx|Hx]; eexists; (split; [by apply list_elem_of_In|]); apply bool_decide_eq_true; auto.
  - apply Forall_cons in Hd as [Hb Hd].
    rewrite (scan_labels_kids _ _ _ T) by (done || unfold label_fuel; lia).
    rewrite drop_0, scan_kids_spec by (done || apply (kids_labels _ _ (kids_of_kids T HT))).
    rewrite kids_label, kids_leaf by done. destruct (_ || _) eqn:E; [done|]. cbn [orb].
    destruct (list_find _ _) as [[j [x T']]|] eqn:Ef.
    + apply list_find_Some in Ef as (Hj & E1 & _). cbn in E1. subst x.
      destruct (node_child _ _ _ _ _ Hi Hj) as [_ Hc]. rewrite Nat.add_0_r. cbn [plus].
      rewrite node_start_eq by by apply lookup_lt_Some in Hc.
      rewrite (IH _ _ Hc Hd). f_equal.
      apply (kids_below _ _ (kids_of_kids T HT)). by eapply list_elem_of_lookup_2.
    + apply list_find_None in Ef. assert (below b T = []) as ->; [|by rewrite find_key_nil].
      destruct (below b T) eqn:Eb; [done|].
      assert (b ∈ (kids T).*1) as ([x T'] & E1 & Hx)%list_elem_of_fmap.
      { apply (kids_all _ _ (kids_of_kids T HT)). by rewrite Eb. }
      rewrite Forall_forall in Ef. by destruct (Ef _ Hx).
Qed.

(** ** The walk over the keys *)

Lemma kids_flatten T :
  sorted T ->
  T = (if is_leaf T then [[]] else []) ++ concat ((fun q : Z * list (list Z) => cons q.1 <$> q.2) <$> kids T).
Proof.
  induction 1 as [|k T HT IH Hk]; [done|].
  assert (Forall (fun r => r <> []) T) as Hnn by (apply (sorted_no_nil k); by constructor).
  assert (is_leaf T = false) as El.
  { apply bool_decide_eq_false. intros Hin. rewrite Forall_forall in Hnn. by apply (Hnn _ Hin). }
  rewrite El in IH. destruct k as [|b k].
  - assert (is_leaf ([] :: T) = true) as -> by (apply bool_decide_eq_true; by left).
    cbn [kids app]. by f_equal.
  - assert (is_leaf ((b :: k) :: T) = false) as ->.
    { apply bool_decide_eq_false. intros [|Hin]%elem_of_cons; [done|].
      rewrite Forall_forall in Hnn. by apply (Hnn _ Hin). }
    rewrite IH at 1. cbn [kids app]. unfold add_key.
    destruct (kids T) as [|[b' T'] rest]; [done|]. case_decide as E; [by subst b'|done].
Qed.

(** The keys below the children from number [k] of a node with the path [p],
    and the steps to visit them. *)
Definition todo (T : list (list Z)) (k : nat) (p : list Z) : list (list Z) :=
  concat ((fun q : Z * list (list Z) => app (p ++ [q.1]) <$> q.2) <$> drop k (kids T)).
Definition steps (T : list (list Z)) (k : nat) : nat := sum_list ((fun q : Z * list (list Z) => 2 * size q.2)%nat <$> drop k (kids T)).

Lemma todo_all T p : sorted T ->
  app p <$> T = (if is_leaf T then [p] else []) ++ todo T 0 p.
Proof.
  intros HT. rewrite (kids_flatten T HT) at 1. rewrite fmap_app. f_equal.
  - destruct (is_leaf T); [|done]. cbn. by rewrite app_nil_r.
  - unfold todo. rewrite drop_0. induction (kids T) as [|[b T'] l IH]; [done|].
    rewrite !fmap_cons. cbn [concat fst snd]. rewrite fmap_app, IH. f_equal.
    rewrite <-list_fmap_compose. apply list_fmap_ext. intros i x _. cbn. by rewrite <-app_assoc.
Qed.

Lemma steps_all T : S (steps T 0 + 1) = (2 * size T)%nat.
Proof.
  unfold steps. rewrite drop_0, size_eq.
  assert (sum_list ((fun q : Z * list (list Z) => 2 * size q.2)%nat <$> kids T) = (2 * sum_list (size <$> (kids T).*2))%nat) as ->.
  { induction (kids T) as [|q l IH]; [done|]. rewrite !fmap_cons, !sum_list_cons, IH. lia. }
  lia.
Qed.

Lemma todo_S T k p b T' : kids T !! k = Some (b, T') ->
  todo T k p = (app (p ++ [b]) <$> T') ++ todo T (S k) p.
Proof. intros Hk. unfold todo. by rewrite (drop_S _ _ _ Hk). Qed.

Lemma steps_S T k b T' : kids T !! k = Some (b, T') -> steps T k = (2 * size T' + steps T (S k))%nat.
Proof. intros Hk. unfold steps. by rewrite (drop_S _ _ _ Hk). Qed.

(** The nodes above the current one: each is in one of its children. *)
Inductive resume : list (nat * nat) -> list Z -> list (list Z) -> nat -> Prop :=
| resume_nil : resume [] [] [] 0
| resume_cons j T m parents key b out n :
    Ts !! j = Some T -> (m < length (kids T))%nat -> resume parents key out n ->
    resume ((j, first_bit Ts j + m)%nat :: parents) (key ++ [b]) (todo T (S m) key ++ out)
      (steps T (S m) + 1 + n).

Lemma get_bit_in words i : (i < 64 * length words)%nat -> get_bit words i = Ok (bit words i).
Proof.
  intros Hi. unfold get_bit, bit. rewrite word_bit_eq.
  destruct (lookup_lt_is_Some_2 words (i / 64)) as [w ->]; [|done].
  pose proof (Nat.div_mod_eq i 64). lia.
Qed.

Lemma keys_walk_spec fuel i T k parents key out n acc :
  resume parents key out n -> Ts !! i = Some T -> (k <= length (kids T))%nat ->
  (steps T k + 1 + n <= fuel)%nat ->
  walk s fuel ((i, first_bit Ts i + k)%nat :: parents) key acc = Ok (acc ++ todo T k key ++ out).
Proof.
  revert i T k parents key out n acc.
  induction fuel as [|fuel IH]; intros i T k parents key out n acc Hr Hi Hk Hf; [lia|]. cbn [walk].
  pose proof (lookup_lt_Some _ _ _ Hi) as Hlt. pose proof (louds_bitmap _ _ _ Hs) as Hb.
  assert (first_bit Ts i + k < 64 * length (bitmap s))%nat as Hin.
  { pose proof (closing_in s Ts Hb i Hlt). rewrite (closing_eq _ _ _ Hi) in H. lia. }
  rewrite get_bit_in, (node_bit s Ts Hb i T k Hi Hk) by done. rbind. case_bool_decide as Ek.
  - assert (todo T k key = []) as -> by (unfold todo; by rewrite drop_ge by lia).
    destruct Hr as [|j T2 m parents key b out n Hj Hm Hr]; [by rewrite app_nil_r|].
    rewrite removelast_last, <-Nat.add_succ_r. cbn [app].
    apply (IH _ _ _ _ _ _ n); [done|done|lia|lia].
  - destruct (lookup_lt_is_Some_2 (kids T) k ltac:(lia)) as [[b T'] Hx].
    pose proof (node_label _ _ _ _ _ Hi Hx) as El. destruct (node_child _ _ _ _ _ Hi Hx) as [Ec Hc].
    unfold label in El. unfold child in Ec.
    destruct (checked_sub (first_bit Ts i + k) i) as [li|]; [|done]. cbn in El, Ec.
    cbn [ok_or]. rbind. rewrite El. cbn [ok_or]. rbind. case_decide as Hcount; [|done].
    injection Ec as Ec. rewrite decide_False by lia.
    pose proof (lookup_lt_Some _ _ _ Hc) as Hclt. rewrite Ec.
    pose proof (louds_words _ _ _ Hs). rewrite get_bit_in, (node_leaf _ _ Hc) by lia. rbind.
    rewrite node_start_eq by done. rewrite <-(Nat.add_0_r (first_bit Ts (S _))).
    assert (sorted T') as HT' by (eapply Forall_lookup_1; [apply (louds_sorted _ _ _ Hs)|done]).
    pose proof (steps_all T'). pose proof (steps_S _ _ _ _ Hx).
    rewrite (IH _ T' _ _ _ (todo T (S k) key ++ out) (steps T (S k) + 1 + n)%nat);
      [|eapply resume_cons; [done|lia|done]|done|lia|lia].
    rewrite (todo_S _ _ _ _ _ Hx), (todo_all T') by done.
    destruct (is_leaf T'); by rewrite <-!app_assoc.
Qed.

(** Listing the keys of a set read back lists the written keys, in order. *)
Lemma keys_listed : keys s = Ok root.
Proof.
  assert (Ts !! 0%nat = Some root) as Hr by by rewrite (louds_order _ _ _ Hs).
  assert (sorted root) as HT by (eapply Forall_lookup_1; [apply (louds_sorted _ _ _ Hs)|done]).
  pose proof (lookup_lt_Some _ _ _ Hr). pose proof (louds_words _ _ _ Hs).
  unfold keys. rewrite get_bit_in, (node_leaf _ _ Hr) by lia. rbind.
  change (0%nat, 0%nat) with (0%nat, (first_bit Ts 0 + 0)%nat).
  rewrite (keys_walk_spec _ _ root _ _ _ [] 0); [|constructor|done|lia|].
  - rewrite app_nil_r. f_equal. rewrite <-(todo_all root []) by done.
    rewrite <-(list_fmap_id root) at 2. by apply list_fmap_ext.
  - rewrite (louds_count _ _ _ Hs), (louds_size _ _ _ Hs). pose proof (steps_all root). lia.
Qed.
End lookups.

(** Looking a key up in a set read back is looking it up in the keys. *)
Lemma matches_domain_key_find root Ts s d :
  louds root Ts s -> Forall (fun b => CR < b) d -> matches_domain_key s d = find_key root d.
Proof.
  intros Hs Hd. unfold matches_domain_key. change 0%nat with (first_bit Ts 0) at 2.
  apply (follow_find root); [done| |done]. by rewrite (louds_order _ _ _ Hs).
Qed.

End Trie.
