(* ===== verification/SrsDomain.v ===== *)
(** * Domain sets of a rule-set, compiled and as written

    A rule-set names domains and domain suffixes.  The source format matches
    them one by one ([route/mod.rs]); the binary format turns them into keys
    and a succinct set ([route/srs.rs]).  The theorem of this file: the set
    read back from the compiled bytes accepts exactly the domains the source
    accepts. *)

From stdpp Require Import base numbers list gmap sorting sets.
From Stdlib Require Import ZArith Lia.
From S2P Require Import Prelude OvpnText Text SrsWire SrsSet SrsTrie.

Local Open Scope Z_scope.

Module Domain.
Import Trie.

(** ** The source format: [route/mod.rs] *)

Definition domain_matches_suffix (domain configured : text) : bool :=
  let subdomains_only := starts_with_byte DOT configured in
  let suffix := to_ascii_lowercase (trim_end_matches DOT (trim_start_matches DOT configured)) in
  (negb subdomains_only && bool_decide (domain = suffix))
  || match strip_suffix suffix domain with
     | Some prefix => ends_with_byte DOT prefix
     | None => false
     end.

(** The exact domains and the suffixes of [matches_domain], on the trimmed and
    lowercased domain. *)
Definition matches_exact (domain value : text) : bool :=
  eq_ignore_ascii_case (trim_end_matches DOT value) domain.

Definition listed (domains suffixes : list text) (domain : text) : bool :=
  existsb (matches_exact domain) domains || existsb (domain_matches_suffix domain) suffixes.

(** ** The keys of the binary format: [route/srs.rs] *)

Fixpoint lex_leb (a b : list Z) : bool :=
  match a, b with
  | [], _ => true
  | _ :: _, [] => false
  | x :: a, y :: b => bool_decide (x < y) || (bool_decide (x = y) && lex_leb a b)
  end.

Definition lex_le (a b : list Z) : Prop := lex_leb a b = true.
Global Instance lex_le_dec : RelDecision lex_le.
Proof. intros a b. unfold lex_le. apply _. Defined.

(** [Vec::sort] and [Vec::dedup]. *)
Definition sort : list (list Z) -> list (list Z) := merge_sort lex_le.

Fixpoint dedup (l : list (list Z)) : list (list Z) :=
  match l with
  | [] => []
  | x :: l =>
      match dedup l with
      | y :: l' => if decide (x = y) then y :: l' else x :: y :: l'
      | [] => [x]
      end
  end.

Definition reverse_domain (value : text) : list Z := chars_rev value.

(** The keys pushed so far, and the [HashSet] of the names seen. *)
Definition keys_state : Type := list (list Z) * gset (list Z).

Definition add_suffix (legacy : bool) (st : keys_state) (domain : text) : result SrsError keys_state :=
  let '(keys, seen) := st in
  if decide (domain = []) then Err EmptySuffix
  else if decide (domain ∈ seen) then Ok (keys, seen)
  else
    let seen := {[domain]} ∪ seen in
    if starts_with_byte DOT domain then Ok (keys ++ [reverse_domain (CR :: domain)], seen)
    else if legacy then
      let keys := keys ++ [reverse_domain domain] in
      let dotted := DOT :: domain in
      if decide (dotted ∈ seen) then Ok (keys, seen)
      else Ok (keys ++ [reverse_domain (CR :: dotted)], {[dotted]} ∪ seen)
    else Ok (keys ++ [reverse_domain (LF :: domain)], seen).

Definition add_domain (st : keys_state) (domain : text) : result SrsError keys_state :=
  let '(keys, seen) := st in
  if decide (domain = []) then Err EmptyDomain
  else if decide (domain ∈ seen) then Ok (keys, seen)
  else Ok (keys ++ [reverse_domain domain], {[domain]} ∪ seen).

Fixpoint try_fold {S A} (f : S -> A -> result SrsError S) (st : S) (l : list A) : result SrsError S :=
  match l with
  | [] => Ok st
  | x :: l => st ← f st x; try_fold f st l
  end.

Definition build_domain_keys (domains suffixes : list text) (legacy : bool)
    : result SrsError (list (list Z)) :=
  st ← try_fold (add_suffix legacy) ([], ∅) suffixes;
  st ← try_fold add_domain st domains;
  Ok (dedup (sort st.1)).

(** ** The names recovered from the keys *)

Definition reverse_utf8 (value : list Z) : result SrsError text :=
  if utf8_valid value then Ok (chars_rev value) else Err InvalidUtf8.

Definition dump_key (st : list text * list text) (key : list Z)
    : result SrsError (list text * list text) :=
  let '(domains, suffixes) := st in
  value ← reverse_utf8 key;
  Ok match strip_prefix [CR] value with
     | Some value => (domains, suffixes ++ [value])
     | None =>
         match strip_prefix [LF] value with
         | Some value => (domains, suffixes ++ [value])
         | None => (domains ++ [value], suffixes)
         end
     end.

Definition dump_domain_matcher (keys : list (list Z)) : result SrsError (list text * list text) :=
  st ← try_fold dump_key ([], []) keys;
  Ok (dedup (sort st.1), dedup (sort st.2)).

(** ** Sorting *)

Lemma lex_le_total a b : lex_le a b \/ lex_le b a.
Proof.
  unfold lex_le. revert b. induction a as [|x a IH]; intros [|y b]; cbn; auto.
  rewrite !orb_true_iff, !andb_true_iff, !bool_decide_eq_true.
  destruct (Z.lt_trichotomy x y) as [|[->|]]; [auto| |auto]. destruct (IH b); auto.
Qed.

Lemma lex_le_trans a b c : lex_le a b -> lex_le b c -> lex_le a c.
Proof.
  unfold lex_le. revert b c. induction a as [|x a IH]; intros [|y b] [|z c]; cbn; try done.
  rewrite !orb_true_iff, !andb_true_iff, !bool_decide_eq_true.
  intros [?|[-> ?]] [?|[-> ?]]; [left; lia|by left|by left|right; split; [done|by eapply IH]].
Qed.

Lemma lex_le_lt a b : lex_le a b -> a <> b -> lex_lt a b.
Proof.
  unfold lex_le. revert b. induction a as [|x a IH]; intros [|y b]; cbn; try done.
  rewrite orb_true_iff, andb_true_iff, !bool_decide_eq_true.
  intros [?|[-> Hl]] Hne; [by left|]. right. split; [done|]. apply IH; [done|]. by intros ->.
Qed.

Global Instance lex_le_total' : Total lex_le.
Proof. intros a b. apply lex_le_total. Qed.
Global Instance lex_le_trans' : Transitive lex_le.
Proof. intros a b c. apply lex_le_trans. Qed.

Lemma elem_of_dedup k l : k ∈ dedup l <-> k ∈ l.
Proof.
  induction l as [|x l IH]; [done|]. cbn [dedup]. rewrite elem_of_cons, <-IH.
  destruct (dedup l) as [|y l']; [set_solver|]. case_decide as E; [|by rewrite elem_of_cons].
  subst. rewrite elem_of_cons. naive_solver.
Qed.

Lemma dedup_sorted l : StronglySorted lex_le l -> sorted (dedup l).
Proof.
  induction 1 as [|x l Hl IH Hx]; [constructor|]. cbn [dedup].
  assert (Forall (lex_le x) (dedup l)) as Hd.
  { rewrite Forall_forall in Hx |- *. intros k Hk. apply Hx. by apply elem_of_dedup. }
  destruct (dedup l) as [|y l'] eqn:E; [by repeat constructor|].
  case_decide as Exy; [by subst|]. constructor; [done|].
  apply Forall_cons in Hd as [Hxy Hd]. pose proof (lex_le_lt _ _ Hxy Exy) as Hlt.
  constructor; [done|]. apply StronglySorted_inv in IH as [_ IH].
  rewrite Forall_forall in IH, Hd |- *. intros k Hk. apply lex_le_lt; [by apply Hd|].
  intros ->. (* x = k would be below itself *)
  specialize (IH _ Hk). clear -Hlt IH. revert y Hlt IH.
  induction k as [|a k IHk]; intros [|b y]; cbn; try done.
  intros [?|[-> ?]] [?|[? ?]]; try lia. by eapply IHk.
Qed.

Lemma elem_of_sort k l : k ∈ sort l <-> k ∈ l.
Proof. unfold sort. by rewrite (merge_sort_Permutation lex_le l). Qed.

Lemma sort_sorted l : StronglySorted lex_le (sort l).
Proof. apply StronglySorted_merge_sort; apply _. Qed.

(** ** What a key accepts *)

Definition key_matches (k d : list Z) : Prop :=
  k = d
  \/ (exists p r, k = p ++ CR :: r /\ p `prefix_of` d)
  \/ (exists r, k = d ++ LF :: r)
  \/ (exists p, k = p ++ [LF] /\ (p ++ [DOT]) `prefix_of` d).

Lemma key_matches_nil k : key_matches k [] <-> k = [] \/ head k = Some CR \/ head k = Some LF.
Proof.
  unfold key_matches. split.
  - intros [->|[(p & r & -> & [t E])|[(r & ->)|(p & -> & [t E])]]]; [auto| |auto|].
    + destruct p; [auto|done].
    + by destruct p.
  - destruct k as [|x k]; [auto|]. cbn. intros [?|[[= ->]|[= ->]]]; [done|right..].
    + left. exists [], k. split; [done|]. apply prefix_nil.
    + right. left. by exists k.
Qed.

Lemma key_matches_cons k b d :
  key_matches k (b :: d)
  <-> head k = Some CR \/ (b = DOT /\ k = [LF]) \/ (exists k', k = b :: k' /\ key_matches k' d).
Proof.
  unfold key_matches. split.
  - intros [->|[(p & r & -> & [t E])|[(r & ->)|(p & -> & [t E])]]].
    + right. right. exists d. auto.
    + destruct p as [|x p]; [by left|]. simplify_eq/=. right. right. eexists. split; [done|].
      right. left. exists p, r. split; [done|]. by exists t.
    + right. right. exists (d ++ LF :: r). split; [done|]. right. right. left. by exists r.
    + destruct p as [|x p]; simplify_eq/=; [by right; left|]. right. right. eexists. split; [done|].
      right. right. right. exists p. split; [done|]. by exists t.
  - intros [Hk|[[-> ->]|(k' & -> & [->|[(p & r & -> & [t ->])|[(r & ->)|(p & -> & [t ->])]]])]].
    + destruct k as [|x k]; [done|]. simplify_eq/=. right. left. exists [], k. split; [done|].
      apply prefix_nil.
    + right. right. right. exists []. split; [done|]. by exists d.
    + by left.
    + right. left. exists (b :: p), r. split; [done|]. by exists t.
    + right. right. left. by exists r.
    + right. right. right. exists (b :: p). split; [done|]. by exists t.
Qed.

Lemma below_ne b T : below b T <> [] <-> exists k, b :: k ∈ T.
Proof.
  split.
  - destruct (below b T) as [|k l] eqn:E; [done|]. intros _. exists k. apply elem_of_below.
    rewrite E. left.
  - intros [k Hk%elem_of_below]. by intros E; rewrite E in Hk; apply not_elem_of_nil in Hk.
Qed.

Lemma find_key_spec T d : find_key T d = true <-> exists k, k ∈ T /\ key_matches k d.
Proof.
  revert T. induction d as [|b d IH]; intros T; cbn [find_key]; unfold is_leaf.
  - rewrite !orb_true_iff, !bool_decide_eq_true, !below_ne. setoid_rewrite key_matches_nil. split.
    + intros [[Hn|[k Hk]]|[k Hk]]; eexists; (split; [done|]); auto.
    + intros ([|x k] & Hk & [E|[E|E]]); simplify_eq/=; eauto.
  - rewrite !orb_true_iff, andb_true_iff, !bool_decide_eq_true, below_ne, IH.
    setoid_rewrite key_matches_cons. split.
    + intros [[[k Hk]|[-> Hk]]|(k & Hk%elem_of_below & Hm)]; eexists; (split; [done|]); eauto.
    + intros ([|x k] & Hk & [E|[[E1 E2]|(k' & E & Hm)]]); simplify_eq/=; eauto.
      right. exists k'. by rewrite elem_of_below.
Qed.

(** ** Names *)

Definition plain (x : text) : Prop := ascii x /\ lowercase x /\ Forall (fun b => CR < b) x.

(** A name in lower case, without a final dot. *)
Definition name_ok (x : text) : Prop := plain x /\ x <> [] /\ last x <> Some DOT.

(** A name, or a name after one dot. *)
Definition suffix_ok (s : text) : Prop :=
  exists c, name_ok c /\ head c <> Some DOT /\ (s = c \/ s = DOT :: c).

Lemma label_split (l : Z) (x p r : list Z) : l ∉ x -> x ++ [l] = p ++ l :: r -> p = x.
Proof.
  revert p. induction x as [|b x IH]; intros [|c p] Hx E; simplify_eq/=; [done| |set_solver|].
  - by destruct p.
  - f_equal. apply IH; [set_solver|done].
Qed.

Definition printable (x : list Z) : Prop := Forall (fun b => CR < b) x.

Lemma printable_cr x : printable x -> CR ∉ x.
Proof. intros H Hin. unfold printable in H. rewrite Forall_forall in H. specialize (H _ Hin). cbn in H. lia. Qed.
Lemma printable_lf x : printable x -> LF ∉ x.
Proof. intros H Hin. unfold printable in H. rewrite Forall_forall in H. specialize (H _ Hin). unfold CR, LF in H. lia. Qed.

Lemma exact_key x d : printable x -> key_matches x d <-> x = d.
Proof.
  intros Hx. pose proof (printable_cr _ Hx). pose proof (printable_lf _ Hx). unfold key_matches. split; [|auto].
  intros [?|[(p & r & -> & _)|[(r & ->)|(p & -> & _)]]]; [done|set_solver..].
Qed.

Lemma cr_key x d : printable x -> printable d -> key_matches (x ++ [CR]) d <-> x `prefix_of` d.
Proof.
  intros Hx Hd. pose proof (printable_cr _ Hx). pose proof (printable_lf _ Hx).
  pose proof (printable_cr _ Hd). assert (LF ∉ x ++ [CR]) by set_solver. unfold key_matches. split.
  - intros [E|[(p & r & E & Hp)|[(r & E)|(p & E & _)]]].
    + subst d. set_solver.
    + apply label_split in E as ->; done.
    + rewrite E in H2. set_solver.
    + rewrite E in H2. set_solver.
  - intros Hp. right. left. by exists x, [].
Qed.

Lemma lf_key x d : printable x -> printable d ->
  key_matches (x ++ [LF]) d <-> x = d \/ (x ++ [DOT]) `prefix_of` d.
Proof.
  intros Hx Hd. pose proof (printable_cr _ Hx). pose proof (printable_lf _ Hx).
  pose proof (printable_lf _ Hd). assert (CR ∉ x ++ [LF]) by set_solver. unfold key_matches. split.
  - intros [E|[(p & r & E & Hp)|[(r & E)|(p & E & Hp)]]].
    + subst d. set_solver.
    + rewrite E in H2. set_solver.
    + left. apply label_split in E as ->; done.
    + right. apply app_inj_tail in E as [-> _]. done.
  - intros [->|Hp]; right; right; [left; by exists []|]. right. by exists x.
Qed.

Lemma plain_rev x : plain x -> printable (rev x).
Proof. intros (_ & _ & H). by apply List.Forall_rev. Qed.


(** The two matchers on names. *)
Lemma suffix_core c : name_ok c -> head c <> Some DOT ->
  to_ascii_lowercase (trim_end_matches DOT (trim_start_matches DOT c)) = c.
Proof.
  intros ((_ & Hl & _) & _ & Hd) Hh.
  by rewrite trim_start_matches_id, trim_end_matches_id, to_ascii_lowercase_id.
Qed.

Lemma ends_below c d :
  match strip_suffix c d with Some prefix => ends_with_byte DOT prefix | None => false end = true
  <-> (DOT :: c) `suffix_of` d.
Proof.
  split.
  - destruct (strip_suffix c d) as [p|] eqn:E; [|done]. apply strip_suffix_spec in E as ->.
    intros Hp%bool_decide_eq_true. apply last_Some in Hp as [q ->].
    exists q. by rewrite <-app_assoc.
  - intros [q ->]. assert (strip_suffix c (q ++ DOT :: c) = Some (q ++ [DOT])) as ->.
    { apply strip_suffix_spec. by rewrite <-app_assoc. }
    unfold ends_with_byte. by rewrite last_snoc, bool_decide_eq_true_2.
Qed.

Lemma bare_suffix c d : name_ok c -> head c <> Some DOT ->
  domain_matches_suffix d c = true <-> d = c \/ (DOT :: c) `suffix_of` d.
Proof.
  intros Hc Hh. unfold domain_matches_suffix, starts_with_byte. rewrite suffix_core by done.
  rewrite (bool_decide_eq_false_2 (head c = _)) by done. cbn [negb andb].
  by rewrite orb_true_iff, bool_decide_eq_true, ends_below.
Qed.

Lemma dotted_suffix c d : name_ok c -> head c <> Some DOT ->
  domain_matches_suffix d (DOT :: c) = true <-> (DOT :: c) `suffix_of` d.
Proof.
  intros Hc Hh. unfold domain_matches_suffix, starts_with_byte.
  replace (trim_start_matches DOT (DOT :: c)) with (trim_start_matches DOT c) by done.
  rewrite suffix_core by done. rewrite bool_decide_eq_true_2 by done. cbn [negb andb orb].
  apply ends_below.
Qed.

Lemma exact_name x d : name_ok x -> lowercase d -> matches_exact d x = true <-> x = d.
Proof.
  intros ((_ & Hl & _) & _ & Hd) Hq. unfold matches_exact, eq_ignore_ascii_case.
  rewrite trim_end_matches_id, !to_ascii_lowercase_id, bool_decide_eq_true by done. done.
Qed.

Lemma rev_prefix (x d : list Z) : rev x `prefix_of` rev d <-> x `suffix_of` d.
Proof.
  split.
  - intros [t E]. exists (rev t). rewrite <-(rev_involutive d), E, rev_app_distr, rev_involutive. done.
  - intros [t ->]. exists (rev t). by rewrite rev_app_distr.
Qed.

(** ** The keys accept what the names accept *)

Definition accepts (keys : list (list Z)) (d : text) : Prop :=
  exists k, k ∈ keys /\ key_matches k (rev d).

Lemma accepts_app k1 k2 d : accepts (k1 ++ k2) d <-> accepts k1 d \/ accepts k2 d.
Proof. unfold accepts. setoid_rewrite elem_of_app. naive_solver. Qed.

Lemma accepts_singleton k d : accepts [k] d <-> key_matches k (rev d).
Proof. unfold accepts. setoid_rewrite list_elem_of_singleton. naive_solver. Qed.

Lemma plain_name x : plain x -> reverse_domain x = rev x.
Proof. intros (Ha & _ & _). by apply chars_rev_ascii. Qed.

Lemma plain_label l x : plain x -> 0 <= l < 128 -> reverse_domain (l :: x) = rev x ++ [l].
Proof. intros (Ha & _ & _) Hl. apply chars_rev_ascii. by constructor. Qed.

Lemma plain_dot x : plain x -> plain (DOT :: x).
Proof.
  intros (Ha & Hl & Hp). unfold DOT. split; [|split]; constructor; try done; unfold CR; lia.
Qed.

Lemma accepts_exact x d : plain x -> accepts [reverse_domain x] d <-> x = d.
Proof.
  intros Hx. rewrite accepts_singleton, plain_name, exact_key by (done || by apply plain_rev).
  split; [|by intros ->]. intros E. by rewrite <-(rev_involutive x), E, rev_involutive.
Qed.

Lemma accepts_dotted c d : plain c -> plain d ->
  accepts [reverse_domain (CR :: DOT :: c)] d <-> (DOT :: c) `suffix_of` d.
Proof.
  intros Hc Hd. rewrite accepts_singleton, plain_label by first [by apply plain_dot|unfold CR; lia].
  rewrite cr_key by (apply plain_rev; first [done|by apply plain_dot]). apply (rev_prefix (DOT :: c)).
Qed.

Lemma accepts_bare c d : plain c -> plain d ->
  accepts [reverse_domain (LF :: c)] d <-> d = c \/ (DOT :: c) `suffix_of` d.
Proof.
  intros Hc Hd. rewrite accepts_singleton, plain_label by first [done|unfold LF; lia].
  rewrite lf_key by by apply plain_rev. rewrite (rev_prefix (DOT :: c)). split.
  - intros [E|?]; [left|by right]. by rewrite <-(rev_involutive d), <-E, rev_involutive.
  - intros [->|?]; auto.
Qed.

Lemma try_fold_inv {S A} (f : S -> A -> result SrsError S) (Q : A -> Prop) (P : list A -> S -> Prop) l st :
  (forall done_ x st, Q x -> P done_ st -> exists st', f st x = Ok st' /\ P (done_ ++ [x]) st') ->
  Forall Q l -> P [] st -> exists st', try_fold f st l = Ok st' /\ P l st'.
Proof.
  intros Hf Hl.
  cut (forall st done_, P done_ st -> exists st', try_fold f st l = Ok st' /\ P (done_ ++ l) st');
    [intros H; apply (H st [])|]. clear st.
  induction Hl as [|x l Hx Hl IH]; intros st done_ HP; cbn [try_fold].
  - exists st. split; [done|]. by rewrite app_nil_r.
  - destruct (Hf done_ x st Hx HP) as (st' & E & HP'). rewrite E. rbind.
    destruct (IH _ _ HP') as (st2 & E2 & H2). exists st2. split; [done|]. by rewrite <-app_assoc in H2.
Qed.

(** After the suffixes [ss]. *)
Record suffix_keys (ss : list text) (st : keys_state) : Prop := {
  suffix_exact : forall d, plain d ->
    accepts st.1 d <-> exists s, s ∈ ss /\ domain_matches_suffix d s = true;
  suffix_seen : forall t, t ∈ st.2 ->
    suffix_ok t /\ forall d, plain d -> domain_matches_suffix d t = true -> accepts st.1 d;
}.

Lemma suffix_keys_snoc ss st st' s :
  suffix_keys ss st ->
  (forall d, plain d -> accepts st'.1 d <-> accepts st.1 d \/ domain_matches_suffix d s = true) ->
  (forall t, t ∈ st'.2 -> t ∈ st.2 \/ (suffix_ok t /\ forall d, plain d ->
     domain_matches_suffix d t = true -> accepts st'.1 d)) ->
  suffix_keys (ss ++ [s]) st'.
Proof.
  intros [He Hs] Ha Ht. split.
  - intros d Hd. rewrite Ha, He by done. setoid_rewrite elem_of_app. setoid_rewrite list_elem_of_singleton.
    naive_solver.
  - intros t [Hin|?]%Ht; [|done]. destruct (Hs t Hin) as [Hok Hc]. split; [done|].
    intros d Hd Hm. apply Ha; [done|]. left. by apply Hc.
Qed.

Lemma suffix_ok_bare c : name_ok c -> head c <> Some DOT -> suffix_ok c.
Proof. intros Hc Hh. exists c. auto. Qed.
Lemma suffix_ok_dotted c : name_ok c -> head c <> Some DOT -> suffix_ok (DOT :: c).
Proof. intros Hc Hh. exists c. auto. Qed.

Lemma dot_ne (c : text) : DOT :: c <> c.
Proof. intros E. apply (f_equal length) in E. cbn in E. lia. Qed.

Lemma add_suffix_ok legacy ss st s :
  suffix_ok s -> suffix_keys ss st ->
  exists st', add_suffix legacy st s = Ok st' /\ suffix_keys (ss ++ [s]) st'.
Proof.
  intros (c & Hc & Hh & Hs) Hst. destruct st as [keys seen]. unfold add_suffix.
  pose proof Hc as (Hplain & Hne & _).
  rewrite decide_False by (destruct Hs; subst; done).
  destruct (decide (s ∈ seen)) as [Hin|Hnew].
  { eexists. split; [done|]. eapply suffix_keys_snoc; [done| |by auto]. cbn. intros d Hd.
    destruct (suffix_seen _ _ Hst s Hin) as [_ Hcov]. specialize (Hcov d Hd). cbn in Hcov. tauto. }
  destruct Hs as [->| ->].
  - unfold starts_with_byte. rewrite bool_decide_eq_false_2 by done. destruct legacy.
    + destruct (decide _) as [Hdot|Hdot]; (eexists; split; [done|]);
        (eapply suffix_keys_snoc; [done|cbn [fst snd]|cbn [fst snd]]).
      * apply elem_of_union in Hdot as [Hdot|Hdot]; [by apply elem_of_singleton, dot_ne in Hdot|].
        destruct (suffix_seen _ _ Hst _ Hdot) as [_ Hcov]. cbn in Hcov. intros d Hd.
        rewrite accepts_app, accepts_exact, bare_suffix by done. specialize (Hcov d Hd).
        rewrite dotted_suffix in Hcov by done. naive_solver.
      * intros t [->%elem_of_singleton|?]%elem_of_union; [right|by left].
        split; [by apply suffix_ok_bare|]. intros d Hd. rewrite bare_suffix by done.
        apply elem_of_union in Hdot as [Hdot|Hdot]; [by apply elem_of_singleton, dot_ne in Hdot|].
        destruct (suffix_seen _ _ Hst _ Hdot) as [_ Hcov]. specialize (Hcov d Hd). cbn in Hcov.
        rewrite dotted_suffix in Hcov by done.
        rewrite accepts_app, accepts_exact by done. naive_solver.
      * intros d Hd. rewrite !accepts_app, accepts_exact, accepts_dotted, bare_suffix by done. naive_solver.
      * intros t [->%elem_of_singleton|[->%elem_of_singleton|?]%elem_of_union]%elem_of_union;
          [right..|by left]; (split; [by apply suffix_ok_dotted || by apply suffix_ok_bare|]);
          intros d Hd; rewrite !accepts_app, accepts_exact, accepts_dotted by done.
        -- rewrite dotted_suffix by done. auto.
        -- rewrite bare_suffix by done. naive_solver.
    + eexists. split; [done|]. eapply suffix_keys_snoc; [done|cbn [fst snd]..].
      * intros d Hd. by rewrite accepts_app, accepts_bare, bare_suffix by done.
      * intros t [->%elem_of_singleton|?]%elem_of_union; [right|by left].
        split; [by apply suffix_ok_bare|]. intros d Hd.
        rewrite bare_suffix, accepts_app, accepts_bare by done. auto.
  - unfold starts_with_byte. rewrite bool_decide_eq_true_2 by done.
    eexists. split; [done|]. eapply suffix_keys_snoc; [done|cbn [fst snd]..].
    + intros d Hd. by rewrite accepts_app, accepts_dotted, dotted_suffix by done.
    + intros t [->%elem_of_singleton|?]%elem_of_union; [right|by left].
      split; [by apply suffix_ok_dotted|]. intros d Hd.
      rewrite dotted_suffix, accepts_app, accepts_dotted by done. auto.
Qed.

(** After the suffixes [ss] and the domains [ds]. *)
Record domain_keys (ss ds : list text) (st : keys_state) : Prop := {
  domain_exact : forall d, plain d ->
    accepts st.1 d <-> (exists s, s ∈ ss /\ domain_matches_suffix d s = true) \/ d ∈ ds;
  domain_seen : forall t, t ∈ st.2 -> accepts st.1 t;
}.

Lemma suffix_domain_keys ss st : suffix_keys ss st -> domain_keys ss [] st.
Proof.
  intros [He Hs]. split.
  - intros d Hd. rewrite He by done. split; [by left|]. intros [?|?%not_elem_of_nil]; done.
  - intros t Ht. destruct (Hs t Ht) as [(c & Hc & Hh & [->| ->]) Hcov];
      (apply Hcov; [by apply Hc || apply plain_dot, Hc|]).
    + apply bare_suffix; auto.
    + apply dotted_suffix; auto.
Qed.

Lemma add_domain_ok ss ds st x :
  name_ok x -> domain_keys ss ds st ->
  exists st', add_domain st x = Ok st' /\ domain_keys ss (ds ++ [x]) st'.
Proof.
  intros (Hplain & Hne & _) [He Hs]. destruct st as [keys seen]. unfold add_domain.
  rewrite decide_False by done. destruct (decide (x ∈ seen)) as [Hin|Hnew]; (eexists; split; [done|]).
  - split; [|done]. intros d Hd. rewrite elem_of_app, list_elem_of_singleton. cbn.
    split; [rewrite He by done; tauto|]. intros [?|[?| ->]]; [apply He; auto..|]. by apply Hs.
  - split; cbn [fst snd].
    + intros d Hd. rewrite accepts_app, accepts_exact, elem_of_app, list_elem_of_singleton by done.
      cbn in He. rewrite He by done. naive_solver.
    + intros t [->%elem_of_singleton|?]%elem_of_union; rewrite accepts_app; [right|left; by apply Hs].
      by apply accepts_exact.
Qed.

Lemma listed_spec domains suffixes d :
  Forall name_ok domains -> plain d ->
  listed domains suffixes d = true
  <-> (exists s, s ∈ suffixes /\ domain_matches_suffix d s = true) \/ d ∈ domains.
Proof.
  intros Hn (_ & Hl & _). unfold listed. rewrite orb_true_iff, !existsb_exists.
  setoid_rewrite <-list_elem_of_In. rewrite Forall_forall in Hn. split.
  - intros [(x & Hx & Hm)|?]; [right|by left]. apply exact_name in Hm; [by subst|by apply Hn|done].
  - intros [?|Hd]; [by right|]. left. exists d. split; [done|]. apply exact_name; [by apply Hn|done|done].
Qed.

Lemma build_keys_spec domains suffixes legacy :
  Forall name_ok domains -> Forall suffix_ok suffixes ->
  exists keys, build_domain_keys domains suffixes legacy = Ok keys /\ sorted keys
    /\ forall d, plain d -> accepts keys d <-> listed domains suffixes d = true.
Proof.
  intros Hd Hs. unfold build_domain_keys.
  destruct (try_fold_inv (add_suffix legacy) suffix_ok suffix_keys suffixes ([], ∅))
    as (st & -> & Hst); [by intros; eapply add_suffix_ok|done| |].
  { split; cbn; [|set_solver]. intros d _. unfold accepts. set_solver. }
  destruct (try_fold_inv add_domain name_ok (domain_keys suffixes) domains st) as (st2 & E & Hst2);
    [by intros; eapply add_domain_ok|done|by apply suffix_domain_keys|].
  rbind. rewrite E. rbind. eexists. split; [done|]. split; [apply dedup_sorted, sort_sorted|].
  intros d Hp. rewrite listed_spec, <-(domain_exact _ _ _ Hst2) by done. unfold accepts.
  by setoid_rewrite elem_of_dedup; setoid_rewrite elem_of_sort.
Qed.

(** The keys are names, with a label for the suffixes. *)
Inductive key_form : list Z -> Prop :=
| form_exact x : name_ok x -> key_form (rev x)
| form_bare c : name_ok c -> head c <> Some DOT -> key_form (rev c ++ [LF])
| form_dotted c : name_ok c -> head c <> Some DOT -> key_form (rev (DOT :: c) ++ [CR]).

Lemma add_suffix_form legacy st st' s :
  suffix_ok s -> Forall key_form st.1 -> add_suffix legacy st s = Ok st' -> Forall key_form st'.1.
Proof.
  intros (c & Hc & Hh & Hs) Hk. destruct st as [keys seen]. unfold add_suffix. pose proof Hc as (Hp & Hne & _).
  pose proof (form_dotted c Hc Hh) as Hd. pose proof (form_bare c Hc Hh) as Hb.
  pose proof (form_exact c Hc) as Hx.
  assert (reverse_domain (CR :: DOT :: c) = rev (DOT :: c) ++ [CR]) as Ed
    by (apply plain_label; [by apply plain_dot|unfold CR; lia]).
  assert (reverse_domain (LF :: c) = rev c ++ [LF]) as Eb by (apply plain_label; [done|unfold LF; lia]).
  assert (reverse_domain c = rev c) as Ex by by apply plain_name.
  intros E. repeat (case_decide; [simplify_eq; done|]).
  destruct Hs as [->| ->]; unfold starts_with_byte in E;
    [rewrite bool_decide_eq_false_2 in E by done|rewrite bool_decide_eq_true_2 in E by done].
  - destruct legacy; [case_decide|]; simplify_eq; cbn [fst] in *; rewrite ?Ed, ?Eb, ?Ex;
      by rewrite ?Forall_app, ?Forall_singleton.
  - simplify_eq. cbn [fst] in *. rewrite Ed. by rewrite Forall_app, Forall_singleton.
Qed.

Lemma add_domain_form st st' x :
  name_ok x -> Forall key_form st.1 -> add_domain st x = Ok st' -> Forall key_form st'.1.
Proof.
  intros Hx Hk. destruct st as [keys seen]. unfold add_domain. intros E.
  repeat (case_decide; [simplify_eq; done|]). simplify_eq. cbn [fst] in *.
  rewrite plain_name by apply Hx. rewrite Forall_app, Forall_singleton. split; [done|by constructor].
Qed.

Lemma build_keys_form domains suffixes legacy keys :
  Forall name_ok domains -> Forall suffix_ok suffixes ->
  build_domain_keys domains suffixes legacy = Ok keys -> Forall key_form keys.
Proof.
  intros Hd Hs. unfold build_domain_keys.
  destruct (try_fold_inv (add_suffix legacy) suffix_ok
    (fun ss st => suffix_keys ss st /\ Forall key_form st.1) suffixes ([], ∅)) as (st & -> & Hst & Hf).
  - intros done_ x st Hx [Hk Hf]. destruct (add_suffix_ok legacy done_ st x Hx Hk) as (st' & E & Hk').
    exists st'. split; [done|]. split; [done|]. by eapply add_suffix_form.
  - done.
  - split; [|constructor]. split; cbn; [|set_solver]. intros d _. unfold accepts. set_solver.
  - destruct (try_fold_inv add_domain name_ok
      (fun ds st => domain_keys suffixes ds st /\ Forall key_form st.1) domains st) as (st2 & E & _ & Hf2).
    + intros done_ x st0 Hx [Hk Hf0]. destruct (add_domain_ok suffixes done_ st0 x Hx Hk) as (st' & E & Hk').
      exists st'. split; [done|]. split; [done|]. by eapply add_domain_form.
    + done.
    + split; [by apply suffix_domain_keys|done].
    + rbind. rewrite E. rbind. intros [= <-]. rewrite Forall_forall in Hf2 |- *. intros k Hk.
      by apply elem_of_dedup, elem_of_sort, Hf2 in Hk.
Qed.

(** The set read back from the bytes of the keys, whatever the reader that
    consumed them. *)
Lemma compiled_set domains suffixes legacy keys :
  Forall name_ok domains -> Forall suffix_ok suffixes -> domains ++ suffixes <> [] ->
  build_domain_keys domains suffixes legacy = Ok keys ->
  Z.of_nat (sum_list (length <$> keys)) <= MAX_COLLECTION_LENGTH ->
  exists w s, Succinct.write_succinct_set keys = Ok w /\ Wire.reads Succinct.read_set w s
    /\ forall d, plain d -> Succinct.matches_domain s d = listed domains suffixes d.
Proof.
  intros Hd Hs Hne Eb Hsize. destruct (build_keys_spec domains suffixes legacy Hd Hs) as (keys' & E & Hk & Ha).
  rewrite Eb in E. injection E as <-.
  assert (exists d, accepts keys d) as [d0 (k & Hin & _)].
  { destruct domains as [|x ds]; [destruct suffixes as [|x ss]; [done|]|].
    - apply Forall_cons in Hs as [(c & Hc & Hh & Hx) _]. exists (DOT :: c).
      apply Ha; [apply plain_dot, Hc|]. apply listed_spec; [done|apply plain_dot, Hc|]. left. exists x.
      split; [by left|]. destruct Hx as [->| ->]; [apply bare_suffix|apply dotted_suffix]; auto.
    - apply Forall_cons in Hd as [Hx Hd]. exists x. apply Ha; [apply Hx|].
      apply listed_spec; [by constructor|apply Hx|]. right. by left. }
  destruct (write_read keys) as (w & s & Ts & Ew & Er & Hl); [by intros ->; set_solver|done|done|].
  exists w, s. split; [done|]. split; [done|]. intros d Hp. unfold Succinct.matches_domain.
  rewrite chars_rev_ascii by apply Hp. rewrite (matches_domain_key_find keys Ts) by (done || by apply plain_rev).
  apply eq_true_iff_eq. rewrite find_key_spec, <-Ha by done. done.
Qed.

(** C22: Compiling the domains of a rule-set into the binary format keeps their
    meaning.  For at least one name or suffix, all of them in ASCII and in
    lower case, without control characters and without a final dot, the
    suffixes with one leading dot at most, in the current and in the legacy
    key layout: the keys are built, and when they are within the format's limit
    the succinct set read back from the written bytes accepts a domain (in ASCII
    and in lower case, without control characters) exactly when the source
    format lists it or lists one of its suffixes. *)
Theorem compiled_domains_agree (domains suffixes : list text) (legacy : bool) :
  Forall name_ok domains -> Forall suffix_ok suffixes -> domains ++ suffixes <> [] ->
  exists keys, build_domain_keys domains suffixes legacy = Ok keys
    /\ (Z.of_nat (sum_list (length <$> keys)) <= MAX_COLLECTION_LENGTH ->
        exists w s, Succinct.write_succinct_set keys = Ok w /\ Wire.reads Succinct.read_set w s
          /\ forall d, plain d -> Succinct.matches_domain s d = listed domains suffixes d).
Proof.
  intros Hd Hs Hne. destruct (build_keys_spec domains suffixes legacy Hd Hs) as (keys & E & _).
  exists keys. split; [done|]. intros Hsize. by eapply compiled_set.
Qed.

(** ** The names recovered from a compiled set *)

Lemma ascii_rev x : ascii x -> ascii (rev x).
Proof. apply List.Forall_rev. Qed.

Lemma reverse_utf8_rev x : ascii x -> reverse_utf8 (rev x) = Ok x.
Proof.
  intros Hx. unfold reverse_utf8. rewrite utf8_valid_ascii, chars_rev_ascii by by apply ascii_rev.
  by rewrite rev_involutive.
Qed.

Lemma strip_label_name l x : printable x -> l <= CR -> strip_prefix [l] x = None.
Proof.
  intros Hx Hl. destruct (strip_prefix [l] x) as [r|] eqn:E; [|done].
  apply strip_prefix_spec in E as ->. apply Forall_cons in Hx as [? _]. lia.
Qed.

(** The names recovered from the keys [ks]. *)
Record recovered (ks : list (list Z)) (st : list text * list text) : Prop := {
  rec_domains : Forall name_ok st.1;
  rec_suffixes : Forall suffix_ok st.2;
  rec_accepts : forall d, plain d ->
    accepts ks d <-> (exists s, s ∈ st.2 /\ domain_matches_suffix d s = true) \/ d ∈ st.1;
}.

Lemma recovered_suffix ks ds ss k s :
  recovered ks (ds, ss) -> suffix_ok s ->
  (forall d, plain d -> accepts [k] d <-> domain_matches_suffix d s = true) ->
  recovered (ks ++ [k]) (ds, ss ++ [s]).
Proof.
  intros [Hd Hs Ha] Hok Hk. split; cbn in *; [done|by rewrite Forall_app, Forall_singleton|].
  intros d Hp. rewrite accepts_app, Ha, Hk by done. setoid_rewrite elem_of_app.
  setoid_rewrite list_elem_of_singleton. naive_solver.
Qed.

Lemma dump_key_ok ks st k :
  key_form k -> recovered ks st -> exists st', dump_key st k = Ok st' /\ recovered (ks ++ [k]) st'.
Proof.
  intros Hk Hst. destruct st as [ds ss]. unfold dump_key. destruct Hk as [x Hx|c Hc Hh|c Hc Hh].
  - pose proof Hx as ((Ha & Hl & Hp) & Hne & _). rewrite reverse_utf8_rev by done. rbind.
    rewrite !strip_label_name by (done || unfold CR, LF; lia). eexists. split; [done|].
    destruct Hst as [Hd Hs He]. split; cbn in *; [by rewrite Forall_app, Forall_singleton|done|].
    intros d Hpd. rewrite accepts_app, He, <-(plain_name x), accepts_exact by (done || apply Hx).
    rewrite elem_of_app, list_elem_of_singleton. naive_solver.
  - pose proof Hc as ((Ha & Hl & Hp) & Hne & _).
    change (rev c ++ [LF]) with (rev (LF :: c)). rewrite reverse_utf8_rev
      by (constructor; [unfold LF; lia|done]). rbind.
    replace (strip_prefix [CR] (LF :: c)) with (@None text) by by vm_compute.
    assert (strip_prefix [LF] (LF :: c) = Some c) as -> by by apply strip_prefix_spec.
    eexists. split; [done|]. apply recovered_suffix; [done|by apply suffix_ok_bare|].
    intros d Hd. change (rev (LF :: c)) with (rev c ++ [LF]).
    rewrite <-(plain_label LF c), accepts_bare, bare_suffix by first [done|apply Hc|unfold LF; lia]. done.
  - pose proof Hc as ((Ha & Hl & Hp) & Hne & _).
    change (rev (DOT :: c) ++ [CR]) with (rev (CR :: DOT :: c)). rewrite reverse_utf8_rev
      by (repeat (constructor; [unfold CR, DOT; lia|]); done). rbind.
    assert (strip_prefix [CR] (CR :: DOT :: c) = Some (DOT :: c)) as -> by by apply strip_prefix_spec.
    eexists. split; [done|]. apply recovered_suffix; [done|by apply suffix_ok_dotted|].
    intros d Hd. change (rev (CR :: DOT :: c)) with (rev (DOT :: c) ++ [CR]).
    rewrite <-(plain_label CR (DOT :: c)), accepts_dotted, dotted_suffix
      by first [done|apply plain_dot, Hc|apply Hc|unfold CR; lia]. done.
Qed.

Lemma elem_of_dedup_sort k l : k ∈ dedup (sort l) <-> k ∈ l.
Proof. by rewrite elem_of_dedup, elem_of_sort. Qed.

Lemma dump_spec keys :
  Forall key_form keys ->
  exists ds ss, dump_domain_matcher keys = Ok (ds, ss)
    /\ forall d, plain d -> listed ds ss d = true <-> accepts keys d.
Proof.
  intros Hk. unfold dump_domain_matcher.
  destruct (try_fold_inv dump_key key_form recovered keys ([], [])) as ([ds ss] & -> & [Hd Hs Ha]);
    [by intros; eapply dump_key_ok|done| |].
  { split; cbn; [constructor..|]. intros d _. unfold accepts. set_solver. }
  rbind. cbn [fst snd] in *. do 2 eexists. split; [done|]. intros d Hp. rewrite listed_spec.
  - rewrite Ha by done. setoid_rewrite elem_of_dedup_sort. done.
  - rewrite Forall_forall in Hd |- *. intros x Hx. apply Hd. by apply elem_of_dedup_sort.
  - done.
Qed.

(** C23: Decompiling recovers the domains of a rule-set.  Walking the trie of
    the set read back lists exactly the written keys, and the names and
    suffixes recovered from them accept the same lower case domains as the
    names and suffixes that were compiled. *)
Theorem recovered_domains_agree (domains suffixes : list text) (legacy : bool) (keys : list (list Z)) (w : list Z) (s : SuccinctSet) :
  Forall name_ok domains -> Forall suffix_ok suffixes -> domains ++ suffixes <> [] ->
  build_domain_keys domains suffixes legacy = Ok keys ->
  Z.of_nat (sum_list (length <$> keys)) <= MAX_COLLECTION_LENGTH ->
  Succinct.write_succinct_set keys = Ok w -> Wire.reads Succinct.read_set w s ->
  exists ds ss, Succinct.keys s = Ok keys /\ dump_domain_matcher keys = Ok (ds, ss)
    /\ forall d, plain d -> listed ds ss d = listed domains suffixes d.
Proof.
  intros Hd Hs Hne Eb Hsize Ew Er.
  destruct (build_keys_spec domains suffixes legacy Hd Hs) as (keys' & E & Hk & Ha).
  rewrite Eb in E. injection E as <-.
  destruct (dump_spec keys) as (ds & ss & Ed & Hl); [by eapply build_keys_form|].
  destruct (write_read keys) as (w' & s' & Ts & Ew' & Er' & Hlo); [|done|done|].
  { intros ->. unfold Succinct.write_succinct_set in Ew. by rewrite decide_True in Ew. }
  rewrite Ew in Ew'. injection Ew' as <-. specialize (Er []). rewrite (Er' []) in Er. injection Er as <-.
  exists ds, ss. split; [by eapply keys_listed|]. split; [done|]. intros d Hp.
  apply eq_true_iff_eq. rewrite Hl, Ha by done. done.
Qed.

(** The names of the witness: [ab.c], [c] and [.d.e]. *)
Definition example_domains : list text := [[97; 98; 46; 99]].
Definition example_suffixes : list text := [[99]; [46; 100; 46; 101]].

Lemma compiled_domains_agree_witness :
  exists keys w s, build_domain_keys example_domains example_suffixes false = Ok keys
    /\ Succinct.write_succinct_set keys = Ok w /\ Wire.reads Succinct.read_set w s
    /\ Succinct.matches_domain s [120; 46; 100; 46; 101] = true
    /\ Succinct.matches_domain s [100; 46; 101] = false.
Proof.
  destruct (compiled_domains_agree example_domains example_suffixes false) as (keys & E & H).
  - repeat constructor; unfold CR, DOT; cbn; try lia; done.
  - unfold example_suffixes. constructor; [|constructor; [|constructor]].
    + exists [99]. split; [repeat constructor; unfold CR, DOT; cbn; try lia; done|]. split; [done|by left].
    + exists [100; 46; 101]. split; [repeat constructor; unfold CR, DOT; cbn; try lia; done|].
      split; [done|by right].
  - done.
  - assert (keys = [[99; 10]; [99; 46; 98; 97]; [101; 46; 100; 46; 13]]) as ->.
    { vm_compute in E. by injection E as <-. }
    destruct H as (w & s & Ew & Er & Hm); [vm_compute; done|].
    exists [[99; 10]; [99; 46; 98; 97]; [101; 46; 100; 46; 13]], w, s. split; [done|].
    split; [done|]. split; [done|].
    split; (rewrite Hm by (repeat constructor; unfold CR; lia)); vm_compute; done.
Defined.

Lemma recovered_domains_agree_witness :
  exists keys w s ds ss, build_domain_keys example_domains example_suffixes true = Ok keys
    /\ Succinct.write_succinct_set keys = Ok w /\ Succinct.keys s = Ok keys
    /\ dump_domain_matcher keys = Ok (ds, ss) /\ listed ds ss [97; 46; 99] = true.
Proof.
  set (keys := [[99]; [99; 46; 13]; [99; 46; 98; 97]; [101; 46; 100; 46; 13]]).
  destruct (write_read keys) as (w & s & Ts & Ew & Er & _).
  - done.
  - repeat constructor; cbn; lia.
  - vm_compute; done.
  - destruct (recovered_domains_agree example_domains example_suffixes true keys w s)
      as (ds & ss & Ek & Ed & Hl).
    + repeat constructor; unfold CR, DOT; cbn; try lia; done.
    + unfold example_suffixes. constructor; [|constructor; [|constructor]].
      * exists [99]. split; [repeat constructor; unfold CR, DOT; cbn; try lia; done|]. split; [done|by left].
      * exists [100; 46; 101]. split; [repeat constructor; unfold CR, DOT; cbn; try lia; done|].
        split; [done|by right].
    + done.
    + by vm_compute.
    + vm_compute; done.
    + done.
    + done.
    + exists keys, w, s, ds, ss. split; [by vm_compute|]. split; [done|]. split; [done|]. split; [done|].
      rewrite Hl by (repeat constructor; unfold CR; lia). by vm_compute.
Defined.

(** The source format ignores the case of a name, the compiled one does not:
    [A.b] accepts [a.b] only in the source. *)
Lemma compiled_case_differs :
  listed [[65; 46; 98]] [] [97; 46; 98] = true
  /\ build_domain_keys [[65; 46; 98]] [] false = Ok [[98; 46; 65]]
  /\ forall s, Wire.reads Succinct.read_set
        (default [] (match Succinct.write_succinct_set [[98; 46; 65]] with Ok w => Some w | Err _ => None end)) s ->
      Succinct.matches_domain s [97; 46; 98] = false.
Proof.
  split; [by vm_compute|]. split; [by vm_compute|]. intros s Hs. specialize (Hs []).
  vm_compute in Hs. injection Hs as <-. by vm_compute.
Qed.

(** The source format ignores a final dot, the compiled one does not: [a.b.]
    accepts [a.b] only in the source. *)
Lemma compiled_dot_differs :
  listed [[97; 46; 98; 46]] [] [97; 46; 98] = true
  /\ build_domain_keys [[97; 46; 98; 46]] [] false = Ok [[46; 98; 46; 97]]
  /\ forall s, Wire.reads Succinct.read_set
        (default [] (match Succinct.write_succinct_set [[46; 98; 46; 97]] with Ok w => Some w | Err _ => None end)) s ->
      Succinct.matches_domain s [97; 46; 98] = false.
Proof.
  split; [by vm_compute|]. split; [by vm_compute|]. intros s Hs. specialize (Hs []).
  vm_compute in Hs. injection Hs as <-. by vm_compute.
Qed.
End Domain.
