(* ===== verification/SrsAdGuard.v ===== *)
(** * AdGuard rules of a rule-set

    AdGuard patterns ([||name^], [|name], [name]) are kept in a succinct set
    of their own ([route/srs.rs]): an anchor at the start is a label at the
    end of the reversed key, a missing anchor at the end a backspace at its
    start, and a star matches any bytes. *)

From stdpp Require Import base numbers list sets gmap.
From Stdlib Require Import ZArith Lia.
From S2P Require Import Prelude Text SrsWire SrsSet SrsTrie SrsDomain.

Local Open Scope Z_scope.

Definition BACKSPACE : Z := 8.
Definition STAR : Z := 42.
Definition BAR : Z := 124.
Definition CARET : Z := 94.

Module AdGuard.
Import Succinct.

(** ** Matching *)

Section matching.
Context (s : SuccinctSet).

(** [matches_adguard_key]: [levels] is the depth left, [101 - depth]. *)
Fixpoint matches_adguard_key (levels : nat) : list Z -> nat -> nat -> bool :=
  match levels with
  | O => fun _ _ _ => false
  | S levels =>
      (* the labels of a node, for the byte [current] *)
      let scan (follow : list Z -> nat -> nat -> bool) (current : Z) (key : list Z) (node : nat) :=
        fix scan (fuel index : nat) : bool :=
          match fuel with
          | O => false
          | S fuel =>
              if bit (bitmap s) index then false
              else
                match label s node index with
                | None => false
                | Some l =>
                    if decide (l = CR) then true
                    else
                      match child s node index with
                      | None => false
                      | Some c =>
                          if bool_decide (l = LF) && bool_decide (current = DOT) && bit (leaves s) c then true
                          else if decide (l = current) then follow key c (node_start s c)
                          else if bool_decide (l = STAR \/ l = BACKSPACE)
                                  && (matches_adguard_key levels (current :: key) c (node_start s c)
                                      || existsb (fun suffix => matches_adguard_key levels suffix c (node_start s c))
                                           ((fun n => drop n key) <$> seq 0 (S (length key))))
                               then true
                               else scan fuel (S index)
                      end
                end
          end in
      (* the labels of a node after the last byte *)
      let scan_last (node : nat) :=
        fix scan_last (fuel index : nat) : bool :=
          match fuel with
          | O => false
          | S fuel =>
              if bit (bitmap s) index then false
              else
                match label s node index with
                | None => false
                | Some l =>
                    if decide (l = CR \/ l = LF \/ l = BACKSPACE) then true
                    else if decide (l = STAR) then
                      match child s node index with
                      | None => false
                      | Some c => matches_adguard_key levels [] c (node_start s c)
                      end
                    else scan_last fuel (S index)
                end
          end in
      fix follow (key : list Z) (node index : nat) : bool :=
        match key with
        | [] => bit (leaves s) node || scan_last node (label_fuel s) index
        | current :: key => scan follow current key node (label_fuel s) index
        end
  end.

(** The loop over the parent domains of the key; each has fewer bytes. *)
Fixpoint match_parents (fuel : nat) (key : list Z) : bool :=
  match fuel with
  | O => false
  | S fuel =>
      matches_adguard_key 101 (BACKSPACE :: key) 0 0
      || match list_find (eq DOT) key with
         | None => false
         | Some (dot, _) => match_parents fuel (drop (S dot) key)
         end
  end.

Definition matches_adguard (domain : text) : bool :=
  let key := chars_rev domain in
  matches_adguard_key 101 key 0 0 || match_parents (S (length key)) key.
End matching.

(** ** Keys *)

Definition adguard_key (original : text) : result SrsError (list Z) :=
  let '(rule, suffix, start) :=
    match strip_prefix [BAR; BAR] original with
    | Some value => (value, true, false)
    | None =>
        match strip_prefix [BAR] original with
        | Some value => (value, false, true)
        | None => (original, false, false)
        end
    end in
  let has_end := ends_with_byte CARET rule in
  let rule := if has_end then take (length rule - 1) rule else rule in
  let encoded := if suffix : bool then LF :: rule else if start : bool then rule else CR :: rule in
  let encoded := if has_end then encoded else trim_end_matches DOT encoded ++ [BACKSPACE] in
  if decide (encoded = []) then Err EmptyAdGuardRule else Ok (Domain.reverse_domain encoded).

Definition build_adguard_keys (rules : list text) : result SrsError (list (list Z)) :=
  keys ← Domain.try_fold (fun keys rule => key ← adguard_key rule; Ok (keys ++ [key])) [] rules;
  Ok (Domain.dedup (Domain.sort keys)).

Definition dump_rule (key : list Z) : result SrsError text :=
  value ← Domain.reverse_utf8 key;
  let '(value, is_suffix, has_start) :=
    match strip_prefix [CR] value with
    | Some rest => (rest, false, false)
    | None =>
        match strip_prefix [LF] value with
        | Some rest => (rest, true, false)
        | None => (value, false, true)
        end
    end in
  let '(value, has_end) :=
    if ends_with_byte BACKSPACE value then (removelast value, false) else (value, true) in
  let value := if is_suffix : bool then [BAR; BAR] ++ value else if has_start : bool then BAR :: value else value in
  Ok (if has_end : bool then value ++ [CARET] else value).

Definition dump_adguard_matcher (keys : list (list Z)) : result SrsError (list text) :=
  Domain.try_fold (fun rules key => rule ← dump_rule key; Ok (rules ++ [rule])) [] keys.

(** ** Recovering the rules *)

Definition anchor (pre : text) : Prop := pre = [] \/ pre = [BAR] \/ pre = [BAR; BAR].

(** A pattern of printable ASCII bytes in its normal form: a body without
    the bytes of an anchor at its ends, and no final dot where it is open. *)
Inductive canonical : text -> Prop :=
| canonical_closed pre body : anchor pre -> ascii body -> Domain.printable body ->
    (pre <> [BAR; BAR] -> head body <> Some BAR) -> (pre = [BAR] -> body <> []) ->
    canonical (pre ++ body ++ [CARET])
| canonical_open pre body : anchor pre -> ascii body -> Domain.printable body ->
    (pre <> [BAR; BAR] -> head body <> Some BAR) ->
    last body <> Some CARET -> last body <> Some DOT ->
    canonical (pre ++ body).

Lemma strip_bar_none (s : text) : head s <> Some BAR -> strip_prefix [BAR] s = None /\ strip_prefix [BAR; BAR] s = None.
Proof.
  intros Hs. destruct s as [|b s]; [done|].
  assert (b <> BAR) by (intros ->; done).
  split; [destruct (strip_prefix [BAR] (b :: s)) as [r|] eqn:E
         |destruct (strip_prefix [BAR; BAR] (b :: s)) as [r|] eqn:E]; try done;
    apply strip_prefix_spec in E; simplify_eq/=.
Qed.

Lemma strip_anchor pre s :
  anchor pre -> (pre <> [BAR; BAR] -> head s <> Some BAR) ->
  match strip_prefix [BAR; BAR] (pre ++ s) with
  | Some value => (value, true, false)
  | None => match strip_prefix [BAR] (pre ++ s) with
            | Some value => (value, false, true)
            | None => (pre ++ s, false, false)
            end
  end = (s, bool_decide (pre = [BAR; BAR]), bool_decide (pre = [BAR])).
Proof.
  intros [->|[->| ->]] Hs.
  - destruct (strip_bar_none s) as [E1 E2]; [by apply Hs|]. cbn [app]. by rewrite E1, E2.
  - destruct (strip_bar_none s) as [E1 E2]; [by apply Hs|].
    assert (strip_prefix [BAR; BAR] ([BAR] ++ s) = None) as ->.
    { destruct (strip_prefix [BAR; BAR] ([BAR] ++ s)) as [r|] eqn:E; [|done].
      apply strip_prefix_spec in E. injection E as ->. by destruct (Hs ltac:(done)). }
    assert (strip_prefix [BAR] ([BAR] ++ s) = Some s) as -> by by apply strip_prefix_spec. done.
  - assert (strip_prefix [BAR; BAR] ([BAR; BAR] ++ s) = Some s) as -> by by apply strip_prefix_spec. done.
Qed.

(** The label that stands for the anchor at the start. *)
Definition start_label (pre : text) : text :=
  if decide (pre = [BAR; BAR]) then [LF] else if decide (pre = [BAR]) then [] else [CR].

Lemma adguard_key_closed pre body :
  anchor pre -> (pre <> [BAR; BAR] -> head body <> Some BAR) -> (pre = [BAR] -> body <> []) ->
  adguard_key (pre ++ body ++ [CARET]) = Ok (Domain.reverse_domain (start_label pre ++ body)).
Proof.
  intros Hp Hb Hne. unfold adguard_key. rewrite strip_anchor; [|done|].
  2:{ intros Hn. specialize (Hb Hn). destruct body; done. }
  unfold ends_with_byte. rewrite last_snoc, bool_decide_eq_true_2 by done.
  rewrite length_app, Nat.add_sub, take_app_length.
  unfold start_label. destruct Hp as [->|[->| ->]]; cbn; try done.
  rewrite decide_False; [done|]. by apply Hne.
Qed.

Lemma last_cons_ne (a b : Z) (l : list Z) : a <> b -> last l <> Some b -> last (a :: l) <> Some b.
Proof. intros Ha Hl. destruct l; [by intros [= ->]|done]. Qed.

Lemma adguard_key_open pre body :
  anchor pre -> (pre <> [BAR; BAR] -> head body <> Some BAR) ->
  last body <> Some CARET -> last body <> Some DOT ->
  adguard_key (pre ++ body) = Ok (Domain.reverse_domain (start_label pre ++ body ++ [BACKSPACE])).
Proof.
  intros Hp Hb Hc Hd. unfold adguard_key. rewrite strip_anchor by done.
  unfold ends_with_byte. rewrite (bool_decide_eq_false_2 (last body = _)) by done.
  unfold start_label. destruct Hp as [->|[->| ->]]; cbn [bool_decide decide_rel];
    rewrite trim_end_matches_id by (done || by apply last_cons_ne);
    (rewrite decide_False by by destruct body); done.
Qed.

Lemma last_printable body : Domain.printable body -> last body <> Some BACKSPACE.
Proof.
  intros Hb Hl. apply last_Some in Hl as [l ->]. apply Forall_app in Hb as [_ [Hb _]%Forall_cons].
  unfold CR, BACKSPACE in Hb. lia.
Qed.

(** Undoing the label at the start. *)
Lemma strip_label pre s :
  anchor pre -> (pre = [BAR] -> head s <> Some CR /\ head s <> Some LF) ->
  match strip_prefix [CR] (start_label pre ++ s) with
  | Some rest => (rest, false, false)
  | None => match strip_prefix [LF] (start_label pre ++ s) with
            | Some rest => (rest, true, false)
            | None => (start_label pre ++ s, false, true)
            end
  end = (s, bool_decide (pre = [BAR; BAR]), bool_decide (pre = [BAR])).
Proof.
  intros [->|[->| ->]] Hs; unfold start_label; cbn [decide].
  - assert (strip_prefix [CR] ([CR] ++ s) = Some s) as E by by apply strip_prefix_spec.
    rewrite !decide_False by done. by rewrite E.
  - rewrite decide_False, decide_True by done. cbn [app].
    assert (strip_prefix [CR] s = None /\ strip_prefix [LF] s = None) as [-> ->]; [|done].
    destruct (Hs eq_refl) as [H1 H2].
    split; [destruct (strip_prefix [CR] s) eqn:E|destruct (strip_prefix [LF] s) eqn:E]; try done;
      apply strip_prefix_spec in E as ->; done.
  - rewrite decide_True by done.
    assert (strip_prefix [CR] ([LF] ++ s) = None) as -> by by vm_compute.
    assert (strip_prefix [LF] ([LF] ++ s) = Some s) as -> by by apply strip_prefix_spec. done.
Qed.

Lemma start_label_ascii pre : ascii (start_label pre).
Proof. unfold start_label. repeat case_decide; repeat constructor; unfold LF, CR; lia. Qed.

Lemma printable_head l s : Domain.printable s -> l <= CR -> head s <> Some l.
Proof. intros Hs Hl. destruct s as [|b s]; [done|]. apply Forall_cons in Hs as [Hb _]. intros [= ->]. lia. Qed.

Lemma rebuild pre (v : text) : anchor pre ->
  (if bool_decide (pre = [BAR; BAR]) then [BAR; BAR] ++ v else if bool_decide (pre = [BAR]) then BAR :: v else v)
  = pre ++ v.
Proof. by intros [->|[->| ->]]. Qed.

(** The key of a pattern gives the pattern back. *)
Lemma dump_key_of_rule r : canonical r -> exists key, adguard_key r = Ok key /\ dump_rule key = Ok r.
Proof.
  intros [pre body Hp Ha Hpr Hb Hne|pre body Hp Ha Hpr Hb Hc Hd].
  - eexists. split; [by apply adguard_key_closed|]. unfold dump_rule, Domain.reverse_domain.
    assert (ascii (start_label pre ++ body)) by (apply ascii_app; split; [apply start_label_ascii|done]).
    rewrite chars_rev_ascii, Domain.reverse_utf8_rev by done. rbind.
    rewrite strip_label by (done || intros _; split; apply printable_head; done || unfold LF, CR; lia).
    unfold ends_with_byte. rewrite bool_decide_eq_false_2 by by apply last_printable.
    by rewrite rebuild, <-app_assoc.
  - eexists. split; [by apply adguard_key_open|]. unfold dump_rule, Domain.reverse_domain.
    assert (ascii (start_label pre ++ body ++ [BACKSPACE])).
    { rewrite !ascii_app. split; [apply start_label_ascii|]. split; [done|]. repeat constructor; unfold BACKSPACE; lia. }
    rewrite chars_rev_ascii, Domain.reverse_utf8_rev by done. rbind.
    rewrite strip_label; [|done|].
    2:{ intros _. destruct body as [|b body]; [done|].
        split; apply (printable_head _ (b :: body)); done || unfold LF, CR; lia. }
    unfold ends_with_byte. rewrite last_snoc, bool_decide_eq_true_2 by done. rewrite removelast_last.
    by rewrite rebuild.
Qed.

Lemma push_all {A B} (f : A -> result SrsError B) acc l ys :
  Forall2 (fun x y => f x = Ok y) l ys ->
  Domain.try_fold (fun acc x => y ← f x; Ok (acc ++ [y])) acc l = Ok (acc ++ ys).
Proof.
  intros H. revert acc. induction H as [|x y l ys Hx _ IH]; intros acc; cbn; [by rewrite app_nil_r|].
  rewrite Hx. rbind. rewrite IH. by rewrite <-app_assoc.
Qed.

(** AdGuard patterns survive compilation: the keys of patterns in their
    normal form are built, and the patterns dumped from the keys are exactly
    the patterns compiled, whatever their order and duplicates. *)
Theorem adguard_round_trip (rules : list text) :
  Forall canonical rules ->
  exists keys rules', build_adguard_keys rules = Ok keys /\ dump_adguard_matcher keys = Ok rules'
    /\ Trie.sorted keys /\ forall r, r ∈ rules' <-> r ∈ rules.
Proof.
  intros Hr.
  assert (exists keys, Forall2 (fun r k => adguard_key r = Ok k /\ dump_rule k = Ok r) rules keys) as [ks Hks].
  { induction Hr as [|r rules Hr _ (ks & IH)]; [by exists []|].
    destruct (dump_key_of_rule r Hr) as (k & E1 & E2). exists (k :: ks). by constructor. }
  unfold build_adguard_keys. rewrite (push_all adguard_key [] rules ks).
  2:{ eapply Forall2_impl; [exact Hks|]. by intros r k [? _]. }
  rbind. cbn [app]. set (keys := Domain.dedup (Domain.sort ks)).
  assert (forall k, k ∈ keys <-> k ∈ ks) as Hk by (intros k; apply Domain.elem_of_dedup_sort).
  assert (exists rules', Forall2 (fun k r => dump_rule k = Ok r) keys rules') as [rules' Hd].
  { assert (Forall (fun k => exists r, dump_rule k = Ok r) keys) as Hf.
    { apply Forall_forall. intros k Hin%Hk. apply list_elem_of_lookup in Hin as [i Hi].
      apply (Forall2_lookup_r _ _ _ _ _ Hks) in Hi as (r & _ & _ & ?). by exists r. }
    clearbody keys. clear Hk.
    induction Hf as [|k l [r Hr1] _ (rs & IH)]; [by exists []|]. exists (r :: rs). by constructor. }
  exists keys, rules'. split; [done|]. split; [by apply (push_all dump_rule [])|].
  split; [apply Domain.dedup_sorted, Domain.sort_sorted|]. intros r. split.
  - intros [i Hi]%list_elem_of_lookup. apply (Forall2_lookup_r _ _ _ _ _ Hd) in Hi as (k & Hik & Er).
    apply list_elem_of_lookup_2, Hk, list_elem_of_lookup in Hik as [j Hj].
    apply (Forall2_lookup_r _ _ _ _ _ Hks) in Hj as (r' & Hr' & _ & Er').
    rewrite Er in Er'. simplify_eq. by eapply list_elem_of_lookup_2.
  - intros [j Hj]%list_elem_of_lookup. apply (Forall2_lookup_l _ _ _ _ _ Hks) in Hj as (k & Hk' & _ & Er).
    apply list_elem_of_lookup_2, Hk, list_elem_of_lookup in Hk' as [i Hi].
    apply (Forall2_lookup_l _ _ _ _ _ Hd) in Hi as (r' & Hr' & Er').
    rewrite Er in Er'. simplify_eq. by eapply list_elem_of_lookup_2.
Qed.

(** [||a.b^] and [|ad*]. *)
Lemma adguard_round_trip_witness :
  exists keys rules', build_adguard_keys [[124; 124; 97; 46; 98; 94]; [124; 97; 100; 42]] = Ok keys
    /\ dump_adguard_matcher keys = Ok rules' /\ [124; 97; 100; 42] ∈ rules'.
Proof.
  destruct (adguard_round_trip [[124; 124; 97; 46; 98; 94]; [124; 97; 100; 42]])
    as (keys & rules' & E1 & E2 & _ & Hr).
  - constructor; [|constructor; [|constructor]].
    + apply (canonical_closed [BAR; BAR] [97; 46; 98]); [by right; right|repeat constructor; lia| |done|done].
      repeat constructor; unfold CR; lia.
    + apply (canonical_open [BAR] [97; 100; 42]); [by right; left|repeat constructor; lia| |done|done|done].
      repeat constructor; unfold CR; lia.
  - exists keys, rules'. split; [done|]. split; [done|]. apply Hr. right. left.
Defined.

End AdGuard.
