(* ===== verification/SrsRule.v ===== *)
(** * Rules of the binary rule-set format

    [route/srs.rs] writes the rules of a rule-set, which are JSON objects, as
    a list of numbered items, and reads such a list as rules whose names stay
    in succinct sets.  This file holds the writer, the reader and the recovery
    of JSON from what was read; the values of [serde_json] are data, with the
    fields of an object in the order of insertion. *)

From stdpp Require Import base numbers list gmap strings.
From Stdlib Require Import ZArith Lia.
From S2P Require Import Prelude OvpnText Text IpText SrsWire SrsIpSet SrsSet SrsTrie SrsDomain SrsAdGuard.

Local Open Scope Z_scope.

(** ** JSON *)

(** A number is its integer value, or [None] for one that is not an integer. *)
Inductive Value : Type :=
| VNull
| VBool (b : bool)
| VNumber (n : option Z)
| VString (s : text)
| VArray (l : list Value)
| VObject (l : list (text * Value)).

Definition Map : Type := list (text * Value).

Module Json.

Fixpoint get (o : Map) (key : text) : option Value :=
  match o with
  | [] => None
  | (k, v) :: o => if decide (k = key) then Some v else get o key
  end.

(** A field that exists is replaced in place, another one is appended. *)
Fixpoint insert (o : Map) (key : text) (value : Value) : Map :=
  match o with
  | [] => [(key, value)]
  | (k, v) :: o => if decide (k = key) then (k, value) :: o else (k, v) :: insert o key value
  end.

Definition as_object (v : Value) : option Map := match v with VObject o => Some o | _ => None end.
Definition as_array (v : Value) : option (list Value) := match v with VArray l => Some l | _ => None end.
Definition as_str (v : Value) : option text := match v with VString s => Some s | _ => None end.
Definition as_bool (v : Value) : option bool := match v with VBool b => Some b | _ => None end.

(** [as_u64] followed by [u16::try_from]. *)
Definition as_u16 (v : Value) : option Z :=
  match v with
  | VNumber (Some n) => if decide (0 <= n <= 65535) then Some n else None
  | _ => None
  end.

(** The elements of a list that may be written as [null] or one element. *)
Definition elements (v : Value) : list Value :=
  match v with
  | VNull => []
  | VArray l => l
  | v => [v]
  end.

End Json.

(** A literal of the source. *)
Definition str (s : string) : text := OvpnText.Text.bytes_of s.

(** ** DNS query types, of [option/types.rs] *)

Module QueryType.

Definition types : list (string * Z) :=
  [("A", 1); ("NS", 2); ("CNAME", 5); ("SOA", 6); ("PTR", 12); ("MX", 15); ("TXT", 16); ("AAAA", 28);
   ("SRV", 33); ("NAPTR", 35); ("DS", 43); ("RRSIG", 46); ("NSEC", 47); ("DNSKEY", 48); ("TLSA", 52);
   ("SVCB", 64); ("HTTPS", 65); ("CAA", 257)].

Definition dns_type_number (name : text) : option Z :=
  snd ∘ snd <$> list_find (fun '(n, _) => str n = to_ascii_uppercase name) types.

Definition dns_type_name (value : Z) : option text :=
  str ∘ fst ∘ snd <$> list_find (fun '(_, v) => v = value) types.

Definition deserialize (v : Value) : option Z :=
  match v with
  | VString name => dns_type_number name
  | v => Json.as_u16 v
  end.

Definition serialize (value : Z) : Value :=
  match dns_type_name value with
  | Some name => VString name
  | None => VNumber (Some value)
  end.

End QueryType.

(** ** Items *)

Definition VERSION_CURRENT : Z := 5.
Definition MAGIC : list Z := [83; 82; 83].

Definition ITEM_QUERY_TYPE : Z := 0.
Definition ITEM_NETWORK : Z := 1.
Definition ITEM_DOMAIN : Z := 2.
Definition ITEM_DOMAIN_KEYWORD : Z := 3.
Definition ITEM_DOMAIN_REGEX : Z := 4.
Definition ITEM_SOURCE_IP_CIDR : Z := 5.
Definition ITEM_IP_CIDR : Z := 6.
Definition ITEM_SOURCE_PORT : Z := 7.
Definition ITEM_SOURCE_PORT_RANGE : Z := 8.
Definition ITEM_PORT : Z := 9.
Definition ITEM_PORT_RANGE : Z := 10.
Definition ITEM_PROCESS_NAME : Z := 11.
Definition ITEM_PROCESS_PATH : Z := 12.
Definition ITEM_PACKAGE_NAME : Z := 13.
Definition ITEM_WIFI_SSID : Z := 14.
Definition ITEM_WIFI_BSSID : Z := 15.
Definition ITEM_ADGUARD_DOMAIN : Z := 16.
Definition ITEM_PROCESS_PATH_REGEX : Z := 17.
Definition ITEM_NETWORK_TYPE : Z := 18.
Definition ITEM_NETWORK_IS_EXPENSIVE : Z := 19.
Definition ITEM_NETWORK_IS_CONSTRAINED : Z := 20.
Definition ITEM_NETWORK_INTERFACE_ADDRESS : Z := 21.
Definition ITEM_DEFAULT_INTERFACE_ADDRESS : Z := 22.
Definition ITEM_PACKAGE_NAME_REGEX : Z := 23.
Definition ITEM_FINAL : Z := 255.

(** The compressed part of a file, by the crate [flate2]: [deflate] writes it,
    and [inflate] is what its reader yields before it ends or fails. *)
Class Zlib := {
  deflate : list Z -> list Z;
  inflate : list Z -> list Z;
}.

Class ZlibLaws `{!Zlib} : Prop := { inflate_deflate payload : inflate (deflate payload) = payload }.

(** ** The writer *)

Module Writer.
Import Json.

(** What is written goes to a vector, so an error leaves nothing. *)
Definition writer : Type := result SrsError (list Z).

Definition seq (a b : writer) : writer := x ← a; y ← b; Ok (x ++ y).
Infix "+++" := seq (at level 60, right associativity).

Definition value_strings (v : Value) : result SrsError (list text) :=
  mapM (fun v => ok_or NotAString (as_str v)) (elements v).

Definition string_values (o : Map) (key : text) : result SrsError (list text) :=
  match get o key with
  | None => Ok []
  | Some v => value_strings v
  end.

Definition u16_values (o : Map) (key : text) : result SrsError (list Z) :=
  match get o key with
  | None => Ok []
  | Some v => mapM (fun v => ok_or NotAUint16 (as_u16 v)) (elements v)
  end.

Definition dns_query_type_values (o : Map) : result SrsError (list Z) :=
  match get o (str "query_type") with
  | None => Ok []
  | Some v => mapM (fun v => ok_or InvalidQueryType (QueryType.deserialize v)) (elements v)
  end.

Definition bool_value (o : Map) (key : text) : result SrsError bool :=
  match get o key with
  | None => Ok false
  | Some v => ok_or NotABoolean (as_bool v)
  end.

Definition write_string (s : text) : list Z := Wire.write_length s ++ s.

Definition write_string_item (item : Z) (values : list text) : list Z :=
  [item] ++ Wire.write_length values ++ concat (write_string <$> values).

Definition write_optional_string_item (o : Map) (key : text) (item : Z) : writer :=
  values ← string_values o key;
  Ok (if decide (values = []) then [] else write_string_item item values).

Definition write_u16_item (item : Z) (values : list Z) : list Z := [item] ++ Wire.write_u16_slice values.

Definition write_optional_u16_item (o : Map) (key : text) (item : Z) : writer :=
  values ← u16_values o key;
  Ok (if decide (values = []) then [] else write_u16_item item values).

Definition write_u8_item (item : Z) (values : list Z) : list Z := [item] ++ Wire.write_length values ++ values.

Definition interface_type_id (value : text) : result SrsError Z :=
  if decide (value = str "wifi") then Ok 0
  else if decide (value = str "cellular") then Ok 1
  else if decide (value = str "ethernet") then Ok 2
  else if decide (value = str "other") then Ok 3
  else Err UnknownInterfaceType.

(** An item that only versions from [minimum] on have. *)
Definition since (version minimum : Z) (w : writer) : writer :=
  if decide (version < minimum) then Err (RequiresVersion minimum) else w.

Section write.
Context {NX : IpNetOps}.

Definition write_query_types (o : Map) : writer :=
  values ← dns_query_type_values o;
  Ok (if decide (values = []) then [] else write_u16_item ITEM_QUERY_TYPE values).

Definition write_domains (o : Map) (version : Z) : writer :=
  domains ← string_values o (str "domain");
  suffixes ← string_values o (str "domain_suffix");
  if decide (domains = [] /\ suffixes = []) then Ok []
  else
    keys ← Domain.build_domain_keys domains suffixes (bool_decide (version = 1));
    Ok [ITEM_DOMAIN] +++ Succinct.write_succinct_set keys.

Definition write_optional_ip_set (o : Map) (key : text) (item : Z) : writer :=
  prefixes ← string_values o key; IpSet.write_optional_ip_set item prefixes.

Definition write_package_regex (o : Map) (version : Z) : writer :=
  values ← string_values o (str "package_name_regex");
  if decide (values = []) then Ok [] else since version 5 (Ok (write_string_item ITEM_PACKAGE_NAME_REGEX values)).

Definition write_network_types (o : Map) (version : Z) : writer :=
  values ← string_values o (str "network_type");
  if decide (values = []) then Ok []
  else since version 3 (ids ← mapM interface_type_id values; Ok (write_u8_item ITEM_NETWORK_TYPE ids)).

Definition write_flag (o : Map) (key : text) (item version : Z) : writer :=
  b ← bool_value o key; if b : bool then since version 3 (Ok [item]) else Ok [].

(** The prefixes of an interface address. *)
Fixpoint write_prefixes (prefixes : list text) : writer :=
  match prefixes with
  | [] => Ok []
  | prefix :: prefixes => IpSet.write_prefix prefix +++ write_prefixes prefixes
  end.

Fixpoint write_interfaces (addresses : list (text * Value)) : writer :=
  match addresses with
  | [] => Ok []
  | (kind, prefixes) :: addresses =>
      id ← interface_type_id kind;
      prefixes ← value_strings prefixes;
      (Ok ([id] ++ Wire.write_length prefixes) +++ write_prefixes prefixes) +++ write_interfaces addresses
  end.

Definition write_network_interfaces (o : Map) (version : Z) : writer :=
  match get o (str "network_interface_address") with
  | None => Ok []
  | Some v =>
      addresses ← ok_or NotAnObject (as_object v);
      if decide (addresses = []) then Ok []
      else since version 4
             (Ok ([ITEM_NETWORK_INTERFACE_ADDRESS] ++ Wire.write_length addresses) +++ write_interfaces addresses)
  end.

Definition write_default_interfaces (o : Map) (version : Z) : writer :=
  values ← string_values o (str "default_interface_address");
  if decide (values = []) then Ok []
  else since version 4
         (Ok ([ITEM_DEFAULT_INTERFACE_ADDRESS] ++ Wire.write_length values) +++ write_prefixes values).

Definition write_adguard (o : Map) (version : Z) : writer :=
  values ← string_values o (str "adguard_domain");
  if decide (values = []) then Ok []
  else since version 2
         (keys ← AdGuard.build_adguard_keys values; Ok [ITEM_ADGUARD_DOMAIN] +++ Succinct.write_succinct_set keys).

Definition write_final (o : Map) : writer :=
  invert ← bool_value o (str "invert"); Ok [ITEM_FINAL; Z.b2z invert].

Definition write_default_rule (o : Map) (version : Z) : writer :=
  Ok [0] +++ write_query_types o
  +++ write_optional_string_item o (str "network") ITEM_NETWORK
  +++ write_domains o version
  +++ write_optional_string_item o (str "domain_keyword") ITEM_DOMAIN_KEYWORD
  +++ write_optional_string_item o (str "domain_regex") ITEM_DOMAIN_REGEX
  +++ write_optional_ip_set o (str "source_ip_cidr") ITEM_SOURCE_IP_CIDR
  +++ write_optional_ip_set o (str "ip_cidr") ITEM_IP_CIDR
  +++ write_optional_u16_item o (str "source_port") ITEM_SOURCE_PORT
  +++ write_optional_string_item o (str "source_port_range") ITEM_SOURCE_PORT_RANGE
  +++ write_optional_u16_item o (str "port") ITEM_PORT
  +++ write_optional_string_item o (str "port_range") ITEM_PORT_RANGE
  +++ write_optional_string_item o (str "process_name") ITEM_PROCESS_NAME
  +++ write_optional_string_item o (str "process_path") ITEM_PROCESS_PATH
  +++ write_optional_string_item o (str "process_path_regex") ITEM_PROCESS_PATH_REGEX
  +++ write_optional_string_item o (str "package_name") ITEM_PACKAGE_NAME
  +++ write_package_regex o version
  +++ write_network_types o version
  +++ write_flag o (str "network_is_expensive") ITEM_NETWORK_IS_EXPENSIVE version
  +++ write_flag o (str "network_is_constrained") ITEM_NETWORK_IS_CONSTRAINED version
  +++ write_network_interfaces o version
  +++ write_default_interfaces o version
  +++ write_optional_string_item o (str "wifi_ssid") ITEM_WIFI_SSID
  +++ write_optional_string_item o (str "wifi_bssid") ITEM_WIFI_BSSID
  +++ write_adguard o version
  +++ write_final o.

Fixpoint write_all (write : Value -> writer) (rules : list Value) : writer :=
  match rules with
  | [] => Ok []
  | rule :: rules => write rule +++ write_all write rules
  end.

Definition kind_of (o : Map) : text := default [] (get o (str "type") ≫= as_str).

(** [levels] more levels of rules are accepted, 101 at the top. *)
Fixpoint write_rule (levels : nat) (version : Z) (rule : Value) : writer :=
  match levels with
  | O => Err NestedTooDeep
  | S levels =>
      o ← ok_or NotAnObject (as_object rule);
      let kind := kind_of o in
      if decide (kind = [] \/ kind = str "default") then write_default_rule o version
      else if decide (kind = str "logical") then
        mode ← match get o (str "mode") ≫= as_str with
               | Some mode =>
                   if decide (mode = str "and") then Ok 0
                   else if decide (mode = str "or") then Ok 1
                   else Err UnknownLogicalMode
               | None => Err MissingMode
               end;
        rules ← ok_or MissingRules (get o (str "rules") ≫= as_array);
        Ok ([1; mode] ++ Wire.write_length rules) +++ write_all (write_rule levels version) rules
        +++ (invert ← bool_value o (str "invert"); Ok [Z.b2z invert])
      else Err UnknownRuleType
  end.

Definition LEVELS : nat := 101.

Context {ZX : Zlib}.

Definition write (rules : list Value) (version : Z) : writer :=
  if decide (1 <= version <= VERSION_CURRENT) then
    payload ← Ok (Wire.write_length rules) +++ write_all (write_rule LEVELS version) rules;
    Ok (MAGIC ++ [version] ++ deflate payload)
  else Err (UnsupportedVersion version).
End write.

(** ** The oldest version that has every field *)

Definition present (v : Value) : bool :=
  match v with
  | VArray l => negb (bool_decide (length l = 0%nat))
  | VObject o => negb (bool_decide (length o = 0%nat))
  | VNull => false
  | _ => true
  end.

Definition truthy (v : Value) : bool := default false (as_bool v).

(** A field of the rule or of a rule inside it that passes the test. *)
Fixpoint has_recursive (test : Value -> bool) (field : text) (rule : Value) : bool :=
  match rule with
  | VObject o =>
      match get o field with Some v => test v | None => false end
      || (fix children (l : list (text * Value)) : bool :=
            match l with
            | [] => false
            | (k, v) :: l =>
                if decide (k = str "rules") then
                  match v with VArray rules => existsb (has_recursive test field) rules | _ => false end
                else children l
            end) o
  | _ => false
  end.

Definition has_field_recursive (rules : list Value) (field : text) : bool :=
  existsb (has_recursive present field) rules.

Definition has_truthy_recursive (rules : list Value) (field : text) : bool :=
  existsb (has_recursive truthy field) rules.

Definition downgrade_version (rules : list Value) (version : Z) : Z :=
  let version :=
    if decide (version = 5 /\ has_field_recursive rules (str "package_name_regex") = false) then 4 else version in
  let version :=
    if decide (version = 4 /\ has_field_recursive rules (str "network_interface_address") = false
               /\ has_field_recursive rules (str "default_interface_address") = false) then 3 else version in
  if decide (version = 3 /\ has_field_recursive rules (str "network_type") = false
             /\ has_truthy_recursive rules (str "network_is_expensive") = false
             /\ has_truthy_recursive rules (str "network_is_constrained") = false) then 2 else version.

End Writer.

(** ** The reader *)

Inductive RuntimeLogicalMode : Type := RAnd | ROr.

Record RuntimeDefaultRule : Type := mkRuntime {
  value : Map;
  rt_domain : option SuccinctSet;
  rt_adguard : option SuccinctSet;
}.

Inductive RuntimeRule : Type :=
| RuntimeDefault (rule : RuntimeDefaultRule)
| RuntimeLogical (mode : RuntimeLogicalMode) (rules : list RuntimeRule) (invert : bool).

Module Reader.
Import Json Wire.

Definition interface_type_name (value : Z) : result SrsError text :=
  if decide (value = 0) then Ok (str "wifi")
  else if decide (value = 1) then Ok (str "cellular")
  else if decide (value = 2) then Ok (str "ethernet")
  else if decide (value = 3) then Ok (str "other")
  else Err UnknownInterfaceType.

Definition insert_array (o : Map) (key : text) (values : list Value) : Map :=
  if decide (length values = 0%nat) then o else insert o key (VArray values).

Definition read_string : reader text :=
  bytes ← read_byte_slice; if utf8_valid bytes then mret bytes else throw InvalidUtf8.

Definition read_string_slice : reader (list text) := count ← read_length; read_many count read_string.

Definition read_interface : reader (text * list text) :=
  id ← read_u8;
  kind ← lift (interface_type_name id);
  count ← read_length;
  prefixes ← read_many count IpSet.read_prefix;
  mret (kind, prefixes).

(** The fields that hold a list of strings. *)
Definition string_field (item : Z) : option text :=
  str ∘ snd ∘ snd <$> list_find (fun '(i, _) => i = item)
    [(ITEM_NETWORK, "network"); (ITEM_DOMAIN_KEYWORD, "domain_keyword"); (ITEM_DOMAIN_REGEX, "domain_regex");
     (ITEM_SOURCE_PORT_RANGE, "source_port_range"); (ITEM_PORT_RANGE, "port_range");
     (ITEM_PROCESS_NAME, "process_name"); (ITEM_PROCESS_PATH, "process_path");
     (ITEM_PROCESS_PATH_REGEX, "process_path_regex"); (ITEM_PACKAGE_NAME, "package_name");
     (ITEM_PACKAGE_NAME_REGEX, "package_name_regex"); (ITEM_WIFI_SSID, "wifi_ssid"); (ITEM_WIFI_BSSID, "wifi_bssid")].

(** One round of the loop, for an item that is not the last one. *)
Definition read_item (item : Z) (last_item : option Z) (rule : RuntimeDefaultRule) : reader RuntimeDefaultRule :=
  let '(mkRuntime o domain adguard) := rule in
  let field key values := mkRuntime (insert_array o (str key) values) domain adguard in
  match string_field item with
  | Some key => values ← read_string_slice; mret (mkRuntime (insert_array o key (VString <$> values)) domain adguard)
  | None =>
      if decide (item = ITEM_QUERY_TYPE) then
        values ← read_u16_slice;
        mret (mkRuntime (insert o (str "query_type") (VArray (QueryType.serialize <$> values))) domain adguard)
      else if decide (item = ITEM_DOMAIN) then set ← Succinct.read_set; mret (mkRuntime o (Some set) adguard)
      else if decide (item = ITEM_SOURCE_IP_CIDR) then
        values ← IpSet.read_ip_set; mret (field "source_ip_cidr" (VString <$> values))
      else if decide (item = ITEM_IP_CIDR) then
        values ← IpSet.read_ip_set; mret (field "ip_cidr" (VString <$> values))
      else if decide (item = ITEM_SOURCE_PORT) then
        values ← read_u16_slice; mret (field "source_port" ((fun p => VNumber (Some p)) <$> values))
      else if decide (item = ITEM_PORT) then
        values ← read_u16_slice; mret (field "port" ((fun p => VNumber (Some p)) <$> values))
      else if decide (item = ITEM_ADGUARD_DOMAIN) then set ← Succinct.read_set; mret (mkRuntime o domain (Some set))
      else if decide (item = ITEM_NETWORK_TYPE) then
        ids ← read_u8_slice;
        values ← lift (mapM interface_type_name ids);
        mret (field "network_type" (VString <$> values))
      else if decide (item = ITEM_NETWORK_IS_EXPENSIVE) then
        mret (mkRuntime (insert o (str "network_is_expensive") (VBool true)) domain adguard)
      else if decide (item = ITEM_NETWORK_IS_CONSTRAINED) then
        mret (mkRuntime (insert o (str "network_is_constrained") (VBool true)) domain adguard)
      else if decide (item = ITEM_NETWORK_INTERFACE_ADDRESS) then
        count ← read_length;
        interfaces ← read_many count read_interface;
        let addresses := foldl (fun addresses '(kind, prefixes) =>
          insert addresses kind (VArray (VString <$> prefixes))) [] interfaces in
        mret (mkRuntime (insert o (str "network_interface_address") (VObject addresses)) domain adguard)
      else if decide (item = ITEM_DEFAULT_INTERFACE_ADDRESS) then
        count ← read_length;
        prefixes ← read_many count IpSet.read_prefix;
        mret (field "default_interface_address" (VString <$> prefixes))
      else throw (UnknownItem item last_item)
  end.

(** The loop, [fuel] rounds at most; every round reads a byte. *)
Fixpoint read_items (fuel : nat) (last_item : option Z) (rule : RuntimeDefaultRule) : reader RuntimeDefaultRule :=
  match fuel with
  | O => throw Unfinished
  | S fuel =>
      item ← read_u8;
      if decide (item = ITEM_FINAL) then
        invert ← read_u8;
        mret (if decide (invert = 0) then rule
              else mkRuntime (insert (value rule) (str "invert") (VBool true)) (rt_domain rule) (rt_adguard rule))
      else
        rule ← read_item item last_item rule;
        read_items fuel (Some item) rule
  end.

Definition read_runtime_default_rule : reader RuntimeRule := fun r =>
  (rule ← read_items (S (length r)) None (mkRuntime [] None None); mret (RuntimeDefault rule)) r.

(** [levels] more levels of rules are accepted, 101 at the top. *)
Fixpoint read_runtime_rule (levels : nat) : reader RuntimeRule :=
  match levels with
  | O => throw NestedTooDeep
  | S levels =>
      kind ← read_u8;
      if decide (kind = 0) then read_runtime_default_rule
      else if decide (kind = 1) then
        mode ← read_u8;
        mode ← (if decide (mode = 0) then mret RAnd
                else if decide (mode = 1) then mret ROr else throw UnknownLogicalMode);
        count ← read_length;
        rules ← read_many count (read_runtime_rule levels);
        invert ← read_u8;
        mret (RuntimeLogical mode rules (negb (bool_decide (invert = 0))))
      else throw UnknownRuleType
  end.

Definition read_rules : reader (list RuntimeRule) :=
  count ← read_length; read_many count (read_runtime_rule Writer.LEVELS).

Section read.
Context {ZX : Zlib}.

Definition read_runtime_with_version (content : list Z) : result SrsError (Z * list RuntimeRule) :=
  match read_exact 3 content with
  | (Ok magic, outer) =>
      if decide (magic <> MAGIC) then Err InvalidMagic
      else
        match read_u8 outer with
        | (Ok version, outer) =>
            if decide (version > VERSION_CURRENT) then Err (UnsupportedVersion version)
            else
              rules ← (read_rules (inflate outer)).1;
              Ok (version, rules)
        | (Err e, _) => Err e
        end
  | (Err e, _) => Err e
  end.

Definition read_runtime (content : list Z) : result SrsError (list RuntimeRule) :=
  '(_, rules) ← read_runtime_with_version content; Ok rules.

(** ** JSON again *)

Definition recover_default (rule : RuntimeDefaultRule) : result SrsError Value :=
  o ← match rt_domain rule with
      | None => Ok (value rule)
      | Some set =>
          keys ← Succinct.keys set;
          '(domains, suffixes) ← Domain.dump_domain_matcher keys;
          Ok (insert_array (insert_array (value rule) (str "domain") (VString <$> domains))
                (str "domain_suffix") (VString <$> suffixes))
      end;
  o ← match rt_adguard rule with
      | None => Ok o
      | Some set =>
          keys ← Succinct.keys set;
          rules ← AdGuard.dump_adguard_matcher keys;
          Ok (insert_array o (str "adguard_domain") (VString <$> rules))
      end;
  Ok (VObject o).

Fixpoint recover (rule : RuntimeRule) : result SrsError Value :=
  match rule with
  | RuntimeDefault rule => recover_default rule
  | RuntimeLogical mode rules invert =>
      rules ← mapM recover rules;
      let o := insert [] (str "type") (VString (str "logical")) in
      let o := insert o (str "mode") (VString (match mode with RAnd => str "and" | ROr => str "or" end)) in
      let o := insert o (str "rules") (VArray rules) in
      Ok (VObject (if invert then insert o (str "invert") (VBool true) else o))
  end.

Definition read_with_version (content : list Z) : result SrsError (Z * list Value) :=
  '(version, rules) ← read_runtime_with_version content;
  rules ← mapM recover rules;
  Ok (version, rules).
End read.

End Reader.

(** ** Every content is decoded or rejected *)

Module Total.
Import Json Wire Reader.

(** At [r] the reader does not run out of rounds, and what it leaves is a rest
    of what it was given. *)
Definition settles {A} (m : reader A) (r : list Z) : Prop :=
  match m r with
  | (Ok _, r') => r' `suffix_of` r
  | (Err e, _) => e <> Unfinished
  end.

Definition settled {A} (m : reader A) : Prop := forall r, bytes_ok r -> settles m r.

Lemma bytes_ok_rest r r' : r' `suffix_of` r -> bytes_ok r -> bytes_ok r'.
Proof. intros [k ->]. unfold bytes_ok. by intros [_ Hr]%Forall_app. Qed.

Lemma settles_bind {A B} (m : reader A) (f : A -> reader B) r :
  settles m r -> (forall a r', m r = (Ok a, r') -> r' `suffix_of` r -> settles (f a) r') ->
  settles (m ≫= f) r.
Proof.
  intros Hm Hf. unfold settles in *. unfold mbind, method_bind.
  destruct (m r) as [[a|e] r'] eqn:E; [|done]. specialize (Hf a r' eq_refl Hm).
  destruct (f a r') as [[b|e] r'']; [by etrans|done].
Qed.

Lemma settled_bind {A B} (m : reader A) (f : A -> reader B) :
  settled m -> (forall a, settled (f a)) -> settled (m ≫= f).
Proof.
  intros Hm Hf r Hr. apply settles_bind; [by apply Hm|]. intros a r' _ Hs. by eapply Hf, bytes_ok_rest.
Qed.

Lemma settled_ret {A} (a : A) : settled (mret a : reader A).
Proof. intros r _. by exists []. Qed.

Lemma settled_throw {A} e : e <> Unfinished -> settled (throw e : reader A).
Proof. by intros He r _. Qed.

Lemma settled_lift {A} (x : result SrsError A) : x <> Err Unfinished -> settled (lift x).
Proof. intros Hx r _. unfold settles. cbn. destruct x; [done|]. congruence. Qed.

Lemma settled_exact n : settled (read_exact n).
Proof. intros r _. unfold settles, read_exact. case_decide; [apply suffix_drop|done]. Qed.

Lemma settled_many {A} (m : reader A) n : settled m -> settled (read_many n m).
Proof.
  intros Hm. induction n as [|n IH]; [apply settled_ret|]. cbn [read_many].
  apply settled_bind; [done|]. intros x. apply settled_bind; [done|]. intros xs. apply settled_ret.
Qed.

Create HintDb settle.
#[export] Hint Resolve settled_ret settled_exact : settle.

(** Follow the structure of a reader. *)
Ltac settle :=
  repeat first
    [ solve [auto with settle]
    | apply settled_bind; [|intros ?]
    | apply settled_many
    | apply settled_throw; discriminate
    | case_decide
    | match goal with
      | |- settled (if ?b then _ else _) => destruct b
      | |- settled (match ?x with _ => _ end) => destruct x
      | |- settled (let '(_, _) := ?x in _) => destruct x
      end ].

Lemma settled_u8 : settled read_u8.
Proof. unfold read_u8. settle. Qed.
#[export] Hint Resolve settled_u8 : settle.

Lemma settled_uvarint_from steps index acc : settled (read_uvarint_from steps index acc).
Proof. revert index acc. induction steps as [|steps IH]; intros index acc; cbn [read_uvarint_from]; settle. Qed.

Lemma settled_length : settled read_length.
Proof. unfold read_length, read_uvarint. pose proof settled_uvarint_from. settle. Qed.
#[export] Hint Resolve settled_length : settle.

Lemma settled_slices : settled read_u16_slice /\ settled read_u64_slice /\ settled read_byte_slice /\ settled read_u8_slice.
Proof. split_and!; unfold read_u16_slice, read_u64_slice, read_byte_slice, read_u8_slice, read_u16, read_u64_be; settle. Qed.

Lemma settled_ip_addr : settled read_ip_addr.
Proof. unfold read_ip_addr. settle. Qed.
#[export] Hint Resolve settled_ip_addr : settle.

Lemma settled_prefix : settled IpSet.read_prefix.
Proof. unfold IpSet.read_prefix. settle. Qed.
#[export] Hint Resolve settled_prefix : settle.

(** The addresses that are read have their width. *)
Lemma read_ip_addr_ok r a r' : bytes_ok r -> read_ip_addr r = (Ok a, r') -> ip_ok a.
Proof.
  intros Hr (n & r1 & E1 & E)%bind_method_Ok. pose proof (settled_length r Hr) as Hs.
  unfold settles in Hs. rewrite E1 in Hs. pose proof (bytes_ok_rest _ _ Hs Hr) as Hr1.
  assert (forall k r2 bytes, read_exact k r1 = (Ok bytes, r2) -> 0 <= from_be_bytes bytes < 2 ^ (8 * Z.of_nat k)) as Hx.
  { intros k r2 bytes. unfold read_exact. destruct (decide (k <= length r1)%nat); [|done]. intros [= <- _].
    pose proof (from_be_bytes_bound (take k r1) ltac:(by apply Forall_take)) as Hb.
    by rewrite length_take_le in Hb. }
  repeat case_decide; [..|done]; apply bind_method_Ok in E as (bytes & r2 & E2 & [<- _]%mret_Ok);
    exact (Hx _ _ _ E2).
Qed.

Lemma settled_range : settled IpSet.read_range.
Proof.
  intros r Hr. unfold IpSet.read_range. apply settles_bind; [by apply settled_ip_addr|]. intros a r1 E1 S1.
  pose proof (bytes_ok_rest _ _ S1 Hr) as Hr1. apply settles_bind; [by apply settled_ip_addr|]. intros b r2 E2 _.
  pose proof (IpSet.range_to_prefixes_finishes a b (read_ip_addr_ok _ _ _ Hr E1) (read_ip_addr_ok _ _ _ Hr1 E2)) as Hf.
  unfold IpSet.lift. destruct (IpSet.range_to_prefixes a b); [by exists []|]. unfold settles. cbn. congruence.
Qed.
#[export] Hint Resolve settled_range : settle.

Lemma settled_ip_set : settled IpSet.read_ip_set.
Proof. unfold IpSet.read_ip_set, read_u64_be. settle. Qed.
#[export] Hint Resolve settled_ip_set : settle.

Lemma settled_set : settled Succinct.read_set.
Proof.
  destruct settled_slices as (_ & H64 & Hb & _). unfold Succinct.read_set. settle.
Qed.
#[export] Hint Resolve settled_set : settle.

Lemma settled_string_slice : settled read_string_slice.
Proof. destruct settled_slices as (_ & _ & Hb & _). unfold read_string_slice, read_string. settle. Qed.
#[export] Hint Resolve settled_string_slice : settle.

Lemma interface_type_name_error id : interface_type_name id <> Err Unfinished.
Proof. unfold interface_type_name. repeat case_decide; discriminate. Qed.

Lemma settled_interface : settled read_interface.
Proof.
  unfold read_interface. apply settled_bind; [auto with settle|]. intros id.
  apply settled_bind; [apply settled_lift, interface_type_name_error|]. intros kind. settle.
Qed.
#[export] Hint Resolve settled_interface : settle.

Lemma mapM_error {A B} (f : A -> result SrsError B) l :
  (forall x, f x <> Err Unfinished) -> mapM f l <> Err Unfinished.
Proof.
  intros Hf. induction l as [|x l IH]; [done|]. cbn. specialize (Hf x).
  destruct (f x); rbind; [|congruence]. destruct (mapM f l); rbind; [discriminate|]. by intros [= ->].
Qed.

Lemma settled_item item last rule : settled (read_item item last rule).
Proof.
  destruct settled_slices as (H16 & _ & _ & H8). destruct rule as [o domain adguard]. unfold read_item.
  destruct (string_field item); [settle|]. settle.
  apply settled_lift, mapM_error, interface_type_name_error.
Qed.

Lemma read_u8_shorter r b r' : read_u8 r = (Ok b, r') -> (length r' < length r)%nat.
Proof. destruct r as [|x r]; [done|]. intros [= <- <-]. rewrite drop_0. cbn. lia. Qed.

Lemma settles_items fuel last rule r :
  bytes_ok r -> (length r < fuel)%nat -> settles (read_items fuel last rule) r.
Proof.
  revert last rule r. induction fuel as [|fuel IH]; intros last rule r Hb Hf; [lia|]. cbn [read_items].
  apply settles_bind; [by apply settled_u8|]. intros item r1 E Hs. apply read_u8_shorter in E.
  pose proof (bytes_ok_rest _ _ Hs Hb) as Hb1.
  case_decide; [apply settled_bind; [auto with settle| |done]; intros; apply settled_ret|].
  apply settles_bind; [by apply settled_item|]. intros rule' r2 _ Hr.
  apply IH; [by eapply bytes_ok_rest|]. apply suffix_length in Hr. lia.
Qed.

Lemma settled_default : settled read_runtime_default_rule.
Proof.
  intros r Hr. unfold settles, read_runtime_default_rule. apply settles_bind; [apply settles_items; [done|lia]|].
  intros rule r' _ _. by exists [].
Qed.
#[export] Hint Resolve settled_default : settle.

Lemma settled_rule levels : settled (read_runtime_rule levels).
Proof. induction levels as [|levels IH]; cbn [read_runtime_rule]; settle. Qed.

(** C33: Every content is decoded or rejected.  The loop over the items of a
    rule ends within one round more than there are bytes left, the loop that
    splits a range of addresses into prefixes within two rounds more than twice
    the width of the address, and rules are read at most 101 levels deep, so
    that no content of a binary rule-set makes the reader go on for ever.  The
    content is bytes, and so is what the zlib codec makes of it. *)
Theorem read_runtime_finishes {ZX : Zlib} (content : list Z) :
  (forall c, bytes_ok c -> bytes_ok (inflate c)) -> bytes_ok content ->
  (exists version rules, read_runtime_with_version content = Ok (version, rules))
  \/ (exists e, read_runtime_with_version content = Err e /\ e <> Unfinished).
Proof.
  intros Hz Hc. unfold read_runtime_with_version.
  pose proof (settled_exact 3 content Hc) as H3. unfold settles in H3.
  destruct (read_exact 3 content) as [[magic|e] outer]; [|right; eauto].
  case_decide; [right; by eexists|]. pose proof (bytes_ok_rest _ _ H3 Hc) as Ho.
  pose proof (settled_u8 outer Ho) as H1. unfold settles in H1.
  destruct (read_u8 outer) as [[version|e] outer']; [|right; eauto].
  case_decide; [right; by eexists|].
  assert (settled read_rules) as Hr by (unfold read_rules; pose proof settled_rule; settle).
  specialize (Hr (inflate outer') (Hz _ (bytes_ok_rest _ _ H1 Ho))). unfold settles in Hr.
  destruct (read_rules (inflate outer')) as [[rules|e] rest]; cbn; [left; eauto|right; eauto].
Qed.

End Total.

(** ** Older versions *)

Module Versions.
Import Json Writer.

Lemma seq_Ok a b w : seq a b = Ok w <-> exists x y, a = Ok x /\ b = Ok y /\ w = x ++ y.
Proof.
  unfold seq. split.
  - intros (x & Ea & (y & Eb & [= <-])%bind_Ok)%bind_Ok. eauto.
  - by intros (x & y & -> & -> & ->).
Qed.

Lemma has_recursive_children test field o :
  has_recursive test field (VObject o) = false ->
  match get o field with Some v => test v = false | None => True end
  /\ forall rules, get o (str "rules") ≫= as_array = Some rules -> existsb (has_recursive test field) rules = false.
Proof.
  cbn. intros [Hf Hr]%orb_false_iff. split; [by destruct (get o field)|]. intros rules.
  clear Hf. induction o as [|[k v] o IH]; [done|]. cbn in *. case_decide; [|by apply IH].
  destruct v; try done. cbn. by intros [= <-].
Qed.

(** The strings of a field that is not present. *)
Lemma absent_strings o key values :
  match get o key with Some v => present v = false | None => True end ->
  string_values o key = Ok values -> values = [].
Proof.
  unfold string_values, value_strings. destruct (get o key) as [v|]; [|by intros _ [= <-]].
  destruct v as [| | | |l|l]; try done.
  - by intros _ [= <-].
  - destruct l; [by intros _ [= <-]|done].
Qed.

Lemma since_lower version version' minimum w x :
  (version' < minimum <= version -> False) -> version' <= version ->
  since version minimum w = Ok x -> since version' minimum w = Ok x.
Proof. unfold since. intros. case_decide; [done|]. rewrite decide_False; [done|]. lia. Qed.

(** The fields that [version] has and [version'] has not are missing. *)
Definition expressible (version version' : Z) (rules : list Value) : Prop :=
  2 <= version' <= version
  /\ (version' < 5 <= version -> has_field_recursive rules (str "package_name_regex") = false)
  /\ (version' < 4 <= version -> has_field_recursive rules (str "network_interface_address") = false
        /\ has_field_recursive rules (str "default_interface_address") = false)
  /\ (version' < 3 <= version -> has_field_recursive rules (str "network_type") = false
        /\ has_truthy_recursive rules (str "network_is_expensive") = false
        /\ has_truthy_recursive rules (str "network_is_constrained") = false).

Lemma expressible_cons version version' rule rules :
  expressible version version' (rule :: rules) -> expressible version version' [rule] /\ expressible version version' rules.
Proof.
  unfold expressible, has_field_recursive, has_truthy_recursive. cbn [existsb]. intros (Hv & H5 & H4 & H3).
  split; (split; [done|]); split_and!; intros Hlt.
  all: try (specialize (H5 Hlt)); try (specialize (H4 Hlt)); try (specialize (H3 Hlt)).
  all: rewrite ?orb_false_iff in *; tauto.
Qed.

Lemma expressible_children version version' o rules :
  expressible version version' [VObject o] -> get o (str "rules") ≫= as_array = Some rules ->
  expressible version version' rules.
Proof.
  unfold expressible, has_field_recursive, has_truthy_recursive. cbn [existsb]. intros (Hv & H5 & H4 & H3) Er.
  split; [done|]. rewrite !orb_false_r in *. split_and!; intros Hlt.
  - eapply has_recursive_children in H5; [|done]. by apply H5.
  - destruct (H4 Hlt) as [[_ Ha]%has_recursive_children [_ Hb]%has_recursive_children]. auto.
  - destruct (H3 Hlt) as ([_ Ha]%has_recursive_children & [_ Hb]%has_recursive_children & [_ Hc]%has_recursive_children).
    auto.
Qed.

(** What [a] writes, [b] writes. *)
Definition lowers (a b : writer) : Prop := forall w, a = Ok w -> b = Ok w.

Lemma lowers_refl a : lowers a a.
Proof. by intros w. Qed.

Lemma lowers_seq a a' b b' : lowers a a' -> lowers b b' -> lowers (seq a b) (seq a' b').
Proof. intros Ha Hb w (x & y & Ea & Eb & ->)%seq_Ok. apply seq_Ok. exists x, y. auto. Qed.

Lemma lowers_since version version' minimum w :
  version' <= version -> (version' < minimum <= version -> False) ->
  lowers (since version minimum w) (since version' minimum w).
Proof. intros Hv Hm x. by apply since_lower. Qed.

Section lower.
Context {NX : IpNetOps}.
Context (version version' : Z) (o : Map).
Hypothesis Hexpr : expressible version version' [VObject o].

Lemma lowers_field (test : Value -> bool) key minimum (read : result SrsError (list text)) (f : list text -> writer) :
  read = string_values o key -> (version' < minimum <= version -> has_recursive present key (VObject o) = false) ->
  lowers (values ← read; if decide (values = []) then Ok [] else since version minimum (f values))
         (values ← read; if decide (values = []) then Ok [] else since version' minimum (f values)).
Proof.
  intros -> Ha w (values & Ev & Ew)%bind_Ok. rewrite Ev. rbind. destruct (decide (values = [])) as [|Hne]; [done|].
  apply since_lower with version; [|apply Hexpr|done]. intros Hm. apply Hne, (absent_strings o key); [|done].
  by apply (has_recursive_children present key), Ha.
Qed.

Lemma lowers_flag key item :
  (version' < 3 <= version -> has_recursive truthy key (VObject o) = false) ->
  lowers (write_flag o key item version) (write_flag o key item version').
Proof.
  intros Ha w. unfold write_flag. intros ([|] & Eb & Ew)%bind_Ok; rewrite Eb; rbind; [|done].
  apply since_lower with version; [|apply Hexpr|done]. intros Hm.
  specialize (Ha Hm). apply has_recursive_children in Ha as [Ha _]. unfold bool_value in Eb.
  destruct (get o key) as [v|]; [|done]. unfold truthy in Ha. destruct (as_bool v); [|done]. cbn in *. congruence.
Qed.

Lemma lowers_interfaces :
  lowers (write_network_interfaces o version) (write_network_interfaces o version').
Proof.
  intros w. unfold write_network_interfaces. destruct (get o _) as [v|] eqn:Eg; [|done].
  intros (addresses & Ea & Ew)%bind_Ok. rewrite Ea. rbind. destruct (decide (addresses = [])) as [|Hne]; [done|].
  apply since_lower with version; [|apply Hexpr|done]. intros Hm.
  destruct Hexpr as (_ & _ & H4 & _). destruct (H4 Hm) as [H4' _]. unfold has_field_recursive in H4'.
  cbn [existsb] in H4'. rewrite orb_false_r in H4'. apply has_recursive_children in H4' as [Hp _].
  rewrite Eg in Hp. destruct v as [| | | |l|[|]]; try done. cbn in Ea. by simplify_eq.
Qed.

Lemma lowers_default : lowers (write_default_rule o version) (write_default_rule o version').
Proof.
  pose proof Hexpr as (Hv & H5 & H4 & H3). unfold has_field_recursive, has_truthy_recursive in *.
  cbn [existsb] in *. rewrite !orb_false_r in *.
  assert (bool_decide (version = 1) = bool_decide (version' = 1)) as E1 by (apply bool_decide_ext; lia).
  unfold write_default_rule. repeat (apply lowers_seq; [try apply lowers_refl|]); try apply lowers_refl.
  - unfold write_domains. rewrite E1. apply lowers_refl.
  - by apply (lowers_field present (str "package_name_regex") 5).
  - apply (lowers_field present (str "network_type") 3); [done|]. intros Hm. by apply H3.
  - apply lowers_flag. intros Hm. by apply H3.
  - apply lowers_flag. intros Hm. by apply H3.
  - apply lowers_interfaces.
  - apply (lowers_field present (str "default_interface_address") 4); [done|]. intros Hm. by apply H4.
  - apply (lowers_field present (str "adguard_domain") 2); [done|]. lia.
Qed.
End lower.

Section file.
Context {NX : IpNetOps}.

Lemma lowers_all version version' (f g : Value -> writer) rules :
  (forall rule, expressible version version' [rule] -> lowers (f rule) (g rule)) ->
  expressible version version' rules -> lowers (write_all f rules) (write_all g rules).
Proof.
  intros Hf. induction rules as [|rule rules IH]; [by intros _ w|]. intros [Hr Hs]%expressible_cons.
  apply lowers_seq; auto.
Qed.

Lemma lowers_rule levels version version' rule :
  expressible version version' [rule] -> lowers (write_rule levels version rule) (write_rule levels version' rule).
Proof.
  revert rule. induction levels as [|levels IH]; intros rule He; [done|]. intros w. cbn [write_rule].
  intros (o & Eo & Ew)%bind_Ok. destruct rule; try done. injection Eo as ->.
  cbn [as_object ok_or]. rbind. cbv zeta in *.
  case_decide; [by apply (lowers_default version)|]. case_decide; [|done].
  apply bind_Ok in Ew as (mode & -> & (rules & Er & Ew)%bind_Ok). rbind. rewrite Er. rbind. revert Ew.
  apply lowers_seq; [apply lowers_refl|]. apply lowers_seq; [|apply lowers_refl].
  apply (lowers_all version version'); [done|]. eapply expressible_children; [done|].
  by destruct (get o (str "rules") ≫= as_array); simplify_eq/=.
Qed.

Lemma downgrade_expressible rules version :
  2 <= version <= 5 -> expressible version (downgrade_version rules version) rules.
Proof.
  intros Hv. unfold downgrade_version, expressible.
  repeat case_decide; split_and!; intros; try lia; tauto.
Qed.

Context {ZX : Zlib}.

(** A rule-set is written in the oldest version that has its fields, and
    nothing else changes.  Whenever the rules can be written in a version,
    the version chosen for them is not newer, the rules can be written in it,
    and the payload is the same byte for byte. *)
Theorem downgrade_keeps_payload (rules : list Value) (version : Z) (bytes : list Z) :
  write rules version = Ok bytes ->
  let version' := downgrade_version rules version in
  1 <= version' <= version
  /\ exists payload, bytes = MAGIC ++ [version] ++ deflate payload
     /\ write rules version' = Ok (MAGIC ++ [version'] ++ deflate payload).
Proof.
  unfold write. destruct (decide (1 <= version <= VERSION_CURRENT)) as [Hv|]; [|done]. unfold VERSION_CURRENT in *.
  intros (payload & Ep & [= <-])%bind_Ok.
  destruct (decide (version = 1)) as [->|Hne].
  - change (downgrade_version rules 1) with 1. cbv zeta. split; [lia|]. exists payload. split; [done|].
    rewrite decide_True by lia. by rewrite Ep.
  - pose proof (downgrade_expressible rules version ltac:(lia)) as He. split; [destruct He; lia|].
    exists payload. split; [done|]. rewrite decide_True by (destruct He; lia).
    apply (lowers_seq _ _ _ _ (lowers_refl _) (lowers_all _ _ _ _ _ (lowers_rule LEVELS _ _) He)) in Ep.
    by rewrite Ep.
Qed.
End file.

(** ** Witnesses *)

(** Files that are not compressed. *)
Definition stored : Zlib := {| deflate payload := payload; inflate content := content |}.

(** A file with a range of addresses that two prefixes make up. *)
Lemma read_runtime_finishes_witness :
  exists rule, @Reader.read_runtime_with_version stored
    (MAGIC ++ [1] ++ [1; 0; ITEM_IP_CIDR; 1; 0; 0; 0; 0; 0; 0; 0; 1; 4; 10; 0; 0; 1; 4; 10; 0; 0; 3; ITEM_FINAL; 0])
  = Ok (1, [RuntimeDefault (mkRuntime [(str "ip_cidr", VArray [VString (str "10.0.0.1/32"); VString (str "10.0.0.2/31")])]
              rule None)]).
Proof.
  destruct (@Total.read_runtime_finishes stored
    (MAGIC ++ [1] ++ [1; 0; ITEM_IP_CIDR; 1; 0; 0; 0; 0; 0; 0; 0; 1; 4; 10; 0; 0; 1; 4; 10; 0; 0; 3; ITEM_FINAL; 0]))
    as [(version & rules & E)|(e & E & _)].
  - intros c Hc. exact Hc.
  - apply bytes_okb_true. vm_compute. reflexivity.
  - rewrite E. vm_compute in E. injection E as <- <-. by exists None.
  - vm_compute in E. discriminate E.
Defined.

(** The port 443, in a file of version 5. *)
Lemma downgrade_keeps_payload_witness :
  exists payload, @write IpSet.Example.ops stored [VObject [(str "port", VNumber (Some 443))]] 2
    = Ok (MAGIC ++ [2] ++ payload).
Proof.
  destruct (@downgrade_keeps_payload IpSet.Example.ops stored [VObject [(str "port", VNumber (Some 443))]] 5
    (MAGIC ++ [5] ++ [1; 0; 9; 1; 1; 187; 255; 0])) as [_ (payload & _ & E)].
  - by vm_compute.
  - exists payload. exact E.
Defined.

End Versions.
