(* ===== verification/RouteRule.v ===== *)
(** * Route rules

    The matching of [route/mod.rs]: a rule names conditions on the metadata
    of a connection, alone, combined by a logical rule, or kept in rule-sets
    that several rules share.  Regular expressions and address prefixes are
    libraries; everything else is modelled. *)

From stdpp Require Import base numbers list gmap sets.
From Stdlib Require Import ZArith Lia.
From S2P Require Import Prelude OvpnText Text IpText SrsWire SrsSet SrsIpSet SrsAdGuard SrsDomain SocksAddr.

Local Open Scope Z_scope.

(** The crate [regex]. *)
Class RegexOps := {
  Regex : Type;
  regex_new : text -> option Regex;
  is_match : Regex -> text -> bool;
  regex_escape : text -> text;
}.

(** ** Metadata *)

Record Metadata : Type := mkMetadata {
  md_query_type : option Z;
  md_ip_version : option Z;
  md_inbound : text;
  md_last_inbound : text;
  md_outbound : text;
  md_source : option SocksAddr;
  md_destination : option SocksAddr;
  md_destination_addresses : list IpAddr;
  md_origin_destination : option SocksAddr;
  md_process_origin_destination : option SocksAddr;
  md_fake_ip : bool;
  md_network : option Network;
  md_auth_user : text;
  md_protocol : text;
  md_domain : text;
  md_client : text;
  md_process_name : text;
  md_process_path : text;
  md_process_lookup : text;
  md_package_name : text;
  md_user : text;
  md_user_id : option Z;
  md_clash_mode : text;
  md_network_type : text;
  md_network_is_expensive : bool;
  md_network_is_constrained : bool;
  md_wifi_ssid : text;
  md_wifi_bssid : text;
  md_interface_address : gmap text (list IpAddr);
  md_network_interface_address : gmap text (list IpAddr);
  md_default_interface_address : list IpAddr;
  md_preferred_by : list text;
  md_source_mac_address : text;
  md_source_hostname : text;
}.

Global Instance Metadata_settable : Settable Metadata := fun m => mkMetadata
  (md_query_type m) (md_ip_version m) (md_inbound m) (md_last_inbound m) (md_outbound m) (md_source m)
  (md_destination m) (md_destination_addresses m) (md_origin_destination m) (md_process_origin_destination m)
  (md_fake_ip m) (md_network m) (md_auth_user m) (md_protocol m) (md_domain m) (md_client m)
  (md_process_name m) (md_process_path m) (md_process_lookup m) (md_package_name m) (md_user m)
  (md_user_id m) (md_clash_mode m) (md_network_type m) (md_network_is_expensive m)
  (md_network_is_constrained m) (md_wifi_ssid m) (md_wifi_bssid m) (md_interface_address m)
  (md_network_interface_address m) (md_default_interface_address m) (md_preferred_by m)
  (md_source_mac_address m) (md_source_hostname m).

Definition metadata_default : Metadata :=
  mkMetadata None None [] [] [] None None [] None None false None [] [] [] [] [] [] [] [] [] None [] []
    false false [] [] ∅ ∅ [] [] [] [].

Definition domain (m : Metadata) : option text :=
  if decide (md_domain m <> []) then Some (md_domain m)
  else match md_destination m with
       | Some (Domain host _) => Some host
       | _ => None
       end.

Definition destination_ip (m : Metadata) : option IpAddr :=
  match md_destination m with
  | Some (Ip address) => Some address.(ip)
  | _ => None
  end.

Definition source_ip (m : Metadata) : option IpAddr :=
  match md_source m with
  | Some (Ip address) => Some address.(ip)
  | _ => None
  end.

(** ** Results of an evaluation *)

Definition MATCH_SOURCE_ADDRESS : Z := 1.
Definition MATCH_SOURCE_PORT : Z := 2.
Definition MATCH_DESTINATION_ADDRESS : Z := 4.
Definition MATCH_DESTINATION_PORT : Z := 8.

Record RuleMatch : Type := mkMatch { ordinary : bool; required : Z; satisfied : Z }.

Module Match.

(** [!x] on a [u8]. *)
Definition not8 (x : Z) : Z := 255 - x.

Definition done_ (r : RuleMatch) : bool :=
  ordinary r && bool_decide (Z.land (required r) (not8 (satisfied r)) = 0).

Definition merge (r q : RuleMatch) : RuleMatch :=
  mkMatch (ordinary r && ordinary q) (Z.lor (required r) (required q)) (Z.lor (satisfied r) (satisfied q)).

(** [if wanted { required |= bit; if found { satisfied |= bit } }]. *)
Definition require (bit : Z) (wanted found : bool) (r : RuleMatch) : RuleMatch :=
  if wanted then
    mkMatch (ordinary r) (Z.lor (required r) bit) (if found then Z.lor (satisfied r) bit else satisfied r)
  else r.

End Match.

(** ** Rules *)

Inductive RouteError : Type := InvalidRule | RegexError | PrefixError | InvalidRuleSet | ReadRuleSet.

Record PortRange : Type := { range_start : Z; range_end : Z }.

Record RawDefaultRule : Type := mkRaw {
  r_inbound : list text;
  r_ip_version : Z;
  r_network : list text;
  r_auth_user : list text;
  r_protocol : list text;
  r_client : list text;
  r_domain : list text;
  r_domain_suffix : list text;
  r_domain_keyword : list text;
  r_domain_regex : list text;
  r_source_ip_cidr : list text;
  r_source_ip_is_private : bool;
  r_ip_cidr : list text;
  r_ip_is_private : bool;
  r_source_port : list Z;
  r_source_port_range : list text;
  r_port : list Z;
  r_port_range : list text;
  r_process_name : list text;
  r_process_path : list text;
  r_process_path_regex : list text;
  r_package_name : list text;
  r_package_name_regex : list text;
  r_user : list text;
  r_user_id : list Z;
  r_clash_mode : text;
  r_network_type : list text;
  r_network_is_expensive : bool;
  r_network_is_constrained : bool;
  r_wifi_ssid : list text;
  r_wifi_bssid : list text;
  r_interface_address : gmap text (list text);
  r_network_interface_address : gmap text (list text);
  r_default_interface_address : list text;
  r_source_mac_address : list text;
  r_source_hostname : list text;
  r_preferred_by : list text;
  r_rule_set : list text;
  r_rule_set_ip_cidr_match_source : bool;
  r_invert : bool;
}.

Inductive LogicalMode : Type := And | Or.

(** The conditions of a rule of a rule-set. *)
Record RawHeadlessRule : Type := mkRawHeadless {
  hr_query_type : list Z;
  hr_network : list text;
  hr_domain : list text;
  hr_domain_suffix : list text;
  hr_domain_keyword : list text;
  hr_domain_regex : list text;
  hr_adguard_domain : list text;
  hr_source_ip_cidr : list text;
  hr_ip_cidr : list text;
  hr_source_port : list Z;
  hr_source_port_range : list text;
  hr_port : list Z;
  hr_port_range : list text;
  hr_process_name : list text;
  hr_process_path : list text;
  hr_process_path_regex : list text;
  hr_package_name : list text;
  hr_package_name_regex : list text;
  hr_network_type : list text;
  hr_network_is_expensive : bool;
  hr_network_is_constrained : bool;
  hr_wifi_ssid : list text;
  hr_wifi_bssid : list text;
  hr_network_interface_address : gmap text (list text);
  hr_default_interface_address : list text;
  hr_invert : bool;
}.

Record RuleSetMetadata : Type := mkSetMetadata {
  contains_process_rule : bool;
  contains_wifi_rule : bool;
  contains_ip_cidr_rule : bool;
  contains_dns_query_type_rule : bool;
  contains_non_ip_cidr_rule : bool;
}.

(** ** Hardware addresses *)

Module Hardware.

(** [chunks_exact(2)]: a last single byte is dropped. *)
Fixpoint chunks2 (s : text) : list text :=
  match s with
  | a :: b :: s => [a; b] :: chunks2 s
  | _ => []
  end.

Definition is_hexdigit (b : Z) : bool := bool_decide (IpText.to_digit 16 b <> None).

(** [u8::from_str_radix(octet, 16)] on two bytes: a sign may stand first. *)
Definition parse_octet (octet : text) : option Z :=
  match octet with
  | [a; b] =>
      if decide (a = Socks.PLUS) then IpText.to_digit 16 b
      else x ← IpText.to_digit 16 a; y ← IpText.to_digit 16 b; Some (16 * x + y)
  | _ => None
  end.

Definition parse_hex_octets (octets : list text) : option (list Z) := mapM parse_octet octets.

Definition DASH : Z := 45.

Definition format_octet (x : Z) : text := [IpText.digit (x / 16); IpText.digit (x mod 16)].

Definition format_hardware_address (address : list Z) : text :=
  IpText.join [IpText.COLON] (format_octet <$> address).

Definition contains_byte (c : Z) (s : text) : bool := bool_decide (c ∈ s).

(** The octets of an address: twelve digits (for a wireless network), three
    dotted groups of four, or pairs between colons or dashes.  [None] is the
    early return of a value without separators. *)
Definition parse_hardware (value : text) (wifi : bool) : option (option (list Z)) :=
  if wifi && bool_decide (length value = 12%nat) && forallb is_hexdigit value then
    Some (parse_hex_octets (chunks2 value))
  else if contains_byte DOT value then
    let groups := split_on DOT value in
    if decide (length groups = 3%nat
        /\ Forall (fun g : text => length g = 4%nat /\ Forall (fun b => b < 128) g) groups)
    then Some (parse_hex_octets (chunks2 (concat groups)))
    else Some None
  else
    let octets (separator : Z) :=
      let groups := split_on separator value in
      if forallb (fun g : text => bool_decide (length g = 2%nat)) groups
      then Some (parse_hex_octets groups) else Some None in
    if contains_byte IpText.COLON value then octets IpText.COLON
    else if contains_byte DASH value then octets DASH
    else None.

Definition normalize_hardware_address (value : text) (wifi : bool) : text :=
  let value := if wifi then OvpnText.Text.trim_bytes value else value in
  match parse_hardware value wifi with
  | Some (Some parsed) =>
      let len := length parsed in
      if (if wifi then bool_decide (len = 6%nat)
          else bool_decide (len = 6%nat \/ len = 8%nat \/ len = 20%nat))
      then format_hardware_address parsed else value
  | _ => value
  end.

Definition matches_hardware_addresses (configured : list text) (actual : text) (wifi : bool) : bool :=
  match configured with
  | [] => true
  | _ =>
      let actual := normalize_hardware_address actual wifi in
      existsb (fun value => bool_decide (normalize_hardware_address value wifi = actual)) configured
  end.

End Hardware.

(** ** Conditions *)

Module Cond.
Section cond.
Context {RX : RegexOps} {NX : IpNetOps}.

Definition matches_list (values : list text) (actual : text) : bool :=
  match values with
  | [] => true
  | _ => existsb (fun value => bool_decide (value = actual)) values
  end.

Definition matches_optional {A} `{EqDecision A} (values : list A) (actual : option A) : bool :=
  match values with
  | [] => true
  | _ => match actual with
         | Some actual => bool_decide (actual ∈ values)
         | None => false
         end
  end.

Definition matches_string_optional (values : list text) (actual : option text) : bool :=
  match values with
  | [] => true
  | _ => match actual with
         | Some actual => existsb (fun value => bool_decide (value = actual)) values
         | None => false
         end
  end.

Definition matches_regex (patterns : list Regex) (actual : text) : bool :=
  match patterns with
  | [] => true
  | _ => existsb (fun pattern => is_match pattern actual) patterns
  end.

Definition range_contains (r : PortRange) (port : Z) : bool := bool_decide (r.(range_start) <= port <= r.(range_end)).

Definition matches_port (exact : list Z) (ranges : list PortRange) (actual : option Z) : bool :=
  match exact, ranges with
  | [], [] => true
  | _, _ => match actual with
            | Some port => bool_decide (port ∈ exact) || existsb (fun range => range_contains range port) ranges
            | None => false
            end
  end.

Definition matches_ip_version (version : Z) (explicit : option Z) (address : option IpAddr) : bool :=
  let actual := match address with
                | Some address => Some (if is_ipv4 address then 4 else 6)
                | None => explicit
                end in
  if decide (version = 0) then true
  else if decide (version = 4) then bool_decide (actual = Some 4)
  else if decide (version = 6) then bool_decide (actual = Some 6)
  else false.

Definition matches_any_prefix (prefixes : list IpNet) (addresses : list IpAddr) : bool :=
  match prefixes with
  | [] => true
  | _ => forallb (fun prefix => existsb (fun address => net_contains prefix address) addresses) prefixes
  end.

Definition matches_interface_prefixes (configured : gmap text (list IpNet)) (actual : gmap text (list IpAddr)) : bool :=
  forallb (fun '(kind, prefixes) =>
    match actual !! kind with
    | Some addresses =>
        forallb (fun prefix => existsb (fun address => net_contains prefix address) addresses) prefixes
    | None => false
    end) (map_to_list configured).

(** ** Compilation of the conditions *)

Definition collect {A B} (f : A -> result RouteError B) : list A -> result RouteError (list B) :=
  fix collect l :=
    match l with
    | [] => Ok []
    | x :: l => y ← f x; ys ← collect l; Ok (y :: ys)
    end.

Definition compile_regexes (patterns : list text) : result RouteError (list Regex) :=
  collect (fun pattern => ok_or RegexError (regex_new pattern)) patterns.

(** [(?:^|\.)], [^], [.*], [$] and [(?i)]. *)
Definition DOMAIN_START : text := [40; 63; 58; 94; 124; 92; 46; 41].
Definition ANYTHING : text := [46; 42].
Definition IGNORE_CASE : text := [40; 63; 105; 41].

Definition adguard_expression (pattern : text) : text :=
  let '(prefix, body) :=
    match strip_prefix [BAR; BAR] pattern with
    | Some body => (DOMAIN_START, body)
    | None =>
        match strip_prefix [BAR] pattern with
        | Some body => ([CARET], body)
        | None => (ANYTHING, pattern)
        end
    end in
  let '(body, suffix) :=
    match strip_suffix [CARET] body with
    | Some body => (body, [36])
    | None => (body, ANYTHING)
    end in
  IGNORE_CASE ++ prefix ++ IpText.join ANYTHING (regex_escape <$> split_on STAR body) ++ suffix.

Definition compile_adguard_patterns (patterns : list text) : result RouteError (list Regex) :=
  collect (fun pattern => ok_or RegexError (regex_new (adguard_expression pattern))) patterns.

Definition compile_prefixes (values : list text) : result RouteError (list IpNet) :=
  collect (fun value =>
    match net_parse value with
    | Some prefix => Ok prefix
    | None =>
        address ← ok_or PrefixError (IpText.parse_ip value);
        ok_or PrefixError (net_new address (if is_ipv4 address then 32 else 128))
    end) values.

Definition compile_prefix_map (values : gmap text (list text)) : result RouteError (gmap text (list IpNet)) :=
  l ← collect (fun '(kind, prefixes) => p ← compile_prefixes prefixes; Ok (kind, p)) (map_to_list values);
  Ok (list_to_map l).

Definition compile_port_range (value : text) : result RouteError PortRange :=
  '(start, end_) ← ok_or InvalidRule (split_once IpText.COLON value);
  start ← match start with [] => Ok 0 | _ => ok_or InvalidRule (Socks.parse_u16 start) end;
  end_ ← match end_ with [] => Ok U16_MAX | _ => ok_or InvalidRule (Socks.parse_u16 end_) end;
  Ok {| range_start := start; range_end := end_ |}.

Definition compile_port_ranges (values : list text) : result RouteError (list PortRange) :=
  collect compile_port_range values.

Definition validate_domain_items (domains suffixes : list text) : result RouteError unit :=
  if existsb (fun d : text => bool_decide (d = [])) domains then Err InvalidRule
  else if existsb (fun d : text => bool_decide (d = [])) suffixes then Err InvalidRule
  else Ok ().
End cond.
End Cond.
