(* ===== verification/RouteMatch.v ===== *)
(** * Matching of route rules

    Rules of [route/mod.rs] against the metadata of a connection.  A default
    rule is evaluated to a [RuleMatch]: its ordinary conditions, and the
    groups of address and port conditions it requires and satisfies.  Rules
    refer to rule-sets by tag; the rule-sets are a store that a reload
    changes for every rule that refers to them. *)

From stdpp Require Import base numbers list gmap sets.
From Stdlib Require Import ZArith Lia.
From S2P Require Import Prelude Text IpText SrsWire SrsSet SrsIpSet SrsAdGuard SrsDomain SocksAddr RouteRule.

Local Open Scope Z_scope.

Module Rules.
Import Cond Match.

Section rules.
Context {RX : RegexOps} {NX : IpNetOps} {Action : Type}.

(** A compiled default rule; the action of a rule-set's rule is not used. *)
Record DefaultRule : Type := mkDefault {
  raw : RawDefaultRule;
  domain_regex : list Regex;
  process_path_regex : list Regex;
  package_name_regex : list Regex;
  source_prefixes : list IpNet;
  destination_prefixes : list IpNet;
  source_port_ranges : list PortRange;
  port_ranges : list PortRange;
  interface_prefixes : gmap text (list IpNet);
  network_interface_prefixes : gmap text (list IpNet);
  default_interface_prefixes : list IpNet;
  rule_sets : list text;
}.

Definition from_raw (raw : RawDefaultRule) (rule_sets : list text) : result RouteError DefaultRule :=
  if decide (r_ip_version raw <> 0 /\ r_ip_version raw <> 4 /\ r_ip_version raw <> 6) then Err InvalidRule
  else
    _ ← validate_domain_items (r_domain raw) (r_domain_suffix raw);
    interface_prefixes ← compile_prefix_map (r_interface_address raw);
    network_interface_prefixes ← compile_prefix_map (r_network_interface_address raw);
    default_interface_prefixes ← compile_prefixes (r_default_interface_address raw);
    domain_regex ← compile_regexes (r_domain_regex raw);
    process_path_regex ← compile_regexes (r_process_path_regex raw);
    package_name_regex ← compile_regexes (r_package_name_regex raw);
    source_prefixes ← compile_prefixes (r_source_ip_cidr raw);
    destination_prefixes ← compile_prefixes (r_ip_cidr raw);
    source_port_ranges ← compile_port_ranges (r_source_port_range raw);
    port_ranges ← compile_port_ranges (r_port_range raw);
    Ok (mkDefault raw domain_regex process_path_regex package_name_regex source_prefixes
          destination_prefixes source_port_ranges port_ranges interface_prefixes
          network_interface_prefixes default_interface_prefixes rule_sets).

Definition nonempty {A} (l : list A) : bool := match l with [] => false | _ => true end.

Definition matches_domain (rule : DefaultRule) (domain : option text) : bool :=
  match domain with
  | None => false
  | Some domain =>
      let domain := to_ascii_lowercase (trim_end_matches DOT domain) in
      existsb (Domain.matches_exact domain) (r_domain (raw rule))
      || existsb (Domain.domain_matches_suffix domain) (r_domain_suffix (raw rule))
      || existsb (fun keyword => contains domain (to_ascii_lowercase keyword)) (r_domain_keyword (raw rule))
      || existsb (fun pattern => is_match pattern domain) (domain_regex rule)
  end.

Definition has_domain_condition (rule : DefaultRule) : bool :=
  nonempty (r_domain (raw rule)) || nonempty (r_domain_suffix (raw rule))
  || nonempty (r_domain_keyword (raw rule)) || nonempty (domain_regex rule).

Definition in_prefixes (prefixes : list IpNet) (address : option IpAddr) : bool :=
  match address with
  | Some address => existsb (fun prefix => net_contains prefix address) prefixes
  | None => false
  end.

Definition is_private (address : option IpAddr) : bool :=
  match address with
  | Some address => Socks.is_private_address address
  | None => false
  end.

Definition matches_source_address (rule : DefaultRule) (address : option IpAddr) : bool :=
  let has_cidr := nonempty (r_source_ip_cidr (raw rule)) in
  if negb has_cidr && negb (r_source_ip_is_private (raw rule)) then true
  else (has_cidr && in_prefixes (source_prefixes rule) address)
       || (r_source_ip_is_private (raw rule) && is_private address).

Definition matches_ip_address (rule : DefaultRule) (address : option IpAddr) : bool :=
  let has_cidr := nonempty (r_ip_cidr (raw rule)) in
  (has_cidr && in_prefixes (destination_prefixes rule) address)
  || (r_ip_is_private (raw rule) && is_private address).

Definition matches_destination_ip_address (rule : DefaultRule) (m : Metadata) : bool :=
  match destination_ip m with
  | Some address => matches_ip_address rule (Some address)
  | None => existsb (fun address => matches_ip_address rule (Some address)) (md_destination_addresses m)
  end.

(** The conditions that must all hold. *)
Definition ordinary_conditions (rule : DefaultRule) (m : Metadata) : bool :=
  let raw := raw rule in
  matches_list (r_inbound raw) (md_inbound m)
  && matches_string_optional (r_network raw) (Socks.as_str <$> md_network m)
  && matches_list (r_auth_user raw) (md_auth_user m)
  && matches_list (r_protocol raw) (md_protocol m)
  && matches_list (r_client raw) (md_client m)
  && matches_ip_version (r_ip_version raw) (md_ip_version m) (destination_ip m)
  && matches_list (r_process_name raw) (md_process_name m)
  && matches_list (r_process_path raw) (md_process_path m)
  && matches_regex (process_path_regex rule) (md_process_path m)
  && matches_list (r_package_name raw) (md_package_name m)
  && matches_regex (package_name_regex rule) (md_package_name m)
  && matches_list (r_user raw) (md_user m)
  && matches_optional (r_user_id raw) (md_user_id m)
  && (bool_decide (r_clash_mode raw = []) || eq_ignore_ascii_case (r_clash_mode raw) (md_clash_mode m))
  && matches_list (r_network_type raw) (md_network_type m)
  && (negb (r_network_is_expensive raw) || md_network_is_expensive m)
  && (negb (r_network_is_constrained raw) || md_network_is_constrained m)
  && matches_list (r_wifi_ssid raw) (md_wifi_ssid m)
  && Hardware.matches_hardware_addresses (r_wifi_bssid raw) (md_wifi_bssid m) true
  && matches_interface_prefixes (interface_prefixes rule) (md_interface_address m)
  && matches_interface_prefixes (network_interface_prefixes rule) (md_network_interface_address m)
  && matches_any_prefix (default_interface_prefixes rule) (md_default_interface_address m)
  && Hardware.matches_hardware_addresses (r_source_mac_address raw) (md_source_mac_address m) false
  && matches_list (r_source_hostname raw) (md_source_hostname m)
  && (negb (nonempty (r_preferred_by raw))
      || existsb (fun tag => bool_decide (tag ∈ md_preferred_by m)) (r_preferred_by raw)).

Definition has_source_address (rule : DefaultRule) : bool :=
  nonempty (r_source_ip_cidr (raw rule)) || r_source_ip_is_private (raw rule).
Definition has_destination_ip (rule : DefaultRule) : bool :=
  nonempty (r_ip_cidr (raw rule)) || r_ip_is_private (raw rule).

Definition evaluate_with_ip_source_and_empty (rule : DefaultRule) (m : Metadata)
    (ip_cidr_match_source ip_cidr_accept_empty : bool) : RuleMatch :=
  let result := mkMatch (ordinary_conditions rule m) 0 0 in
  let result :=
    require MATCH_SOURCE_ADDRESS
      (has_source_address rule || (ip_cidr_match_source && has_destination_ip rule))
      ((has_source_address rule && matches_source_address rule (source_ip m))
       || (ip_cidr_match_source && has_destination_ip rule && matches_ip_address rule (source_ip m))) result in
  let result :=
    require MATCH_SOURCE_PORT
      (nonempty (r_source_port (raw rule)) || nonempty (source_port_ranges rule))
      (matches_port (r_source_port (raw rule)) (source_port_ranges rule) (Socks.port <$> md_source m)) result in
  let result :=
    require MATCH_DESTINATION_ADDRESS
      (has_domain_condition rule || (negb ip_cidr_match_source && has_destination_ip rule))
      ((has_domain_condition rule && matches_domain rule (domain m))
       || (negb ip_cidr_match_source && has_destination_ip rule
           && (matches_destination_ip_address rule m
               || (ip_cidr_accept_empty && bool_decide (destination_ip m = None)
                   && negb (nonempty (md_destination_addresses m)))))) result in
  require MATCH_DESTINATION_PORT
    (nonempty (r_port (raw rule)) || nonempty (port_ranges rule))
    (matches_port (r_port (raw rule)) (port_ranges rule) (Socks.port <$> md_destination m)) result.

Definition evaluate (rule : DefaultRule) (m : Metadata) : RuleMatch :=
  evaluate_with_ip_source_and_empty rule m false false.

(** ** Rule-sets *)

Record HeadlessDefaultRule : Type := mkHeadless {
  h_query_type : list Z;
  h_base : DefaultRule;
  h_network_interface_prefixes : gmap text (list IpNet);
  h_default_interface_prefixes : list IpNet;
  h_adguard_regex : list Regex;
  h_compact_domain : option SuccinctSet;
  h_compact_adguard : option SuccinctSet;
}.

Inductive HeadlessRule : Type :=
| HDefault (rule : HeadlessDefaultRule)
| HLogical (mode : LogicalMode) (rules : list HeadlessRule) (invert : bool).

Definition has_matcher (raw : RawHeadlessRule) : bool :=
  nonempty (hr_query_type raw) || nonempty (hr_network raw) || nonempty (hr_domain raw)
  || nonempty (hr_domain_suffix raw) || nonempty (hr_domain_keyword raw) || nonempty (hr_domain_regex raw)
  || nonempty (hr_adguard_domain raw) || nonempty (hr_source_ip_cidr raw) || nonempty (hr_ip_cidr raw)
  || nonempty (hr_source_port raw) || nonempty (hr_source_port_range raw) || nonempty (hr_port raw)
  || nonempty (hr_port_range raw) || nonempty (hr_process_name raw) || nonempty (hr_process_path raw)
  || nonempty (hr_process_path_regex raw) || nonempty (hr_package_name raw)
  || nonempty (hr_package_name_regex raw) || nonempty (hr_network_type raw)
  || hr_network_is_expensive raw || hr_network_is_constrained raw
  || nonempty (hr_wifi_ssid raw) || nonempty (hr_wifi_bssid raw)
  || negb (bool_decide (hr_network_interface_address raw = ∅)) || nonempty (hr_default_interface_address raw).

(** The fields of a rule-set's rule; the others have their default. *)
Definition base_of (raw : RawHeadlessRule) : RawDefaultRule :=
  mkRaw [] 0 (hr_network raw) [] [] [] (hr_domain raw) (hr_domain_suffix raw) (hr_domain_keyword raw)
    (hr_domain_regex raw) (hr_source_ip_cidr raw) false (hr_ip_cidr raw) false (hr_source_port raw)
    (hr_source_port_range raw) (hr_port raw) (hr_port_range raw) (hr_process_name raw) (hr_process_path raw)
    (hr_process_path_regex raw) (hr_package_name raw) (hr_package_name_regex raw) [] [] []
    (hr_network_type raw) (hr_network_is_expensive raw) (hr_network_is_constrained raw)
    (hr_wifi_ssid raw) (hr_wifi_bssid raw) ∅ ∅ [] [] [] [] [] false (hr_invert raw).

Definition compile_with_matchers (raw : RawHeadlessRule) (compact_domain compact_adguard : option SuccinctSet)
    : result RouteError HeadlessDefaultRule :=
  if negb (has_matcher raw) && bool_decide (compact_domain = None) && bool_decide (compact_adguard = None)
  then Err InvalidRuleSet
  else
    network_interface_prefixes ← compile_prefix_map (hr_network_interface_address raw);
    default_interface_prefixes ← compile_prefixes (hr_default_interface_address raw);
    adguard_regex ← compile_adguard_patterns (hr_adguard_domain raw);
    base ← from_raw (base_of raw) [];
    Ok (mkHeadless (hr_query_type raw) base network_interface_prefixes default_interface_prefixes
          adguard_regex compact_domain compact_adguard).

(** ** The categories of conditions in a rule-set *)

Definition set_default : RuleSetMetadata := mkSetMetadata false false false false false.

Definition set_or (a b : RuleSetMetadata) : RuleSetMetadata :=
  mkSetMetadata (contains_process_rule a || contains_process_rule b) (contains_wifi_rule a || contains_wifi_rule b)
    (contains_ip_cidr_rule a || contains_ip_cidr_rule b)
    (contains_dns_query_type_rule a || contains_dns_query_type_rule b)
    (contains_non_ip_cidr_rule a || contains_non_ip_cidr_rule b).

Definition default_metadata (rule : HeadlessDefaultRule) : RuleSetMetadata :=
  let raw := raw (h_base rule) in
  let process := nonempty (r_process_name raw) || nonempty (r_process_path raw)
    || nonempty (r_process_path_regex raw) || nonempty (r_package_name raw)
    || nonempty (r_package_name_regex raw) in
  let wifi := nonempty (r_wifi_ssid raw) || nonempty (r_wifi_bssid raw) in
  mkSetMetadata process wifi (nonempty (r_ip_cidr raw)) (nonempty (h_query_type rule))
    (nonempty (h_query_type rule) || nonempty (r_network raw) || nonempty (r_domain raw)
     || nonempty (r_domain_suffix raw) || nonempty (r_domain_keyword raw) || nonempty (r_domain_regex raw)
     || nonempty (h_adguard_regex rule) || bool_decide (h_compact_domain rule <> None)
     || bool_decide (h_compact_adguard rule <> None) || nonempty (r_source_ip_cidr raw)
     || nonempty (r_source_port raw) || nonempty (r_source_port_range raw) || nonempty (r_port raw)
     || nonempty (r_port_range raw) || process || nonempty (r_network_type raw)
     || r_network_is_expensive raw || r_network_is_constrained raw || wifi
     || negb (bool_decide (h_network_interface_prefixes rule = ∅))
     || nonempty (h_default_interface_prefixes rule)).

Fixpoint accumulate_metadata (rule : HeadlessRule) (metadata : RuleSetMetadata) : RuleSetMetadata :=
  match rule with
  | HDefault rule => set_or metadata (default_metadata rule)
  | HLogical _ rules _ => foldl (fun metadata child => accumulate_metadata child metadata) metadata rules
  end.

Definition rule_set_metadata (rules : list HeadlessRule) : RuleSetMetadata :=
  foldl (fun metadata rule => accumulate_metadata rule metadata) set_default rules.

Definition normal_domain (d : text) : text := to_ascii_lowercase (trim_end_matches DOT d).

Definition on_domain (f : text -> bool) (m : Metadata) : bool :=
  match domain m with Some d => f d | None => false end.

Definition headless_evaluate (rule : HeadlessDefaultRule) (m : Metadata) (match_source accept_empty : bool) : RuleMatch :=
  let evaluated := evaluate_with_ip_source_and_empty (h_base rule) m match_source accept_empty in
  let evaluated :=
    mkMatch (ordinary evaluated
        && (matches_optional (h_query_type rule) (md_query_type m)
            && matches_interface_prefixes (h_network_interface_prefixes rule) (md_network_interface_address m)
            && matches_any_prefix (h_default_interface_prefixes rule) (md_default_interface_address m)))
      (required evaluated) (satisfied evaluated) in
  let evaluated :=
    require MATCH_DESTINATION_ADDRESS (nonempty (h_adguard_regex rule))
      (on_domain (fun d => existsb (fun pattern => is_match pattern d) (h_adguard_regex rule)) m) evaluated in
  let evaluated :=
    match h_compact_domain rule with
    | Some matcher =>
        require MATCH_DESTINATION_ADDRESS true
          (on_domain (fun d => Succinct.matches_domain matcher (normal_domain d)) m) evaluated
    | None => evaluated
    end in
  match h_compact_adguard rule with
  | Some matcher =>
      require MATCH_DESTINATION_ADDRESS true
        (on_domain (fun d => AdGuard.matches_adguard matcher (normal_domain d)) m) evaluated
  | None => evaluated
  end.

Definition headless_default_matches (rule : HeadlessDefaultRule) (m : Metadata) (match_source accept_empty : bool) : bool :=
  xorb (done_ (headless_evaluate rule m match_source accept_empty)) (r_invert (raw (h_base rule))).

Fixpoint matches_with_ip_source_accept_empty (rule : HeadlessRule) (m : Metadata) (match_source accept_empty : bool) : bool :=
  match rule with
  | HDefault rule => headless_default_matches rule m match_source accept_empty
  | HLogical mode rules invert =>
      let matched := match mode with
        | And => forallb (fun r => matches_with_ip_source_accept_empty r m match_source accept_empty) rules
        | Or => existsb (fun r => matches_with_ip_source_accept_empty r m match_source accept_empty) rules
        end in
      xorb matched invert
  end.

(** The rules of a rule-set, with the groups of the rule that refers to it. *)
Definition matches_with_outer_accept_empty (rules : list HeadlessRule) (m : Metadata) (outer : RuleMatch)
    (match_source accept_empty : bool) : bool :=
  let each := done_ outer
    && existsb (fun rule => matches_with_ip_source_accept_empty rule m match_source accept_empty) rules in
  match rules with
  | [HDefault rule] =>
      if r_invert (raw (h_base rule)) then each
      else done_ (merge outer (headless_evaluate rule m match_source accept_empty))
  | _ => each
  end.

Definition rule_set_matches (rules : list HeadlessRule) (m : Metadata) : bool :=
  existsb (fun rule => matches_with_ip_source_accept_empty rule m false false) rules.

Fixpoint collect_destination_prefixes (rule : HeadlessRule) : list IpNet :=
  match rule with
  | HDefault rule => destination_prefixes (h_base rule)
  | HLogical _ rules _ => concat (collect_destination_prefixes <$> rules)
  end.

(** ** Rules of the router *)

Inductive Rule : Type :=
| RDefault (rule : DefaultRule) (action : Action)
| RLogical (mode : LogicalMode) (rules : list Rule) (invert : bool) (action : Action).

(** The rule-sets by tag. *)
Definition store : Type := gmap text (list HeadlessRule).

Definition default_matches (sets : store) (rule : DefaultRule) (m : Metadata) : bool :=
  let outer := evaluate rule m in
  let matched :=
    match rule_sets rule with
    | [] => done_ outer
    | tags => existsb (fun tag =>
        match sets !! tag with
        | Some rules => matches_with_outer_accept_empty rules m outer (r_rule_set_ip_cidr_match_source (raw rule)) false
        | None => false
        end) tags
    end in
  xorb matched (r_invert (raw rule)).

Fixpoint rule_matches (sets : store) (rule : Rule) (m : Metadata) : bool :=
  match rule with
  | RDefault rule _ => default_matches sets rule m
  | RLogical mode rules invert _ =>
      let matched := match mode with
        | And => forallb (fun r => rule_matches sets r m) rules
        | Or => existsb (fun r => rule_matches sets r m) rules
        end in
      xorb matched invert
  end.

Definition rule_action (rule : Rule) : Action :=
  match rule with RDefault _ action => action | RLogical _ _ _ action => action end.

Fixpoint collect_preferred_by (rule : Rule) : list text :=
  match rule with
  | RDefault rule _ => r_preferred_by (raw rule)
  | RLogical _ rules _ _ => concat (collect_preferred_by <$> rules)
  end.
End rules.
End Rules.
