(* ===== verification/RouteMeaning.v ===== *)
(** * What route rules mean

    The groups of a rule: the evaluation of a default rule with bit masks is
    the conjunction of its groups of conditions.  A rule-set of one rule
    means its conditions written in the rule that refers to it, the binary
    form of a rule-set means its source form, and the categories recorded of
    a rule-set tell which metadata its rules look at. *)

From stdpp Require Import base numbers list gmap sets.
From Stdlib Require Import ZArith Lia Btauto.
From S2P Require Import Prelude Text IpText SrsWire SrsSet SrsIpSet SrsTrie SrsDomain SrsAdGuard SocksAddr.
From S2P Require Import RouteRule RouteMatch.

Local Open Scope Z_scope.
Local Open Scope record_scope.

Module Meaning.
Import Cond Match Rules.

(** ** Groups of conditions *)

Definition group (i : Z) (r : RuleMatch) : bool := negb (Z.testbit (required r) i) || Z.testbit (satisfied r) i.

Lemma done_table :
  forallb (fun q => forallb (fun s =>
    bool_decide (bool_decide (Z.land q (not8 s) = 0)
      = forallb (fun i => negb (Z.testbit q i) || Z.testbit s i) [0; 1; 2; 3])
    && bool_decide (0 <= Z.lor q s < 16)) (seqZ 0 16)) (seqZ 0 16) = true.
Proof. by vm_compute. Qed.

Definition small (r : RuleMatch) : Prop := 0 <= required r < 16 /\ 0 <= satisfied r < 16.

Lemma done_table_at q s : 0 <= q < 16 -> 0 <= s < 16 ->
  bool_decide (Z.land q (not8 s) = 0) = forallb (fun i => negb (Z.testbit q i) || Z.testbit s i) [0; 1; 2; 3]
  /\ 0 <= Z.lor q s < 16.
Proof.
  intros Hq Hs. pose proof done_table as H. rewrite forallb_forall in H.
  specialize (H q ltac:(apply list_elem_of_In, elem_of_seqZ; lia)). rewrite forallb_forall in H.
  specialize (H s ltac:(apply list_elem_of_In, elem_of_seqZ; lia)).
  by rewrite andb_true_iff, !bool_decide_eq_true in H.
Qed.

Lemma done_group r : small r -> done_ r = ordinary r && forallb (fun i => group i r) [0; 1; 2; 3].
Proof. intros [Hq Hs]. unfold done_, group. by rewrite (proj1 (done_table_at _ _ Hq Hs)). Qed.

Lemma merge_small r q : small r -> small q -> small (merge r q).
Proof. intros [H1 H2] [H3 H4]. split; by apply done_table_at. Qed.

(** A rule evaluated to its ordinary conditions and four groups, each wanted
    or not, and found or not. *)
Definition flags (o : bool) (w0 f0 w1 f1 w2 f2 w3 f3 : bool) : RuleMatch :=
  require MATCH_DESTINATION_PORT w3 f3
    (require MATCH_DESTINATION_ADDRESS w2 f2
      (require MATCH_SOURCE_PORT w1 f1
        (require MATCH_SOURCE_ADDRESS w0 f0 (mkMatch o 0 0)))).

Lemma flags_spec o w0 f0 w1 f1 w2 f2 w3 f3 :
  let r := flags o w0 f0 w1 f1 w2 f2 w3 f3 in
  small r /\ ordinary r = o
  /\ (Z.testbit (required r) 0 = w0 /\ Z.testbit (required r) 1 = w1
      /\ Z.testbit (required r) 2 = w2 /\ Z.testbit (required r) 3 = w3)
  /\ (Z.testbit (satisfied r) 0 = w0 && f0 /\ Z.testbit (satisfied r) 1 = w1 && f1
      /\ Z.testbit (satisfied r) 2 = w2 && f2 /\ Z.testbit (satisfied r) 3 = w3 && f3).
Proof.
  unfold small. destruct w0, f0, w1, f1, w2, f2, w3, f3; vm_compute; repeat split; done.
Qed.

(** A group without a condition holds. *)
Definition holds (wanted found : bool) : bool := negb wanted || found.

Lemma done_flags o w0 f0 w1 f1 w2 f2 w3 f3 :
  done_ (flags o w0 f0 w1 f1 w2 f2 w3 f3) = o && holds w0 f0 && holds w1 f1 && holds w2 f2 && holds w3 f3.
Proof.
  destruct (flags_spec o w0 f0 w1 f1 w2 f2 w3 f3) as (Hs & Ho & (A0 & A1 & A2 & A3) & (B0 & B1 & B2 & B3)).
  rewrite done_group by done. unfold group. cbn [forallb]. rewrite Ho, A0, A1, A2, A3, B0, B1, B2, B3.
  unfold holds. by destruct o, w0, f0, w1, f1, w2, f2, w3, f3.
Qed.

Lemma done_merge_flags o w0 f0 w1 f1 w2 f2 w3 f3 o' w0' f0' w1' f1' w2' f2' w3' f3' :
  done_ (merge (flags o w0 f0 w1 f1 w2 f2 w3 f3) (flags o' w0' f0' w1' f1' w2' f2' w3' f3'))
  = (o && o') && holds (w0 || w0') (w0 && f0 || w0' && f0') && holds (w1 || w1') (w1 && f1 || w1' && f1')
    && holds (w2 || w2') (w2 && f2 || w2' && f2') && holds (w3 || w3') (w3 && f3 || w3' && f3').
Proof.
  destruct (flags_spec o w0 f0 w1 f1 w2 f2 w3 f3) as (Hs & Ho & (A0 & A1 & A2 & A3) & (B0 & B1 & B2 & B3)).
  destruct (flags_spec o' w0' f0' w1' f1' w2' f2' w3' f3')
    as (Hs' & Ho' & (A0' & A1' & A2' & A3') & (B0' & B1' & B2' & B3')).
  rewrite done_group by by apply merge_small. unfold group, merge. cbn [forallb ordinary required satisfied].
  rewrite !Z.lor_spec. rewrite Ho, A0, A1, A2, A3, B0, B1, B2, B3, Ho', A0', A1', A2', A3', B0', B1', B2', B3'.
  unfold holds. by rewrite andb_true_r, !andb_assoc.
Qed.

Section meaning.
Context {RX : RegexOps} {NX : IpNetOps}.

(** The groups of a default rule. *)
Definition source_wanted (rule : DefaultRule) (ms : bool) : bool :=
  has_source_address rule || (ms && has_destination_ip rule).
Definition source_found (rule : DefaultRule) (m : Metadata) (ms : bool) : bool :=
  (has_source_address rule && matches_source_address rule (source_ip m))
  || (ms && has_destination_ip rule && matches_ip_address rule (source_ip m)).
Definition source_port_wanted (rule : DefaultRule) : bool :=
  nonempty (r_source_port (raw rule)) || nonempty (source_port_ranges rule).
Definition source_port_found (rule : DefaultRule) (m : Metadata) : bool :=
  matches_port (r_source_port (raw rule)) (source_port_ranges rule) (Socks.port <$> md_source m).
Definition destination_wanted (rule : DefaultRule) (ms : bool) : bool :=
  has_domain_condition rule || (negb ms && has_destination_ip rule).
Definition destination_found (rule : DefaultRule) (m : Metadata) (ms empty : bool) : bool :=
  (has_domain_condition rule && matches_domain rule (domain m))
  || (negb ms && has_destination_ip rule
      && (matches_destination_ip_address rule m
          || (empty && bool_decide (destination_ip m = None) && negb (nonempty (md_destination_addresses m))))).
Definition port_wanted (rule : DefaultRule) : bool :=
  nonempty (r_port (raw rule)) || nonempty (port_ranges rule).
Definition port_found (rule : DefaultRule) (m : Metadata) : bool :=
  matches_port (r_port (raw rule)) (port_ranges rule) (Socks.port <$> md_destination m).

Lemma evaluate_flags (rule : DefaultRule) (m : Metadata) (ms empty : bool) :
  evaluate_with_ip_source_and_empty rule m ms empty
  = flags (ordinary_conditions rule m) (source_wanted rule ms) (source_found rule m ms)
      (source_port_wanted rule) (source_port_found rule m)
      (destination_wanted rule ms) (destination_found rule m ms empty)
      (port_wanted rule) (port_found rule m).
Proof. done. Qed.

(** ** Compilation *)

Lemma collect_app {A B} (f : A -> result RouteError B) l k ys zs :
  collect f l = Ok ys -> collect f k = Ok zs -> collect f (l ++ k) = Ok (ys ++ zs).
Proof.
  revert ys. induction l as [|x l IH]; intros ys; cbn; [by intros [= <-]|].
  intros (y & -> & (ys' & El & [= <-])%bind_Ok)%bind_Ok Hk. rbind. rewrite (IH ys' El Hk). done.
Qed.

Lemma collect_existsb {A B} (f : A -> result RouteError B) (g : B -> bool) l ys :
  collect f l = Ok ys ->
  existsb g ys = existsb (fun x => match f x with Ok y => g y | Err _ => false end) l.
Proof.
  revert ys. induction l as [|x l IH]; intros ys; cbn; [by intros [= <-]|].
  intros (y & -> & (ys' & El & [= <-])%bind_Ok)%bind_Ok. cbn. by rewrite (IH ys' El).
Qed.

Lemma collect_nonempty {A B} (f : A -> result RouteError B) l ys :
  collect f l = Ok ys -> nonempty ys = nonempty l.
Proof.
  destruct l as [|x l]; cbn; [by intros [= <-]|]. by intros (y & _ & (ys' & _ & [= <-])%bind_Ok)%bind_Ok.
Qed.

Lemma nonempty_app {A} (l k : list A) : nonempty (l ++ k) = nonempty l || nonempty k.
Proof. by destruct l. Qed.

(** A rule and the conditions it was compiled from. *)
Record compiled (r : RawDefaultRule) (tags : list text) (rule : DefaultRule) : Prop := {
  c_raw : raw rule = r;
  c_sets : rule_sets rule = tags;
  c_version : r_ip_version r = 0 \/ r_ip_version r = 4 \/ r_ip_version r = 6;
  c_items : validate_domain_items (r_domain r) (r_domain_suffix r) = Ok ();
  c_interface : compile_prefix_map (r_interface_address r) = Ok (interface_prefixes rule);
  c_network_interface : compile_prefix_map (r_network_interface_address r) = Ok (network_interface_prefixes rule);
  c_default_interface : compile_prefixes (r_default_interface_address r) = Ok (default_interface_prefixes rule);
  c_domain_regex : compile_regexes (r_domain_regex r) = Ok (domain_regex rule);
  c_process_regex : compile_regexes (r_process_path_regex r) = Ok (process_path_regex rule);
  c_package_regex : compile_regexes (r_package_name_regex r) = Ok (package_name_regex rule);
  c_source : compile_prefixes (r_source_ip_cidr r) = Ok (source_prefixes rule);
  c_destination : compile_prefixes (r_ip_cidr r) = Ok (destination_prefixes rule);
  c_source_ports : compile_port_ranges (r_source_port_range r) = Ok (source_port_ranges rule);
  c_ports : compile_port_ranges (r_port_range r) = Ok (port_ranges rule);
}.

Lemma from_raw_compiled r tags rule : from_raw r tags = Ok rule <-> compiled r tags rule.
Proof.
  unfold from_raw. split.
  - case_decide as Hv; [done|].
    intros ([] & E1 & (x1 & E2 & (x2 & E3 & (x3 & E4 & (x4 & E5 & (x5 & E6 & (x6 & E7 & (x7 & E8
      & (x8 & E9 & (x9 & E10 & (x10 & E11 & [= <-])%bind_Ok)%bind_Ok)%bind_Ok)%bind_Ok)%bind_Ok)%bind_Ok)%bind_Ok
      )%bind_Ok)%bind_Ok)%bind_Ok)%bind_Ok.
    split; cbn; try done. lia.
  - intros [Er Es Hv Hi H1 H2 H3 H4 H5 H6 H7 H8 H9 H10]. rewrite decide_False by lia.
    rewrite Hi, H1, H2, H3, H4, H5, H6, H7, H8, H9, H10. rbind. subst r tags. by destruct rule.
Qed.

(** ** The conditions of a rule, read off its source *)

Definition in_cidr (values : list text) (a : IpAddr) : Prop :=
  exists v n, v ∈ values /\ IpSet.parse_prefix v = Some n /\ net_contains n a = true.

Definition regex_hit (patterns : list text) (s : text) : Prop :=
  exists p r, p ∈ patterns /\ regex_new p = Some r /\ is_match r s = true.

Definition address_hit (values : list text) (private : bool) (a : IpAddr) : Prop :=
  in_cidr values a \/ (private = true /\ Socks.is_private_address a = true).

Definition domain_hit (r : RawDefaultRule) (d : text) : Prop :=
  Domain.listed (r_domain r) (r_domain_suffix r) d = true
  \/ (exists k, k ∈ r_domain_keyword r /\ contains d (to_ascii_lowercase k) = true)
  \/ regex_hit (r_domain_regex r) d.

(** The addresses a connection may go to: the one it names, or those it was
    resolved to. *)
Definition goes_to (m : Metadata) (a : IpAddr) : Prop :=
  destination_ip m = Some a \/ (destination_ip m = None /\ a ∈ md_destination_addresses m).

Definition port_hit (exact : list Z) (ranges : list text) (port : Z) : Prop :=
  port ∈ exact \/ exists v r, v ∈ ranges /\ compile_port_range v = Ok r /\ range_contains r port = true.

Definition has_cond {A} (l : list A) : Prop := l <> [].

Record groups_hold (r : RawDefaultRule) (m : Metadata) : Prop := {
  source_group : has_cond (r_source_ip_cidr r) \/ r_source_ip_is_private r = true ->
    exists a, source_ip m = Some a /\ address_hit (r_source_ip_cidr r) (r_source_ip_is_private r) a;
  source_port_group : has_cond (r_source_port r) \/ has_cond (r_source_port_range r) ->
    exists s, md_source m = Some s /\ port_hit (r_source_port r) (r_source_port_range r) (Socks.port s);
  destination_group :
    has_cond (r_domain r) \/ has_cond (r_domain_suffix r) \/ has_cond (r_domain_keyword r)
    \/ has_cond (r_domain_regex r) \/ has_cond (r_ip_cidr r) \/ r_ip_is_private r = true ->
    (exists d, domain m = Some d /\ domain_hit r (normal_domain d))
    \/ (exists a, goes_to m a /\ address_hit (r_ip_cidr r) (r_ip_is_private r) a);
  port_group : has_cond (r_port r) \/ has_cond (r_port_range r) ->
    exists d, md_destination m = Some d /\ port_hit (r_port r) (r_port_range r) (Socks.port d);
}.

Lemma nonempty_spec {A} (l : list A) : nonempty l = true <-> has_cond l.
Proof. by destruct l. Qed.

Lemma existsb_elem {A} (f : A -> bool) l : existsb f l = true <-> exists x, x ∈ l /\ f x = true.
Proof. rewrite existsb_exists. by setoid_rewrite list_elem_of_In. Qed.

Lemma compile_prefix_parse v :
  match net_parse v with
  | Some prefix => Ok prefix
  | None => address ← ok_or PrefixError (IpText.parse_ip v);
            ok_or PrefixError (net_new address (if is_ipv4 address then 32 else 128))
  end = ok_or PrefixError (IpSet.parse_prefix v).
Proof.
  unfold IpSet.parse_prefix. destruct (net_parse v); [done|]. by destruct (IpText.parse_ip v).
Qed.

Lemma in_prefixes_spec values prefixes a :
  compile_prefixes values = Ok prefixes ->
  in_prefixes prefixes (Some a) = true <-> in_cidr values a.
Proof.
  intros E. unfold in_prefixes. rewrite (collect_existsb _ _ _ _ E), existsb_elem. unfold in_cidr.
  setoid_rewrite compile_prefix_parse. split.
  - intros (v & Hv & H). destruct (IpSet.parse_prefix v) as [n|] eqn:Ep; [|done]. eauto 10.
  - intros (v & n & Hv & Ep & H). exists v. split; [done|]. by rewrite Ep.
Qed.

Lemma regex_spec patterns regexes s :
  compile_regexes patterns = Ok regexes ->
  existsb (fun r => is_match r s) regexes = true <-> regex_hit patterns s.
Proof.
  intros E. rewrite (collect_existsb _ _ _ _ E), existsb_elem. unfold regex_hit. split.
  - intros (p & Hp & H). destruct (regex_new p) as [r|] eqn:Ep; [|done]. eauto 10.
  - intros (p & r & Hp & Er & H). exists p. split; [done|]. by rewrite Er.
Qed.

Lemma address_spec values prefixes private a :
  compile_prefixes values = Ok prefixes ->
  (nonempty values && in_prefixes prefixes (Some a)) || (private && is_private (Some a)) = true
  <-> address_hit values private a.
Proof.
  intros E. rewrite orb_true_iff, !andb_true_iff, (in_prefixes_spec _ _ _ E), nonempty_spec.
  unfold address_hit. cbn [is_private]. split; [tauto|]. intros [H|H]; [left|tauto].
  split; [|done]. destruct H as (v & n & Hv & _). intros El. rewrite El in Hv. by apply not_elem_of_nil in Hv.
Qed.

Lemma port_spec exact ranges compiled_ranges port :
  compile_port_ranges ranges = Ok compiled_ranges -> nonempty exact || nonempty compiled_ranges = true ->
  matches_port exact compiled_ranges port = true <-> exists p, port = Some p /\ port_hit exact ranges p.
Proof.
  intros E Hne. assert (matches_port exact compiled_ranges port =
    match port with Some p => bool_decide (p ∈ exact) || existsb (fun r => range_contains r p) compiled_ranges
                  | None => false end) as ->.
  { unfold matches_port. by destruct exact, compiled_ranges. }
  destruct port as [p|]; [|split; [done|by intros (? & ? & _)]].
  rewrite orb_true_iff, bool_decide_eq_true, (collect_existsb _ _ _ _ E), existsb_elem. unfold port_hit. split.
  - intros [H|(v & Hv & H)]; exists p; (split; [done|]); [by left|]. right.
    destruct (compile_port_range v) as [r|] eqn:Er; [|done]. eauto 10.
  - intros (q & [= <-] & [H|(v & r & Hv & Er & H)]); [by left|]. right. exists v. by rewrite Er.
Qed.

Lemma matches_domain_spec r tags rule d :
  compiled r tags rule -> matches_domain rule (Some d) = true <-> domain_hit r (normal_domain d).
Proof.
  intros [Er _ _ _ _ _ _ Hd _ _ _ _ _ _]. unfold matches_domain. rewrite Er. fold (normal_domain d).
  rewrite orb_true_iff, (regex_spec _ _ _ Hd), orb_true_iff, existsb_elem. unfold domain_hit, Domain.listed. tauto.
Qed.

Lemma domain_condition_spec r tags rule :
  compiled r tags rule ->
  has_domain_condition rule = true
  <-> has_cond (r_domain r) \/ has_cond (r_domain_suffix r) \/ has_cond (r_domain_keyword r)
      \/ has_cond (r_domain_regex r).
Proof.
  intros [Er _ _ _ _ _ _ Hd _ _ _ _ _ _]. unfold has_domain_condition.
  rewrite Er, (collect_nonempty _ _ _ Hd), !orb_true_iff, !nonempty_spec. tauto.
Qed.

Lemma holds_spec w f : holds w f = true <-> (w = true -> f = true).
Proof. unfold holds. destruct w, f; cbn; intuition. Qed.

Lemma domain_hit_wanted r d : domain_hit r d ->
  has_cond (r_domain r) \/ has_cond (r_domain_suffix r) \/ has_cond (r_domain_keyword r) \/ has_cond (r_domain_regex r).
Proof.
  unfold domain_hit, Domain.listed, has_cond. rewrite orb_true_iff, !existsb_elem.
  intros [[(x & Hx & _)|(x & Hx & _)]|[(x & Hx & _)|(x & y & Hx & _)]]; [left|right; left|right; right; left|right; right; right];
    intros E; rewrite E in Hx; by apply not_elem_of_nil in Hx.
Qed.

Lemma address_hit_wanted values private a : address_hit values private a -> has_cond values \/ private = true.
Proof.
  intros [(v & n & Hv & _)|[? _]]; [|by right]. left. intros E. rewrite E in Hv. by apply not_elem_of_nil in Hv.
Qed.

Lemma destination_ip_spec r tags rule m :
  compiled r tags rule ->
  matches_destination_ip_address rule m = true
  <-> exists a, goes_to m a /\ address_hit (r_ip_cidr r) (r_ip_is_private r) a.
Proof.
  intros [Er _ _ _ _ _ _ _ _ _ _ Hd _ _]. unfold matches_destination_ip_address, matches_ip_address, goes_to.
  rewrite Er. destruct (destination_ip m) as [a|].
  - rewrite (address_spec _ _ _ _ Hd). split; [eauto|]. by intros (b & [[= <-]|[? _]] & ?).
  - rewrite existsb_elem. split.
    + intros (a & Ha & Hm). rewrite (address_spec _ _ _ _ Hd) in Hm. eauto.
    + intros (a & [?|[_ Ha]] & Hm); [done|]. exists a. split; [done|]. by rewrite (address_spec _ _ _ _ Hd).
Qed.

Lemma source_group_spec r tags rule m :
  compiled r tags rule ->
  holds (source_wanted rule false) (source_found rule m false) = true
  <-> (has_cond (r_source_ip_cidr r) \/ r_source_ip_is_private r = true ->
       exists a, source_ip m = Some a /\ address_hit (r_source_ip_cidr r) (r_source_ip_is_private r) a).
Proof.
  intros [Er _ _ _ _ _ _ _ _ _ Hs _ _ _]. rewrite holds_spec.
  unfold source_found, source_wanted, matches_source_address, has_source_address. rewrite Er.
  cbn [andb]. rewrite !orb_false_r, <-negb_orb.
  destruct (nonempty (r_source_ip_cidr r) || r_source_ip_is_private r) eqn:Ew.
  - cbn [negb andb]. rewrite orb_true_iff, nonempty_spec in Ew.
    assert ((nonempty (r_source_ip_cidr r) && in_prefixes (source_prefixes rule) (source_ip m)
      || r_source_ip_is_private r && is_private (source_ip m)) = true
      <-> exists a, source_ip m = Some a /\ address_hit (r_source_ip_cidr r) (r_source_ip_is_private r) a) as Hf.
    { destruct (source_ip m) as [a|].
      - rewrite (address_spec _ _ _ _ Hs). split; [eauto|]. by intros (b & [= <-] & ?).
      - cbn. rewrite !andb_false_r. split; [done|]. by intros (b & ? & _). }
    rewrite Hf. intuition.
  - rewrite orb_false_iff in Ew. destruct Ew as [Ew1 Ew2]. split; [|done]. intros _ [Hw|Hw]; [|congruence].
    apply nonempty_spec in Hw. congruence.
Qed.

Lemma port_group_spec exact ranges compiled_ranges (a : option SocksAddr) :
  compile_port_ranges ranges = Ok compiled_ranges ->
  holds (nonempty exact || nonempty compiled_ranges) (matches_port exact compiled_ranges (Socks.port <$> a)) = true
  <-> (has_cond exact \/ has_cond ranges -> exists s, a = Some s /\ port_hit exact ranges (Socks.port s)).
Proof.
  intros E. rewrite holds_spec.
  assert (nonempty exact || nonempty compiled_ranges = true <-> has_cond exact \/ has_cond ranges) as Hw.
  { by rewrite (collect_nonempty _ _ _ E), orb_true_iff, !nonempty_spec. }
  rewrite <-Hw. split; intros Hf Hne; specialize (Hf Hne).
  - apply (port_spec _ _ _ _ E Hne) in Hf as (p & Ep & Hp). destruct a as [s|]; [|done]. injection Ep as <-. eauto.
  - apply (port_spec _ _ _ _ E Hne). destruct Hf as (s & -> & Hp). eexists. split; [done|done].
Qed.

Lemma destination_group_spec r tags rule m :
  compiled r tags rule ->
  holds (destination_wanted rule false) (destination_found rule m false false) = true
  <-> (has_cond (r_domain r) \/ has_cond (r_domain_suffix r) \/ has_cond (r_domain_keyword r)
       \/ has_cond (r_domain_regex r) \/ has_cond (r_ip_cidr r) \/ r_ip_is_private r = true ->
       (exists d, domain m = Some d /\ domain_hit r (normal_domain d))
       \/ (exists a, goes_to m a /\ address_hit (r_ip_cidr r) (r_ip_is_private r) a)).
Proof.
  intros Hc. pose proof Hc as [Er _ _ _ _ _ _ _ _ _ _ _ _ _]. rewrite holds_spec.
  assert (destination_wanted rule false = true
    <-> has_cond (r_domain r) \/ has_cond (r_domain_suffix r) \/ has_cond (r_domain_keyword r)
       \/ has_cond (r_domain_regex r) \/ has_cond (r_ip_cidr r) \/ r_ip_is_private r = true) as Hw.
  { unfold destination_wanted, has_destination_ip. rewrite Er. cbn [negb andb].
    rewrite !orb_true_iff, nonempty_spec, (domain_condition_spec _ _ _ Hc). tauto. }
  assert (destination_found rule m false false = true
    <-> (exists d, domain m = Some d /\ domain_hit r (normal_domain d))
        \/ (exists a, goes_to m a /\ address_hit (r_ip_cidr r) (r_ip_is_private r) a)) as Hf.
  { unfold destination_found, has_destination_ip. rewrite Er. cbn [negb andb]. rewrite orb_false_r.
    rewrite orb_true_iff, !andb_true_iff, orb_true_iff, nonempty_spec, (domain_condition_spec _ _ _ Hc),
      (destination_ip_spec _ _ _ _ Hc).
    assert (matches_domain rule (domain m) = true <-> exists d, domain m = Some d /\ domain_hit r (normal_domain d)) as ->.
    { destruct (domain m) as [d|].
      - rewrite (matches_domain_spec _ _ _ _ Hc). split; [eauto|]. by intros (b & [= <-] & ?).
      - split; [done|]. by intros (b & ? & _). }
    split; [tauto|]. intros [(d & Ed & Hd)|(a & Ha & Hh)]; [left|right].
    - split; [by eapply domain_hit_wanted|eauto].
    - split; [by eapply address_hit_wanted|eauto]. }
  by rewrite Hf, Hw.
Qed.

Lemma groups_spec r tags rule m :
  compiled r tags rule ->
  holds (source_wanted rule false) (source_found rule m false)
  && holds (source_port_wanted rule) (source_port_found rule m)
  && holds (destination_wanted rule false) (destination_found rule m false false)
  && holds (port_wanted rule) (port_found rule m) = true <-> groups_hold r m.
Proof.
  intros Hc. pose proof Hc as [Er _ _ _ _ _ _ _ _ _ _ _ Hsp Hp].
  rewrite !andb_true_iff, (source_group_spec _ _ _ _ Hc), (destination_group_spec _ _ _ _ Hc).
  unfold source_port_wanted, source_port_found, port_wanted, port_found. rewrite Er.
  rewrite (port_group_spec _ _ _ _ Hsp), (port_group_spec _ _ _ _ Hp). split.
  - intros [[[? ?] ?] ?]. by split.
  - intros [? ? ? ?]. auto.
Qed.

(** C12: What a rule without rule-sets means.  A rule that compiles matches a
    connection when its other conditions hold and every group it has a
    condition of is satisfied: the source address is in one of its prefixes
    or private, the source port is listed or in a range, the domain or one of
    the destination addresses is named, and the destination port is listed or
    in a range; and an inverted rule matches exactly when this fails. *)
Theorem default_rule_meaning (sets : store) (r : RawDefaultRule) (rule : DefaultRule) (m : Metadata) :
  from_raw r [] = Ok rule ->
  default_matches sets rule m = true
  <-> (if r_invert r then ~ (ordinary_conditions rule m = true /\ groups_hold r m)
       else ordinary_conditions rule m = true /\ groups_hold r m).
Proof.
  intros Hc%from_raw_compiled. pose proof (c_raw _ _ _ Hc) as Er.
  unfold default_matches, evaluate. rewrite (c_sets _ _ _ Hc), evaluate_flags, done_flags, Er.
  destruct (r_invert r); rewrite <-(groups_spec _ _ _ m Hc), <-andb_true_iff, !andb_assoc;
    destruct (_ && holds (port_wanted rule) _); cbn; intuition congruence.
Qed.

(** ** Rule-sets of one rule *)

(** A rule of a rule-set with conditions of the four groups only. *)
Definition groups_only (h : RawHeadlessRule) : Prop :=
  h = mkRawHeadless [] [] (hr_domain h) (hr_domain_suffix h) (hr_domain_keyword h) (hr_domain_regex h) []
        (hr_source_ip_cidr h) (hr_ip_cidr h) (hr_source_port h) (hr_source_port_range h) (hr_port h)
        (hr_port_range h) [] [] [] [] [] [] false false [] [] ∅ [] false.

(** The rule [r] with the conditions of [h] written in it. *)
Definition inline (r : RawDefaultRule) (h : RawHeadlessRule) : RawDefaultRule :=
  let ms := r_rule_set_ip_cidr_match_source r in
  mkRaw (r_inbound r) (r_ip_version r) (r_network r) (r_auth_user r) (r_protocol r) (r_client r)
    (r_domain r ++ hr_domain h) (r_domain_suffix r ++ hr_domain_suffix h)
    (r_domain_keyword r ++ hr_domain_keyword h) (r_domain_regex r ++ hr_domain_regex h)
    (r_source_ip_cidr r ++ hr_source_ip_cidr h ++ if ms then hr_ip_cidr h else []) (r_source_ip_is_private r)
    (r_ip_cidr r ++ if ms then [] else hr_ip_cidr h) (r_ip_is_private r)
    (r_source_port r ++ hr_source_port h) (r_source_port_range r ++ hr_source_port_range h)
    (r_port r ++ hr_port h) (r_port_range r ++ hr_port_range h)
    (r_process_name r) (r_process_path r) (r_process_path_regex r) (r_package_name r) (r_package_name_regex r)
    (r_user r) (r_user_id r) (r_clash_mode r) (r_network_type r) (r_network_is_expensive r)
    (r_network_is_constrained r) (r_wifi_ssid r) (r_wifi_bssid r) (r_interface_address r)
    (r_network_interface_address r) (r_default_interface_address r) (r_source_mac_address r)
    (r_source_hostname r) (r_preferred_by r) [] false (r_invert r).

(** The compiled rule. *)
Definition inline_rule (r : RawDefaultRule) (h : RawHeadlessRule) (A B : DefaultRule) : DefaultRule :=
  let ms := r_rule_set_ip_cidr_match_source r in
  mkDefault (inline r h) (domain_regex A ++ domain_regex B) (process_path_regex A) (package_name_regex A)
    (source_prefixes A ++ source_prefixes B ++ if ms then destination_prefixes B else [])
    (destination_prefixes A ++ if ms then [] else destination_prefixes B)
    (source_port_ranges A ++ source_port_ranges B) (port_ranges A ++ port_ranges B)
    (interface_prefixes A) (network_interface_prefixes A) (default_interface_prefixes A) [].

Lemma existsb_empty (l : list text) : existsb (fun d : text => bool_decide (d = [])) l = false <-> [] ∉ l.
Proof.
  rewrite <-not_true_iff_false, existsb_elem. setoid_rewrite bool_decide_eq_true. split.
  - intros Hn Hin. apply Hn. by exists [].
  - intros Hn (x & Hx & ->). done.
Qed.

Lemma validate_spec ds ss : validate_domain_items ds ss = Ok () <-> [] ∉ ds /\ [] ∉ ss.
Proof.
  unfold validate_domain_items. rewrite <-!existsb_empty.
  destruct (existsb _ ds); [split; [done|by intros [? _]]|].
  destruct (existsb _ ss); [split; [done|by intros [_ ?]]|done].
Qed.

Lemma validate_app ds ds' ss ss' :
  validate_domain_items ds ss = Ok () -> validate_domain_items ds' ss' = Ok () ->
  validate_domain_items (ds ++ ds') (ss ++ ss') = Ok ().
Proof. rewrite !validate_spec, !not_elem_of_app. tauto. Qed.

Lemma inline_compiled r tags h A B :
  compiled r tags A -> compiled (base_of h) [] B -> compiled (inline r h) [] (inline_rule r h A B).
Proof.
  intros [_ _ Hv Hi H1 H2 H3 H4 H5 H6 H7 H8 H9 H10] [_ _ _ Hi' _ _ _ H4' _ _ H7' H8' H9' H10'].
  split; cbn; try done.
  - by apply validate_app.
  - by apply collect_app.
  - apply collect_app; [done|]. apply collect_app; [done|]. by destruct (r_rule_set_ip_cidr_match_source r).
  - apply collect_app; [done|]. by destruct (r_rule_set_ip_cidr_match_source r).
  - by apply collect_app.
  - by apply collect_app.
Qed.

(** What the groups of a rule find, without asking whether they are wanted. *)
Definition found_address (prefixes : list IpNet) (private : bool) (a : option IpAddr) : bool :=
  in_prefixes prefixes a || (private && is_private a).
Definition found_source (rule : DefaultRule) (m : Metadata) (ms : bool) : bool :=
  found_address (source_prefixes rule) (r_source_ip_is_private (raw rule)) (source_ip m)
  || (ms && found_address (destination_prefixes rule) (r_ip_is_private (raw rule)) (source_ip m)).
Definition found_destination (rule : DefaultRule) (m : Metadata) (ms : bool) : bool :=
  matches_domain rule (domain m) || (negb ms && matches_destination_ip_address rule m).
Definition found_port (exact : list Z) (ranges : list PortRange) (port : option Z) : bool :=
  match port with
  | Some p => bool_decide (p ∈ exact) || existsb (fun r => range_contains r p) ranges
  | None => false
  end.

Lemma in_prefixes_app l k a : in_prefixes (l ++ k) a = in_prefixes l a || in_prefixes k a.
Proof. destruct a; [apply existsb_app|done]. Qed.

Lemma nonempty_in_prefixes values prefixes a :
  compile_prefixes values = Ok prefixes -> nonempty values && in_prefixes prefixes a = in_prefixes prefixes a.
Proof.
  intros E. pose proof (collect_nonempty _ _ _ E). destruct values; [|done]. cbn.
  destruct prefixes; [|done]. by destruct a.
Qed.

Lemma matches_ip_address_found r tags rule a :
  compiled r tags rule -> matches_ip_address rule a = found_address (destination_prefixes rule) (r_ip_is_private (raw rule)) a.
Proof.
  intros Hc. unfold matches_ip_address, found_address. rewrite (c_raw _ _ _ Hc).
  by rewrite (nonempty_in_prefixes _ _ _ (c_destination _ _ _ Hc)).
Qed.

Lemma found_address_unwanted values prefixes private a :
  compile_prefixes values = Ok prefixes -> nonempty values || private = false -> found_address prefixes private a = false.
Proof.
  intros E [Hv ->]%orb_false_iff. unfold found_address. rewrite <-(nonempty_in_prefixes _ _ _ E), Hv. done.
Qed.

Lemma source_found_norm r tags rule m ms :
  compiled r tags rule -> source_wanted rule ms && source_found rule m ms = found_source rule m ms.
Proof.
  intros Hc. unfold source_wanted, source_found, found_source, has_source_address, has_destination_ip, matches_source_address.
  rewrite (matches_ip_address_found _ _ _ _ Hc), <-!negb_orb, (c_raw _ _ _ Hc).
  rewrite (nonempty_in_prefixes _ _ _ (c_source _ _ _ Hc)). fold (found_address (source_prefixes rule) (r_source_ip_is_private r) (source_ip m)).
  pose proof (found_address_unwanted _ _ (r_source_ip_is_private r) (source_ip m) (c_source _ _ _ Hc)) as H1.
  pose proof (found_address_unwanted _ _ (r_ip_is_private r) (source_ip m) (c_destination _ _ _ Hc)) as H2.
  destruct (nonempty (r_source_ip_cidr r) || r_source_ip_is_private r),
    (nonempty (r_ip_cidr r) || r_ip_is_private r), ms; cbn;
    rewrite ?H1, ?H2 by done; cbn; rewrite ?andb_true_r, ?orb_false_r; done.
Qed.

Lemma matches_domain_unwanted r tags rule d :
  compiled r tags rule -> has_domain_condition rule = false -> matches_domain rule d = false.
Proof.
  intros Hc. unfold has_domain_condition, matches_domain. destruct d as [d|]; [|done].
  rewrite !orb_false_iff. intros [[[H1 H2] H3] H4].
  destruct (r_domain (raw rule)), (r_domain_suffix (raw rule)), (r_domain_keyword (raw rule)), (domain_regex rule); done.
Qed.

Lemma destination_found_norm r tags rule m ms :
  compiled r tags rule -> destination_wanted rule ms && destination_found rule m ms false = found_destination rule m ms.
Proof.
  intros Hc. unfold destination_wanted, destination_found, found_destination, has_destination_ip.
  pose proof (matches_domain_unwanted _ _ _ (domain m) Hc) as H1.
  assert (nonempty (r_ip_cidr (raw rule)) || r_ip_is_private (raw rule) = false ->
    matches_destination_ip_address rule m = false) as H2.
  { rewrite (c_raw _ _ _ Hc). intros Hw. unfold matches_destination_ip_address.
    assert (forall a, matches_ip_address rule a = false) as Hz.
    { intros a. rewrite (matches_ip_address_found _ _ _ _ Hc), (c_raw _ _ _ Hc).
      by apply (found_address_unwanted _ _ _ _ (c_destination _ _ _ Hc)). }
    destruct (destination_ip m); [apply Hz|]. induction (md_destination_addresses m); [done|]. cbn. by rewrite Hz. }
  rewrite andb_false_l, orb_false_r.
  destruct (has_domain_condition rule), (nonempty (r_ip_cidr (raw rule)) || r_ip_is_private (raw rule)), ms; cbn;
    rewrite ?H1, ?H2 by done; cbn; rewrite ?orb_false_r; done.
Qed.

Lemma port_found_norm exact ranges port :
  (nonempty exact || nonempty ranges) && matches_port exact ranges port = found_port exact ranges port.
Proof. destruct exact, ranges, port; done. Qed.

Lemma holds_norm w f : holds w f = holds w (w && f).
Proof. by destruct w. Qed.

Lemma found_port_app exact exact' ranges ranges' port :
  found_port (exact ++ exact') (ranges ++ ranges') port = found_port exact ranges port || found_port exact' ranges' port.
Proof.
  destruct port as [p|]; [|done]. cbn. rewrite existsb_app.
  assert (bool_decide (p ∈ exact ++ exact') = bool_decide (p ∈ exact) || bool_decide (p ∈ exact')) as ->.
  { apply eq_true_iff_eq. rewrite orb_true_iff, !bool_decide_eq_true. apply elem_of_app. }
  btauto.
Qed.

Lemma inline_source r tags h A B m :
  compiled r tags A -> compiled (base_of h) [] B ->
  let C := inline_rule r h A B in let ms := r_rule_set_ip_cidr_match_source r in
  source_wanted C false = source_wanted A false || source_wanted B ms
  /\ found_source C m false = found_source A m false || found_source B m ms.
Proof.
  intros HA HB C ms.
  unfold source_wanted, found_source, found_address, has_source_address, has_destination_ip. cbn.
  rewrite (c_raw _ _ _ HA), (c_raw _ _ _ HB). cbn. fold ms. rewrite !in_prefixes_app, !nonempty_app.
  assert (nonempty (if ms then hr_ip_cidr h else []) = ms && nonempty (hr_ip_cidr h)) as -> by by destruct ms.
  assert (in_prefixes (if ms then destination_prefixes B else []) (source_ip m)
    = ms && in_prefixes (destination_prefixes B) (source_ip m)) as ->
    by (destruct ms; [done|by destruct (source_ip m)]).
  split; btauto.
Qed.

Lemma matches_domain_inline r tags h A B d :
  compiled r tags A -> compiled (base_of h) [] B ->
  matches_domain (inline_rule r h A B) d = matches_domain A d || matches_domain B d.
Proof.
  intros HA HB. destruct d as [d|]; [|done]. unfold matches_domain. cbn.
  rewrite (c_raw _ _ _ HA), (c_raw _ _ _ HB). cbn. rewrite !existsb_app. btauto.
Qed.

Lemma matches_ip_inline r tags h A B a :
  compiled r tags A -> compiled (base_of h) [] B ->
  let ms := r_rule_set_ip_cidr_match_source r in
  matches_ip_address (inline_rule r h A B) a = matches_ip_address A a || (negb ms && matches_ip_address B a).
Proof.
  intros HA HB ms. pose proof (inline_compiled _ _ _ _ _ HA HB) as HC.
  rewrite (matches_ip_address_found _ _ _ _ HA), (matches_ip_address_found _ _ _ _ HB),
    (matches_ip_address_found _ _ _ _ HC). unfold found_address. cbn.
  rewrite (c_raw _ _ _ HA), (c_raw _ _ _ HB). cbn. fold ms. rewrite in_prefixes_app.
  assert (in_prefixes (if ms then [] else destination_prefixes B) a
    = negb ms && in_prefixes (destination_prefixes B) a) as -> by (destruct ms; [by destruct a|done]).
  btauto.
Qed.

Lemma existsb_orb {A} (f g : A -> bool) l : existsb (fun x => f x || g x) l = existsb f l || existsb g l.
Proof. induction l as [|x l IH]; cbn; [done|]. rewrite IH. btauto. Qed.

Lemma existsb_andb_l {A} (b : bool) (f : A -> bool) l : existsb (fun x => b && f x) l = b && existsb f l.
Proof. induction l as [|x l IH]; cbn; [by rewrite andb_false_r|]. rewrite IH. btauto. Qed.

Lemma existsb_ext' {A} (f g : A -> bool) l : (forall x, f x = g x) -> existsb f l = existsb g l.
Proof. intros E. induction l as [|x l IH]; cbn; [done|]. by rewrite E, IH. Qed.

Lemma inline_destination r tags h A B m :
  compiled r tags A -> compiled (base_of h) [] B ->
  let C := inline_rule r h A B in let ms := r_rule_set_ip_cidr_match_source r in
  destination_wanted C false = destination_wanted A false || destination_wanted B ms
  /\ found_destination C m false = found_destination A m false || found_destination B m ms.
Proof.
  intros HA HB C ms. split.
  - unfold destination_wanted, has_destination_ip, has_domain_condition. cbn.
    rewrite (c_raw _ _ _ HA), (c_raw _ _ _ HB). cbn. fold ms. rewrite !nonempty_app.
    assert (nonempty (if ms then [] else hr_ip_cidr h) = negb ms && nonempty (hr_ip_cidr h)) as -> by by destruct ms.
    btauto.
  - unfold found_destination, C. rewrite (matches_domain_inline _ _ _ _ _ _ HA HB).
    assert (matches_destination_ip_address (inline_rule r h A B) m
      = matches_destination_ip_address A m || (negb ms && matches_destination_ip_address B m)) as ->.
    { unfold matches_destination_ip_address. destruct (destination_ip m).
      - apply (matches_ip_inline _ _ _ _ _ _ HA HB).
      - rewrite <-existsb_andb_l, <-existsb_orb. apply existsb_ext'. intros a.
        apply (matches_ip_inline _ _ _ _ _ _ HA HB). }
    cbn. btauto.
Qed.

Lemma base_ordinary h B m : groups_only h -> compiled (base_of h) [] B -> ordinary_conditions B m = true.
Proof.
  intros Hh HB. pose proof HB as [Er _ _ _ H1 H2 H3 _ H5 H6 _ _ _ _].
  rewrite Hh in Er, H1, H2, H3, H5, H6. cbn in H1, H2, H3, H5, H6.
  unfold compile_prefix_map in H1, H2. rewrite map_to_list_empty in H1, H2. cbn in H1, H2.
  injection H1 as H1. injection H2 as H2. injection H3 as H3. injection H5 as H5. injection H6 as H6.
  unfold ordinary_conditions. rewrite Er, <-H1, <-H2, <-H3, <-H5, <-H6. cbn. reflexivity.
Qed.

Lemma headless_flags hr h m ms empty :
  groups_only hr -> compile_with_matchers hr None None = Ok h ->
  compiled (base_of hr) [] (h_base h) /\ r_invert (raw (h_base h)) = false
  /\ headless_evaluate h m ms empty
     = flags true (source_wanted (h_base h) ms) (source_found (h_base h) m ms)
         (source_port_wanted (h_base h)) (source_port_found (h_base h) m)
         (destination_wanted (h_base h) ms) (destination_found (h_base h) m ms empty)
         (port_wanted (h_base h)) (port_found (h_base h) m).
Proof.
  intros Hh E. unfold compile_with_matchers in E. destruct (_ && _ && _); [done|].
  apply bind_Ok in E as (np & En & (dp & Ed & (ar & Ea & (base & Eb & [= <-])%bind_Ok)%bind_Ok)%bind_Ok).
  apply from_raw_compiled in Eb. cbn [h_base].
  assert (r_invert (raw base) = false) as Hi by (rewrite (c_raw _ _ _ Eb), Hh; done).
  split; [done|]. split; [done|]. rewrite Hh in En, Ed, Ea. cbn in En, Ed, Ea.
  unfold compile_prefix_map in En. rewrite map_to_list_empty in En. cbn in En.
  injection En as <-. injection Ed as <-. injection Ea as <-.
  unfold headless_evaluate. cbn [h_base h_query_type h_network_interface_prefixes h_default_interface_prefixes
    h_adguard_regex h_compact_domain h_compact_adguard].
  rewrite evaluate_flags, (base_ordinary hr) by done.
  replace (matches_optional (hr_query_type hr) (md_query_type m)) with true by by rewrite Hh.
  assert (matches_interface_prefixes ∅ (md_network_interface_address m) = true) as ->
    by (unfold matches_interface_prefixes; by rewrite map_to_list_empty).
  destruct (flags_spec true (source_wanted base ms) (source_found base m ms) (source_port_wanted base)
    (source_port_found base m) (destination_wanted base ms) (destination_found base m ms empty)
    (port_wanted base) (port_found base m)) as (_ & Ho & _).
  destruct (flags true _ _ _ _ _ _ _ _) as [o q st]. cbn in *. by subst o.
Qed.

Lemma port_inline e e' l l' p :
  holds (nonempty (e ++ e') || nonempty (l ++ l')) (matches_port (e ++ e') (l ++ l') p)
  = holds ((nonempty e || nonempty l) || (nonempty e' || nonempty l'))
      ((nonempty e || nonempty l) && matches_port e l p || (nonempty e' || nonempty l') && matches_port e' l' p).
Proof.
  rewrite holds_norm, !port_found_norm, found_port_app, !nonempty_app. f_equal. btauto.
Qed.

Lemma source_inline r tags h A B m :
  compiled r tags A -> compiled (base_of h) [] B ->
  let C := inline_rule r h A B in let ms := r_rule_set_ip_cidr_match_source r in
  holds (source_wanted C false) (source_found C m false)
  = holds (source_wanted A false || source_wanted B ms)
      (source_wanted A false && source_found A m false || source_wanted B ms && source_found B m ms).
Proof.
  intros HA HB C ms. pose proof (inline_compiled _ _ _ _ _ HA HB) as HC.
  destruct (inline_source _ _ _ _ _ m HA HB) as [W F].
  rewrite holds_norm, (source_found_norm _ _ _ _ _ HC), (source_found_norm _ _ _ _ _ HA), (source_found_norm _ _ _ _ _ HB).
  unfold C. by rewrite W, F.
Qed.

Lemma destination_inline r tags h A B m :
  compiled r tags A -> compiled (base_of h) [] B ->
  let C := inline_rule r h A B in let ms := r_rule_set_ip_cidr_match_source r in
  holds (destination_wanted C false) (destination_found C m false false)
  = holds (destination_wanted A false || destination_wanted B ms)
      (destination_wanted A false && destination_found A m false false
       || destination_wanted B ms && destination_found B m ms false).
Proof.
  intros HA HB C ms. pose proof (inline_compiled _ _ _ _ _ HA HB) as HC.
  destruct (inline_destination _ _ _ _ _ m HA HB) as [W F].
  rewrite holds_norm, (destination_found_norm _ _ _ _ _ HC), (destination_found_norm _ _ _ _ _ HA),
    (destination_found_norm _ _ _ _ _ HB).
  unfold C. by rewrite W, F.
Qed.

(** C13: A rule-set of one rule means its conditions written in the rule that
    refers to it.  For a rule with one rule-set whose only rule names
    addresses, domains and ports, the rule with the two lists of every group
    joined compiles, and matches exactly the same connections; with
    [rule_set_ip_cidr_match_source] the prefixes of the rule-set join those
    of the source. *)
Theorem rule_set_inlined (sets : store) (r : RawDefaultRule) (tag : text) (hr : RawHeadlessRule) (A : DefaultRule) (h : HeadlessDefaultRule) :
  from_raw r [tag] = Ok A -> groups_only hr -> compile_with_matchers hr None None = Ok h ->
  sets !! tag = Some [HDefault h] ->
  exists C, from_raw (inline r hr) [] = Ok C
    /\ forall m, default_matches sets A m = default_matches sets C m.
Proof.
  intros HA%from_raw_compiled Hh Eh Es.
  destruct (headless_flags hr h metadata_default false false Hh Eh) as (HB & Hi & _).
  set (B := h_base h) in *. set (C := inline_rule r hr A B).
  exists C. split; [apply from_raw_compiled; by eapply inline_compiled|]. intros m.
  destruct (headless_flags hr h m (r_rule_set_ip_cidr_match_source r) false Hh Eh) as (_ & _ & Ef).
  unfold default_matches. change (rule_sets C) with (@nil text). rewrite (c_sets _ _ _ HA), (c_raw _ _ _ HA).
  cbn [existsb]. rewrite Es, orb_false_r. unfold matches_with_outer_accept_empty, evaluate. fold B. rewrite Hi, Ef.
  rewrite !evaluate_flags, done_merge_flags, done_flags. fold B.
  change (r_invert (raw C)) with (r_invert r). f_equal.
  unfold C. rewrite (source_inline _ _ _ _ _ _ HA HB), (destination_inline _ _ _ _ _ _ HA HB). fold C.
  assert (ordinary_conditions C m = ordinary_conditions A m) as ->
    by (unfold ordinary_conditions; by rewrite (c_raw _ _ _ HA)).
  unfold source_port_wanted, source_port_found, port_wanted, port_found, C, inline_rule.
  cbn [raw source_port_ranges port_ranges inline r_source_port r_port].
  rewrite !port_inline, (c_raw _ _ _ HA), (c_raw _ _ _ HB), andb_true_r. reflexivity.
Qed.

(** ** Binary rule-sets *)

Lemma require_destination o w0 f0 w1 f1 w2 f2 w3 f3 w f :
  require MATCH_DESTINATION_ADDRESS w f (flags o w0 f0 w1 f1 w2 f2 w3 f3)
  = flags o w0 f0 w1 f1 (w2 || w) (w2 && f2 || w && f) w3 f3.
Proof. destruct w, f, w0, f0, w1, f1, w2, f2, w3, f3; reflexivity. Qed.

Lemma flags_ordinary o b w0 f0 w1 f1 w2 f2 w3 f3 :
  let r := flags o w0 f0 w1 f1 w2 f2 w3 f3 in
  mkMatch (ordinary r && b) (required r) (satisfied r) = flags (o && b) w0 f0 w1 f1 w2 f2 w3 f3.
Proof. destruct w0, f0, w1, f1, w2, f2, w3, f3; reflexivity. Qed.

(** The conditions a rule-set's rule adds to the ordinary ones. *)
Definition extra_conditions (h : HeadlessDefaultRule) (m : Metadata) : bool :=
  matches_optional (h_query_type h) (md_query_type m)
  && matches_interface_prefixes (h_network_interface_prefixes h) (md_network_interface_address m)
  && matches_any_prefix (h_default_interface_prefixes h) (md_default_interface_address m).

Definition adguard_found (h : HeadlessDefaultRule) (m : Metadata) : bool :=
  on_domain (fun d => existsb (fun pattern => is_match pattern d) (h_adguard_regex h)) m.
Definition compact_found (set : option SuccinctSet) (f : SuccinctSet -> text -> bool) (m : Metadata) : bool :=
  match set with Some s => on_domain (fun d => f s (normal_domain d)) m | None => false end.
Definition is_some {A} (o : option A) : bool := match o with Some _ => true | None => false end.

Lemma headless_flags_general h m ms empty :
  let B := h_base h in
  headless_evaluate h m ms empty
  = flags (ordinary_conditions B m && extra_conditions h m) (source_wanted B ms) (source_found B m ms)
      (source_port_wanted B) (source_port_found B m)
      (destination_wanted B ms || nonempty (h_adguard_regex h) || is_some (h_compact_domain h)
       || is_some (h_compact_adguard h))
      (destination_wanted B ms && destination_found B m ms empty
       || nonempty (h_adguard_regex h) && adguard_found h m
       || compact_found (h_compact_domain h) Succinct.matches_domain m
       || compact_found (h_compact_adguard h) AdGuard.matches_adguard m)
      (port_wanted B) (port_found B m).
Proof.
  intros B. unfold headless_evaluate. rewrite evaluate_flags, flags_ordinary, require_destination.
  fold (adguard_found h m) (extra_conditions h m).
  destruct (h_compact_domain h) as [s1|], (h_compact_adguard h) as [s2|]; cbn [is_some compact_found];
    rewrite ?require_destination; f_equal; unfold B; btauto.
Qed.

(** The rule without the names its succinct set holds. *)
Definition without_names (hr : RawHeadlessRule) : RawHeadlessRule :=
  mkRawHeadless (hr_query_type hr) (hr_network hr) [] [] (hr_domain_keyword hr) (hr_domain_regex hr)
    (hr_adguard_domain hr) (hr_source_ip_cidr hr) (hr_ip_cidr hr) (hr_source_port hr) (hr_source_port_range hr)
    (hr_port hr) (hr_port_range hr) (hr_process_name hr) (hr_process_path hr) (hr_process_path_regex hr)
    (hr_package_name hr) (hr_package_name_regex hr) (hr_network_type hr) (hr_network_is_expensive hr)
    (hr_network_is_constrained hr) (hr_wifi_ssid hr) (hr_wifi_bssid hr) (hr_network_interface_address hr)
    (hr_default_interface_address hr) (hr_invert hr).

Definition base_without (hr : RawHeadlessRule) (B : DefaultRule) : DefaultRule :=
  mkDefault (base_of (without_names hr)) (domain_regex B) (process_path_regex B) (package_name_regex B)
    (source_prefixes B) (destination_prefixes B) (source_port_ranges B) (port_ranges B) (interface_prefixes B)
    (network_interface_prefixes B) (default_interface_prefixes B) [].

Lemma base_without_compiled hr B :
  compiled (base_of hr) [] B -> compiled (base_of (without_names hr)) [] (base_without hr B).
Proof. intros [_ _ Hv _ H1 H2 H3 H4 H5 H6 H7 H8 H9 H10]. by split. Qed.

(** The destination group of a rule with its names moved to a set. *)
Lemma destination_without hr B m ms empty :
  compiled (base_of hr) [] B -> hr_domain hr ++ hr_domain_suffix hr <> [] ->
  let B' := base_without hr B in
  destination_wanted B ms = true
  /\ destination_found B m ms empty
     = (destination_wanted B' ms && destination_found B' m ms empty)
       || on_domain (fun d => Domain.listed (hr_domain hr) (hr_domain_suffix hr) (normal_domain d)) m.
Proof.
  intros Hc Hne B'. pose proof (c_raw _ _ _ Hc) as Er.
  assert (has_domain_condition B = true) as Hd.
  { unfold has_domain_condition. rewrite Er. cbn. destruct (hr_domain hr); [|done].
    by destruct (hr_domain_suffix hr). }
  assert (matches_domain B (domain m) = matches_domain B' (domain m)
    || on_domain (fun d => Domain.listed (hr_domain hr) (hr_domain_suffix hr) (normal_domain d)) m) as Em.
  { unfold on_domain, matches_domain. destruct (domain m) as [d|]; [|done]. fold (normal_domain d).
    rewrite Er. cbn. unfold Domain.listed. btauto. }
  pose proof (matches_domain_unwanted _ _ _ (domain m) (base_without_compiled _ _ Hc)) as Hu. fold B' in Hu.
  split; [unfold destination_wanted; by rewrite Hd|].
  unfold destination_found, destination_wanted.
  assert (has_destination_ip B = has_destination_ip B') as -> by (unfold has_destination_ip; by rewrite Er).
  assert (matches_destination_ip_address B m = matches_destination_ip_address B' m) as ->
    by (unfold matches_destination_ip_address, matches_ip_address; by rewrite Er).
  rewrite Hd, Em. cbn [andb]. destruct (has_domain_condition B') eqn:E.
  - cbn. btauto.
  - rewrite Hu by done. cbn.
    destruct ms, (has_destination_ip B'), (on_domain _ m), (matches_destination_ip_address B' m), empty; cbn; btauto.
Qed.

Lemma without_ordinary hr B m :
  compiled (base_of hr) [] B -> ordinary_conditions (base_without hr B) m = ordinary_conditions B m.
Proof. intros Hc. unfold ordinary_conditions. by rewrite (c_raw _ _ _ Hc). Qed.

(** A rule with a set in place of its names. *)
Lemma without_evaluate (hr : RawHeadlessRule) (s : SuccinctSet) (h : HeadlessDefaultRule) :
  hr_domain hr ++ hr_domain_suffix hr <> [] ->
  (forall d, Domain.plain d -> Succinct.matches_domain s d = Domain.listed (hr_domain hr) (hr_domain_suffix hr) d) ->
  compile_with_matchers hr None None = Ok h ->
  exists h', compile_with_matchers (without_names hr) (Some s) None = Ok h'
    /\ r_invert (raw (h_base h')) = r_invert (raw (h_base h))
    /\ forall m ms empty, (forall d, domain m = Some d -> Domain.plain (normal_domain d)) ->
       headless_evaluate h' m ms empty = headless_evaluate h m ms empty.
Proof.
  intros Hne Hm E. unfold compile_with_matchers in E. destruct (_ && _ && _); [done|].
  apply bind_Ok in E as (np & En & (dp & Ed & (ar & Ea & (B & HB & [= <-])%bind_Ok)%bind_Ok)%bind_Ok).
  apply from_raw_compiled in HB. pose proof (base_without_compiled _ _ HB) as HB'.
  unfold compile_with_matchers. rewrite (bool_decide_eq_false_2 (Some s = None)), andb_false_r by done. cbn [andb].
  cbn [without_names hr_network_interface_address hr_default_interface_address hr_adguard_domain hr_query_type].
  rewrite En, Ed, Ea. rbind. apply from_raw_compiled in HB'. rewrite HB'. rbind.
  eexists. split; [done|]. split; [by cbn; rewrite (c_raw _ _ _ HB)|]. intros m ms empty Hp.
  rewrite !headless_flags_general. cbn [h_base h_query_type h_network_interface_prefixes
    h_default_interface_prefixes h_adguard_regex h_compact_domain h_compact_adguard is_some compact_found].
  destruct (destination_without hr B m ms empty HB Hne) as [-> ->].
  assert (on_domain (fun d => Succinct.matches_domain s (normal_domain d)) m
    = on_domain (fun d => Domain.listed (hr_domain hr) (hr_domain_suffix hr) (normal_domain d)) m) as ->.
  { unfold on_domain. destruct (domain m) as [d|]; [|done]. by apply Hm, Hp. }
  rewrite (without_ordinary _ _ _ HB).
  unfold source_wanted, source_found, source_port_wanted, source_port_found, port_wanted, port_found,
    has_source_address, has_destination_ip, matches_source_address, matches_ip_address, extra_conditions, adguard_found.
  rewrite (c_raw _ _ _ HB). cbn [base_without raw source_prefixes destination_prefixes source_port_ranges port_ranges
    base_of without_names r_source_ip_cidr r_source_ip_is_private r_ip_cidr r_ip_is_private r_source_port r_port
    hr_source_ip_cidr hr_ip_cidr hr_source_port hr_port h_query_type h_network_interface_prefixes
    h_default_interface_prefixes h_adguard_regex].
  rewrite !orb_true_r, !orb_false_r. cbn [orb andb]. f_equal; btauto.
Qed.

(** The binary form of a rule-set means its source form.  When the names
    of a rule are compiled to a succinct set, written, and read back, the
    rule with the set in place of its names compiles and matches the same
    connections, for every domain in plain ASCII. *)
Theorem binary_rule_agrees (hr : RawHeadlessRule) (legacy : bool) (keys : list (list Z)) (w : list Z) (s : SuccinctSet) (h : HeadlessDefaultRule) :
  Forall Domain.name_ok (hr_domain hr) -> Forall Domain.suffix_ok (hr_domain_suffix hr) ->
  hr_domain hr ++ hr_domain_suffix hr <> [] ->
  Domain.build_domain_keys (hr_domain hr) (hr_domain_suffix hr) legacy = Ok keys ->
  Z.of_nat (sum_list (length <$> keys)) <= MAX_COLLECTION_LENGTH ->
  Succinct.write_succinct_set keys = Ok w -> Wire.reads Succinct.read_set w s ->
  compile_with_matchers hr None None = Ok h ->
  exists h', compile_with_matchers (without_names hr) (Some s) None = Ok h'
    /\ forall m ms empty, (forall d, domain m = Some d -> Domain.plain (normal_domain d)) ->
       headless_default_matches h' m ms empty = headless_default_matches h m ms empty.
Proof.
  intros Hd Hs Hne Eb Hsize Ew Er E.
  destruct (Domain.compiled_set _ _ legacy keys Hd Hs Hne Eb Hsize) as (w' & s' & Ew' & Er' & Hm).
  rewrite Ew in Ew'. injection Ew' as <-. specialize (Er []). rewrite (Er' []) in Er. injection Er as ->.
  destruct (without_evaluate hr s h Hne Hm E) as (h' & E' & Ei & He). exists h'. split; [done|].
  intros m ms empty Hp. unfold headless_default_matches. by rewrite He, Ei.
Qed.

(** ** The categories of a rule-set *)

(** The default rules of a rule. *)
Fixpoint leaves_of (rule : HeadlessRule) : list HeadlessDefaultRule :=
  match rule with
  | HDefault h => [h]
  | HLogical _ rules _ => concat (leaves_of <$> rules)
  end.

Lemma headless_rule_ind (P : HeadlessRule -> Prop) :
  (forall h, P (HDefault h)) ->
  (forall mode rules invert, Forall P rules -> P (HLogical mode rules invert)) -> forall rule, P rule.
Proof.
  intros Hd Hl. fix IH 1. intros [h|mode rules invert]; [apply Hd|]. apply Hl.
  induction rules as [|r rules IHr]; constructor; [apply IH|apply IHr].
Qed.

Lemma accumulate_leaves rule md :
  accumulate_metadata rule md = foldl set_or md (default_metadata <$> leaves_of rule).
Proof.
  revert md. induction rule as [h|mode rules invert IH] using headless_rule_ind; intros md; [done|].
  cbn [accumulate_metadata leaves_of]. revert md. induction IH as [|r rules Hr _ IH]; intros md; [done|].
  cbn. by rewrite fmap_app, foldl_app, Hr, IH.
Qed.

Lemma set_metadata_leaves rules :
  rule_set_metadata rules = foldl set_or set_default (default_metadata <$> concat (leaves_of <$> rules)).
Proof.
  unfold rule_set_metadata. generalize set_default as md. induction rules as [|r rules IH]; intros md; [done|].
  cbn. by rewrite fmap_app, foldl_app, <-accumulate_leaves, IH.
Qed.

(** A category that a rule-set does not have is one none of its rules has. *)
Lemma category_absent (category : RuleSetMetadata -> bool) rules h :
  (forall a b, category (set_or a b) = category a || category b) ->
  category (rule_set_metadata rules) = false -> h ∈ concat (leaves_of <$> rules) ->
  category (default_metadata h) = false.
Proof.
  intros Hor. rewrite set_metadata_leaves. generalize set_default as md.
  induction (concat (leaves_of <$> rules)) as [|h' l IH]; intros md; [by intros _ ?%not_elem_of_nil|].
  cbn [fmap list_fmap foldl]. intros Hf [->|Hin]%elem_of_cons; [|by eapply IH].
  assert (forall l' md', category (foldl set_or md' l') = false -> category md' = false) as Hmono.
  { induction l' as [|x l' IHl]; intros md' Hx; [done|]. apply IHl in Hx. rewrite Hor in Hx.
    by apply orb_false_iff in Hx as [? _]. }
  apply Hmono in Hf. rewrite Hor in Hf. by apply orb_false_iff in Hf as [_ ?].
Qed.

(** Rules look at the metadata through their default rules only. *)
Lemma matches_leaves rule m m' ms empty empty' :
  Forall (fun h => headless_evaluate h m ms empty = headless_evaluate h m' ms empty') (leaves_of rule) ->
  matches_with_ip_source_accept_empty rule m ms empty = matches_with_ip_source_accept_empty rule m' ms empty'.
Proof.
  induction rule as [h|mode rules invert IH] using headless_rule_ind; cbn [leaves_of]; intros Hl.
  - apply Forall_cons in Hl as [Hl _]. cbn. unfold headless_default_matches. by rewrite Hl.
  - cbn [matches_with_ip_source_accept_empty]. f_equal.
    assert (Forall (fun r => matches_with_ip_source_accept_empty r m ms empty
      = matches_with_ip_source_accept_empty r m' ms empty') rules) as Hr.
    { induction IH as [|r rules Hr _ IH]; [constructor|]. cbn in Hl. apply Forall_app in Hl as [H1 H2].
      constructor; auto. }
    destruct mode; induction Hr as [|r rules Hr _ IHr]; try done; cbn; rewrite Hr;
      (rewrite IHr; [done|by apply Forall_cons in IH as [_ ?]|by apply Forall_app in Hl as [_ ?]]).
Qed.

Lemma outer_leaves rules m m' outer ms empty empty' :
  Forall (fun h => headless_evaluate h m ms empty = headless_evaluate h m' ms empty') (concat (leaves_of <$> rules)) ->
  matches_with_outer_accept_empty rules m outer ms empty = matches_with_outer_accept_empty rules m' outer ms empty'.
Proof.
  intros Hl. unfold matches_with_outer_accept_empty.
  assert (existsb (fun rule => matches_with_ip_source_accept_empty rule m ms empty) rules
    = existsb (fun rule => matches_with_ip_source_accept_empty rule m' ms empty') rules) as ->.
  { induction rules as [|r rules IH]; [done|]. cbn in Hl |- *. apply Forall_app in Hl as [H1 H2].
    by rewrite (matches_leaves _ _ m' _ _ empty' H1), IH. }
  destruct rules as [|[h|] [|]]; try done. apply Forall_cons in Hl as [Hl _]. by rewrite Hl.
Qed.

(** A default rule that was compiled. *)
Definition leaf_ok (h : HeadlessDefaultRule) : Prop :=
  exists hr cd ca, compile_with_matchers hr cd ca = Ok h.

Lemma leaf_base h : leaf_ok h -> exists hr, compiled (base_of hr) [] (h_base h) /\ h_query_type h = hr_query_type hr.
Proof.
  intros (hr & cd & ca & E). exists hr. unfold compile_with_matchers in E. destruct (_ && _ && _); [done|].
  apply bind_Ok in E as (np & _ & (dp & _ & (ar & _ & (B & HB & [= <-])%bind_Ok)%bind_Ok)%bind_Ok).
  by apply from_raw_compiled in HB.
Qed.

Lemma nonempty_false {A} (l : list A) : nonempty l = false <-> l = [].
Proof. by destruct l. Qed.

Ltac unfold_evaluate :=
  unfold headless_evaluate, evaluate_with_ip_source_and_empty, ordinary_conditions.

Lemma leaf_process h m name path package ms empty :
  leaf_ok h -> contains_process_rule (default_metadata h) = false ->
  headless_evaluate h (m <| md_process_name := name |> <| md_process_path := path |>
    <| md_package_name := package |>) ms empty = headless_evaluate h m ms empty.
Proof.
  intros (hr & Hc & _)%leaf_base. cbn. rewrite !orb_false_iff, !nonempty_false.
  intros [[[[H1 H2] H3] H4] H5].
  pose proof (c_process_regex _ _ _ Hc) as E1. pose proof (c_package_regex _ _ _ Hc) as E2.
  rewrite <-(c_raw _ _ _ Hc), H3 in E1. rewrite <-(c_raw _ _ _ Hc), H5 in E2.
  injection E1 as E1. injection E2 as E2.
  unfold_evaluate. rewrite H1, H2, H4, <-E1, <-E2. reflexivity.
Qed.

Lemma leaf_wifi h m ssid bssid ms empty :
  contains_wifi_rule (default_metadata h) = false ->
  headless_evaluate h (m <| md_wifi_ssid := ssid |> <| md_wifi_bssid := bssid |>) ms empty
  = headless_evaluate h m ms empty.
Proof.
  cbn. rewrite !orb_false_iff, !nonempty_false. intros [H1 H2]. unfold_evaluate. rewrite H1, H2. reflexivity.
Qed.

Lemma leaf_query_type h m q ms empty :
  contains_dns_query_type_rule (default_metadata h) = false ->
  headless_evaluate h (m <| md_query_type := q |>) ms empty = headless_evaluate h m ms empty.
Proof. cbn. rewrite nonempty_false. intros H1. unfold_evaluate. rewrite H1. reflexivity. Qed.

Lemma leaf_ip_cidr h m addresses ms empty :
  leaf_ok h -> contains_ip_cidr_rule (default_metadata h) = false ->
  headless_evaluate h (m <| md_destination_addresses := addresses |>) ms empty = headless_evaluate h m ms empty.
Proof.
  intros (hr & Hc & _)%leaf_base. cbn. intros H1.
  assert (has_destination_ip (h_base h) = false) as Hi.
  { unfold has_destination_ip. rewrite H1, (c_raw _ _ _ Hc). done. }
  unfold_evaluate. rewrite Hi, !andb_false_r. reflexivity.
Qed.

(** The compiled parts of conditions that a rule does not have. *)
Lemma compiled_absent r tags rule :
  compiled r tags rule ->
  (r_domain_regex r = [] -> domain_regex rule = []) /\ (r_process_path_regex r = [] -> process_path_regex rule = [])
  /\ (r_package_name_regex r = [] -> package_name_regex rule = [])
  /\ (r_source_port_range r = [] -> source_port_ranges rule = []) /\ (r_port_range r = [] -> port_ranges rule = [])
  /\ (r_interface_address r = ∅ -> interface_prefixes rule = ∅)
  /\ (r_network_interface_address r = ∅ -> network_interface_prefixes rule = ∅)
  /\ (r_default_interface_address r = [] -> default_interface_prefixes rule = []).
Proof.
  intros [_ _ _ _ H1 H2 H3 H4 H5 H6 _ _ H9 H10]. unfold compile_prefix_map in H1, H2.
  repeat split; intros E;
    match goal with
    | H : _ = Ok ?x |- ?x = _ => rewrite E in H; rewrite ?map_to_list_empty in H; cbn in H; by injection H as <-
    end.
Qed.

Lemma no_interface_prefixes m : matches_interface_prefixes ∅ m = true.
Proof. unfold matches_interface_prefixes. by rewrite map_to_list_empty. Qed.

Lemma leaf_only_ip_cidr h m m' ms empty :
  leaf_ok h -> contains_non_ip_cidr_rule (default_metadata h) = false ->
  md_destination m' = md_destination m -> md_destination_addresses m' = md_destination_addresses m ->
  md_source m' = md_source m ->
  headless_evaluate h m' ms empty = headless_evaluate h m ms empty.
Proof.
  intros (hr & Hc & _)%leaf_base. cbn.
  rewrite !orb_false_iff, negb_false_iff, !bool_decide_eq_true, !bool_decide_eq_false, !nonempty_false.
  intros H Ed Ea Es. destruct_and! H. pose proof (c_raw _ _ _ Hc) as Er.
  destruct (compiled_absent _ _ _ Hc) as (K1 & K2 & K3 & K4 & K5 & K6 & K7 & K8). rewrite <-Er in *.
  assert (r_interface_address (raw (h_base h)) = ∅ /\ r_network_interface_address (raw (h_base h)) = ∅
    /\ r_default_interface_address (raw (h_base h)) = [] /\ r_inbound (raw (h_base h)) = []
    /\ r_auth_user (raw (h_base h)) = [] /\ r_protocol (raw (h_base h)) = [] /\ r_client (raw (h_base h)) = []
    /\ r_ip_version (raw (h_base h)) = 0 /\ r_user (raw (h_base h)) = [] /\ r_user_id (raw (h_base h)) = []
    /\ r_clash_mode (raw (h_base h)) = [] /\ r_source_mac_address (raw (h_base h)) = []
    /\ r_source_hostname (raw (h_base h)) = [] /\ r_preferred_by (raw (h_base h)) = []) as Hz by by rewrite Er.
  destruct_and! Hz. unfold_evaluate. unfold has_domain_condition, source_ip, destination_ip, matches_destination_ip_address.
  destruct (h_compact_domain h); [by exfalso; auto|]. destruct (h_compact_adguard h); [by exfalso; auto|].
  repeat match goal with
    | K : ?a = _ -> _, E : ?a = _ |- _ => specialize (K E)
    end.
  repeat match goal with
    | E : _ (raw (h_base h)) = _ |- _ => rewrite !E; clear E
    | E : _ (h_base h) = _ |- _ => rewrite !E; clear E
    | E : _ h = _ |- _ => rewrite !E; clear E
    end.
  rewrite !no_interface_prefixes. unfold destination_ip. rewrite Ed, Ea, Es. reflexivity.
Qed.

(** C34: The categories recorded of a rule-set tell what its rules look at.
    Without process rules the result does not depend on the process or
    package of a connection, without wifi rules not on the wireless network,
    without query types not on the query, without prefixes not on the
    addresses a domain was resolved to; and with nothing but prefixes it
    depends only on the source and the destination. *)
Theorem rule_set_categories (rules : list HeadlessRule) (outer : RuleMatch) (ms empty : bool) :
  Forall leaf_ok (concat (leaves_of <$> rules)) ->
  let md := rule_set_metadata rules in
  let ok m := matches_with_outer_accept_empty rules m outer ms empty in
  (contains_process_rule md = false -> forall m name path package,
     ok (m <| md_process_name := name |> <| md_process_path := path |> <| md_package_name := package |>) = ok m)
  /\ (contains_wifi_rule md = false -> forall m ssid bssid,
     ok (m <| md_wifi_ssid := ssid |> <| md_wifi_bssid := bssid |>) = ok m)
  /\ (contains_dns_query_type_rule md = false -> forall m q, ok (m <| md_query_type := q |>) = ok m)
  /\ (contains_ip_cidr_rule md = false -> forall m addresses,
     ok (m <| md_destination_addresses := addresses |>) = ok m)
  /\ (contains_non_ip_cidr_rule md = false -> forall m m', md_destination m' = md_destination m ->
     md_destination_addresses m' = md_destination_addresses m -> md_source m' = md_source m -> ok m' = ok m).
Proof.
  intros Hl md ok. rewrite Forall_forall in Hl.
  repeat split; intros Hm; intros; apply outer_leaves, Forall_forall; intros h Hh; specialize (Hl h Hh).
  - apply leaf_process; [done|]. by eapply (category_absent contains_process_rule).
  - apply leaf_wifi. by eapply (category_absent contains_wifi_rule).
  - apply leaf_query_type. by eapply (category_absent contains_dns_query_type_rule).
  - apply leaf_ip_cidr; [done|]. by eapply (category_absent contains_ip_cidr_rule).
  - apply leaf_only_ip_cidr; [done| |done..]. by eapply (category_absent contains_non_ip_cidr_rule).
Qed.

End meaning.

(** ** Examples *)

(** Patterns that match the texts that contain them. *)
Definition literal : RegexOps := {|
  Regex := text;
  regex_new p := Some p;
  is_match p s := contains s p;
  regex_escape p := p;
|}.

(** A rule for the port 443 and private addresses or the domain [a.b], and a
    rule of a rule-set for [c] and the ports 80 to 90. *)
Definition example_raw (tags : list text) : RawDefaultRule :=
  mkRaw [] 0 [] [] [] [] [[97; 46; 98]] [] [] [] [] false [] true [] [] [443] [] [] [] [] [] [] [] [] [] []
    false false [] [] ∅ ∅ [] [] [] [] tags false false.

Definition example_headless : RawHeadlessRule :=
  mkRawHeadless [] [] [] [[99]] [] [] [] [] [] [] [] [] [[56; 48; 58; 57; 48]] [] [] [] [] [] []
    false false [] [] ∅ [] false.

Definition example_metadata : Metadata :=
  metadata_default <| md_destination := Some (SocksAddr.Domain [120; 46; 99] 443) |>.

Lemma default_rule_meaning_witness :
  exists rule, @from_raw literal IpSet.Example.ops (example_raw []) [] = Ok rule
    /\ (@default_matches literal IpSet.Example.ops ∅ rule example_metadata = true
         <-> @ordinary_conditions literal IpSet.Example.ops rule example_metadata = true
             /\ @groups_hold literal IpSet.Example.ops (example_raw []) example_metadata).
Proof.
  eexists. split; [reflexivity|].
  apply (@default_rule_meaning literal IpSet.Example.ops ∅ (example_raw [])). reflexivity.
Defined.

Lemma rule_set_inlined_witness :
  exists A h C, @from_raw literal IpSet.Example.ops (example_raw [[116]]) [[116]] = Ok A
    /\ @from_raw literal IpSet.Example.ops (inline (example_raw [[116]]) example_headless) [] = Ok C
    /\ @default_matches literal IpSet.Example.ops {[ [116] := [HDefault h] ]} A example_metadata
       = @default_matches literal IpSet.Example.ops {[ [116] := [HDefault h] ]} C example_metadata.
Proof.
  assert (exists A h, @from_raw literal IpSet.Example.ops (example_raw [[116]]) [[116]] = Ok A
    /\ @compile_with_matchers literal IpSet.Example.ops example_headless None None = Ok h) as (A & h & EA & Eh).
  { eexists _, _. split; reflexivity. }
  destruct (@rule_set_inlined literal IpSet.Example.ops {[ [116] := [HDefault h] ]}
    (example_raw [[116]]) [116] example_headless A h) as (C & EC & Hm).
  - done.
  - done.
  - done.
  - exact (lookup_singleton_eq (M := gmap text) [116] [HDefault h]).
  - exists A, h, C. split; [done|]. split; [done|]. apply Hm.
Defined.

Lemma binary_rule_agrees_witness :
  exists s h h', @compile_with_matchers literal IpSet.Example.ops example_headless None None = Ok h
    /\ @compile_with_matchers literal IpSet.Example.ops (without_names example_headless) (Some s) None = Ok h'
    /\ @headless_default_matches literal IpSet.Example.ops h' example_metadata false false
       = @headless_default_matches literal IpSet.Example.ops h example_metadata false false.
Proof.
  assert (exists h, @compile_with_matchers literal IpSet.Example.ops example_headless None None = Ok h)
    as (h & Eh) by (eexists; reflexivity).
  destruct (Trie.write_read [[99; 10]]) as (w & s & Ts & Ew & Er & _).
  - done.
  - repeat constructor.
  - by vm_compute.
  - destruct (@binary_rule_agrees literal IpSet.Example.ops example_headless false [[99; 10]] w s h)
      as (h' & Eh' & Hm).
    + constructor.
    + constructor; [|constructor]. exists [99].
      split; [repeat constructor; unfold CR, DOT; cbn; try lia; done|]. split; [done|by left].
    + done.
    + by vm_compute.
    + by vm_compute.
    + done.
    + done.
    + done.
    + exists s, h, h'. split; [done|]. split; [done|]. apply Hm. intros d [= <-].
      assert (normal_domain [120; 46; 99] = [120; 46; 99]) as -> by by vm_compute.
      repeat constructor; unfold CR; cbn; lia.
Defined.

Lemma rule_set_categories_witness :
  exists h, @compile_with_matchers literal IpSet.Example.ops example_headless None None = Ok h
    /\ @matches_with_outer_accept_empty literal IpSet.Example.ops [HDefault h]
         (example_metadata <| md_wifi_ssid := [97] |> <| md_wifi_bssid := [98] |>) (mkMatch true 0 0) false false
       = @matches_with_outer_accept_empty literal IpSet.Example.ops [HDefault h] example_metadata
           (mkMatch true 0 0) false false.
Proof.
  assert (exists h, @compile_with_matchers literal IpSet.Example.ops example_headless None None = Ok h)
    as (h & Eh) by (eexists; reflexivity).
  exists h. split; [done|].
  destruct (@rule_set_categories literal IpSet.Example.ops [HDefault h] (mkMatch true 0 0) false false)
    as (_ & Hw & _).
  - constructor; [|constructor]. by eexists _, _, _.
  - apply Hw. cbn in Eh. injection Eh as <-. reflexivity.
Defined.

End Meaning.
