(* ===== verification/RuleSetFile.v ===== *)
(** * Rule-sets from files

    A rule-set is given as JSON or as a binary file.  This file compiles the
    rules of both forms ([HeadlessRule::compile], [compile_runtime_rule] and
    the fields serde reads for them in [route/mod.rs]) and shows that a binary
    file means the JSON it was written from: writing the rules, reading the
    bytes and compiling what was read gives rules that match the same
    connections. *)

From stdpp Require Import base numbers list gmap strings sorting.
From Stdlib Require Import ZArith Lia Btauto.
From S2P Require Import Prelude OvpnText Text IpText SrsWire SrsIpSet SocksAddr SrsSet SrsTrie SrsDomain SrsAdGuard SrsRule RouteRule RouteMatch RouteMeaning.

Local Open Scope Z_scope.
Local Open Scope record_scope.

Module Compile.
Import Json Cond Rules.

(** The fields of [RawHeadlessRule] that serde accepts. *)
Definition fields : list text :=
  str <$> ["type"; "query_type"; "network"; "domain"; "domain_suffix"; "domain_keyword"; "domain_regex";
    "adguard_domain"; "source_ip_cidr"; "ip_cidr"; "source_port"; "source_port_range"; "port"; "port_range";
    "process_name"; "process_path"; "process_path_regex"; "package_name"; "package_name_regex"; "network_type";
    "network_is_expensive"; "network_is_constrained"; "wifi_ssid"; "wifi_bssid"; "network_interface_address";
    "default_interface_address"; "invert"].

Definition known (allowed : list text) (o : Map) : bool := forallb (fun '(k, _) => bool_decide (k ∈ allowed)) o.

(** A field of type [Listable], by default empty. *)
Definition listable {A} (element : Value -> option A) (o : Map) (key : text) : option (list A) :=
  match get o key with
  | None => Some []
  | Some v => mapM element (elements v)
  end.

Definition strings : Map -> text -> option (list text) := listable as_str.

Definition flag (o : Map) (key : text) : option bool :=
  match get o key with
  | None => Some false
  | Some v => as_bool v
  end.

(** A field of type [String], by default empty. *)
Definition string_or_empty (o : Map) (key : text) : option text :=
  match get o key with
  | None => Some []
  | Some v => as_str v
  end.

(** A field of type [HashMap<String, Listable<String>>]. *)
Definition string_map (o : Map) (key : text) : option (gmap text (list text)) :=
  match get o key with
  | None => Some ∅
  | Some v =>
      entries ← as_object v;
      lists ← mapM (fun '(k, v) => l ← mapM as_str (elements v); Some (k, l)) entries;
      Some (list_to_map lists)
  end.

Definition raw_headless (o : Map) : option RawHeadlessRule :=
  if known fields o then
    _ ← string_or_empty o (str "type");
    query_type ← listable QueryType.deserialize o (str "query_type");
    network ← strings o (str "network");
    domain ← strings o (str "domain");
    domain_suffix ← strings o (str "domain_suffix");
    domain_keyword ← strings o (str "domain_keyword");
    domain_regex ← strings o (str "domain_regex");
    adguard_domain ← strings o (str "adguard_domain");
    source_ip_cidr ← strings o (str "source_ip_cidr");
    ip_cidr ← strings o (str "ip_cidr");
    source_port ← listable as_u16 o (str "source_port");
    source_port_range ← strings o (str "source_port_range");
    port ← listable as_u16 o (str "port");
    port_range ← strings o (str "port_range");
    process_name ← strings o (str "process_name");
    process_path ← strings o (str "process_path");
    process_path_regex ← strings o (str "process_path_regex");
    package_name ← strings o (str "package_name");
    package_name_regex ← strings o (str "package_name_regex");
    network_type ← strings o (str "network_type");
    network_is_expensive ← flag o (str "network_is_expensive");
    network_is_constrained ← flag o (str "network_is_constrained");
    wifi_ssid ← strings o (str "wifi_ssid");
    wifi_bssid ← strings o (str "wifi_bssid");
    network_interface_address ← string_map o (str "network_interface_address");
    default_interface_address ← strings o (str "default_interface_address");
    invert ← flag o (str "invert");
    Some (mkRawHeadless query_type network domain domain_suffix domain_keyword domain_regex adguard_domain
      source_ip_cidr ip_cidr source_port source_port_range port port_range process_name process_path
      process_path_regex package_name package_name_regex network_type network_is_expensive network_is_constrained
      wifi_ssid wifi_bssid network_interface_address default_interface_address invert)
  else None.

(** The fields of a logical rule. *)
Definition raw_logical (o : Map) : option (text * list Value * bool) :=
  if known (str <$> ["type"; "mode"; "rules"; "invert"]) o then
    _ ← string_or_empty o (str "type");
    mode ← get o (str "mode") ≫= as_str;
    rules ← match get o (str "rules") with None => Some [] | Some v => as_array v end;
    invert ← flag o (str "invert");
    Some (mode, rules, invert)
  else None.

Definition parse_logical_mode (mode : text) : result RouteError LogicalMode :=
  if decide (mode = str "and") then Ok And
  else if decide (mode = str "or") then Ok Or
  else Err InvalidRuleSet.

Section compile.
Context {RX : RegexOps} {NX : IpNetOps}.

Definition compile_default (o : Map) (domain adguard : option SuccinctSet) : result RouteError HeadlessRule :=
  raw ← ok_or InvalidRuleSet (raw_headless o);
  h ← compile_with_matchers raw domain adguard;
  Ok (HDefault h).

(** [HeadlessRule::compile]; [levels] more levels of rules are accepted. *)
Fixpoint compile (levels : nat) (v : Value) : result RouteError HeadlessRule :=
  match levels with
  | O => Err InvalidRuleSet
  | S levels =>
      o ← ok_or InvalidRuleSet (as_object v);
      kind ← match get o (str "type") with
             | None => Ok []
             | Some (VString kind) => Ok kind
             | Some _ => Err InvalidRuleSet
             end;
      if decide (kind = [] \/ kind = str "default") then compile_default o None None
      else if decide (kind = str "logical") then
        '(mode, rules, invert) ← ok_or InvalidRuleSet (raw_logical o);
        mode ← parse_logical_mode mode;
        if decide (length rules = 0%nat) then Err InvalidRuleSet
        else
          rules ← collect (compile levels) rules;
          Ok (HLogical mode rules invert)
      else Err InvalidRuleSet
  end.

Definition compile_headless_rules (rules : list Value) : result RouteError (list HeadlessRule) :=
  map_err (fun _ => InvalidRuleSet) (collect (compile Writer.LEVELS) rules).

Fixpoint compile_runtime_rule (levels : nat) (rule : RuntimeRule) : result RouteError HeadlessRule :=
  match levels with
  | O => Err InvalidRuleSet
  | S levels =>
      match rule with
      | RuntimeDefault rule => compile_default (value rule) (rt_domain rule) (rt_adguard rule)
      | RuntimeLogical mode rules invert =>
          if decide (length rules = 0%nat) then Err InvalidRuleSet
          else
            rules ← collect (compile_runtime_rule levels) rules;
            Ok (HLogical (match mode with RAnd => And | ROr => Or end) rules invert)
      end
  end.

Definition compile_runtime_rules (rules : list RuntimeRule) : result RouteError (list HeadlessRule) :=
  map_err (fun _ => InvalidRuleSet) (collect (compile_runtime_rule Writer.LEVELS) rules).

Context {ZX : Zlib}.

(** The rules of a source file with a known version; [parse] is the JSON
    parser, with the version and the rules it finds. *)
Definition decode_source_rule_set (parse : list Z -> option (Z * list Value)) (content : list Z)
    : result RouteError (list HeadlessRule) :=
  '(version, rules) ← ok_or InvalidRuleSet (parse content);
  if decide (1 <= version <= 5) then compile_headless_rules rules else Err InvalidRuleSet.

Definition decode_rule_set (parse : list Z -> option (Z * list Value)) (format : text) (content : list Z)
    : result RouteError (list HeadlessRule) :=
  if decide (format = str "source") then decode_source_rule_set parse content
  else if decide (format = str "binary") then
    rules ← map_err (fun _ => InvalidRuleSet) (Reader.read_runtime content); compile_runtime_rules rules
  else Err InvalidRuleSet.
End compile.

End Compile.

(** ** The fields of a rule *)

Module File.
Import Json Cond Match Rules Meaning Compile Writer Reader.

(** The object [o] has the fields [raw]. *)
Record fields_of (o : Map) (raw : RawHeadlessRule) : Prop := {
  f_known : known fields o = true;
  f_kind : exists kind, string_or_empty o (str "type") = Some kind;
  f_query_type : listable QueryType.deserialize o (str "query_type") = Some (hr_query_type raw);
  f_network : strings o (str "network") = Some (hr_network raw);
  f_domain : strings o (str "domain") = Some (hr_domain raw);
  f_domain_suffix : strings o (str "domain_suffix") = Some (hr_domain_suffix raw);
  f_domain_keyword : strings o (str "domain_keyword") = Some (hr_domain_keyword raw);
  f_domain_regex : strings o (str "domain_regex") = Some (hr_domain_regex raw);
  f_adguard_domain : strings o (str "adguard_domain") = Some (hr_adguard_domain raw);
  f_source_ip_cidr : strings o (str "source_ip_cidr") = Some (hr_source_ip_cidr raw);
  f_ip_cidr : strings o (str "ip_cidr") = Some (hr_ip_cidr raw);
  f_source_port : listable as_u16 o (str "source_port") = Some (hr_source_port raw);
  f_source_port_range : strings o (str "source_port_range") = Some (hr_source_port_range raw);
  f_port : listable as_u16 o (str "port") = Some (hr_port raw);
  f_port_range : strings o (str "port_range") = Some (hr_port_range raw);
  f_process_name : strings o (str "process_name") = Some (hr_process_name raw);
  f_process_path : strings o (str "process_path") = Some (hr_process_path raw);
  f_process_path_regex : strings o (str "process_path_regex") = Some (hr_process_path_regex raw);
  f_package_name : strings o (str "package_name") = Some (hr_package_name raw);
  f_package_name_regex : strings o (str "package_name_regex") = Some (hr_package_name_regex raw);
  f_network_type : strings o (str "network_type") = Some (hr_network_type raw);
  f_network_is_expensive : flag o (str "network_is_expensive") = Some (hr_network_is_expensive raw);
  f_network_is_constrained : flag o (str "network_is_constrained") = Some (hr_network_is_constrained raw);
  f_wifi_ssid : strings o (str "wifi_ssid") = Some (hr_wifi_ssid raw);
  f_wifi_bssid : strings o (str "wifi_bssid") = Some (hr_wifi_bssid raw);
  f_network_interface_address : string_map o (str "network_interface_address") = Some (hr_network_interface_address raw);
  f_default_interface_address : strings o (str "default_interface_address") = Some (hr_default_interface_address raw);
  f_invert : flag o (str "invert") = Some (hr_invert raw);
}.

Lemma raw_headless_fields o raw : raw_headless o = Some raw <-> fields_of o raw.
Proof.
  unfold raw_headless. split.
  - destruct (known fields o) eqn:Ek; [|done].
    intros H. repeat (apply bind_Some in H as (? & ? & H)). injection H as <-. by split; eauto.
  - intros []. destruct f_kind0 as [kind Ekind]. rewrite f_known0, Ekind.
    repeat (match goal with H : ?a = Some _ |- context [?a] => rewrite H; clear H end; cbn [mbind option_bind]).
    by destruct raw.
Qed.

(** ** Objects built field by field *)

(** The fields in the order they are read, those that are missing without a
    value. *)
Definition object_of (pieces : list (text * option Value)) : Map :=
  omap (fun '(k, v) => pair k <$> v) pieces.

Fixpoint piece (pieces : list (text * option Value)) (key : text) : option Value :=
  match pieces with
  | [] => None
  | (k, v) :: pieces => if decide (k = key) then v else piece pieces key
  end.

Lemma get_notin o key : key ∉ o.*1 -> get o key = None.
Proof.
  induction o as [|[k v] o IH]; [done|]. cbn. intros H. rewrite decide_False by set_solver. apply IH. set_solver.
Qed.

Lemma object_of_keys pieces key : key ∉ pieces.*1 -> key ∉ (object_of pieces).*1.
Proof.
  induction pieces as [|[k [v|]] pieces IH]; cbn; [done|set_solver|set_solver].
Qed.

Lemma get_object_of pieces key : NoDup pieces.*1 -> get (object_of pieces) key = piece pieces key.
Proof.
  induction pieces as [|[k v] pieces IH]; [done|]. cbn. intros [Hk Hn]%NoDup_cons.
  destruct v as [v|]; cbn; case_decide; simplify_eq; auto.
  apply get_notin. by apply object_of_keys.
Qed.

Lemma insert_notin o key v : key ∉ o.*1 -> Json.insert o key v = o ++ [(key, v)].
Proof.
  induction o as [|[k v'] o IH]; [done|]. cbn. intros H. rewrite decide_False by set_solver. f_equal. apply IH. set_solver.
Qed.

Lemma object_of_snoc pieces key v : object_of (pieces ++ [(key, v)]) = object_of pieces ++ object_of [(key, v)].
Proof. unfold object_of. apply omap_app. Qed.

Lemma insert_object_of pieces key v :
  key ∉ pieces.*1 -> Json.insert (object_of pieces) key v = object_of (pieces ++ [(key, Some v)]).
Proof. intros H. by rewrite insert_notin, object_of_snoc by by apply object_of_keys. Qed.

Lemma known_object_of allowed pieces : Forall (fun k => k ∈ allowed) pieces.*1 -> known allowed (object_of pieces) = true.
Proof.
  unfold known. rewrite forallb_forall. intros H [k v] Hin%list_elem_of_In. apply bool_decide_eq_true.
  rewrite Forall_forall in H. apply H. apply list_elem_of_omap in Hin as ([k' [v'|]] & Hin & E); simplify_eq/=.
  by apply (list_elem_of_fmap_2 fst _ (k, Some v)).
Qed.

(** A list field: missing when it is empty. *)
Definition arr (l : list Value) : option Value := if decide (length l = 0%nat) then None else Some (VArray l).

Lemma insert_array_object_of pieces key l :
  key ∉ pieces.*1 -> insert_array (object_of pieces) key l = object_of (pieces ++ [(key, arr l)]).
Proof.
  intros H. unfold insert_array, arr. case_decide; [|by apply insert_object_of].
  rewrite object_of_snoc. cbn. by rewrite app_nil_r.
Qed.

(** ** Reading the items of a rule *)

Definition rule_of (pieces : list (text * option Value)) (domain adguard : option SuccinctSet) : RuntimeDefaultRule :=
  mkRuntime (object_of pieces) domain adguard.

(** The bytes [w] take the loop from the rule [s] to the rule [t], in at most
    as many rounds as there are bytes. *)
Definition advances (w : list Z) (s t : RuntimeDefaultRule) : Prop :=
  forall fuel last rest, (length w <= fuel)%nat ->
  exists fuel' last', (fuel - length w <= fuel')%nat
    /\ read_items fuel last s (w ++ rest) = read_items fuel' last' t rest.

Lemma advances_nil s : advances [] s s.
Proof. intros fuel last rest Hf. exists fuel, last. split; [lia|done]. Qed.

Lemma advances_app v w s t u : advances v s t -> advances w t u -> advances (v ++ w) s u.
Proof.
  intros Hv Hw fuel last rest Hf. rewrite length_app in *.
  destruct (Hv fuel last (w ++ rest)) as (f1 & l1 & H1 & E1); [lia|].
  destruct (Hw f1 l1 rest) as (f2 & l2 & H2 & E2); [lia|].
  exists f2, l2. split; [lia|]. by rewrite <-app_assoc, E1.
Qed.

Lemma advances_item item w s t :
  item <> ITEM_FINAL -> (forall last, Wire.reads (read_item item last s) w t) -> advances (item :: w) s t.
Proof.
  intros Hi Hr fuel last rest Hf. destruct fuel as [|fuel]; [cbn in Hf; lia|]. exists fuel, (Some item).
  split; [cbn; lia|]. cbn [read_items]. change ((item :: w) ++ rest) with ([item] ++ w ++ rest).
  unfold mbind at 1, method_bind at 1. rewrite Wire.reads_u8. rewrite decide_False by done.
  unfold mbind, method_bind. by rewrite Hr.
Qed.

(** The end of a rule. *)
Definition inverted (invert : bool) (rule : RuntimeDefaultRule) : RuntimeDefaultRule :=
  if invert then mkRuntime (Json.insert (value rule) (str "invert") (VBool true)) (rt_domain rule) (rt_adguard rule)
  else rule.

(** The bytes [w] end the loop, from the rule [s], with the rule [t]. *)
Definition finishes (w : list Z) (s t : RuntimeDefaultRule) : Prop :=
  forall fuel last rest, (length w <= fuel)%nat -> read_items fuel last s (w ++ rest) = (Ok t, rest).

Lemma finishes_final (invert : bool) s : finishes [ITEM_FINAL; Z.b2z invert] s (inverted invert s).
Proof. intros [|fuel] last rest Hf; [cbn in Hf; lia|]. cbn [read_items]. by destruct invert. Qed.

Lemma finishes_app v w s t u : advances v s t -> finishes w t u -> finishes (v ++ w) s u.
Proof.
  intros Hv Hw fuel last rest Hf. rewrite length_app in *.
  destruct (Hv fuel last (w ++ rest)) as (f1 & l1 & H1 & E1); [lia|]. rewrite <-app_assoc, E1. apply Hw. lia.
Qed.

Lemma finishes_reads w t :
  finishes w (rule_of [] None None) t -> Wire.reads read_runtime_default_rule w (RuntimeDefault t).
Proof.
  intros Hw rest. unfold read_runtime_default_rule. unfold mbind, method_bind.
  change (mkRuntime [] None None) with (rule_of [] None None).
  rewrite Hw by (rewrite length_app; lia). done.
Qed.

(** ** Items *)

Definition short {A} (l : list A) : Prop := Z.of_nat (length l) <= MAX_COLLECTION_LENGTH.

(** Strings as Rust has them, of a length the format can hold. *)
Definition strings_ok (l : list text) : Prop := short l /\ Forall (fun s => utf8_valid s = true /\ short s) l.

Lemma rule_of_none pieces key cd ca : rule_of (pieces ++ [(key, None)]) cd ca = rule_of pieces cd ca.
Proof. unfold rule_of. rewrite object_of_snoc. cbn. by rewrite app_nil_r. Qed.

Lemma arr_nil : arr [] = None.
Proof. done. Qed.

(** A list field that is read by [m]. *)
Lemma advances_list {A} (m : Wire.reader (list A)) (inj : A -> Value) item key w l pieces cd ca :
  item <> ITEM_FINAL ->
  (forall last, read_item item last (rule_of pieces cd ca)
     = (values ← m; mret (mkRuntime (insert_array (object_of pieces) key (inj <$> values)) cd ca))) ->
  key ∉ pieces.*1 -> Wire.reads m w l ->
  advances (if decide (length l = 0%nat) then [] else item :: w)
    (rule_of pieces cd ca) (rule_of (pieces ++ [(key, arr (inj <$> l))]) cd ca).
Proof.
  intros Hi Hitem Hk Hm. case_decide as Hl.
  - apply nil_length_inv in Hl as ->. cbn. rewrite arr_nil, rule_of_none. apply advances_nil.
  - apply advances_item; [done|]. intros last. rewrite Hitem. unfold rule_of at 1.
    rewrite <-(insert_array_object_of pieces key (inj <$> l)) by done.
    by apply (Wire.reads_bind_ret m (fun values => mkRuntime (insert_array (object_of pieces) key (inj <$> values)) cd ca)).
Qed.

Lemma decide_nil {A B} (l : list A) (x y : B) `{!Decision (l = [])} :
  (if decide (l = []) then x else y) = if decide (length l = 0%nat) then x else y.
Proof. destruct l; repeat case_decide; done. Qed.

Lemma reads_string s : utf8_valid s = true -> short s -> Wire.reads read_string (write_string s) s.
Proof.
  intros Hu Hs. unfold read_string. rewrite <-(app_nil_r (write_string s)).
  eapply Wire.reads_bind; [by apply Wire.reads_byte_slice|]. rewrite Hu. apply Wire.reads_ret.
Qed.

Lemma reads_string_slice l :
  strings_ok l -> Wire.reads read_string_slice (Wire.write_length l ++ concat (write_string <$> l)) l.
Proof.
  intros [Hl Hs]. eapply Wire.reads_bind; [by apply Wire.reads_length|]. apply Wire.reads_many.
  eapply Forall_impl; [done|]. intros x [? ?]. by apply reads_string.
Qed.

Lemma advances_strings item key l pieces cd ca :
  string_field item = Some key -> item <> ITEM_FINAL -> key ∉ pieces.*1 -> strings_ok l ->
  advances (if decide (l = []) then [] else write_string_item item l)
    (rule_of pieces cd ca) (rule_of (pieces ++ [(key, arr (VString <$> l))]) cd ca).
Proof.
  intros Hf Hi Hk Hl. rewrite decide_nil.
  apply (advances_list read_string_slice VString item key _ l); [done| |done|by apply reads_string_slice].
  intros last. unfold read_item, rule_of. by rewrite Hf.
Qed.

Lemma reads_type_names names ids :
  mapM interface_type_id names = Ok ids -> mapM interface_type_name ids = Ok names /\ length ids = length names.
Proof.
  revert ids. induction names as [|n names IH]; intros ids; cbn.
  - by intros [= <-].
  - intros (id & Ei & (ids' & Em & [= <-])%bind_Ok)%bind_Ok. destruct (IH _ Em) as [E El]. cbn. rewrite E, El.
    split; [|done]. unfold interface_type_id in Ei. repeat case_decide; simplify_eq; done.
Qed.

Lemma advances_network_types names ids pieces cd ca :
  mapM interface_type_id names = Ok ids -> str "network_type" ∉ pieces.*1 -> short names ->
  advances (if decide (names = []) then [] else write_u8_item ITEM_NETWORK_TYPE ids)
    (rule_of pieces cd ca) (rule_of (pieces ++ [(str "network_type", arr (VString <$> names))]) cd ca).
Proof.
  intros [En El]%reads_type_names Hk Hs. case_decide as Hn.
  - subst. cbn. rewrite arr_nil, rule_of_none. apply advances_nil.
  - apply advances_item; [done|]. intros last. rewrite <-(app_nil_r (Wire.write_length ids ++ ids)).
    eapply Wire.reads_bind; [apply Wire.reads_byte_slice; unfold short in Hs; lia|].
    rewrite En. eapply (Wire.reads_bind _ _ [] []); [intros rest; done|].
    rewrite insert_array_object_of by done. apply Wire.reads_ret.
Qed.

Lemma advances_flag (b : bool) item key pieces cd ca :
  (forall last, read_item item last (rule_of pieces cd ca)
     = mret (mkRuntime (Json.insert (object_of pieces) key (VBool true)) cd ca)) ->
  item <> ITEM_FINAL -> key ∉ pieces.*1 ->
  advances (if b then [item] else []) (rule_of pieces cd ca)
    (rule_of (pieces ++ [(key, if b then Some (VBool true) else None)]) cd ca).
Proof.
  intros Hitem Hi Hk. destruct b; [|rewrite rule_of_none; apply advances_nil].
  apply advances_item; [done|]. intros last. rewrite Hitem, insert_object_of by done. apply Wire.reads_ret.
Qed.

Lemma advances_query_types l pieces cd ca :
  str "query_type" ∉ pieces.*1 -> short l -> Forall is_u16 l ->
  advances (if decide (l = []) then [] else write_u16_item ITEM_QUERY_TYPE l)
    (rule_of pieces cd ca) (rule_of (pieces ++ [(str "query_type", arr (QueryType.serialize <$> l))]) cd ca).
Proof.
  intros Hk Hl Hu. case_decide as Hn.
  - subst. cbn. rewrite arr_nil, rule_of_none. apply advances_nil.
  - apply advances_item; [done|]. intros last. rewrite <-(app_nil_r (Wire.write_u16_slice l)).
    eapply Wire.reads_bind; [by apply Wire.reads_u16_slice|]. rewrite insert_object_of by done.
    unfold arr. rewrite decide_False by (rewrite length_fmap; by destruct l). apply Wire.reads_ret.
Qed.

Lemma advances_ports item key l pieces cd ca :
  (forall last, read_item item last (rule_of pieces cd ca)
     = (values ← Wire.read_u16_slice;
        mret (mkRuntime (insert_array (object_of pieces) key ((fun p => VNumber (Some p)) <$> values)) cd ca))) ->
  item <> ITEM_FINAL -> key ∉ pieces.*1 -> short l -> Forall is_u16 l ->
  advances (if decide (l = []) then [] else write_u16_item item l)
    (rule_of pieces cd ca) (rule_of (pieces ++ [(key, arr ((fun p => VNumber (Some p)) <$> l))]) cd ca).
Proof.
  intros Hitem Hi Hk Hl Hu. rewrite decide_nil.
  by apply (advances_list Wire.read_u16_slice (fun p => VNumber (Some p)) item key _ l);
    [| | |apply Wire.reads_u16_slice].
Qed.

(** ** Prefixes *)

Section prefixes.
Context {NX : IpNetOps} {NL : IpNetLaws} {NT : IpNetTextLaws}.

(** Prefixes with the same address and length, which hold the same addresses. *)
Definition same_net (n n' : IpNet) : Prop := net_addr n = net_addr n' /\ net_prefix_len n = net_prefix_len n'.

Lemma same_net_contains n n' a : same_net n n' -> Wire.ip_ok a -> net_contains n a = net_contains n' a.
Proof.
  intros [E1 E2] Ha. apply eq_true_iff_eq. rewrite !IpSet.net_contains_in by done.
  unfold IpSet.in_net. by rewrite E1, E2.
Qed.

Lemma mapM_ok_or {A B E} (f : A -> option B) (e : E) l x :
  mapM f l = Some x -> mapM (fun v => ok_or e (f v)) l = Ok x.
Proof.
  revert x. induction l as [|v l IH]; intros x; cbn; [by intros [= <-]|].
  intros (y & -> & (ys & Ey & [= <-])%bind_Some)%bind_Some. cbn. by rewrite (IH ys).
Qed.

Lemma compile_prefixes_parse l nets : compile_prefixes l = Ok nets <-> mapM IpSet.parse_prefix l = Some nets.
Proof.
  assert (forall v, match net_parse v with
    | Some prefix => Ok prefix
    | None => a ← ok_or PrefixError (IpText.parse_ip v);
              ok_or PrefixError (net_new a (if is_ipv4 a then 32 else 128))
    end = ok_or PrefixError (IpSet.parse_prefix v)) as Hv.
  { intros v. unfold IpSet.parse_prefix. destruct (net_parse v); [done|]. by destruct (IpText.parse_ip v). }
  unfold compile_prefixes. revert nets. induction l as [|v l IH]; intros nets; cbn; [split; by intros [= <-]|].
  rewrite Hv. split.
  - intros (n & En & (ns & Es & [= <-])%bind_Ok)%bind_Ok. apply IH in Es. rewrite Es.
    destruct (IpSet.parse_prefix v); [|done]. by injection En as ->.
  - intros (n & En & (ns & Es & [= <-])%bind_Some)%bind_Some. apply IH in Es. rewrite En. cbn. by rewrite Es.
Qed.

Definition render_net (n : IpNet) : text := IpSet.render_prefix (net_addr n) (net_prefix_len n).

(** The prefixes that are read for the prefixes written. *)
Definition rerender (l : list text) : list text := render_net <$> default [] (mapM IpSet.parse_prefix l).

Lemma compile_rerender l nets :
  compile_prefixes l = Ok nets -> exists nets', compile_prefixes (rerender l) = Ok nets' /\ Forall2 same_net nets nets'.
Proof.
  intros E%compile_prefixes_parse. unfold rerender. rewrite E. change (default [] (Some nets)) with nets. clear E l.
  induction nets as [|n nets (nets' & E & Hs)]; [exists []; by repeat constructor|].
  destruct (net_parse_text (net_addr n) (net_prefix_len n)) as (n' & En & Ha & Hl);
    [apply net_addr_ok|apply net_len_ok|].
  exists (n' :: nets'). split; [|by repeat constructor].
  change (net_parse (render_net n) = Some n') in En. unfold compile_prefixes in *. cbn. rewrite En. rbind.
  by rewrite E.
Qed.

Lemma reads_prefix n : Wire.reads IpSet.read_prefix (Wire.write_ip_address (net_addr n) ++ [net_prefix_len n]) (render_net n).
Proof.
  unfold IpSet.read_prefix. eapply Wire.reads_bind; [apply Wire.reads_ip_addr, net_addr_ok|].
  rewrite <-(app_nil_r [net_prefix_len n]). eapply Wire.reads_bind; [apply Wire.reads_u8|].
  rewrite decide_True by apply net_len_ok. apply Wire.reads_ret.
Qed.

Lemma reads_prefixes l nets w :
  mapM IpSet.parse_prefix l = Some nets -> write_prefixes l = Ok w ->
  length nets = length l /\ Wire.reads (Wire.read_many (length l) IpSet.read_prefix) w (rerender l).
Proof.
  intros E Ew. unfold rerender. rewrite E. change (default [] (Some nets)) with nets.
  enough (length nets = length l
    /\ w = concat ((fun n => Wire.write_ip_address (net_addr n) ++ [net_prefix_len n]) <$> nets)) as [<- ->].
  { split; [done|]. apply Wire.reads_many_map, Forall_true. apply reads_prefix. }
  revert nets w E Ew. induction l as [|v l IH]; intros nets w; cbn.
  - by intros [= <-] [= <-].
  - intros (n & En & (ns & Es & [= <-])%bind_Some)%bind_Some (x & y & Ex & Ey & ->)%Versions.seq_Ok.
    destruct (IH ns y Es Ey) as [<- ->]. unfold IpSet.write_prefix in Ex. rewrite En in Ex. injection Ex as <-. done.
Qed.

Lemma advances_default_interfaces l nets w pieces cd ca :
  mapM IpSet.parse_prefix l = Some nets -> write_prefixes l = Ok w -> short l ->
  str "default_interface_address" ∉ pieces.*1 ->
  advances (if decide (l = []) then [] else [ITEM_DEFAULT_INTERFACE_ADDRESS] ++ Wire.write_length l ++ w)
    (rule_of pieces cd ca)
    (rule_of (pieces ++ [(str "default_interface_address", arr (VString <$> rerender l))]) cd ca).
Proof.
  intros E Ew Hl Hk. destruct (reads_prefixes _ _ _ E Ew) as [Hn Hr]. case_decide as Hz.
  - subst. cbn. rewrite arr_nil, rule_of_none. apply advances_nil.
  - apply advances_item; [done|]. intros last. rewrite <-(app_nil_r w).
    eapply Wire.reads_bind; [by apply Wire.reads_length|]. eapply Wire.reads_bind; [done|].
    rewrite insert_array_object_of by done. apply Wire.reads_ret.
Qed.

(** The prefixes of [l'] hold the addresses of the prefixes of [l]. *)
Definition same_prefixes (l l' : list text) (nets : list IpNet) : Prop :=
  nonempty l' = nonempty l
  /\ exists nets', compile_prefixes l' = Ok nets'
     /\ forall a, Wire.ip_ok a -> in_prefixes nets' (Some a) = in_prefixes nets (Some a).

Lemma compile_blocks blocks :
  Forall IpSet.block_ok blocks ->
  exists nets, compile_prefixes (IpSet.render_block <$> blocks) = Ok nets
    /\ forall a, (exists n, n ∈ nets /\ IpSet.in_net n a) <-> (exists b, b ∈ blocks /\ IpSet.in_block b a).
Proof.
  induction 1 as [|[a p] blocks (Ha & Hp & _) _ (nets & E & Hn)]; [exists []; split; [done|]; set_solver|].
  destruct (net_parse_text a p) as (n & En & Ea & Ep); [done..|].
  exists (n :: nets). change (net_parse (IpSet.render_block (a, p)) = Some n) in En. unfold compile_prefixes in *.
  cbn. rewrite En. rbind. rewrite E. split; [done|]. intros x. rewrite !IpSet.exists_cons, Hn.
  unfold IpSet.in_net. by rewrite Ea, Ep.
Qed.

Lemma in_net_self n : IpSet.in_net n (net_addr n).
Proof. done. Qed.

Lemma in_prefixes_in nets a : Wire.ip_ok a -> in_prefixes nets (Some a) = true <-> exists n, n ∈ nets /\ IpSet.in_net n a.
Proof.
  intros Ha. unfold in_prefixes. rewrite existsb_exists. setoid_rewrite list_elem_of_In.
  split; intros (n & Hn & Hc); exists n; (split; [done|]); by apply IpSet.net_contains_in.
Qed.

Lemma advances_ip_set item key l nets :
  (forall last pieces cd ca, read_item item last (rule_of pieces cd ca)
     = (values ← IpSet.read_ip_set;
        mret (mkRuntime (insert_array (object_of pieces) key (VString <$> values)) cd ca))) ->
  item <> ITEM_FINAL -> short l -> compile_prefixes l = Ok nets ->
  exists w l', IpSet.write_optional_ip_set item l = Ok w /\ same_prefixes l l' nets
    /\ forall pieces cd ca, key ∉ pieces.*1 -> advances w (rule_of pieces cd ca) (rule_of (pieces ++ [(key, arr (VString <$> l'))]) cd ca).
Proof.
  intros Hitem Hi Hl E. destruct (decide (l = [])) as [->|Hne].
  - injection E as <-. exists [], []. split; [done|]. split; [by split; [|exists []]|]. intros pieces cd ca Hk.
    cbn [fmap list_fmap]. rewrite arr_nil, rule_of_none. apply advances_nil.
  - pose proof E as Ep. apply compile_prefixes_parse in Ep.
    destruct (IpSet.write_read_ip_set item l nets) as (body & blocks & Ew & Hr & Hok & _ & Hc); [done..|].
    destruct (compile_blocks blocks Hok) as (nets' & E' & Hn').
    exists (item :: body), (IpSet.render_block <$> blocks). split; [done|].
    assert (blocks <> []) as Hb.
    { destruct nets as [|n nets]; [|intros ->].
      { destruct l; [done|]. by apply bind_Some in Ep as (? & _ & (? & _ & [=])%bind_Some). }
      destruct (Hc (net_addr n)) as [_ Hx]. destruct Hx as (b & Hb & _); [|by apply not_elem_of_nil in Hb].
      exists n. split; [by left|apply in_net_self]. }
    split.
    + split; [by destruct blocks, l|]. exists nets'. split; [done|]. intros a Ha.
      apply eq_true_iff_eq. by rewrite !in_prefixes_in, Hn', Hc by done.
    + intros pieces cd ca Hk.
      pose proof (advances_list IpSet.read_ip_set VString item key body _ pieces cd ca Hi
        (fun last => Hitem last pieces cd ca) Hk Hr) as Ha.
      rewrite decide_False in Ha; [done|]. rewrite length_fmap. by destruct blocks.
Qed.

(** ** Interface addresses *)

Definition lists_of (entries : Map) : option (list (text * list text)) :=
  mapM (fun '(k, v) => l ← mapM as_str (elements v); Some (k, l)) entries.

Definition interfaces_of (lists : list (text * list text)) : Map :=
  (fun '(k, l) => (k, VArray (VString <$> l))) <$> lists.

Definition rerender_all (lists : list (text * list text)) : list (text * list text) :=
  (fun '(k, l) => (k, rerender l)) <$> lists.

Lemma insert_all lists acc :
  NoDup (acc ++ lists).*1 ->
  foldl (fun addresses '(kind, prefixes) => Json.insert addresses kind (VArray (VString <$> prefixes)))
    (interfaces_of acc) lists = interfaces_of (acc ++ lists).
Proof.
  revert acc. induction lists as [|[k l] lists IH]; intros acc Hn; cbn; [by rewrite app_nil_r|].
  rewrite insert_notin.
  - change (interfaces_of acc ++ _) with (interfaces_of acc ++ interfaces_of [(k, l)]).
    unfold interfaces_of at 1 2. rewrite <-fmap_app. fold (interfaces_of (acc ++ [(k, l)])).
    rewrite IH; rewrite <-app_assoc; done.
  - rewrite fmap_app in Hn. apply NoDup_app in Hn as (_ & Hd & _). intros Hin.
    apply (Hd k); [|set_solver]. apply list_elem_of_fmap in Hin as ([k' v] & -> & Hin).
    apply list_elem_of_fmap in Hin as ([k'' l'] & [= -> _] & Hin). by apply (list_elem_of_fmap_2 fst _ (k'', l')).
Qed.

Lemma mapM_strings (l : list text) : mapM as_str (VString <$> l) = Some l.
Proof. induction l as [|x l IH]; [done|]. cbn. by rewrite IH. Qed.

Lemma lists_of_interfaces lists : lists_of (interfaces_of lists) = Some lists.
Proof.
  induction lists as [|[k l] lists IH]; [done|]. cbn. rewrite mapM_strings. cbn. fold (interfaces_of lists).
  unfold lists_of in IH. by rewrite IH.
Qed.

Lemma lists_of_keys entries lists : lists_of entries = Some lists -> lists.*1 = entries.*1.
Proof.
  revert lists. induction entries as [|[k v] entries IH]; intros lists; cbn [lists_of mapM]; [by intros [= <-]|].
  intros ([k' l] & E & (lists' & El & [= <-])%bind_Some)%bind_Some. apply bind_Some in E as (l' & _ & [= -> _]).
  cbn. f_equal. by apply IH.
Qed.

Lemma rerender_keys lists : (rerender_all lists).*1 = lists.*1.
Proof. unfold rerender_all. rewrite <-list_fmap_compose. apply list_fmap_ext. by intros i [k l] _. Qed.

Lemma list_to_map_rerender lists :
  list_to_map (rerender_all lists) = rerender <$> (list_to_map lists : gmap text (list text)).
Proof.
  induction lists as [|[k l] lists IH]; [symmetry; apply fmap_empty|].
  cbn. rewrite fmap_insert. f_equal. exact IH.
Qed.

Lemma reads_interfaces entries lists w :
  lists_of entries = Some lists ->
  Forall (fun '(_, l) => short l /\ exists nets, mapM IpSet.parse_prefix l = Some nets) lists ->
  write_interfaces entries = Ok w ->
  lists.*1 = entries.*1
  /\ Wire.reads (Wire.read_many (length entries) read_interface) w (rerender_all lists).
Proof.
  revert lists w. induction entries as [|[k v] entries IH]; intros lists w;
    cbn [lists_of mapM write_interfaces length Wire.read_many].
  - intros [= <-] _ [= <-]. split; [done|]. apply Wire.reads_ret.
  - intros ([k' l] & E & (lists' & El & [= <-])%bind_Some)%bind_Some [(Hl & nets & Hp) Hf]%Forall_cons.
    apply bind_Some in E as (l' & Es & [= -> ->]).
    intros (id & Ei & (l' & Es' & (x & y & (x1 & x2 & [= <-] & E2 & ->)%Versions.seq_Ok & Ey & ->)%Versions.seq_Ok)%bind_Ok)%bind_Ok.
    unfold value_strings in Es'. rewrite (mapM_ok_or _ _ _ _ Es) in Es'. injection Es' as <-.
    destruct (IH lists' y El Hf Ey) as [Hk Hr]. split; [cbn; by f_equal|].
    change (rerender_all ((k', l) :: lists')) with ((k', rerender l) :: rerender_all lists').
    eapply Wire.reads_bind; [|by apply (Wire.reads_bind_ret _ (cons (k', rerender l)))].
    destruct (reads_prefixes _ _ _ Hp E2) as [_ Hx]. unfold read_interface.
    change ((id :: Wire.write_length l) ++ x2) with ([id] ++ Wire.write_length l ++ x2).
    eapply Wire.reads_bind; [apply Wire.reads_u8|].
    assert (interface_type_name id = Ok k') as ->
      by (unfold interface_type_id in Ei; repeat case_decide; simplify_eq; done).
    eapply (Wire.reads_bind _ _ []); [intros rest; done|].
    eapply Wire.reads_bind; [by apply Wire.reads_length|].
    by apply (Wire.reads_bind_ret _ (pair k')).
Qed.

End prefixes.

(** ** The fields that were written *)

Lemma string_values_strings o key l : strings o key = Some l -> string_values o key = Ok l.
Proof. unfold strings, listable, string_values, value_strings. destruct (get o key); [apply mapM_ok_or|by intros [= <-]]. Qed.

Lemma written_strings o key item l w :
  strings o key = Some l -> write_optional_string_item o key item = Ok w ->
  w = if decide (l = []) then [] else write_string_item item l.
Proof. intros E%string_values_strings. unfold write_optional_string_item. rewrite E. by intros [= <-]. Qed.

Lemma written_ports o key item l w :
  listable as_u16 o key = Some l -> write_optional_u16_item o key item = Ok w ->
  w = if decide (l = []) then [] else write_u16_item item l.
Proof.
  intros E. unfold write_optional_u16_item. assert (u16_values o key = Ok l) as ->; [|by intros [= <-]].
  unfold listable, u16_values in *. destruct (get o key); [by apply mapM_ok_or|by injection E as <-].
Qed.

Lemma written_query_types o l w :
  listable QueryType.deserialize o (str "query_type") = Some l -> write_query_types o = Ok w ->
  w = if decide (l = []) then [] else write_u16_item ITEM_QUERY_TYPE l.
Proof.
  intros E. unfold write_query_types. assert (dns_query_type_values o = Ok l) as ->; [|by intros [= <-]].
  unfold listable, dns_query_type_values in *. destruct (get o _); [by apply mapM_ok_or|by injection E as <-].
Qed.

Lemma bool_value_flag o key b : flag o key = Some b -> bool_value o key = Ok b.
Proof. unfold flag, bool_value. destruct (get o key); [by intros ->|by intros [= <-]]. Qed.

Lemma since_Ok version minimum w x : since version minimum w = Ok x -> w = Ok x.
Proof. unfold since. by case_decide. Qed.

Lemma written_flag o key item version b w :
  flag o key = Some b -> write_flag o key item version = Ok w -> w = if b then [item] else [].
Proof.
  intros E%bool_value_flag. unfold write_flag. rewrite E. rbind.
  destruct b; [intros H%since_Ok|intros H]; by injection H as <-.
Qed.

Lemma written_package_regex o version l w :
  strings o (str "package_name_regex") = Some l -> write_package_regex o version = Ok w ->
  w = if decide (l = []) then [] else write_string_item ITEM_PACKAGE_NAME_REGEX l.
Proof.
  intros E%string_values_strings. unfold write_package_regex. rewrite E. rbind.
  case_decide; [by intros [= <-]|]. intros Hw%since_Ok. by injection Hw as <-.
Qed.

Lemma written_network_types o version l w :
  strings o (str "network_type") = Some l -> write_network_types o version = Ok w ->
  exists ids, mapM interface_type_id l = Ok ids /\ w = if decide (l = []) then [] else write_u8_item ITEM_NETWORK_TYPE ids.
Proof.
  intros E%string_values_strings. unfold write_network_types. rewrite E. rbind.
  case_decide; [intros [= <-]; subst; by exists []|].
  intros (ids & Ei & [= <-])%since_Ok%bind_Ok. eauto.
Qed.

(** ** The fields that are read *)

Lemma field_strings o key l : get o key = arr (VString <$> l) -> strings o key = Some l.
Proof.
  intros E. unfold strings, listable. rewrite E. unfold arr. case_decide as H.
  - by rewrite length_fmap, length_zero_iff_nil in H; subst.
  - apply mapM_strings.
Qed.

Lemma mapM_inj {A B} (f : B -> option A) (g : A -> B) (P : A -> Prop) l :
  (forall x, P x -> f (g x) = Some x) -> Forall P l -> mapM f (g <$> l) = Some l.
Proof. intros Hf. induction 1 as [|x l Hx _ IH]; [done|]. cbn. by rewrite Hf, IH. Qed.

Lemma field_list {A} (element : Value -> option A) (g : A -> Value) (P : A -> Prop) o key l :
  (forall x, P x -> element (g x) = Some x) -> Forall P l -> get o key = arr (g <$> l) ->
  listable element o key = Some l.
Proof.
  intros Hg Hl E. unfold listable. rewrite E. unfold arr. case_decide as H.
  - by rewrite length_fmap, length_zero_iff_nil in H; subst.
  - by apply (mapM_inj element g P).
Qed.

Lemma as_u16_number x : is_u16 x -> as_u16 (VNumber (Some x)) = Some x.
Proof. intros Hx. cbn. rewrite decide_True; [done|]. ilia. Qed.

Lemma deserialize_serialize x : is_u16 x -> QueryType.deserialize (QueryType.serialize x) = Some x.
Proof.
  intros Hx. unfold QueryType.serialize. destruct (QueryType.dns_type_name x) as [name|] eqn:E; [|by apply as_u16_number].
  unfold QueryType.dns_type_name in E. destruct (list_find _ _) as [[i [n v]]|] eqn:El; [|done].
  apply list_find_Some in El as (Hi & -> & _). injection E as <-. cbn [QueryType.deserialize].
  assert (Forall (fun '(n, v) => QueryType.dns_type_number (str n) = Some v) QueryType.types) as Hall
    by (repeat constructor).
  rewrite Forall_lookup in Hall. exact (Hall i (n, x) Hi).
Qed.

Lemma field_flag o key b : get o key = (if b : bool then Some (VBool true) else None) -> flag o key = Some b.
Proof. intros E. unfold flag. rewrite E. by destruct b. Qed.

Definition interface_field (lists : list (text * list text)) : option Value :=
  if decide (length lists = 0%nat) then None else Some (VObject (interfaces_of lists)).

Lemma field_interfaces o key lists :
  get o key = interface_field lists -> string_map o key = Some (list_to_map lists).
Proof.
  intros E. unfold string_map. rewrite E. unfold interface_field. case_decide as H.
  - by rewrite length_zero_iff_nil in H; subst.
  - cbn [as_object mbind option_bind]. fold (lists_of (interfaces_of lists)). by rewrite lists_of_interfaces.
Qed.

Lemma listable_u16 {A} (element : Value -> option A) (P : A -> Prop) o key l :
  (forall v x, element v = Some x -> P x) -> listable element o key = Some l -> Forall P l.
Proof.
  intros He. unfold listable. destruct (get o key) as [v|]; [|by intros [= <-]].
  generalize (elements v). intros vs. revert l. induction vs as [|y vs IH]; intros l; cbn; [by intros [= <-]|].
  intros (x & Ex & (xs & Es & [= <-])%bind_Some)%bind_Some. constructor; eauto.
Qed.

Lemma as_u16_u16 v x : as_u16 v = Some x -> is_u16 x.
Proof. destruct v as [| |[n|]| | |]; try done. cbn. case_decide; [|done]. intros [= <-]. ilia. Qed.

Lemma deserialize_u16 v x : QueryType.deserialize v = Some x -> is_u16 x.
Proof.
  destruct v; try apply as_u16_u16. cbn [QueryType.deserialize]. unfold QueryType.dns_type_number.
  destruct (list_find _ _) as [[i [n y]]|] eqn:El; [|done]. intros [= <-].
  apply list_find_Some in El as (Hi & _).
  assert (Forall (fun '(_, v) => is_u16 v) QueryType.types) as Hall by (repeat constructor; ilia).
  rewrite Forall_lookup in Hall. exact (Hall i (n, y) Hi).
Qed.

(** ** A default rule *)

Section default.
Context {RX : RegexOps} {NX : IpNetOps} {NL : IpNetLaws} {NT : IpNetTextLaws}.

(** A rule within the limits of the format, with names in lower case and
    without AdGuard rules.  The strings are valid UTF-8 and the keys of an
    object distinct, as in every value of Rust. *)
Record writable (o : Map) (raw : RawHeadlessRule) : Prop := {
  w_strings : Forall strings_ok [hr_network raw; hr_domain_keyword raw; hr_domain_regex raw; hr_source_port_range raw;
    hr_port_range raw; hr_process_name raw; hr_process_path raw; hr_process_path_regex raw; hr_package_name raw;
    hr_package_name_regex raw; hr_wifi_ssid raw; hr_wifi_bssid raw];
  w_prefixes : Forall short [hr_source_ip_cidr raw; hr_ip_cidr raw; hr_default_interface_address raw; hr_network_type raw];
  w_numbers : Forall short [hr_query_type raw; hr_source_port raw; hr_port raw];
  w_interfaces : forall entries, get o (str "network_interface_address") = Some (VObject entries) ->
    NoDup entries.*1 /\ short entries;
  w_interface_lists : map_Forall (fun _ l => short l) (hr_network_interface_address raw);
  w_domains : Forall Domain.name_ok (hr_domain raw);
  w_suffixes : Forall Domain.suffix_ok (hr_domain_suffix raw);
  w_keys : forall legacy keys, Domain.build_domain_keys (hr_domain raw) (hr_domain_suffix raw) legacy = Ok keys ->
    Z.of_nat (sum_list (length <$> keys)) <= MAX_COLLECTION_LENGTH;
  w_adguard : hr_adguard_domain raw = [];
}.

(** The rule that is read: the names are in a set, and the prefixes have their
    canonical text. *)
Definition binary_raw (raw : RawHeadlessRule) (source destination : list text) : RawHeadlessRule :=
  mkRawHeadless (hr_query_type raw) (hr_network raw) [] [] (hr_domain_keyword raw) (hr_domain_regex raw)
    [] source destination (hr_source_port raw) (hr_source_port_range raw)
    (hr_port raw) (hr_port_range raw) (hr_process_name raw) (hr_process_path raw) (hr_process_path_regex raw)
    (hr_package_name raw) (hr_package_name_regex raw) (hr_network_type raw) (hr_network_is_expensive raw)
    (hr_network_is_constrained raw) (hr_wifi_ssid raw) (hr_wifi_bssid raw)
    (rerender <$> hr_network_interface_address raw) (rerender (hr_default_interface_address raw)) (hr_invert raw).

(** The set that is read for the names. *)
Definition names_in (raw : RawHeadlessRule) (set : option SuccinctSet) : Prop :=
  match set with
  | None => hr_domain raw = [] /\ hr_domain_suffix raw = []
  | Some s => hr_domain raw ++ hr_domain_suffix raw <> []
              /\ forall d, Domain.plain d ->
                 Succinct.matches_domain s d = Domain.listed (hr_domain raw) (hr_domain_suffix raw) d
  end.

Lemma advances_domains o raw version w :
  fields_of o raw -> writable o raw -> write_domains o version = Ok w ->
  exists set, names_in raw set /\ forall pieces, advances w (rule_of pieces None None) (rule_of pieces set None).
Proof.
  intros Hf Hw. unfold write_domains.
  rewrite (string_values_strings _ _ _ (f_domain _ _ Hf)), (string_values_strings _ _ _ (f_domain_suffix _ _ Hf)).
  rbind. case_decide as Hn; [intros [= <-]; exists None; split; [done|intros; apply advances_nil]|].
  intros (keys & Ek & (x & y & [= <-] & Ey & ->)%Versions.seq_Ok)%bind_Ok.
  destruct (Domain.compiled_set (hr_domain raw) (hr_domain_suffix raw) (bool_decide (version = 1)) keys)
    as (w & s & Ew & Hr & Hm); [apply Hw|apply Hw| |done|by eapply w_keys|].
  { intros [? ?]%app_nil. tauto. }
  rewrite Ew in Ey. injection Ey as ->. exists (Some s). split.
  - split; [|done]. intros [? ?]%app_nil. tauto.
  - intros pieces. apply advances_item; [done|]. intros last. by apply (Wire.reads_bind_ret _ (fun set => mkRuntime _ (Some set) None)).
Qed.

Lemma advances_interfaces o raw version w :
  fields_of o raw -> writable o raw -> write_network_interfaces o version = Ok w ->
  (forall k l, hr_network_interface_address raw !! k = Some l -> exists nets, mapM IpSet.parse_prefix l = Some nets) ->
  exists lists, list_to_map lists = rerender <$> hr_network_interface_address raw
    /\ forall pieces cd, str "network_interface_address" ∉ pieces.*1 -> advances w (rule_of pieces cd None)
         (rule_of (pieces ++ [(str "network_interface_address", interface_field lists)]) cd None).
Proof.
  intros Hf Hw Ew Hp. pose proof (f_network_interface_address _ _ Hf) as Em.
  unfold string_map in Em. unfold write_network_interfaces in Ew.
  assert (w = [] -> hr_network_interface_address raw = ∅ -> exists lists,
    list_to_map lists = rerender <$> hr_network_interface_address raw
    /\ forall pieces cd, str "network_interface_address" ∉ pieces.*1 -> advances w (rule_of pieces cd None)
         (rule_of (pieces ++ [(str "network_interface_address", interface_field lists)]) cd None)) as Hnone.
  { intros -> E. exists []. rewrite E, fmap_empty. split; [done|]. intros pieces cd Hk.
    change (interface_field []) with (@None Value). rewrite rule_of_none. apply advances_nil. }
  destruct (get o (str "network_interface_address")) as [v|] eqn:Eg;
    [|injection Ew as <-; injection Em as Em; by apply Hnone].
  apply bind_Some in Em as (entries & Ee & (lists & El & [= Em])%bind_Some).
  destruct v as [| | | | |entries']; try done. injection Ee as ->. cbn [as_object ok_or] in Ew. rbind in Ew.
  case_decide as Hne; [subst; injection Ew as <-; injection El as <-; by apply Hnone|].
  destruct (w_interfaces _ _ Hw entries Eg) as [Hnd Hsh].
  apply since_Ok, Versions.seq_Ok in Ew as (x & y & [= <-] & Ey & ->).
  assert (Forall (fun '(_, l) => short l /\ exists nets, mapM IpSet.parse_prefix l = Some nets) lists
    /\ lists.*1 = entries.*1) as [Hall Hkeys].
  { pose proof (lists_of_keys _ _ El) as Hkeys. split; [|done]. apply Forall_forall. intros [k l] Hin.
    assert (hr_network_interface_address raw !! k = Some l) as Hl
      by (rewrite <-Em; apply elem_of_list_to_map_1; [by rewrite Hkeys|done]).
    split; [by apply (w_interface_lists _ _ Hw k)|by eapply Hp]. }
  destruct (reads_interfaces entries lists y El Hall Ey) as [_ Hr].
  exists (rerender_all lists). split; [by rewrite <-Em, list_to_map_rerender|]. intros pieces cd Hk.
  - apply advances_item; [done|]. intros last. rewrite <-(app_nil_r y).
    eapply Wire.reads_bind; [by apply Wire.reads_length|]. eapply Wire.reads_bind; [done|].
    rewrite (insert_all (rerender_all lists) []) by (cbn [app]; by rewrite rerender_keys, Hkeys).
    cbv zeta. rewrite insert_object_of by done. unfold interface_field. rewrite decide_False; [apply Wire.reads_ret|].
    rewrite <-(length_fmap fst), rerender_keys, Hkeys, length_fmap. by destruct entries.
Qed.

(** The fields that are read, in their order. *)
Definition binary_pieces (raw : RawHeadlessRule) (source destination : list text) (lists : list (text * list text))
    : list (text * option Value) :=
  let strings l := arr (VString <$> l) in
  let ports l := arr ((fun p => VNumber (Some p)) <$> l) in
  let flag (b : bool) := if b then Some (VBool true) else None in
  [(str "query_type", arr (QueryType.serialize <$> hr_query_type raw)); (str "network", strings (hr_network raw));
   (str "domain_keyword", strings (hr_domain_keyword raw)); (str "domain_regex", strings (hr_domain_regex raw));
   (str "source_ip_cidr", strings source); (str "ip_cidr", strings destination);
   (str "source_port", ports (hr_source_port raw)); (str "source_port_range", strings (hr_source_port_range raw));
   (str "port", ports (hr_port raw)); (str "port_range", strings (hr_port_range raw));
   (str "process_name", strings (hr_process_name raw)); (str "process_path", strings (hr_process_path raw));
   (str "process_path_regex", strings (hr_process_path_regex raw));
   (str "package_name", strings (hr_package_name raw)); (str "package_name_regex", strings (hr_package_name_regex raw));
   (str "network_type", strings (hr_network_type raw)); (str "network_is_expensive", flag (hr_network_is_expensive raw));
   (str "network_is_constrained", flag (hr_network_is_constrained raw));
   (str "network_interface_address", interface_field lists);
   (str "default_interface_address", strings (rerender (hr_default_interface_address raw)));
   (str "wifi_ssid", strings (hr_wifi_ssid raw)); (str "wifi_bssid", strings (hr_wifi_bssid raw));
   (str "invert", flag (hr_invert raw))].

Ltac computed := refine (bool_decide_unpack _ _); vm_compute; exact I.

Lemma piece_at pieces i key v : NoDup pieces.*1 -> pieces !! i = Some (key, v) -> get (object_of pieces) key = v.
Proof.
  intros Hn Hi. rewrite get_object_of by done. revert i Hi.
  induction pieces as [|[k v'] pieces IH]; intros i Hi; [done|]. cbn in *. apply NoDup_cons in Hn as [Hk Hn].
  destruct i as [|i]; [injection Hi as -> ->; by rewrite decide_True|].
  rewrite decide_False; [by eapply IH|]. intros ->. apply Hk.
  apply (list_elem_of_fmap_2 fst _ (key, v)). by eapply list_elem_of_lookup_2.
Qed.

Lemma binary_fields raw source destination lists :
  Forall is_u16 (hr_query_type raw) -> Forall is_u16 (hr_source_port raw) -> Forall is_u16 (hr_port raw) ->
  list_to_map lists = rerender <$> hr_network_interface_address raw ->
  fields_of (object_of (binary_pieces raw source destination lists)) (binary_raw raw source destination).
Proof.
  intros Hq Hs Hp Hl. set (pieces := binary_pieces raw source destination lists).
  assert (NoDup pieces.*1) as Hn by computed.
  assert (forall key, key ∉ pieces.*1 -> get (object_of pieces) key = None) as Hnone
    by (intros; by apply get_notin, object_of_keys).
  split; cbn [binary_raw hr_query_type hr_network hr_domain hr_domain_suffix hr_domain_keyword hr_domain_regex
    hr_adguard_domain hr_source_ip_cidr hr_ip_cidr hr_source_port hr_source_port_range hr_port hr_port_range
    hr_process_name hr_process_path hr_process_path_regex hr_package_name hr_package_name_regex hr_network_type
    hr_network_is_expensive hr_network_is_constrained hr_wifi_ssid hr_wifi_bssid hr_network_interface_address
    hr_default_interface_address hr_invert].
  - apply known_object_of. computed.
  - exists []. unfold string_or_empty. rewrite Hnone; [done|computed].
  - apply (field_list _ QueryType.serialize is_u16); [apply deserialize_serialize|done|].
    by apply (piece_at pieces 0).
  - apply field_strings. by apply (piece_at pieces 1).
  - unfold strings, listable. rewrite Hnone; [done|computed].
  - unfold strings, listable. rewrite Hnone; [done|computed].
  - apply field_strings. by apply (piece_at pieces 2).
  - apply field_strings. by apply (piece_at pieces 3).
  - unfold strings, listable. rewrite Hnone; [done|computed].
  - apply field_strings. by apply (piece_at pieces 4).
  - apply field_strings. by apply (piece_at pieces 5).
  - apply (field_list _ (fun p => VNumber (Some p)) is_u16); [apply as_u16_number|done|]. by apply (piece_at pieces 6).
  - apply field_strings. by apply (piece_at pieces 7).
  - apply (field_list _ (fun p => VNumber (Some p)) is_u16); [apply as_u16_number|done|]. by apply (piece_at pieces 8).
  - apply field_strings. by apply (piece_at pieces 9).
  - apply field_strings. by apply (piece_at pieces 10).
  - apply field_strings. by apply (piece_at pieces 11).
  - apply field_strings. by apply (piece_at pieces 12).
  - apply field_strings. by apply (piece_at pieces 13).
  - apply field_strings. by apply (piece_at pieces 14).
  - apply field_strings. by apply (piece_at pieces 15).
  - apply field_flag. by apply (piece_at pieces 16).
  - apply field_flag. by apply (piece_at pieces 17).
  - apply field_strings. by apply (piece_at pieces 20).
  - apply field_strings. by apply (piece_at pieces 21).
  - rewrite <-Hl. apply field_interfaces. by apply (piece_at pieces 18).
  - apply field_strings. by apply (piece_at pieces 19).
  - apply field_flag. by apply (piece_at pieces 22).
Qed.

Lemma compile_parts raw cd ca h :
  compile_with_matchers raw cd ca = Ok h <->
  (has_matcher raw = true \/ cd <> None \/ ca <> None)
  /\ h_query_type h = hr_query_type raw
  /\ compile_prefix_map (hr_network_interface_address raw) = Ok (h_network_interface_prefixes h)
  /\ compile_prefixes (hr_default_interface_address raw) = Ok (h_default_interface_prefixes h)
  /\ compile_adguard_patterns (hr_adguard_domain raw) = Ok (h_adguard_regex h)
  /\ compiled (base_of raw) [] (h_base h)
  /\ h_compact_domain h = cd /\ h_compact_adguard h = ca.
Proof.
  unfold compile_with_matchers. split.
  - destruct (_ && _ && _) eqn:Eb; [done|].
    intros (np & En & (dp & Ed & (ar & Ea & (B & HB & [= <-])%bind_Ok)%bind_Ok)%bind_Ok)%bind_Ok.
    apply from_raw_compiled in HB. cbn. split_and!; try done.
    apply andb_false_iff in Eb as [[Eb|Eb]%andb_false_iff|Eb]; [|right; left|right; right].
    + left. by apply negb_false_iff in Eb.
    + by apply bool_decide_eq_false in Eb.
    + by apply bool_decide_eq_false in Eb.
  - intros (Hm & Eq & En & Ed & Ea & HB & E1 & E2).
    assert (negb (has_matcher raw) && bool_decide (cd = None) && bool_decide (ca = None) = false) as ->.
    { destruct Hm as [->|[Hm|Hm]]; [done| |]; rewrite (bool_decide_eq_false_2 _ Hm); by rewrite ?andb_false_r. }
    rewrite En, Ed, Ea. rbind. apply from_raw_compiled in HB. rewrite HB. rbind. destruct h. cbn in *. by subst.
Qed.

Lemma collect_Forall2 {A B} (f : A -> result RouteError B) l ys :
  collect f l = Ok ys <-> Forall2 (fun x y => f x = Ok y) l ys.
Proof.
  revert ys. induction l as [|x l IH]; intros ys; cbn.
  - split; [by intros [= <-]|]. by inversion 1.
  - split.
    + intros (y & Ey & (ys' & Es & [= <-])%bind_Ok)%bind_Ok. constructor; [done|]. by apply IH.
    + inversion 1 as [|? y ? ys' Hy Hs]; subst. rewrite Hy. rbind. apply IH in Hs. by rewrite Hs.
Qed.

Lemma compile_prefix_map_lookup m p k :
  compile_prefix_map m = Ok p ->
  match m !! k with
  | Some l => exists nets, compile_prefixes l = Ok nets /\ p !! k = Some nets
  | None => p !! k = None
  end.
Proof.
  unfold compile_prefix_map. intros (l & El & [= <-])%bind_Ok. apply collect_Forall2 in El.
  assert (l.*1 = (map_to_list m).*1) as Hk.
  { clear -El. induction El as [|[k' v] [k'' n] l l' E _ IH]; [done|]. cbn.
    apply bind_Ok in E as (p & _ & [= -> _]). by rewrite IH. }
  assert (NoDup l.*1) as Hn by (rewrite Hk; apply NoDup_fst_map_to_list).
  destruct (m !! k) as [v|] eqn:Em.
  - apply elem_of_map_to_list, list_elem_of_lookup_1 in Em as [i Hi].
    destruct (Forall2_lookup_l _ _ _ i (k, v) El Hi) as ([k' nets] & Hi' & E).
    apply bind_Ok in E as (nets' & E & [= -> ->]). exists nets. split; [done|].
    apply elem_of_list_to_map_1; [done|]. by eapply list_elem_of_lookup_2.
  - apply not_elem_of_list_to_map_1. rewrite Hk. intros ([k' v] & -> & Hin)%list_elem_of_fmap.
    apply elem_of_map_to_list in Hin. cbn in *. congruence.
Qed.

Lemma compile_prefix_map_total (m : gmap text (list text)) :
  (forall k l, m !! k = Some l -> exists nets, compile_prefixes l = Ok nets) -> exists p, compile_prefix_map m = Ok p.
Proof.
  intros H. unfold compile_prefix_map.
  enough (exists l, collect (fun '(kind, prefixes) => p ← compile_prefixes prefixes; Ok (kind, p)) (map_to_list m) = Ok l)
    as [l ->] by by eexists.
  assert (Forall (fun '(_, l) => exists nets, compile_prefixes l = Ok nets) (map_to_list m)) as Hf.
  { apply Forall_forall. intros [k l] Hin. apply elem_of_map_to_list in Hin. by eapply H. }
  induction Hf as [|[k l] ls [nets E] _ [ys IH]]; [by eexists|]. cbn. rewrite E. rbind. rewrite IH. rbind. by eexists.
Qed.

Lemma finishes_invert (invert : bool) pieces cd :
  str "invert" ∉ pieces.*1 ->
  finishes [ITEM_FINAL; Z.b2z invert] (rule_of pieces cd None)
    (rule_of (pieces ++ [(str "invert", if invert then Some (VBool true) else None)]) cd None).
Proof.
  intros Hk. pose proof (finishes_final invert (rule_of pieces cd None)) as Hf. unfold inverted in Hf.
  destruct invert; [|by rewrite rule_of_none]. cbn [value rule_of rt_domain rt_adguard] in Hf.
  by rewrite insert_object_of in Hf.
Qed.

Lemma written_ip_set o key item l w :
  strings o key = Some l -> write_optional_ip_set o key item = Ok w -> IpSet.write_optional_ip_set item l = Ok w.
Proof. intros E%string_values_strings. unfold write_optional_ip_set. by rewrite E. Qed.

Lemma written_default_interfaces o version l w :
  strings o (str "default_interface_address") = Some l -> write_default_interfaces o version = Ok w ->
  exists x, write_prefixes l = Ok x
    /\ w = if decide (l = []) then [] else [ITEM_DEFAULT_INTERFACE_ADDRESS] ++ Wire.write_length l ++ x.
Proof.
  intros E%string_values_strings. unfold write_default_interfaces. rewrite E. rbind.
  case_decide; [intros [= <-]; subst; by exists []|].
  intros (x & y & [= <-] & Ey & ->)%since_Ok%Versions.seq_Ok. by exists y.
Qed.

Lemma written_adguard o version w :
  strings o (str "adguard_domain") = Some [] -> write_adguard o version = Ok w -> w = [].
Proof. intros E%string_values_strings. unfold write_adguard. rewrite E. by intros [= <-]. Qed.

Ltac peel E w Ew := apply Versions.seq_Ok in E as (w & ? & Ew & E & ->).
Ltac known H := repeat (apply Forall_cons in H as [? H]); clear H.

(** The bytes of a rule; the items of the names, the prefixes, the interface
    types and the interface addresses are given. *)
Definition binary_bytes (raw : RawHeadlessRule) (domains source destination interfaces addresses ids : list Z) : list Z :=
  let strings item l := if decide (l = []) then [] else write_string_item item l in
  let numbers item l := if decide (l = []) then [] else write_u16_item item l in
  let flag (item : Z) (b : bool) := if b then [item] else [] in
  numbers ITEM_QUERY_TYPE (hr_query_type raw) ++ strings ITEM_NETWORK (hr_network raw) ++ domains
  ++ strings ITEM_DOMAIN_KEYWORD (hr_domain_keyword raw) ++ strings ITEM_DOMAIN_REGEX (hr_domain_regex raw)
  ++ source ++ destination
  ++ numbers ITEM_SOURCE_PORT (hr_source_port raw) ++ strings ITEM_SOURCE_PORT_RANGE (hr_source_port_range raw)
  ++ numbers ITEM_PORT (hr_port raw) ++ strings ITEM_PORT_RANGE (hr_port_range raw)
  ++ strings ITEM_PROCESS_NAME (hr_process_name raw) ++ strings ITEM_PROCESS_PATH (hr_process_path raw)
  ++ strings ITEM_PROCESS_PATH_REGEX (hr_process_path_regex raw) ++ strings ITEM_PACKAGE_NAME (hr_package_name raw)
  ++ strings ITEM_PACKAGE_NAME_REGEX (hr_package_name_regex raw)
  ++ (if decide (hr_network_type raw = []) then [] else write_u8_item ITEM_NETWORK_TYPE ids)
  ++ flag ITEM_NETWORK_IS_EXPENSIVE (hr_network_is_expensive raw)
  ++ flag ITEM_NETWORK_IS_CONSTRAINED (hr_network_is_constrained raw) ++ interfaces
  ++ (if decide (hr_default_interface_address raw = []) then []
      else [ITEM_DEFAULT_INTERFACE_ADDRESS] ++ Wire.write_length (hr_default_interface_address raw) ++ addresses)
  ++ strings ITEM_WIFI_SSID (hr_wifi_ssid raw) ++ strings ITEM_WIFI_BSSID (hr_wifi_bssid raw)
  ++ [ITEM_FINAL; Z.b2z (hr_invert raw)].

Lemma default_bytes o raw version w :
  fields_of o raw -> hr_adguard_domain raw = [] -> write_default_rule o version = Ok w ->
  exists domains source destination interfaces addresses ids,
    w = 0 :: binary_bytes raw domains source destination interfaces addresses ids
    /\ write_domains o version = Ok domains /\ IpSet.write_optional_ip_set ITEM_SOURCE_IP_CIDR (hr_source_ip_cidr raw) = Ok source
    /\ IpSet.write_optional_ip_set ITEM_IP_CIDR (hr_ip_cidr raw) = Ok destination
    /\ write_network_interfaces o version = Ok interfaces
    /\ write_prefixes (hr_default_interface_address raw) = Ok addresses
    /\ mapM interface_type_id (hr_network_type raw) = Ok ids.
Proof.
  intros Hf Hag Ew. pose proof (f_adguard_domain _ _ Hf) as Eag. rewrite Hag in Eag.
  unfold write_default_rule in Ew. peel Ew w0 E0. peel Ew w1 E1. peel Ew w2 E2. peel Ew w3 E3. peel Ew w4 E4.
  peel Ew w5 E5. peel Ew w6 E6. peel Ew w7 E7. peel Ew w8 E8. peel Ew w9 E9. peel Ew w10 E10. peel Ew w11 E11.
  peel Ew w12 E12. peel Ew w13 E13. peel Ew w14 E14. peel Ew w15 E15. peel Ew w16 E16. peel Ew w17 E17.
  peel Ew w18 E18. peel Ew w19 E19. peel Ew w20 E20. peel Ew w21 E21. peel Ew w22 E22. peel Ew w23 E23.
  peel Ew w24 E24. injection E0 as <-.
  apply (written_ip_set _ _ _ _ _ (f_source_ip_cidr _ _ Hf)) in E6.
  apply (written_ip_set _ _ _ _ _ (f_ip_cidr _ _ Hf)) in E7.
  destruct (written_network_types _ _ _ _ (f_network_type _ _ Hf) E17) as (ids & Eids & ->).
  destruct (written_default_interfaces _ _ _ _ (f_default_interface_address _ _ Hf) E21) as (x21 & Ex & ->).
  exists w3, w6, w7, w20, x21, ids. split; [|done].
  apply (written_adguard _ _ _ Eag) in E24 as ->. unfold write_final in Ew.
  rewrite (bool_value_flag _ _ _ (f_invert _ _ Hf)) in Ew. injection Ew as <-.
  apply (written_query_types _ _ _ (f_query_type _ _ Hf)) in E1 as ->.
  apply (written_package_regex _ _ _ _ (f_package_name_regex _ _ Hf)) in E16 as ->.
  apply (written_flag _ _ _ _ _ _ (f_network_is_expensive _ _ Hf)) in E18 as ->.
  apply (written_flag _ _ _ _ _ _ (f_network_is_constrained _ _ Hf)) in E19 as ->.
  apply (written_ports _ _ _ _ _ (f_source_port _ _ Hf)) in E8 as ->.
  apply (written_ports _ _ _ _ _ (f_port _ _ Hf)) in E10 as ->.
  repeat match goal with E : write_optional_string_item _ _ _ = Ok _ |- _ => eapply written_strings in E as ->; [|by apply Hf] end.
  reflexivity.
Qed.

(** Reading a rule gives its fields again, the names in a set and the
    prefixes in their canonical form. *)
Lemma default_finishes o raw version w h :
  fields_of o raw -> writable o raw -> compile_with_matchers raw None None = Ok h -> write_default_rule o version = Ok w ->
  exists body set source destination lists, w = 0 :: body /\ names_in raw set
    /\ same_prefixes (hr_source_ip_cidr raw) source (source_prefixes (h_base h))
    /\ same_prefixes (hr_ip_cidr raw) destination (destination_prefixes (h_base h))
    /\ list_to_map lists = rerender <$> hr_network_interface_address raw
    /\ finishes body (rule_of [] None None) (rule_of (binary_pieces raw source destination lists) set None).
Proof.
  intros Hf Hw (_ & _ & Em & Ed & _ & HB & _ & _)%compile_parts Ew.
  destruct (default_bytes _ _ _ _ Hf (w_adguard _ _ Hw) Ew)
    as (w3 & w6 & w7 & w20 & w21 & ids & -> & E3 & E6 & E7 & E20 & E21 & E17).
  pose proof (w_strings _ _ Hw) as Hs. pose proof (w_prefixes _ _ Hw) as Hp. pose proof (w_numbers _ _ Hw) as Hn.
  known Hs. known Hp. known Hn.
  destruct (advances_domains _ _ _ _ Hf Hw E3) as (set & Hset & A3).
  destruct (advances_interfaces _ _ _ _ Hf Hw E20) as (lists & Hlists & A20).
  { intros k l Hk. pose proof (compile_prefix_map_lookup _ _ k Em) as Hl. rewrite Hk in Hl.
    destruct Hl as (nets & Hc & _). exists nets. by apply compile_prefixes_parse. }
  destruct (advances_ip_set ITEM_SOURCE_IP_CIDR (str "source_ip_cidr") (hr_source_ip_cidr raw) (source_prefixes (h_base h)))
    as (w6' & source & Ew6 & Hsource & A6); [done..|apply HB|]. rewrite E6 in Ew6. injection Ew6 as <-.
  destruct (advances_ip_set ITEM_IP_CIDR (str "ip_cidr") (hr_ip_cidr raw) (destination_prefixes (h_base h)))
    as (w7' & destination & Ew7 & Hdest & A7); [done..|apply HB|]. rewrite E7 in Ew7. injection Ew7 as <-.
  eexists _, set, source, destination, lists. split; [reflexivity|]. do 4 (split; [done|]).
  pose proof (listable_u16 _ _ _ _ _ deserialize_u16 (f_query_type _ _ Hf)) as Hq.
  pose proof (listable_u16 _ _ _ _ _ as_u16_u16 (f_source_port _ _ Hf)) as Hsp.
  pose proof (listable_u16 _ _ _ _ _ as_u16_u16 (f_port _ _ Hf)) as Hpt.
  apply compile_prefixes_parse in Ed. unfold binary_bytes.
  eapply finishes_app; [apply advances_query_types; [computed|done..]|].
  eapply finishes_app; [apply advances_strings; [reflexivity|done|computed|done]|].
  eapply finishes_app; [apply A3|].
  do 2 (eapply finishes_app; [apply advances_strings; [reflexivity|done|computed|done]|]).
  eapply finishes_app; [apply A6; computed|]. eapply finishes_app; [apply A7; computed|].
  eapply finishes_app; [apply advances_ports; [reflexivity|done|computed|done..]|].
  eapply finishes_app; [apply advances_strings; [reflexivity|done|computed|done]|].
  eapply finishes_app; [apply advances_ports; [reflexivity|done|computed|done..]|].
  do 6 (eapply finishes_app; [apply advances_strings; [reflexivity|done|computed|done]|]).
  eapply finishes_app; [apply advances_network_types; [done|computed|done]|].
  do 2 (eapply finishes_app; [apply advances_flag; [reflexivity|done|computed]|]).
  eapply finishes_app; [apply A20; computed|].
  eapply finishes_app; [eapply advances_default_interfaces; [done|done|done|computed]|].
  do 2 (eapply finishes_app; [apply advances_strings; [reflexivity|done|computed|done]|]).
  apply finishes_invert. computed.
Qed.

(** ** The rule that is read *)

Definition with_prefixes (raw : RawHeadlessRule) (source destination : list text) : RawHeadlessRule :=
  mkRawHeadless (hr_query_type raw) (hr_network raw) (hr_domain raw) (hr_domain_suffix raw) (hr_domain_keyword raw)
    (hr_domain_regex raw) (hr_adguard_domain raw) source destination (hr_source_port raw) (hr_source_port_range raw)
    (hr_port raw) (hr_port_range raw) (hr_process_name raw) (hr_process_path raw) (hr_process_path_regex raw)
    (hr_package_name raw) (hr_package_name_regex raw) (hr_network_type raw) (hr_network_is_expensive raw)
    (hr_network_is_constrained raw) (hr_wifi_ssid raw) (hr_wifi_bssid raw)
    (rerender <$> hr_network_interface_address raw) (rerender (hr_default_interface_address raw)) (hr_invert raw).

Definition base_with (raw : RawHeadlessRule) (source destination : list text) (B : DefaultRule)
    (source_nets destination_nets : list IpNet) : DefaultRule :=
  mkDefault (base_of (with_prefixes raw source destination)) (domain_regex B) (process_path_regex B)
    (package_name_regex B) source_nets destination_nets (source_port_ranges B) (port_ranges B) (interface_prefixes B)
    (network_interface_prefixes B) (default_interface_prefixes B) [].

(** The addresses of a connection have their width. *)
Record addresses_ok (m : Metadata) : Prop := {
  a_source a : source_ip m = Some a -> Wire.ip_ok a;
  a_destination a : destination_ip m = Some a -> Wire.ip_ok a;
  a_resolved : Forall Wire.ip_ok (md_destination_addresses m);
  a_interfaces : map_Forall (fun _ => Forall Wire.ip_ok) (md_network_interface_address m);
  a_default : Forall Wire.ip_ok (md_default_interface_address m);
}.

Lemma nonempty_rerender l nets : compile_prefixes l = Ok nets -> nonempty (rerender l) = nonempty l.
Proof.
  intros E%compile_prefixes_parse. unfold rerender. rewrite E. change (default [] (Some nets)) with nets.
  destruct l as [|x l]; [by injection E as <-|]. by apply bind_Some in E as (? & _ & (? & _ & [= <-])%bind_Some).
Qed.

Lemma same_nets_forallb nets nets' addresses :
  Forall2 same_net nets nets' -> Forall Wire.ip_ok addresses ->
  forallb (fun prefix => existsb (fun a => net_contains prefix a) addresses) nets'
  = forallb (fun prefix => existsb (fun a => net_contains prefix a) addresses) nets.
Proof.
  intros Hs Ha. induction Hs as [|n n' nets nets' Hn _ IH]; [done|]. cbn. rewrite IH. f_equal. clear IH.
  induction Ha as [|a addresses Ha _ IHa]; [done|]. cbn. by rewrite IHa, (same_net_contains n n').
Qed.

Lemma same_any_prefix nets nets' addresses :
  Forall2 same_net nets nets' -> Forall Wire.ip_ok addresses ->
  matches_any_prefix nets' addresses = matches_any_prefix nets addresses.
Proof.
  intros Hs Ha. pose proof (same_nets_forallb _ _ _ Hs Ha) as E. by destruct Hs.
Qed.

Lemma interface_prefixes_spec (p : gmap text (list IpNet)) actual :
  matches_interface_prefixes p actual = true <->
  forall k nets, p !! k = Some nets -> exists addresses, actual !! k = Some addresses
    /\ forallb (fun prefix => existsb (fun a => net_contains prefix a) addresses) nets = true.
Proof.
  unfold matches_interface_prefixes. rewrite forallb_forall. split.
  - intros H k nets Hk. specialize (H (k, nets)). cbn in H.
    assert (In (k, nets) (map_to_list p)) as Hin by by apply list_elem_of_In, elem_of_map_to_list.
    specialize (H Hin). destruct (actual !! k) as [addresses|]; [|done]. by exists addresses.
  - intros H [k nets] Hin%list_elem_of_In%elem_of_map_to_list. by destruct (H k nets Hin) as (addresses & -> & ?).
Qed.

Lemma same_interface_prefixes m p p' actual :
  compile_prefix_map m = Ok p -> compile_prefix_map (rerender <$> m) = Ok p' ->
  map_Forall (fun _ => Forall Wire.ip_ok) actual ->
  matches_interface_prefixes p' actual = matches_interface_prefixes p actual.
Proof.
  intros Ep Ep' Ha. apply eq_true_iff_eq. rewrite !interface_prefixes_spec.
  assert (forall k, match p !! k, p' !! k with
    | Some nets, Some nets' => Forall2 same_net nets nets'
    | None, None => True
    | _, _ => False
    end) as Hk.
  { intros k. pose proof (compile_prefix_map_lookup _ _ k Ep) as H. pose proof (compile_prefix_map_lookup _ _ k Ep') as H'.
    rewrite lookup_fmap in H'. destruct (m !! k) as [l|]; cbn in H'.
    - destruct H as (nets & En & ->), H' as (nets' & En' & ->).
      destruct (compile_rerender _ _ En) as (nets'' & En'' & Hs). rewrite En' in En''. by injection En'' as ->.
    - by rewrite H, H'. }
  split; intros H k nets Hn; specialize (Hk k); rewrite Hn in Hk.
  - destruct (p' !! k) as [nets'|] eqn:Hn'; [|done]. destruct (H k nets' Hn') as (addresses & Hx & Hc).
    exists addresses. split; [done|]. rewrite <-(same_nets_forallb _ _ _ Hk); [done|by apply (Ha k)].
  - destruct (p !! k) as [nets'|] eqn:Hn'; [|done]. destruct (H k nets' Hn') as (addresses & Hx & Hc).
    exists addresses. split; [done|]. rewrite (same_nets_forallb _ _ _ Hk); [done|by apply (Ha k)].
Qed.

Lemma base_with_compiled raw source destination B source_nets destination_nets :
  compiled (base_of raw) [] B -> compile_prefixes source = Ok source_nets ->
  compile_prefixes destination = Ok destination_nets ->
  compiled (base_of (with_prefixes raw source destination)) []
    (base_with raw source destination B source_nets destination_nets).
Proof. intros [_ _ Hv Hi H1 H2 H3 H4 H5 H6 _ _ H9 H10] Hs Hd. by split. Qed.

Lemma in_prefixes_ok nets nets' a :
  (forall x, Wire.ip_ok x -> in_prefixes nets' (Some x) = in_prefixes nets (Some x)) ->
  (forall x, a = Some x -> Wire.ip_ok x) -> in_prefixes nets' a = in_prefixes nets a.
Proof. intros H Ha. destruct a as [a|]; [|done]. by apply H, Ha. Qed.

Lemma base_with_flags raw source destination B ns nd m ms empty :
  compiled (base_of raw) [] B -> nonempty source = nonempty (hr_source_ip_cidr raw) ->
  nonempty destination = nonempty (hr_ip_cidr raw) ->
  (forall a, Wire.ip_ok a -> in_prefixes ns (Some a) = in_prefixes (source_prefixes B) (Some a)) ->
  (forall a, Wire.ip_ok a -> in_prefixes nd (Some a) = in_prefixes (destination_prefixes B) (Some a)) ->
  addresses_ok m ->
  let B' := base_with raw source destination B ns nd in
  ordinary_conditions B' m = ordinary_conditions B m
  /\ source_wanted B' ms = source_wanted B ms /\ source_found B' m ms = source_found B m ms
  /\ destination_wanted B' ms = destination_wanted B ms /\ destination_found B' m ms empty = destination_found B m ms empty.
Proof.
  intros HB Hns Hnd Hs Hd [A1 A2 A3 _ _] B'. pose proof (c_raw _ _ _ HB) as Er.
  assert (has_source_address B' = has_source_address B /\ has_destination_ip B' = has_destination_ip B
    /\ has_domain_condition B' = has_domain_condition B /\ matches_domain B' (domain m) = matches_domain B (domain m))
    as (E1 & E2 & E3 & E4).
  { unfold has_source_address, has_destination_ip, has_domain_condition, matches_domain. rewrite Er. cbn.
    by rewrite Hns, Hnd. }
  assert (forall a, (forall x, a = Some x -> Wire.ip_ok x) -> matches_ip_address B' a = matches_ip_address B a) as E5.
  { intros a Ha. unfold matches_ip_address. rewrite Er. cbn. rewrite Hnd.
    by rewrite (in_prefixes_ok _ _ a Hd Ha). }
  assert (matches_source_address B' (source_ip m) = matches_source_address B (source_ip m)) as E6.
  { unfold matches_source_address. rewrite Er. cbn. rewrite Hns. by rewrite (in_prefixes_ok _ _ (source_ip m) Hs A1). }
  assert (matches_destination_ip_address B' m = matches_destination_ip_address B m) as E7.
  { unfold matches_destination_ip_address. destruct (destination_ip m); [apply E5, A2|].
    clear A2. induction A3 as [|a l Ha _ IH]; [done|]. cbn. rewrite IH, E5; [done|]. by intros x [= <-]. }
  split; [unfold ordinary_conditions; rewrite Er; reflexivity|].
  unfold source_wanted, source_found, destination_wanted, destination_found.
  by rewrite E1, E2, E3, E4, (E5 (source_ip m) A1), E6, E7.
Qed.

(** Prefixes that hold the same addresses make no difference. *)
Lemma prefixes_evaluate raw set h source destination :
  compile_with_matchers raw set None = Ok h ->
  same_prefixes (hr_source_ip_cidr raw) source (source_prefixes (h_base h)) ->
  same_prefixes (hr_ip_cidr raw) destination (destination_prefixes (h_base h)) ->
  exists h', compile_with_matchers (with_prefixes raw source destination) set None = Ok h'
    /\ r_invert (RouteMatch.Rules.raw (h_base h')) = r_invert (RouteMatch.Rules.raw (h_base h))
    /\ forall m ms empty, addresses_ok m -> headless_evaluate h' m ms empty = headless_evaluate h m ms empty.
Proof.
  intros (Hm & Eq & Em & Ed & Ea & HB & Es & Eg)%compile_parts (Hns & ns & Ens & Hs) (Hnd & nd & End' & Hd).
  destruct (compile_rerender _ _ Ed) as (dp & Edp & Hdp).
  destruct (compile_prefix_map_total (rerender <$> hr_network_interface_address raw)) as [np Enp].
  { intros k l. rewrite lookup_fmap. intros (l' & Hl & ->)%fmap_Some.
    pose proof (compile_prefix_map_lookup _ _ k Em) as Hk. rewrite Hl in Hk. destruct Hk as (nets & En & _).
    destruct (compile_rerender _ _ En) as (nets' & En' & _). eauto. }
  set (B' := base_with raw source destination (h_base h) ns nd).
  exists (mkHeadless (h_query_type h) B' np dp (h_adguard_regex h) set None). split; [|split].
  - apply compile_parts. cbn. split_and!; try done; [|by apply base_with_compiled].
    destruct Hm as [Hm|Hm]; [left|by right]. revert Hm. unfold has_matcher. cbn [with_prefixes hr_query_type hr_network
      hr_domain hr_domain_suffix hr_domain_keyword hr_domain_regex hr_adguard_domain hr_source_ip_cidr hr_ip_cidr
      hr_source_port hr_source_port_range hr_port hr_port_range hr_process_name hr_process_path hr_process_path_regex
      hr_package_name hr_package_name_regex hr_network_type hr_network_is_expensive hr_network_is_constrained
      hr_wifi_ssid hr_wifi_bssid hr_network_interface_address hr_default_interface_address].
    rewrite Hns, Hnd, (nonempty_rerender _ _ Ed).
    by rewrite (bool_decide_ext (rerender <$> hr_network_interface_address raw = ∅)
      (hr_network_interface_address raw = ∅) (fmap_empty_iff _ _)).
  - cbn. by rewrite (c_raw _ _ _ HB).
  - intros m ms empty [A1 A2 A3 A4 A5]. rewrite !headless_flags_general.
    cbn [h_base h_query_type h_network_interface_prefixes h_default_interface_prefixes h_adguard_regex
      h_compact_domain h_compact_adguard].
    destruct (base_with_flags raw source destination (h_base h) ns nd m ms empty HB Hns Hnd Hs Hd)
      as (F1 & F2 & F3 & F4 & F5); [by split|]. fold B' in F1, F2, F3, F4, F5. rewrite F1, F2, F3, F4, F5.
    unfold extra_conditions, adguard_found. cbn.
    rewrite (same_interface_prefixes _ _ _ _ Em Enp A4), (same_any_prefix _ _ _ Hdp A5), Es, Eg.
    unfold source_port_wanted, source_port_found, port_wanted, port_found. by rewrite (c_raw _ _ _ HB).
Qed.

Lemma binary_evaluate raw set h source destination :
  compile_with_matchers raw None None = Ok h -> hr_adguard_domain raw = [] -> names_in raw set ->
  same_prefixes (hr_source_ip_cidr raw) source (source_prefixes (h_base h)) ->
  same_prefixes (hr_ip_cidr raw) destination (destination_prefixes (h_base h)) ->
  exists h', compile_with_matchers (binary_raw raw source destination) set None = Ok h'
    /\ r_invert (RouteMatch.Rules.raw (h_base h')) = r_invert (RouteMatch.Rules.raw (h_base h))
    /\ forall m ms empty, addresses_ok m -> (forall d, domain m = Some d -> Domain.plain (normal_domain d)) ->
       headless_evaluate h' m ms empty = headless_evaluate h m ms empty.
Proof.
  intros E Ha Hn Hs Hd.
  assert (binary_raw raw source destination = with_prefixes (without_names raw) source destination) as ->
    by (unfold with_prefixes; cbn; by rewrite Ha).
  destruct set as [s|].
  - destruct Hn as [Hne Hm]. destruct (without_evaluate raw s h Hne Hm E) as (h1 & E1 & Ei & He).
    assert (source_prefixes (h_base h1) = source_prefixes (h_base h)
      /\ destination_prefixes (h_base h1) = destination_prefixes (h_base h)) as [Es Ed].
    { apply compile_parts in E as (_ & _ & _ & _ & _ & HB & _), E1 as (_ & _ & _ & _ & _ & HB1 & _).
      pose proof (c_source _ _ _ HB) as Q1. pose proof (c_source _ _ _ HB1) as Q2.
      pose proof (c_destination _ _ _ HB) as Q3. pose proof (c_destination _ _ _ HB1) as Q4. cbn in *. split; congruence. }
    destruct (prefixes_evaluate (without_names raw) (Some s) h1 source destination E1) as (h2 & E2 & Ei2 & He2);
      [by rewrite Es|by rewrite Ed|].
    exists h2. split; [done|]. split; [by rewrite Ei2|]. intros m ms empty Hm1 Hp. by rewrite He2, He.
  - destruct Hn as [Hn1 Hn2]. assert (without_names raw = raw) as -> by (destruct raw; cbn in *; by subst).
    destruct (prefixes_evaluate raw None h source destination E Hs Hd) as (h2 & E2 & Ei2 & He2). eauto.
Qed.

(** ** Rules *)

(** The connections the theorem is about: their addresses have their width
    and their domain is plain ASCII. *)
Definition ordinary (m : Metadata) : Prop :=
  addresses_ok m /\ forall d, domain m = Some d -> Domain.plain (normal_domain d).

(** Rules of the same form that match the same connections. *)
Definition same_rule (h h' : HeadlessRule) : Prop :=
  (forall m ms empty, ordinary m ->
     matches_with_ip_source_accept_empty h' m ms empty = matches_with_ip_source_accept_empty h m ms empty)
  /\ match h, h' with
     | HDefault a, HDefault b =>
         r_invert (raw (h_base b)) = r_invert (raw (h_base a))
         /\ forall m ms empty, ordinary m -> headless_evaluate b m ms empty = headless_evaluate a m ms empty
     | HLogical _ _ _, HLogical _ _ _ => True
     | _, _ => False
     end.

Lemma same_existsb hs hs' m ms empty :
  Forall2 same_rule hs hs' -> ordinary m ->
  existsb (fun rule => matches_with_ip_source_accept_empty rule m ms empty) hs'
  = existsb (fun rule => matches_with_ip_source_accept_empty rule m ms empty) hs.
Proof. intros Hs Hm. induction Hs as [|h h' hs hs' [Hh _] _ IH]; [done|]. cbn. by rewrite Hh, IH. Qed.

Lemma same_forallb hs hs' m ms empty :
  Forall2 same_rule hs hs' -> ordinary m ->
  forallb (fun rule => matches_with_ip_source_accept_empty rule m ms empty) hs'
  = forallb (fun rule => matches_with_ip_source_accept_empty rule m ms empty) hs.
Proof. intros Hs Hm. induction Hs as [|h h' hs hs' [Hh _] _ IH]; [done|]. cbn. by rewrite Hh, IH. Qed.

Lemma same_default a b :
  r_invert (raw (h_base b)) = r_invert (raw (h_base a)) ->
  (forall m ms empty, ordinary m -> headless_evaluate b m ms empty = headless_evaluate a m ms empty) ->
  same_rule (HDefault a) (HDefault b).
Proof.
  intros Hi He. split; [|done]. intros m ms empty Hm. cbn. unfold headless_default_matches. by rewrite He, Hi.
Qed.

Lemma same_logical mode rules rules' invert :
  Forall2 same_rule rules rules' -> same_rule (HLogical mode rules invert) (HLogical mode rules' invert).
Proof.
  intros Hs. split; [|done]. intros m ms empty Hm. cbn [matches_with_ip_source_accept_empty].
  destruct mode; [by rewrite (same_forallb rules rules')|by rewrite (same_existsb rules rules')].
Qed.

Lemma same_outer hs hs' m outer ms empty :
  Forall2 same_rule hs hs' -> ordinary m ->
  matches_with_outer_accept_empty hs' m outer ms empty = matches_with_outer_accept_empty hs m outer ms empty.
Proof.
  intros Hs Hm. unfold matches_with_outer_accept_empty. rewrite (same_existsb hs hs') by done.
  destruct Hs as [|h h' hs hs' [Hh Hd] Hs]; [done|]. destruct h as [a|], h' as [b|]; try done.
  destruct Hs; [|done]. destruct Hd as [-> He]. by rewrite He.
Qed.

(** A rule whose parts are all within the limits of the format. *)
Fixpoint writable_rule (levels : nat) (v : Value) : Prop :=
  match levels with
  | O => True
  | S levels =>
      match v with
      | VObject o =>
          if decide (kind_of o = str "logical") then
            match get o (str "rules") ≫= as_array with
            | Some rules => short rules /\ Forall (writable_rule levels) rules
            | None => True
            end
          else forall raw, raw_headless o = Some raw -> writable o raw
      | _ => True
      end
  end.

(** What a rule that was written and read comes to. *)
Definition survives (levels : nat) (w : list Z) (h : HeadlessRule) : Prop :=
  exists rt h', Wire.reads (read_runtime_rule levels) w rt /\ compile_runtime_rule levels rt = Ok h' /\ same_rule h h'.

Lemma default_survives levels o version w h :
  (forall raw, raw_headless o = Some raw -> writable o raw) ->
  write_default_rule o version = Ok w -> compile_default o None None = Ok h -> survives (S levels) w h.
Proof.
  intros Hw Ew (raw & Eraw & (d & Ed & [= <-])%bind_Ok)%bind_Ok.
  destruct (raw_headless o) as [raw'|] eqn:Ef; [|done]. injection Eraw as ->. specialize (Hw raw eq_refl).
  apply raw_headless_fields in Ef as Hf.
  destruct (default_finishes _ _ _ _ _ Hf Hw Ed Ew)
    as (body & set & source & destination & lists & -> & Hn & Hs & Hdst & Hl & Hfin).
  destruct (binary_evaluate raw set d source destination Ed (w_adguard _ _ Hw) Hn Hs Hdst) as (d' & Ed' & Hi & He).
  eexists _, (HDefault d'). split; [|split].
  - change (0 :: body) with ([0] ++ body). eapply Wire.reads_bind; [apply Wire.reads_u8|].
    rewrite decide_True by done. apply finishes_reads, Hfin.
  - cbn [compile_runtime_rule]. unfold compile_default. cbn [rule_of value rt_domain rt_adguard].
    assert (raw_headless (object_of (binary_pieces raw source destination lists))
      = Some (binary_raw raw source destination)) as ->.
    { apply raw_headless_fields, binary_fields; [| | |done]; eapply listable_u16; try apply Hf;
        [apply deserialize_u16|apply as_u16_u16..]. }
    cbn [ok_or]. rbind. by rewrite Ed'.
  - apply same_default; [done|]. intros m ms empty [Ha Hp]. by apply He.
Qed.

Lemma all_survive levels (write : Value -> writer) (compile : Value -> result RouteError HeadlessRule) rules w hs :
  Forall (fun v => forall w h, write v = Ok w -> compile v = Ok h -> survives levels w h) rules ->
  write_all write rules = Ok w -> collect compile rules = Ok hs ->
  exists rts hs', length rts = length rules
    /\ Wire.reads (Wire.read_many (length rules) (read_runtime_rule levels)) w rts
    /\ collect (compile_runtime_rule levels) rts = Ok hs' /\ Forall2 same_rule hs hs'.
Proof.
  intros Hf. revert w hs. induction Hf as [|v rules Hv _ IH]; intros w hs; cbn [write_all collect].
  - intros [= <-] [= <-]. exists [], []. split; [done|]. split; [apply Wire.reads_ret|]. by split.
  - intros (x & y & Ex & Ey & ->)%Versions.seq_Ok (h & Eh & (hs' & Ehs & [= <-])%bind_Ok)%bind_Ok.
    destruct (Hv x h Ex Eh) as (rt & h' & Hr & Hc & Hs).
    destruct (IH y hs' Ey Ehs) as (rts & hs'' & Hl & Hrs & Hcs & Hss).
    exists (rt :: rts), (h' :: hs''). split; [cbn; by f_equal|]. split; [|split; [|by constructor]].
    + eapply Wire.reads_bind; [done|]. by apply (Wire.reads_bind_ret _ (cons rt)).
    + cbn [collect]. rewrite Hc. rbind. by rewrite Hcs.
Qed.

Definition mode_byte (mode : LogicalMode) : Z := match mode with And => 0 | Or => 1 end.
Definition runtime_mode (mode : LogicalMode) : RuntimeLogicalMode := match mode with And => RAnd | Or => ROr end.

Lemma reads_logical levels mode (rules : list Value) rts w (invert : bool) :
  short rules -> Wire.reads (Wire.read_many (length rules) (read_runtime_rule levels)) w rts ->
  Wire.reads (read_runtime_rule (S levels))
    (([1; mode_byte mode] ++ Wire.write_length rules) ++ w ++ [Z.b2z invert])
    (RuntimeLogical (runtime_mode mode) rts invert).
Proof.
  intros Hs Hr. rewrite <-app_assoc. change ([1; ?b] ++ ?l) with ([1] ++ [b] ++ l).
  eapply Wire.reads_bind; [apply Wire.reads_u8|]. rewrite decide_False, decide_True by done.
  eapply Wire.reads_bind; [apply Wire.reads_u8|].
  eapply (Wire.reads_bind _ _ [] _ (runtime_mode mode)); [destruct mode; apply Wire.reads_ret|].
  eapply Wire.reads_bind; [by apply Wire.reads_length|]. eapply Wire.reads_bind; [done|].
  rewrite <-(app_nil_r [Z.b2z invert]). eapply Wire.reads_bind; [apply Wire.reads_u8|].
  destruct invert; apply Wire.reads_ret.
Qed.

Lemma kind_agrees o kind :
  match get o (str "type") with
  | None => Ok []
  | Some (VString kind) => Ok kind
  | Some _ => Err InvalidRuleSet
  end = Ok kind -> kind_of o = kind.
Proof. unfold kind_of. destruct (get o (str "type")) as [[]|]; try done; by intros [= <-]. Qed.

Lemma rule_survives levels version v w h :
  writable_rule levels v -> write_rule levels version v = Ok w -> compile levels v = Ok h -> survives levels w h.
Proof.
  revert v w h. induction levels as [|levels IH]; intros v w h Hw; [done|]. cbn [write_rule compile].
  destruct v as [| | | | |o]; try done. cbn [as_object ok_or]. rbind. cbv zeta.
  intros Ew (kind & Ek & Eh)%bind_Ok. apply kind_agrees in Ek as <-. cbn [writable_rule] in Hw.
  case_decide as Hk.
  { rewrite decide_True in Ew by done. rewrite decide_False in Hw; [by eapply default_survives|].
    intros E. rewrite E in Hk. destruct Hk as [Hk|Hk]; by vm_compute in Hk. }
  case_decide as Hl; [|done]. rewrite decide_False, decide_True in Ew by done. rewrite decide_True in Hw by done.
  apply bind_Ok in Eh as ([[mode rules] invert] & Eraw & (lmode & Em & Eh)%bind_Ok).
  destruct (raw_logical o) as [raw|] eqn:El; [|done]. injection Eraw as ->. unfold raw_logical in El.
  destruct (known _ o); [|done]. apply bind_Some in El as (_ & _ & (mode' & Emode & (rules' & Erules & (inv & Einv & [= -> -> ->])%bind_Some)%bind_Some)%bind_Some).
  rewrite Emode in Ew. case_decide as Hz; [done|].
  apply bind_Ok in Eh as (hs & Ehs & [= <-]). apply bind_Ok in Ew as (mb & Emb & (rules' & Er' & Ew)%bind_Ok).
  assert (get o (str "rules") ≫= as_array = Some rules) as Er
    by (destruct (get o (str "rules")); [done|by injection Erules as <-]).
  rewrite Er in Er', Hw. injection Er' as <-. destruct Hw as [Hshort Hall].
  apply Versions.seq_Ok in Ew as (x & y & [= <-] & (w1 & w2 & E1 & E2 & ->)%Versions.seq_Ok & ->).
  rewrite (bool_value_flag _ _ _ Einv) in E2. injection E2 as <-.
  destruct (all_survive levels (write_rule levels version) (compile levels) rules w1 hs)
    as (rts & hs' & Hlen & Hr & Hc & Hs); [|done|done|].
  { eapply Forall_impl; [exact Hall|]. intros v Hv w' h' Ew' Eh'. by eapply IH. }
  exists (RuntimeLogical (runtime_mode lmode) rts invert), (HLogical lmode hs' invert).
  split; [|split].
  - assert (mb = mode_byte lmode) as ->
      by (unfold parse_logical_mode in Em; repeat case_decide; simplify_eq; done).
    by apply reads_logical.
  - cbn [compile_runtime_rule]. rewrite decide_False by congruence. rewrite Hc. rbind. by destruct lmode.
  - by apply same_logical.
Qed.

Context {ZX : Zlib} {ZL : ZlibLaws}.

(** C5: A binary rule-set means the JSON it was written from, for rules in the
    common part of the two formats.  Their names and domain suffixes are ASCII
    in lower case, without control characters and without a final dot, the
    suffixes with one leading dot at most; there are no [adguard_domain]
    conditions; and strings, lists and domain keys are within the length limit
    of the format.  When such rules compile and are written in any version of
    the format, the file is read in that version, its rules compile, and the
    rule-set they form matches like the rule-set of the JSON, whichever rule
    refers to it, every connection whose addresses have their width and whose
    domain, if it has one, is ASCII without control characters (in any case,
    with or without final dots): names come back as succinct sets, prefixes as
    the canonical prefixes of merged ranges, and everything else as it was. *)
Theorem compiled_rule_set_agrees (rules : list Value) (version : Z) (bytes : list Z) (hs : list HeadlessRule) :
  short rules -> Forall (writable_rule LEVELS) rules ->
  write rules version = Ok bytes -> compile_headless_rules rules = Ok hs ->
  exists rts hs', read_runtime_with_version bytes = Ok (version, rts) /\ compile_runtime_rules rts = Ok hs'
    /\ forall m outer ms empty, ordinary m ->
       matches_with_outer_accept_empty hs' m outer ms empty = matches_with_outer_accept_empty hs m outer ms empty.
Proof.
  intros Hs Hw Ew Ec%map_err_Ok. unfold write in Ew. case_decide as Hv; [|done].
  apply bind_Ok in Ew as (payload & (x & y & <-%Ok_inj & Ey & ->)%Versions.seq_Ok & <-%Ok_inj).
  destruct (all_survive LEVELS (write_rule LEVELS version) (compile LEVELS) rules y hs)
    as (rts & hs' & Hl & Hr & Hc & Hsame); [|done|done|].
  { eapply Forall_impl; [exact Hw|]. intros v Hv' w h. by apply rule_survives. }
  exists rts, hs'. split; [|split; [by apply map_err_Ok|]].
  - unfold read_runtime_with_version. rewrite (Wire.reads_exact 3 MAGIC) by done. rewrite decide_False by tauto.
    rewrite Wire.reads_u8. rewrite decide_False by (unfold VERSION_CURRENT in *; lia). rewrite inflate_deflate.
    assert (Wire.reads read_rules (Wire.write_length rules ++ y) rts) as Hread
      by (eapply Wire.reads_bind; [by apply Wire.reads_length|done]).
    specialize (Hread []). rewrite app_nil_r in Hread. by rewrite Hread.
  - intros m outer ms empty Hm. by apply same_outer.
Qed.

End default.

(** ** Witnesses *)

Module Example.

Definition one (s : string) : Value := VString (str s).

(** A rule for [10.0.0.0/9] and [10.128.0.0/9], the domain [c] and the ports
    80 to 90, and one for the port 443 or the suffix [a.b]. *)
Definition rules : list Value :=
  [VObject [(str "domain", VArray [one "c"]); (str "ip_cidr", VArray [one "10.0.0.0/9"; one "10.128.0.0/9"]);
            (str "port_range", one "80:90"); (str "network_type", one "wifi")];
   VObject [(str "type", one "logical"); (str "mode", one "or"); (str "invert", VBool true);
            (str "rules", VArray [VObject [(str "port", VNumber (Some 443))];
                                  VObject [(str "type", one "default"); (str "domain_suffix", one "a.b");
                                           (str "query_type", one "AAAA")]])]].

Lemma stored_laws : @ZlibLaws Versions.stored.
Proof. by split. Qed.

End Example.

Ltac show_parts := cbn; repeat constructor; by vm_compute.

Lemma name_example : Domain.name_ok [99].
Proof. split; [|done]. repeat constructor; unfold CR; lia. Qed.

Lemma suffix_example : Domain.suffix_ok [97; 46; 98].
Proof.
  exists [97; 46; 98]. split; [|split; [done|by left]]. split; [|done]. repeat constructor; unfold CR; lia.
Qed.

Lemma example_ordinary : ordinary example_metadata.
Proof.
  split; [split; [by intros ? [=]|by intros ? [=]|constructor|apply map_Forall_empty|constructor]|].
  intros d [= <-]. change (normal_domain [120; 46; 99]) with [120; 46; 99].
  repeat constructor; unfold CR; lia.
Qed.

Ltac show_writable :=
  let raw := fresh "raw" in let E := fresh in
  intros raw E; vm_compute in E; injection E as <-; split;
  [ show_parts | show_parts | show_parts | intros ? E; by vm_compute in E | exact (map_Forall_empty (M := gmap text) (fun _ (l : list text) => short l))
  | cbn; repeat (exact name_example || constructor) | cbn; repeat (exact suffix_example || constructor) | intros [|] keys Ek; vm_compute in Ek; injection Ek as <-; by vm_compute | done ].

Lemma compiled_rule_set_agrees_witness :
  exists bytes rts hs hs', @write IpSet.Example.ops Versions.stored Example.rules 3 = Ok bytes
    /\ @compile_headless_rules literal IpSet.Example.ops Example.rules = Ok hs
    /\ @read_runtime_with_version Versions.stored bytes = Ok (3, rts)
    /\ @compile_runtime_rules literal IpSet.Example.ops rts = Ok hs'
    /\ @matches_with_outer_accept_empty literal IpSet.Example.ops hs' example_metadata (mkMatch true 0 0) false false
       = @matches_with_outer_accept_empty literal IpSet.Example.ops hs example_metadata (mkMatch true 0 0) false false.
Proof.
  assert (exists bytes, @write IpSet.Example.ops Versions.stored Example.rules 3 = Ok bytes) as [bytes Ew]
    by (eexists; vm_compute; reflexivity).
  assert (exists hs, @compile_headless_rules literal IpSet.Example.ops Example.rules = Ok hs) as [hs Ec]
    by (eexists; reflexivity).
  destruct (@compiled_rule_set_agrees literal IpSet.Example.ops IpSet.Example.laws IpSet.Example.text_laws
    Versions.stored Example.stored_laws Example.rules 3 bytes hs) as (rts & hs' & Er & Ec' & Hm).
  - by vm_compute.
  - constructor; [|constructor; [|constructor]].
    + show_writable.
    + split; [by vm_compute|]. constructor; [|constructor; [|constructor]]; show_writable.
  - done.
  - done.
  - exists bytes, rts, hs, hs'. do 4 (split; [done|]). apply Hm.
    apply example_ordinary.
Defined.

End File.
