(* ===== verification/RuleSetStore.v ===== *)
(** * Rule-sets while the program runs

    A rule-set is loaded once and replaced while connections are routed: a
    local one when its file changes, a remote one by conditional requests to
    its server, with the last content kept in the database for the next
    start.  This file models [RuleSet] of [route/mod.rs] with its three
    sources and the table [rule_set_cache] of [dns/persistent.rs].  Every
    replacement is all or nothing, and after a successful request the rules
    are those of the content that the server has. *)

From stdpp Require Import base numbers list gmap strings sorting.
From Stdlib Require Import ZArith Lia.
From S2P Require Import Prelude OvpnText Text IpText SrsWire SrsIpSet SocksAddr SrsSet SrsTrie SrsDomain SrsAdGuard SrsRule RouteRule RouteMatch RouteMeaning RuleSetFile.

Local Open Scope Z_scope.
Local Open Scope record_scope.

(** ** The table of the database *)

(** The time is in nanoseconds since the epoch; a row has it in seconds. *)
Record PersistentRuleSetEntry : Type := mkEntry {
  e_content : list Z;
  e_last_updated : Z;
  e_etag : text;
  e_url_hash : list Z;
}.

Definition cache : Type := gmap text PersistentRuleSetEntry.

Module RuleSetCache.

Definition NANOS : Z := 1000000000.
Definition I64_MAX : Z := 9223372036854775807.

Definition load_rule_set (rows : cache) (tag : text) : result () (option PersistentRuleSetEntry) :=
  match rows !! tag with
  | None => Ok None
  | Some row =>
      if decide (e_last_updated row < 0) then Err tt
      else Ok (Some (mkEntry (e_content row) (e_last_updated row * NANOS) (e_etag row) (e_url_hash row)))
  end.

Definition save_rule_set (rows : cache) (tag : text) (entry : PersistentRuleSetEntry) : result () cache :=
  if decide (e_last_updated entry < 0) then Err tt
  else
    let last_updated := e_last_updated entry / NANOS in
    if decide (I64_MAX < last_updated) then Err tt
    else Ok (<[tag := mkEntry (e_content entry) last_updated (e_etag entry) (e_url_hash entry)]> rows).

End RuleSetCache.

(** ** The rule-set *)

(** An answer of the server: the status, the [ETag] and the body. *)
Record Response : Type := mkResponse { r_status : Z; r_etag : option text; r_body : list Z }.

(** What an operation meets: the clock, the database, the files and the
    servers.  A request goes through the configured client or without one,
    and may carry [If-None-Match]. *)
Record World : Type := mkWorld {
  now : Z;
  database : bool;
  read_file : text -> option (list Z);
  modified_at : text -> option Z;
  request : bool -> text -> option text -> option Response;
}.

Record RemoteRuleSetSource : Type := mkRemote {
  url : text;
  initial_path : option text;
  format : text;
  etag : text;
  has_cache : bool;
  url_hash : list Z;
  cached_content : list Z;
  last_updated : option Z;
  download_detour : text;
  download_client : bool;
}.

Inductive RuleSetSource : Type :=
| Static
| Local (path format : text) (modified : option Z)
| Remote (r : RemoteRuleSetSource).

Record RuleSetUpdate : Type := mkUpdate { u_generation : Z; u_metadata : RuleSetMetadata }.

Definition RuleSetUpdateValidator : Type := text -> RuleSetMetadata -> result text ().

Global Instance remote_settable : Settable RemoteRuleSetSource := fun r =>
  mkRemote (url r) (initial_path r) (format r) (etag r) (has_cache r) (url_hash r) (cached_content r)
    (last_updated r) (download_detour r) (download_client r).

Module RuleStore.
Import Compile Rules RuleSetCache.

Section store.
Context {RX : RegexOps} {NX : IpNetOps} {ZX : Zlib} (parse : list Z -> option (Z * list Value))
  (sha256 : list Z -> list Z).

Record RuleSetState : Type := mkRuleSetState {
  rules : list HeadlessRule;
  metadata : RuleSetMetadata;
  generation : Z;
}.

Record RuleSet : Type := mkRuleSet {
  tag : text;
  state : RuleSetState;
  updates : RuleSetUpdate;
  update_validators : list RuleSetUpdateValidator;
  source : RuleSetSource;
  task : bool;
}.

#[local] Instance rule_set_settable : Settable RuleSet := fun s =>
  mkRuleSet (tag s) (state s) (updates s) (update_validators s) (source s) (task s).

Definition with_source (s : RuleSet) (src : RuleSetSource) : RuleSet := s <| source := src |>.

Definition add_update_validator (v : RuleSetUpdateValidator) (s : RuleSet) : RuleSet :=
  s <| update_validators ::= fun l => l ++ [v] |>.

Fixpoint validate (validators : list RuleSetUpdateValidator) (tag : text) (m : RuleSetMetadata)
    : result RouteError () :=
  match validators with
  | [] => Ok ()
  | v :: validators => _ ← map_err (fun _ => InvalidRuleSet) (v tag m); validate validators tag m
  end.

Definition reload_bytes (format : text) (content : list Z) : method RuleSet RouteError () := fun s =>
  match decode_rule_set parse format content with
  | Err e => (Err e, s)
  | Ok rules =>
      let metadata := rule_set_metadata rules in
      match validate (update_validators s) (tag s) metadata with
      | Err e => (Err e, s)
      | Ok _ =>
          let generation := wrap64 (generation (state s) + 1) in
          (Ok tt, s <| state := mkRuleSetState rules metadata generation |>
                    <| updates := mkUpdate generation metadata |>)
      end
  end.

Definition reload : text -> list Z -> method RuleSet RouteError () := reload_bytes.

Definition reload_path (w : World) (path : text) : method RuleSet RouteError () := fun s =>
  match match source s with
        | Static => None
        | Local _ format _ => Some format
        | Remote r => Some (format r)
        end with
  | None => (Ok tt, s)
  | Some format =>
      match read_file w path with
      | None => (Err ReadRuleSet, s)
      | Some content => reload_bytes format content s
      end
  end.

Definition reload_local_if_changed (w : World) (s : RuleSet) : RuleSet :=
  match source s with
  | Local path format modified =>
      match modified_at w path with
      | None => s
      | Some current =>
          if decide (modified = Some current) then s
          else match reload_path w path s with
               | (Ok _, s) => with_source s (Local path format (Some current))
               | (Err _, s) => s
               end
      end
  | _ => s
  end.

(** Saving is attempted; a failure is only logged. *)
Definition save (w : World) (rows : cache) (r : RemoteRuleSetSource) (tag : text) (etag : text) (content : list Z)
    : cache :=
  if has_cache r && database w then
    match save_rule_set rows tag (mkEntry content (now w) etag (url_hash r)) with
    | Ok rows => rows
    | Err _ => rows
    end
  else rows.

Definition fetch (w : World) (r : RemoteRuleSetSource) : result RouteError Response :=
  let inm := match etag r with [] => None | e => Some e end in
  if negb (download_client r) && bool_decide (download_detour r = [])
  then ok_or InvalidRuleSet (request w false (url r) inm)
  else if download_client r then ok_or InvalidRuleSet (request w true (url r) inm)
  else Err InvalidRuleSet.

Definition fetch_remote (w : World) : method (RuleSet * cache) RouteError () := fun '(s, rows) =>
  match source s with
  | Remote r =>
      match fetch w r with
      | Err e => (Err e, (s, rows))
      | Ok response =>
          if decide (r_status response = 304) then
            (Ok tt, (with_source s (Remote (r <| last_updated := Some (now w) |>)),
                     save w rows r (tag s) (etag r) (cached_content r)))
          else if decide (r_status response <> 200) then (Err InvalidRuleSet, (s, rows))
          else
            match reload_bytes (format r) (r_body response) s with
            | (Err e, s) => (Err e, (s, rows))
            | (Ok _, s) =>
                let r := match r_etag response with Some e => r <| etag := e |> | None => r end in
                let r := r <| last_updated := Some (now w) |> <| cached_content := r_body response |> in
                (Ok tt, (with_source s (Remote r), save w rows r (tag s) (etag r) (r_body response)))
            end
      end
  | _ => (Ok tt, (s, rows))
  end.

Definition set_task (s : RuleSet) : RuleSet := s <| task := true |>.

(** The rules of the file that stands in until the first request. *)
Definition load_initial (w : World) (r : RemoteRuleSetSource) (s : RuleSet) : bool * RuleSet :=
  match rules (state s), initial_path r with
  | _ :: _, _ => (true, s)
  | [], None => (false, s)
  | [], Some path =>
      match reload_path w path s with
      | (Ok _, s) => (true, s)
      | (Err _, s) => (false, s)
      end
  end.

Definition start (w : World) : method (RuleSet * cache) RouteError () := fun '(s, rows) =>
  if task s then (Ok tt, (s, rows))
  else
    match source s with
    | Static => (Ok tt, (s, rows))
    | Local _ _ _ => (Ok tt, (set_task s, rows))
    | Remote r =>
        let '(loaded, s) := load_initial w r s in
        match (if loaded then (Ok tt, (s, rows)) else fetch_remote w (s, rows)) with
        | (Ok _, (s, rows)) => (Ok tt, (set_task s, rows))
        | (Err e, s) => (Err e, s)
        end
    end.

Definition close (s : RuleSet) : RuleSet := s <| task := false |>.

(** The client that a remote rule-set is given before it starts. *)
Definition set_download_client (s : RuleSet) : RuleSet :=
  match source s with
  | Remote r => with_source s (Remote (r <| download_client := true |>))
  | _ => s
  end.

(** One round of the task that [start] leaves behind. *)
Definition tick (w : World) (s : RuleSet * cache) : RuleSet * cache :=
  match source (fst s) with
  | Static => s
  | Local _ _ _ => (reload_local_if_changed w (fst s), snd s)
  | Remote _ => snd (fetch_remote w s)
  end.

(** ** Registration *)

Definition registry : Type := gmap text RuleSet.

Definition new_rule_set (tag : text) (rules : list HeadlessRule) (src : RuleSetSource) : RuleSet :=
  let metadata := rule_set_metadata rules in
  mkRuleSet tag (mkRuleSetState rules metadata 0) (mkUpdate 0 metadata) [] src false.

Definition insert_rule_set (tag : text) (rules : list HeadlessRule) (src : RuleSetSource)
    : method registry RouteError () := fun sets =>
  let inserted := <[tag := new_rule_set tag rules src]> sets in
  match sets !! tag with
  | Some _ => (Err InvalidRuleSet, inserted)
  | None => (Ok tt, inserted)
  end.

(** The row of a remote rule-set that is used again: it is of the same URL. *)
Definition load_cached (w : World) (rows : cache) (r : RemoteRuleSetSource) (tag : text)
    : option PersistentRuleSetEntry :=
  if has_cache r && database w then
    match load_rule_set rows tag with
    | Ok (Some saved) =>
        if decide (e_url_hash saved = [] \/ e_url_hash saved = url_hash r) then Some saved else None
    | _ => None
    end
  else None.

(** A remote rule-set as it is configured, before the cache is consulted. *)
Definition configured (url : text) (initial_path : option text) (format : text) (has_cache : bool)
    (download_detour : text) : RemoteRuleSetSource :=
  mkRemote url initial_path format [] has_cache (sha256 url) [] None download_detour false.

Definition register_remote (w : World) (rows : cache) (tag url : text) (initial_path : option text) (format : text)
    (has_cache : bool) (download_detour : text) : list HeadlessRule * RemoteRuleSetSource :=
  let r := configured url initial_path format has_cache download_detour in
  match load_cached w rows r tag with
  | Some saved =>
      match decode_rule_set parse format (e_content saved) with
      | Ok rules =>
          (rules, r <| cached_content := e_content saved |> <| etag := e_etag saved |>
                    <| last_updated := Some (e_last_updated saved) |>)
      | Err _ => ([], r)
      end
  | None => ([], r)
  end.

(** ** All or nothing *)

Inductive op : Type :=
| OReload (format : text) (content : list Z)
| OFetch (w : World)
| OStart (w : World)
| OTick (w : World)
| OClient
| OClose
| OValidator (v : RuleSetUpdateValidator).

Definition run (o : op) : method (RuleSet * cache) RouteError () := fun '(s, rows) =>
  match o with
  | OReload format content => let '(r, s) := reload format content s in (r, (s, rows))
  | OFetch w => fetch_remote w (s, rows)
  | OStart w => start w (s, rows)
  | OTick w => (Ok tt, tick w (s, rows))
  | OClient => (Ok tt, (set_download_client s, rows))
  | OClose => (Ok tt, (close s, rows))
  | OValidator v => (Ok tt, (add_update_validator v s, rows))
  end.

(** The rules in force and what the subscribers were told of them. *)
Record consistent (s : RuleSet) : Prop := {
  consistent_metadata : metadata (state s) = rule_set_metadata (rules (state s));
  consistent_update : updates s = mkUpdate (generation (state s)) (metadata (state s));
  consistent_generation : is_u64 (generation (state s));
}.

Definition kept (s s' : RuleSet) : Prop := state s' = state s /\ updates s' = updates s.

Definition accepted (s : RuleSet) (rules : list HeadlessRule) : Prop :=
  Forall (fun v : RuleSetUpdateValidator => v (tag s) (rule_set_metadata rules) = Ok tt) (update_validators s).

Definition replaced (s s' : RuleSet) : Prop :=
  exists format content rules, decode_rule_set parse format content = Ok rules /\ accepted s rules
    /\ state s' = mkRuleSetState rules (rule_set_metadata rules) (wrap64 (generation (state s) + 1))
    /\ updates s' = mkUpdate (wrap64 (generation (state s) + 1)) (rule_set_metadata rules).

(** What an operation that keeps the rules may do to the source: note when
    the server last confirmed them, and receive the client. *)
Definition source_kept (src src' : RuleSetSource) : Prop :=
  match src, src' with
  | Remote r, Remote r' => r' = r <| last_updated := last_updated r' |> <| download_client := download_client r' |>
  | _, _ => src' = src
  end.

Definition settled (s s' : RuleSet) : Prop := kept s s' /\ source_kept (source s) (source s') \/ replaced s s'.

(** No row of another rule-set is touched. *)
Definition own_row (t : text) (rows rows' : cache) : Prop := forall t', t' <> t -> rows' !! t' = rows !! t'.

Definition is_err {E A} (r : result E A) : bool := match r with Err _ => true | Ok _ => false end.

(** The work of one round fails: the task logs it and goes on. *)
Definition round_fails (w : World) (s : RuleSet * cache) : bool :=
  match source (fst s) with
  | Static => false
  | Local path _ modified =>
      match modified_at w path with
      | None => true
      | Some current => bool_decide (modified <> Some current) && is_err (fst (reload_path w path (fst s)))
      end
  | Remote _ => is_err (fst (fetch_remote w s))
  end.

Inductive reachable : RuleSet -> cache -> Prop :=
| reachable_new tag rules src rows : reachable (new_rule_set tag rules src) rows
| reachable_run o s rows r s' rows' :
    reachable s rows -> run o (s, rows) = (r, (s', rows')) -> reachable s' rows'.

Lemma validate_Ok l t m : validate l t m = Ok tt <-> Forall (fun v : RuleSetUpdateValidator => v t m = Ok tt) l.
Proof.
  induction l as [|v l IH]; cbn; [by split|]. rewrite Forall_cons. split.
  - intros ([] & E%map_err_Ok & H)%bind_Ok. by rewrite <-IH.
  - intros [-> H]. by apply IH.
Qed.

Lemma reload_bytes_cases f c s r s' :
  reload_bytes f c s = (r, s') ->
  match r with
  | Err _ => s' = s
  | Ok _ => exists rules, decode_rule_set parse f c = Ok rules /\ accepted s rules
      /\ s' = mkRuleSet (tag s)
           (mkRuleSetState rules (rule_set_metadata rules) (wrap64 (generation (state s) + 1)))
           (mkUpdate (wrap64 (generation (state s) + 1)) (rule_set_metadata rules))
           (update_validators s) (source s) (task s)
  end.
Proof.
  unfold reload_bytes. destruct (decode_rule_set parse f c) as [rules|e] eqn:Ed; [|by intros [= <- <-]].
  cbv zeta. destruct (validate _ _ _) as [[]|e] eqn:Ev; [|by intros [= <- <-]].
  intros [= <- <-]. exists rules. split; [done|]. split; [by apply validate_Ok|done].
Qed.

(** A replacement leaves everything else as it was. *)
Lemma reload_bytes_replaced f c s s' :
  reload_bytes f c s = (Ok tt, s') -> replaced s s' /\ source s' = source s.
Proof. intros (rules & Ed & Ha & ->)%reload_bytes_cases. split; [|done]. by exists f, c, rules. Qed.

Lemma source_kept_refl src : source_kept src src.
Proof. by destruct src as [| |[]]. Qed.

Lemma settled_refl s : settled s s.
Proof. left. split; [done|apply source_kept_refl]. Qed.

Lemma own_row_refl t rows : own_row t rows rows.
Proof. by intros t'. Qed.

#[local] Hint Resolve source_kept_refl settled_refl own_row_refl : core.

Lemma reload_path_cases w path s r s' :
  reload_path w path s = (r, s') ->
  match r with
  | Err _ => s' = s
  | Ok _ => settled s s' /\ source s' = source s
  end.
Proof.
  unfold reload_path. destruct (match source s with Static => None | _ => _ end); [|by intros [= <- <-]].
  destruct (read_file w path); [|by intros [= <- <-]]. intros E. destruct r as [[]|].
  - apply reload_bytes_replaced in E as [? ?]. split; [by right|done].
  - by apply reload_bytes_cases in E.
Qed.

Lemma save_own_row w rows r t e c : own_row t rows (save w rows r t e c).
Proof.
  unfold save. destruct (has_cache r && database w); [|done].
  destruct (save_rule_set rows t _) as [rows'|] eqn:E; [|done]. intros t' Ht.
  revert E. unfold save_rule_set. case_decide; [done|]. cbv zeta. case_decide; [done|].
  intros [= <-]. apply lookup_insert_ne. congruence.
Qed.

Lemma fetch_remote_cases w s rows r s' rows' :
  fetch_remote w (s, rows) = (r, (s', rows')) ->
  match r with
  | Err _ => s' = s /\ rows' = rows
  | Ok _ => settled s s' /\ own_row (tag s) rows rows'
  end.
Proof.
  unfold fetch_remote. destruct (source s) as [| |rm] eqn:Es; try by intros [= <- <- <-].
  destruct (fetch w rm) as [resp|e]; [|by intros [= <- <- <-]].
  case_decide.
  { intros [= <- <- <-]. split; [|apply save_own_row]. left. split; [done|]. rewrite Es. by destruct rm. }
  case_decide; [by intros [= <- <- <-]|].
  destruct (reload_bytes _ _ s) as [[[]|e] s1] eqn:Er.
  - assert (tag s1 = tag s) as <- by (apply reload_bytes_cases in Er as (? & _ & _ & ->); done).
    apply reload_bytes_replaced in Er as [Hr _]. intros [= <- <- <-]. split; [by right|apply save_own_row].
  - apply reload_bytes_cases in Er as ->. by intros [= <- <- <-].
Qed.

Lemma load_initial_cases w rm s loaded s' :
  load_initial w rm s = (loaded, s') -> if loaded then settled s s' else s' = s.
Proof.
  unfold load_initial. destruct (rules (state s)); [|by intros [= <- <-]].
  destruct (initial_path rm); [|by intros [= <- <-]].
  destruct (reload_path w _ s) as [[[]|e] s1] eqn:E; intros [= <- <-]; apply reload_path_cases in E; by destruct E.
Qed.

Lemma start_cases w s rows r s' rows' :
  start w (s, rows) = (r, (s', rows')) ->
  match r with
  | Err _ => s' = s /\ rows' = rows
  | Ok _ => settled s s' /\ own_row (tag s) rows rows'
  end.
Proof.
  unfold start. destruct (task s); [by intros [= <- <- <-]|].
  destruct (source s) as [| |rm]; [by intros [= <- <- <-]| |].
  { intros [= <- <- <-]. split; [|done]. exact (settled_refl s). }
  destruct (load_initial w rm s) as [[] s1] eqn:El; apply load_initial_cases in El.
  - intros [= <- <- <-]. split; [exact El|done].
  - subst s1. destruct (fetch_remote w (s, rows)) as [[[]|e] [s1 rows1]] eqn:Ef; apply fetch_remote_cases in Ef.
    + intros [= <- <- <-]. exact Ef.
    + by intros [= <- <- <-].
Qed.

(** A round either does its work or changes nothing at all. *)
Lemma tick_cases w s rows s' rows' :
  tick w (s, rows) = (s', rows') ->
  if round_fails w (s, rows) then s' = s /\ rows' = rows else settled s s' /\ own_row (tag s) rows rows'.
Proof.
  unfold tick, round_fails. cbn [fst snd]. destruct (source s) as [|path f modified|rm] eqn:Es.
  - by intros [= <- <-].
  - unfold reload_local_if_changed. rewrite Es. destruct (modified_at w path) as [current|]; [|by intros [= <- <-]].
    destruct (decide (modified = Some current)) as [Em|Em].
    { intros [= <- <-]. by rewrite (bool_decide_eq_false_2 (modified <> Some current)) by (by intros []). }
    rewrite bool_decide_eq_true_2 by done. cbn [andb].
    destruct (reload_path w path s) as [[[]|e] s1] eqn:E; intros [= <- <-]; cbn [fst is_err].
    + split; [|done]. right. unfold reload_path in E. rewrite Es in E.
      destruct (read_file w path); [|done]. apply reload_bytes_replaced in E as [E _]. exact E.
    + by apply reload_path_cases in E.
  - destruct (fetch_remote w (s, rows)) as [[[]|e] [s1 rows1]] eqn:Ef; apply fetch_remote_cases in Ef;
      intros [= <- <-]; exact Ef.
Qed.

Lemma run_cases o s rows r s' rows' :
  run o (s, rows) = (r, (s', rows')) ->
  match r with
  | Err _ => s' = s /\ rows' = rows
  | Ok _ => settled s s' /\ own_row (tag s) rows rows'
  end.
Proof.
  destruct o as [f c|w|w|w| | |v]; cbn [run].
  - unfold reload. destruct (reload_bytes f c s) as [[[]|e] s1] eqn:E; intros [= <- <- <-].
    + split; [|done]. right. by apply reload_bytes_replaced in E as [? _].
    + by apply reload_bytes_cases in E.
  - apply fetch_remote_cases.
  - apply start_cases.
  - destruct (tick w (s, rows)) as [s1 rows1] eqn:E. intros [= <- <- <-]. apply tick_cases in E.
    destruct (round_fails w (s, rows)); [by destruct E as [-> ->]|done].
  - intros [= <- <- <-]. split; [|done]. left. unfold set_download_client. destruct (source s) as [| |rm] eqn:Es;
      rewrite ?Es; [done..|]. cbn. by destruct rm.
  - intros [= <- <- <-]. split; [exact (settled_refl s)|done].
  - intros [= <- <- <-]. split; [exact (settled_refl s)|done].
Qed.

Lemma kept_consistent s s' : kept s s' -> consistent s -> consistent s'.
Proof. intros [Es Eu] [H1 H2 H3]. split; rewrite ?Es, ?Eu; done. Qed.

Lemma replaced_consistent s s' : replaced s s' -> consistent s'.
Proof.
  intros (f & c & rs & _ & _ & Es & Eu). split; rewrite ?Es, ?Eu; try done.
  cbn [generation]. unfold_ints. pose proof (Z.mod_pos_bound (generation (state s) + 1) (2 ^ 64)). lia.
Qed.

Lemma reachable_consistent s rows : reachable s rows -> consistent s.
Proof.
  induction 1 as [t rs src rows|o s rows r s' rows' _ IH E].
  - split; [done|done|]. cbn. ilia.
  - apply run_cases in E. destruct r as [[]|e].
    + destruct E as [[[E _]|E] _]; [by eapply kept_consistent|by eapply replaced_consistent].
    + by destruct E as [-> _].
Qed.

(** C26: Replacing a rule-set is all or nothing.  In every state that a
    rule-set reaches, an operation that returns an error (a server that cannot
    be reached, content that does not decode, a validator that refuses)
    changes neither the rules, the metadata, the generation, the notification
    of the subscribers, the source (its entity tag and saved content) nor the
    database.  So does a round of the background task whose work fails, whose
    error is only logged: a local file that cannot be read or does not load
    keeps the noted modification time too, so the next round tries it again.
    An operation that succeeds either keeps the rules, and of the source
    changes at most the time of the last confirmation and the client it is
    given, or puts other rules in force, decoded from one content and accepted
    by every validator, with the next generation and one notification that
    agrees with them; in the database it touches at most the row of this
    rule-set. *)
Theorem update_or_nothing o s rows r s' rows' :
  reachable s rows -> run o (s, rows) = (r, (s', rows')) ->
  consistent s'
  /\ match r with
     | Err _ => s' = s /\ rows' = rows
     | Ok _ => (kept s s' /\ source_kept (source s) (source s') \/ replaced s s')
         /\ (forall t, t <> tag s -> rows' !! t = rows !! t)
     end
  /\ (forall w, o = OTick w -> round_fails w (s, rows) = true -> s' = s /\ rows' = rows).
Proof.
  intros Hr E. split; [eapply reachable_consistent, reachable_run; eassumption|].
  split; [by eapply run_cases|]. intros w -> Hf. cbn [run] in E.
  destruct (tick w (s, rows)) as [s1 rows1] eqn:Et. apply tick_cases in Et. rewrite Hf in Et.
  by destruct Et as [-> ->]; simplify_eq.
Qed.

(** ** A remote rule-set and its server

    The server has one content at a time and gives it an entity tag of its
    own.  The rule-set goes through requests that may fail, restarts of the
    program with whatever the database kept, and changes of the content. *)

Section server.
Context (etag_of : list Z -> text) (etag_inj : Inj (=) (=) etag_of) (etag_some : forall c, etag_of c <> []).
Context (its_tag its_url its_format : text).

(** A server with the content [c]: it answers 304 to the tag of [c] only, and
    200 with [c] and its tag; every other outcome is free. *)
Definition honest (c : list Z) (w : World) : Prop :=
  forall client inm resp, request w client its_url inm = Some resp ->
    (r_status resp = 304 -> inm = Some (etag_of c))
    /\ (r_status resp = 200 -> r_etag resp = Some (etag_of c) /\ r_body resp = c).

Definition decodes (c : list Z) : result RouteError (list HeadlessRule) := decode_rule_set parse its_format c.

Definition useful (c : list Z) : Prop := decodes c <> Ok [].

Definition boot (w : World) (rows : cache) (initial : option text) (has_cache : bool) (detour : text) : RuleSet :=
  let '(rules, r) := register_remote w rows its_tag its_url initial its_format has_cache detour in
  new_rule_set its_tag rules (Remote r).

(** What the database may hold for the tag when the program first starts. *)
Definition rows_ok (rows : cache) : Prop :=
  forall row, rows !! its_tag = Some row -> (e_url_hash row = [] \/ e_url_hash row = sha256 its_url) ->
  e_etag row <> [] -> e_etag row = etag_of (e_content row) /\ useful (e_content row).

Inductive history : RuleSet -> cache -> list Z -> Prop :=
| history_first w rows initial has_cache detour c :
    rows_ok rows -> useful c -> history (boot w rows initial has_cache detour) rows c
| history_restart w s rows initial has_cache detour c :
    history s rows c -> history (boot w rows initial has_cache detour) rows c
| history_publish s rows c c' : history s rows c -> useful c' -> history s rows c'
| history_fetch w s rows c r s' rows' :
    history s rows c -> honest c w -> fetch_remote w (s, rows) = (r, (s', rows')) -> history s' rows' c
| history_start w s rows c r s' rows' :
    history s rows c -> honest c w -> start w (s, rows) = (r, (s', rows')) -> history s' rows' c
| history_client s rows c : history s rows c -> history (set_download_client s) rows c
| history_close s rows c : history s rows c -> history (close s) rows c
| history_validator v s rows c : history s rows c -> history (add_update_validator v s) rows c.

(** The entity tag in memory is that of the content the rules come from. *)
Definition tagged (r : RemoteRuleSetSource) (rs : list HeadlessRule) : Prop :=
  etag r <> [] -> etag r = etag_of (cached_content r) /\ decodes (cached_content r) = Ok rs /\ rs <> [].

Definition about (r : RemoteRuleSetSource) : Prop :=
  url r = its_url /\ format r = its_format /\ url_hash r = sha256 its_url.

Definition synced (s : RuleSet) : Prop :=
  tag s = its_tag /\ exists r, source s = Remote r /\ about r /\ tagged r (rules (state s)).

Lemma save_keeps_rows w rows r e c :
  rows_ok rows -> (e <> [] -> e = etag_of c /\ useful c) -> rows_ok (save w rows r its_tag e c).
Proof.
  intros Hr He. unfold save. destruct (has_cache r && database w); [|done].
  unfold save_rule_set. case_decide; [done|]. cbv zeta. case_decide; [done|].
  intros row [[_ <-]|[? _]]%lookup_insert_Some; [|done]. intros _ H1. cbn in *. by apply He.
Qed.

Lemma tagged_useful r rs : tagged r rs -> etag r <> [] -> etag r = etag_of (cached_content r) /\ useful (cached_content r).
Proof. intros H He. destruct (H He) as (? & E & ?). split; [done|]. unfold useful. rewrite E. congruence. Qed.

Lemma fetch_Ok w r resp :
  fetch w r = Ok resp ->
  exists client, request w client (url r) (match etag r with [] => None | e => Some e end) = Some resp.
Proof.
  unfold fetch. cbv zeta. destruct (download_client r); cbn [negb andb].
  - destruct (request _ _ _ _) eqn:E; [|done]. intros [= <-]. eauto.
  - case_bool_decide; [|done]. destruct (request _ _ _ _) eqn:E; [|done]. intros [= <-]. eauto.
Qed.

(** A request to the server keeps the rules and the tag together. *)
Lemma fetch_synced w s rows c r s' rows' :
  synced s -> rows_ok rows -> useful c -> honest c w -> fetch_remote w (s, rows) = (r, (s', rows')) ->
  synced s' /\ rows_ok rows' /\ (r = Ok tt -> decodes c = Ok (rules (state s'))).
Proof.
  intros (Ht & rm & Es & (Eu & Ef & Eh) & Htag) Hrows Hc Hw. unfold fetch_remote. rewrite Es.
  assert (synced s) as Hs by (split; [done|]; by exists rm).
  destruct (fetch w rm) as [resp|e] eqn:Efe; [|by intros [= <- <- <-]].
  apply fetch_Ok in Efe as (client & Ereq). rewrite Eu in Ereq. destruct (Hw _ _ _ Ereq) as [H304 H200].
  case_decide as Hst.
  { specialize (H304 Hst). assert (etag rm = etag_of c) as Ee by (destruct (etag rm); [done|by injection H304]).
    assert (etag rm <> []) as Hne by (rewrite Ee; apply etag_some).
    destruct (Htag Hne) as (E1 & E2 & E3). assert (cached_content rm = c) as Ec by (apply etag_inj; congruence).
    intros [= <- <- <-]. split; [|split].
    - split; [done|]. eexists. split; [reflexivity|]. by repeat split.
    - rewrite Ht. apply save_keeps_rows; [done|]. by apply tagged_useful in Htag.
    - intros _. by rewrite <-Ec. }
  case_decide as H2; [by intros [= <- <- <-]|]. destruct (H200 ltac:(lia)) as [E1 E2]. rewrite E1, E2, Ef.
  destruct (reload_bytes its_format c s) as [[[]|e] s1] eqn:Er.
  - apply reload_bytes_cases in Er as (rs & Ed & _ & ->). intros [= <- <- <-]. split; [|split].
    + split; [done|]. eexists. split; [reflexivity|]. split; [done|]. intros _. split; [done|]. split; [done|].
      cbn. intros ->. by apply Hc.
    + cbn [tag]. rewrite Ht. apply save_keeps_rows; [done|]. by split.
    + intros _. exact Ed.
  - apply reload_bytes_cases in Er as ->. by intros [= <- <- <-].
Qed.

Lemma load_initial_synced w rm s loaded s' :
  synced s -> source s = Remote rm -> load_initial w rm s = (loaded, s') -> synced s'.
Proof.
  intros Hs Es. unfold load_initial. destruct (rules (state s)) as [|h l] eqn:Erules; [|by intros [= <- <-]].
  destruct (initial_path rm); [|by intros [= <- <-]].
  destruct (reload_path w _ s) as [[[]|e] s1] eqn:E; intros [= <- <-].
  - assert (tag s1 = tag s) as Et by (unfold reload_path, reload_bytes in E; repeat case_match; by simplify_eq).
    apply reload_path_cases in E as [_ Esrc]. destruct Hs as (Ht & r & Er & Ha & Htag).
    split; [congruence|]. exists r. split; [congruence|]. split; [done|].
    intros He. destruct (Htag He) as (_ & _ & []). done.
  - apply reload_path_cases in E as ->. done.
Qed.

Lemma set_task_synced s : synced s -> synced (set_task s).
Proof. done. Qed.

Lemma start_synced w s rows c r s' rows' :
  synced s -> rows_ok rows -> useful c -> honest c w -> start w (s, rows) = (r, (s', rows')) ->
  synced s' /\ rows_ok rows'.
Proof.
  intros Hs Hrows Hc Hw. unfold start. destruct (task s); [by intros [= <- <- <-]|].
  destruct (source s) as [| |rm] eqn:Es; try (by intros [= <- <- <-]).
  destruct (load_initial w rm s) as [loaded s1] eqn:El. eapply load_initial_synced in El; [|done|done].
  destruct loaded; [by intros [= <- <- <-]|].
  destruct (fetch_remote w (s1, rows)) as [[[]|e] [s2 rows2]] eqn:Ef;
    eapply fetch_synced in Ef as (H1 & H2 & _); try done; by intros [= <- <- <-].
Qed.

Lemma boot_synced w rows initial hc detour : rows_ok rows -> synced (boot w rows initial hc detour).
Proof.
  intros Hrows. unfold boot, register_remote. cbv zeta.
  assert (forall rs r, about r -> tagged r rs -> synced (new_rule_set its_tag rs (Remote r))) as Hnew
    by (intros rs r Ha Ht; split; [done|]; by exists r).
  destruct (load_cached _ _ _ _) as [saved|] eqn:El; [|apply Hnew; [done|by intros []]].
  destruct (decode_rule_set _ _ _) as [rs|e] eqn:Ed; [|apply Hnew; [done|by intros []]].
  apply Hnew; [done|]. intros He. cbn in He |- *. unfold load_cached in El.
  destruct (_ && _); [|done]. unfold load_rule_set in El. destruct (rows !! its_tag) as [row|] eqn:Erow; [|done].
  case_decide; [done|]. case_decide as Hh; [|done]. injection El as <-. cbn in *.
  destruct (Hrows row Erow Hh He) as [E Hu]. split; [done|]. split; [done|]. intros ->. by apply Hu.
Qed.

Lemma history_synced s rows c : history s rows c -> synced s /\ rows_ok rows /\ useful c.
Proof.
  induction 1 as [w rows initial hc detour c Hr Hc|w s rows initial hc detour c _ (_ & Hr & Hc)
    |s rows c c' _ (Hs & Hr & _) Hc|w s rows c r s' rows' _ (Hs & Hr & Hc) Hw E|w s rows c r s' rows' _ (Hs & Hr & Hc) Hw E
    |s rows c _ (Hs & Hr & Hc)|s rows c _ (Hs & Hr & Hc)|v s rows c _ (Hs & Hr & Hc)]; try done.
  - split; [by apply boot_synced|done].
  - split; [by apply boot_synced|done].
  - eapply fetch_synced in E as (? & ? & _); done.
  - eapply start_synced in E as [? ?]; done.
  - split; [|done]. destruct Hs as (Ht & rm & Es & Ha & Htag). unfold set_download_client. rewrite Es.
    split; [done|]. eexists. split; [reflexivity|]. by split.
Qed.

(** C25: A successful request leaves the rules of the server's content in
    force.  Whatever a remote rule-set went through before (failed requests,
    refused updates, restarts with the content and the tag that the database
    kept, a first start from a file), when the server tags every content it
    sends and never publishes a rule-set without rules, a request that
    succeeds, with the content or with 304, ends with the rules that the
    server's present content decodes to. *)
Theorem remote_rules_current w s rows c s' rows' :
  history s rows c -> honest c w -> fetch_remote w (s, rows) = (Ok tt, (s', rows')) ->
  decode_rule_set parse its_format c = Ok (rules (state s')).
Proof.
  intros (Hs & Hr & Hc)%history_synced Hw E. eapply fetch_synced in E as (_ & _ & H); try done. by apply H.
Qed.

End server.
End store.
End RuleStore.

(** ** Examples *)

Module StoreExample.
Import RuleStore.

(** Files that name one port, or nothing at all. *)
Definition parse (c : list Z) : option (Z * list Value) :=
  match c with
  | [p] => Some (1, [VObject [(str "port", VNumber (Some p))]])
  | _ => Some (1, [])
  end.

Definition sha256 (l : list Z) : list Z := l.
Definition etag_of (c : list Z) : text := 34 :: c.

(** A server with the content [c], tagged or not, and the file [initial]. *)
Definition server (tagged : bool) (c : list Z) (initial : option (list Z)) : World :=
  mkWorld 1000000000 true (fun _ => initial) (fun _ => None) (fun _ _ inm =>
    if decide (inm = Some (etag_of c)) then Some (mkResponse 304 None [])
    else Some (mkResponse 200 (if tagged then Some (etag_of c) else None) c)).

Definition rule_set : Type := @RuleSet Meaning.literal IpSet.Example.ops.

Definition decode : list Z -> result RouteError (list (@Rules.HeadlessRule Meaning.literal IpSet.Example.ops)) :=
  @Compile.decode_rule_set Meaning.literal IpSet.Example.ops Versions.stored parse (str "source").

Definition fetch_remote : World -> method (rule_set * cache) RouteError () :=
  @RuleStore.fetch_remote Meaning.literal IpSet.Example.ops Versions.stored parse.

Definition start : World -> method (rule_set * cache) RouteError () :=
  @RuleStore.start Meaning.literal IpSet.Example.ops Versions.stored parse.

Definition boot (w : World) (rows : cache) (initial : option text) : rule_set :=
  @RuleStore.boot Meaning.literal IpSet.Example.ops Versions.stored parse sha256 (str "t") (str "u") (str "source") w rows
    initial true [].

Lemma etag_some c : etag_of c <> [].
Proof. done. Qed.

Lemma server_honest c initial : @honest etag_of (str "u") c (server true c initial).
Proof.
  intros client inm resp. cbn. case_decide; intros [= <-]; cbn; [done|]. done.
Qed.

(** The rules of a state after some requests. *)
Definition rules_after (worlds : list World) (s : rule_set) (rows : cache) : list (@Rules.HeadlessRule Meaning.literal IpSet.Example.ops) :=
  rules (state (fst (foldl (fun s w => snd (fetch_remote w s)) (s, rows) worlds))).

(** The ports of a decoded file. *)
Definition ports (r : result RouteError (list (@Rules.HeadlessRule Meaning.literal IpSet.Example.ops))) : list Z :=
  match r with
  | Ok [Rules.HDefault rule] => r_port (Rules.raw (Rules.h_base rule))
  | _ => []
  end.

(** When an answer has no tag, the tag of the content before it is kept: a
    server that goes back to that content answers 304, and the rules stay
    those of the other content. *)
Lemma untagged_content_stays :
  let worlds := [server true [80] None; server false [81] None; server true [80] None] in
  Ok (rules_after worlds (boot (server true [80] None) ∅ None) ∅) = decode [81]
  /\ decode [80] <> decode [81].
Proof.
  split; [reflexivity|]. intros H. apply (f_equal ports) in H. revert H.
  change (ports (decode [80])) with [80]. by change (ports (decode [81])) with [81].
Qed.

(** A kept content without rules: the file for the first start takes its
    place, and the server's 304 leaves it in force. *)
Lemma empty_content_replaced :
  let w := server true [] (Some [82]) in
  let s := (boot w ∅ None, ∅) in
  let s := snd (fetch_remote w s) in
  let s := snd (start w (boot w (snd s) (Some (str "f")), snd s)) in
  Ok (rules (state (fst (snd (fetch_remote w s))))) = decode [82] /\ decode [] = Ok [].
Proof. split; reflexivity. Qed.

(** Port 80, then 81, and a restart. *)
Definition first : rule_set * cache := snd (fetch_remote (server true [80] None) (boot (server true [80] None) ∅ None, ∅)).
Definition second : rule_set * cache := snd (fetch_remote (server true [81] None) first).
Definition restarted : rule_set := boot (server true [81] None) (snd second) None.

Definition known (s : rule_set * cache) (c : list Z) : Prop :=
  @history Meaning.literal IpSet.Example.ops Versions.stored parse sha256 etag_of (str "t") (str "u") (str "source")
    (fst s) (snd s) c.

Lemma known_fetch c s : known s c -> known (snd (fetch_remote (server true c None) s)) c.
Proof.
  intros H. destruct (fetch_remote (server true c None) s) as [r [s' rows']] eqn:E. destruct s as [s rows].
  eapply history_fetch; [exact H|apply server_honest|exact E].
Qed.

Lemma known_first : known first [80].
Proof.
  refine (known_fetch [80] (boot (server true [80] None) ∅ None, ∅) _).
  apply history_first; [by intros row H|done].
Qed.

Lemma known_second : known second [81].
Proof. refine (known_fetch [81] first (history_publish _ _ _ _ _ _ _ _ _ [81] known_first _)). done. Qed.

Lemma known_restarted : known (restarted, snd second) [81].
Proof. exact (history_restart _ _ _ _ _ _ _ (fst second) (snd second) _ _ _ [81] known_second). Qed.

Lemma restarted_fetch : fst (fetch_remote (server true [81] None) (restarted, snd second)) = Ok tt.
Proof. reflexivity. Qed.

End StoreExample.

(** A validator that refuses rules on addresses, and a content that does not
    decode. *)
Lemma update_or_nothing_witness :
  let s := @RuleStore.new_rule_set Meaning.literal IpSet.Example.ops (str "t") [] Static in
  let s1 := RuleStore.add_update_validator (fun _ m => if contains_ip_cidr_rule m then Err [] else Ok ()) s in
  exists s2, @RuleStore.run Meaning.literal IpSet.Example.ops Versions.stored StoreExample.parse
      (RuleStore.OReload (str "source") [80]) (s1, ∅) = (Ok tt, (s2, ∅))
    /\ RuleStore.generation (RuleStore.state s2) = 1 /\ RuleStore.consistent s2.
Proof.
  intros s s1. destruct (@RuleStore.run Meaning.literal IpSet.Example.ops Versions.stored StoreExample.parse
    (RuleStore.OReload (str "source") [80]) (s1, ∅)) as [r [s2 rows]] eqn:E. exists s2.
  assert (r = Ok tt /\ rows = ∅ /\ RuleStore.generation (RuleStore.state s2) = 1) as (-> & -> & Eg)
    by exact (conj (eq_sym (f_equal fst E)) (conj (eq_sym (f_equal (fun x => snd (snd x)) E))
         (eq_sym (f_equal (fun x => RuleStore.generation (RuleStore.state (fst (snd x)))) E)))).
  split; [done|]. split; [done|].
  refine (proj1 (RuleStore.update_or_nothing StoreExample.parse (RuleStore.OReload (str "source") [80])
    s1 ∅ (Ok tt) s2 ∅ _ E)).
  eapply (RuleStore.reachable_run StoreExample.parse (RuleStore.OValidator _)); [|reflexivity].
  apply RuleStore.reachable_new.
Defined.

(** Port 80, then 81, a restart, and 304 from the server. *)
Lemma remote_rules_current_witness :
  exists s' rows', StoreExample.fetch_remote (StoreExample.server true [81] None)
      (StoreExample.restarted, snd StoreExample.second) = (Ok tt, (s', rows'))
    /\ StoreExample.decode [81] = Ok (RuleStore.rules (RuleStore.state s')).
Proof.
  pose proof StoreExample.restarted_fetch as Hr. pose proof StoreExample.known_restarted as Hk.
  destruct (StoreExample.fetch_remote _ _) as [r [s' rows']] eqn:E. cbn [fst] in Hr. subst r.
  exists s', rows'. split; [done|].
  exact (@RuleStore.remote_rules_current Meaning.literal IpSet.Example.ops Versions.stored StoreExample.parse
    StoreExample.sha256 StoreExample.etag_of _ StoreExample.etag_some (str "t") (str "u") (str "source") _ _ _ [81]
    s' rows' Hk (StoreExample.server_honest [81] None) E).
Defined.
