(* ===== verification/Router.v ===== *)
(** * The router

    The rules of [route/mod.rs] are walked once, in order: options accumulate
    in a [RouteState], a sniff or a resolution stops the walk and it resumes
    behind the rule that asked for it.  [inbound/mod.rs] runs the walk for
    the first packet of a flow. *)

From stdpp Require Import base numbers list gmap sets.
From Stdlib Require Import ZArith Lia Btauto.
From S2P Require Import Prelude Text IpText SrsWire SrsIpSet SocksAddr RouteRule RouteMatch.

Local Open Scope Z_scope.
Local Open Scope record_scope.

(** ** Options of a connection *)

Inductive InterfaceType : Type := Wifi | Cellular | Ethernet | OtherInterface.
Inductive NetworkStrategy : Type := DefaultStrategy | Fallback | Hybrid.
Inductive TlsSpoofMethod : Type :=
  WrongSequence | WrongChecksum | WrongAcknowledgment | WrongMd5 | WrongTimestamp.

(** Durations are in nanoseconds. *)
Record NetworkDialOptions : Type := mkDial {
  strategy : option NetworkStrategy;
  network_type : list InterfaceType;
  fallback_network_type : list InterfaceType;
  fallback_delay : option Z;
  udp_disable_domain_unmapping : bool;
  udp_connect : bool;
  external_connection : bool;
}.

Record ConnectionOverride : Type := mkOverride {
  address : text;
  o_port : Z;
  tls_fragment : bool;
  tls_fragment_fallback_delay : option Z;
  tls_record_fragment : bool;
  tls_spoof : text;
  tls_spoof_method : TlsSpoofMethod;
  o_network : NetworkDialOptions;
  udp_timeout : option Z;
}.

Definition dial_default : NetworkDialOptions := mkDial None [] [] None false false false.
Definition override_default : ConnectionOverride :=
  mkOverride [] 0 false None false [] WrongSequence dial_default None.

Module Override.

Definition apply (o : ConnectionOverride) (destination : SocksAddr) : SocksAddr :=
  let host := if decide (address o = []) then Socks.host destination else address o in
  let port := if decide (o_port o = 0) then Socks.port destination else o_port o in
  Socks.new host port.

Definition nonzero (d : option Z) : bool := match d with Some d => bool_decide (d <> 0) | None => false end.

Definition update (o next : ConnectionOverride) : ConnectionOverride :=
  let n := o_network o in
  let nn := o_network next in
  mkOverride
    (if decide (address next = []) then address o else address next)
    (if decide (o_port next = 0) then o_port o else o_port next)
    (tls_fragment next || tls_fragment o)
    (if tls_fragment next then tls_fragment_fallback_delay next else tls_fragment_fallback_delay o)
    (tls_record_fragment next || tls_record_fragment o)
    (if decide (tls_spoof next = []) then tls_spoof o else tls_spoof next)
    (if decide (tls_spoof next = []) then tls_spoof_method o else tls_spoof_method next)
    (mkDial
       (match strategy nn with Some s => Some s | None => strategy n end)
       (match network_type nn with [] => network_type n | l => l end)
       (match fallback_network_type nn with [] => fallback_network_type n | l => l end)
       (if nonzero (fallback_delay nn) then fallback_delay nn else fallback_delay n)
       (udp_disable_domain_unmapping nn || udp_disable_domain_unmapping n)
       (udp_connect nn || udp_connect n)
       (external_connection n))
    (if nonzero (udp_timeout next) then udp_timeout next else udp_timeout o).

(** Two overrides one after the other are their combination. *)
Lemma apply_update o next d : apply (update o next) d = apply next (apply o d).
Proof.
  unfold apply, update. cbn [address o_port]. rewrite Socks.port_new.
  set (p := if decide (o_port o = 0) then Socks.port d else o_port o).
  assert ((if decide ((if decide (o_port next = 0) then o_port o else o_port next) = 0) then Socks.port d
           else if decide (o_port next = 0) then o_port o else o_port next)
          = if decide (o_port next = 0) then p else o_port next) as ->.
  { unfold p. repeat case_decide; done. }
  destruct (decide (address next = [])) as [E|E].
  - by rewrite Socks.new_host_new.
  - by rewrite decide_False.
Qed.

Lemma apply_default_port d : Socks.port (apply override_default d) = Socks.port d.
Proof. unfold apply. cbn. apply Socks.port_new. Qed.

End Override.

(** ** Actions *)

Inductive StreamSniffer : Type := STls | SHttp | SDns | SSsh | SRdp | SBitTorrent.
Inductive PacketSniffer : Type := PQuic | PDns | PStun | PBitTorrent | PUtp | PDtls | PNtp.

Record SniffOptions : Type := {
  names : list text;
  stream_sniffers : list StreamSniffer;
  packet_sniffers : list PacketSniffer;
  sniff_timeout : Z;
}.

Inductive DomainStrategy : Type := AsIs | PreferIpv4 | PreferIpv6 | Ipv4Only | Ipv6Only.

Record ResolveOptions `{!IpNetOps} : Type := {
  server : text;
  resolve_timeout : option Z;
  resolve_strategy : DomainStrategy;
  disable_cache : bool;
  disable_optimistic_cache : bool;
  rewrite_ttl : option Z;
  client_subnet : option IpNet;
}.

(** The options of a direct dialer, which routing only carries. *)
Class DialerOptions := AbstractDialerOptions : Type.

Inductive Action `{!IpNetOps} `{!DialerOptions} : Type :=
| Route (outbound : text) (options : ConnectionOverride)
| RouteOptions (options : ConnectionOverride)
| Direct
| DirectOptions (options : AbstractDialerOptions) (outbound : text)
| Bypass (outbound : text) (options : ConnectionOverride)
| Reject (method : text) (no_drop : bool)
| HijackDns
| Sniff (options : SniffOptions)
| Resolve (options : ResolveOptions).

(** ** Repeated rejections *)

Module Flood.
Section flood.
Context {NX : IpNetOps} {DX : DialerOptions}.

Definition DROP : text := [100; 114; 111; 112].
Definition DEFAULT : text := [100; 101; 102; 97; 117; 108; 116].

Definition WINDOW : Z := 30 * 1000000000.

(** The loop that removes the old timestamps at the front. *)
Fixpoint expire (now : Z) (recent : list Z) : list Z :=
  match recent with
  | t :: recent' => if decide (now - t > WINDOW) then expire now recent' else recent
  | [] => []
  end.

Definition is_drop (now : Z) (recent : list Z) (action : Action) : bool * list Z :=
  match action with
  | Reject method no_drop =>
      if decide (method = DROP) then (true, recent)
      else if (no_drop : bool) || bool_decide (method <> [] /\ method <> DEFAULT) then (false, recent)
      else
        let recent := expire now recent ++ [now] in
        (bool_decide (50 < length recent)%nat, recent)
  | _ => (false, recent)
  end.
End flood.
End Flood.

(** ** The environment of the router

    The parts of the program that routing asks: the endpoints and bridges
    that prefer some destinations, the reverse mapping of the DNS client, the
    neighbours, and the owners of local connections. *)

Record Dialer : Type := {
  preferred_domain : text -> bool;
  preferred_address : IpAddr -> bool;
}.

Record Outbounds : Type := {
  lookup_reverse_mapping : IpAddr -> option text;
  endpoint_order : list text;
  endpoint_entries : gmap text Dialer;
  bridges : list (text * (IpAddr -> bool));
}.

Record Neighbors : Type := {
  lookup_mac : IpAddr -> option (list Z);
  lookup_hostname : IpAddr -> option text;
}.

Record ProcessInfo : Type := {
  process_name : text;
  process_path : text;
  package_name : text;
  process_user : text;
  process_user_id : option Z;
}.

Record ProcessLookup : Type := { process : option ProcessInfo; lookup_status : text }.

Record Environment : Type := {
  clash_mode : option text;
  preferred_outbounds : option Outbounds;
  neighbor_resolver : option Neighbors;
  process_resolver : option (Network -> SocketAddr -> option SocketAddr -> ProcessLookup);
}.

Module Runtime.

Definition is_bridge (o : Outbounds) (tag : text) : bool := existsb (fun b => bool_decide (b.1 = tag)) (bridges o).

(** The preferred tags: those that are neither endpoints nor bridges stay,
    the others are found again. *)
Definition prefer (o : Outbounds) (pre_match : bool) (tags : list text) (domain : option text)
    (addresses : list IpAddr) : list text :=
  let tags := filter (fun tag => tag ∉ endpoint_order o /\ is_bridge o tag = false) tags in
  let tags := foldl (fun tags tag =>
    if decide (tag ∈ tags) then tags
    else match endpoint_entries o !! tag with
         | None => tags
         | Some dialer =>
             if match domain with Some d => preferred_domain dialer d | None => false end
                || existsb (preferred_address dialer) addresses
             then tags ++ [tag] else tags
         end) tags (endpoint_order o) in
  if pre_match then
    foldl (fun tags '(tag, prefers) =>
      if decide (tag ∈ tags) then tags
      else if existsb prefers addresses then tags ++ [tag] else tags) tags (bridges o)
  else tags.

Definition addresses_of (m : Metadata) : list IpAddr :=
  match destination_ip m with
  | Some a => if decide (a ∈ md_destination_addresses m) then md_destination_addresses m
              else md_destination_addresses m ++ [a]
  | None => md_destination_addresses m
  end.

Definition populate_preferred_by (o : Outbounds) (m : Metadata) (pre_match : bool) : Metadata :=
  m <| md_preferred_by := prefer o pre_match (md_preferred_by m) (domain m) (addresses_of m) |>.

Definition refresh_preferred_by (e : Environment) (m : Metadata) (pre_match : bool) : Metadata :=
  match preferred_outbounds e with
  | Some o => populate_preferred_by o m pre_match
  | None => m
  end.

Definition set_ip_version (m : Metadata) : Metadata :=
  match destination_ip m with
  | Some a => m <| md_ip_version := Some (if is_ipv4 a then 4 else 6) |>
  | None => m
  end.

Definition set_clash_mode_of (e : Environment) (m : Metadata) : Metadata :=
  match clash_mode e with
  | Some mode => m <| md_clash_mode := mode |>
  | None => m
  end.

Definition set_reverse_domain (o : Outbounds) (m : Metadata) : Metadata :=
  if decide (md_domain m = [] /\ md_fake_ip m = false) then
    match destination_ip m ≫= lookup_reverse_mapping o with
    | Some d => m <| md_domain := d |>
    | None => m
    end
  else m.

Definition set_neighbor (e : Environment) (m : Metadata) : Metadata :=
  match neighbor_resolver e, source_ip m with
  | Some r, Some a =>
      let m := match md_source_mac_address m, lookup_mac r a with
               | [], Some mac => m <| md_source_mac_address := Hardware.format_hardware_address mac |>
               | _, _ => m
               end in
      match md_source_hostname m, lookup_hostname r a with
      | [], Some hostname => m <| md_source_hostname := hostname |>
      | _, _ => m
      end
  | _, _ => m
  end.

Definition socket_of (a : option SocksAddr) : option SocketAddr :=
  match a with Some (Ip s) => Some s | _ => None end.

Definition or_else {A} (a b : option A) : option A := match a with Some _ => a | None => b end.

Definition set_process (e : Environment) (m : Metadata) : Metadata :=
  match process_resolver e, md_network m, socket_of (md_source m) with
  | Some lookup, Some network, Some source =>
      if decide (md_process_lookup m = [] /\ md_process_name m = [] /\ md_process_path m = []
                 /\ md_package_name m = [] /\ md_user_id m = None) then
        let destination := or_else (socket_of (md_process_origin_destination m))
          (or_else (socket_of (md_origin_destination m)) (socket_of (md_destination m))) in
        let found := lookup network source destination in
        let m := m <| md_process_lookup := lookup_status found |> in
        match process found with
        | Some p =>
            m <| md_process_name := process_name p |> <| md_process_path := process_path p |>
              <| md_package_name := package_name p |>
              <| md_user := match md_user m with [] => process_user p | u => u end |>
              <| md_user_id := process_user_id p |>
        | None => m
        end
      else m
  | _, _, _ => m
  end.

Definition apply_runtime_metadata (e : Environment) (m : Metadata) (pre_match : bool) : Metadata :=
  let m := set_clash_mode_of e (set_ip_version m) in
  let m := match preferred_outbounds e with
           | Some o => populate_preferred_by o (set_reverse_domain o m) pre_match
           | None => m
           end in
  set_process e (set_neighbor e m).

End Runtime.

(** ** The walk *)

Record RouteState : Type := mkState { next_rule : nat; options : ConnectionOverride }.

Definition state_default : RouteState := mkState 0 override_default.

Module Walk.
Import Rules Runtime.

Section walk.
Context {RX : RegexOps} {NX : IpNetOps} {DX : DialerOptions}.

Notation Rule := (Rule (Action := Action)).

Record Router : Type := mkRouter { rules : list Rule; final_outbound : text }.

Record RouteDecision : Type := mkDecision {
  d_action : option Action;
  d_options : ConnectionOverride;
  d_final_outbound : text;
  d_reject_drop : bool;
}.

Section env.
Context (sets : store) (e : Environment).

Definition override_destination (pre_match : bool) (current : Metadata) (next : ConnectionOverride) : Metadata :=
  let current := match md_destination current with
                 | Some d => current <| md_destination := Some (Override.apply next d) |>
                 | None => current
                 end in
  if decide (pre_match = false /\ address next <> []) then current <| md_destination_addresses := [] |> else current.

(** The rules from [index] on: the first action that stops the walk, with
    the index of its rule, and the state behind it. *)
Fixpoint walk (pre_match : bool) (protocol : text) (index : nat) (l : list Rule) (current : Metadata)
    (st : RouteState) : option (nat * Action) * RouteState :=
  match l with
  | [] => (None, st)
  | rule :: l =>
      if rule_matches sets rule current then
        let st := mkState (S index) (options st) in
        match rule_action rule with
        | RouteOptions next =>
            let current := override_destination pre_match current next in
            let st := mkState (next_rule st) (Override.update (options st) next) in
            walk pre_match protocol (S index) l (refresh_preferred_by e current pre_match) st
        | action =>
            if match action with
               | Bypass [] _ => negb pre_match
               | Sniff _ => bool_decide (protocol <> [])
               | _ => false
               end
            then walk pre_match protocol (S index) l current st
            else (Some (index, action), st)
        end
      else walk pre_match protocol (S index) l current st
  end.

(** The metadata a walk starts from: the options so far applied. *)
Definition start (pre_match : bool) (m : Metadata) (st : RouteState) : Metadata :=
  let current :=
    match md_destination m with
    | Some d =>
        let current := m <| md_destination := Some (Override.apply (options st) d) |> in
        if decide (pre_match = false /\ address (options st) <> [])
        then current <| md_destination_addresses := [] |> else current
    | None => m
    end in
  apply_runtime_metadata e current pre_match.

Definition route_step (r : Router) (m : Metadata) (st : RouteState) (pre_match : bool)
    : option (nat * Action) * RouteState :=
  walk pre_match (md_protocol m) (next_rule st) (drop (next_rule st) (rules r)) (start pre_match m st) st.

(** The decision at the time [now]; [floods] are the timestamps of every rule. *)
Definition decide_action (r : Router) (now : Z) (floods : list (list Z)) (action : option (nat * Action))
    (o : ConnectionOverride) : RouteDecision * list (list Z) :=
  match action with
  | Some (index, action) =>
      let '(drop, recent) := Flood.is_drop now (default [] (floods !! index)) action in
      (mkDecision (Some action) o (final_outbound r) drop, <[index := recent]> floods)
  | None => (mkDecision None o (final_outbound r) false, floods)
  end.

Definition route_next_internal (r : Router) (now : Z) (floods : list (list Z)) (m : Metadata) (st : RouteState)
    (pre_match : bool) : RouteDecision * RouteState * list (list Z) :=
  let '(action, st) := route_step r m st pre_match in
  let '(decision, floods) := decide_action r now floods action (options st) in
  (decision, st, floods).

(** [route_internal]: one walk over all the rules that passes over sniffs and
    resolutions when asked to. *)
Fixpoint walk_all (skip_sniff skip_resolve : bool) (protocol : text) (index : nat) (l : list Rule)
    (current : Metadata) (o : ConnectionOverride) : option (nat * Action) * ConnectionOverride :=
  match l with
  | [] => (None, o)
  | rule :: l =>
      if rule_matches sets rule current then
        match rule_action rule with
        | RouteOptions next =>
            walk_all skip_sniff skip_resolve protocol (S index) l
              (refresh_preferred_by e (override_destination false current next) false) (Override.update o next)
        | action =>
            if match action with
               | Bypass [] _ => true
               | Sniff _ => skip_sniff || bool_decide (protocol <> [])
               | Resolve _ => skip_resolve
               | _ => false
               end
            then walk_all skip_sniff skip_resolve protocol (S index) l current o
            else (Some (index, action), o)
        end
      else walk_all skip_sniff skip_resolve protocol (S index) l current o
  end.

Definition route_all (r : Router) (m : Metadata) (skip_sniff skip_resolve : bool)
    : option (nat * Action) * ConnectionOverride :=
  walk_all skip_sniff skip_resolve (md_protocol m) 0 (rules r) (apply_runtime_metadata e m false) override_default.

Definition route_internal (r : Router) (now : Z) (floods : list (list Z)) (m : Metadata) (skip_sniff skip_resolve : bool)
    : RouteDecision * list (list Z) :=
  let '(action, o) := route_all r m skip_sniff skip_resolve in decide_action r now floods action o.

Definition match_rule (r : Router) (m : Metadata) : option Rule :=
  let m := apply_runtime_metadata e m false in
  snd <$> list_find (fun rule => rule_matches sets rule m = true) (rules r).
End env.

(** ** Decisions *)

Definition outbound (d : RouteDecision) : option text :=
  let final := match d_final_outbound d with [] => None | f => Some f end in
  match d_action d with
  | Some (Route (b :: o) _) | Some (Bypass (b :: o) _) => Some (b :: o)
  | Some Direct => None
  | Some (DirectOptions _ (b :: o)) => Some (b :: o)
  | Some (DirectOptions _ []) => None
  | Some (Reject _ _) | Some HijackDns => None
  | _ => final
  end.

Definition destination (d : RouteDecision) (original : SocksAddr) : SocksAddr :=
  let dest := Override.apply (d_options d) original in
  match d_action d with
  | Some (Route _ o) | Some (Bypass _ o) => Override.apply o dest
  | _ => dest
  end.

Definition connection_options (d : RouteDecision) : ConnectionOverride :=
  let o := match d_action d with
           | Some (Route _ terminal) | Some (Bypass _ terminal) => Override.update (d_options d) terminal
           | _ => d_options d
           end in
  mkOverride (address o) (o_port o) (tls_fragment o) (tls_fragment_fallback_delay o) (tls_record_fragment o)
    (tls_spoof o) (tls_spoof_method o)
    (mkDial (strategy (o_network o)) (network_type (o_network o)) (fallback_network_type (o_network o))
       (fallback_delay (o_network o)) (udp_disable_domain_unmapping (o_network o)) (udp_connect (o_network o)) true)
    (udp_timeout o).

End walk.
End Walk.
