(* ===== verification/RouteWalk.v ===== *)
(** * Routing a flow

    The loop of [inbound/mod.rs] that routes the first packet of a flow, and
    what the walk over the rules guarantees: it ends, no rule acts twice, a
    walk that is resumed decides like one that is not interrupted, the
    destination of a decision is the one of its options, and a rule that
    rejects too often starts to drop. *)

From stdpp Require Import base numbers list gmap sets sorting.
From Stdlib Require Import ZArith Lia.
From S2P Require Import Prelude Text IpText SrsWire SrsIpSet SocksAddr RouteRule RouteMatch RouteMeaning Router.

Local Open Scope Z_scope.
Local Open Scope record_scope.

Module Flow.
Import Rules Runtime Walk.

Section flow.
Context {RX : RegexOps} {NX : IpNetOps} {DX : DialerOptions}.
Context (sets : store) (e : Environment) (rt : Router).

(** The sniffers of a packet with the state they keep, and the lookup of a
    domain by the DNS client. *)
Context {SniffState IoError : Type}
  (sniff : SniffState -> list PacketSniffer -> option (text * text * text) * SniffState)
  (lookup : text -> ResolveOptions -> Metadata -> result IoError (list IpAddr)).

Definition should_skip_sniff (m : Metadata) : bool :=
  match md_destination m with
  | Some d => bool_decide (Socks.port d ∈ [25; 110; 143; 465; 587; 993; 995])
  | None => false
  end.

Definition resolve_metadata (m : Metadata) (dest : option SocksAddr) (o : ResolveOptions) : result IoError Metadata :=
  match dest with
  | Some (SocksAddr.Domain host _) =>
      addresses ← lookup host o m; Ok (m <| md_destination_addresses := addresses |>)
  | _ => Ok m
  end.

Definition sniff_metadata (m : Metadata) (o : SniffOptions) (ss : SniffState) : Metadata * SniffState :=
  if negb (should_skip_sniff m) && bool_decide (md_protocol m = []) && negb (bool_decide (packet_sniffers o = [])) then
    match sniff ss (packet_sniffers o) with
    | (Some (protocol, domain, client), ss) =>
        (m <| md_protocol := protocol |> <| md_domain := domain |> <| md_client := client |>, ss)
    | (None, ss) => (m, ss)
    end
  else (m, ss).

(** The loop of [sniff_and_route_packet_with_state]: [fuel] rounds at most,
    and the rules that acted on the way. *)
Fixpoint route_packet (fuel : nat) (m : Metadata) (st : RouteState) (ss : SniffState) (trace : list nat)
    : option (result IoError (option (nat * Action) * RouteState * Metadata) * list nat) :=
  match fuel with
  | O => None
  | S fuel =>
      let '(action, st) := route_step sets e rt m st false in
      match action with
      | Some (i, Sniff o) =>
          let '(m, ss) := sniff_metadata m o ss in route_packet fuel m st ss (trace ++ [i])
      | Some (i, Resolve o) =>
          match resolve_metadata m (Override.apply (options st) <$> md_destination m) o with
          | Ok m => route_packet fuel m st ss (trace ++ [i])
          | Err err => Some (Err err, trace ++ [i])
          end
      | _ => Some (Ok (action, st, m), trace ++ match action with Some (i, _) => [i] | None => [] end)
      end
  end.

(** ** The walk advances *)

Definition stops (a : Action) : Prop := match a with RouteOptions _ => False | _ => True end.

Lemma walk_spec pre protocol index l current st :
  let '(action, st') := walk sets e pre protocol index l current st in
  match action with
  | Some (i, a) => (index <= i < index + length l)%nat /\ next_rule st' = S i
                   /\ exists rule, l !! (i - index)%nat = Some rule /\ rule_action rule = a /\ stops a
  | None => next_rule st' = next_rule st \/ (next_rule st' <= index + length l)%nat
  end.
Proof.
  revert index current st. induction l as [|rule l IH]; intros index current st; cbn [walk]; [by left|].
  assert (forall c s, let '(action, st') := walk sets e pre protocol (S index) l c s in
    match action with
    | Some (i, a) => (index <= i < index + length (rule :: l))%nat /\ next_rule st' = S i
        /\ exists rule', (rule :: l) !! (i - index)%nat = Some rule' /\ rule_action rule' = a /\ stops a
    | None => next_rule st' = next_rule s \/ (next_rule st' <= index + length (rule :: l))%nat
    end) as Hnext.
  { intros c s. specialize (IH (S index) c s). destruct (walk sets e pre protocol (S index) l c s) as [[[i a]|] st'].
    - destruct IH as (Hi & Hn & rule' & Hl & Ha). split; [cbn; lia|]. split; [done|]. exists rule'.
      replace (i - index)%nat with (S (i - S index)) by lia. done.
    - cbn. destruct IH; [by left|right; lia]. }
  destruct (rule_matches sets rule current); [|apply Hnext].
  assert (forall c o, let '(action, st') := walk sets e pre protocol (S index) l c (mkState (S index) o) in
    match action with
    | Some (i, a) => (index <= i < index + length (rule :: l))%nat /\ next_rule st' = S i
        /\ exists rule', (rule :: l) !! (i - index)%nat = Some rule' /\ rule_action rule' = a /\ stops a
    | None => next_rule st' = next_rule st \/ (next_rule st' <= index + length (rule :: l))%nat
    end) as Hnext'.
  { intros c o. specialize (Hnext c (mkState (S index) o)).
    destruct (walk sets e pre protocol (S index) l c (mkState (S index) o)) as [[[i a]|] st']; [done|].
    right. cbn in *. lia. }
  assert (forall a, rule_action rule = a -> stops a ->
    (index <= index < index + length (rule :: l))%nat /\ S index = S index
    /\ exists rule', (rule :: l) !! (index - index)%nat = Some rule' /\ rule_action rule' = a /\ stops a) as Hstop.
  { intros a Ha Hs. split; [cbn; lia|]. split; [done|]. exists rule. by rewrite Nat.sub_diag. }
  destruct (rule_action rule) as [ob o|o| |o ob|ob o|mt nd| |o|o] eqn:Ea; cbn [next_rule options];
    try (by apply Hstop); try apply Hnext'.
  - destruct ob; [destruct pre|]; cbn [negb]; try (by apply Hstop). apply Hnext'.
  - case_bool_decide; [apply Hnext'|by apply Hstop].
Qed.

Lemma route_step_spec m st pre :
  let '(action, st') := route_step sets e rt m st pre in
  match action with
  | Some (i, a) => (next_rule st <= i < length (rules rt))%nat /\ next_rule st' = S i
                   /\ exists rule, rules rt !! i = Some rule /\ rule_action rule = a
  | None => True
  end.
Proof.
  unfold route_step. pose proof (walk_spec pre (md_protocol m) (next_rule st) (drop (next_rule st) (rules rt))
    (start e pre m st) st) as H.
  destruct (walk _ _ _ _ _ _ _ _) as [[[i a]|] st']; [|done]. destruct H as (Hi & Hn & rule & Hl & Ha & _).
  rewrite length_drop in Hi. split; [lia|]. split; [done|]. exists rule. split; [|done].
  rewrite lookup_drop in Hl. by replace (next_rule st + (i - next_rule st))%nat with i in Hl by lia.
Qed.

(** A trace of rules in increasing order, all before [bound]. *)
Definition increasing (trace : list nat) (bound : nat) : Prop :=
  StronglySorted lt trace /\ Forall (fun i => i < bound)%nat trace.

Lemma increasing_snoc trace bound i :
  increasing trace bound -> (bound <= i)%nat -> increasing (trace ++ [i]) (S i).
Proof.
  intros [Hs Hb] Hi. split.
  - apply StronglySorted_app_2; [|done|by repeat constructor].
    intros x y Hx ->%list_elem_of_singleton. rewrite Forall_forall in Hb. specialize (Hb x Hx). cbn in Hb. lia.
  - rewrite Forall_app, Forall_singleton. split; [|lia]. eapply Forall_impl; [done|]. cbn. lia.
Qed.

Definition terminal (a : Action) : Prop :=
  match a with Sniff _ | Resolve _ => False | _ => True end.

Lemma route_packet_spec fuel m st ss trace :
  (length (rules rt) - next_rule st < fuel)%nat -> increasing trace (next_rule st) ->
  exists res trace', route_packet fuel m st ss trace = Some (res, trace') /\ StronglySorted lt trace'
    /\ Forall (fun i => i < length (rules rt) \/ i < next_rule st)%nat trace'
    /\ match res with
       | Ok (Some (i, a), _, _) => terminal a /\ last trace' = Some i
                                   /\ exists rule, rules rt !! i = Some rule /\ rule_action rule = a
       | _ => True
       end.
Proof.
  revert m st ss trace. induction fuel as [|fuel IH]; intros m st ss trace Hf Hi; [lia|].
  cbn [route_packet]. pose proof (route_step_spec m st false) as Hs.
  destruct (route_step sets e rt m st false) as [[[i a]|] st'].
  2:{ eexists _, _. split; [done|]. rewrite app_nil_r. destruct Hi as [Hs1 Hs2].
      split; [done|]. split; [|done]. eapply Forall_impl; [done|]. cbn. lia. }
  destruct Hs as (Hb & Hn & rule & Hl & Ha).
  pose proof (increasing_snoc trace (next_rule st) i Hi ltac:(lia)) as Hi'. rewrite <-Hn in Hi'.
  assert (Forall (fun j => j < length (rules rt) \/ j < next_rule st)%nat (trace ++ [i])) as Hall.
  { eapply Forall_impl; [apply Hi'|]. cbn. lia. }
  assert (forall m' ss', exists res trace', route_packet fuel m' st' ss' (trace ++ [i]) = Some (res, trace')
    /\ StronglySorted lt trace' /\ Forall (fun j => j < length (rules rt) \/ j < next_rule st)%nat trace'
    /\ match res with
       | Ok (Some (j, b), _, _) => terminal b /\ last trace' = Some j
                                   /\ exists rule', rules rt !! j = Some rule' /\ rule_action rule' = b
       | _ => True
       end) as Hrec.
  { intros m' ss'. destruct (IH m' st' ss' (trace ++ [i]) ltac:(lia) Hi') as (res & trace' & E & Hs' & Ha' & Hr).
    exists res, trace'. split; [done|]. split; [done|]. split; [|done]. eapply Forall_impl; [done|]. cbn. lia. }
  assert (terminal a -> exists res trace',
    Some (Ok (Some (i, a), st', m), trace ++ [i]) = Some (res, trace') /\ StronglySorted lt trace'
    /\ Forall (fun j => j < length (rules rt) \/ j < next_rule st)%nat trace'
    /\ match res : result IoError _ with
       | Ok (Some (j, b), _, _) => terminal b /\ last trace' = Some j
                                   /\ exists rule', rules rt !! j = Some rule' /\ rule_action rule' = b
       | _ => True
       end) as Hterm.
  { intros Ht. eexists _, _. split; [done|]. split; [apply Hi'|]. split; [done|]. cbn. split; [done|].
    split; [by rewrite last_snoc|]. eauto. }
  destruct a as [ob o|o| |o ob|ob o|mt nd| |o|o]; try by apply Hterm.
  - destruct (sniff_metadata m o ss) as [m' ss']. apply Hrec.
  - destruct (resolve_metadata m _ o) as [m'|err]; [apply Hrec|].
    eexists _, _. split; [done|]. split; [apply Hi'|]. split; [done|]. done.
Qed.

(** C32: Routing a packet ends.  Whatever the sniffers find and the DNS client
    answers, the loop decides within one round more than there are rules; the
    rules that act do so once each and in order, and the action that is
    returned is neither a sniff nor a resolution. *)
Theorem packet_routing_terminates (m : Metadata) (ss : SniffState) :
  exists res trace, route_packet (S (length (rules rt))) m state_default ss [] = Some (res, trace)
    /\ StronglySorted lt trace /\ Forall (fun i => i < length (rules rt))%nat trace
    /\ match res with
       | Ok (Some (i, a), _, _) => terminal a /\ last trace = Some i
                                   /\ exists rule, rules rt !! i = Some rule /\ rule_action rule = a
       | _ => True
       end.
Proof.
  destruct (route_packet_spec (S (length (rules rt))) m state_default ss []) as (res & trace & E & Hs & Hf & Hr).
  - cbn. lia.
  - split; constructor.
  - exists res, trace. split; [done|]. split; [done|]. split; [|done].
    eapply Forall_impl; [done|]. cbn. lia.
Qed.

End flow.

(** ** Decisions *)

(** The destination of a decision is the one of the options it dials
    with: applying the accumulated options and then those of the rule is
    applying their combination, for addresses and domains, with the port and
    the host each taken from the last option that names one. *)
Theorem decision_destination {RX : RegexOps} {NX : IpNetOps} {DX : DialerOptions} (d : RouteDecision) (original : SocksAddr) :
  Override.apply (connection_options d) original = destination d original.
Proof.
  unfold connection_options, destination.
  assert (forall o, Override.apply (mkOverride (address o) (o_port o) (tls_fragment o)
    (tls_fragment_fallback_delay o) (tls_record_fragment o) (tls_spoof o) (tls_spoof_method o)
    (mkDial (strategy (o_network o)) (network_type (o_network o)) (fallback_network_type (o_network o))
       (fallback_delay (o_network o)) (udp_disable_domain_unmapping (o_network o)) (udp_connect (o_network o)) true)
    (udp_timeout o)) original = Override.apply o original) as E by done.
  rewrite E. destruct (d_action d) as [[]|]; try done; apply Override.apply_update.
Qed.

(** ** Repeated rejections *)

Section flood.
Context {NX : IpNetOps} {DX : DialerOptions}.
Import Flood.

(** The timestamps of a rule after rejections at the times [ts]. *)
Definition after (action : Action) (ts : list Z) : list Z := foldl (fun recent t => (is_drop t recent action).2) [] ts.

Definition fresh (now t : Z) : Prop := now - t <= WINDOW.
Global Instance fresh_dec now t : Decision (fresh now t).
Proof. unfold fresh. apply _. Defined.

Lemma expire_filter now l : StronglySorted Z.le l -> expire now l = filter (fresh now) l.
Proof.
  induction 1 as [|t l Hl IH Ht]; [done|]. cbn [expire]. unfold fresh. rewrite filter_cons. case_decide as E.
  - rewrite decide_False by lia. apply IH.
  - rewrite decide_True by lia. f_equal. symmetry. clear IH Hl. induction Ht as [|x l Hx _ IH]; [done|].
    rewrite filter_cons, decide_True by lia. by rewrite IH.
Qed.

Lemma filter_fresh now now' (l : list Z) : now <= now' -> filter (fresh now') (filter (fresh now) l) = filter (fresh now') l.
Proof.
  intros Hn. rewrite list_filter_filter. apply list_filter_iff. intros x. unfold fresh. lia.
Qed.

Lemma filter_sorted (P : Z -> Prop) `{forall x, Decision (P x)} (l : list Z) :
  StronglySorted Z.le l -> StronglySorted Z.le (filter P l).
Proof.
  induction 1 as [|t l Hl IH Ht]; [constructor|]. rewrite filter_cons. case_decide; [|done].
  constructor; [done|]. rewrite Forall_forall in Ht |- *. intros x [_ Hx]%list_elem_of_filter. auto.
Qed.

(** An action whose rejections are counted. *)
Definition counted (action : Action) : Prop :=
  exists method, action = Reject method false /\ (method = [] \/ method = DEFAULT).

Lemma is_drop_counted action now recent :
  counted action ->
  is_drop now recent action
  = (bool_decide (50 < length (expire now recent ++ [now]))%nat, expire now recent ++ [now]).
Proof. by intros (method & -> & [->| ->]). Qed.

Lemma after_spec action ts now :
  counted action -> StronglySorted Z.le (ts ++ [now]) -> after action (ts ++ [now]) = filter (fresh now) (ts ++ [now]).
Proof.
  intros Ha. revert now. induction ts as [|t ts IH] using rev_ind; intros now Hs.
  - unfold after. cbn [app foldl]. rewrite is_drop_counted by done. cbn. unfold fresh, WINDOW.
    rewrite decide_True by lia. done.
  - unfold after in *. rewrite foldl_app. cbn [foldl]. rewrite is_drop_counted by done. cbn [snd].
    pose proof Hs as [Hlast [Hts Hn]]%StronglySorted_app. specialize (IH t Hts). rewrite IH.
    assert (t <= now) as Htn by (apply Hlast; [apply elem_of_app; right; left|left]).
    rewrite expire_filter by by apply filter_sorted. rewrite filter_fresh by done.
    rewrite (filter_app _ (ts ++ [t]) [now]). f_equal. rewrite filter_cons, decide_True; [done|].
    unfold fresh, WINDOW. lia.
Qed.

(** C38: A rule that rejects by default starts to drop silently when it has
    rejected more than fifty connections within thirty seconds, the present
    one included, and answers again as soon as it has not. *)
Theorem reject_flood_window (action : Action) (ts : list Z) (now : Z) :
  counted action -> StronglySorted Z.le (ts ++ [now]) ->
  (is_drop now (after action ts) action).1 = true
  <-> (50 < length (filter (fun t : Z => now - t <= WINDOW)%Z (ts ++ [now])))%nat.
Proof.
  intros Ha Hs. pose proof (after_spec action ts now Ha Hs) as E.
  unfold after in E. rewrite foldl_app in E. cbn [foldl] in E. fold (after action ts) in E.
  rewrite is_drop_counted in E |- * by done. cbn [fst snd] in *. rewrite bool_decide_eq_true, E.
  done.
Qed.
End flood.

(** ** Resuming a walk *)

Section resume.
Context {RX : RegexOps} {NX : IpNetOps} {DX : DialerOptions}.
Context (sets : store) (e : Environment) (rt : Router).

(** The walk continued behind every sniff and resolution, with the metadata
    as they are. *)
Fixpoint resume (fuel : nat) (m : Metadata) (st : RouteState) : option (option (nat * Action) * ConnectionOverride) :=
  match fuel with
  | O => None
  | S fuel =>
      let '(action, st) := route_step sets e rt m st false in
      match action with
      | Some (_, Sniff _) | Some (_, Resolve _) => resume fuel m st
      | _ => Some (action, options st)
      end
  end.

Definition with_port (p : Z) (d : SocksAddr) : SocksAddr :=
  match d with
  | Ip sa => Ip {| ip := ip sa; sa_port := p; scope_id := scope_id sa |}
  | SocksAddr.Domain h _ => SocksAddr.Domain h p
  end.

Definition set_port (p : Z) (m : Metadata) : Metadata :=
  match md_destination m with
  | Some d => m <| md_destination := Some (with_port p d) |>
  | None => m
  end.

(** A destination as [SocksAddr::new] builds it. *)
Definition normal (d : SocksAddr) : Prop := Socks.new (Socks.host d) (Socks.port d) = d.

Lemma apply_port o d : normal d -> address o = [] ->
  Override.apply o d = with_port (if decide (o_port o = 0) then Socks.port d else o_port o) d.
Proof.
  intros Hd Ho. unfold Override.apply. rewrite decide_True by done. unfold normal, Socks.new in *.
  destruct d as [[a p sc]|h p]; cbn in *.
  - destruct (IpText.parse_ip _); by simplify_eq.
  - by destruct (IpText.parse_ip h).
Qed.

Lemma with_port_with_port p q d : with_port p (with_port q d) = with_port p d.
Proof. by destruct d. Qed.

Lemma with_port_normal p d : normal d -> normal (with_port p d).
Proof.
  unfold normal, Socks.new. destruct d as [[a q sc]|h q]; cbn.
  - destruct (IpText.parse_ip _); by intros; simplify_eq.
  - by destruct (IpText.parse_ip h).
Qed.

Lemma set_port_set_port p q m : set_port p (set_port q m) = set_port p m.
Proof.
  unfold set_port. destruct (md_destination m) as [d|] eqn:E; [|by rewrite E]. cbn. by rewrite with_port_with_port.
Qed.

(** ** What the environment adds does not depend on the port *)

Lemma set_port_cases p m : destination_ip (set_port p m) = destination_ip m /\ domain (set_port p m) = domain m.
Proof.
  unfold set_port, destination_ip, domain. destruct (md_destination m) as [[sa|h q]|] eqn:E; cbn; rewrite ?E; done.
Qed.

Ltac by_port m := unfold set_port; destruct m as [? ? ? ? ? ? dst]; cbn; destruct dst; reflexivity.

Lemma set_ip_version_port p m : set_ip_version (set_port p m) = set_port p (set_ip_version m).
Proof.
  unfold set_ip_version. destruct (set_port_cases p m) as [-> _]. destruct (destination_ip m); [|done].
  by_port m.
Qed.

Lemma set_clash_mode_port p m : set_clash_mode_of e (set_port p m) = set_port p (set_clash_mode_of e m).
Proof.
  unfold set_clash_mode_of. destruct (clash_mode e); [|done]. by_port m.
Qed.

Lemma set_reverse_domain_port o p m : set_reverse_domain o (set_port p m) = set_port p (set_reverse_domain o m).
Proof.
  unfold set_reverse_domain. destruct (set_port_cases p m) as [-> _].
  assert (md_domain (set_port p m) = md_domain m /\ md_fake_ip (set_port p m) = md_fake_ip m) as [-> ->]
    by (split; by_port m).
  case_decide; [|done]. destruct (destination_ip m ≫= _); [|done]. by_port m.
Qed.

Lemma populate_port o pre p m : populate_preferred_by o (set_port p m) pre = set_port p (populate_preferred_by o m pre).
Proof.
  unfold populate_preferred_by, addresses_of. destruct (set_port_cases p m) as [-> ->].
  assert (md_preferred_by (set_port p m) = md_preferred_by m
    /\ md_destination_addresses (set_port p m) = md_destination_addresses m) as [-> ->]
    by (split; by_port m).
  by_port m.
Qed.

Lemma set_neighbor_port p m : set_neighbor e (set_port p m) = set_port p (set_neighbor e m).
Proof.
  unfold set_neighbor. destruct (neighbor_resolver e) as [nr|]; [|done].
  assert (source_ip (set_port p m) = source_ip m) as -> by (by_port m).
  destruct (source_ip m) as [a|]; [|done].
  destruct (lookup_mac nr a), (lookup_hostname nr a); unfold set_port;
    destruct m as [? ? ? ? ? ? dst ? ? ? ? ? ? ? ? ? ? ? ? ? ? ? ? ? ? ? ? ? ? ? ? ? mac host]; cbn;
    destruct dst, mac, host; reflexivity.
Qed.

(** No owner is looked up: there is no resolver, or the owner is known. *)
Definition owner_known (m : Metadata) : Prop := process_resolver e = None \/ md_process_lookup m <> [].

Lemma set_process_known m : owner_known m -> set_process e m = m.
Proof.
  intros [Hr|Hr]; unfold set_process; [by rewrite Hr|].
  destruct (process_resolver e), (md_network m), (socket_of (md_source m)); try done.
  rewrite decide_False; [done|]. by intros [? _].
Qed.

(** ** Preferred tags *)

Lemma endpoints_added o (dom : option text) (addresses : list IpAddr) order tags :
  exists added, foldl (fun tags tag =>
    if decide (tag ∈ tags) then tags
    else match endpoint_entries o !! tag with
         | None => tags
         | Some dialer =>
             if match dom with Some d => preferred_domain dialer d | None => false end
                || existsb (preferred_address dialer) addresses
             then tags ++ [tag] else tags
         end) tags order = tags ++ added /\ Forall (fun t : text => t ∈ order) added.
Proof.
  revert tags. induction order as [|t order IH]; intros tags; cbn [foldl]; [exists []; by rewrite app_nil_r|].
  set (tags' := if decide (t ∈ tags) then tags else _).
  assert (tags' = tags \/ tags' = tags ++ [t]) as [->| ->].
  { unfold tags'. case_decide; [by left|]. destruct (endpoint_entries o !! t); [|by left].
    destruct (_ || _); [by right|by left]. }
  - destruct (IH tags) as (added & -> & Ha). exists added. split; [done|]. eapply Forall_impl; [done|]. set_solver.
  - destruct (IH (tags ++ [t])) as (added & -> & Ha). exists (t :: added). rewrite <-app_assoc. split; [done|].
    constructor; [set_solver|]. eapply Forall_impl; [done|]. set_solver.
Qed.

Lemma prefer_idempotent o tags dom addresses :
  prefer o false (prefer o false tags dom addresses) dom addresses = prefer o false tags dom addresses.
Proof.
  unfold prefer. set (base := filter _ tags).
  destruct (endpoints_added o dom addresses (endpoint_order o) base) as (added & E & Ha). rewrite E.
  assert (filter (fun tag => tag ∉ endpoint_order o /\ is_bridge o tag = false) (base ++ added) = base) as ->;
    [|exact E].
  rewrite filter_app. unfold base at 1. rewrite list_filter_filter_l by done. fold base.
  replace (filter _ added) with (@nil text); [by rewrite app_nil_r|]. symmetry.
  clear E. induction Ha as [|t added Ht _ IH]; [done|]. rewrite filter_cons, decide_False; [done|]. by intros [? _].
Qed.

Lemma populate_idempotent o m : populate_preferred_by o (populate_preferred_by o m false) false = populate_preferred_by o m false.
Proof.
  unfold populate_preferred_by. cbn. f_equal. apply (prefer_idempotent o (md_preferred_by m) (domain m) (addresses_of m)).
Qed.

(** ** The metadata a resumed walk starts from *)

Section same.
Context (m : Metadata).
Hypothesis Hnormal : forall d, md_destination m = Some d -> normal d.
Hypothesis Howner : owner_known m.

(** The port the options leave the destination with. *)
Definition port_of (o : ConnectionOverride) : Z :=
  if decide (o_port o = 0) then default 0 (Socks.port <$> md_destination m) else o_port o.

Let seen : Metadata := apply_runtime_metadata e m false.

Lemma known_kept x p : owner_known x -> owner_known (set_port p x).
Proof. unfold owner_known, set_port. by destruct (md_destination x). Qed.

Lemma runtime_known x : owner_known x -> apply_runtime_metadata e x false =
  set_neighbor e (match preferred_outbounds e with
                  | Some o => populate_preferred_by o (set_reverse_domain o (set_clash_mode_of e (set_ip_version x))) false
                  | None => set_clash_mode_of e (set_ip_version x)
                  end).
Proof.
  intros Hx. unfold apply_runtime_metadata. apply set_process_known. destruct Hx as [Hx|Hx]; [by left|]. right.
  enough (forall y, md_process_lookup (set_neighbor e y) = md_process_lookup y) as ->.
  - destruct (preferred_outbounds e); unfold populate_preferred_by, set_reverse_domain, set_clash_mode_of, set_ip_version;
      repeat (case_match || case_decide); done.
  - intros y. unfold set_neighbor. repeat case_match; done.
Qed.

Lemma runtime_port x p : owner_known x ->
  apply_runtime_metadata e (set_port p x) false = set_port p (apply_runtime_metadata e x false).
Proof.
  intros Hx. rewrite !runtime_known by eauto using known_kept. rewrite <-set_neighbor_port. f_equal.
  destruct (preferred_outbounds e);
    by rewrite set_ip_version_port, set_clash_mode_port, ?set_reverse_domain_port, ?populate_port.
Qed.

Lemma runtime_destination x : owner_known x -> md_destination (apply_runtime_metadata e x false) = md_destination x.
Proof.
  intros Hx. rewrite runtime_known by done.
  enough (forall y, md_destination (set_neighbor e y) = md_destination y) as ->.
  - destruct (preferred_outbounds e); unfold populate_preferred_by, set_reverse_domain, set_clash_mode_of, set_ip_version;
      repeat (case_match || case_decide); done.
  - intros y. unfold set_neighbor. repeat case_match; done.
Qed.

Lemma populate_neighbor o x : populate_preferred_by o (set_neighbor e x) false = set_neighbor e (populate_preferred_by o x false).
Proof.
  unfold set_neighbor. destruct (neighbor_resolver e) as [nr|]; [|done].
  change (source_ip (populate_preferred_by o x false)) with (source_ip x). destruct (source_ip x) as [a|]; [|done].
  destruct (lookup_mac nr a), (lookup_hostname nr a);
    destruct x as [? ? ? ? ? ? dst ? ? ? ? ? ? ? ? ? ? ? ? ? ? ? ? ? ? ? ? ? ? ? ? ? mac host];
    destruct mac, host; reflexivity.
Qed.

Lemma refresh_seen : refresh_preferred_by e seen false = seen.
Proof.
  unfold seen, refresh_preferred_by. rewrite runtime_known by done. destruct (preferred_outbounds e); [|done].
  by rewrite populate_neighbor, populate_idempotent.
Qed.

Lemma start_port st : address (options st) = [] -> start e false m st = set_port (port_of (options st)) seen.
Proof.
  intros Ho. unfold seen. rewrite <-runtime_port by done. unfold start, set_port, port_of.
  destruct (md_destination m) as [d|] eqn:Ed; [|done]. rewrite (decide_False (P := false = false /\ _)) by tauto.
  by rewrite apply_port by eauto.
Qed.

Lemma port_of_update o next :
  port_of (Override.update o next) = if decide (o_port next = 0) then port_of o else o_port next.
Proof. unfold port_of. cbn. repeat case_decide; done. Qed.

Lemma override_set_port x q next : (forall d, md_destination x = Some d -> normal d) -> address next = [] ->
  override_destination false (set_port q x) next = set_port (if decide (o_port next = 0) then q else o_port next) x.
Proof.
  intros Hx Hn. unfold override_destination. rewrite (decide_False (P := false = false /\ _)) by tauto.
  unfold set_port. destruct (md_destination x) as [d|] eqn:Ed; [|by rewrite Ed]. cbn.
  rewrite apply_port by eauto using with_port_normal. rewrite with_port_with_port. by destruct d.
Qed.

Lemma override_port o next : address o = [] -> address next = [] ->
  refresh_preferred_by e (override_destination false (set_port (port_of o) seen) next) false
    = set_port (port_of (Override.update o next)) seen.
Proof.
  intros Ho Hn. rewrite override_set_port, <-port_of_update; [|unfold seen; by rewrite runtime_destination|done].
  unfold refresh_preferred_by. destruct (preferred_outbounds e) as [ob|] eqn:Eo; [|done].
  rewrite populate_port. f_equal. generalize refresh_seen. unfold refresh_preferred_by. by rewrite Eo.
Qed.

(** ** The walks *)

Definition keeps_address (rule : Rules.Rule (Action := Action)) : Prop :=
  match rule_action rule with RouteOptions next => address next = [] | _ => True end.

Definition pauses (action : option (nat * Action)) : bool :=
  match action with Some (_, Sniff _) | Some (_, Resolve _) => true | _ => false end.

Lemma walk_agrees l protocol index st action st' :
  Forall keeps_address l -> address (options st) = [] ->
  walk sets e false protocol index l (set_port (port_of (options st)) seen) st = (action, st') ->
  address (options st') = []
  /\ walk_all sets e true true protocol index l (set_port (port_of (options st)) seen) (options st)
    = if pauses action
      then walk_all sets e true true protocol (next_rule st') (drop (next_rule st' - index) l)
             (set_port (port_of (options st')) seen) (options st')
      else (action, options st').
Proof.
  intros Hl. revert index st. induction Hl as [|rule l Hr Hl IH]; intros index st Ho; cbn [walk walk_all].
  { by intros [= <- <-]. }
  assert (forall st, address (options st) = [] ->
    walk sets e false protocol (S index) l (set_port (port_of (options st)) seen) st = (action, st') ->
    address (options st') = [] /\
    walk_all sets e true true protocol (S index) l (set_port (port_of (options st)) seen) (options st) =
      if pauses action
      then walk_all sets e true true protocol (next_rule st') (drop (next_rule st' - index) (rule :: l))
             (set_port (port_of (options st')) seen) (options st')
      else (action, options st')) as Hnext.
  { intros s Hs Hw. destruct (IH _ s Hs Hw) as [Ha ->]. split; [done|].
    pose proof (walk_spec sets e false protocol (S index) l (set_port (port_of (options s)) seen) s) as Hspec.
    rewrite Hw in Hspec. destruct action as [[i a]|]; [|done]. destruct (pauses _); [|done].
    destruct Hspec as (Hi & -> & _). by replace (S i - index)%nat with (S (S i - S index)) by lia. }
  destruct (rule_matches sets rule _); [|by apply Hnext].
  pose proof (Hnext (mkState (S index) (options st)) Ho) as Hskip.
  unfold keeps_address in Hr. destruct (rule_action rule) as [ob o|o| |o ob|ob o|mt nd| |o|o];
    try (intros [= <- <-]; done); cbn [options next_rule] in *.
  - rewrite override_port by done. apply (Hnext (mkState (S index) (Override.update (options st) o))).
    cbn. by rewrite decide_True.
  - destruct ob; [exact Hskip|]. by intros [= <- <-].
  - case_bool_decide; [exact Hskip|]. intros [= <- <-]. cbn [pauses next_rule options]. split; [done|].
    by replace (S index - index)%nat with 1%nat by lia.
  - intros [= <- <-]. cbn [pauses next_rule options]. split; [done|].
    by replace (S index - index)%nat with 1%nat by lia.
Qed.

Lemma resume_agrees fuel st : Forall keeps_address (rules rt) ->
  (length (rules rt) - next_rule st < fuel)%nat -> address (options st) = [] ->
  resume fuel m st = Some (walk_all sets e true true (md_protocol m) (next_rule st) (drop (next_rule st) (rules rt))
                             (set_port (port_of (options st)) seen) (options st)).
Proof.
  intros Hr. revert st. induction fuel as [|fuel IH]; intros st Hf Ho; [lia|]. cbn [resume].
  pose proof (route_step_spec sets e rt m st false) as Hs. unfold route_step in *.
  rewrite start_port in * by done.
  destruct (walk _ _ _ _ _ _ _ _) as [action st'] eqn:Hw.
  destruct (walk_agrees _ _ _ _ _ _ (Forall_drop _ _ _ Hr) Ho Hw) as [Ho' ->].
  assert (pauses action = true -> resume fuel m st' = Some (walk_all sets e true true (md_protocol m) (next_rule st')
    (drop (next_rule st' - next_rule st) (drop (next_rule st) (rules rt)))
    (set_port (port_of (options st')) seen) (options st'))) as Hp.
  { destruct action as [[i a]|]; [|done]. intros _. destruct Hs as (Hi & Hn & _). rewrite IH by (done || lia).
    rewrite drop_drop. by replace (next_rule st + (next_rule st' - next_rule st))%nat with (next_rule st') by lia. }
  destruct action as [[i [ob o|o| |o ob|ob o|mt nd| |o|o]]|]; cbn [pauses] in *; by rewrite ?Hp.
Qed.

End same.

(** C14: A walk that is interrupted decides like one that is not.  When no rule
    replaces the address of the destination, the walk that stops at every
    sniff and every resolution and is resumed behind it with the same metadata
    ends, within one round more than there are rules, with the action and the
    options of the single walk that passes over them.  The destination is one
    that [SocksAddr::new] builds and the owner of the connection needs no
    lookup. *)
Theorem resumed_walk_agrees (m : Metadata) :
  Forall keeps_address (rules rt) ->
  (forall d, md_destination m = Some d -> normal d) ->
  owner_known m ->
  resume (S (length (rules rt))) m state_default = Some (route_all sets e rt m true true).
Proof.
  intros Hr Hn Ho. rewrite (resume_agrees m Hn Ho) by (done || cbn; lia). f_equal. unfold route_all.
  cbn [next_rule options state_default]. rewrite drop_0. f_equal.
  unfold set_port, port_of. rewrite runtime_destination by done.
  destruct (md_destination m) as [d|] eqn:Ed; [|done]. cbn. rewrite decide_True by done.
  replace (with_port (Socks.port d) d) with d by (by destruct d as [[]|]).
  generalize (runtime_destination m Ho). rewrite Ed. destruct (apply_runtime_metadata e m false). cbn. by intros ->.
Qed.

End resume.

(** ** Witnesses *)

Module Example.

Definition always (a : @Action IpSet.Example.ops unit) : @Rules.Rule Meaning.literal IpSet.Example.ops Action :=
  RLogical And [] false a.

(** A port is replaced, the flow is sniffed and goes to the outbound [a]. *)
Definition rules : list (@Rules.Rule Meaning.literal IpSet.Example.ops (@Action IpSet.Example.ops unit)) :=
  [always (RouteOptions (mkOverride [] 8443 false None false [] WrongSequence dial_default None));
   always (Sniff {| names := []; stream_sniffers := []; packet_sniffers := [PQuic]; sniff_timeout := 0 |});
   always (Route [97] override_default)].

Definition router : @Router Meaning.literal IpSet.Example.ops unit := @mkRouter Meaning.literal IpSet.Example.ops unit rules [].

Definition environment : Environment := Build_Environment None None None None.

End Example.

Lemma reject_flood_window_witness :
  (@Flood.is_drop IpSet.Example.ops unit 60 (@after IpSet.Example.ops unit (Reject [] false) (replicate 50 0)) (Reject [] false)).1 = true.
Proof.
  apply (@reject_flood_window IpSet.Example.ops unit (Reject [] false) (replicate 50 0) 60).
  - exists []. split; [done|by left].
  - cbn. repeat (constructor; [|repeat constructor; lia]). constructor.
  - by vm_compute; lia.
Defined.

Lemma resumed_walk_agrees_witness :
  @resume Meaning.literal IpSet.Example.ops unit ∅ Example.environment Example.router 4 Meaning.example_metadata state_default
  = Some (@route_all Meaning.literal IpSet.Example.ops unit ∅ Example.environment Example.router
            Meaning.example_metadata true true).
Proof.
  apply (@resumed_walk_agrees Meaning.literal IpSet.Example.ops unit ∅ Example.environment Example.router
    Meaning.example_metadata).
  - repeat constructor.
  - intros d [= <-]. by vm_compute.
  - by left.
Defined.

(** The condition on overrides is needed: a rule that replaces the address by
    a domain leaves the version of the old address in the metadata of the
    single walk, and a resumed walk does not have it. *)
Lemma resumed_walk_differs :
  exists (rule : @DefaultRule Meaning.literal IpSet.Example.ops),
    @from_raw Meaning.literal IpSet.Example.ops
      (mkRaw [] 4 [] [] [] [] [] [] [] [] [] false [] false [] [] [] [] [] [] [] [] [] [] [] [] []
         false false [] [] ∅ ∅ [] [] [] [] [] false false) [] = Ok rule
    /\ let rt := @mkRouter Meaning.literal IpSet.Example.ops unit
         [Example.always (RouteOptions (mkOverride [120] 0 false None false [] WrongSequence dial_default None));
          Example.always (Sniff {| names := []; stream_sniffers := []; packet_sniffers := [PQuic]; sniff_timeout := 0 |});
          RDefault rule (Route [97] override_default)] [] in
       let m := metadata_default <| md_destination := Some (Socks.new [49; 46; 49; 46; 49; 46; 49] 443) |> in
       (exists o, @resume Meaning.literal IpSet.Example.ops unit ∅ Example.environment rt 4 m state_default = Some (None, o))
       /\ (exists o, @route_all Meaning.literal IpSet.Example.ops unit ∅ Example.environment rt m true true
                     = (Some (2%nat, Route [97] override_default), o)).
Proof.
  eexists. split; [reflexivity|]. split; eexists; reflexivity.
Qed.

End Flow.
