(* ===== verification/FakeIp.v ===== *)
(** * Fake IP addresses ([dns/fakeip.rs], [dns/persistent.rs])

    The allocator that hands out addresses of a reserved range for domain names
    and maps them back, with its SQLite cache.  A table of the database is the
    list of its rows; whether the statements of a call succeed is an argument of
    the call.  A domain is a byte string.  [IpNet::contains] of the crate ipnet
    is the class [IpNetworks].  Shifts by the width of the operand wrap around,
    as they do without overflow checks. *)

From stdpp Require Import base numbers list gmap.
From Stdlib Require Import ZArith Lia.
From S2P Require Import Prelude.

Local Open Scope Z_scope.
Local Open Scope record_scope.

Definition domain : Type := list Z.

(** An address with a prefix length; the address may have host bits. *)
Inductive IpNet : Type :=
| NetV4 (address prefix_len : Z)
| NetV6 (address prefix_len : Z).

Global Instance IpNet_eq_dec : EqDecision IpNet.
Proof. solve_decision. Defined.

Definition net_addr (n : IpNet) : IpAddr :=
  match n with NetV4 a _ => IpV4 a | NetV6 a _ => IpV6 a end.

Class IpNetworks : Type := contains_addr : IpNet -> IpAddr -> bool.

(** A network contains the addresses of its family with its prefix. *)
Class IpNetworkLaws `{!IpNetworks} : Prop := {
  contains_v4 : forall a p x, 0 <= p <= 32 ->
    contains_addr (NetV4 a p) (IpV4 x)
    = bool_decide (Z.shiftr x (32 - p) = Z.shiftr a (32 - p));
  contains_v6 : forall a p x, 0 <= p <= 128 ->
    contains_addr (NetV6 a p) (IpV6 x)
    = bool_decide (Z.shiftr x (128 - p) = Z.shiftr a (128 - p));
  contains_v4_v6 : forall a p x, contains_addr (NetV4 a p) (IpV6 x) = false;
  contains_v6_v4 : forall a p x, contains_addr (NetV6 a p) (IpV4 x) = false;
}.

(** The text of the errors is replaced by a constructor each. *)
Inductive FakeIpError : Type :=
| NoRange
| Inet4NotIpv4
| Inet6NotIpv6
| CacheFailed
| MissingIpv4Range
| MissingIpv6Range
| RangeExhausted
| NoUsableAddresses
| NoAddressFamily.

Inductive DomainStrategy : Type := AsIs | PreferIpv4 | PreferIpv6 | Ipv4Only | Ipv6Only.

Global Instance strategy_eq_dec : EqDecision DomainStrategy.
Proof. solve_decision. Defined.

Record PersistentFakeIpMetadata : Type := mkMetadata {
  meta_inet4_range : option IpNet;
  meta_inet6_range : option IpNet;
  meta_current4 : option IpAddr;
  meta_current6 : option IpAddr;
}.

(** The rows of [fakeip_cache] and the row of [fakeip_metadata] that have the
    cache's id. *)
Record PersistentDnsCache : Type := mkCache {
  fakeip_cache : list (IpAddr * domain);
  fakeip_metadata : option PersistentFakeIpMetadata;
}.

Global Instance cache_eta : Settable PersistentDnsCache := fun c =>
  mkCache (fakeip_cache c) (fakeip_metadata c).

(** ** The persistent cache *)

Module Persistent.

Definition load_fakeip_by_address (c : PersistentDnsCache) (address : IpAddr) : option domain :=
  snd <$> List.find (fun row => bool_decide (row.1 = address)) (fakeip_cache c).

Definition load_fakeip_by_domain (c : PersistentDnsCache) (d : domain) (ipv6 : bool)
    : option IpAddr :=
  fst <$> List.find (fun row => bool_decide (row.2 = d /\ is_ipv6 row.1 = ipv6)) (fakeip_cache c).

(** One transaction: the rows of the address or the domain are replaced. *)
Definition save_fakeip (c : PersistentDnsCache) (address : IpAddr) (d : domain)
    : PersistentDnsCache :=
  c <| fakeip_cache ::= fun rows =>
    filter (fun row => ~ (row.1 = address \/ (row.2 = d /\ is_ipv6 row.1 = is_ipv6 address))) rows
    ++ [(address, d)] |>.

Definition load_fakeip_metadata (c : PersistentDnsCache) : option PersistentFakeIpMetadata :=
  fakeip_metadata c.

Definition save_fakeip_metadata (c : PersistentDnsCache) (m : PersistentFakeIpMetadata)
    : PersistentDnsCache :=
  c <| fakeip_metadata := Some m |>.

Definition clear_fakeip (c : PersistentDnsCache) : PersistentDnsCache := mkCache [] None.

End Persistent.

(** ** The allocator *)

Module FakeIp.

Record State : Type := mkState {
  current4 : option IpAddr;
  current6 : option IpAddr;
  last4 : option IpAddr;
  last6 : option IpAddr;
  by_address : gmap IpAddr domain;
  by_domain4 : gmap domain IpAddr;
  by_domain6 : gmap domain IpAddr;
}.

#[export] Instance state_eta : Settable State := fun s =>
  mkState (current4 s) (current6 s) (last4 s) (last6 s) (by_address s) (by_domain4 s)
    (by_domain6 s).

Record FakeIpResolver : Type := mkResolver {
  inet4_range : option IpNet;
  inet6_range : option IpNet;
  persistent_cache : option PersistentDnsCache;
  state : State;
}.

#[export] Instance resolver_eta : Settable FakeIpResolver := fun r =>
  mkResolver (inet4_range r) (inet6_range r) (persistent_cache r) (state r).

(** Whether the statements of a call succeed: the load, the save of a mapping and
    the save of the metadata. *)
Record Io : Type := mkIo {
  loads : bool;
  saves : bool;
  saves_metadata : bool;
}.

Section fakeip.
Context `{!IpNetworks}.

(** [trim_end_matches('.')] and [to_ascii_lowercase]. *)
Fixpoint drop_dots (l : list Z) : list Z :=
  match l with
  | 46 :: l => drop_dots l
  | _ => l
  end.

Definition to_ascii_lowercase (b : Z) : Z := if decide (65 <= b <= 90) then b + 32 else b.

Definition canonical_domain (d : domain) : domain :=
  map to_ascii_lowercase (rev (drop_dots (rev d))).

Definition next (address : IpAddr) : option IpAddr :=
  match address with
  | IpV4 a => if decide (a + 1 <= U32_MAX) then Some (IpV4 (a + 1)) else None
  | IpV6 a => if decide (a + 1 <= U128_MAX) then Some (IpV6 (a + 1)) else None
  end.

Definition broadcast_address (range : IpNet) : IpAddr :=
  match range with
  | NetV4 a p => IpV4 (Z.lor a (Z.shiftr U32_MAX (p mod 32)))
  | NetV6 a p => IpV6 (Z.lor a (Z.shiftr U128_MAX (p mod 128)))
  end.

Definition in_range (range : option IpNet) (address : IpAddr) : bool :=
  match range with Some n => contains_addr n address | None => false end.

Definition valid_current (current : option IpAddr) (range : option IpNet) : bool :=
  match current, range with
  | None, None => true
  | Some current, Some range => contains_addr range current
  | _, _ => false
  end.

Definition contains (r : FakeIpResolver) (address : IpAddr) : bool :=
  in_range (inet4_range r) address || in_range (inet6_range r) address.

Definition by_domain (ipv6 : bool) (s : State) : gmap domain IpAddr :=
  if ipv6 then by_domain6 s else by_domain4 s.

Definition set_by_domain (ipv6 : bool) (f : gmap domain IpAddr -> gmap domain IpAddr) (s : State)
    : State :=
  if ipv6 then s <| by_domain6 ::= f |> else s <| by_domain4 ::= f |>.

Definition insert_mapping (s : State) (address : IpAddr) (d : domain) : State :=
  let ipv6 := is_ipv6 address in
  let old_domain := by_address s !! address in
  let s := s <| by_address ::= <[address := d]> |> in
  let s := match old_domain with
           | Some old => set_by_domain ipv6 (delete old) s
           | None => s
           end in
  let previous_address := by_domain ipv6 s !! d in
  let s := set_by_domain ipv6 (<[d := address]>) s in
  match previous_address with
  | Some previous =>
      if decide (previous <> address /\ by_address s !! previous = Some d)
      then s <| by_address ::= delete previous |> else s
  | None => s
  end.

Definition is_v4_net (n : IpNet) : bool := is_ipv4 (net_addr n).

(** [load_ok] and [save_ok]: the statements on the metadata; a failure of either
    is an error of the construction. *)
Definition new_with_cache (inet4_range inet6_range : option IpNet)
    (cache : option PersistentDnsCache) (load_ok save_ok : bool)
    : result FakeIpError FakeIpResolver :=
  match inet4_range, inet6_range with
  | None, None => Err NoRange
  | _, _ =>
      if from_option (fun n => negb (is_v4_net n)) false inet4_range then Err Inet4NotIpv4
      else if from_option is_v4_net false inet6_range then Err Inet6NotIpv6
      else
        let current4 := inet4_range ≫= fun n => next (net_addr n) in
        let current6 := inet6_range ≫= fun n => next (net_addr n) in
        let state := fun current4 current6 =>
          mkState current4 current6 (broadcast_address <$> inet4_range)
            (broadcast_address <$> inet6_range) ∅ ∅ ∅ in
        match cache with
        | None => Ok (mkResolver inet4_range inet6_range None (state current4 current6))
        | Some c =>
            if load_ok then
              let fresh :=
                if save_ok
                then Ok (mkResolver inet4_range inet6_range
                           (Some (Persistent.save_fakeip_metadata (Persistent.clear_fakeip c)
                                    (mkMetadata inet4_range inet6_range current4 current6)))
                           (state current4 current6))
                else Err CacheFailed in
              match Persistent.load_fakeip_metadata c with
              | Some m =>
                  if bool_decide (meta_inet4_range m = inet4_range)
                     && bool_decide (meta_inet6_range m = inet6_range)
                     && valid_current (meta_current4 m) inet4_range
                     && valid_current (meta_current6 m) inet6_range
                  then Ok (mkResolver inet4_range inet6_range (Some c)
                             (state (meta_current4 m) (meta_current6 m)))
                  else fresh
              | None => fresh
              end
            else Err CacheFailed
        end
  end.

Definition new (inet4_range inet6_range : option IpNet) : result FakeIpError FakeIpResolver :=
  new_with_cache inet4_range inet6_range None true true.

(** The next address of the range, from the start again after the last one. *)
Definition next_in_range (range : IpNet) (current last : option IpAddr)
    : result FakeIpError IpAddr :=
  address ← ok_or RangeExhausted (current ≫= next);
  if bool_decide (Some address = last) || negb (contains_addr range address)
  then ok_or NoUsableAddresses (next (net_addr range) ≫= next)
  else Ok address.

Definition range_of (ipv6 : bool) (r : FakeIpResolver) : option IpNet :=
  if ipv6 then inet6_range r else inet4_range r.

Definition current_of (ipv6 : bool) (s : State) : option IpAddr :=
  if ipv6 then current6 s else current4 s.

Definition last_of (ipv6 : bool) (s : State) : option IpAddr :=
  if ipv6 then last6 s else last4 s.

Definition set_current (ipv6 : bool) (a : IpAddr) (s : State) : State :=
  if ipv6 then s <| current6 := Some a |> else s <| current4 := Some a |>.

(** What the cache knows about the domain, if it lies in the range. *)
Definition cached (r : FakeIpResolver) (d : domain) (ipv6 : bool) (io : Io) : option IpAddr :=
  c ← persistent_cache r;
  address ← (if loads io then Persistent.load_fakeip_by_domain c d ipv6 else None);
  if in_range (range_of ipv6 r) address then Some address else None.

Definition save_created (io : Io) (address : IpAddr) (d : domain) (m : PersistentFakeIpMetadata)
    (c : PersistentDnsCache) : PersistentDnsCache :=
  let c := if saves io then Persistent.save_fakeip c address d else c in
  if saves_metadata io then Persistent.save_fakeip_metadata c m else c.

Definition create (r : FakeIpResolver) (name : domain) (ipv6 : bool) (io : Io)
    : result FakeIpError IpAddr * FakeIpResolver :=
  let d := canonical_domain name in
  match by_domain ipv6 (state r) !! d with
  | Some address => (Ok address, r)
  | None =>
      match cached r d ipv6 io with
      | Some address => (Ok address, r <| state := insert_mapping (state r) address d |>)
      | None =>
          match range_of ipv6 r with
          | None => (Err (if ipv6 then MissingIpv6Range else MissingIpv4Range), r)
          | Some range =>
              match next_in_range range (current_of ipv6 (state r)) (last_of ipv6 (state r)) with
              | Err e => (Err e, r)
              | Ok address =>
                  let s := insert_mapping (set_current ipv6 address (state r)) address d in
                  (Ok address,
                   r <| state := s |>
                     <| persistent_cache ::= fmap (save_created io address d
                          (mkMetadata (inet4_range r) (inet6_range r) (current4 s) (current6 s))) |>)
              end
          end
      end
  end.

Definition lookup_domain (r : FakeIpResolver) (address : IpAddr) (io : Io)
    : option domain * FakeIpResolver :=
  match by_address (state r) !! address with
  | Some d => (Some d, r)
  | None =>
      match persistent_cache r ≫= fun c =>
              if loads io then Persistent.load_fakeip_by_address c address else None with
      | Some d =>
          if contains r address
          then (Some d, r <| state := insert_mapping (state r) address d |>)
          else (None, r)
      | None => (None, r)
      end
  end.

Definition reset (r : FakeIpResolver) (io : Io) : FakeIpResolver :=
  r <| state ::= fun s => s <| by_address := ∅ |> <| by_domain4 := ∅ |> <| by_domain6 := ∅ |> |>
    <| persistent_cache ::= fmap (fun c => if saves io then Persistent.clear_fakeip c else c) |>.

(** [sort_by_key] is stable. *)
Definition apply_strategy (addresses : list IpAddr) (strategy : DomainStrategy) : list IpAddr :=
  match strategy with
  | AsIs => addresses
  | PreferIpv4 => List.filter is_ipv4 addresses ++ List.filter is_ipv6 addresses
  | PreferIpv6 => List.filter is_ipv6 addresses ++ List.filter is_ipv4 addresses
  | Ipv4Only => List.filter is_ipv4 addresses
  | Ipv6Only => List.filter is_ipv6 addresses
  end.

(** [Resolver::lookup]. *)
Definition lookup_family (wanted ipv6 : bool) (name : domain) (io : Io)
    : method FakeIpResolver FakeIpError (list IpAddr) := fun r =>
  if wanted && bool_decide (is_Some (range_of ipv6 r))
  then let '(a, r) := create r name ipv6 io in ((fun a => [a]) <$> a, r)
  else (Ok [], r).

Definition lookup (name : domain) (strategy : DomainStrategy) (io4 io6 : Io)
    : method FakeIpResolver FakeIpError (list IpAddr) :=
  v4 ← lookup_family (negb (bool_decide (strategy = Ipv6Only))) false name io4;
  v6 ← lookup_family (negb (bool_decide (strategy = Ipv4Only))) true name io6;
  let addresses := apply_strategy (v4 ++ v6) strategy in
  if decide (addresses = []) then throw NoAddressFamily else mret addresses.

(** ** The mapping is one to one *)

Record consistent (s : State) : Prop := {
  address_known : forall a d, by_address s !! a = Some d -> by_domain (is_ipv6 a) s !! d = Some a;
  domain_known : forall v d a, by_domain v s !! d = Some a ->
    is_ipv6 a = v /\ by_address s !! a = Some d;
}.

Lemma by_domain_set v v' f s :
  by_domain v (set_by_domain v' f s) = if decide (v = v') then f (by_domain v s) else by_domain v s.
Proof. by destruct v, v'. Qed.

Lemma by_address_set v f s : by_address (set_by_domain v f s) = by_address s.
Proof. by destruct v. Qed.

Lemma by_domain_address v f s : by_domain v (s <| by_address ::= f |>) = by_domain v s.
Proof. by destruct v. Qed.

(** The first half of [insert_mapping]: the address has its new domain, and its
    old domain is forgotten. *)
Definition drop_old (s : State) (a : IpAddr) (d : domain) : State :=
  match by_address s !! a with
  | Some old => set_by_domain (is_ipv6 a) (delete old) (s <| by_address ::= <[a := d]> |>)
  | None => s <| by_address ::= <[a := d]> |>
  end.

Lemma drop_old_address s a d : by_address (drop_old s a d) = <[a := d]> (by_address s).
Proof. unfold drop_old. case_match; by rewrite ?by_address_set. Qed.

Lemma drop_old_domain s a d v d' :
  by_domain v (drop_old s a d) !! d'
  = if decide (v = is_ipv6 a /\ by_address s !! a = Some d') then None else by_domain v s !! d'.
Proof.
  unfold drop_old. destruct (by_address s !! a) as [old|]; [|].
  - rewrite by_domain_set, by_domain_address. case_decide as Hv.
    + destruct (decide (old = d')) as [->|].
      * rewrite lookup_delete_eq. by rewrite decide_True.
      * rewrite lookup_delete_ne by done. rewrite decide_False; [done|]. intros [_ [= ?]]. done.
    + rewrite decide_False; [done|]. by intros [].
  - rewrite by_domain_address, decide_False; [done|]. by intros [].
Qed.

Lemma insert_domain s a d v d' :
  by_domain v (set_by_domain (is_ipv6 a) (<[d := a]>) (drop_old s a d)) !! d'
  = if decide (v = is_ipv6 a) then
      if decide (d' = d) then Some a
      else if decide (by_address s !! a = Some d') then None
      else by_domain v s !! d'
    else by_domain v s !! d'.
Proof.
  rewrite by_domain_set. destruct (decide (v = is_ipv6 a)) as [->|Hv].
  - destruct (decide (d' = d)) as [->|]; [by rewrite lookup_insert_eq|].
    rewrite lookup_insert_ne, drop_old_domain by done.
    destruct (decide (by_address s !! a = Some d')) as [E|E];
      [by rewrite decide_True|rewrite decide_False; [done|by intros []]].
  - rewrite drop_old_domain, decide_False; [done|]. by intros [].
Qed.

(** Without the code's order of writes: the new pair, minus the old partners of
    its two halves. *)
Lemma insert_mapping_spec s a d :
  consistent s ->
  (forall a', by_address (insert_mapping s a d) !! a'
     = if decide (a' = a) then Some d
       else if decide (by_domain (is_ipv6 a) s !! d = Some a') then None
       else by_address s !! a')
  /\ (forall v d', by_domain v (insert_mapping s a d) !! d'
     = if decide (v = is_ipv6 a) then
         if decide (d' = d) then Some a
         else if decide (by_address s !! a = Some d') then None
         else by_domain v s !! d'
       else by_domain v s !! d').
Proof.
  intros [Ha Hd]. unfold insert_mapping. fold (drop_old s a d).
  set (s2 := set_by_domain (is_ipv6 a) (<[d := a]>) (drop_old s a d)).
  assert (by_address s2 = <[a := d]> (by_address s)) as Ea2
    by (unfold s2; by rewrite by_address_set, drop_old_address).
  rewrite drop_old_domain. split; cycle 1.
  { intros v d'. rewrite <- insert_domain. fold s2.
    destruct (if decide _ then _ else _); [case_decide|]; by rewrite ?by_domain_address. }
  intros a'. destruct (decide (by_address s !! a = Some d)) as [E|E].
  { rewrite decide_True, Ea2 by done. destruct (decide (a' = a)) as [->|]; [by rewrite lookup_insert_eq|].
    rewrite lookup_insert_ne by done. rewrite decide_False; [done|]. rewrite (Ha _ _ E). congruence. }
  rewrite decide_False by (by intros []).
  destruct (by_domain (is_ipv6 a) s !! d) as [p|] eqn:Ep; cycle 1.
  { rewrite Ea2. destruct (decide (a' = a)) as [->|]; [by rewrite lookup_insert_eq|].
    by rewrite lookup_insert_ne, decide_False. }
  destruct (Hd _ _ _ Ep) as [_ Ep']. assert (p <> a) by congruence.
  rewrite decide_True; cycle 1.
  { split; [done|]. by rewrite Ea2, lookup_insert_ne. }
  simpl. rewrite Ea2. destruct (decide (a' = a)) as [->|]; [by rewrite lookup_delete_ne, lookup_insert_eq|].
  destruct (decide (p = a')) as [->|].
  - by rewrite lookup_delete_eq, decide_True.
  - rewrite lookup_delete_ne, lookup_insert_ne, decide_False by congruence. done.
Qed.

Lemma insert_mapping_consistent s a d : consistent s -> consistent (insert_mapping s a d).
Proof.
  intros Hc. destruct (insert_mapping_spec s a d Hc) as [Sa Sd]. destruct Hc as [Ha Hd]. split.
  - intros a' d'. rewrite Sa, Sd. destruct (decide (a' = a)) as [->|Hne].
    { intros [= ->]. by rewrite !decide_True. }
    case_decide as Hp; [done|]. intros E. apply Ha in E as E'.
    destruct (decide (is_ipv6 a' = is_ipv6 a)) as [Ev|]; [|done].
    rewrite decide_False by (intros ->; rewrite Ev in E'; congruence).
    rewrite decide_False; [done|]. intros E2%Ha. congruence.
  - intros v d' a'. rewrite Sd. case_decide as Hv; [subst v|].
    + case_decide as Hd'; [intros [= <-]; subst; split; [done|]; by rewrite Sa, decide_True|].
      case_decide as Hn; [done|]. intros E. destruct (Hd _ _ _ E) as [Ev E']. split; [done|].
      rewrite Sa, !decide_False; [done| |congruence]. intros [_ E2]%Hd. congruence.
    + intros E. destruct (Hd _ _ _ E) as [Ev E']. split; [done|].
      rewrite Sa, !decide_False; [done| |congruence]. intros [E2 _]%Hd. congruence.
Qed.

Lemma set_current_maps v a s :
  by_address (set_current v a s) = by_address s
  /\ (forall v', by_domain v' (set_current v a s) = by_domain v' s).
Proof. by destruct v; split; [|intros []| |intros []]. Qed.

Lemma set_current_consistent v a s : consistent s -> consistent (set_current v a s).
Proof.
  intros [Ha Hd]. destruct (set_current_maps v a s) as [Ea Ed].
  split; intros *; rewrite ?Ed, Ea; [apply Ha|apply Hd].
Qed.

(** ** Runs *)

Inductive step : FakeIpResolver -> FakeIpResolver -> Prop :=
| step_create r name ipv6 io : step r (create r name ipv6 io).2
| step_lookup r address io : step r (lookup_domain r address io).2
| step_reset r io : step r (reset r io).

Lemma create_consistent r name ipv6 io :
  consistent (state r) -> consistent (state (create r name ipv6 io).2).
Proof.
  intros Hc. unfold create. case_match; [done|]. case_match; [by apply insert_mapping_consistent|].
  case_match; [|done]. case_match; [|done].
  by apply insert_mapping_consistent, set_current_consistent.
Qed.

Lemma lookup_consistent r address io :
  consistent (state r) -> consistent (state (lookup_domain r address io).2).
Proof.
  intros Hc. unfold lookup_domain. case_match; [done|].
  destruct (persistent_cache r ≫= _); [|done].
  destruct (contains r address); [by apply insert_mapping_consistent|done].
Qed.

Lemma reset_consistent r io : consistent (state (reset r io)).
Proof.
  split; [intros a d; simpl; by rewrite lookup_empty|].
  intros [] d a; simpl; by rewrite lookup_empty.
Qed.

Lemma step_consistent r r' : consistent (state r) -> step r r' -> consistent (state r').
Proof.
  intros Hc Hs. revert Hc.
  destruct Hs; intros Hc; [by apply create_consistent|by apply lookup_consistent|apply reset_consistent].
Qed.

Lemma empty_consistent c4 c6 l4 l6 : consistent (mkState c4 c6 l4 l6 ∅ ∅ ∅).
Proof.
  split; [intros a d; simpl; by rewrite lookup_empty|].
  intros [] d a; simpl; by rewrite lookup_empty.
Qed.

Lemma new_consistent n4 n6 c load_ok save_ok r :
  new_with_cache n4 n6 c load_ok save_ok = Ok r -> consistent (state r).
Proof.
  unfold new_with_cache. intros Hn.
  assert (exists c4 c6, state r = mkState c4 c6 (broadcast_address <$> n4) (broadcast_address <$> n6) ∅ ∅ ∅)
    as (c4 & c6 & ->) by (repeat case_match; try done; apply Ok_inj in Hn as <-; by eexists _, _).
  apply empty_consistent.
Qed.

(** C27: Fake addresses and domains are in one-to-one correspondence, in every
    state reached by creating addresses, looking domains up and resetting, with
    or without a persistent cache and whether or not its statements succeed: an
    address maps to a domain exactly when the domain's address of that family is
    it, so no two domains ever share an address. *)
Theorem fakeip_one_to_one (n4 n6 : option IpNet) (c : option PersistentDnsCache)
    (load_ok save_ok : bool) (r0 r : FakeIpResolver) :
  new_with_cache n4 n6 c load_ok save_ok = Ok r0 -> rtc step r0 r ->
  (forall a d, by_address (state r) !! a = Some d
     <-> by_domain (is_ipv6 a) (state r) !! d = Some a)
  /\ (forall v d1 d2 a, by_domain v (state r) !! d1 = Some a ->
      by_domain v (state r) !! d2 = Some a -> d1 = d2).
Proof.
  intros Hn Hs. apply new_consistent in Hn.
  apply (rtc_invariant step (fun r => consistent (state r)) r0 r) in Hs as [Ha Hd];
    [|intros a b; apply step_consistent|done].
  split.
  - intros a d. split; [apply Ha|]. by intros [_ ?]%Hd.
  - intros v d1 d2 a [_ E1]%Hd [_ E2]%Hd. congruence.
Qed.

End fakeip.

(** ** The rotation of a range *)

Section rotation.
Context `{!IpNetworks, !IpNetworkLaws}.
Context (v : bool) (base p : Z).

Definition width : Z := if v then 128 else 32.
Definition net : IpNet := if v then NetV6 base p else NetV4 base p.
Definition addr (x : Z) : IpAddr := if v then IpV6 x else IpV4 x.

(** The addresses of the network but the first two and the last. *)
Definition usable : Z := 2 ^ (width - p) - 3.

(** A network address without host bits and with room for four addresses. *)
Definition roomy : Prop :=
  0 <= p <= width - 2 /\ 0 <= base /\ base + 2 ^ (width - p) <= 2 ^ width
  /\ base mod 2 ^ (width - p) = 0.

Context (Hroomy : roomy).

Lemma size_bound : 4 <= 2 ^ (width - p).
Proof.
  destruct Hroomy as (Hp & _). change 4 with (2 ^ 2). apply Z.pow_le_mono_r; lia.
Qed.

Lemma width_max : 2 ^ width = (if v then U128_MAX else U32_MAX) + 1.
Proof. by unfold width; destruct v. Qed.

Lemma contains_in x :
  base <= x < base + 2 ^ (width - p) -> contains_addr net (addr x) = true.
Proof.
  intros Hx. destruct Hroomy as (Hp & Hb & _ & Hm).
  assert (Z.shiftr x (width - p) = Z.shiftr base (width - p)) as E.
  { rewrite !Z.shiftr_div_pow2 by (unfold width in *; destruct v; lia).
    pose proof size_bound. pose proof (Z.div_mod base (2 ^ (width - p))).
    symmetry. apply (Z.div_unique_pos x _ _ (x - base)); lia. }
  unfold net, addr, width in *. destruct v;
    rewrite ?contains_v4, ?contains_v6 by lia; by apply bool_decide_true.
Qed.

Lemma next_addr x : 0 <= x -> x + 1 < 2 ^ width -> next (addr x) = Some (addr (x + 1)).
Proof.
  intros Hx Hb. rewrite width_max in Hb. unfold next, addr. destruct v; by rewrite decide_True by lia.
Qed.

Lemma broadcast_last : broadcast_address net = addr (base + 2 ^ (width - p) - 1).
Proof.
  destruct Hroomy as (Hp & Hb & _ & Hm).
  assert (forall w, 0 <= p <= w - 2 -> base mod 2 ^ (w - p) = 0 ->
    Z.lor base (Z.shiftr (Z.ones w) p) = base + 2 ^ (w - p) - 1) as Hlor.
  { intros w Hpw Hmw. rewrite Z.shiftr_div_pow2, Z.ones_div_pow2 by lia.
    pose proof (Z.div_mod base (2 ^ (w - p))) as Hdm. pose proof (Z.pow_pos_nonneg 2 (w - p)).
    rewrite Hmw, Z.add_0_r, Z.mul_comm in Hdm.
    rewrite Hdm at 1 by lia. rewrite <- Z.shiftl_mul_pow2 by lia.
    rewrite lor_shiftl_add; [|lia|rewrite Z.ones_equiv; lia]. rewrite Z.ones_equiv. lia. }
  unfold broadcast_address, net, addr, width in *. destruct v.
  - rewrite Z.mod_small by lia. change U128_MAX with (Z.ones 128). by rewrite Hlor.
  - rewrite Z.mod_small by lia. change U32_MAX with (Z.ones 32). by rewrite Hlor.
Qed.

Lemma addr_inj x y : addr x = addr y -> x = y.
Proof. unfold addr. destruct v; congruence. Qed.

(** The position after [k] is [k + 1], and after the last one the first. *)
Lemma next_in_range_eq k :
  0 <= k <= usable ->
  next_in_range net (Some (addr (base + 1 + k))) (Some (broadcast_address net))
  = Ok (addr (base + 2 + k mod usable)).
Proof.
  intros Hk. pose proof size_bound. destruct Hroomy as (Hp & Hb & Hw & Hm). unfold usable in *.
  unfold next_in_range. cbn [mbind option_bind]. rewrite next_addr by lia. cbn [ok_or]. rbind.
  rewrite broadcast_last. destruct (decide (k = 2 ^ (width - p) - 3)) as [->|Hne].
  - rewrite bool_decide_true by (f_equal; f_equal; lia). cbn [orb].
    replace (net_addr net) with (addr base) by (by unfold net, addr; destruct v).
    rewrite next_addr by lia. cbn [mbind option_bind]. rewrite next_addr by lia. cbn [ok_or].
    rewrite Z.mod_same by lia. do 2 f_equal. lia.
  - rewrite bool_decide_false by (intros [= E%addr_inj]; lia). rewrite contains_in by lia. cbn [orb negb].
    rewrite Z.mod_small by lia. do 2 f_equal. lia.
Qed.

Lemma insert_mapping_rest s a d v' :
  current_of v' (insert_mapping s a d) = current_of v' s
  /\ last_of v' (insert_mapping s a d) = last_of v' s.
Proof.
  unfold insert_mapping, set_by_domain. destruct v', (is_ipv6 a); by repeat case_match.
Qed.

(** Ranges and positions are of their families. *)
Record families (r : FakeIpResolver) : Prop := {
  families_range : forall v' n, range_of v' r = Some n -> is_ipv6 (net_addr n) = v';
  families_current : forall v' a, current_of v' (state r) = Some a -> is_ipv6 a = v';
}.

Lemma next_family a a' : next a = Some a' -> is_ipv6 a' = is_ipv6 a.
Proof. unfold next. destruct a; case_decide; [|done| |done]; by intros [= <-]. Qed.

Lemma next_in_range_family r v' range a :
  families r -> range_of v' r = Some range ->
  next_in_range range (current_of v' (state r)) (last_of v' (state r)) = Ok a -> is_ipv6 a = v'.
Proof.
  intros [Hr Hc] Er. unfold next_in_range. intros (a1 & E1 & E)%bind_Ok.
  destruct (current_of v' (state r)) as [c|] eqn:Ec; [|done]. simpl in E1.
  destruct (next c) as [c'|] eqn:En; [|done]. apply Ok_inj in E1 as <-.
  case_match; [|apply Ok_inj in E as <-; rewrite (next_family _ _ En); eauto].
  destruct (next (net_addr range)) as [b|] eqn:Eb; [|done]. simpl in E.
  destruct (next b) as [b'|] eqn:Eb'; [|done]. apply Ok_inj in E as <-.
  rewrite (next_family _ _ Eb'), (next_family _ _ Eb). eauto.
Qed.

Lemma create_families r name v' io : families r -> families (create r name v' io).2.
Proof.
  intros Hf. unfold create. case_match; [done|]. case_match.
  { destruct Hf as [Hr Hc]. split; [done|]. intros v'' a. cbn [snd state set_field].
    destruct (insert_mapping_rest (state r) i (canonical_domain name) v'') as [-> _]. apply Hc. }
  destruct (range_of v' r) as [range|] eqn:Er; [|done].
  destruct (next_in_range range _ _) as [a|] eqn:En; [|done].
  pose proof (next_in_range_family _ _ _ _ Hf Er En) as Ha. destruct Hf as [Hr Hc].
  split; [done|]. intros v'' a'. cbn [snd state set_field].
  destruct (insert_mapping_rest (set_current v' a (state r)) a (canonical_domain name) v'') as [-> _].
  specialize (Hc v'' a'). destruct v', v''; simpl in *; try done; by intros [= <-].
Qed.

(** A resolver without a cache whose last address of the family is at position
    [k]; position zero is before the first. *)
Record shape (k : Z) (r : FakeIpResolver) : Prop := {
  shape_range : range_of v r = Some net;
  shape_last : last_of v (state r) = Some (broadcast_address net);
  shape_cache : persistent_cache r = None;
  shape_bound : 0 <= k <= usable;
  shape_current : current_of v (state r) = Some (addr (base + 1 + k));
  shape_consistent : consistent (state r);
  shape_families : families r;
}.

Lemma set_current_other v' a s :
  v' <> v -> current_of v (set_current v' a s) = current_of v s.
Proof. by destruct v, v'. Qed.

Lemma set_current_last v' v'' a s : last_of v'' (set_current v' a s) = last_of v'' s.
Proof. by destruct v', v''. Qed.

Lemma usable_pos : 1 <= usable.
Proof. pose proof size_bound. unfold usable. lia. Qed.

(** A domain without an address gets the one at the next position. *)
Lemma create_allocates k r name io :
  shape k r -> by_domain v (state r) !! canonical_domain name = None ->
  let a := addr (base + 2 + k mod usable) in
  exists r', create r name v io = (Ok a, r') /\ shape (k mod usable + 1) r'
  /\ state r' = insert_mapping (set_current v a (state r)) a (canonical_domain name).
Proof.
  intros Hs Hn a. pose proof (create_families r name v io (shape_families _ _ Hs)) as Hf.
  revert Hf. destruct Hs. unfold create, cached. rewrite Hn, shape_cache0. cbn [mbind option_bind].
  rewrite shape_range0, shape_last0, shape_current0, next_in_range_eq by done. fold a.
  intros Hf. eexists. split; [reflexivity|]. split; [|done]. pose proof usable_pos.
  pose proof (Z.mod_pos_bound k usable).
  destruct (insert_mapping_rest (set_current v a (state r)) a (canonical_domain name) v) as [Ec El].
  split; cbn [state persistent_cache set_field].
  - unfold range_of in *. by destruct v.
  - by rewrite El, set_current_last.
  - by rewrite shape_cache0.
  - lia.
  - rewrite Ec. replace (base + 1 + (k mod usable + 1)) with (base + 2 + k mod usable) by lia.
    fold a. unfold current_of, set_current. by destruct v.
  - by apply insert_mapping_consistent, set_current_consistent.
  - exact Hf.
Qed.

(** The other family does not move the position. *)
Lemma create_other k r name v' io :
  shape k r -> v' <> v -> shape k (create r name v' io).2.
Proof.
  intros Hs Hv. pose proof (create_consistent r name v' io (shape_consistent _ _ Hs)) as Hc.
  pose proof (create_families r name v' io (shape_families _ _ Hs)) as Hf. revert Hc Hf. destruct Hs. unfold create, cached. rewrite shape_cache0. cbn [mbind option_bind].
  case_match; [done|]. case_match; [|done]. case_match; [|done]. intros Hc Hf.
  match goal with |- shape _ (_, ?r').2 => set (r1 := r') in * end.
  destruct (insert_mapping_rest (set_current v' a (state r)) a (canonical_domain name) v) as [Ec El].
  split; try done; unfold r1; cbn [snd state persistent_cache set_field].
  - by rewrite El, set_current_last.
  - by rewrite shape_cache0.
  - by rewrite Ec, set_current_other.
Qed.

Lemma create_shape k r name v' io : shape k r -> exists k', shape k' (create r name v' io).2.
Proof.
  intros Hs. destruct (decide (v' = v)) as [->|]; [|exists k; by apply create_other].
  destruct (by_domain v (state r) !! canonical_domain name) eqn:E.
  - exists k. unfold create. by rewrite E.
  - destruct (create_allocates k r name io Hs E) as (r' & -> & Hs' & _). by eexists.
Qed.

Lemma reset_rest r io v' :
  current_of v' (state (reset r io)) = current_of v' (state r)
  /\ last_of v' (state (reset r io)) = last_of v' (state r).
Proof. by destruct v'. Qed.

Lemma step_shape r r' : (exists k, shape k r) -> step r r' -> exists k, shape k r'.
Proof.
  intros [k Hs] Hst. revert Hs. destruct Hst as [r name v' io|r a io|r io]; intros Hs.
  - by eapply create_shape.
  - exists k. unfold lookup_domain. rewrite (shape_cache _ _ Hs). by case_match.
  - exists k. destruct Hs, (reset_rest r io v) as [Ec El].
    split; rewrite ?El, ?Ec; try done; [simpl; by rewrite shape_cache0|apply reset_consistent|].
    destruct shape_families0 as [Hr Hc]. split; [done|]. intros v' a.
    destruct (reset_rest r io v') as [-> _]. apply Hc.
Qed.

Lemma new_eq n4 n6 r :
  new n4 n6 = Ok r ->
  r = mkResolver n4 n6 None (mkState (n4 ≫= fun n => next (net_addr n))
        (n6 ≫= fun n => next (net_addr n)) (broadcast_address <$> n4) (broadcast_address <$> n6) ∅ ∅ ∅)
  /\ families r.
Proof.
  unfold new, new_with_cache. destruct (from_option (fun n => negb (is_v4_net n)) false n4) eqn:E4;
    [by destruct n4, n6|].
  destruct (from_option is_v4_net false n6) eqn:E6; [by destruct n4, n6|]. intros Hn.
  assert (r = mkResolver n4 n6 None (mkState (n4 ≫= fun n => next (net_addr n))
    (n6 ≫= fun n => next (net_addr n)) (broadcast_address <$> n4) (broadcast_address <$> n6) ∅ ∅ ∅))
    as -> by (destruct n4, n6; try done; by apply Ok_inj in Hn as <-).
  split; [done|]. assert (forall (v' : bool) n, (if v' then n6 else n4) = Some n -> is_ipv6 (net_addr n) = v') as Hf.
  { intros [] n E; simplify_eq; simpl in *; unfold is_v4_net, is_ipv6 in *.
    - by rewrite E6.
    - by apply negb_false_iff in E4 as ->. }
  split; [exact Hf|]. intros v' a Ha.
  assert (exists n, (if v' then n6 else n4) = Some n /\ next (net_addr n) = Some a) as (n & En & Ea)
    by (destruct v', n4, n6; try done; by eexists).
  rewrite (next_family _ _ Ea). by apply Hf.
Qed.

Lemma resolver_new_shape n4 n6 r : new n4 n6 = Ok r -> range_of v r = Some net -> shape 0 r.
Proof.
  intros Hn Hr. pose proof (new_consistent _ _ _ _ _ _ Hn) as Hc. pose proof usable_pos.
  destruct Hroomy as (Hp & Hb & Hw & Hm). pose proof size_bound.
  apply new_eq in Hn as [-> Hf].
  assert (net_addr net = addr base) as En by (unfold net, addr; by destruct v).
  unfold range_of in Hr. cbn [inet4_range inet6_range] in Hr.
  split; try done; [|lia|]; unfold last_of, current_of;
    cbn [state current4 current6 last4 last6]; destruct v eqn:Ev;
    rewrite Hr; cbn [mbind option_bind fmap option_fmap option_map]; try done;
    rewrite En, next_addr by lia; by rewrite Z.add_0_r.
Qed.

(** The domains and families of a run of creations. *)
Definition run_creates (calls : list (domain * bool)) (io : Io) (r : FakeIpResolver)
    : FakeIpResolver :=
  foldl (fun r call => (create r call.1 call.2 io).2) r calls.

Definition count_family (calls : list (domain * bool)) : Z :=
  Z.of_nat (length (List.filter (fun call => Bool.eqb call.2 v) calls)).

(** The address at position [j + 1] still has its domain after [m] allocations. *)
Record kept (j m : Z) (d : domain) (r : FakeIpResolver) : Prop := {
  kept_shape : shape ((j + m) mod usable + 1) r;
  kept_mapped : by_address (state r) !! addr (base + 2 + j) = Some d;
}.

Lemma is_ipv6_addr x : is_ipv6 (addr x) = v.
Proof. unfold addr. by destruct v. Qed.

(** Inserting another address for a domain that has none keeps the mapping. *)
Lemma insert_keeps s a d a' d' v' :
  consistent s -> by_address s !! a = Some d -> a' <> a -> is_ipv6 a' = v' ->
  by_domain v' s !! d' = None ->
  by_address (insert_mapping (set_current v' a' s) a' d') !! a = Some d.
Proof.
  intros Hc Ha Hne Hv Hd. destruct (set_current_maps v' a' s) as [Ea Ed].
  destruct (insert_mapping_spec (set_current v' a' s) a' d') as [Sa _];
    [by apply set_current_consistent|].
  rewrite Sa, decide_False by done. rewrite Ed, Hv, Hd, Ea. by rewrite decide_False.
Qed.

Lemma kept_create j m d r name v' io :
  0 <= j < usable -> 0 <= m -> m + (if Bool.eqb v' v then 1 else 0) < usable ->
  kept j m d r ->
  exists m', 0 <= m' <= m + (if Bool.eqb v' v then 1 else 0) /\ kept j m' d (create r name v' io).2.
Proof.
  intros Hj Hm Hlt [Hs Hk]. pose proof usable_pos as Hu.
  destruct (Bool.eqb_spec v' v) as [->|Hv].
  - destruct (by_domain v (state r) !! canonical_domain name) eqn:E.
    { exists m. split; [lia|]. unfold create. by rewrite E. }
    destruct (create_allocates _ r name io Hs E) as (r' & -> & Hs' & Er').
    assert (((j + m) mod usable + 1) mod usable = (j + (m + 1)) mod usable) as Em.
    { rewrite Zplus_mod_idemp_l. f_equal. lia. }
    rewrite Em in Hs', Er'. exists (m + 1). split; [lia|]. split; [done|]. cbn [snd]. rewrite Er'.
    apply insert_keeps; [apply Hs|done| |apply is_ipv6_addr|done].
    intros Ea%addr_inj. assert ((j + (m + 1)) mod usable = j) as Ej by lia.
    destruct (decide (j + (m + 1) < usable)); [rewrite Z.mod_small in Ej; lia|].
    rewrite <- (Z.mod_unique _ usable 1 (j + (m + 1) - usable)) in Ej; lia.
  - exists m. split; [lia|]. split; [by apply create_other|].
    unfold create, cached. rewrite (shape_cache _ _ Hs). cbn [mbind option_bind].
    destruct (by_domain v' (state r) !! canonical_domain name) eqn:E; [done|].
    destruct (range_of v' r) as [range|] eqn:Er; [|done].
    destruct (next_in_range _ _ _) as [a|] eqn:En; [|done]. cbn [snd state set_field].
    pose proof (next_in_range_family _ _ _ _ (shape_families _ _ Hs) Er En) as Ha.
    apply insert_keeps; [apply Hs|done| |done|done]. intros ->. rewrite is_ipv6_addr in Ha. done.
Qed.

Lemma kept_run j d calls io m r :
  0 <= j < usable -> 0 <= m -> m + count_family calls < usable -> kept j m d r ->
  exists m', kept j m' d (run_creates calls io r).
Proof.
  intros Hj. revert m r. induction calls as [|[name v'] calls IH]; intros m r Hm Hlt Hk; [by exists m|].
  unfold run_creates. cbn [foldl fst snd].
  assert (count_family ((name, v') :: calls)
    = (if Bool.eqb v' v then 1 else 0) + count_family calls) as Ec.
  { unfold count_family. cbn [List.filter snd]. destruct (Bool.eqb v' v); simpl length; lia. }
  destruct (kept_create j m d r name v' io) as (m' & Hm' & Hk'); try done.
  { unfold count_family in *. lia. }
  apply (IH m'); [lia|lia|done].
Qed.

End rotation.

Section results.
Context `{!IpNetworks, !IpNetworkLaws}.

(** A new fake address is always available, lies in the configured range and
    keeps its domain: in every state an allocator without a persistent cache
    reaches, a domain without an address of the family gets one, and the address
    maps back to the canonical domain until as many further addresses of the
    family were asked for as the range has usable ones. *)
Theorem fresh_address_kept (v : bool) (base p : Z) (n4 n6 : option IpNet)
    (r0 r : FakeIpResolver) (name : domain) (io : Io) (calls : list (domain * bool)) :
  roomy v base p -> new n4 n6 = Ok r0 -> range_of v r0 = Some (net v base p) -> rtc step r0 r ->
  by_domain v (state r) !! canonical_domain name = None ->
  count_family v calls < usable v p ->
  exists a r1, create r name v io = (Ok a, r1) /\ contains_addr (net v base p) a = true
  /\ let r2 := run_creates calls io r1 in
     lookup_domain r2 a io = (Some (canonical_domain name), r2).
Proof.
  intros Hroomy Hn Hr Hs Hd Hc. pose proof (usable_pos v base p Hroomy) as Hu.
  assert (exists k, shape v base p k r) as [k Hk].
  { apply (rtc_invariant step (fun r => exists k, shape v base p k r) r0 r); [|exists 0|done].
    - intros a b. by apply step_shape.
    - by eapply resolver_new_shape. }
  destruct (create_allocates v base p Hroomy k r name io Hk Hd) as (r1 & E1 & Hs1 & Es1).
  set (j := k mod usable v p) in *. assert (0 <= j < usable v p) as Hj
    by (apply Z.mod_pos_bound; lia).
  set (a := addr v (base + 2 + j)) in *. exists a, r1. split; [done|]. split.
  { apply contains_in; [done|]. unfold usable in Hj. lia. }
  destruct (kept_run v base p Hroomy j (canonical_domain name) calls io 0 r1) as (m' & [_ Hm]); try done.
  - split; [by rewrite Z.add_0_r, Z.mod_small|]. fold a. rewrite Es1.
    destruct (insert_mapping_spec (set_current v a (state r)) a (canonical_domain name)) as [Sa _];
      [apply set_current_consistent, Hk|]. by rewrite Sa, decide_True.
  - cbv zeta. unfold lookup_domain. fold a in Hm. by rewrite Hm.
Qed.

End results.

(** ** Examples *)

(** The documented behaviour, as a function. *)
Definition prefix_contains (n : IpNet) (a : IpAddr) : bool :=
  match n, a with
  | NetV4 b p, IpV4 x => bool_decide (Z.shiftr x (32 - p) = Z.shiftr b (32 - p))
  | NetV6 b p, IpV6 x => bool_decide (Z.shiftr x (128 - p) = Z.shiftr b (128 - p))
  | _, _ => false
  end.

Lemma prefix_contains_laws : @IpNetworkLaws prefix_contains.
Proof. by split. Qed.

(** 198.18.0.0/28: thirteen usable addresses. *)
Definition example_range : option IpNet := Some (NetV4 3323068416 28).

Definition example_resolver : FakeIpResolver :=
  mkResolver example_range None None
    (mkState (Some (IpV4 3323068417)) None (Some (IpV4 3323068431)) None ∅ ∅ ∅).

Definition no_io : Io := mkIo true true true.

Lemma fakeip_one_to_one_witness :
  let r := (@create prefix_contains example_resolver [65; 46] false no_io).2 in
  by_address (state r) !! IpV4 3323068418 = Some [97]
  /\ by_domain false (state r) !! [97] = Some (IpV4 3323068418).
Proof.
  intros r. assert (by_address (state r) !! IpV4 3323068418 = Some [97]) as Ha by done.
  split; [done|].
  destruct (@fakeip_one_to_one prefix_contains example_range None None true true example_resolver r)
    as [Hm _]; [by vm_compute|apply rtc_once, step_create|].
  apply (Hm (IpV4 3323068418) [97]), Ha.
Defined.

Lemma fresh_address_kept_witness :
  exists a r1,
  @create prefix_contains example_resolver [65; 46; 66; 46] false no_io = (Ok a, r1)
  /\ lookup_domain (H := prefix_contains)
       (run_creates (H := prefix_contains) [([67], false); ([68], true)] no_io r1) a no_io
     = (Some [97; 46; 98], run_creates (H := prefix_contains) [([67], false); ([68], true)] no_io r1).
Proof.
  destruct (@fresh_address_kept prefix_contains prefix_contains_laws false 3323068416 28
    example_range None example_resolver example_resolver [65; 46; 66; 46] no_io
    [([67], false); ([68], true)]) as (a & r1 & E & _ & Hl).
  - by vm_compute.
  - by vm_compute.
  - done.
  - done.
  - by vm_compute.
  - by vm_compute.
  - exists a, r1. split; [exact E|exact Hl].
Defined.

(** A range of two addresses has none to hand out: the address the allocator
    returns lies behind the range, and is not recognised as a fake one. *)
Lemma tiny_range_escapes :
  match @new prefix_contains (Some (NetV4 3323068416 31)) None with
  | Ok r =>
      (@create prefix_contains r [97] false no_io).1 = Ok (IpV4 3323068418)
      /\ @contains prefix_contains r (IpV4 3323068418) = false
  | Err _ => False
  end.
Proof. by vm_compute. Qed.

(** A range of one address: the shift by 32 wraps around to none. *)
Lemma single_address_broadcast :
  broadcast_address (NetV4 3323068416 32) = IpV4 U32_MAX.
Proof. done. Qed.

End FakeIp.
