(* ===== verification/FakeIpRestart.v ===== *)
(** * Fake addresses across restarts

    While the statements of the database succeed, its rows mirror the maps of the
    allocator, so an allocator that is created again from them gives every domain
    the address it had. *)

From stdpp Require Import base numbers list gmap.
From Stdlib Require Import ZArith Lia.
From S2P Require Import Prelude FakeIp.

Local Open Scope Z_scope.
Local Open Scope record_scope.

Module Restart.
Import FakeIp.

(** ** The rows of the table *)

(** The primary key and the unique constraint of [fakeip_cache]. *)
Record rows_ok (rows : list (IpAddr * domain)) : Prop := {
  primary_key : forall a d1 d2, (a, d1) ∈ rows -> (a, d2) ∈ rows -> d1 = d2;
  unique_domain : forall a1 a2 d, (a1, d) ∈ rows -> (a2, d) ∈ rows ->
    is_ipv6 a1 = is_ipv6 a2 -> a1 = a2;
}.

Lemma find_elem {A} (f : A -> bool) l x : List.find f l = Some x -> x ∈ l /\ f x = true.
Proof. intros [Hx Hf]%List.find_some. split; [by apply list_elem_of_In|done]. Qed.

Lemma find_exists {A} (f : A -> bool) l x : x ∈ l -> f x = true -> is_Some (List.find f l).
Proof.
  intros Hx%list_elem_of_In Hf. destruct (List.find f l) eqn:E; [by eexists|].
  by rewrite (List.find_none _ _ E x Hx) in Hf.
Qed.

Lemma load_by_address c a d :
  rows_ok (fakeip_cache c) ->
  Persistent.load_fakeip_by_address c a = Some d <-> (a, d) ∈ fakeip_cache c.
Proof.
  intros Hr. unfold Persistent.load_fakeip_by_address. split.
  - intros ([a' d'] & E & ->)%fmap_Some. apply find_elem in E as [Hin Hb%bool_decide_eq_true].
    simpl in *. by subst.
  - intros Hin. match goal with |- _ <$> List.find ?f _ = _ =>
      destruct (find_exists f _ _ Hin) as [[a' d'] E] end; [by apply bool_decide_eq_true|].
    rewrite E. apply find_elem in E as [Hin' Hb%bool_decide_eq_true]. simpl in *. subst a'.
    f_equal. by eapply primary_key.
Qed.

Lemma load_by_domain c a d :
  rows_ok (fakeip_cache c) ->
  Persistent.load_fakeip_by_domain c d (is_ipv6 a) = Some a <-> (a, d) ∈ fakeip_cache c.
Proof.
  intros Hr. unfold Persistent.load_fakeip_by_domain. split.
  - intros ([a' d'] & E & ->)%fmap_Some. apply find_elem in E as [Hin Hb%bool_decide_eq_true].
    simpl in *. by destruct Hb as [-> _].
  - intros Hin. match goal with |- _ <$> List.find ?f _ = _ =>
      destruct (find_exists f _ _ Hin) as [[a' d'] E] end; [by apply bool_decide_eq_true|].
    rewrite E. apply find_elem in E as [Hin' Hb%bool_decide_eq_true]. simpl in *.
    destruct Hb as [-> Hv]. f_equal. by eapply unique_domain.
Qed.

Lemma save_rows c a d a' d' :
  (a', d') ∈ fakeip_cache (Persistent.save_fakeip c a d)
  <-> (a' = a /\ d' = d)
      \/ (a' <> a /\ ~ (d' = d /\ is_ipv6 a' = is_ipv6 a) /\ (a', d') ∈ fakeip_cache c).
Proof.
  simpl. rewrite elem_of_app, list_elem_of_filter, list_elem_of_singleton. simpl. split.
  - intros [[Hn Hin]|[= -> ->]]; [|by left]. right. split; [|split; [|done]]; tauto.
  - intros [[-> ->]|(Hne & Hn & Hin)]; [by right|left]. split; [|done]. tauto.
Qed.

Lemma save_rows_ok c a d :
  rows_ok (fakeip_cache c) -> rows_ok (fakeip_cache (Persistent.save_fakeip c a d)).
Proof.
  intros [Hp Hu]. split.
  - intros a1 d1 d2 H1%save_rows H2%save_rows.
    destruct H1 as [[-> ->]|(Hn1 & _ & H1)], H2 as [[H2a ->]|(Hn2 & _ & H2)]; try done. by eapply Hp.
  - intros a1 a2 d' H1%save_rows H2%save_rows Hv.
    destruct H1 as [[-> ->]|(Hn1 & Hd1 & H1)], H2 as [[-> H2d]|(Hn2 & Hd2 & H2)]; try done.
    + exfalso. apply Hd2. by split.
    + exfalso. apply Hd1. by split.
    + by eapply Hu.
Qed.

(** ** The mirror *)

Section mirror.
Context `{!IpNetworks, !IpNetworkLaws}.

Definition roomy_net (n : IpNet) : Prop := exists v base p, n = net v base p /\ roomy v base p.

Definition all_ok : Io := mkIo true true true.

(** Calls whose statements succeed. *)
Inductive ok_step : FakeIpResolver -> FakeIpResolver -> Prop :=
| ok_create r name v : ok_step r (create r name v all_ok).2
| ok_lookup r a : ok_step r (lookup_domain r a all_ok).2
| ok_reset r : ok_step r (reset r all_ok).

(** The database holds every mapping of the allocator, with positions the next
    start accepts; it has no metadata only when it has no mapping. *)
Record mirrored (r : FakeIpResolver) (c : PersistentDnsCache) : Prop := {
  mirror_cache : persistent_cache r = Some c;
  mirror_rows : rows_ok (fakeip_cache c);
  mirror_known : forall a d, by_address (state r) !! a = Some d -> (a, d) ∈ fakeip_cache c;
  mirror_metadata : match fakeip_metadata c with
    | Some m => m = mkMetadata (inet4_range r) (inet6_range r) (current4 (state r)) (current6 (state r))
    | None => by_address (state r) = ∅ /\ fakeip_cache c = []
    end;
  mirror_current : forall v, valid_current (current_of v (state r)) (range_of v r) = true;
  mirror_last : forall v, last_of v (state r) = broadcast_address <$> range_of v r;
  mirror_in_range : forall a d, by_address (state r) !! a = Some d -> in_range (range_of (is_ipv6 a) r) a = true;
  mirror_consistent : consistent (state r);
  mirror_families : families r;
  mirror_roomy : forall v n, range_of v r = Some n -> roomy_net n;
}.

(** Every address the allocator takes lies in its range. *)
Lemma next_in_range_contained n current a :
  roomy_net n -> next_in_range n current (Some (broadcast_address n)) = Ok a ->
  contains_addr n a = true.
Proof.
  intros (v & base & p & -> & Hr). unfold next_in_range. intros (a1 & _ & E)%bind_Ok.
  destruct (_ || _) eqn:Eb.
  - pose proof (size_bound v base p Hr). destruct (Hr) as (Hp & Hb & Hw & Hm).
    replace (net_addr (net v base p)) with (addr v base) in E by (by unfold net, addr; destruct v).
    rewrite next_addr in E by lia. cbn [mbind option_bind] in E. rewrite next_addr in E by lia.
    apply Ok_inj in E as <-. apply contains_in; [done|lia].
  - apply Ok_inj in E as <-. apply orb_false_iff in Eb as [_ Eb%negb_false_iff]. done.
Qed.

(** A mapping read from the database. *)
Lemma insert_from_rows s c a d :
  consistent s -> rows_ok (fakeip_cache c) ->
  (forall a d, by_address s !! a = Some d -> (a, d) ∈ fakeip_cache c) -> (a, d) ∈ fakeip_cache c ->
  forall a' d', by_address (insert_mapping s a d) !! a' = Some d' -> (a', d') ∈ fakeip_cache c.
Proof.
  intros Hc Hr Hk Hin a' d'. destruct (insert_mapping_spec s a d Hc) as [Sa _]. rewrite Sa.
  case_decide; [intros [= <-]; by subst|]. case_decide; [done|]. apply Hk.
Qed.

(** A new mapping, in the database the moment it is in the maps. *)
Lemma insert_saved s c a d :
  consistent s -> (forall a d, by_address s !! a = Some d -> (a, d) ∈ fakeip_cache c) ->
  forall a' d', by_address (insert_mapping s a d) !! a' = Some d' ->
  (a', d') ∈ fakeip_cache (Persistent.save_fakeip c a d).
Proof.
  intros Hc Hk a' d'. destruct (insert_mapping_spec s a d Hc) as [Sa _]. rewrite Sa, save_rows.
  case_decide as Ha; [intros [= <-]; by left|]. case_decide as Hd; [done|]. intros E. right.
  split; [done|]. split; [|by apply Hk]. intros [-> Hv]. apply Hd.
  destruct Hc as [Hf _]. rewrite <- Hv. by apply Hf.
Qed.

Lemma insert_in_range r s a d :
  consistent s ->
  (forall a d, by_address s !! a = Some d -> in_range (range_of (is_ipv6 a) r) a = true) ->
  in_range (range_of (is_ipv6 a) r) a = true ->
  forall a' d', by_address (insert_mapping s a d) !! a' = Some d' ->
  in_range (range_of (is_ipv6 a') r) a' = true.
Proof.
  intros Hc Hi Ha a' d'. destruct (insert_mapping_spec s a d Hc) as [Sa _]. rewrite Sa.
  case_decide; [intros [= <-]; by subst|]. case_decide; [done|]. apply Hi.
Qed.

Lemma load_by_domain_inv c d v a :
  Persistent.load_fakeip_by_domain c d v = Some a -> (a, d) ∈ fakeip_cache c /\ is_ipv6 a = v.
Proof.
  intros ([a' d'] & E & ->)%fmap_Some. apply find_elem in E as [Hin Hb%bool_decide_eq_true].
  simpl in *. by destruct Hb as [-> ->].
Qed.

Lemma in_range_family r v a :
  families r -> in_range (range_of v r) a = true -> is_ipv6 a = v.
Proof.
  intros [Hf _] Ha. destruct (range_of v r) as [n|] eqn:E; [|done]. apply Hf in E. simpl in Ha.
  destruct n, a; simpl in *; try done; by rewrite ?contains_v4_v6, ?contains_v6_v4 in Ha.
Qed.

(** Taking a mapping over from the database. *)
Lemma mirrored_insert r c a d :
  mirrored r c -> (a, d) ∈ fakeip_cache c -> in_range (range_of (is_ipv6 a) r) a = true ->
  mirrored (r <| state := insert_mapping (state r) a d |>) c.
Proof.
  intros [] Hin Ha.
  assert (forall v, current_of v (insert_mapping (state r) a d) = current_of v (state r)
    /\ last_of v (insert_mapping (state r) a d) = last_of v (state r)) as Hrest
    by (intros v; apply insert_mapping_rest).
  split; try done; cbn [state set_field].
  - by eapply insert_from_rows.
  - destruct (fakeip_metadata c); [|by destruct mirror_metadata0 as [_ E]; rewrite E in Hin; inversion Hin].
    destruct (Hrest false) as [E4 _], (Hrest true) as [E6 _]. simpl in E4, E6. simpl. by rewrite E4, E6.
  - intros v. destruct (Hrest v) as [-> _]. apply mirror_current0.
  - intros v. destruct (Hrest v) as [_ ->]. apply mirror_last0.
  - by apply (insert_in_range r (state r) a d).
  - by apply insert_mapping_consistent.
  - destruct mirror_families0 as [Hr Hc]. split; [done|]. intros v' a'. simpl.
    destruct (Hrest v') as [-> _]. apply Hc.
Qed.

(** Allocating a new one. *)
Lemma mirrored_allocate r c name v n a :
  mirrored r c -> range_of v r = Some n ->
  next_in_range n (current_of v (state r)) (last_of v (state r)) = Ok a ->
  let d := canonical_domain name in
  let s := insert_mapping (set_current v a (state r)) a d in
  let r' := r <| state := s |> <| persistent_cache ::= fmap (save_created all_ok a d
    (mkMetadata (inet4_range r) (inet6_range r) (current4 s) (current6 s))) |> in
  families r' -> exists c', mirrored r' c'.
Proof.
  intros Hm Hr En d s r' Hf.
  pose proof (next_in_range_family _ _ _ _ (mirror_families _ _ Hm) Hr En) as Hv.
  rewrite (mirror_last _ _ Hm), Hr in En.
  pose proof (next_in_range_contained _ _ _ (mirror_roomy _ _ Hm _ _ Hr) En) as Hc.
  destruct Hm. destruct (set_current_maps v a (state r)) as [Ea Ed].
  pose proof (set_current_consistent v a _ mirror_consistent0) as Hcon.
  exists (save_created all_ok a d
    (mkMetadata (inet4_range r) (inet6_range r) (current4 s) (current6 s)) c).
  split; try done; unfold r'; cbn [state persistent_cache set_field]; unfold s.
  - by rewrite mirror_cache0.
  - by apply save_rows_ok.
  - apply (insert_saved (set_current v a (state r))); [done|]. by rewrite Ea.
  - intros v'. destruct (insert_mapping_rest (set_current v a (state r)) a d v') as [-> _].
    specialize (mirror_current0 v'). destruct (decide (v' = v)) as [->|Hne].
    + unfold valid_current, range_of in *. destruct v; simpl in *; by rewrite Hr.
    + destruct v, v'; done.
  - intros v'. destruct (insert_mapping_rest (set_current v a (state r)) a d v') as [_ ->].
    rewrite set_current_last. apply mirror_last0.
  - apply (insert_in_range r (set_current v a (state r))); [done|by rewrite Ea|].
    rewrite Hv, Hr. exact Hc.
  - by apply insert_mapping_consistent.
Qed.

Lemma mirrored_create r c name v : mirrored r c -> exists c', mirrored (create r name v all_ok).2 c'.
Proof.
  intros Hm. pose proof (create_families r name v all_ok (mirror_families _ _ Hm)) as Hf. revert Hf.
  unfold create. case_match; [by exists c|]. unfold cached. rewrite (mirror_cache _ _ Hm).
  cbn [mbind option_bind loads all_ok].
  destruct (Persistent.load_fakeip_by_domain c (canonical_domain name) v) as [a|] eqn:El.
  - apply load_by_domain_inv in El as [Hin Hv]. cbn [mbind option_bind].
    destruct (in_range (range_of v r) a) eqn:Ei.
    + intros _. exists c. apply mirrored_insert; [done|done|by rewrite Hv].
    + destruct (range_of v r) as [n|] eqn:Er; [|by exists c].
      destruct (next_in_range n _ _) as [a'|] eqn:En; [|by exists c]. by apply (mirrored_allocate r c name v n).
  - cbn [mbind option_bind]. destruct (range_of v r) as [n|] eqn:Er; [|by exists c].
    destruct (next_in_range n _ _) as [a'|] eqn:En; [|by exists c]. by apply (mirrored_allocate r c name v n).
Qed.

Lemma mirrored_lookup r c a : mirrored r c -> mirrored (lookup_domain r a all_ok).2 c.
Proof.
  intros Hm. unfold lookup_domain. case_match; [done|]. rewrite (mirror_cache _ _ Hm).
  cbn [mbind option_bind loads all_ok].
  destruct (Persistent.load_fakeip_by_address c a) as [d|] eqn:El; [|done].
  destruct (contains r a) eqn:Ec; [|done]. apply load_by_address in El; [|apply Hm].
  apply mirrored_insert; [done|done|]. apply orb_true_iff in Ec as [Ei|Ei].
  - by rewrite (in_range_family r false a) by (done || apply Hm).
  - by rewrite (in_range_family r true a) by (done || apply Hm).
Qed.

Lemma mirrored_reset r c : mirrored r c -> mirrored (reset r all_ok) (Persistent.clear_fakeip c).
Proof.
  intros []. split; try done; simpl.
  - by rewrite mirror_cache0.
  - split; intros * Hin; inversion Hin.
  - apply empty_consistent.
  - destruct mirror_families0 as [Hr Hc]. split; [done|]. intros v a.
    destruct (reset_rest r all_ok v) as [-> _]. apply Hc.
Qed.

Lemma mirrored_step r r' : (exists c, mirrored r c) -> ok_step r r' -> exists c, mirrored r' c.
Proof.
  intros [c Hm] Hs. revert Hm. destruct Hs; intros Hm;
    [by eapply mirrored_create|eexists; by apply mirrored_lookup|eexists; by apply mirrored_reset].
Qed.

(** A start from a database that satisfies its constraints. *)
Lemma roomy_current n v base p :
  n = net v base p -> roomy v base p ->
  exists a, next (net_addr n) = Some a /\ contains_addr n a = true.
Proof.
  intros -> Hr. pose proof (size_bound v base p Hr). destruct (Hr) as (Hp & Hb & Hw & _).
  replace (net_addr (net v base p)) with (addr v base) by (by unfold net, addr; destruct v).
  rewrite next_addr by lia. eexists. split; [done|]. apply contains_in; [done|lia].
Qed.

Lemma fresh_current range :
  (forall n, range = Some n -> roomy_net n) ->
  valid_current (range ≫= fun n => next (net_addr n)) range = true.
Proof.
  intros Hr. destruct range as [n|]; [|done]. destruct (Hr n eq_refl) as (v & base & p & En & Hn).
  destruct (roomy_current n v base p En Hn) as (a & Ea & Hc). simpl. by rewrite Ea.
Qed.

(** A start keeps the database when its metadata fit, and empties it otherwise. *)
Lemma new_with_cache_cases n4 n6 c r :
  new_with_cache n4 n6 (Some c) true true = Ok r ->
  (forall n, n4 = Some n \/ n6 = Some n -> roomy_net n) ->
  exists c' c4 c6,
  r = mkResolver n4 n6 (Some c')
        (mkState c4 c6 (broadcast_address <$> n4) (broadcast_address <$> n6) ∅ ∅ ∅)
  /\ valid_current c4 n4 = true /\ valid_current c6 n6 = true
  /\ fakeip_metadata c' = Some (mkMetadata n4 n6 c4 c6)
  /\ (c' = c \/ fakeip_cache c' = [])
  /\ (forall (v : bool) n, (if v then n6 else n4) = Some n -> is_ipv6 (net_addr n) = v).
Proof.
  intros Hn Hroomy.
  pose proof (fresh_current n4 ltac:(eauto)) as V4. pose proof (fresh_current n6 ltac:(eauto)) as V6.
  revert Hn. unfold new_with_cache.
  destruct (from_option (fun n => negb (is_v4_net n)) false n4) eqn:E4; [by destruct n4, n6|].
  destruct (from_option is_v4_net false n6) eqn:E6; [by destruct n4, n6|].
  assert (forall (v : bool) n, (if v then n6 else n4) = Some n -> is_ipv6 (net_addr n) = v) as Hf.
  { intros [] n E; simplify_eq; simpl in *; unfold is_v4_net, is_ipv6 in *.
    - by rewrite E6.
    - by apply negb_false_iff in E4 as ->. }
  intros Hn. assert (exists c' c4 c6, r = mkResolver n4 n6 (Some c')
      (mkState c4 c6 (broadcast_address <$> n4) (broadcast_address <$> n6) ∅ ∅ ∅)
    /\ valid_current c4 n4 = true /\ valid_current c6 n6 = true
    /\ fakeip_metadata c' = Some (mkMetadata n4 n6 c4 c6)
    /\ (c' = c \/ fakeip_cache c' = [])) as (c' & c4 & c6 & H1 & H2 & H3 & H4 & H5);
    [|by exists c', c4, c6].
  unfold Persistent.load_fakeip_metadata in Hn.
  destruct (fakeip_metadata c) as [m|] eqn:Em.
  - destruct (_ && _) eqn:Ev in Hn.
    + apply andb_prop in Ev as [Ev W6]. apply andb_prop in Ev as [Ev W4].
      apply andb_prop in Ev as [R4%bool_decide_eq_true R6%bool_decide_eq_true].
      exists c, (meta_current4 m), (meta_current6 m).
      assert (m = mkMetadata n4 n6 (meta_current4 m) (meta_current6 m)) as Hm
        by (destruct m; simpl in *; congruence).
      destruct n4, n6; try done; apply Ok_inj in Hn as <-; rewrite Em, <- Hm; eauto 10.
    + destruct n4, n6; try done; apply Ok_inj in Hn as <-; eexists _, _, _; eauto 10.
  - destruct n4, n6; try done; apply Ok_inj in Hn as <-; eexists _, _, _; eauto 10.
Qed.

Lemma valid_current_family current (n : option IpNet) (v : bool) a :
  (forall n', n = Some n' -> is_ipv6 (net_addr n') = v) ->
  valid_current current n = true -> current = Some a -> is_ipv6 a = v.
Proof.
  intros Hn Hv ->. destruct n as [n|]; [|done]. specialize (Hn n eq_refl). simpl in Hv.
  destruct n, a; simpl in *; try done; by rewrite ?contains_v4_v6, ?contains_v6_v4 in Hv.
Qed.

Lemma mirrored_new n4 n6 c r :
  new_with_cache n4 n6 (Some c) true true = Ok r -> rows_ok (fakeip_cache c) ->
  (forall n, n4 = Some n \/ n6 = Some n -> roomy_net n) -> exists c', mirrored r c'.
Proof.
  intros Hn Hr Hroomy.
  destruct (new_with_cache_cases _ _ _ _ Hn Hroomy) as (c' & c4 & c6 & -> & V4 & V6 & Em & Hc & Hf).
  exists c'. split; try done; simpl.
  - destruct Hc as [-> | ->]; [done|]. split; intros * Hin; inversion Hin.
  - by rewrite Em.
  - by intros [].
  - by intros [].
  - apply empty_consistent.
  - split; [exact Hf|]. intros [] a Ha; simpl in Ha.
    + by eapply (valid_current_family c6 n6 true); [apply (Hf true)|..].
    + by eapply (valid_current_family c4 n4 false); [apply (Hf false)|..].
  - intros [] n E; simpl in E; eauto.
Qed.

(** The next start from the database of a running allocator accepts it. *)
Lemma restart_eq r c :
  mirrored r c -> by_address (state r) <> ∅ ->
  exists r1, new_with_cache (inet4_range r) (inet6_range r) (Some c) true true = Ok r1
  /\ persistent_cache r1 = Some c /\ by_address (state r1) = ∅
  /\ (forall v, by_domain v (state r1) = ∅) /\ (forall v, range_of v r1 = range_of v r).
Proof.
  intros Hm Hne. assert (inet4_range r <> None \/ inet6_range r <> None) as Hsome.
  { apply map_choose in Hne as (a & d & Ea). apply (mirror_in_range _ _ Hm) in Ea.
    unfold range_of in Ea. destruct (is_ipv6 a); [right|left]; intros E; by rewrite E in Ea. }
  destruct Hm. unfold new_with_cache, Persistent.load_fakeip_metadata.
  destruct (fakeip_metadata c) as [m|]; [|by destruct mirror_metadata0].
  subst m. cbn [meta_inet4_range meta_inet6_range meta_current4 meta_current6].
  pose proof (mirror_current0 false) as V4. pose proof (mirror_current0 true) as V6. simpl in V4, V6.
  destruct mirror_families0 as [Hf _]. pose proof (Hf false) as F4. pose proof (Hf true) as F6.
  unfold range_of in F4, F6.
  assert (from_option (fun n => negb (is_v4_net n)) false (inet4_range r) = false) as ->.
  { destruct (inet4_range r) as [n|]; [|done]. exact (F4 n eq_refl). }
  assert (from_option is_v4_net false (inet6_range r) = false) as ->.
  { destruct (inet6_range r) as [n|]; [|done]. specialize (F6 n eq_refl).
    unfold is_ipv6 in F6. by apply negb_true_iff in F6. }
  rewrite V4, V6, !bool_decide_true by done. cbn [andb].
  assert (exists x, (match inet4_range r, inet6_range r with None, None => None | _, _ => Some tt end) = Some x) as [x Hx]
    by (destruct (inet4_range r), (inet6_range r); try (by eexists); by destruct Hsome).
  unfold range_of. destruct (inet4_range r), (inet6_range r); try done;
    (eexists; split; [reflexivity|]); repeat (split; [done|]); (split; [by intros []|]); by intros [].
Qed.

(** C17: Restarting does not move domains.  The ranges are networks of four
    addresses at least, the database keeps its keys unique and its statements
    succeed, and the allocator is created again, from the database of another
    and with the same ranges: then every domain that had an address is given
    the same address, and the address is mapped back to the domain. *)
Theorem fakeip_survives_restart (n4 n6 : option IpNet) (c : PersistentDnsCache)
    (r0 r : FakeIpResolver) (name : domain) (v : bool) (a : IpAddr) :
  rows_ok (fakeip_cache c) -> (forall n, n4 = Some n \/ n6 = Some n -> roomy_net n) ->
  new_with_cache n4 n6 (Some c) true true = Ok r0 -> rtc ok_step r0 r ->
  by_domain v (state r) !! canonical_domain name = Some a ->
  exists r1, new_with_cache (inet4_range r) (inet6_range r) (persistent_cache r) true true = Ok r1
  /\ (create r1 name v all_ok).1 = Ok a
  /\ (lookup_domain r1 a all_ok).1 = Some (canonical_domain name).
Proof.
  intros Hrows Hroomy Hn Hs Hd.
  assert (exists c', mirrored r c') as [c' Hm].
  { apply (rtc_invariant ok_step (fun r => exists c, mirrored r c) r0 r); [|by eapply mirrored_new|done].
    intros x y. apply mirrored_step. }
  destruct (domain_known _ (mirror_consistent _ _ Hm) _ _ _ Hd) as [Hv Ha].
  destruct (restart_eq r c' Hm) as (r1 & E1 & Ec & Ea & Ed & Er).
  { intros E. by rewrite E, lookup_empty in Ha. }
  rewrite (mirror_cache _ _ Hm). exists r1. split; [done|].
  pose proof (mirror_known _ _ Hm _ _ Ha) as Hin. pose proof (mirror_in_range _ _ Hm _ _ Ha) as Hi.
  split.
  - unfold create, cached. rewrite Ed, lookup_empty, Ec. cbn [mbind option_bind loads all_ok].
    rewrite <- Hv. rewrite (proj2 (load_by_domain c' a _ (mirror_rows _ _ Hm)) Hin).
    cbn [mbind option_bind]. by rewrite Er, Hi.
  - unfold lookup_domain. rewrite Ea, lookup_empty, Ec. cbn [mbind option_bind loads all_ok].
    rewrite (proj2 (load_by_address c' a _ (mirror_rows _ _ Hm)) Hin).
    assert (contains r1 a = true) as ->; [|done]. unfold contains.
    rewrite <- (Er (is_ipv6 a)) in Hi. unfold range_of in Hi.
    destruct (is_ipv6 a); rewrite Hi; [apply orb_true_r|done].
Qed.

End mirror.

(** 198.18.0.0/28 with an empty database. *)
Definition example_domain : domain := [101; 120; 46; 116; 101; 115; 116].

Definition example_started : FakeIpResolver :=
  match @new_with_cache prefix_contains example_range None (Some (mkCache [] None)) true true with
  | Ok r => r
  | Err _ => example_resolver
  end.

Lemma fakeip_survives_restart_witness :
  let r := (@create prefix_contains example_started example_domain false all_ok).2 in
  exists r1,
  @new_with_cache prefix_contains (inet4_range r) (inet6_range r) (persistent_cache r) true true = Ok r1
  /\ (@create prefix_contains r1 example_domain false all_ok).1 = Ok (IpV4 3323068418).
Proof.
  destruct (@fakeip_survives_restart prefix_contains prefix_contains_laws example_range None
    (mkCache [] None) example_started
    (@create prefix_contains example_started example_domain false all_ok).2
    example_domain false (IpV4 3323068418)) as (r1 & E1 & E2 & _).
  - split; intros * Hin; inversion Hin.
  - intros n [[= <-]|[=]]. exists false, 3323068416, 28. by vm_compute.
  - by vm_compute.
  - apply rtc_once, ok_create.
  - by vm_compute.
  - exists r1. split; [exact E1|exact E2].
Defined.

End Restart.
