(* ===== verification/DnsRules.v ===== *)
(** * DNS rules

    The matchers and actions of [dns/rule.rs] that choose the server of a
    query: conditions on the query and its context, on the addresses of the
    answer, and rule-sets of the router.  Names and messages are those of the
    hickory crates, of which the names are the class [DnsNames]; resolvers are
    records of functions. *)

From stdpp Require Import base numbers list gmap strings.
From Stdlib Require Import ZArith Lia.
From S2P Require Import FakeIp Prelude OvpnText Text IpText SrsWire SrsIpSet SocksAddr SrsSet SrsTrie SrsDomain SrsAdGuard SrsRule RouteRule RouteMatch RouteMeaning Router.

Local Open Scope Z_scope.
Local Open Scope record_scope.

(** ** Messages *)

(** A domain name with its text. *)
Class DnsNames := {
  Name : Type;
  to_utf8 : Name -> text;
  name_eqb : Name -> Name -> bool;
}.

Inductive SvcParamValue : Type :=
| Ipv4Hint (hints : list Z)
| Ipv6Hint (hints : list Z)
| OtherParam.

Inductive RData : Type :=
| RA (address : Z)
| RAAAA (address : Z)
| RHTTPS (svc_params : list SvcParamValue)
| ROther (data : list Z).

Global Instance SvcParamValue_eq_dec : EqDecision SvcParamValue.
Proof. solve_decision. Defined.
Global Instance RData_eq_dec : EqDecision RData.
Proof. solve_decision. Defined.

Section messages.
Context {DN : DnsNames}.

Record DnsRecord : Type := mkRecord { rr_name : Name; rr_class : Z; rr_ttl : Z; rr_data : RData }.

Record Query : Type := mkQuery { query_name : Name; query_type : Z }.

(** The options of EDNS that the rules look at: the client subnet, with its
    address and prefix length, and the bit [DO]. *)
Record Edns : Type := mkEdns { edns_subnet : option (IpAddr * Z); dnssec_ok : bool }.

Record Message : Type := mkMessage {
  m_id : Z;
  m_op_code : Z;
  m_response : bool;
  m_authoritative : bool;
  m_recursion_desired : bool;
  m_recursion_available : bool;
  m_response_code : Z;
  m_queries : list Query;
  m_answers : list DnsRecord;
  m_authorities : list DnsRecord;
  m_additionals : list DnsRecord;
  m_edns : option Edns;
}.

End messages.

Definition TYPE_A : Z := 1.
Definition TYPE_AAAA : Z := 28.
Definition TYPE_HTTPS : Z := 65.
Definition CLASS_IN : Z := 1.
Definition NO_ERROR : Z := 0.
Definition REFUSED : Z := 5.
Definition MILLIS : Z := 1000000.

(** The kinds of [io::Error] that are told apart; a missing server, which
    panics, is [Panicked]. *)
Inductive IoError : Type :=
  Unsupported | TimedOut | PermissionDenied | InvalidData | InvalidInput | NotFound | IoOther | Panicked.

Global Instance IoError_eq_dec : EqDecision IoError.
Proof. solve_decision. Defined.

(** ** Options of a lookup *)

Section options.
Context {NX : IpNetOps}.

Record LookupOptions : Type := mkLookup {
  strategy : FakeIp.DomainStrategy;
  timeout : option Z;
  disable_cache : bool;
  disable_optimistic_cache : bool;
  rewrite_ttl : option Z;
  client_subnet : option IpNet;
  remove_client_subnet : bool;
}.

(** [DnsLookupOverride] has the same fields. *)
Record DnsLookupOverride : Type := mkLookupOverride {
  ov_timeout : option Z;
  ov_strategy : FakeIp.DomainStrategy;
  ov_disable_cache : bool;
  ov_disable_optimistic_cache : bool;
  ov_rewrite_ttl : option Z;
  ov_client_subnet : option IpNet;
  ov_remove_client_subnet : bool;
}.

Definition apply_override (o : DnsLookupOverride) (options : LookupOptions) : LookupOptions :=
  let '(subnet, remove) :=
    if ov_remove_client_subnet o then (None, true)
    else match ov_client_subnet o with
         | Some s => (Some s, false)
         | None => (client_subnet options, remove_client_subnet options)
         end in
  mkLookup
    (match ov_strategy o with FakeIp.AsIs => strategy options | s => s end)
    (match ov_timeout o with Some t => Some t | None => timeout options end)
    (disable_cache options || ov_disable_cache o)
    (disable_optimistic_cache options || ov_disable_optimistic_cache o)
    (match ov_rewrite_ttl o with Some t => Some t | None => rewrite_ttl options end)
    subnet remove.

Definition with_strategy (options : LookupOptions) (s : FakeIp.DomainStrategy) : LookupOptions :=
  mkLookup s (timeout options) (disable_cache options) (disable_optimistic_cache options) (rewrite_ttl options)
    (client_subnet options) (remove_client_subnet options).

Definition force_query_strategy (options : LookupOptions) (qtype : option Z) : LookupOptions :=
  if decide (qtype = Some TYPE_A) then with_strategy options FakeIp.Ipv4Only
  else if decide (qtype = Some TYPE_AAAA) then with_strategy options FakeIp.Ipv6Only
  else options.

End options.

Module Dns.
Import Cond Rules Match.

Section dns.
Context {RX : RegexOps} {NX : IpNetOps} {DN : DnsNames}.

(** ** Messages of the resolver *)

Definition addresses_of_data (d : RData) : list IpAddr :=
  match d with
  | RA a => [IpV4 a]
  | RAAAA a => [IpV6 a]
  | RHTTPS params =>
      concat ((fun p => match p with
                        | Ipv4Hint hints => IpV4 <$> hints
                        | Ipv6Hint hints => IpV6 <$> hints
                        | OtherParam => []
                        end) <$> params)
  | ROther _ => []
  end.

Definition dns_response_addresses (response : Message) : list IpAddr :=
  if decide (m_response_code response <> NO_ERROR) then []
  else concat ((fun r => addresses_of_data (rr_data r)) <$> m_answers response).

(** [Message::new] of a response to [request]. *)
Definition response_to (request : Message) : Message :=
  mkMessage (m_id request) (m_op_code request) true false false false NO_ERROR (m_queries request) [] [] [] None.

Definition refused_response (request : Message) : Message :=
  mkMessage (m_id request) (m_op_code request) true false (m_recursion_desired request) false REFUSED
    (m_queries request) [] [] [] None.

Definition STAR : Z := 42.

Definition ends_with (s suffix : text) : bool := bool_decide (is_Some (strip_suffix suffix s)).

Definition rewrite_record (r : DnsRecord) (name : Name) : DnsRecord :=
  match strip_prefix [STAR] (to_utf8 (rr_name r)) with
  | Some suffix =>
      if ends_with (to_utf8 name) suffix then mkRecord name (rr_class r) (rr_ttl r) (rr_data r) else r
  | None => r
  end.

Definition rewrite_records (l : list DnsRecord) (name : option Name) : list DnsRecord :=
  (fun r => match name with Some n => rewrite_record r n | None => r end) <$> l.

Record PredefinedAction : Type := mkPredefined {
  p_response_code : Z;
  p_answers : list DnsRecord;
  p_authorities : list DnsRecord;
  p_additionals : list DnsRecord;
}.

Definition predefined_response (p : PredefinedAction) (request : Message) : Message :=
  let name := query_name <$> head (m_queries request) in
  mkMessage (m_id request) (m_op_code request) true true true true (p_response_code p) (m_queries request)
    (rewrite_records (p_answers p) name) (rewrite_records (p_authorities p) name)
    (rewrite_records (p_additionals p) name) None.

(** ** Actions *)

Inductive DnsAction : Type :=
| DRoute (server : text) (speculative : bool) (options : DnsLookupOverride)
| DRouteOptions (options : DnsLookupOverride)
| DEvaluate (server : text) (tag : option text) (speculative : bool) (options : DnsLookupOverride)
| DRespond
| DReject (method : text) (no_drop : bool)
| DPredefined (p : PredefinedAction).

(** [DnsRejectAction::should_drop] at the time [now], with the recent times. *)
Definition should_drop (method : text) (no_drop : bool) (now : Z) (recent : list Z) : bool * list Z :=
  if decide (method = Flood.DROP) then (true, recent)
  else if no_drop then (false, recent)
  else
    let recent := Flood.expire now recent ++ [now] in
    (bool_decide (50 < length recent)%nat, recent).

(** ** Matchers *)

Definition canonical (domain : text) : text := to_ascii_lowercase (trim_end_matches DOT domain).

Record DomainMatcher : Type := mkDomains {
  dm_exact : list text;
  dm_suffix : list (text * bool);
  dm_keyword : list text;
  dm_regex : list Regex;
}.

Definition domain_is_empty (d : DomainMatcher) : bool :=
  negb (nonempty (dm_exact d) || nonempty (dm_suffix d) || nonempty (dm_keyword d) || nonempty (dm_regex d)).

Definition domain_matches (d : DomainMatcher) (domain : text) : bool :=
  if domain_is_empty d then true
  else
    let domain := canonical domain in
    bool_decide (domain ∈ dm_exact d)
    || existsb (fun '(suffix, subdomains_only) =>
         (negb subdomains_only && bool_decide (domain = suffix))
         || match strip_suffix suffix domain with
            | Some prefix => ends_with_byte DOT prefix
            | None => false
            end) (dm_suffix d)
    || existsb (fun keyword => contains domain keyword) (dm_keyword d)
    || existsb (fun regex => is_match regex domain) (dm_regex d).

Record AddressMatcher : Type := mkAddresses { am_cidrs : list IpNet; am_private : bool; am_any : bool }.

Definition address_is_empty (a : AddressMatcher) : bool :=
  negb (am_any a) && negb (am_private a) && negb (nonempty (am_cidrs a)).

Definition address_matches (a : AddressMatcher) (response : Message) (accept_empty : bool) : bool :=
  if address_is_empty a then true
  else
    let addresses := dns_response_addresses response in
    if negb (nonempty addresses) && accept_empty then true
    else
      (am_any a && nonempty addresses)
      || (am_private a && existsb Socks.is_private_address addresses)
      || (nonempty (am_cidrs a)
          && existsb (fun address => existsb (fun prefix => net_contains prefix address) (am_cidrs a)) addresses).

(** The route conditions of a DNS rule, without those on the destination. *)
Definition context_raw (raw : RawDefaultRule) : RawDefaultRule :=
  mkRaw (r_inbound raw) 0 (r_network raw) (r_auth_user raw) (r_protocol raw) (r_client raw) [] [] [] []
    (r_source_ip_cidr raw) (r_source_ip_is_private raw) [] false (r_source_port raw) (r_source_port_range raw)
    (r_port raw) (r_port_range raw) (r_process_name raw) (r_process_path raw) (r_process_path_regex raw)
    (r_package_name raw) (r_package_name_regex raw) (r_user raw) (r_user_id raw) (r_clash_mode raw)
    (r_network_type raw) (r_network_is_expensive raw) (r_network_is_constrained raw) (r_wifi_ssid raw)
    (r_wifi_bssid raw) (r_interface_address raw) (r_network_interface_address raw)
    (r_default_interface_address raw) (r_source_mac_address raw) (r_source_hostname raw) [] [] false false.

Definition context_compile (raw : RawDefaultRule) : result RouteError DefaultRule := from_raw (context_raw raw) [].

Inductive DnsRuleError : Type := Invalid | MissingServer | UnsupportedField.

(** [DomainMatcher::compile] of the lists of a rule. *)
Definition compile_domains (exact suffix keyword regex : list text) : result DnsRuleError DomainMatcher :=
  if existsb (fun d : text => bool_decide (d = [])) exact then Err Invalid
  else if existsb (fun d : text => bool_decide (d = [])) suffix then Err Invalid
  else
    regex ← map_err (fun _ => Invalid) (compile_regexes regex);
    Ok (mkDomains (canonical <$> exact)
      ((fun value => (canonical (default value (strip_prefix [DOT] value)), starts_with_byte DOT value)) <$> suffix)
      (to_ascii_lowercase <$> keyword) regex).

(** What is known of a query. *)
Record QueryMetadata : Type := mkQueryMetadata {
  qm_query_type : option Z;
  qm_client_subnet : option (IpAddr * Z);
  qm_dnssec : bool;
  qm_clash_mode : option text;
  qm_route : Metadata;
}.

Definition for_domain (domain : text) (qtype : option Z) (context : option Metadata) (clash_mode : option text)
    : QueryMetadata :=
  let route := default metadata_default context in
  mkQueryMetadata qtype None false clash_mode
    (route <| md_domain := canonical domain |> <| md_query_type := qtype |>
           <| md_clash_mode := default [] clash_mode |>).

Definition with_message (q : QueryMetadata) (request : Message) : QueryMetadata :=
  mkQueryMetadata (qm_query_type q) (m_edns request ≫= edns_subnet)
    (match m_edns request with Some e => dnssec_ok e | None => false end) (qm_clash_mode q) (qm_route q).

Definition from_request (request : Message) (context : option Metadata) (clash_mode : option text) : QueryMetadata :=
  let domain := default [] ((fun q => to_utf8 (query_name q)) <$> head (m_queries request)) in
  with_message (for_domain domain (query_type <$> head (m_queries request)) context clash_mode) request.

(** A matcher of the legacy mode; in that mode no rule matches a response by
    its tag.  A preferred server is its [preferred_domain]. *)
Record QueryMatcher : Type := mkMatcher {
  qx_domain : DomainMatcher;
  qx_context : DefaultRule;
  qx_outbounds : list text;
  qx_outbound_any : bool;
  qx_rule_sets : list text;
  qx_match_source : bool;
  qx_ip_version : option Z;
  qx_query_types : list Z;
  qx_client_subnets : list IpNet;
  qx_query_dnssec : bool;
  qx_clash_mode : text;
  qx_preferred_by : list (text -> option bool);
  qx_legacy_address : option AddressMatcher;
  qx_accept_empty : bool;
}.

(** A subnet of the query inside one of the subnets of the rule. *)
Definition subnet_matches (subnets : list IpNet) (subnet : option (IpAddr * Z)) : bool :=
  match subnet with
  | Some (address, len) =>
      match net_new address len with
      | Some query_subnet =>
          existsb (fun prefix => bool_decide (net_prefix_len prefix <= net_prefix_len query_subnet)
                                 && net_contains prefix (net_addr query_subnet)) subnets
      | None => false
      end
  | None => false
  end.

Definition matches_query_context (q : QueryMatcher) (domain : text) (m : QueryMetadata) : bool :=
  default_matches ∅ (qx_context q) (qm_route m)
  && (negb (nonempty (qx_outbounds q)) || bool_decide (md_outbound (qm_route m) ∈ qx_outbounds q)
      || (qx_outbound_any q && nonempty (md_outbound (qm_route m))))
  && match qx_ip_version q with
     | Some version =>
         bool_decide ((version = 4 /\ qm_query_type m = Some TYPE_A)
                      \/ (version = 6 /\ qm_query_type m = Some TYPE_AAAA))
     | None => true
     end
  && (negb (nonempty (qx_query_types q))
      || match qm_query_type m with Some t => bool_decide (t ∈ qx_query_types q) | None => false end)
  && (negb (nonempty (qx_client_subnets q)) || subnet_matches (qx_client_subnets q) (qm_client_subnet m))
  && (negb (qx_query_dnssec q) || qm_dnssec m)
  && (negb (nonempty (qx_clash_mode q))
      || match qm_clash_mode m with Some mode => eq_ignore_ascii_case mode (qx_clash_mode q) | None => false end)
  && (negb (nonempty (qx_preferred_by q))
      || existsb (fun preferred => bool_decide (preferred domain = Some true)) (qx_preferred_by q)).

(** ** Rule-sets of the router *)

(** The groups of a DNS rule around its rule-sets. *)
Definition destination_outer (required satisfied : bool) : RuleMatch :=
  mkMatch true (if required then MATCH_DESTINATION_ADDRESS else 0)
    (if required && satisfied then MATCH_DESTINATION_ADDRESS else 0).

Definition matches_rule_sets (sets : store) (tags : list text) (m : Metadata)
    (match_source required satisfied accept_empty : bool) : bool :=
  existsb (fun tag => match sets !! tag with
    | Some rules => matches_with_outer_accept_empty rules m (destination_outer required satisfied) match_source accept_empty
    | None => false
    end) tags.

(** The metadata of a rule-set in force is that of its rules. *)
Definition rule_sets_contain_destination_ip (sets : store) (tags : list text) : bool :=
  existsb (fun tag => match sets !! tag with
    | Some rules => contains_ip_cidr_rule (rule_set_metadata rules)
    | None => false
    end) tags.

Definition rule_sets_legacy_match_possibility (sets : store) (tags : list text) (m : Metadata)
    (match_source required can_match can_miss : bool) : bool * bool :=
  let matched := matches_rule_sets sets tags m match_source required (negb can_miss) false in
  if matched || match_source then (matched, negb matched)
  else
    let matched := can_match && matches_rule_sets sets tags m match_source required true false in
    (matched || rule_sets_contain_destination_ip sets tags, true).

(** ** What can be said before the answer *)

Record MatchPossibility : Type := mkPossibility { can_match : bool; can_miss : bool }.

Definition fixed (value : bool) : MatchPossibility := mkPossibility value (negb value).
Definition unknown : MatchPossibility := mkPossibility true true.
Definition and (a b : MatchPossibility) : MatchPossibility :=
  mkPossibility (can_match a && can_match b) (can_miss a || can_miss b).
Definition or (a b : MatchPossibility) : MatchPossibility :=
  mkPossibility (can_match a || can_match b) (can_miss a && can_miss b).
Definition inverted_if (a : MatchPossibility) (invert : bool) : MatchPossibility :=
  if invert then mkPossibility (can_miss a) (can_match a) else a.

Section router.
(** The router, once it is configured, with its rule-sets. *)
Context (router : option store).

Definition destination_possibility (q : QueryMatcher) (domain : text) : MatchPossibility :=
  let domain_configured := negb (domain_is_empty (qx_domain q)) in
  if domain_configured && domain_matches (qx_domain q) domain then fixed true
  else if bool_decide (is_Some (qx_legacy_address q)) then unknown
  else if domain_configured then fixed false
  else fixed true.

Definition destination_required (q : QueryMatcher) : bool :=
  negb (domain_is_empty (qx_domain q)) || bool_decide (is_Some (qx_legacy_address q)).

Definition matcher_possibility (q : QueryMatcher) (domain : text) (m : QueryMetadata) : MatchPossibility :=
  if negb (matches_query_context q domain m) then fixed false
  else
    let destination := destination_possibility q domain in
    match qx_rule_sets q with
    | [] => destination
    | tags =>
        match router with
        | None => fixed false
        | Some sets =>
            let '(matching, missing) :=
              rule_sets_legacy_match_possibility sets tags (qm_route m) (qx_match_source q) (destination_required q)
                (can_match destination) (can_miss destination) in
            mkPossibility matching missing
        end
    end.

Definition matcher_matches_response (q : QueryMatcher) (domain : text) (m : QueryMetadata) (response : Message) : bool :=
  if negb (matches_query_context q domain m) then false
  else
    let address_matches :=
      match qx_legacy_address q with Some a => address_matches a response false | None => false end in
    let required := destination_required q in
    let satisfied :=
      (negb (domain_is_empty (qx_domain q)) && domain_matches (qx_domain q) domain) || address_matches in
    match qx_rule_sets q with
    | [] => negb required || satisfied
    | tags =>
        match router with
        | None => false
        | Some sets =>
            matches_rule_sets sets tags
              ((qm_route m) <| md_destination_addresses := dns_response_addresses response |>)
              (qx_match_source q) required satisfied (qx_accept_empty q)
        end
    end.

Definition matcher_address_limit (q : QueryMatcher) : bool :=
  if bool_decide (is_Some (qx_legacy_address q)) then true
  else if qx_match_source q || negb (nonempty (qx_rule_sets q)) then false
  else match router with
       | Some sets => rule_sets_contain_destination_ip sets (qx_rule_sets q)
       | None => false
       end.

Inductive DnsRule : Type :=
| DDefault (matcher : QueryMatcher) (invert : bool) (action : DnsAction)
| DLogical (mode : LogicalMode) (rules : list DnsRule) (invert : bool) (action : DnsAction).

Definition rule_action (rule : DnsRule) : DnsAction :=
  match rule with DDefault _ _ a => a | DLogical _ _ _ a => a end.

Fixpoint legacy_match_possibility (rule : DnsRule) (domain : text) (m : QueryMetadata) : MatchPossibility :=
  match rule with
  | DDefault q invert _ => inverted_if (matcher_possibility q domain m) invert
  | DLogical mode rules invert _ =>
      let each := (fun rule => legacy_match_possibility rule domain m) <$> rules in
      inverted_if (match mode with
                   | And => foldl and (fixed true) each
                   | Or => foldl or (fixed false) each
                   end) invert
  end.

Definition legacy_pre_matches (rule : DnsRule) (domain : text) (m : QueryMetadata) : bool :=
  can_match (legacy_match_possibility rule domain m).

Fixpoint legacy_matches_response (rule : DnsRule) (domain : text) (m : QueryMetadata) (response : Message) : bool :=
  match rule with
  | DDefault q invert _ => xorb (matcher_matches_response q domain m response) invert
  | DLogical mode rules invert _ =>
      xorb (match mode with
            | And => forallb (fun rule => legacy_matches_response rule domain m response) rules
            | Or => existsb (fun rule => legacy_matches_response rule domain m response) rules
            end) invert
  end.

Fixpoint has_legacy_address_limit (rule : DnsRule) : bool :=
  match rule with
  | DDefault q _ _ => matcher_address_limit q
  | DLogical _ rules _ _ => existsb has_legacy_address_limit rules
  end.

End router.
End dns.
End Dns.
