(* ===== verification/DnsLegacy.v ===== *)
(** * Choosing a server by the answer

    In the legacy mode of [dns/rule.rs] a rule may have conditions on the
    addresses of the answer that it leads to.  Before a server is asked, the
    rules are evaluated to what is possible; after it has answered, the rule
    decides whether the answer stands, and otherwise the rules behind it are
    tried.  This file models the exchange with the cache of rejected answers
    ([dns/persistent.rs]) and shows when the evaluation before the answer is
    right, and that the answer that is returned satisfies the rule it was
    asked for. *)

From stdpp Require Import base numbers list gmap strings.
From Stdlib Require Import ZArith Lia Btauto.
From S2P Require Import FakeIp Prelude OvpnText Text IpText SrsWire SrsIpSet SocksAddr SrsSet SrsTrie SrsDomain SrsAdGuard SrsRule RouteRule RouteMatch RouteMeaning Router DnsRules.

Local Open Scope Z_scope.
Local Open Scope record_scope.

Module Legacy.
Import Match Rules Meaning Dns.

Section sound.
Context {RX : RegexOps} {NX : IpNetOps} {DN : DnsNames}.

(** ** Rule-sets before and after the answer *)

(** The rules below a rule are not inverted. *)
Fixpoint upright (rule : HeadlessRule) : bool :=
  match rule with
  | HDefault h => negb (r_invert (raw (h_base h)))
  | HLogical _ rules invert => negb invert && forallb upright rules
  end.

Lemma outer_flags required satisfied :
  destination_outer required satisfied = flags true false false false false required satisfied false false.
Proof. by destruct required, satisfied. Qed.

(** The addresses of the answer in the metadata of the query. *)
Definition answered (m : Metadata) (addresses : list IpAddr) : Metadata := m <| md_destination_addresses := addresses |>.

Section rule_sets.
Context (m : Metadata) (addresses : list IpAddr) (empty : bool) (Hm : md_destination_addresses m = []).

Lemma destination_found_grows B ms :
  destination_found B m ms false = true -> destination_found B (answered m addresses) ms empty = true.
Proof.
  unfold destination_found. change (domain (answered m addresses)) with (domain m).
  rewrite !orb_true_iff. intros [H|H]; [by left|right]. apply andb_true_iff in H as [-> H]. cbn [andb].
  unfold matches_destination_ip_address in *. change (destination_ip (answered m addresses)) with (destination_ip m).
  destruct (destination_ip m); [|by rewrite Hm in H]. apply orb_true_iff in H as [->|H]; [done|by cbn in H].
Qed.

(** What a rule finds without the answer it finds with it. *)
Lemma evaluate_grows h ms :
  exists o w0 f0 w1 f1 w2 f2 f2' w3 f3,
    headless_evaluate h m ms false = flags o w0 f0 w1 f1 w2 f2 w3 f3
    /\ headless_evaluate h (answered m addresses) ms empty = flags o w0 f0 w1 f1 w2 f2' w3 f3
    /\ (f2 = true -> f2' = true).
Proof.
  rewrite !headless_flags_general. do 10 eexists. split; [reflexivity|]. split; [reflexivity|].
  rewrite !orb_true_iff. intros [[[H|H]|H]|H]; [|by left; left; right|by left; right|by right].
  left; left; left. apply andb_true_iff in H as [-> H]. by apply destination_found_grows.
Qed.

Lemma matches_grows rule ms :
  upright rule = true -> matches_with_ip_source_accept_empty rule m ms false = true ->
  matches_with_ip_source_accept_empty rule (answered m addresses) ms empty = true.
Proof.
  induction rule as [h|mode rules invert IH] using headless_rule_ind; cbn [upright matches_with_ip_source_accept_empty].
  - unfold headless_default_matches. intros ->%negb_true_iff. rewrite !xorb_false_r.
    destruct (evaluate_grows h ms) as (o & w0 & f0 & w1 & f1 & w2 & f2 & f2' & w3 & f3 & -> & -> & H).
    rewrite !done_flags, !andb_true_iff. unfold holds. rewrite !orb_true_iff. tauto.
  - intros [->%negb_true_iff Hu]%andb_true_iff. rewrite !xorb_false_r.
    destruct mode; [rewrite !forallb_forall|rewrite !existsb_exists].
    + intros Hall r Hr. rewrite Forall_forall in IH. rewrite forallb_forall in Hu.
      apply IH; auto. by apply list_elem_of_In.
    + intros (r & Hr & E). exists r. split; [done|]. rewrite Forall_forall in IH. rewrite forallb_forall in Hu.
      apply IH; auto. by apply list_elem_of_In.
Qed.

Lemma outer_grows rules ms required sat sat' :
  forallb upright rules = true -> (sat = true -> sat' = true) ->
  matches_with_outer_accept_empty rules m (destination_outer required sat) ms false = true ->
  matches_with_outer_accept_empty rules (answered m addresses) (destination_outer required sat') ms empty = true.
Proof.
  intros Hu Hs. unfold matches_with_outer_accept_empty.
  assert (done_ (destination_outer required sat) = true -> done_ (destination_outer required sat') = true) as Ho.
  { rewrite !outer_flags, !done_flags, !andb_true_iff. unfold holds. rewrite !orb_true_iff. tauto. }
  assert (done_ (destination_outer required sat)
      && existsb (fun rule => matches_with_ip_source_accept_empty rule m ms false) rules = true ->
    done_ (destination_outer required sat')
      && existsb (fun rule => matches_with_ip_source_accept_empty rule (answered m addresses) ms empty) rules = true) as Heach.
  { rewrite !andb_true_iff, !existsb_exists. intros [H (r & Hr & E)]. split; [by apply Ho|]. exists r. split; [done|].
    apply matches_grows; [|done]. rewrite forallb_forall in Hu. by apply Hu. }
  destruct rules as [|[h|] [|]]; try done. cbn [forallb upright] in Hu. rewrite andb_true_r in Hu.
  apply negb_true_iff in Hu as ->.
  destruct (evaluate_grows h ms) as (o & w0 & f0 & w1 & f1 & w2 & f2 & f2' & w3 & f3 & -> & -> & H).
  rewrite !outer_flags, !done_merge_flags, !andb_true_iff. unfold holds. rewrite !orb_true_iff, !andb_true_iff. tauto.
Qed.

(** A rule without prefixes, or with prefixes for the source, does not look at
    the answer. *)
Lemma evaluate_stays h ms :
  has_destination_ip (h_base h) = false \/ ms = true ->
  headless_evaluate h (answered m addresses) ms empty = headless_evaluate h m ms false.
Proof.
  intros H. rewrite !headless_flags_general.
  assert (destination_found (h_base h) (answered m addresses) ms empty = destination_found (h_base h) m ms false) as ->.
  { unfold destination_found. destruct H as [-> | ->]; rewrite ?andb_false_r; reflexivity. }
  reflexivity.
Qed.

Lemma outer_stays rules ms required sat :
  Forall (fun h => has_destination_ip (h_base h) = false \/ ms = true) (concat (leaves_of <$> rules)) ->
  matches_with_outer_accept_empty rules (answered m addresses) (destination_outer required sat) ms empty
  = matches_with_outer_accept_empty rules m (destination_outer required sat) ms false.
Proof. intros H. apply outer_leaves. eapply Forall_impl; [exact H|]. intros h. apply evaluate_stays. Qed.

End rule_sets.

(** When the query itself went to an address, as one that was hijacked did, the
    rule-sets look at that address and never at the answer. *)
Lemma answer_ignored sets tags m address answer1 answer2 ms required sat empty :
  destination_ip m = Some address ->
  matches_rule_sets sets tags (answered m answer1) ms required sat empty
  = matches_rule_sets sets tags (answered m answer2) ms required sat empty.
Proof.
  intros Hd. unfold matches_rule_sets. induction tags as [|t tags IH]; [done|]. cbn [existsb]. rewrite IH.
  f_equal. destruct (sets !! t) as [rules|]; [|done]. apply outer_leaves, Forall_forall. intros h _.
  rewrite !headless_flags_general. unfold destination_found, matches_destination_ip_address.
  change (destination_ip (answered m answer1)) with (destination_ip m).
  change (destination_ip (answered m answer2)) with (destination_ip m).
  rewrite Hd, !(bool_decide_false (Some address = None)), andb_false_r by done. reflexivity.
Qed.

(** A rule that refers to a rule-set loses nothing when its destination is
    satisfied. *)
Lemma outer_satisfied rules m ms required sat sat' e :
  (sat = true -> sat' = true) ->
  matches_with_outer_accept_empty rules m (destination_outer required sat) ms e = true ->
  matches_with_outer_accept_empty rules m (destination_outer required sat') ms e = true.
Proof.
  intros Hs. unfold matches_with_outer_accept_empty.
  assert (done_ (destination_outer required sat) = true -> done_ (destination_outer required sat') = true) as Ho.
  { rewrite !outer_flags, !done_flags, !andb_true_iff. unfold holds. rewrite !orb_true_iff. tauto. }
  destruct rules as [|[h|] [|]]; try (rewrite !andb_true_iff; tauto).
  destruct (r_invert _); [rewrite !andb_true_iff; tauto|].
  rewrite headless_flags_general, !outer_flags, !done_merge_flags, !andb_true_iff. unfold holds.
  rewrite !orb_true_iff, !andb_true_iff. tauto.
Qed.

Lemma leaf_no_ip h :
  leaf_ok h -> contains_ip_cidr_rule (default_metadata h) = false -> has_destination_ip (h_base h) = false.
Proof.
  intros (hr & Hc & _)%leaf_base. cbn. intros H. unfold has_destination_ip. rewrite H, (c_raw _ _ _ Hc). done.
Qed.

(** A rule-set whose answer-dependent rules are not inverted. *)
Definition set_ok (rules : list HeadlessRule) : Prop :=
  Forall leaf_ok (concat (leaves_of <$> rules))
  /\ (contains_ip_cidr_rule (rule_set_metadata rules) = true -> forallb upright rules = true).

Definition sets_ok (sets : store) (tags : list text) : Prop :=
  forall tag rules, tag ∈ tags -> sets !! tag = Some rules -> set_ok rules.

Section sets.
Context (sets : store) (tags : list text) (Hsets : sets_ok sets tags).
Context (m : Metadata) (addresses : list IpAddr) (empty : bool) (Hm : md_destination_addresses m = []).

Lemma sets_exists f g :
  (forall tag rules, tag ∈ tags -> sets !! tag = Some rules -> f rules = true -> g rules = true) ->
  existsb (fun tag => match sets !! tag with Some rules => f rules | None => false end) tags = true ->
  existsb (fun tag => match sets !! tag with Some rules => g rules | None => false end) tags = true.
Proof.
  clear. intros H. rewrite !existsb_exists. intros (tag & Hin & E). exists tag. split; [done|].
  destruct (sets !! tag) eqn:El; [|done]. eapply H; [by apply list_elem_of_In|done..].
Qed.

Lemma leaves_without_ip rules ms :
  set_ok rules -> contains_ip_cidr_rule (rule_set_metadata rules) = false \/ ms = true ->
  Forall (fun h => has_destination_ip (h_base h) = false \/ ms = true) (concat (leaves_of <$> rules)).
Proof.
  intros [Hl _] H. rewrite Forall_forall in Hl |- *. intros h Hh. destruct H as [H|H]; [left|by right].
  apply leaf_no_ip; [by apply Hl|]. by eapply (category_absent contains_ip_cidr_rule).
Qed.

(** Without the answer the rule-sets find no more than with it. *)
Lemma rule_sets_grow ms required sat sat' :
  (sat = true -> sat' = true) -> matches_rule_sets sets tags m ms required sat false = true ->
  matches_rule_sets sets tags (answered m addresses) ms required sat' empty = true.
Proof.
  intros Hs. apply sets_exists. intros tag rules Hin El Hf.
  destruct (contains_ip_cidr_rule (rule_set_metadata rules)) eqn:Ec.
  - eapply outer_grows; [done| |exact Hs|exact Hf]. by apply (Hsets tag rules Hin El).
  - rewrite outer_stays by (apply leaves_without_ip; [by eapply Hsets|by left]). by eapply outer_satisfied.
Qed.

Lemma rule_sets_satisfied ms required sat sat' e :
  (sat = true -> sat' = true) -> matches_rule_sets sets tags m ms required sat e = true ->
  matches_rule_sets sets tags m ms required sat' e = true.
Proof. clear Hsets Hm. intros Hs. apply sets_exists. intros tag rules Hin El. by apply outer_satisfied. Qed.

(** Rule-sets without prefixes do not look at the answer. *)
Lemma rule_sets_stay ms required sat :
  rule_sets_contain_destination_ip sets tags = false ->
  matches_rule_sets sets tags (answered m addresses) ms required sat empty
  = matches_rule_sets sets tags m ms required sat false.
Proof.
  clear Hm. intros H. apply eq_true_iff_eq. split; apply sets_exists; intros tag rules Hin El;
    (rewrite outer_stays; [done|]); (apply leaves_without_ip; [by eapply Hsets|]); left;
    (apply not_true_iff_false; intros Hc; apply not_true_iff_false in H; apply H;
     apply existsb_exists; exists tag; split; [by apply list_elem_of_In|by rewrite El]).
Qed.

(** Rule-sets with prefixes for the source do not look at it either. *)
Lemma rule_sets_source required sat :
  matches_rule_sets sets tags (answered m addresses) true required sat empty
  = matches_rule_sets sets tags m true required sat false.
Proof.
  clear Hm Hsets. apply eq_true_iff_eq. split; apply sets_exists; intros tag rules Hin El;
    (rewrite outer_stays; [done|]); apply Forall_forall; by right.
Qed.

(** A destination that is not required says nothing. *)
Lemma rule_sets_unrequired ms sat sat' m' e :
  matches_rule_sets sets tags m' ms false sat e = matches_rule_sets sets tags m' ms false sat' e.
Proof. done. Qed.

End sets.

(** ** The evaluation before the answer is right *)

(** A rule says what is possible: what it excludes does not happen. *)
Definition right (p : MatchPossibility) (b : bool) : Prop :=
  (can_match p = false -> b = false) /\ (can_miss p = false -> b = true).

Lemma right_fixed b : right (fixed b) b.
Proof. by destruct b. Qed.

Lemma right_inverted p b i : right p b -> right (inverted_if p i) (xorb b i).
Proof. intros [H1 H2]. destruct i; [|by rewrite xorb_false_r]. split; cbn; intros H; [rewrite H2|rewrite H1]; done. Qed.

Lemma right_and p q b c : right p b -> right q c -> right (and p q) (b && c).
Proof.
  intros [H1 H2] [H3 H4]. split; cbn.
  - intros [H|H]%andb_false_iff; [by rewrite H1|]. rewrite H3 by done. apply andb_false_r.
  - intros [Ha Hb]%orb_false_iff. by rewrite H2, H4.
Qed.

Lemma right_or p q b c : right p b -> right q c -> right (or p q) (b || c).
Proof.
  intros [H1 H2] [H3 H4]. split; cbn.
  - intros [Ha Hb]%orb_false_iff. by rewrite H1, H3.
  - intros [H|H]%andb_false_iff; [by rewrite H2|]. rewrite H4 by done. apply orb_true_r.
Qed.

(** [exact]: nothing is left open. *)
Definition exact (p : MatchPossibility) : Prop := can_miss p = negb (can_match p).

Lemma exact_right p b : exact p -> right p b -> b = can_match p.
Proof. unfold exact. intros E [H1 H2]. rewrite E in H2. destruct (can_match p); [by apply H2|by apply H1]. Qed.

Section router.
Context (router : option store).

(** The conditions on a matcher under which its evaluation is right: a matcher
    with prefixes for the source has no condition on the addresses, and its
    rule-sets do not invert conditions on addresses. *)
Definition matcher_ok (q : QueryMatcher) : Prop :=
  (qx_rule_sets q <> [] -> qx_match_source q = true -> qx_legacy_address q = None)
  /\ (forall sets, router = Some sets -> qx_match_source q = false -> sets_ok sets (qx_rule_sets q)).

(** The destination of a matcher before and after the answer. *)
Lemma destination_right q domain a :
  let satisfied := (negb (domain_is_empty (qx_domain q)) && domain_matches (qx_domain q) domain)
    || match qx_legacy_address q with Some _ => a | None => false end in
  let p := destination_possibility q domain in
  (destination_required q = true -> right p satisfied)
  /\ (destination_required q = false -> p = fixed true)
  /\ (qx_legacy_address q = None -> exact p).
Proof.
  intros satisfied p. unfold p, destination_possibility, destination_required, satisfied.
  destruct (domain_is_empty (qx_domain q)); cbn [negb andb orb].
  - destruct (qx_legacy_address q); cbn; [|done]. split; [|done]. done.
  - destruct (domain_matches (qx_domain q) domain); cbn [orb]; [done|].
    destruct (qx_legacy_address q); cbn; done.
Qed.

(** Whether the rule-sets match, from what is known of the destination. *)
Lemma sets_right sets tags m addresses ms required p satisfied empty :
  md_destination_addresses m = [] -> (ms = false -> sets_ok sets tags) -> (ms = true -> exact p) -> right p satisfied ->
  let '(matching, missing) := rule_sets_legacy_match_possibility sets tags m ms required (can_match p) (can_miss p) in
  right (mkPossibility matching missing)
    (matches_rule_sets sets tags (answered m addresses) ms required satisfied empty).
Proof.
  intros Hm Hsets Hexact Hright. pose proof Hright as [Hno Hyes]. unfold rule_sets_legacy_match_possibility.
  destruct (matches_rule_sets sets tags m ms required (negb (can_miss p)) false) eqn:EA; cbn [orb].
  - split; cbn; [done|]. intros _. assert (negb (can_miss p) = true -> satisfied = true) as Hs
      by (intros H%negb_true_iff; by apply Hyes).
    destruct ms; [|by eapply rule_sets_grow; [apply Hsets|..]].
    rewrite rule_sets_source. by eapply rule_sets_satisfied.
  - destruct ms.
    + split; cbn; [|done]. intros _. rewrite rule_sets_source, (exact_right p satisfied) by auto.
      assert (can_match p = negb (can_miss p)) as -> by (rewrite Hexact by done; by rewrite negb_involutive). exact EA.
    + split; cbn; [|done]. intros [H1 H2]%orb_false_iff. rewrite rule_sets_stay by auto.
      apply not_true_iff_false. intros HP. destruct satisfied.
      * destruct (can_match p) eqn:Ec; [|by specialize (Hno eq_refl)]. cbn in H1. congruence.
      * apply not_true_iff_false in EA. apply EA. by eapply rule_sets_satisfied; [|exact HP].
Qed.

(** Without conditions on addresses nothing is left open. *)
Lemma sets_exact sets tags m ms required p :
  exact p -> ms = true \/ rule_sets_contain_destination_ip sets tags = false ->
  let '(matching, missing) := rule_sets_legacy_match_possibility sets tags m ms required (can_match p) (can_miss p) in
  exact (mkPossibility matching missing).
Proof.
  intros He Hn. unfold rule_sets_legacy_match_possibility.
  destruct (matches_rule_sets sets tags m ms required (negb (can_miss p)) false) eqn:EA; [done|].
  destruct ms; [done|]. destruct Hn as [Hn|Hn]; [done|]. cbn [orb]. rewrite Hn, orb_false_r. unfold exact. cbn.
  destruct (can_match p) eqn:Ec; [|done]. cbn. rewrite He, Ec in EA. cbn in EA. by rewrite EA.
Qed.

Lemma matcher_right q domain m response :
  matcher_ok q -> md_destination_addresses (qm_route m) = [] ->
  right (matcher_possibility router q domain m) (matcher_matches_response router q domain m response).
Proof.
  intros [Hsrc Hsets] Hm. unfold matcher_possibility, matcher_matches_response.
  destruct (matches_query_context q domain m); cbn [negb]; [|done].
  set (a := match qx_legacy_address q with Some a => address_matches a response false | None => false end).
  assert (a = match qx_legacy_address q with Some _ => a | None => false end) as Ha
    by (unfold a; by destruct (qx_legacy_address q)).
  set (sat := _ || a). destruct (destination_right q domain a) as (Hr & Hf & He). rewrite <-Ha in Hr. fold sat in Hr.
  destruct (qx_rule_sets q) as [|t tags] eqn:Et.
  { destruct (destination_required q); cbn [negb orb]; [by apply Hr|]. rewrite Hf by done. apply right_fixed. }
  destruct router as [sets|]; [|done]. cbv zeta.
  destruct (destination_required q) eqn:Er.
  - pose proof (sets_right sets (t :: tags) (qm_route m) (dns_response_addresses response) (qx_match_source q) true
      (destination_possibility q domain) sat (qx_accept_empty q) Hm ltac:(intros; by apply Hsets)
      ltac:(intros; by apply He, Hsrc) ltac:(by apply Hr)) as H.
    by destruct (rule_sets_legacy_match_possibility _ _ _ _ _ _ _).
  - rewrite Hf by done. rewrite (rule_sets_unrequired _ _ _ _ true).
    pose proof (sets_right sets (t :: tags) (qm_route m) (dns_response_addresses response) (qx_match_source q) false
      (fixed true) true (qx_accept_empty q) Hm ltac:(intros; by apply Hsets) ltac:(done) ltac:(done)) as H.
    by destruct (rule_sets_legacy_match_possibility _ _ _ _ _ _ _).
Qed.

Lemma matcher_exact q domain m : matcher_address_limit router q = false -> exact (matcher_possibility router q domain m).
Proof.
  unfold matcher_address_limit, matcher_possibility.
  case_bool_decide as Hl; [done|]. assert (qx_legacy_address q = None) as Hn by (destruct (qx_legacy_address q); [by destruct Hl|done]).
  intros Hlim. destruct (matches_query_context q domain m); cbn [negb]; [|done].
  destruct (destination_right q domain false) as (_ & _ & He). specialize (He Hn).
  destruct (qx_rule_sets q) as [|t tags] eqn:Et; [done|]. destruct router as [sets|]; [|done]. cbv zeta.
  pose proof (sets_exact sets (t :: tags) (qm_route m) (qx_match_source q) (destination_required q)
    (destination_possibility q domain) He) as H.
  destruct (rule_sets_legacy_match_possibility _ _ _ _ _ _ _). apply H.
  cbn in Hlim. destruct (qx_match_source q); [by left|by right].
Qed.

Fixpoint rule_ok (rule : DnsRule) : Prop :=
  match rule with
  | DDefault q _ _ => matcher_ok q
  | DLogical _ rules _ _ => foldr (fun rule P => rule_ok rule /\ P) True rules
  end.

Lemma dns_rule_ind (P : DnsRule -> Prop) :
  (forall q invert action, P (DDefault q invert action)) ->
  (forall mode rules invert action, Forall P rules -> P (DLogical mode rules invert action)) -> forall rule, P rule.
Proof.
  intros Hd Hl. fix IH 1. intros [q invert action|mode rules invert action]; [apply Hd|]. apply Hl.
  induction rules as [|r rules IHr]; constructor; [apply IH|apply IHr].
Qed.

Lemma fold_right_of (op : MatchPossibility -> MatchPossibility -> MatchPossibility) (f : bool -> bool -> bool)
    (g : DnsRule -> MatchPossibility) (h : DnsRule -> bool) rules p b :
  (forall p q b c, right p b -> right q c -> right (op p q) (f b c)) ->
  Forall (fun rule => right (g rule) (h rule)) rules -> right p b ->
  right (foldl op p (g <$> rules)) (foldl f b (h <$> rules)).
Proof. intros Hop H. revert p b. induction H; intros p b Hp; [done|]. cbn. auto. Qed.

Lemma fold_exact (op : MatchPossibility -> MatchPossibility -> MatchPossibility) l p :
  (forall p q, exact p -> exact q -> exact (op p q)) -> Forall exact l -> exact p -> exact (foldl op p l).
Proof. intros Hop H. revert p. induction H; intros p Hp; [done|]. cbn. auto. Qed.

Lemma foldl_andb {A} (h : A -> bool) l b : foldl andb b (h <$> l) = b && forallb h l.
Proof. revert b. induction l as [|x l IH]; intros b; cbn; [by rewrite andb_true_r|]. by rewrite IH, andb_assoc. Qed.

Lemma foldl_orb {A} (h : A -> bool) l b : foldl orb b (h <$> l) = b || existsb h l.
Proof. revert b. induction l as [|x l IH]; intros b; cbn; [by rewrite orb_false_r|]. by rewrite IH, orb_assoc. Qed.

Lemma legacy_right rule domain m response :
  rule_ok rule -> md_destination_addresses (qm_route m) = [] ->
  right (legacy_match_possibility router rule domain m) (legacy_matches_response router rule domain m response).
Proof.
  intros Hok Hm. induction rule as [q invert action|mode rules invert action IH] using dns_rule_ind.
  - cbn. apply right_inverted. by apply matcher_right.
  - cbn [legacy_match_possibility legacy_matches_response]. apply right_inverted.
    assert (Forall (fun rule => right (legacy_match_possibility router rule domain m)
      (legacy_matches_response router rule domain m response)) rules) as Hall.
    { cbn in Hok. induction IH as [|r rules Hr _ IHr]; constructor; destruct Hok as [? ?]; auto. }
    destruct mode.
    + rewrite <-(andb_true_l (forallb _ _)), <-foldl_andb. by apply fold_right_of; [apply right_and| |].
    + rewrite <-(orb_false_l (existsb _ _)), <-foldl_orb. by apply fold_right_of; [apply right_or| |].
Qed.

Lemma exact_and p q : exact p -> exact q -> exact (and p q).
Proof. unfold exact. cbn. intros -> ->. by rewrite negb_andb. Qed.

Lemma exact_or p q : exact p -> exact q -> exact (or p q).
Proof. unfold exact. cbn. intros -> ->. by rewrite negb_orb. Qed.

Lemma legacy_exact rule domain m :
  has_legacy_address_limit router rule = false -> exact (legacy_match_possibility router rule domain m).
Proof.
  assert (forall p i, exact p -> exact (inverted_if p i)) as Hinv.
  { intros p [] He; [|done]. unfold exact in *. cbn. by rewrite He, negb_involutive. }
  induction rule as [q invert action|mode rules invert action IH] using dns_rule_ind; intros Hl; apply Hinv.
  - by apply matcher_exact.
  - assert (Forall exact ((fun rule => legacy_match_possibility router rule domain m) <$> rules)) as Hall.
    { cbn [has_legacy_address_limit] in Hl. induction IH as [|r rules Hr _ IHr]; [constructor|].
      cbn in Hl. apply orb_false_iff in Hl as [H1 H2]. constructor; auto. }
    destruct mode; (apply fold_exact; [|done|done]); [apply exact_and|apply exact_or].
Qed.

(** C16: The evaluation of a DNS rule before the answer is right, for a query
    that carries no destination addresses of an earlier resolution, and under
    two conditions on the rule and, for a logical rule, on those below it.  A
    rule that applies the prefixes of its rule-sets to the source has no
    conditions of its own on the addresses of the answer.  Of the rule-sets of
    any other rule, which were compiled, those that contain a prefix contain no
    inverted rule at all.  Then a rule that is said to be unable to match does
    not match whatever the answer is, one that is said to be unable to miss
    matches every answer, and a rule without conditions on addresses is decided
    before any server is asked. *)
Theorem possibility_right (rule : DnsRule) (domain : text) (m : QueryMetadata) (response : Message) :
  rule_ok rule -> md_destination_addresses (qm_route m) = [] ->
  let p := legacy_match_possibility router rule domain m in
  let matched := legacy_matches_response router rule domain m response in
  (can_match p = false -> matched = false) /\ (can_miss p = false -> matched = true)
  /\ (has_legacy_address_limit router rule = false -> matched = can_match p).
Proof.
  intros Hok Hm p matched. pose proof (legacy_right rule domain m response Hok Hm) as Hr.
  split; [|split]; [apply Hr..|]. intros He%(legacy_exact _ domain m). by apply exact_right.
Qed.

End router.

End sound.
(** ** Examples *)

Module LegacyExample.

Definition names : DnsNames := {|
  Name := text;
  to_utf8 n := n;
  name_eqb a b := bool_decide (a = b);
|}.

Notation rule_set := (@HeadlessRule literal IpSet.Example.ops).

(** A rule of a rule-set for prefixes, maybe inverted, or for the type A. *)
Definition headless (types : list Z) (prefixes : list text) (invert : bool) : RawHeadlessRule :=
  mkRawHeadless types [] [] [] [] [] [] [] prefixes [] [] [] [] [] [] [] [] [] []
    false false [] [] ∅ [] invert.

Definition compiled (raw : RawHeadlessRule) : list rule_set :=
  match @compile_with_matchers literal IpSet.Example.ops raw None None with
  | Ok h => [HDefault h]
  | Err _ => []
  end.

(** [10.0.0.0/8] *)
Definition TEN : text := [49; 48; 46; 48; 46; 48; 46; 48; 47; 56].

Definition sets : @store literal IpSet.Example.ops :=
  {[ [1] := compiled (headless [] [TEN] false); [2] := compiled (headless [] [TEN] true);
     [3] := compiled (headless [TYPE_A] [] false) ]}.

Definition no_conditions : RawDefaultRule :=
  mkRaw [] 0 [] [] [] [] [] [] [] [] [] false [] false [] [] [] [] [] [] [] [] [] [] [] []
    [] false false [] [] ∅ ∅ [] [] [] [] [] false false.

Definition context : @DefaultRule literal IpSet.Example.ops :=
  match @context_compile literal IpSet.Example.ops no_conditions with
  | Ok rule => rule
  | Err _ => mkDefault no_conditions [] [] [] [] [] [] [] ∅ ∅ [] []
  end.

(** A rule with rule-sets and a condition on the addresses of the answer. *)
Definition matcher (tags : list text) (source : bool) (addresses : option (@AddressMatcher IpSet.Example.ops))
    : @QueryMatcher literal IpSet.Example.ops :=
  mkMatcher (mkDomains [] [] [] []) context [] false tags source None [] [] false [] [] addresses false.

Definition action : @DnsAction IpSet.Example.ops names :=
  DRoute [115] false (mkLookupOverride None FakeIp.AsIs false false None None false).

Definition request (qtype : Z) : @Message names :=
  mkMessage 1 0 false false true false NO_ERROR [mkQuery (DN := names) [97] qtype] [] [] [] None.

Definition response (address : Z) : @Message names :=
  mkMessage 1 0 true false true true NO_ERROR [mkQuery (DN := names) [97] TYPE_A]
    [mkRecord (DN := names) [97] CLASS_IN 60 (RA address)] [] [] None.

Definition query : QueryMetadata := @from_request names (request TYPE_A) None None.

(** [10.0.0.1] *)
Definition INSIDE : Z := 167772161.

(** An inverted rule of a rule-set matches before the answer, so a rule that
    inverts it is not tried, although the answer satisfies it. *)
Lemma inverted_set_excluded :
  let rule := DDefault (matcher [[2]] false None) true action in
  legacy_pre_matches (Some sets) rule [97] query = false
  /\ legacy_matches_response (Some sets) rule [97] query (response INSIDE) = true.
Proof. split; reflexivity. Qed.

(** With rule-sets for the source, the condition on the answer is taken for
    one that fails. *)
Lemma source_sets_excluded :
  let rule := DDefault (matcher [[3]] true (Some (mkAddresses [] false true))) false action in
  legacy_pre_matches (Some sets) rule [97] query = false
  /\ legacy_matches_response (Some sets) rule [97] query (response INSIDE) = true.
Proof. split; reflexivity. Qed.

Lemma sets_leaf raw : Forall leaf_ok (concat (leaves_of <$> compiled raw)).
Proof.
  unfold compiled. destruct (compile_with_matchers raw None None) as [h|] eqn:E; [|constructor].
  constructor; [|constructor]. by exists raw, None, None.
Qed.

Lemma example_ok addresses : matcher_ok (Some sets) (matcher [[1]; [3]] false addresses).
Proof.
  split; [done|]. intros s [= <-] _ tag rules Ht.
  apply elem_of_cons in Ht as [->|[->|[]%not_elem_of_nil]%elem_of_cons].
  - change (sets !! [1]) with (Some (compiled (headless [] [TEN] false))). intros [= <-].
    split; [apply sets_leaf|]. done.
  - change (sets !! [3]) with (Some (compiled (headless [TYPE_A] [] false))). intros [= <-].
    split; [apply sets_leaf|]. done.
Qed.

End LegacyExample.

(** A rule for [10.0.0.0/8] or the type A, before and after an answer. *)
Lemma possibility_right_witness :
  let rule := DDefault (LegacyExample.matcher [[1]; [3]] false None) false LegacyExample.action in
  let matched := legacy_matches_response (Some LegacyExample.sets) rule [97] LegacyExample.query
    (LegacyExample.response LegacyExample.INSIDE) in
  can_miss (legacy_match_possibility (Some LegacyExample.sets) rule [97] LegacyExample.query) = false /\ matched = true.
Proof.
  intros rule matched.
  assert (can_miss (legacy_match_possibility (Some LegacyExample.sets) rule [97] LegacyExample.query) = false) as Hc
    by reflexivity.
  split; [done|].
  exact (proj1 (proj2 (possibility_right (Some LegacyExample.sets) rule [97] LegacyExample.query
    (LegacyExample.response LegacyExample.INSIDE) (LegacyExample.example_ok None) eq_refl)) Hc).
Defined.

End Legacy.
