(* ===== verification/DnsExchange.v ===== *)
(** * The exchange of a query in the legacy mode

    [exchange_legacy] of [dns/rule.rs]: the rules are walked until one sends
    the query to a server, the answer is held against the rule, and the walk
    goes on behind it when the answer does not stand.  Rejected answers are
    remembered in the table [rdrc_cache] of [dns/persistent.rs]. *)

From stdpp Require Import base numbers list gmap strings.
From Stdlib Require Import ZArith Lia.
From S2P Require Import FakeIp Prelude OvpnText Text IpText SrsWire SrsIpSet SocksAddr SrsSet SrsTrie SrsDomain SrsAdGuard SrsRule RouteRule RouteMatch RouteMeaning Router DnsRules DnsLegacy.

Local Open Scope Z_scope.
Local Open Scope record_scope.

Definition I64_MAX : Z := 9223372036854775807.
Definition NANOS_PER_SECOND : Z := 1000000000.

(** ** The cache of rejected answers *)

Module Rdrc.

(** Server, name and type of a query, with the second at which a row expires. *)
Definition rows : Type := gmap (text * text * Z) Z.

Definition seconds (now : Z) : result () Z :=
  if decide (now < 0) then Err tt
  else if decide (I64_MAX < now / NANOS_PER_SECOND) then Err tt
  else Ok (now / NANOS_PER_SECOND).

Definition load_rdrc (t : rows) (key : text * text * Z) (now : Z) : result () bool * rows :=
  match seconds now with
  | Err e => (Err e, t)
  | Ok now =>
      match t !! key with
      | Some expires_at => if decide (expires_at <= now) then (Ok false, delete key t) else (Ok true, t)
      | None => (Ok false, t)
      end
  end.

Definition save_rdrc (t : rows) (key : text * text * Z) (now timeout : Z) : result () rows :=
  expires_at ← seconds (now + timeout); Ok (<[key := expires_at]> t).

End Rdrc.

Module Exchange.
Import Dns.

Section exchange.
Context {RX : RegexOps} {NX : IpNetOps} {DN : DnsNames}.

Record Resolver : Type := mkResolver {
  exchange_with_options : Message -> LookupOptions -> result IoError Message;
  lookup_with_options : text -> LookupOptions -> result IoError (list IpAddr);
}.

Record RoutingResolver : Type := mkRouting {
  rules : list DnsRule;
  resolvers : gmap text Resolver;
  fallback : Resolver;
  rdrc_timeout : option Z;
  router : option Rules.store;
}.

(** The record of an address that fits the type of the query. *)
Definition address_record (name : Name) (qtype : Z) (address : IpAddr) : list DnsRecord :=
  match address with
  | IpV4 a => if decide (qtype = TYPE_A) then [mkRecord name CLASS_IN 60 (RA a)] else []
  | IpV6 a => if decide (qtype = TYPE_AAAA) then [mkRecord name CLASS_IN 60 (RAAAA a)] else []
  end.

Definition exchange_resolver (r : Resolver) (request : Message) (options : LookupOptions) : result IoError Message :=
  match exchange_with_options r request options with
  | Err Unsupported =>
      match m_queries request with
      | [query] =>
          let qtype := query_type query in
          let options := force_query_strategy options (Some qtype) in
          if decide (qtype <> TYPE_A /\ qtype <> TYPE_AAAA) then Err Unsupported
          else
            addresses ← lookup_with_options r (to_utf8 (query_name query)) options;
            let response := response_to request in
            Ok (mkMessage (m_id response) (m_op_code response) (m_response response) (m_authoritative response)
              (m_recursion_desired response) (m_recursion_available response) (m_response_code response)
              (m_queries response) (concat (address_record (query_name query) qtype <$> addresses)) [] [] None)
      | _ => Err Unsupported
      end
  | answer => answer
  end.

(** The clocks that an exchange reads at the rule of an index, and whether the
    database answers. *)
Record Moment : Type := mkMoment {
  load_at : nat -> Z;
  save_at : nat -> Z;
  reject_at : nat -> Z;
  database : bool;
}.

(** What an exchange changes: the table and the recent rejects of every rule. *)
Record State : Type := mkState { table : Rdrc.rows; recent : gmap nat (list Z) }.

Section one.
Context (rr : RoutingResolver) (w : Moment) (request : Message) (base : LookupOptions) (domain : text)
  (m : QueryMetadata).

Definition is_address_query : bool :=
  existsb (fun q => bool_decide (query_type q ∈ [TYPE_A; TYPE_AAAA; TYPE_HTTPS])) (m_queries request).

Definition rdrc_key (server : text) (query : Query) : text * text * Z :=
  (server, to_utf8 (query_name query), query_type query).

Definition rdrc_rejects (i : nat) (server : text) (st : State) : bool * State :=
  match rdrc_timeout rr, head (m_queries request) with
  | Some _, Some query =>
      if database w then
        match Rdrc.load_rdrc (table st) (rdrc_key server query) (load_at w i) with
        | (Ok rejected, t) => (rejected, mkState t (recent st))
        | (Err _, t) => (false, mkState t (recent st))
        end
      else (false, st)
  | _, _ => (false, st)
  end.

Definition save_rejection (i : nat) (server : text) (st : State) : State :=
  match rdrc_timeout rr, head (m_queries request) with
  | Some timeout, Some query =>
      if database w then
        match Rdrc.save_rdrc (table st) (rdrc_key server query) (save_at w i) timeout with
        | Ok t => mkState t (recent st)
        | Err _ => st
        end
      else st
  | _, _ => st
  end.

Inductive scanned : Type :=
| Selected (i : nat) (rule : DnsRule) (server : text) (options : LookupOptions)
| Finished (i : nat) (answer : result IoError Message)
| Exhausted (options : LookupOptions).

(** The walk over the rules from an index on. *)
Fixpoint scan (i : nat) (l : list DnsRule) (options : LookupOptions) (st : State) : scanned * State :=
  match l with
  | [] => (Exhausted options, st)
  | rule :: l =>
      if (has_legacy_address_limit (router rr) rule && negb is_address_query)
         || negb (legacy_pre_matches (router rr) rule domain m)
      then scan (S i) l options st
      else
        match rule_action rule with
        | DRoute server _ overrides => (Selected i rule server (apply_override overrides options), st)
        | DRouteOptions overrides => scan (S i) l (apply_override overrides options) st
        | DReject method no_drop =>
            let '(drop, times) := should_drop method no_drop (reject_at w i) (default [] (recent st !! i)) in
            let st := mkState (table st) (<[i := times]> (recent st)) in
            (Finished i (if drop then Err TimedOut else Ok (refused_response request)), st)
        | DPredefined p => (Finished i (Ok (predefined_response p request)), st)
        | DEvaluate _ _ _ _ | DRespond => (Finished i (Err InvalidData), st)
        end
  end.

(** Who gave the answer, and what was passed over on the way: an answer that
    did not stand, or a server whose answer is known not to. *)
Inductive Source : Type := ByRule (i : nat) | ByAction (i : nat) | ByFallback.

Inductive Passed : Type :=
| Rejected (i : nat) (response : Message)
| Skipped (i : nat).

(** The loop of [exchange_legacy]: [fuel] rounds at most. *)
Fixpoint rounds (fuel : nat) (start : nat) (st : State) (trace : list Passed)
    : option (Source * result IoError Message * State * list Passed) :=
  match fuel with
  | O => None
  | S fuel =>
      let '(out, st) := scan start (drop start (rules rr)) base st in
      match out with
      | Exhausted options => Some (ByFallback, exchange_resolver (fallback rr) request options, st, trace)
      | Finished i answer => Some (ByAction i, answer, st, trace)
      | Selected i rule server options =>
          let limit := has_legacy_address_limit (router rr) rule in
          let '(rejects, st) := if limit then rdrc_rejects i server st else (false, st) in
          if rejects : bool then rounds fuel (S i) st (trace ++ [Skipped i])
          else
            match resolvers rr !! server with
            | None => Some (ByRule i, Err Panicked, st, trace)
            | Some resolver =>
                match exchange_resolver resolver request options with
                | Err e => Some (ByRule i, Err e, st, trace)
                | Ok response =>
                    if negb limit || legacy_matches_response (router rr) rule domain m response
                    then Some (ByRule i, Ok response, st, trace)
                    else rounds fuel (S i) (save_rejection i server st) (trace ++ [Rejected i response])
                end
            end
      end
  end.

Definition exchange_legacy (st : State) : option (Source * result IoError Message * State * list Passed) :=
  rounds (S (length (rules rr))) 0 st [].

End one.

(** The entry in the legacy mode. *)
Definition exchange_once (rr : RoutingResolver) (w : Moment) (request : Message) (options : LookupOptions)
    (context : option Metadata) (clash_mode : option text) (st : State)
    : option (Source * result IoError Message * State * list Passed) :=
  match m_queries request with
  | [] => Some (ByFallback, exchange_resolver (fallback rr) request options, st, [])
  | query :: _ =>
      exchange_legacy rr w request options (to_utf8 (query_name query)) (from_request request context clash_mode) st
  end.

(** ** The answer satisfies the rule it was asked for *)

Section answers.
Context (rr : RoutingResolver) (w : Moment) (request : Message) (base : LookupOptions) (domain : text)
  (m : QueryMetadata).




Context (Hok : Forall (Legacy.rule_ok (router rr)) (rules rr)) (Hm : md_destination_addresses (qm_route m) = []).











End answers.
End exchange.
(** ** Example *)

Module ExchangeExample.
Import Legacy.LegacyExample.

(** A server with one address for every name. *)
Definition server (address : Z) : @Resolver IpSet.Example.ops names :=
  mkResolver (fun _ _ => Ok (response address)) (fun _ _ => Ok [IpV4 address]).

Definition options : @LookupOptions IpSet.Example.ops := mkLookup FakeIp.AsIs None false false None None false.

(** Answers of the first server that are in [10.0.0.0/8], and otherwise those
    of the second. *)
Definition routing : @RoutingResolver Meaning.literal IpSet.Example.ops names :=
  mkRouting
    [DDefault (matcher [[1]] false None) false action;
     DDefault (matcher [] false None) false (DRoute [116] false (mkLookupOverride None FakeIp.AsIs false false None None false))]
    {[ [115] := server 1; [116] := server 2 ]} (server 3) (Some 60000000000) (Some sets).

Definition moment : Moment := mkMoment (fun _ => 1000000000) (fun _ => 1000000000) (fun _ => 0) true.

Definition outcome : option (Source * result IoError (@Message names) * State * list (@Passed names)) :=
  exchange_legacy routing moment (request TYPE_A) options [97] query (mkState ∅ ∅).

(** The second server answers, and the rejected answer is remembered. *)
Lemma outcome_value :
  (fun o => (o.1.1, o.2)) <$> outcome
  = Some (ByRule 1, Ok (response 2), [Rejected 0 (response 1)]).
Proof. reflexivity. Qed.


End ExchangeExample.


End Exchange.
